(* ===== verification/_CoqProject ===== *)
-Q . S2P
Prelude.v
UserMem.v
RbTree.v
Alloc.v
AllocInv.v
AllocSpec.v
AllocFree.v
AllocMap.v
AllocProps.v
Protocol.v
Bio.v
BioInv.v
BioSpec.v
SvcMgr.v
SvcInv.v
SvcProps.v
Ashmem.v
AshmemInv.v
AshmemPin.v
AshmemOps.v
AshmemProps.v
Kernel.v
Refs.v
Transact.v
Send.v
Write.v
Read.v
Driver.v
Scenario.v
BioParse.v
KernelWp.v
RefsInv.v
RefsProps.v
Keeps.v
SendSpec.v
FailedReply.v
SendProps.v
Ends.v
Typed.v
Sound.v
NodeCommands.v
Tables.v
TablesStep.v
TablesOps.v
TablesFiles.v
SoundFiles.v
EndsOps.v
ReadBounds.v
EndsFiles.v
TypedFiles.v
Reach.v
DeathTold.v
Objects.v
ParcelState.v
Parcel.v
ParcelWrite.v
ParcelRead.v
ParcelInv.v
ParcelAppend.v
ParcelObjects.v
ParcelValues.v
ParcelShows.v
ParcelFind.v
ParcelRoundtrip.v
ParcelProps.v
ParcelErrors.v
RefBase.v
Unicode.v
Vector.v
VectorInv.v
VectorOps.v
VectorProps.v
Commands.v
IpcState.v
IpcThread.v
IpcTalk.v
IpcCommands.v
IpcReturns.v
IpcCall.v
IpcExamples.v
