(* ===== verification/Prelude.v ===== *)
(** * binder-for-linux: a verification of its drivers and service manager

    The repository holds Android's binder driver for plain Linux kernels
    (driver/binder), the anonymous shared memory driver (driver/ashmem), the service
    manager (servicemanager) and Android's user-space libraries (libs).  This
    development models the two drivers and the service manager, the code that other
    programs have to trust, and of libbinder the parcels and the threads that speak to
    the driver: what every client and every service is built on; of libutils the
    reference counts, the conversions of strings and the vectors beneath them.

    ** How the parts work together

    A process opens the device, maps an area of buffers and talks to the driver by
    [ioctl(BINDER_WRITE_READ)]: it writes a stream of commands (BC_...) and reads a
    stream of returns (BR_...).  A transaction is copied from the sender's memory into a
    buffer of the target's area; the objects in it are translated between the sender's
    nodes and handles and the target's; the transaction is queued, read by a thread of
    the target, and answered.  The service manager is the process behind handle 0: it
    keeps the names of services and asks the driver to be told of their deaths.  Other
    programs use libbinder: a [Parcel] holds the data and the objects of a message, a
    proxy ([BpBinder]) sends it through the [IPCThreadState] of the calling thread, and
    the [IPCThreadState] of a thread of the pool runs the commands the driver returns on
    the objects of its process.

    ** Files and sources

    - [Prelude] (this file): results with faults, machine integers, lists.  [UserMem]:
      little-endian words and the interface to user memory.  [Protocol]: binder.h, the
      command codes and the layouts of the structures, for LP64.
    - The buffer allocator of driver/binder/binder.c ([binder_alloc_buf],
      [binder_free_buf], [binder_update_page_range], [binder_buffer_lookup], the set-up
      in [binder_mmap]): [Alloc], over the search trees of [RbTree].  [AllocInv],
      [AllocSpec], [AllocFree] and [AllocMap] prove, [AllocProps] states.
    - The rest of driver/binder/binder.c: [Kernel] has the structures, the state and its
      monad; [Refs] nodes and references; [Transact] and [Send] the transactions;
      [Write] the commands; [Read] the returns; [Driver] threads, [poll], [ioctl],
      [mmap], [open], [flush], [release] and the deferred work.  A definition has the
      name of the C function or of the part of it that it translates.  [Scenario] runs
      two processes through a call and its reply.
    - driver/ashmem/ashmem.c: [Ashmem]; proofs in [AshmemInv], [AshmemPin],
      [AshmemOps], properties in [AshmemProps].
    - servicemanager/binder.c: [Bio], with [BioInv], [BioSpec], [BioParse];
      servicemanager/service_manager.c: [SvcMgr], with [SvcInv] and [SvcProps].
    - libs/binder/Parcel.cpp: [ParcelState] has the fields, the heap, the resources a
      parcel holds and the monad; [Parcel] releasing, growing and adopting;
      [ParcelWrite] and [ParcelRead] the writers and the readers.  Proofs in
      [ParcelInv], [ParcelAppend], [ParcelObjects], [ParcelValues], [ParcelShows],
      [ParcelFind] and [ParcelRoundtrip], properties in [ParcelFind], [ParcelProps] and
      [ParcelErrors], which also has concrete parcels.
    - libs/binder/IPCThreadState.cpp and BpBinder.cpp: [IpcState] has a thread, the
      world around it and its monad; [IpcThread] the functions.  [IpcTalk] proves what
      one exchange with the driver does, [IpcCommands] what becomes of the commands,
      [IpcReturns] of the returns, [IpcCall] of a call; [IpcExamples] has concrete runs.
      [Commands] joins the two sides: it states the stream of commands as a list, and
      that [Write] does what is on it.
    - libs/utils/RefBase.cpp: [RefBase], the counts of an object shared by threads, each
      operation cut into its atomic steps (without DEBUG_REFS).  libs/utils/Unicode.cpp and
      the functions of String8.cpp and String16.cpp that make a string from another
      encoding: [Unicode].
    - libs/utils/VectorImpl.cpp, SharedBuffer.cpp and TypeHelpers.h: [Vector] has the
      slots and items, the counted buffers, and every operation of [VectorImpl] and
      [SortedVectorImpl] under its name.  [VectorInv] has the invariant and the rules,
      [VectorOps] what each operation does to a vector, [VectorProps] the properties.

    ** The model

    An operation of the driver is a function from a state to a result and a state, or to
    a [fault]: a [BUG], a bad pointer ([OOPS]) or an endless loop ([HANG]).  Objects
    live in maps from addresses, which [kfree] takes them out of, so that every use of a
    freed object is a fault.  A pointer is the address, a list head a key of the map of
    lists.  The global lock makes each system call one step.  It is given up in two places:
    in the wait of [binder_thread_read], which splits that function in two, and between
    the rounds of [binder_deferred_func], which are events of their own; anything may
    happen there.  [Reach] puts the pieces together: [event] is a call into the driver,
    [handle] does it, [reachable] is what sequences of them lead to.
    Integers are [Z] with the wrap-around of their C types written out ([u32], [u64],
    [s32]).

    What is not this repository's code is a parameter: the kernel's answers (memory,
    pages, security hooks, file descriptors, priorities: [KernelEnv] and [page_env]), user
    memory ([UserOps]), the balance of red-black trees ([RbOps]), uninitialised memory
    ([Junk]), the virtual file system under ashmem ([Vfs]), [malloc] of the service manager.
    Their laws ([UserLaws], [UserRange], [RbLaws]; [EnvTyped] and [JunkTyped] for the widths
    of what they hand out) are what their documentation promises, and every one has an
    instance.  What events assume of the kernel is
    [admissible]: a mapping gets an area of whole pages; a task that waits keeps its file
    and its thread.

    libbinder has a monad and a heap of its own ([ParcelState]): an access outside of an
    allocation, a second [free] and an [abort] are faults; the assertions of
    cutils/log.h are defined to do nothing.  Objects of C++ are addresses; what is done
    to them ([incStrong], [decStrong], closing a descriptor, the virtual [onTransact]) is
    recorded in order, or asked of a parameter ([Objects] of
    [IpcState]).  The driver, seen from a thread, is a list of answers to the ioctls it
    makes: an answer is what is left of the commands and the bytes returned.
    [talkWithDriver] is modelled as it is with HAVE_ANDROID_OS.

    The memory of libutils is as small as its clients need: a string is a list of units
    with the length that was allocated; a vector's storage is a list of slots, raw or with
    an item, where using an item that is not there, or losing one that has a destructor,
    is a fault; a count is an integer that threads change one atomic step at a time.

    ** What is shown

    - The whole driver ([Reach]): in every reachable state the trees, lists and handles
      agree with the objects ([reachable_handles_ok], by [Tables] .. [TablesFiles]); the
      areas are well formed and the buffers in use mapped and disjoint
      ([reachable_areas_ok], by [Sound] .. [SoundFiles]); every integer field has a value of
      its C type ([reachable_typed], for events whose arguments have theirs, by [Typed] and
      [TypedFiles]); and every event ends ([reachable_ends], by [Ends] .. [EndsFiles]).
    - What parts of it promise: the outcome of a transaction and the list it is queued on
      ([SendProps]), of a failed reply ([FailedReply]), of counting ([RefsProps]), of
      sending an object and getting it back ([Objects]), of a node's death ([DeathTold]),
      what a node's owner is told ([NodeCommands]), and that reads of whole words stay in
      their buffer ([ReadBounds]).
    - The allocator ([AllocProps]): allocation is best-fit, complete and undone by
      freeing; freeing hits no [BUG_ON] and merges; a failed change of pages is undone.
    - ashmem ([AshmemProps]): pinning and unpinning against sets of pages, the shrinker,
      names, protection masks, and where the code falls short.
    - The service manager: its handler is safe on every message, registers, finds and
      forgets services ([SvcProps]); its parser does what the driver's returns call for
      ([BioParse]).
    - Parcels: what is written is read back, values ([parcel_roundtrip]) and whole
      messages with their objects ([message_roundtrip]); every reference a parcel took
      is given back once ([parcel_gives_back]); and where errors get lost
      ([ParcelErrors]).
    - Threads of libbinder: the commands a thread queues reach the driver whole, in
      order and once ([commands_delivered]), and the driver does just them
      ([binder_thread_write_runs]); every request to count a reference is obeyed and
      acknowledged ([references_handled]); a call returns the reply that was sent, and
      keeps its buffer until the parcel is freed ([call_answered]).
    - Reference counts, under any interleaving: an object is there while a reference is
      held, and is told, destroyed and released once ([regular_lifetime],
      [extended_lifetime]); the race that breaks the first reference
      ([first_reference_race]).
    - Strings: the encodings are converted into each other and back
      ([unicode_roundtrip]); when the memory measured for a string is enough
      ([strings_fit]).
    - Vectors: sharing storage cannot be told from copying lists ([vectors_are_lists]);
      sorting is stable and sorts ([sort_sorts]); sorted vectors are ordered sets
      ([sorted_vectors_are_sets]); what happens without memory ([shared_storage_written]).

    [Keeps] and [KernelWp] hold the rules by which these proofs follow the code.

    ** Bounds

    Loops over lists are structural.  The others take fuel from the size of what they
    work on and end in [HANG] when it is used up; that it never is, is a theorem for each
    entry point ([reachable_ends], [binder_parse_processes], [failed_reply_told]): a
    walk over transactions takes as many rounds as there are transactions, or twice that
    where one is met in two roles; a write a round per four bytes; a read five rounds per
    entry of a work list, for a node yields four commands at most; the draining of a
    process a round per entry of each tree; the workqueue a round per process on its
    list; a thread of libbinder a round per return in the answers of the driver.
    Statements on counts that suppose less than 2^31 references say so.

    ** Not modelled

    Wake-ups and scheduling (who waits is in the state, who runs next is any event);
    [binder_stop_on_user_error], which parks erroneous callers for a debugger; debug
    output, trace points and debugfs; the cache aliasing of some ARM cores; module
    initialisation and the lookup of unexported kernel symbols (deps.c).  Of the service
    manager, opening and closing the device and the debug dumps.  Of libbinder's threads:
    locks, logging, scheduling policies, thread-local storage and the objects attached
    to a proxy; of Parcel.cpp, [print]; of the strings of libutils, their editing.
    The rest of libs (ProcessState, memory sharing, the other containers, threads, clocks and
    logging of libutils and libcutils) is glue over the C library and general-purpose
    templates, and the programs under test only exercise the rest. *)

From Stdlib Require Export ZArith Lia.
From stdpp Require Export base gmap list list_numbers sets strings sorting.

#[export] Set Warnings "-notation-overridden,-clear-no-such-hyp".

Declare Scope binder_scope.
Delimit Scope binder_scope with B.
Open Scope Z_scope.

(** ** Results with kernel faults

    [BUG] is a failed [BUG_ON]/[BUG()]; [OOPS] is the use of a NULL, freed or
    otherwise invalid pointer; [HANG] is a loop that does not end.  No operation
    returns a state with a fault: the machine has stopped. *)
Inductive fault : Set := BUG | OOPS | HANG.

Inductive res (A : Type) : Type :=
| Ok (a : A)
| Fault (f : fault).
Arguments Ok {A} _.
Arguments Fault {A} _.

#[export] Instance res_ret : MRet res := fun A a => Ok a.
#[export] Instance res_bind : MBind res := fun A B f m =>
  match m with Ok a => f a | Fault e => Fault e end.
#[export] Instance res_fmap : FMap res := fun A B f m =>
  match m with Ok a => Ok (f a) | Fault e => Fault e end.

(** [BUG_ON(c)] *)
Definition bug_on (c : bool) : res unit := if c then Fault BUG else Ok tt.

(** The dereference of a pointer whose target may be gone. *)
Definition deref {A} (o : option A) : res A :=
  match o with Some a => Ok a | None => Fault OOPS end.

(** A [res] computation that succeeds with a value in [P]. *)
Definition succeeds {A} (m : res A) (P : A -> Prop) : Prop :=
  match m with Ok a => P a | Fault _ => False end.

Lemma succeeds_bind {A B} (m : res A) (f : A -> res B) P Q :
  succeeds m P -> (forall a, P a -> succeeds (f a) Q) -> succeeds (m ≫= f) Q.
Proof. destruct m; cbn; auto. Qed.

Lemma succeeds_mono {A} (m : res A) (P Q : A -> Prop) :
  succeeds m P -> (forall a, P a -> Q a) -> succeeds m Q.
Proof. destruct m; cbn; auto. Qed.

Lemma succeeds_Ok {A} (m : res A) P : succeeds m P <-> exists a, m = Ok a /\ P a.
Proof.
  split; [destruct m; cbn; [eauto|done]|].
  intros (a & -> & H). exact H.
Qed.

Lemma bind_Ok {A B} (a : A) (f : A -> res B) : Ok a ≫= f = f a.
Proof. reflexivity. Qed.

Lemma bind_Ok_inv {A B} (m : res A) (f : A -> res B) b :
  m ≫= f = Ok b -> exists a, m = Ok a /\ f a = Ok b.
Proof. destruct m; [eauto|discriminate]. Qed.

Lemma bug_on_false c : c = false -> bug_on c = Ok tt.
Proof. intros ->. reflexivity. Qed.

Lemma deref_Some {A} (o : option A) a : o = Some a -> deref o = Ok a.
Proof. intros ->. reflexivity. Qed.

Create HintDb binder.
(** Run the leading successful computations of a bind. *)
Ltac run :=
  repeat (first
    [ rewrite bind_Ok
    | progress cbn beta iota
    | rewrite bug_on_false by (assumption || reflexivity)
    | erewrite deref_Some by eassumption ]).

(** Split a successful bind hypothesis into its steps. *)
Ltac unbind :=
  repeat match goal with
  | H : (_ ≫= _) = Ok _ |- _ => apply bind_Ok_inv in H; destruct H as (? & ? & H)
  | H : Ok _ = Ok _ |- _ => injection H as H
  | H : Fault _ = Ok _ |- _ => discriminate H
  | H : (let '(_, _) := ?p in _) = Ok _ |- _ => destruct p
  end.

(** ** Machine integers *)
Definition u64 (x : Z) : Z := x mod 2 ^ 64.
Definition u32 (x : Z) : Z := x mod 2 ^ 32.

(** [s32 x]: the value of the low 32 bits of [x] read as a C [int]. *)
Definition s32 (x : Z) : Z :=
  let y := u32 x in if y <? 2 ^ 31 then y else y - 2 ^ 32.

(** [s64 x]: the low 64 bits of [x] read as a C [long]. *)
Definition s64 (x : Z) : Z :=
  let y := u64 x in if y <? 2 ^ 63 then y else y - 2 ^ 64.

(** Error numbers (asm-generic/errno-base.h); functions return them negated. *)
Definition EPERM : Z := 1.
Definition EBADF : Z := 9.
Definition EAGAIN : Z := 11.
Definition ENOMEM : Z := 12.
Definition EFAULT : Z := 14.
Definition EBUSY : Z := 16.
Definition EINVAL : Z := 22.
Definition ENOTTY : Z := 25.

Lemma u64_small x : 0 <= x < 2 ^ 64 -> u64 x = x.
Proof. intros. unfold u64. apply Z.mod_small. lia. Qed.
Lemma u64_range x : 0 <= u64 x < 2 ^ 64.
Proof. unfold u64. apply Z.mod_pos_bound. lia. Qed.
Lemma u32_small x : 0 <= x < 2 ^ 32 -> u32 x = x.
Proof. intros. unfold u32. apply Z.mod_small. lia. Qed.
Lemma u32_range x : 0 <= u32 x < 2 ^ 32.
Proof. unfold u32. apply Z.mod_pos_bound. lia. Qed.
Lemma s32_small x : - 2 ^ 31 <= x < 2 ^ 31 -> s32 x = x.
Proof.
  intros. unfold s32, u32. destruct (decide (0 <= x)).
  - rewrite Z.mod_small by lia. destruct (Z.ltb_spec x (2 ^ 31)); lia.
  - rewrite <- (Z.mod_add x 1) by lia. rewrite Z.mod_small by lia.
    destruct (Z.ltb_spec (x + 1 * 2 ^ 32) (2 ^ 31)); lia.
Qed.

Lemma s64_small x : - 2 ^ 63 <= x < 2 ^ 63 -> s64 x = x.
Proof.
  intros. unfold s64, u64. destruct (decide (0 <= x)).
  - rewrite Z.mod_small by lia. destruct (Z.ltb_spec x (2 ^ 63)); lia.
  - rewrite <- (Z.mod_add x 1) by lia. rewrite Z.mod_small by lia.
    destruct (Z.ltb_spec (x + 1 * 2 ^ 64) (2 ^ 63)); lia.
Qed.

(** ** Masks and alignment

    The kernel's [ALIGN(x, a)] for a power of two [a], and the page macros. *)
Definition align (x a : Z) : Z := Z.land (x + (a - 1)) (Z.lnot (a - 1)).
Definition is_aligned (x a : Z) : bool := Z.land x (a - 1) =? 0.

Definition PAGE_SIZE : Z := 4096.
Definition PAGE_MASK : Z := Z.lnot (PAGE_SIZE - 1).
Definition page_down (x : Z) : Z := Z.land x PAGE_MASK.
Definition page_align (x : Z) : Z := align x PAGE_SIZE.

Lemma land_lnot_ones x n : 0 <= n -> Z.land x (Z.lnot (Z.ones n)) = 2 ^ n * (x / 2 ^ n).
Proof.
  intros Hn. rewrite <- Z.ldiff_land, Z.ldiff_ones_r, Z.shiftl_mul_pow2, Z.shiftr_div_pow2 by lia.
  lia.
Qed.

Lemma page_down_div x : page_down x = 4096 * (x / 4096).
Proof. apply (land_lnot_ones x 12). lia. Qed.
Lemma page_align_div x : page_align x = 4096 * ((x + 4095) / 4096).
Proof. apply (land_lnot_ones (x + 4095) 12). lia. Qed.
Lemma align8_div x : align x 8 = 8 * ((x + 7) / 8).
Proof. apply (land_lnot_ones (x + 7) 3). lia. Qed.
Lemma align4_div x : align x 4 = 4 * ((x + 3) / 4).
Proof. apply (land_lnot_ones (x + 3) 2). lia. Qed.
Lemma is_aligned_mod x n : 0 <= n -> is_aligned x (2 ^ n) = (x mod 2 ^ n =? 0).
Proof.
  intros. unfold is_aligned.
  replace (2 ^ n - 1) with (Z.ones n) by (rewrite Z.ones_equiv; lia).
  by rewrite Z.land_ones.
Qed.

(** Page-aligned addresses, and the Galois connections of rounding. *)
Definition paged (p : Z) : Prop := p mod 4096 = 0.

Ltac zdiv := Z.div_mod_to_equations; lia.

Lemma page_down_paged x : paged (page_down x).
Proof. unfold paged. rewrite page_down_div. zdiv. Qed.
Lemma page_align_paged x : paged (page_align x).
Proof. unfold paged. rewrite page_align_div. zdiv. Qed.
Lemma page_down_bounds x : page_down x <= x < page_down x + 4096.
Proof. rewrite page_down_div. zdiv. Qed.
Lemma page_align_bounds x : x <= page_align x < x + 4096.
Proof. rewrite page_align_div. zdiv. Qed.
Lemma page_down_le p x : paged p -> p <= page_down x <-> p <= x.
Proof. unfold paged. rewrite page_down_div. intros. split; zdiv. Qed.
Lemma page_align_le p x : paged p -> page_align x <= p <-> x <= p.
Proof. unfold paged. rewrite page_align_div. intros. split; zdiv. Qed.
Lemma page_down_id p : paged p -> page_down p = p.
Proof. unfold paged. rewrite page_down_div. zdiv. Qed.
Lemma page_align_id p : paged p -> page_align p = p.
Proof. unfold paged. rewrite page_align_div. zdiv. Qed.
#[export] Hint Resolve page_down_paged page_align_paged : binder.

(** Arithmetic stays folded under [cbn]. *)
#[global] Arguments align : simpl never.
#[global] Arguments page_down : simpl never.
#[global] Arguments page_align : simpl never.
#[global] Arguments u64 : simpl never.
#[global] Arguments u32 : simpl never.
#[global] Arguments s32 : simpl never.
#[global] Arguments s64 : simpl never.
#[global] Arguments Z.mul : simpl never.
#[global] Arguments Z.add : simpl never.
#[global] Arguments Z.sub : simpl never.
#[global] Arguments Z.pow : simpl never.
#[global] Arguments Z.land : simpl never.
#[global] Arguments Z.lor : simpl never.
#[global] Arguments Z.lnot : simpl never.
#[global] Arguments Z.compare : simpl nomatch.

(** ** Sums over lists and removal from lists *)
Section Sums.
Context {A : Type}.
Implicit Types (f g : A -> Z) (l : list A) (x : A).

Fixpoint Zsum f l : Z :=
  match l with
  | [] => 0
  | x :: l => f x + Zsum f l
  end.

Lemma Zsum_app f l1 l2 : Zsum f (l1 ++ l2) = Zsum f l1 + Zsum f l2.
Proof. induction l1 as [|x l1 IH]; cbn; [lia|]. rewrite IH. lia. Qed.

Lemma Zsum_ext f g l : (forall x, x ∈ l -> f x = g x) -> Zsum f l = Zsum g l.
Proof.
  intros H. induction l as [|x l IH]; cbn; [done|].
  rewrite H by left. f_equal. apply IH. intros y Hy. apply H. by right.
Qed.

Lemma Zsum_nonneg f l : (forall x, x ∈ l -> 0 <= f x) -> 0 <= Zsum f l.
Proof.
  intros H. induction l as [|x l IH]; cbn; [lia|].
  pose proof (H x ltac:(left)). assert (0 <= Zsum f l); [|lia].
  apply IH. intros y Hy. apply H. by right.
Qed.
End Sums.

(** [list_del]: the entries other than [x]. *)
Definition list_del {A} `{EqDecision A} (x : A) (l : list A) : list A := filter (fun y => y ≠ x) l.

Section ListDel.
Context {A : Type} `{EqDecision A}.
Implicit Types (l : list A) (x y : A).

Lemma elem_of_list_del x y l : y ∈ list_del x l <-> y ∈ l /\ y ≠ x.
Proof. unfold list_del. rewrite list_elem_of_filter. tauto. Qed.

Lemma NoDup_list_del x l : NoDup l -> NoDup (list_del x l).
Proof. apply NoDup_filter. Qed.

Lemma list_del_notin x l : x ∉ l -> list_del x l = l.
Proof.
  unfold list_del. induction l as [|y l IH]; intros H; [done|].
  rewrite filter_cons. rewrite decide_True by set_solver. f_equal. set_solver.
Qed.

Lemma list_del_app x l1 l2 : list_del x (l1 ++ l2) = list_del x l1 ++ list_del x l2.
Proof. apply filter_app. Qed.

Lemma list_del_mid x l1 l2 : NoDup (l1 ++ x :: l2) -> list_del x (l1 ++ x :: l2) = l1 ++ l2.
Proof.
  intros H. apply NoDup_app in H as (_ & H1 & [H2 _]%NoDup_cons).
  rewrite list_del_app, (list_del_notin x l1) by (intros ?; set_solver). f_equal.
  unfold list_del. rewrite filter_cons, decide_False by tauto. by apply list_del_notin.
Qed.

Lemma length_list_del x l : x ∈ l -> (length (list_del x l) < length l)%nat.
Proof.
  unfold list_del. induction l as [|y l IH]; intros Hx; [by apply elem_of_nil in Hx|].
  rewrite filter_cons. destruct (decide (y ≠ x)) as [Hn|Hn]; cbn.
  - apply elem_of_cons in Hx as [->|Hx]; [done|]. specialize (IH Hx). lia.
  - pose proof (length_filter (fun z => z ≠ x) l). lia.
Qed.

Lemma Zsum_list_del (f : A -> Z) x l : NoDup l -> x ∈ l -> Zsum f (list_del x l) = Zsum f l - f x.
Proof.
  intros Hnd (l1 & l2 & ->)%list_elem_of_split. rewrite list_del_mid by done.
  rewrite !Zsum_app. cbn. lia.
Qed.

Lemma StronglySorted_list_del (R : A -> A -> Prop) x l : StronglySorted R l -> StronglySorted R (list_del x l).
Proof.
  unfold list_del. induction 1 as [|a l H IH Hf]; [constructor|].
  rewrite filter_cons. case_decide; [|done]. constructor; [done|].
  rewrite Forall_forall in *. intros y [_ Hy]%list_elem_of_filter. auto.
Qed.
End ListDel.

Lemma elem_of_take_in {A} (x : A) n l : x ∈ take n l -> x ∈ l.
Proof. intros H. rewrite <- (take_drop n l). apply elem_of_app. by left. Qed.

(** A strongly sorted list is split at any place into sorted, ordered halves. *)
Lemma StronglySorted_app_iff {A} (R : A -> A -> Prop) l1 l2 :
  StronglySorted R (l1 ++ l2) <->
  StronglySorted R l1 /\ StronglySorted R l2 /\ (forall a b, a ∈ l1 -> b ∈ l2 -> R a b).
Proof.
  induction l1 as [|a l1 IH]; cbn.
  - split; [intros H; split_and!; [constructor|done|set_solver]|tauto].
  - split.
    + intros [H1 H2]%StronglySorted_inv. apply IH in H1 as (H1 & H3 & H4).
      apply Forall_app in H2 as [H2 H5]. split_and!; [by constructor|done|].
      intros c b [->|Hc]%elem_of_cons Hb; [|auto]. rewrite Forall_forall in H5. auto.
    + intros (H1 & H2 & H3). apply StronglySorted_inv in H1 as [H1 H4].
      constructor; [apply IH; split_and!; [done|done|]; set_solver|].
      apply Forall_app. split; [done|]. apply Forall_forall. intros. apply H3; [left|done].
Qed.

Lemma StronglySorted_cons_iff {A} (R : A -> A -> Prop) a l :
  StronglySorted R (a :: l) <-> (forall b, b ∈ l -> R a b) /\ StronglySorted R l.
Proof.
  split; [intros [H1 H2]%StronglySorted_inv|intros [H1 H2]; constructor]; rewrite ?Forall_forall in *; auto.
Qed.

Lemma StronglySorted_ext {A} (R R' : A -> A -> Prop) l :
  (forall a b, a ∈ l -> b ∈ l -> R a b -> R' a b) -> StronglySorted R l -> StronglySorted R' l.
Proof.
  induction l as [|a l IH]; intros H; [constructor|]. rewrite !StronglySorted_cons_iff.
  intros [H1 H2]. split; [intros b Hb; apply H; [left|by right|auto]|].
  apply IH; [|done]. intros; apply H; [by right..|done].
Qed.

Lemma u64_add_l x y : u64 (u64 x + y) = u64 (x + y).
Proof. unfold u64. by rewrite Zplus_mod_idemp_l. Qed.
Lemma u64_sub_l x y : u64 (u64 x - y) = u64 (x - y).
Proof. unfold u64. by rewrite Zminus_mod_idemp_l. Qed.
Lemma u64_add_r x y : u64 (x + u64 y) = u64 (x + y).
Proof. unfold u64. by rewrite Zplus_mod_idemp_r. Qed.
Lemma u64_idem x : u64 (u64 x) = u64 x.
Proof. unfold u64. by rewrite Z.mod_mod. Qed.
