(* ===== verification/UserMem.v ===== *)
(** * Bytes, words and user memory

    Little-endian encoding of words (the targets are little-endian), and the
    interface through which kernel code reaches user memory.  [copy_from_user],
    [copy_to_user], [get_user], [put_user] and [strncpy_from_user] are the
    kernel's, not the drivers': the class [UserOps] has them as operations and
    [UserLaws] states what the proofs use.  [flat_user] is an instance, a map
    from addresses to bytes, for the witnesses. *)
From S2P Require Import Prelude.

(** ** Little-endian words *)
Section LittleEndian.
Fixpoint le_bytes (n : nat) (x : Z) : list Z :=
  match n with
  | O => []
  | S n => x mod 256 :: le_bytes n (x / 256)
  end.

Fixpoint le_val (l : list Z) : Z :=
  match l with
  | [] => 0
  | b :: l => b + 256 * le_val l
  end.

Definition is_byte (b : Z) : Prop := 0 <= b < 256.

Lemma length_le_bytes n x : length (le_bytes n x) = n.
Proof. revert x. induction n; cbn; auto. Qed.

Lemma le_bytes_byte n x : Forall is_byte (le_bytes n x).
Proof.
  revert x. induction n as [|n IH]; intros x; cbn; constructor; [|apply IH].
  unfold is_byte. apply Z.mod_pos_bound. lia.
Qed.

Lemma le_val_bytes n x : 0 <= x < 256 ^ Z.of_nat n -> le_val (le_bytes n x) = x.
Proof.
  revert x. induction n as [|n IH]; intros x Hx; cbn.
  - change (256 ^ Z.of_nat 0) with 1 in Hx. lia.
  - rewrite IH.
    + pose proof (Z.div_mod x 256). lia.
    + rewrite Nat2Z.inj_succ, Z.pow_succ_r in Hx by lia.
      split; [apply Z.div_pos; lia|]. apply Z.div_lt_upper_bound; lia.
Qed.

Lemma le_val_bytes_mod n x : le_val (le_bytes n x) = x mod 256 ^ Z.of_nat n.
Proof.
  revert x. induction n as [|n IH]; intros x; [by rewrite Z.mod_1_r|]. cbn [le_bytes le_val]. rewrite IH.
  rewrite Nat2Z.inj_succ, Z.pow_succ_r by lia. by rewrite Z.rem_mul_r by lia.
Qed.

Lemma le_val_range l : Forall is_byte l -> 0 <= le_val l < 256 ^ Z.of_nat (length l).
Proof.
  induction 1 as [|b l Hb Hl IH]; [cbn; lia|]. cbn [le_val length].
  rewrite Nat2Z.inj_succ, Z.pow_succ_r by lia. unfold is_byte in Hb. lia.
Qed.

Lemma le_bytes_val l : Forall is_byte l -> le_bytes (length l) (le_val l) = l.
Proof.
  induction 1 as [|b l Hb Hl IH]; [done|]. cbn. unfold is_byte in Hb.
  f_equal.
  - rewrite Z.mul_comm, Z.mod_add by lia. apply Z.mod_small. lia.
  - rewrite Z.mul_comm, Z.div_add by lia. rewrite (Z.div_small b) by lia. exact IH.
Qed.

Lemma le_val_app l m : le_val (l ++ m) = le_val l + 256 ^ Z.of_nat (length l) * le_val m.
Proof.
  induction l as [|b l IH]; [cbn [app length le_val]; change (256 ^ Z.of_nat 0) with 1; lia|]. cbn [app length le_val]. rewrite IH.
  rewrite Nat2Z.inj_succ, Z.pow_succ_r by lia. ring.
Qed.
Lemma le_val_zeros k : le_val (replicate k 0) = 0.
Proof. induction k as [|k IH]; cbn; [done|]. rewrite IH. lia. Qed.
(** The low [j] bytes of a word, the others cleared. *)
Lemma le_bytes_low j n l : Forall is_byte l -> length l = n -> (j <= n)%nat ->
  le_bytes n (le_val l mod 256 ^ Z.of_nat j) = take j l ++ replicate (n - j) 0.
Proof.
  intros Hl Hn Hj. assert (le_val l mod 256 ^ Z.of_nat j = le_val (take j l ++ replicate (n - j) 0)) as ->.
  { rewrite <- (take_drop j l) at 1. rewrite !le_val_app, le_val_zeros, length_take_le by lia.
    rewrite Z.mul_comm, Z.mod_add by lia. rewrite Z.mul_0_r, Z.add_0_r. apply Z.mod_small.
    pose proof (le_val_range (take j l) (Forall_take _ _ _ Hl)) as H. rewrite length_take_le in H by lia. exact H. }
  pose proof (le_bytes_val (take j l ++ replicate (n - j) 0)) as H. rewrite length_app, length_take_le, length_replicate in H by lia.
  replace (j + (n - j))%nat with n in H by lia. apply H. apply Forall_app_2; [by apply Forall_take|].
  apply Forall_replicate. unfold is_byte. lia.
Qed.

(** Consecutive fields of the given widths. *)
Fixpoint words_of (ws : list nat) (l : list Z) : list Z :=
  match ws with
  | [] => []
  | n :: ws => le_val (take n l) :: words_of ws (drop n l)
  end.

Fixpoint bytes_of (ws : list nat) (vals : list Z) : list Z :=
  match ws, vals with
  | n :: ws, x :: vals => le_bytes n x ++ bytes_of ws vals
  | _, _ => []
  end.

Definition word (n : nat) (x : Z) : Prop := 0 <= x < 256 ^ Z.of_nat n.

Lemma words_of_bytes_of ws vals l : Forall2 word ws vals -> words_of ws (bytes_of ws vals ++ l) = vals.
Proof.
  induction 1 as [|n x ws vals Hx H IH]; cbn; [done|]. rewrite <- app_assoc.
  rewrite take_app_length' by (by rewrite length_le_bytes). rewrite drop_app_length' by (by rewrite length_le_bytes).
  by rewrite le_val_bytes, IH.
Qed.

Lemma words_of_range ws l : Forall is_byte l -> Forall2 word ws (words_of ws l).
Proof.
  revert l. induction ws as [|n ws IH]; intros l Hl; cbn in *; constructor; [|by apply IH, Forall_drop].
  pose proof (le_val_range (take n l) (Forall_take _ _ _ Hl)) as [H1 H2]. split; [done|]. eapply Z.lt_le_trans; [exact H2|].
  rewrite length_take. apply Z.pow_le_mono_r; lia.
Qed.

Lemma length_bytes_of ws vals : length ws = length vals -> length (bytes_of ws vals) = sum_list ws.
Proof.
  revert vals. induction ws as [|n ws IH]; intros [|x vals]; cbn; try done. intros [= H].
  rewrite length_app, length_le_bytes, IH by done. done.
Qed.
Lemma bytes_of_byte ws vals : Forall is_byte (bytes_of ws vals).
Proof. revert vals. induction ws as [|w ws IH]; intros [|x vals]; cbn; try constructor. apply Forall_app. split; [apply le_bytes_byte|apply IH]. Qed.
End LittleEndian.

(** ** Strings of 16-bit units *)
Section Units.
Implicit Types (nm : list Z).
Definition is_unit (x : Z) : Prop := 0 <= x < 2 ^ 16.
Definition bytes16 (s : list Z) : list Z := s ≫= le_bytes 2.

(** The units of an array in memory. *)
Fixpoint units (l : list Z) : list Z :=
  match l with
  | a :: b :: l => (a + 256 * b) :: units l
  | _ => []
  end.

Lemma length_bytes16 l : Z.of_nat (length (bytes16 l)) = 2 * Z.of_nat (length l).
Proof. unfold bytes16. induction l as [|x l IH]; cbn in *; lia. Qed.
Lemma bytes16_byte l : Forall is_byte (bytes16 l).
Proof.
  unfold bytes16. induction l as [|x l IH]; cbn; [constructor|].
  unfold is_byte. repeat constructor; try (apply Z.mod_pos_bound; lia). apply IH.
Qed.
Lemma bytes16_inj nm1 nm2 : Forall is_unit nm1 -> Forall is_unit nm2 -> bytes16 nm1 = bytes16 nm2 -> nm1 = nm2.
Proof.
  intros H1. revert nm2. induction H1 as [|x nm1 Hx H1 IH]; intros [|y nm2] H2 E; try done.
  cbn in E. injection E as E1 E2 E. apply Forall_cons in H2 as [Hy H2]. f_equal; [|by apply IH].
  unfold is_unit in *. zdiv.
Qed.
Lemma bytes16_app nm1 nm2 : bytes16 (nm1 ++ nm2) = bytes16 nm1 ++ bytes16 nm2.
Proof. unfold bytes16. by rewrite bind_app. Qed.
Lemma length_bytes16_nat nm : length (bytes16 nm) = (2 * length nm)%nat.
Proof. pose proof (length_bytes16 nm). lia. Qed.
Lemma units_bytes16 nm : Forall is_unit nm -> units (bytes16 nm) = nm.
Proof.
  induction 1 as [|x nm Hx H IH]; [done|].
  change (bytes16 (x :: nm)) with (x mod 256 :: x / 256 mod 256 :: bytes16 nm). cbn [units]. rewrite IH. f_equal.
  unfold is_unit in Hx. zdiv.
Qed.
Lemma units_app nm (l : list Z) : units (bytes16 nm ++ l) = units (bytes16 nm) ++ units l.
Proof.
  induction nm as [|x nm IH]; [done|].
  change (bytes16 (x :: nm)) with (x mod 256 :: x / 256 mod 256 :: bytes16 nm). cbn [units app]. f_equal. apply IH.
Qed.
End Units.

(** ** The interface to user memory *)

(** A copy that does not complete returns the number of bytes left; the drivers
    only test it for zero.  [copy_to_user] may have written a part. *)
Class UserOps (M : Type) := {
  copy_from_user : M -> Z -> nat -> option (list Z);
  copy_to_user : M -> Z -> list Z -> bool * M;
  strncpy_from_user : M -> Z -> Z -> Z * list Z
}.

(** A string as [strncpy_from_user] delivers it: its length and the bytes
    written, the terminating NUL included unless the count was reached. *)
Definition string_read (n len : Z) (dst : list Z) : Prop :=
  0 <= len <= n /\
  exists s, Forall (fun b => 0 < b < 256) s /\ Z.of_nat (length s) = len /\
    (len < n /\ dst = s ++ [0] \/ len = n /\ dst = s).

Class UserLaws {M} (U : UserOps M) : Prop := {
  copy_from_user_length m p n l : copy_from_user m p n = Some l -> length l = n;
  copy_from_user_bytes m p n l : copy_from_user m p n = Some l -> Forall is_byte l;
  copy_to_from m p l m' : Forall is_byte l -> copy_to_user m p l = (true, m') ->
    copy_from_user m' p (length l) = Some l;
  copy_to_frame m p l ok m' q n : copy_to_user m p l = (ok, m') ->
    q + Z.of_nat n <= p \/ p + Z.of_nat (length l) <= q ->
    copy_from_user m' q n = copy_from_user m q n;
  strncpy_string m p n : 0 < n -> fst (strncpy_from_user m p n) < 0 \/
    string_read n (fst (strncpy_from_user m p n)) (snd (strncpy_from_user m p n))
}.

(** A copy is refused ([access_ok]) unless all of it lies below the limit of user
    addresses, so no address of a copy that succeeds wraps. *)
Class UserRange {M} (U : UserOps M) : Prop :=
  copy_from_user_range m p n l : (0 < n)%nat -> copy_from_user m p n = Some l -> 0 <= p /\ p + Z.of_nat n < 2 ^ 64.

(** [get_user]/[put_user] of an [n]-byte word. *)
Definition get_user `{UserOps M} (m : M) (p : Z) (n : nat) : option Z :=
  le_val <$> copy_from_user m p n.
Definition put_user `{UserOps M} (m : M) (p : Z) (n : nat) (x : Z) : bool * M :=
  copy_to_user m p (le_bytes n x).

Lemma get_put_user `{U : UserOps M} `{!UserLaws U} m p n x m' :
  0 <= x < 256 ^ Z.of_nat n -> put_user m p n x = (true, m') -> get_user m' p n = Some x.
Proof.
  unfold put_user, get_user. intros Hx H.
  apply copy_to_from in H; [|apply le_bytes_byte]. rewrite length_le_bytes in H.
  rewrite H. cbn. by rewrite le_val_bytes.
Qed.

(** ** A flat memory *)
Section Flat.
Abbreviation flat := (gmap Z Z).

Fixpoint flat_read (m : flat) (p : Z) (n : nat) : option (list Z) :=
  match n with
  | O => Some []
  | S n => b ← m !! p; l ← flat_read m (p + 1) n; Some (b mod 256 :: l)
  end.

Fixpoint flat_write (m : flat) (p : Z) (l : list Z) : bool * flat :=
  match l with
  | [] => (true, m)
  | b :: l => match m !! p with
              | Some _ => flat_write (<[p := b]> m) (p + 1) l
              | None => (false, m)
              end
  end.

Fixpoint flat_string (m : flat) (p : Z) (n : nat) : option (Z * list Z) :=
  match n with
  | O => Some (0, [])
  | S n => b ← m !! p;
      if b mod 256 =? 0 then Some (0, [0])
      else '(len, l) ← flat_string m (p + 1) n; Some (1 + len, b mod 256 :: l)
  end.

Definition flat_user : UserOps flat := {|
  copy_from_user := flat_read;
  copy_to_user := flat_write;
  strncpy_from_user m p n := default (- EFAULT, []) (flat_string m p (Z.to_nat n))
|}.

Lemma flat_read_length m p n l : flat_read m p n = Some l -> length l = n.
Proof.
  revert p l. induction n as [|n IH]; intros p l; cbn; [by intros [= <-]|].
  destruct (m !! p); cbn; [|done]. destruct (flat_read m (p + 1) n) eqn:E; cbn; [|done].
  intros [= <-]. cbn. f_equal. eauto.
Qed.

Lemma flat_read_bytes m p n l : flat_read m p n = Some l -> Forall is_byte l.
Proof.
  revert p l. induction n as [|n IH]; intros p l; cbn; [by intros [= <-]|].
  destruct (m !! p); cbn; [|done]. destruct (flat_read m (p + 1) n) eqn:E; cbn; [|done].
  intros [= <-]. constructor; [|eauto]. unfold is_byte. apply Z.mod_pos_bound. lia.
Qed.

Lemma flat_write_other m p l ok m' q : flat_write m p l = (ok, m') ->
  q < p \/ p + Z.of_nat (length l) <= q -> m' !! q = m !! q.
Proof.
  revert m p. induction l as [|b l IH]; intros m p; cbn; [by intros [= _ <-]|].
  destruct (m !! p) eqn:E; [|by intros [= _ <-]]. intros H Hq. apply IH in H; [|lia].
  rewrite H, lookup_insert_ne by lia. done.
Qed.

Lemma flat_read_ext m m' p n : (forall q, p <= q < p + Z.of_nat n -> m !! q = m' !! q) ->
  flat_read m p n = flat_read m' p n.
Proof.
  revert p. induction n as [|n IH]; intros p H; [done|]. cbn [flat_read].
  rewrite (H p) by lia. destruct (m' !! p); [|done]. cbn. rewrite (IH (p + 1)) by (intros; apply H; lia). done.
Qed.

Lemma flat_read_write m p l m' : Forall is_byte l -> flat_write m p l = (true, m') ->
  flat_read m' p (length l) = Some l.
Proof.
  intros Hl. revert m p. induction Hl as [|b l Hb Hl IH]; intros m p; cbn; [done|].
  destruct (m !! p) eqn:E; [|done]. intros H.
  rewrite (flat_write_other _ _ _ _ _ p H) by lia. rewrite lookup_insert_eq. cbn.
  rewrite (IH _ _ H). cbn. unfold is_byte in Hb. by rewrite Z.mod_small by lia.
Qed.

Lemma flat_string_read m p n len l : flat_string m p n = Some (len, l) ->
  string_read (Z.of_nat n) len l.
Proof.
  revert p len l. induction n as [|n IH]; intros p len l; cbn [flat_string].
  { intros [= <- <-]. split; [lia|]. exists []. split_and!; [done|done|right; done]. }
  destruct (m !! p) as [b|]; cbn; [|done]. destruct (Z.eqb_spec (b mod 256) 0) as [Hz|Hz].
  { intros [= <- <-]. split; [lia|]. exists []. split_and!; [done|done|left]. split; [lia|done]. }
  destruct (flat_string m (p + 1) n) as [[len' l']|] eqn:E; cbn; [|done]. intros [= <- <-].
  destruct (IH _ _ _ E) as (Hlen & s & Hs & Hls & Hc). split; [lia|].
  exists (b mod 256 :: s). pose proof (Z.mod_pos_bound b 256). cbn [length].
  split_and!; [constructor; [lia|done]|lia|]. destruct Hc as [[? ->]|[? ->]]; [left|right]; (split; [lia|done]).
Qed.

#[local] Existing Instance flat_user.

Lemma flat_laws : UserLaws flat_user.
Proof.
  split; cbn.
  - apply flat_read_length.
  - apply flat_read_bytes.
  - apply flat_read_write.
  - intros m p l ok m' q n H Hd. apply flat_read_ext. intros r Hr.
    apply (flat_write_other _ _ _ _ _ r) in H; [done|lia].
  - intros m p n Hn. destruct (flat_string m p (Z.to_nat n)) as [[len l]|] eqn:E; cbn.
    + right. apply flat_string_read in E. by rewrite Z2Nat.id in E by lia.
    + left. unfold EFAULT. lia.
Qed.

(** The same memory below an address limit. *)
Definition in_user (p : Z) (n : nat) : bool := (0 <=? p) && (p + Z.of_nat n <? 2 ^ 63).
Definition user_below : UserOps flat := {|
  copy_from_user m p n := if in_user p n then flat_read m p n else None;
  copy_to_user m p l := if in_user p (length l) then flat_write m p l else (false, m);
  strncpy_from_user := strncpy_from_user
|}.
Lemma user_below_laws : UserLaws user_below.
Proof.
  destruct flat_laws as [L1 L2 L3 L4 L5]. split; cbn [copy_from_user copy_to_user strncpy_from_user user_below] in *; [| | | |done].
  - intros m p n l. destruct (in_user p n); [apply L1|done].
  - intros m p n l. destruct (in_user p n); [apply L2|done].
  - intros m p l m' Hl. destruct (in_user p (length l)); [by apply L3|done].
  - intros m p l ok m' q n. destruct (in_user p (length l)); [|by intros [= _ <-]]. intros H Hd. destruct (in_user q n); [|done].
    by apply (L4 _ _ _ _ _ _ _ H).
Qed.
Lemma user_below_range : UserRange user_below.
Proof.
  intros m p n l Hn. cbn. unfold in_user. destruct (Z.leb_spec 0 p), (Z.ltb_spec (p + Z.of_nat n) (2 ^ 63)); try done.
  intros _. split; [done|]. lia.
Qed.
End Flat.
