(* ===== verification/RbTree.v ===== *)
(** * Search trees of buffers

    The driver walks [struct rb_root] trees by hand ([n->rb_left],
    [n->rb_right]) and calls [rb_link_node]/[rb_insert_color]/[rb_erase] of the
    kernel's rbtree library to change them.  The walks are modelled here on
    binary trees of node addresses; the two library entry points that
    restructure the tree are operations of the class [RbOps], about which the
    proofs use the laws of [RbLaws] only: they keep the in-order sequence. *)
From S2P Require Import Prelude.

Inductive tree : Type :=
| Leaf
| Node (l : tree) (x : Z) (r : tree).

Fixpoint inorder (t : tree) : list Z :=
  match t with
  | Leaf => []
  | Node l x r => inorder l ++ x :: inorder r
  end.

(** [rb_insert_color x t] rebalances [t] after [x] was linked as a leaf;
    [rb_erase x t] unlinks [x]. *)
Class RbOps := {
  rb_insert_color : Z -> tree -> tree;
  rb_erase : Z -> tree -> tree
}.

Class RbLaws (ops : RbOps) : Prop := {
  rb_insert_color_inorder x t : inorder (rb_insert_color x t) = inorder t;
  rb_erase_inorder x t : inorder (rb_erase x t) = list_del x (inorder t)
}.

(** ** The walks of the driver *)
Section Walks.
(** [cmp y] compares the sought node with the visited node [y]: [Lt] goes
    left, [Gt] goes right, [Eq] stops; it dereferences [y], so it can fault. *)
Variable cmp : Z -> res comparison.

(** [while (n) { if (..<..) n = n->rb_left; else if (..>..) n = n->rb_right;
    else return ..; } return NULL;] *)
Fixpoint walk_find (t : tree) : res (option Z) :=
  match t with
  | Leaf => Ok None
  | Node l y r =>
      c ← cmp y;
      match c with
      | Lt => walk_find l
      | Gt => walk_find r
      | Eq => Ok (Some y)
      end
  end.

(** The insertion walk: down to a NULL child pointer, where the node is
    linked by [rb_link_node]; meeting an equal key is [BUG()]. *)
Fixpoint walk_link (x : Z) (t : tree) : res tree :=
  match t with
  | Leaf => Ok (Node Leaf x Leaf)
  | Node l y r =>
      c ← cmp y;
      match c with
      | Lt => l' ← walk_link x l; Ok (Node l' y r)
      | Gt => r' ← walk_link x r; Ok (Node l y r')
      | Eq => Fault BUG
      end
  end.

(** The best-fit walk of [binder_alloc_buf]: [best] is the last node from
    which the walk went left; the second component is the exact match the
    walk stopped at, if any ([n != NULL] after the loop). *)
Fixpoint walk_best (t : tree) (best : option Z) : res (option Z * option Z) :=
  match t with
  | Leaf => Ok (best, None)
  | Node l y r =>
      c ← cmp y;
      match c with
      | Lt => walk_best l (Some y)
      | Gt => walk_best r best
      | Eq => Ok (Some y, Some y)
      end
  end.
End Walks.

(** ** A concrete library for the witnesses: no rebalancing *)
Section Plain.
Fixpoint plain_merge (l r : tree) : tree :=
  match l with
  | Leaf => r
  | Node ll x lr => Node ll x (plain_merge lr r)
  end.

Fixpoint plain_erase (x : Z) (t : tree) : tree :=
  match t with
  | Leaf => Leaf
  | Node l y r =>
      if decide (y = x) then plain_merge (plain_erase x l) (plain_erase x r)
      else Node (plain_erase x l) y (plain_erase x r)
  end.

Definition plain_ops : RbOps := {| rb_insert_color := fun _ t => t; rb_erase := plain_erase |}.

Lemma inorder_plain_merge l r : inorder (plain_merge l r) = inorder l ++ inorder r.
Proof.
  induction l as [|ll _ x lr IH]; cbn; [done|].
  rewrite IH. by rewrite <- app_assoc.
Qed.

Lemma plain_laws : RbLaws plain_ops.
Proof.
  split; [done|]. intros x t. cbn. induction t as [|l IHl y r IHr]; cbn; [done|].
  unfold list_del in *. rewrite filter_app, filter_cons, <- IHl, <- IHr.
  destruct (decide (y = x)), (decide (y ≠ x)); try done.
  apply inorder_plain_merge.
Qed.
End Plain.

(** ** Correctness of the walks on sorted trees *)
Section SortedBy.
(** The nodes are sorted by [key]. *)
Variable key : Z -> Z.

Definition sorted_by (l : list Z) : Prop := StronglySorted (fun a b => key a <= key b) l.

Lemma sorted_by_app l1 l2 :
  sorted_by (l1 ++ l2) <->
  sorted_by l1 /\ sorted_by l2 /\ (forall a b, a ∈ l1 -> b ∈ l2 -> key a <= key b).
Proof. apply StronglySorted_app_iff. Qed.

Lemma sorted_by_cons x l :
  sorted_by (x :: l) <-> (forall a, a ∈ l -> key x <= key a) /\ sorted_by l.
Proof. apply StronglySorted_cons_iff. Qed.

End SortedBy.

Section WalkLemmas.
Implicit Types (t : tree) (x y : Z).

(** The tree is sorted by [key] and [cmp] compares [k] with [key] on it. *)
Variables (key : Z -> Z) (cmp : Z -> res comparison) (k : Z).

Definition sound_cmp (l : list Z) : Prop :=
  forall y, y ∈ l -> cmp y = Ok (Z.compare k (key y)).

Lemma walk_find_spec t :
  sorted_by key (inorder t) -> sound_cmp (inorder t) ->
  exists o, walk_find cmp t = Ok o /\
    match o with
    | Some x => x ∈ inorder t /\ key x = k
    | None => forall y, y ∈ inorder t -> key y ≠ k
    end.
Proof.
  unfold sound_cmp. induction t as [|l IHl y r IHr]; cbn; intros Hs Hc.
  { exists None. set_solver. }
  apply sorted_by_app in Hs as (Hl & [Hyr Hr]%sorted_by_cons & Hlr).
  rewrite Hc by set_solver. cbn.
  destruct (Z.compare_spec k (key y)) as [->|Hlt|Hgt].
  - exists (Some y). set_solver.
  - destruct IHl as (o & -> & Ho); [done|set_solver|].
    exists o. split; [done|]. destruct o as [x|]; [set_solver|].
    intros z [Hz|[->|Hz]%elem_of_cons]%elem_of_app Hk; [by apply (Ho z)|lia|].
    specialize (Hyr z Hz). lia.
  - destruct IHr as (o & -> & Ho); [done|set_solver|].
    exists o. split; [done|]. destruct o as [x|]; [set_solver|].
    intros z [Hz|[->|Hz]%elem_of_cons]%elem_of_app Hk; [|lia|by apply (Ho z)].
    specialize (Hlr z y Hz ltac:(left)). lia.
Qed.

Lemma walk_best_spec t best :
  sorted_by key (inorder t) -> sound_cmp (inorder t) ->
  exists b e, walk_best cmp t best = Ok (b, e) /\
    match e with
    | Some x => b = Some x /\ x ∈ inorder t /\ key x = k
    | None =>
        (forall y, y ∈ inorder t -> key y ≠ k) /\
        ((b = best /\ forall y, y ∈ inorder t -> key y < k) \/
         exists x, b = Some x /\ x ∈ inorder t /\ k < key x /\
           forall y, y ∈ inorder t -> k < key y -> key x <= key y)
    end.
Proof.
  unfold sound_cmp. revert best. induction t as [|l IHl y r IHr]; cbn; intros best Hs Hc.
  { exists best, None. set_solver. }
  apply sorted_by_app in Hs as (Hl & [Hyr Hr]%sorted_by_cons & Hlr).
  rewrite Hc by set_solver. cbn.
  destruct (Z.compare_spec k (key y)) as [->|Hlt|Hgt].
  - exists (Some y), (Some y). set_solver.
  - destruct (IHl (Some y)) as (b & e & -> & Ho); [done|set_solver|].
    exists b, e. split; [done|]. destruct e as [x|]; [set_solver|].
    destruct Ho as [Hne Ho]. split.
    + intros z [Hz|[->|Hz]%elem_of_cons]%elem_of_app; [auto|lia|].
      specialize (Hyr z Hz). lia.
    + right. destruct Ho as [[-> Hb]|(x & -> & Hx & Hkx & Hmin)].
      * exists y. split_and!; [done|set_solver|lia|].
        intros z [Hz|[->|Hz]%elem_of_cons]%elem_of_app Hkz; [|lia|auto].
        specialize (Hb z Hz). lia.
      * exists x. split_and!; [done|set_solver|lia|].
        intros z [Hz|[->|Hz]%elem_of_cons]%elem_of_app Hkz; [auto| |].
        -- apply Hlr; [done|left].
        -- apply Hlr; [done|by right].
  - destruct (IHr best) as (b & e & -> & Ho); [done|set_solver|].
    exists b, e. split; [done|]. destruct e as [x|]; [set_solver|].
    destruct Ho as [Hne Ho].
    assert (Hsmall : forall z, z ∈ inorder l ∨ z = y -> key z < k).
    { intros z [Hz| ->]; [|lia]. specialize (Hlr z y Hz ltac:(left)). lia. }
    split.
    + intros z [Hz|[->|Hz]%elem_of_cons]%elem_of_app; [|lia|auto].
      specialize (Hsmall z (or_introl Hz)). lia.
    + destruct Ho as [[-> Hb]|(x & -> & Hx & Hkx & Hmin)]; [left|right].
      * split; [done|]. intros z [Hz|[->|Hz]%elem_of_cons]%elem_of_app; auto.
      * exists x. split_and!; [done|set_solver|lia|].
        intros z [Hz|[->|Hz]%elem_of_cons]%elem_of_app Hkz; [| |auto].
        -- specialize (Hsmall z (or_introl Hz)). lia.
        -- specialize (Hsmall y (or_intror eq_refl)). lia.
Qed.
End WalkLemmas.

(** Linking a new node splits the in-order sequence at its place. *)
Lemma walk_link_spec (key : Z -> Z) (cmp : Z -> res comparison) x t :
  sorted_by key (inorder t) ->
  (forall y, y ∈ inorder t -> exists c, cmp y = Ok c /\
    match c with Lt => key x <= key y | Gt => key y <= key x | Eq => False end) ->
  exists t' l1 l2, walk_link cmp x t = Ok t' /\
    inorder t = l1 ++ l2 /\ inorder t' = l1 ++ x :: l2 /\ sorted_by key (inorder t').
Proof.
  induction t as [|l IHl y r IHr]; cbn; intros Hs Hc.
  { exists (Node Leaf x Leaf), [], []. split_and!; [done..|].
    cbn. apply sorted_by_cons. split; [set_solver|constructor]. }
  pose proof Hs as Hs'. apply sorted_by_app in Hs' as (Hl & [Hyr Hr]%sorted_by_cons & Hlr).
  destruct (Hc y) as (c & -> & Hcy); [set_solver|]. cbn. destruct c; [done| |].
  - destruct IHl as (l' & l1 & l2 & -> & Hil & Hil' & Hsl); [done|intros; apply Hc; set_solver|].
    cbn. exists (Node l' y r), l1, (l2 ++ y :: inorder r). cbn.
    rewrite Hil' in Hsl |- *. rewrite Hil in Hlr |- *. rewrite Hil in Hc.
    split_and!; [done|by rewrite <- app_assoc|by rewrite <- app_assoc|].
    apply sorted_by_app. split_and!; [done|by apply sorted_by_cons|].
    intros a b Ha Hb. transitivity (key y).
    + apply elem_of_app in Ha as [Ha|[->|Ha]%elem_of_cons]; [|done|]; apply Hlr; set_solver.
    + apply elem_of_cons in Hb as [->|Hb]; [done|auto].
  - destruct IHr as (r' & l1 & l2 & -> & Hir & Hir' & Hsr); [done|intros; apply Hc; set_solver|].
    cbn. exists (Node l y r'), (inorder l ++ y :: l1), l2. cbn.
    rewrite Hir' in Hsr |- *. rewrite Hir in Hlr, Hyr |- *. rewrite Hir in Hc.
    split_and!; [done|by rewrite <- app_assoc|by rewrite <- app_assoc|].
    assert (key y <= key x) by done.
    apply sorted_by_app. split_and!; [done| |].
    + apply sorted_by_cons. split; [|done]. intros a Ha.
      apply elem_of_app in Ha as [Ha|[->|Ha]%elem_of_cons]; [|done|]; apply Hyr; set_solver.
    + intros a b Ha Hb. transitivity (key y); [apply Hlr; set_solver|].
      apply elem_of_cons in Hb as [->|Hb]; [done|].
      apply elem_of_app in Hb as [Hb|[->|Hb]%elem_of_cons]; [|done|]; apply Hyr; set_solver.
Qed.

(** The order depends on the keys of the members only. *)
Lemma sorted_by_ext (key key' : Z -> Z) l :
  (forall y, y ∈ l -> key y = key' y) -> sorted_by key l -> sorted_by key' l.
Proof.
  induction l as [|a l IH]; intros He; [constructor|].
  rewrite !sorted_by_cons. intros [H1 H2]. split.
  - intros b Hb. rewrite <- !He by set_solver. auto.
  - apply IH; [set_solver|done].
Qed.
