(* ===== verification/Alloc.v ===== *)
(** * Buffer allocator of the binder driver (driver/binder/binder.c)

    One record [balloc] holds the allocator's share of [struct binder_proc];
    buffers are named by the kernel address of their header.  The operations
    follow [binder_buffer_size] .. [binder_free_buf]; [RbTree] supplies the
    walks over [free_buffers] and [allocated_buffers]. *)
From S2P Require Import Prelude RbTree.

(** [struct binder_buffer] (the fields before [data]); the list entry and the
    tree node of the struct are the members of [buffers], [free_buffers] and
    [allocated_buffers] below. *)
Record binder_buffer := MkBuffer {
  b_free : bool;
  b_allow_user_free : bool;
  b_async_transaction : bool;
  b_debug_id : Z;
  b_transaction : option Z;
  b_target_node : option Z;
  b_data_size : Z;
  b_offsets_size : Z
}.

(** [sizeof(struct binder_buffer)] = [offsetof(struct binder_buffer, data)] on
    the LP64 target: list_head 16, rb_node 24, bit fields 4 (+ 4 padding), two
    pointers and two [size_t]. *)
Definition sizeof_binder_buffer : Z := 80.

(** [buffer->data] *)
Definition data (b : Z) : Z := b + sizeof_binder_buffer.

(** The allocator's fields of [struct binder_proc].  [pages] tells which
    entries of the [struct page *] array are non-NULL. *)
Record balloc := MkAlloc {
  buffer : Z;
  buffer_size : Z;
  user_buffer_offset : Z;
  vma : option Z;
  vma_vm_mm : option Z;
  buffers : list Z;
  heap : gmap Z binder_buffer;
  free_buffers : tree;
  allocated_buffers : tree;
  free_async_space : Z;
  pages : list bool
}.

(** ** Field updates *)
Section Updates.
Variable a : balloc.
Definition set_heap h := MkAlloc (buffer a) (buffer_size a) (user_buffer_offset a) (vma a)
  (vma_vm_mm a) (buffers a) h (free_buffers a) (allocated_buffers a) (free_async_space a) (pages a).
Definition set_buffers l := MkAlloc (buffer a) (buffer_size a) (user_buffer_offset a) (vma a)
  (vma_vm_mm a) l (heap a) (free_buffers a) (allocated_buffers a) (free_async_space a) (pages a).
Definition set_free_buffers t := MkAlloc (buffer a) (buffer_size a) (user_buffer_offset a) (vma a)
  (vma_vm_mm a) (buffers a) (heap a) t (allocated_buffers a) (free_async_space a) (pages a).
Definition set_allocated_buffers t := MkAlloc (buffer a) (buffer_size a) (user_buffer_offset a) (vma a)
  (vma_vm_mm a) (buffers a) (heap a) (free_buffers a) t (free_async_space a) (pages a).
Definition set_free_async_space n := MkAlloc (buffer a) (buffer_size a) (user_buffer_offset a) (vma a)
  (vma_vm_mm a) (buffers a) (heap a) (free_buffers a) (allocated_buffers a) n (pages a).
Definition set_pages p := MkAlloc (buffer a) (buffer_size a) (user_buffer_offset a) (vma a)
  (vma_vm_mm a) (buffers a) (heap a) (free_buffers a) (allocated_buffers a) (free_async_space a) p.
Definition set_vma v mm := MkAlloc (buffer a) (buffer_size a) (user_buffer_offset a) v
  mm (buffers a) (heap a) (free_buffers a) (allocated_buffers a) (free_async_space a) (pages a).
End Updates.

Definition with_free (v : bool) (b : binder_buffer) : binder_buffer :=
  MkBuffer v (b_allow_user_free b) (b_async_transaction b) (b_debug_id b) (b_transaction b)
    (b_target_node b) (b_data_size b) (b_offsets_size b).
Definition with_sizes (ds os : Z) (async : bool) (b : binder_buffer) : binder_buffer :=
  MkBuffer (b_free b) (b_allow_user_free b) async (b_debug_id b) (b_transaction b)
    (b_target_node b) ds os.

(** The memory-management calls of one [binder_update_page_range], as they
    answer for each page address: code of the kernel, not of the driver. *)
Record page_env := {
  get_task_mm : option Z;
  alloc_page : Z -> bool;
  map_kernel_range_noflush : Z -> Z;
  vm_insert_page : Z -> Z
}.

(** ** Pages *)

(** [&proc->pages[(page_addr - proc->buffer) / PAGE_SIZE]], inside the array *)
Definition page_slot (a : balloc) (addr : Z) : res nat :=
  let i := (addr - buffer a) / PAGE_SIZE in
  if (0 <=? i) && (i <? Z.of_nat (length (pages a))) then Ok (Z.to_nat i) else Fault OOPS.

Definition page_at (a : balloc) (addr : Z) : res bool :=
  i ← page_slot a addr; deref (pages a !! i).

Definition set_page (v : bool) (addr : Z) (a : balloc) : res balloc :=
  i ← page_slot a addr; Ok (set_pages a (<[i := v]> (pages a))).

(** [for (page_addr = start; page_addr < end; page_addr += PAGE_SIZE)] *)
Definition page_addrs (start end_ : Z) : list Z :=
  (fun i => start + PAGE_SIZE * i) <$> seqZ 0 ((end_ - start + (PAGE_SIZE - 1)) / PAGE_SIZE).

(** [for (page_addr = end - PAGE_SIZE; page_addr >= start; page_addr -= PAGE_SIZE)] *)
Definition page_addrs_down (start end_ : Z) : list Z :=
  (fun i => end_ - PAGE_SIZE * (i + 1)) <$> seqZ 0 ((end_ - start) / PAGE_SIZE).

(** [unmap_kernel_range], [__free_page] and the reset of the slot to NULL;
    freeing through a NULL slot is a fault. *)
Definition free_page (addr : Z) (a : balloc) : res balloc :=
  p ← page_at a addr;
  if (p : bool) then set_page false addr a else Fault OOPS.

Fixpoint free_pages (addrs : list Z) (a : balloc) : res balloc :=
  match addrs with
  | [] => Ok a
  | addr :: rest => a' ← free_page addr a; free_pages rest a'
  end.

(** The allocation loop with its three error exits, each of which enters the
    [free_range] loop in the middle and goes on below the failing page. *)
Fixpoint allocate_pages (e : page_env) (start : Z) (addrs : list Z) (a : balloc)
    : res (Z * balloc) :=
  match addrs with
  | [] => Ok (0, a)
  | addr :: rest =>
      p ← page_at a addr;
      _ ← bug_on p;
      if negb (alloc_page e addr) then
        a' ← free_pages (page_addrs_down start addr) a; Ok (- ENOMEM, a')
      else
        a1 ← set_page true addr a;
        if negb (map_kernel_range_noflush e addr =? 1) || negb (vm_insert_page e addr =? 0) then
          a2 ← free_page addr a1;
          a' ← free_pages (page_addrs_down start addr) a2; Ok (- ENOMEM, a')
        else allocate_pages e start rest a1
  end.

Definition binder_update_page_range (e : page_env) (a : balloc) (allocate : bool)
    (start end_ : Z) (vma_arg : option Z) : res (Z * balloc) :=
  if end_ <=? start then Ok (0, a) else
  let mm := match vma_arg with Some _ => None | None => get_task_mm e end in
  let vma' :=
    match mm with
    | Some m => if decide (vma_vm_mm a = Some m) then vma a else None
    | None => vma_arg
    end in
  if negb allocate then
    a' ← free_pages (page_addrs_down start end_) a; Ok (- ENOMEM, a')
  else match vma' with
  | None => Ok (- ENOMEM, a)
  | Some _ => allocate_pages e start (page_addrs start end_) a
  end.

(** ** Buffers *)

(** The element after [x] in the list ([entry.next]). *)
Fixpoint list_next (x : Z) (l : list Z) : option Z :=
  match l with
  | [] => None
  | y :: l' => if y =? x then head l' else list_next x l'
  end.

(** The element before [x] ([entry.prev]). *)
Fixpoint list_prev (x : Z) (l : list Z) : option Z :=
  match l with
  | y :: (z :: _) as l' => if z =? x then Some y else list_prev x l'
  | _ => None
  end.

(** [list_add(&x->entry, &b->entry)] *)
Fixpoint list_add_after (b x : Z) (l : list Z) : list Z :=
  match l with
  | [] => []
  | y :: l' => if y =? b then y :: x :: l' else y :: list_add_after b x l'
  end.

Definition binder_buffer_size (a : balloc) (b : Z) : Z :=
  match list_next b (buffers a) with
  | None => buffer a + buffer_size a - data b
  | Some next => next - data b
  end.

(** The header occupies the pages of its first and of its last byte; touching a
    header outside the mapped pages is a kernel page fault. *)
Definition header_mapped (a : balloc) (b : Z) : res bool :=
  p ← page_at a (page_down b);
  q ← page_at a (page_down (b + sizeof_binder_buffer - 1));
  Ok (p && q).

Definition get_buffer (a : balloc) (b : Z) : res binder_buffer :=
  m ← header_mapped a b;
  if (m : bool) then deref (heap a !! b) else Fault OOPS.

Definition put_buffer (a : balloc) (b : Z) (v : binder_buffer) : res balloc :=
  m ← header_mapped a b;
  if (m : bool) then Ok (set_heap a (<[b := v]> (heap a))) else Fault OOPS.

Definition binder_insert_free_buffer `{RbOps} (a : balloc) (new_buffer : Z) : res balloc :=
  nb ← get_buffer a new_buffer;
  _ ← bug_on (negb (b_free nb));
  let new_buffer_size := binder_buffer_size a new_buffer in
  t ← walk_link (fun y =>
        buf ← get_buffer a y;
        _ ← bug_on (negb (b_free buf));
        Ok (if new_buffer_size <? binder_buffer_size a y then Lt else Gt))
      new_buffer (free_buffers a);
  Ok (set_free_buffers a (rb_insert_color new_buffer t)).

Definition binder_insert_allocated_buffer `{RbOps} (a : balloc) (new_buffer : Z) : res balloc :=
  nb ← get_buffer a new_buffer;
  _ ← bug_on (b_free nb);
  t ← walk_link (fun y =>
        buf ← get_buffer a y;
        _ ← bug_on (b_free buf);
        Ok (Z.compare new_buffer y))
      new_buffer (allocated_buffers a);
  Ok (set_allocated_buffers a (rb_insert_color new_buffer t)).

Definition binder_buffer_lookup (a : balloc) (user_ptr : Z) : res (option Z) :=
  let kern_ptr := u64 (user_ptr - user_buffer_offset a - sizeof_binder_buffer) in
  walk_find (fun y =>
      buf ← get_buffer a y;
      _ ← bug_on (b_free buf);
      Ok (Z.compare kern_ptr y))
    (allocated_buffers a).

(** [ALIGN(x, sizeof(void * ))] on [size_t] *)
Definition align_ptr (x : Z) : Z := u64 (align x 8).

Definition payload_size (data_size offsets_size : Z) : Z :=
  u64 (align_ptr data_size + align_ptr offsets_size).

(** What the memory of a header created inside free memory happens to hold. *)
Class Junk := junk : Z -> binder_buffer.

(** The end of [binder_alloc_buf], once [b] is chosen and its pages are mapped:
    [b] leaves the free tree, the rest of it (if [new_size] leaves one) becomes a
    free buffer. *)
Definition take_buffer `{RbOps} `{Junk} (a : balloc) (b size new_size data_size offsets_size : Z)
    (is_async : bool) : res balloc :=
  let a := set_free_buffers a (rb_erase b (free_buffers a)) in
  buf ← get_buffer a b;
  a ← put_buffer a b (with_free false buf);
  a ← binder_insert_allocated_buffer a b;
  a ← (if new_size =? size then Ok a else
         let new_buffer := data b + size in
         let a := set_buffers a (list_add_after b new_buffer (buffers a)) in
         a ← put_buffer a new_buffer (with_free true (junk new_buffer));
         binder_insert_free_buffer a new_buffer);
  buf ← get_buffer a b;
  a ← put_buffer a b (with_sizes data_size offsets_size is_async buf);
  Ok (if is_async
           then set_free_async_space a (free_async_space a - (size + sizeof_binder_buffer))
           else a).

Definition binder_alloc_buf `{RbOps} `{Junk} (e : page_env) (a : balloc)
    (data_size offsets_size : Z) (is_async : bool) : res (option Z * balloc) :=
  match vma a with None => Ok (None, a) | Some _ =>
  let size := payload_size data_size offsets_size in
  if (size <? data_size) || (size <? offsets_size) then Ok (None, a) else
  if is_async && (free_async_space a <? u64 (size + sizeof_binder_buffer)) then Ok (None, a) else
  '(best_fit, n) ← walk_best (fun y =>
        buf ← get_buffer a y;
        _ ← bug_on (negb (b_free buf));
        Ok (Z.compare size (binder_buffer_size a y)))
      (free_buffers a) None;
  match best_fit with None => Ok (None, a) | Some b =>
  let old_size := binder_buffer_size a b in
  let has_page_addr := page_down (data b + old_size) in
  let new_size :=
    match n with
    | Some _ => old_size
    | None => if old_size <=? u64 (size + sizeof_binder_buffer + 4) then size
              else u64 (size + sizeof_binder_buffer)
    end in
  let end_page_addr := Z.min (page_align (data b + new_size)) has_page_addr in
  '(ret, a) ← binder_update_page_range e a true (page_align (data b)) end_page_addr None;
  if negb (ret =? 0) then Ok (None, a) else
  a ← take_buffer a b size new_size data_size offsets_size is_async;
  Ok (Some b, a)
  end end.

Definition buffer_start_page (b : Z) : Z := page_down b.
Definition buffer_end_page (b : Z) : Z := page_down (b + sizeof_binder_buffer - 1).

(** [list_del(&buffer->entry)]; the header ceases to exist. *)
Definition list_del_buffer (a : balloc) (b : Z) : balloc :=
  set_heap (set_buffers a (list_del b (buffers a))) (delete b (heap a)).

Definition binder_delete_free_buffer (e : page_env) (a : balloc) (b : Z) : res balloc :=
  _ ← bug_on (bool_decide (head (buffers a) = Some b));
  prev ← deref (list_prev b (buffers a));
  pb ← get_buffer a prev;
  _ ← bug_on (negb (b_free pb));
  let '(free_page_start, free_page_end) :=
    if buffer_end_page prev =? buffer_start_page b
    then (false, negb (buffer_end_page prev =? buffer_end_page b))
    else (true, true) in
  let '(free_page_start, free_page_end) :=
    match list_next b (buffers a) with
    | None => (free_page_start, free_page_end)
    | Some next =>
        if buffer_start_page next =? buffer_end_page b
        then (free_page_start && negb (buffer_start_page next =? buffer_start_page b), false)
        else (free_page_start, free_page_end)
    end in
  let a := list_del_buffer a b in
  if free_page_start || free_page_end then
    '(_, a) ← binder_update_page_range e a false
      (if free_page_start then buffer_start_page b else buffer_end_page b)
      ((if free_page_end then buffer_end_page b else buffer_start_page b) + PAGE_SIZE) None;
    Ok a
  else Ok a.

Definition binder_free_buf `{RbOps} (e : page_env) (a : balloc) (b : Z) : res balloc :=
  buf ← get_buffer a b;
  let bsize := binder_buffer_size a b in
  let size := payload_size (b_data_size buf) (b_offsets_size buf) in
  _ ← bug_on (b_free buf);
  _ ← bug_on (bsize <? size);
  _ ← bug_on (bool_decide (b_transaction buf ≠ None));
  _ ← bug_on (b <? buffer a);
  _ ← bug_on (buffer a + buffer_size a <? b);
  let a := if b_async_transaction buf
           then set_free_async_space a (free_async_space a + (size + sizeof_binder_buffer))
           else a in
  '(_, a) ← binder_update_page_range e a false
      (page_align (data b)) (page_down (data b + bsize)) None;
  let a := set_allocated_buffers a (rb_erase b (allocated_buffers a)) in
  a ← put_buffer a b (with_free true buf);
  a ← (match list_next b (buffers a) with
       | None => Ok a
       | Some next =>
           nb ← get_buffer a next;
           if b_free nb then
             binder_delete_free_buffer e (set_free_buffers a (rb_erase next (free_buffers a))) next
           else Ok a
       end);
  '(b, a) ← (if bool_decide (head (buffers a) = Some b) then Ok (b, a) else
       prev ← deref (list_prev b (buffers a));
       pb ← get_buffer a prev;
       if b_free pb then
         a ← binder_delete_free_buffer e a b;
         Ok (prev, set_free_buffers a (rb_erase prev (free_buffers a)))
       else Ok (b, a));
  binder_insert_free_buffer a b.

(** The allocator part of [binder_mmap]: the area at [base] of [size] bytes gets
    its page array, its first page and one free buffer that covers it all. *)
Definition mmap_buffers `{RbOps} `{Junk} (e : page_env) (base size offset vm mm : Z)
    : res (option balloc) :=
  let a := MkAlloc base size offset None None [] ∅ Leaf Leaf 0
             (replicate (Z.to_nat (size / PAGE_SIZE)) false) in
  '(ret, a) ← binder_update_page_range e a true base (base + PAGE_SIZE) (Some vm);
  if negb (ret =? 0) then Ok None else
  let a := set_buffers a [base] in
  a ← put_buffer a base (with_free true (junk base));
  a ← binder_insert_free_buffer a base;
  Ok (Some (set_vma (set_free_async_space a (buffer_size a / 2)) (Some vm) (Some mm))).
