(* ===== verification/AllocInv.v ===== *)
(** * Invariant of the buffer allocator

    The buffers of an area are described as a chain of segments: each header
    address with the address of the next header (or the end of the area).  The
    file defines the invariant [inv] of [Alloc] on that chain and the lemmas on
    chains, pages and headers from which [AllocSpec] proves the operations. *)
From S2P Require Import Prelude RbTree Alloc.

(** ** Chains of segments *)

(** The header address that follows the list, [e] if there is none. *)
Definition next_of (l : list Z) (e : Z) : Z := match l with [] => e | b :: _ => b end.

(** [Q b n] for every buffer [b] of the chain [l] with successor [n]. *)
Fixpoint seg_all (Q : Z -> Z -> Prop) (l : list Z) (e : Z) : Prop :=
  match l with
  | [] => True
  | b :: l' => Q b (next_of l' e) /\ seg_all Q l' e
  end.

Fixpoint seg_ex (Q : Z -> Z -> Prop) (l : list Z) (e : Z) : Prop :=
  match l with
  | [] => False
  | b :: l' => Q b (next_of l' e) \/ seg_ex Q l' e
  end.

Fixpoint seg_sum (f : Z -> Z) (l : list Z) : Z :=
  match l with [] => 0 | b :: l' => f b + seg_sum f l' end.

Section Chains.
Implicit Types (Q : Z -> Z -> Prop) (l : list Z).

Lemma next_of_app l1 l2 e : next_of (l1 ++ l2) e = next_of l1 (next_of l2 e).
Proof. by destruct l1. Qed.

Lemma seg_all_app Q l1 l2 e :
  seg_all Q (l1 ++ l2) e <-> seg_all Q l1 (next_of l2 e) /\ seg_all Q l2 e.
Proof.
  induction l1 as [|b l1 IH]; cbn; [tauto|]. rewrite IH, next_of_app. tauto.
Qed.

Lemma seg_ex_app Q l1 l2 e :
  seg_ex Q (l1 ++ l2) e <-> seg_ex Q l1 (next_of l2 e) \/ seg_ex Q l2 e.
Proof.
  induction l1 as [|b l1 IH]; cbn; [tauto|]. rewrite IH, next_of_app. tauto.
Qed.

Lemma seg_sum_app f l1 l2 : seg_sum f (l1 ++ l2) = seg_sum f l1 + seg_sum f l2.
Proof. induction l1; cbn; lia. Qed.

Lemma seg_sum_ext f g l : (forall b, b ∈ l -> f b = g b) -> seg_sum f l = seg_sum g l.
Proof.
  induction l as [|b l IH]; cbn; intros H; [done|].
  rewrite H by left. rewrite IH; [done|]. intros; apply H; by right.
Qed.

Lemma seg_all_mono Q Q' l e :
  (forall b n, b ∈ l -> Q b n -> Q' b n) -> seg_all Q l e -> seg_all Q' l e.
Proof.
  induction l as [|b l IH]; cbn; [done|]. intros H [H1 H2]. split; [apply H; [left|done]|].
  apply IH; [|done]. intros; apply H; [by right|done].
Qed.

Lemma seg_ex_ext Q Q' l e :
  (forall b n, b ∈ l -> Q b n <-> Q' b n) -> seg_ex Q l e <-> seg_ex Q' l e.
Proof.
  induction l as [|b l IH]; cbn; [done|]. intros H. rewrite H by left.
  rewrite IH; [done|]. intros; apply H; by right.
Qed.

Lemma seg_all_lookup Q l1 b l2 e :
  seg_all Q (l1 ++ b :: l2) e -> Q b (next_of l2 e).
Proof. rewrite seg_all_app. cbn. tauto. Qed.

Lemma seg_ex_false Q l e : seg_all (fun b n => ~ Q b n) l e -> ~ seg_ex Q l e.
Proof. induction l; cbn; tauto. Qed.
End Chains.

(** Room for the header, so that addresses ascend by at least its size. *)
Definition room (b n : Z) : Prop := b + sizeof_binder_buffer <= n.

Section Room.
Implicit Types (l : list Z).

Lemma room_next l b e : seg_all room (b :: l) e -> b + 80 <= next_of l e.
Proof. cbn. unfold room, sizeof_binder_buffer. tauto. Qed.

Lemma room_below l e b : seg_all room l e -> b ∈ l -> next_of l e <= b /\ b + 80 <= e.
Proof.
  unfold room, sizeof_binder_buffer. revert b. induction l as [|c l IH]; cbn; intros b.
  { intros _ Hb. by apply elem_of_nil in Hb. }
  intros [Hc Hl] [->|Hb]%elem_of_cons.
  - split; [lia|]. destruct l as [|d l']; cbn in *; [lia|].
    specialize (IH d Hl ltac:(left)). lia.
  - destruct (IH b Hl Hb). lia.
Qed.

(** In a chain with room, everything before [b] ends at or before [b]. *)
Lemma room_before Q l e :
  seg_all room l e -> (forall b n, b ∈ l -> room b n -> n <= e -> Q b n) -> seg_all Q l e.
Proof.
  induction l as [|b l IH]; cbn; [done|]. intros [Hb Hl] H. split.
  - apply H; [left|done|]. destruct l as [|c l]; cbn in *; [lia|].
    destruct (room_below (c :: l) e c) as [_ ?]; [done|left|]. lia.
  - apply IH; [done|]. intros; apply H; [by right|done|done].
Qed.

Lemma room_NoDup l e : seg_all room l e -> NoDup l.
Proof.
  induction l as [|b l IH]; intros H; [constructor|].
  pose proof (room_next _ _ _ H) as Hb. destruct H as [_ Hl].
  constructor; [|auto]. intros Hin. destruct (room_below l e b Hl Hin). lia.
Qed.
End Room.

(** ** Decomposition of the list around a buffer *)
Section Decompose.
Variables (l1 l2 : list Z) (b : Z).
Hypothesis Hnd : NoDup (l1 ++ b :: l2).

Lemma not_in_front : b ∉ l1.
Proof. apply NoDup_app in Hnd as (_ & H & _). intros Hb. apply (H b Hb). left. Qed.

Lemma not_in_back : b ∉ l2.
Proof. apply NoDup_app in Hnd as (_ & _ & H). by apply NoDup_cons in H as [? _]. Qed.

Lemma list_next_app : list_next b (l1 ++ b :: l2) = head l2.
Proof.
  pose proof not_in_front as Hb. clear Hnd.
  induction l1 as [|y l IH]; cbn; [by rewrite Z.eqb_refl|].
  apply not_elem_of_cons in Hb as [??].
  destruct (Z.eqb_spec y b); [congruence|auto].
Qed.

Lemma list_add_after_app x : list_add_after b x (l1 ++ b :: l2) = l1 ++ b :: x :: l2.
Proof.
  pose proof not_in_front as Hb. clear Hnd.
  induction l1 as [|y l IH]; cbn; [by rewrite Z.eqb_refl|].
  apply not_elem_of_cons in Hb as [??].
  destruct (Z.eqb_spec y b); [congruence|]. by rewrite IH.
Qed.
End Decompose.

Lemma list_prev_app (l1 l2 : list Z) p b :
  NoDup (l1 ++ p :: b :: l2) -> list_prev b (l1 ++ p :: b :: l2) = Some p.
Proof.
  revert p. induction l1 as [|y l1 IH]; intros p Hnd; cbn.
  - by rewrite Z.eqb_refl.
  - apply NoDup_cons in Hnd as [Hy Hnd]. specialize (IH p Hnd).
    destruct (l1 ++ p :: b :: l2) as [|z l] eqn:E; [by destruct l1|].
    destruct (Z.eqb_spec z b) as [->|Hne]; [|exact IH].
    destruct l1 as [|z' l1]; cbn in E; injection E as -> E.
    + subst. apply NoDup_cons in Hnd as [Hn _]. exfalso. apply Hn. left.
    + subst. apply NoDup_cons in Hnd as [Hn _]. exfalso. apply Hn. set_solver.
Qed.

Lemma head_app_ne (l1 l2 : list Z) p b (Hnd : NoDup (l1 ++ p :: b :: l2)) : head (l1 ++ p :: b :: l2) ≠ Some b.
Proof.
  destruct l1 as [|y l1]; cbn; intros [= ->].
  - apply NoDup_cons in Hnd as [Hn _]. apply Hn. left.
  - apply NoDup_cons in Hnd as [Hn _]. apply Hn. set_solver.
Qed.

(** ** The invariant *)
Definition area_end (a : balloc) : Z := buffer a + buffer_size a.

(** The header of a buffer: [heap] has it and it is or is not free. *)
Definition free_in (h : gmap Z binder_buffer) (b : Z) : bool :=
  match h !! b with Some v => b_free v | None => false end.

(** Bytes of a buffer's payload as recorded in its header. *)
Definition payload_in (h : gmap Z binder_buffer) (b : Z) : Z :=
  match h !! b with
  | Some v => payload_size (b_data_size v) (b_offsets_size v)
  | None => 0
  end.

(** The asynchronous space an allocated buffer accounts for. *)
Definition async_charge (h : gmap Z binder_buffer) (b : Z) : Z :=
  match h !! b with
  | Some v => if negb (b_free v) && b_async_transaction v
              then payload_in h b + sizeof_binder_buffer else 0
  | None => 0
  end.

(** The page at [p] is needed by segment [b .. n]: it holds part of the header,
    or the segment is allocated and the page lies in its data. *)
Definition covers (h : gmap Z binder_buffer) (p b n : Z) : Prop :=
  (page_down b <= p /\ p <= b + sizeof_binder_buffer - 1) \/
  (free_in h b = false /\ page_align (data b) <= p /\ p < page_down n).

Definition not_both_free (h : gmap Z binder_buffer) (e b n : Z) : Prop :=
  ~ (free_in h b = true /\ n ≠ e /\ free_in h n = true).

Definition in_area (a : balloc) (p : Z) : Prop := paged p /\ buffer a <= p < area_end a.

(** A tree holds exactly the nodes of [P], in the order of [key]. *)
Definition tree_of (t : tree) (P : Z -> Prop) (key : Z -> Z) : Prop :=
  NoDup (inorder t) /\ (forall b, b ∈ inorder t <-> P b) /\ sorted_by key (inorder t).

(** The area, the chain of headers and the mapped pages. *)
Record core (a : balloc) : Prop := {
  core_base : paged (buffer a) /\ paged (buffer_size a) /\ 0 <= buffer a /\ area_end a < 2 ^ 63;
  core_head : head (buffers a) = Some (buffer a);
  core_room : seg_all room (buffers a) (area_end a);
  core_heap : forall b, b ∈ buffers a <-> is_Some (heap a !! b);
  core_pages : Z.of_nat (length (pages a)) = buffer_size a / PAGE_SIZE /\
    forall p, in_area a p -> exists v, page_at a p = Ok v /\
      (v = true <-> seg_ex (covers (heap a) p) (buffers a) (area_end a))
}.

Definition is_free (a : balloc) (b : Z) : Prop := b ∈ buffers a /\ free_in (heap a) b = true.
Definition is_allocated (a : balloc) (b : Z) : Prop := b ∈ buffers a /\ free_in (heap a) b = false.

Definition fits (h : gmap Z binder_buffer) (b n : Z) : Prop :=
  free_in h b = false -> 0 <= payload_in h b <= n - data b.

Record inv (a : balloc) : Prop := {
  inv_core : core a;
  inv_coalesced : seg_all (not_both_free (heap a) (area_end a)) (buffers a) (area_end a);
  inv_fit : seg_all (fits (heap a)) (buffers a) (area_end a);
  inv_free_tree : tree_of (free_buffers a) (is_free a) (binder_buffer_size a);
  inv_alloc_tree : tree_of (allocated_buffers a) (is_allocated a) (fun b => b);
  inv_async : 0 <= free_async_space a /\
    free_async_space a + seg_sum (async_charge (heap a)) (buffers a) = buffer_size a / 2
}.

(** ** Pages *)
Section Pages.
Implicit Types (a : balloc) (p q : Z).

Definition pages_ok a : Prop :=
  paged (buffer a) /\ paged (buffer_size a) /\
  Z.of_nat (length (pages a)) = buffer_size a / PAGE_SIZE.

Lemma core_pages_ok a : core a -> pages_ok a.
Proof. intros [(? & ? & _) ? ? ? [? _]]. done. Qed.

(** Slots of different pages of the area are different. *)
Lemma page_slot_in a p :
  pages_ok a -> in_area a p ->
  exists i, page_slot a p = Ok i /\ p = buffer a + 4096 * Z.of_nat i /\ (i < length (pages a))%nat.
Proof.
  unfold pages_ok, in_area, area_end, paged, page_slot, PAGE_SIZE. intros (Hb & Hs & Hl) (Hp & H1 & H2).
  exists (Z.to_nat ((p - buffer a) / 4096)).
  assert (0 <= (p - buffer a) / 4096 < Z.of_nat (length (pages a))) as Hi by zdiv.
  destruct (Z.leb_spec 0 ((p - buffer a) / 4096)); [|lia].
  destruct (Z.ltb_spec ((p - buffer a) / 4096) (Z.of_nat (length (pages a)))); [|lia].
  cbn. split_and!; [done| |lia]. rewrite Z2Nat.id by lia. zdiv.
Qed.

Lemma page_at_in a p : pages_ok a -> in_area a p -> exists v, page_at a p = Ok v.
Proof.
  intros H1 H2. destruct (page_slot_in a p H1 H2) as (i & Hi & _ & Hlt).
  unfold page_at. rewrite Hi. cbn.
  destruct (lookup_lt_is_Some_2 (pages a) i Hlt) as [v Hv]. exists v. by rewrite Hv.
Qed.

Lemma set_page_in a v p :
  pages_ok a -> in_area a p ->
  exists pg, set_page v p a = Ok (set_pages a pg) /\ length pg = length (pages a) /\
    page_at (set_pages a pg) p = Ok v /\
    forall q, in_area a q -> q ≠ p -> page_at (set_pages a pg) q = page_at a q.
Proof.
  intros H1 H2. destruct (page_slot_in a p H1 H2) as (i & Hi & Hpi & Hlt).
  unfold set_page. rewrite Hi. cbn. exists (<[i:=v]> (pages a)).
  split_and!; [done|by rewrite length_insert| |].
  - unfold page_at, page_slot in *. cbn in *. rewrite length_insert.
    destruct (_ && _); [|done]. injection Hi as ->. cbn.
    by rewrite list_lookup_insert_eq.
  - intros q Hq Hne. destruct (page_slot_in a q H1 Hq) as (j & Hj & Hqj & _).
    unfold page_at. rewrite Hj. unfold page_slot in *. cbn in *. rewrite length_insert.
    rewrite Hj. cbn. rewrite list_lookup_insert_ne; [done|]. intros ->. lia.
Qed.

(** Only [pages] counts for [page_at]. *)
Lemma page_at_ext a a' p :
  pages a = pages a' -> buffer a = buffer a' -> page_at a p = page_at a' p.
Proof. unfold page_at, page_slot. by intros -> ->. Qed.

Lemma elem_of_page_addrs p s e :
  paged s -> paged e -> p ∈ page_addrs s e <-> paged p /\ s <= p < e.
Proof.
  unfold paged, page_addrs, PAGE_SIZE. intros Hs He. rewrite list_elem_of_fmap.
  setoid_rewrite elem_of_seqZ. split.
  - intros (i & -> & Hi). split; zdiv.
  - intros (Hp & H). exists ((p - s) / 4096). split; zdiv.
Qed.

Lemma elem_of_page_addrs_down p s e :
  paged s -> paged e -> p ∈ page_addrs_down s e <-> paged p /\ s <= p < e.
Proof.
  unfold paged, page_addrs_down, PAGE_SIZE. intros Hs He. rewrite list_elem_of_fmap.
  setoid_rewrite elem_of_seqZ. split.
  - intros (i & -> & Hi). split; zdiv.
  - intros (Hp & H). exists ((e - p) / 4096 - 1). split; zdiv.
Qed.

Lemma NoDup_page_addrs s e : NoDup (page_addrs s e).
Proof. apply NoDup_fmap_2; [|apply NoDup_seqZ]. unfold PAGE_SIZE. intros x y. lia. Qed.
Lemma NoDup_page_addrs_down s e : NoDup (page_addrs_down s e).
Proof. apply NoDup_fmap_2; [|apply NoDup_seqZ]. unfold PAGE_SIZE. intros x y. lia. Qed.
End Pages.

(** ** Page ranges *)

(** [a'] is [a] with the pages of [s .. e) set to [v]. *)
Definition range_set (a a' : balloc) (s e : Z) (v : bool) : Prop :=
  a' = set_pages a (pages a') /\ length (pages a') = length (pages a) /\
  (forall q, in_area a q -> s <= q < e -> page_at a' q = Ok v) /\
  (forall q, in_area a q -> ~ s <= q < e -> page_at a' q = page_at a q).

Section Ranges.
Implicit Types (a : balloc) (p q s e : Z).

Lemma range_set_refl a s e v : e <= s -> range_set a a s e v.
Proof. intros. split_and!; [by destruct a|done|lia|done]. Qed.

Lemma range_set_keeps a a' s e v : range_set a a' s e v ->
  buffer a' = buffer a /\ buffer_size a' = buffer_size a /\ (pages_ok a -> pages_ok a') /\
  (forall q, in_area a' q <-> in_area a q).
Proof.
  intros (E & Hl & _). unfold pages_ok, in_area, area_end. rewrite E. cbn.
  split_and!; [done|done| |done]. rewrite Hl. done.
Qed.

(** The page array is determined by [page_at] on the area. *)
Lemma pages_ext a pg :
  pages_ok a -> length pg = length (pages a) ->
  (forall q, in_area a q -> page_at (set_pages a pg) q = page_at a q) -> set_pages a pg = a.
Proof.
  intros (Hb & Hs & Hl) Hlen H.
  assert (pg = pages a) as ->; [|by destruct a].
  apply list_eq. intros i.
  destruct (decide (i < length (pages a))%nat) as [Hi|Hi];
    [|rewrite !lookup_ge_None_2 by lia; done].
  set (q := buffer a + 4096 * Z.of_nat i).
  assert (Hq : in_area a q).
  { subst q. revert Hb Hs Hl. unfold in_area, area_end, paged, PAGE_SIZE. intros. split; zdiv. }
  specialize (H q Hq). unfold page_at, page_slot in H. cbn in H. rewrite Hlen in H.
  unfold q, PAGE_SIZE in H. replace ((buffer a + 4096 * Z.of_nat i - buffer a) / 4096)
    with (Z.of_nat i) in H by zdiv.
  destruct (Z.leb_spec 0 (Z.of_nat i)); [|lia].
  destruct (Z.ltb_spec (Z.of_nat i) (Z.of_nat (length (pages a)))); [|lia].
  cbn in H. rewrite Nat2Z.id in H.
  destruct (lookup_lt_is_Some_2 (pages a) i Hi) as [v Hv].
  destruct (lookup_lt_is_Some_2 pg i ltac:(lia)) as [w Hw].
  rewrite Hv, Hw in *. cbn in H. congruence.
Qed.

Lemma free_pages_spec a addrs :
  pages_ok a -> NoDup addrs ->
  (forall q, q ∈ addrs -> in_area a q /\ page_at a q = Ok true) ->
  exists pg, free_pages addrs a = Ok (set_pages a pg) /\ length pg = length (pages a) /\
    (forall q, q ∈ addrs -> page_at (set_pages a pg) q = Ok false) /\
    (forall q, in_area a q -> q ∉ addrs -> page_at (set_pages a pg) q = page_at a q).
Proof.
  revert a. induction addrs as [|p addrs IH]; intros a Hok Hnd H.
  { exists (pages a). split_and!; [by destruct a|done|set_solver|]. intros. by apply page_at_ext. }
  apply NoDup_cons in Hnd as [Hp Hnd].
  destruct (H p) as [Hpa Hpt]; [left|].
  destruct (set_page_in a false p Hok Hpa) as (pg & E & Hl & Hpf & Hother).
  cbn. unfold free_page. rewrite Hpt. cbn. rewrite E. cbn.
  destruct (IH (set_pages a pg)) as (pg' & E' & Hl' & Hin & Hout).
  - unfold pages_ok in *. cbn. by rewrite Hl.
  - done.
  - intros q Hq. destruct (H q) as [Hqa Hqt]; [by right|]. split; [done|].
    rewrite Hother; [done..|]. intros ->. done.
  - exists pg'. cbn in *. split_and!; [done|congruence| |].
    + intros q [->|Hq]%elem_of_cons; [|by apply Hin].
      erewrite page_at_ext; [erewrite Hout; [exact Hpf|done|done]|done|done].
    + intros q Hq [??]%not_elem_of_cons.
      erewrite page_at_ext; [rewrite Hout; [by apply Hother|done|done]|done|done].
Qed.

Lemma free_range_spec a s e :
  pages_ok a -> paged s -> paged e ->
  (forall q, paged q -> s <= q < e -> in_area a q /\ page_at a q = Ok true) ->
  exists a', free_pages (page_addrs_down s e) a = Ok a' /\ range_set a a' s e false.
Proof.
  intros Hok Hs He H.
  destruct (free_pages_spec a (page_addrs_down s e)) as (pg & E & Hl & Hin & Hout);
    [done|apply NoDup_page_addrs_down| |].
  { intros q Hq. apply elem_of_page_addrs_down in Hq as [? ?]; [by apply H|done..]. }
  exists (set_pages a pg). split; [done|]. split_and!; [done|done| |].
  - intros q [Hq _] Hr. apply Hin. by apply elem_of_page_addrs_down.
  - intros q Hq Hr. apply Hout; [done|]. intros [_ ?]%elem_of_page_addrs_down; done.
Qed.

Lemma page_addrs_nil s e : paged s -> paged e -> e <= s -> page_addrs s e = [].
Proof.
  intros Hs He Hle. destruct (page_addrs s e) as [|p l] eqn:E; [done|].
  assert (Hp : p ∈ page_addrs s e) by (rewrite E; left).
  apply elem_of_page_addrs in Hp as [_ ?]; [lia|done..].
Qed.

Lemma page_addrs_cons s e :
  s < e -> page_addrs s e = s :: page_addrs (s + PAGE_SIZE) e.
Proof.
  intros Hlt. unfold page_addrs, PAGE_SIZE.
  rewrite seqZ_cons by zdiv. cbn. f_equal; [lia|].
  replace (Z.pred ((e - s + (4096 - 1)) / 4096)) with ((e - (s + 4096) + (4096 - 1)) / 4096) by zdiv.
  rewrite <- (fmap_add_seqZ 1 0), <- list_fmap_compose.
  apply list_fmap_ext. intros i x _. cbn. lia.
Qed.

Lemma range_set_trans a a1 a2 s m e v :
  range_set a a1 s m v -> range_set a1 a2 m e v -> s <= m <= e -> range_set a a2 s e v.
Proof.
  intros H1 H2 Hm. pose proof (range_set_keeps _ _ _ _ _ H1) as (_ & _ & _ & Ha).
  destruct H1 as (E1 & L1 & I1 & O1), H2 as (E2 & L2 & I2 & O2).
  split_and!; [|congruence| |].
  - rewrite E2. rewrite E1. by destruct a.
  - intros q Hq Hr. destruct (decide (m <= q)).
    + apply I2; [by apply Ha|lia].
    + rewrite O2; [|by apply Ha|lia]. apply I1; [done|lia].
  - intros q Hq Hr. rewrite O2; [|by apply Ha|lia]. apply O1; [done|lia].
Qed.

(** Undoing a range restores the state. *)
Lemma range_set_undo a a1 a2 s e :
  pages_ok a -> range_set a a1 s e true -> range_set a1 a2 s e false ->
  (forall q, paged q -> s <= q < e -> page_at a q = Ok false) -> a2 = a.
Proof.
  intros Hok H1 H2 Hf. pose proof (range_set_keeps _ _ _ _ _ H1) as (_ & _ & _ & Ha).
  destruct H1 as (E1 & L1 & I1 & O1), H2 as (E2 & L2 & I2 & O2).
  assert (E : a2 = set_pages a (pages a2)). { rewrite E2, E1. by destruct a. }
  rewrite E. apply pages_ext; [done|congruence|].
  intros q Hq. rewrite <- E. destruct (decide (s <= q < e)) as [Hr|Hr].
  - rewrite I2 by (done || by apply Ha). symmetry. apply Hf; [apply Hq|done].
  - rewrite O2 by (done || by apply Ha). by apply O1.
Qed.
End Ranges.

Section UpdatePages.
Implicit Types (a : balloc) (p q s e : Z).

(** One page, as a range. *)
Lemma one_page q p : paged p -> paged q -> p <= q < p + 4096 <-> q = p.
Proof. unfold paged. intros. split; zdiv. Qed.

Lemma set_page_range v p a :
  pages_ok a -> in_area a p ->
  exists a', set_page v p a = Ok a' /\ range_set a a' p (p + PAGE_SIZE) v.
Proof.
  intros Hok Hp. destruct (set_page_in a v p Hok Hp) as (pg & E & Hl & Hpv & Ho).
  exists (set_pages a pg). split; [done|]. unfold range_set, PAGE_SIZE. cbn.
  split_and!; [done|done| |]; intros q Hq; rewrite one_page by (apply Hp || apply Hq).
  - by intros ->.
  - intros Hne. by apply Ho.
Qed.

Lemma free_page_range p a :
  pages_ok a -> in_area a p -> page_at a p = Ok true ->
  exists a', free_page p a = Ok a' /\ range_set a a' p (p + PAGE_SIZE) false.
Proof. intros Hok Hp Ht. unfold free_page. rewrite Ht. by apply set_page_range. Qed.

(** Failure at [cur] frees what [start .. cur) had. *)
Lemma allocate_pages_spec env a start cur e :
  pages_ok a -> paged start -> paged cur -> paged e -> start <= cur <= e ->
  (forall q, paged q -> start <= q < e -> in_area a q) ->
  (forall q, paged q -> start <= q < cur -> page_at a q = Ok true) ->
  (forall q, paged q -> cur <= q < e -> page_at a q = Ok false) ->
  exists r a', allocate_pages env start (page_addrs cur e) a = Ok (r, a') /\
    ((r = 0 /\ range_set a a' cur e true) \/ (r = - ENOMEM /\ range_set a a' start cur false)).
Proof.
  intros Hok Hps Hpc Hpe Hle Harea Ht Hf.
  remember (Z.to_nat ((e - cur) / 4096)) as n eqn:Hn.
  revert a cur Hok Hpc Hle Harea Ht Hf Hn.
  induction n as [|n IH]; intros a cur Hok Hpc Hle Harea Ht Hf Hn.
  { rewrite page_addrs_nil by (unfold paged in *; done || zdiv).
    exists 0, a. split; [done|]. left. split; [done|]. apply range_set_refl.
    unfold paged in *. zdiv. }
  assert (Hlt : cur < e) by (unfold paged in *; zdiv).
  rewrite page_addrs_cons by done. cbn [allocate_pages].
  rewrite Hf by (done || lia). cbn.
  destruct (free_range_spec a start cur) as (af & Ef & Hrf); [done..| |].
  { intros q Hq Hr. split; [apply Harea; [done|lia]|by apply Ht]. }
  destruct (alloc_page env cur) eqn:Ealloc; cbn.
  2: { rewrite Ef. cbn. exists (- ENOMEM), af. auto. }
  destruct (set_page_range true cur a Hok) as (a1 & E1 & H1); [apply Harea; [done|lia]|].
  rewrite E1. cbn. pose proof (range_set_keeps _ _ _ _ _ H1) as (_ & _ & Hok1 & Ha1).
  assert (H1t : page_at a1 cur = Ok true).
  { apply H1; [apply Harea; [done|lia]|unfold PAGE_SIZE; lia]. }
  destruct (negb _ || negb _) eqn:Efail.
  - destruct (free_page_range cur a1) as (a2 & E2 & H2); [auto|apply Ha1, Harea; [done|lia]|done|].
    rewrite E2. cbn. assert (a2 = a) as ->.
    { eapply range_set_undo; [done|exact H1|exact H2|].
      intros q Hq ->%one_page; [apply Hf; [done|lia]|done|done]. }
    rewrite Ef. cbn. exists (- ENOMEM), af. auto.
  - assert (Hp1 : paged (cur + PAGE_SIZE)) by (unfold paged, PAGE_SIZE in *; zdiv).
    destruct (IH a1 (cur + PAGE_SIZE)) as (r & a' & E & Hr).
    + auto.
    + done.
    + unfold paged, PAGE_SIZE in *. zdiv.
    + intros q Hq Hr. apply Ha1. by apply Harea.
    + intros q Hq Hr. destruct (decide (q = cur)) as [->|Hne]; [done|].
      destruct H1 as (_ & _ & _ & O1).
      rewrite O1; [apply Ht; [done|]|apply Harea; [done|]|];
        unfold paged, PAGE_SIZE in *; zdiv.
    + intros q Hq Hr. destruct H1 as (_ & _ & _ & O1). unfold PAGE_SIZE in *.
      rewrite O1; [apply Hf; [done|lia]|apply Harea; [done|lia]|lia].
    + unfold PAGE_SIZE. zdiv.
    + rewrite E. exists r, a'. split; [done|]. destruct Hr as [[-> Hr]|[-> Hr]]; [left|right].
      * split; [done|]. eapply range_set_trans; [exact H1|exact Hr|]. unfold PAGE_SIZE in *.
        unfold paged in *. zdiv.
      * split; [done|]. destruct Hr as (Er & Lr & Ir & Or), H1 as (E1' & L1 & I1 & O1).
        split_and!; [|congruence| |].
        -- rewrite Er, E1'. by destruct a.
        -- intros q Hq Hrq. apply Ir; [by apply Ha1|unfold PAGE_SIZE; lia].
        -- intros q Hq Hrq. destruct (decide (q = cur)) as [->|Hne].
           ++ rewrite Ir by (done || apply Ha1, Hq || (unfold PAGE_SIZE; lia)).
              symmetry. apply Hf; [done|lia].
           ++ assert (~ cur <= q < cur + PAGE_SIZE).
              { unfold PAGE_SIZE. rewrite one_page; [done|done|apply Hq]. }
              rewrite Or; [by apply O1|by apply Ha1|lia].
Qed.

Lemma update_free_spec env a s e v :
  pages_ok a -> paged s -> paged e ->
  (forall q, paged q -> s <= q < e -> in_area a q /\ page_at a q = Ok true) ->
  exists r a', binder_update_page_range env a false s e v = Ok (r, a') /\ range_set a a' s e false.
Proof.
  intros Hok Hs He H. unfold binder_update_page_range.
  destruct (Z.leb_spec e s); [eauto using range_set_refl|]. cbn.
  destruct (free_range_spec a s e) as (a' & -> & Ha'); eauto.
Qed.

(** Whatever the memory management answers, an allocating update maps the
    whole range or leaves the state as it was. *)
Lemma update_allocate_spec env a s e v :
  pages_ok a -> paged s -> paged e ->
  (forall q, paged q -> s <= q < e -> in_area a q /\ page_at a q = Ok false) ->
  exists r a', binder_update_page_range env a true s e v = Ok (r, a') /\
    ((r = 0 /\ range_set a a' s e true) \/ (r = - ENOMEM /\ a' = a)).
Proof.
  intros Hok Hs He H. unfold binder_update_page_range.
  destruct (Z.leb_spec e s); [eauto 8 using range_set_refl|]. cbn.
  destruct (match _ with Some m => _ | None => v end); [|eauto 8].
  destruct (allocate_pages_spec env a s s e) as (r & a' & E & Hr);
    [done..|lia|intros; by apply H|intros; lia|intros; by apply H|].
  exists r, a'. split; [done|]. destruct Hr as [?|[-> Hr]]; [by left|right].
  split; [done|]. destruct Hr as (Er & Lr & _ & Or).
  rewrite Er. apply pages_ext; [done..|]. intros q Hq. rewrite <- Er. apply Or; [done|lia].
Qed.
End UpdatePages.

(** ** Access to headers *)

(** Every header of the chain can be read. *)
Definition headers (a : balloc) : Prop :=
  forall b, b ∈ buffers a -> header_mapped a b = Ok true /\ is_Some (heap a !! b).

Section Headers.
Implicit Types (a : balloc) (b p q : Z).

Lemma seg_ex_intro Q (l : list Z) e b : b ∈ l -> (forall n, Q b n) -> seg_ex Q l e.
Proof.
  intros Hb HQ. induction l as [|c l IH]; [by apply elem_of_nil in Hb|].
  apply elem_of_cons in Hb as [->|Hb]; cbn; auto.
Qed.

Lemma header_mapped_intro a b :
  page_at a (page_down b) = Ok true ->
  page_at a (page_down (b + sizeof_binder_buffer - 1)) = Ok true ->
  header_mapped a b = Ok true.
Proof. unfold header_mapped. intros -> ->. done. Qed.

Lemma header_mapped_ext a a' b :
  pages a = pages a' -> buffer a = buffer a' -> header_mapped a b = header_mapped a' b.
Proof. unfold header_mapped. intros. by rewrite !(page_at_ext a a'). Qed.

Lemma get_buffer_Ok a b v :
  header_mapped a b = Ok true -> heap a !! b = Some v -> get_buffer a b = Ok v.
Proof. unfold get_buffer. intros -> ->. done. Qed.

Lemma put_buffer_Ok a b v :
  header_mapped a b = Ok true -> put_buffer a b v = Ok (set_heap a (<[b := v]> (heap a))).
Proof. unfold put_buffer. intros ->. done. Qed.

Lemma headers_get a b : headers a -> b ∈ buffers a ->
  exists v, heap a !! b = Some v /\ get_buffer a b = Ok v.
Proof. intros H Hb. destruct (H b Hb) as [? [v ?]]. eauto using get_buffer_Ok. Qed.

(** The two pages of a header. *)
Lemma header_pages a b :
  pages_ok a -> buffer a <= b -> b + sizeof_binder_buffer <= area_end a ->
  in_area a (page_down b) /\ in_area a (page_down (b + sizeof_binder_buffer - 1)).
Proof.
  unfold pages_ok, in_area, area_end, paged, sizeof_binder_buffer. rewrite !page_down_div.
  intros (? & ? & _) ? ?. split_and!; zdiv.
Qed.

Lemma page_of_header b p :
  p = page_down b \/ p = page_down (b + sizeof_binder_buffer - 1) ->
  page_down b <= p /\ p <= b + sizeof_binder_buffer - 1.
Proof. unfold sizeof_binder_buffer. rewrite !page_down_div. intros [-> | ->]; zdiv. Qed.

Lemma core_bounds a b : core a -> b ∈ buffers a ->
  buffer a <= b /\ b + sizeof_binder_buffer <= area_end a.
Proof.
  intros [_ Hh Hr _ _] Hb. destruct (room_below _ _ _ Hr Hb) as [H1 H2].
  unfold sizeof_binder_buffer. split; [|lia].
  destruct (buffers a) as [|c l]; [done|]. cbn in *. congruence.
Qed.

Lemma core_headers a : core a -> headers a.
Proof.
  intros Hc b Hb. split; [|by apply core_heap].
  destruct (core_bounds a b Hc Hb) as [H1 H2].
  destruct (header_pages a b (core_pages_ok a Hc) H1 H2) as [Hp Hq].
  destruct (core_pages a Hc) as [_ Hpg].
  apply header_mapped_intro.
  - destruct (Hpg _ Hp) as (v & -> & Hv). f_equal. apply Hv.
    eapply seg_ex_intro; [done|]. intros n. left. apply page_of_header. auto.
  - destruct (Hpg _ Hq) as (v & -> & Hv). f_equal. apply Hv.
    eapply seg_ex_intro; [done|]. intros n. left. apply page_of_header. auto.
Qed.

(** Mapping more pages keeps the headers readable. *)
Lemma headers_range_true a a' s e :
  core a -> range_set a a' s e true -> headers a'.
Proof.
  intros Hc (E & Hl & Hin & Hout) b Hb. rewrite E in Hb |- *. cbn in Hb.
  destruct (core_bounds a b Hc Hb) as [H1 H2].
  destruct (header_pages a b (core_pages_ok a Hc) H1 H2) as [Hp Hq].
  destruct (core_headers a Hc b Hb) as [Hm Hs]. rewrite <- E.
  assert (forall q, in_area a q -> page_at a q = Ok true -> page_at a' q = Ok true) as Hk.
  { intros q Hqa Ht. destruct (decide (s <= q < e)); [by apply Hin|by rewrite Hout]. }
  split; [|by rewrite E].
  unfold header_mapped in Hm.
  destruct (page_at a (page_down b)) as [[]|] eqn:E1; cbn in Hm; try done;
    destruct (page_at a _) as [[]|] eqn:E2 in Hm; cbn in Hm; try done.
  apply header_mapped_intro; auto.
Qed.

(** A put to a member of the chain. *)
Lemma headers_put a b v :
  headers a -> b ∈ buffers a ->
  put_buffer a b v = Ok (set_heap a (<[b := v]> (heap a))) /\
  headers (set_heap a (<[b := v]> (heap a))).
Proof.
  intros H Hb. split; [apply put_buffer_Ok; by apply H|].
  intros c Hc. destruct (H c Hc) as [Hm Hs]. split; [done|]. cbn.
  destruct (decide (c = b)) as [->|]; [by rewrite lookup_insert_eq|by rewrite lookup_insert_ne].
Qed.
End Headers.

(** ** Trees *)
Section Trees.
Context `{ops : RbOps} {laws : RbLaws ops}.

Lemma tree_of_ext t P P' key key' :
  tree_of t P key -> (forall b, P b <-> P' b) -> (forall b, P b -> key b = key' b) ->
  tree_of t P' key'.
Proof.
  intros (Hn & Hm & Hs) HP Hk. split_and!; [done| |].
  - intros b. by rewrite Hm, HP.
  - apply (sorted_by_ext key); [|done]. intros y Hy. by apply Hk, Hm.
Qed.

Lemma tree_of_erase t P key x :
  tree_of t P key -> tree_of (rb_erase x t) (fun b => P b /\ b ≠ x) key.
Proof.
  intros (Hn & Hm & Hs). unfold tree_of. rewrite rb_erase_inorder. split_and!.
  - by apply NoDup_list_del.
  - intros b. rewrite elem_of_list_del. by rewrite Hm.
  - by apply StronglySorted_list_del.
Qed.

Lemma tree_of_insert t t' P key x l1 l2 :
  tree_of t P key -> ~ P x -> inorder t = l1 ++ l2 -> inorder t' = l1 ++ x :: l2 ->
  sorted_by key (inorder t') -> tree_of (rb_insert_color x t') (fun b => P b \/ b = x) key.
Proof.
  intros (Hn & Hm & Hs) HP E E' Hs'. unfold tree_of. rewrite rb_insert_color_inorder, E' in *.
  rewrite E in Hn, Hm. split_and!; [|intros b; rewrite <- Hm; set_solver|done].
  assert (l1 ++ x :: l2 ≡ₚ x :: l1 ++ l2) as -> by (symmetry; apply Permutation_middle).
  constructor; [|done]. by rewrite Hm.
Qed.

(** [binder_insert_free_buffer] and [binder_insert_allocated_buffer] on a
    readable chain. *)
Lemma insert_free_spec a x P :
  headers a -> x ∈ buffers a -> free_in (heap a) x = true ->
  tree_of (free_buffers a) P (binder_buffer_size a) ->
  (forall b, P b -> is_free a b) -> ~ P x ->
  exists t, binder_insert_free_buffer a x = Ok (set_free_buffers a t) /\
    tree_of t (fun b => P b \/ b = x) (binder_buffer_size a).
Proof.
  intros Hh Hx Hf Ht HP HPx. unfold binder_insert_free_buffer.
  destruct (headers_get a x Hh Hx) as (v & Hv & ->). cbn.
  unfold free_in in Hf. rewrite Hv in Hf. rewrite Hf. cbn.
  destruct (walk_link_spec (binder_buffer_size a) (fun y =>
      buf ← get_buffer a y;
      _ ← bug_on (negb (b_free buf));
      Ok (if binder_buffer_size a x <? binder_buffer_size a y then Lt else Gt)) x (free_buffers a))
    as (t' & l1 & l2 & E & E1 & E2 & Hs); [apply Ht| |].
  - intros y Hy. destruct Ht as (_ & Hm & _). apply Hm, HP in Hy as [Hyb Hyf].
    destruct (headers_get a y Hh Hyb) as (w & Hw & ->). cbn.
    unfold free_in in Hyf. rewrite Hw in Hyf. rewrite Hyf. cbn.
    destruct (Z.ltb_spec (binder_buffer_size a x) (binder_buffer_size a y)); eexists; (split; [done|]); cbn; lia.
  - rewrite E. cbn. eexists. split; [done|]. by eapply tree_of_insert.
Qed.

Lemma insert_allocated_spec a x P :
  headers a -> x ∈ buffers a -> free_in (heap a) x = false ->
  tree_of (allocated_buffers a) P (fun b => b) ->
  (forall b, P b -> is_allocated a b) -> ~ P x ->
  exists t, binder_insert_allocated_buffer a x = Ok (set_allocated_buffers a t) /\
    tree_of t (fun b => P b \/ b = x) (fun b => b).
Proof.
  intros Hh Hx Hf Ht HP HPx. unfold binder_insert_allocated_buffer.
  destruct (headers_get a x Hh Hx) as (v & Hv & ->). cbn.
  unfold free_in in Hf. rewrite Hv in Hf. rewrite Hf. cbn.
  destruct (walk_link_spec (fun b => b) (fun y =>
      buf ← get_buffer a y;
      _ ← bug_on (b_free buf);
      Ok (Z.compare x y)) x (allocated_buffers a))
    as (t' & l1 & l2 & E & E1 & E2 & Hs); [apply Ht| |].
  - intros y Hy. destruct Ht as (_ & Hm & _). apply Hm in Hy.
    assert (y ≠ x) by (intros ->; done). apply HP in Hy as [Hyb Hyf].
    destruct (headers_get a y Hh Hyb) as (w & Hw & ->). cbn.
    unfold free_in in Hyf. rewrite Hw in Hyf. rewrite Hyf. cbn.
    eexists. split; [done|]. destruct (Z.compare_spec x y); lia.
  - rewrite E. cbn. eexists. split; [done|]. by eapply tree_of_insert.
Qed.
End Trees.
