(* ===== verification/AllocSpec.v ===== *)
(** * Correctness of the buffer allocator

    [binder_alloc_buf] and [binder_free_buf] keep the invariant of [AllocInv],
    never fault, and implement allocation and release on the map of live
    buffers. *)
From S2P Require Import Prelude RbTree Alloc AllocInv.

(** ** Page arithmetic of a split, a whole allocation and a merge *)
Section PageArith.
Implicit Types p b n : Z.

Definition header_page (p b : Z) : Prop := page_down b <= p /\ p <= b + 79.

Lemma cover_split p b size n :
  paged p -> 0 <= size -> b + 80 + size + 80 <= n ->
  let nb := b + 80 + size in
  (header_page p b \/ (page_align (b + 80) <= p /\ p < page_down nb)) \/
    header_page p nb \/ header_page p n
  <-> header_page p b \/
    page_align (b + 80) <= p < Z.min (page_align (b + 80 + (size + 80))) (page_down n) \/
    header_page p n.
Proof.
  unfold header_page, paged. rewrite !page_down_div, !page_align_div. intros Hp Hs Hn. cbn zeta.
  split; intros; zdiv.
Qed.

(** Without a split the pages up to the next header are mapped. *)
Lemma no_split_end b old size :
  0 <= size <= old -> old <= size + 84 ->
  Z.min (page_align (b + size)) (page_down (b + old)) = page_down (b + old).
Proof. rewrite page_down_div, page_align_div. intros. zdiv. Qed.

Lemma exact_end b old : Z.min (page_align (b + old)) (page_down (b + old)) = page_down (b + old).
Proof. rewrite page_down_div, page_align_div. zdiv. Qed.
End PageArith.

(** ** Sizes *)
Section Sizes.
Implicit Types (x y : Z).

Lemma align_ptr_small x : 0 <= x -> x + 7 < 2 ^ 64 -> align_ptr x = align x 8.
Proof. intros. unfold align_ptr. apply u64_small. rewrite align8_div. zdiv. Qed.

Lemma align_ptr_cases x : 0 <= x < 2 ^ 64 ->
  (x <= 2 ^ 64 - 8 /\ x <= align_ptr x /\ align_ptr x <= 2 ^ 64 - 8 /\ align_ptr x < x + 8 /\ align_ptr x mod 8 = 0) \/
  (2 ^ 64 - 8 < x /\ align_ptr x = 0).
Proof.
  intros Hx. unfold align_ptr. rewrite align8_div. destruct (decide (x <= 2 ^ 64 - 8)).
  - left. rewrite u64_small by zdiv. split_and!; zdiv.
  - right. split; [lia|]. unfold u64. zdiv.
Qed.

(** The overflow test of [binder_alloc_buf] is exact: it passes if and only if
    neither alignment nor their sum wraps around. *)
Lemma size_check_exact x y : 0 <= x < 2 ^ 64 -> 0 <= y < 2 ^ 64 ->
  payload_size x y < x \/ payload_size x y < y <-> 2 ^ 64 <= align x 8 + align y 8.
Proof.
  intros Hx Hy. unfold payload_size.
  destruct (align_ptr_cases x Hx) as [(Hx1 & ? & ? & ? & ?)|[Hx1 Ex]],
    (align_ptr_cases y Hy) as [(Hy1 & ? & ? & ? & ?)|[Hy1 Ey]].
  - rewrite <- (align_ptr_small x), <- (align_ptr_small y) by lia.
    unfold u64. destruct (decide (align_ptr x + align_ptr y < 2 ^ 64)).
    + rewrite Z.mod_small by lia. lia.
    + rewrite <- (Z.mod_add _ (-1)) by lia. rewrite Z.mod_small by lia. split; [lia|].
      intros _. left. zdiv.
  - rewrite Ey, u64_small by lia. rewrite !align8_div. split; intros; [zdiv|]. right. zdiv.
  - rewrite Ex, u64_small by lia. rewrite !align8_div. split; intros; [zdiv|]. left. zdiv.
  - rewrite Ex, Ey, u64_small by lia. rewrite !align8_div. split; intros; zdiv.
Qed.

Lemma payload_size_range x y : 0 <= payload_size x y < 2 ^ 64.
Proof. apply u64_range. Qed.
End Sizes.

(** ** The core after a split and after a whole allocation *)
Section CoreSteps.
Implicit Types (a : balloc) (h : gmap Z binder_buffer) (b nb p : Z) (l : list Z).

Lemma covers_ext h h' p b n : h !! b = h' !! b -> covers h p b n <-> covers h' p b n.
Proof. unfold covers, free_in. by intros ->. Qed.

Lemma seg_covers_ext h h' p l e :
  (forall c, c ∈ l -> h !! c = h' !! c) -> seg_ex (covers h p) l e <-> seg_ex (covers h' p) l e.
Proof. intros H. apply seg_ex_ext. intros. by apply covers_ext, H. Qed.

Lemma covers_free h p b n : free_in h b = true -> covers h p b n <-> header_page p b.
Proof.
  unfold covers, header_page, sizeof_binder_buffer. intros ->.
  split; [intros [?|(? & _)]; [lia|done]|intros; left; lia].
Qed.

Lemma covers_allocated h p b n : free_in h b = false ->
  covers h p b n <-> header_page p b \/ (page_align (b + 80) <= p /\ p < page_down n).
Proof.
  unfold covers, header_page, data, sizeof_binder_buffer. intros ->. split.
  - intros [?|(_ & ?)]; [left|right]; lia.
  - intros [?|?]; [left|right; split; [done|]]; lia.
Qed.

(** The page of the next header is covered by the rest of the chain. *)
Lemma next_header_covered h p l e :
  paged e -> p < e -> header_page p (next_of l e) -> seg_ex (covers h p) l e.
Proof.
  unfold header_page. destruct l as [|c l]; cbn.
  - intros He ? [H1 _]. rewrite page_down_id in H1 by done. lia.
  - intros. left. left. unfold sizeof_binder_buffer. lia.
Qed.

Lemma paged_area_end a : core a -> paged (area_end a).
Proof. intros [(H1 & H2 & _) _ _ _ _]. unfold paged, area_end in *. zdiv. Qed.

(** The pages of a core state hold after a change of chain and heap if the
    covered pages change by the range that was mapped or freed. *)
Definition page_set a a' (s e : Z) (v : bool) : Prop :=
  (forall q, in_area a q -> s <= q < e -> page_at a' q = Ok v) /\
  (forall q, in_area a q -> ~ s <= q < e -> page_at a' q = page_at a q).

Lemma range_page_set a a' s e v : range_set a a' s e v -> page_set a a' s e v.
Proof. intros (_ & _ & ? & ?). done. Qed.

Lemma pages_range_true a a' s e h' l' :
  core a -> page_set a a' s e true ->
  (forall p, in_area a p ->
     seg_ex (covers h' p) l' (area_end a) <->
     seg_ex (covers (heap a) p) (buffers a) (area_end a) \/ s <= p < e) ->
  forall p, in_area a p -> exists v, page_at a' p = Ok v /\
    (v = true <-> seg_ex (covers h' p) l' (area_end a)).
Proof.
  intros Hc (Hin & Hout) H p Hp. destruct (core_pages a Hc) as [_ Hpg].
  destruct (Hpg p Hp) as (v & Ev & Hv). specialize (H p Hp).
  destruct (decide (s <= p < e)).
  - exists true. split; [by apply Hin|]. tauto.
  - exists v. rewrite Hout by done. split; [done|]. tauto.
Qed.

Lemma pages_range_false a a' s e h' l' :
  core a -> page_set a a' s e false ->
  (forall p, in_area a p ->
     seg_ex (covers h' p) l' (area_end a) <->
     seg_ex (covers (heap a) p) (buffers a) (area_end a) /\ ~ (s <= p < e)) ->
  forall p, in_area a p -> exists v, page_at a' p = Ok v /\
    (v = true <-> seg_ex (covers h' p) l' (area_end a)).
Proof.
  intros Hc (Hin & Hout) H p Hp. destruct (core_pages a Hc) as [_ Hpg].
  destruct (Hpg p Hp) as (v & Ev & Hv). specialize (H p Hp).
  destruct (decide (s <= p < e)).
  - exists false. split; [by apply Hin|]. split; [done|tauto].
  - exists v. rewrite Hout by done. split; [done|]. tauto.
Qed.
End CoreSteps.

(** The area's constants of [a'] are those of [a]. *)
Definition same_area (a a' : balloc) : Prop :=
  buffer a' = buffer a /\ buffer_size a' = buffer_size a /\
  user_buffer_offset a' = user_buffer_offset a /\ vma a' = vma a /\ vma_vm_mm a' = vma_vm_mm a.

Lemma range_set_same_area a a' s e v : range_set a a' s e v -> same_area a a'.
Proof. intros [E _]. unfold same_area. rewrite E. done. Qed.

Lemma page_at_same a a' p : pages a = pages a' -> same_area a a' -> page_at a p = page_at a' p.
Proof. intros ? (E & _). by apply page_at_ext. Qed.

(** How the pages of the next header absorb the boundary cases. *)
Lemma absorb (L1 L2 A B C R N : Prop) :
  (A \/ B \/ N <-> C \/ R \/ N) -> (N -> L2) ->
  (L1 \/ A \/ B \/ L2 <-> (L1 \/ C \/ L2) \/ R).
Proof. tauto. Qed.

Section AllocCore.
Implicit Types (a : balloc) (b : Z).

Lemma in_area_same a a' p : same_area a a' -> in_area a' p <-> in_area a p.
Proof. intros (E1 & E2 & _). unfold in_area, area_end. by rewrite E1, E2. Qed.

Lemma area_end_same a a' : same_area a a' -> area_end a' = area_end a.
Proof. intros (E1 & E2 & _). unfold area_end. by rewrite E1, E2. Qed.

(** Whole allocation of the free buffer [b]. *)
Lemma core_whole a a1 a' b l1 l2 :
  core a -> buffers a = l1 ++ b :: l2 -> free_in (heap a) b = true ->
  range_set a a1 (page_align (data b)) (page_down (next_of l2 (area_end a))) true ->
  same_area a a' -> pages a' = pages a1 -> buffers a' = buffers a ->
  (forall c, c ≠ b -> heap a' !! c = heap a !! c) ->
  is_Some (heap a' !! b) -> free_in (heap a') b = false -> core a'.
Proof.
  intros Hc Hl Hf Hr Hsa Hpg Hbs Hh Hs Hf'.
  pose proof (room_NoDup _ _ (core_room a Hc)) as Hnd. rewrite Hl in Hnd.
  pose proof (not_in_front _ _ _ Hnd). pose proof (not_in_back _ _ _ Hnd).
  pose proof Hsa as (E1 & E2 & _). pose proof (area_end_same _ _ Hsa) as E3.
  split.
  - rewrite E1, E2, E3. apply Hc.
  - rewrite E1, Hbs. apply Hc.
  - rewrite E3, Hbs. apply Hc.
  - intros c. rewrite Hbs. destruct (decide (c = b)) as [->|Hne].
    + rewrite Hl. split; [done|set_solver].
    + rewrite Hh by done. apply Hc.
  - rewrite Hpg, E2, E3, Hbs. pose proof Hr as (Er & Lr & _). split; [rewrite Lr; apply Hc|].
    intros p Hp. apply (in_area_same _ _ _ Hsa) in Hp.
    rewrite (page_at_ext a' a1) by (done || by rewrite Er, E1).
    eapply (pages_range_true a a1); [done|exact (range_page_set _ _ _ _ _ Hr)| |done].
    clear p Hp. intros p Hp. rewrite Hl, !seg_ex_app. cbn.
    rewrite (covers_free (heap a)), (covers_allocated (heap a')) by done.
    rewrite (seg_covers_ext (heap a') (heap a) p l1), (seg_covers_ext (heap a') (heap a) p l2)
      by (intros c Hcin; apply Hh; intros ->; done).
    unfold data, sizeof_binder_buffer. tauto.
Qed.

(** Allocation of the first [size] bytes of [b], the rest being a new free
    buffer [nb]. *)
Lemma core_split a a1 a' b size l1 l2 :
  core a -> buffers a = l1 ++ b :: l2 -> free_in (heap a) b = true ->
  0 <= size -> data b + size + sizeof_binder_buffer <= next_of l2 (area_end a) ->
  range_set a a1 (page_align (data b))
    (Z.min (page_align (data b + (size + sizeof_binder_buffer))) (page_down (next_of l2 (area_end a)))) true ->
  same_area a a' -> pages a' = pages a1 ->
  let nb := data b + size in
  buffers a' = l1 ++ b :: nb :: l2 ->
  (forall c, c ≠ b -> c ≠ nb -> heap a' !! c = heap a !! c) ->
  is_Some (heap a' !! b) -> free_in (heap a') b = false ->
  is_Some (heap a' !! nb) -> free_in (heap a') nb = true -> core a'.
Proof.
  intros Hc Hl Hf H0 Hn Hr Hsa Hpg nb Hbs Hh Hs Hf' Hsn Hfn.
  pose proof Hsa as (E1 & E2 & _). pose proof (area_end_same _ _ Hsa) as E3.
  pose proof (core_room a Hc) as Hroom. rewrite Hl in Hroom. apply seg_all_app in Hroom as [R1 R2].
  assert (R' : seg_all room (l1 ++ b :: nb :: l2) (area_end a)).
  { apply seg_all_app. cbn in *. unfold room, nb, data, sizeof_binder_buffer in *.
    split_and!; [done|lia|lia|tauto]. }
  pose proof (room_NoDup _ _ R') as Hnd.
  pose proof (not_in_front _ _ _ Hnd). pose proof (not_in_back _ _ _ Hnd).
  assert (Hnd2 : NoDup ((l1 ++ [b]) ++ nb :: l2)) by (by rewrite <- app_assoc).
  pose proof (not_in_front _ _ _ Hnd2). pose proof (not_in_back _ _ _ Hnd2).
  split.
  - rewrite E1, E2, E3. apply Hc.
  - rewrite E1, Hbs. pose proof (core_head a Hc) as E. rewrite Hl in E. by destruct l1.
  - by rewrite E3, Hbs.
  - intros c. rewrite Hbs. destruct (decide (c = b)) as [->|Hne]; [split; [done|set_solver]|].
    destruct (decide (c = nb)) as [->|Hne']; [split; [done|set_solver]|].
    rewrite Hh by done. rewrite <- (core_heap a Hc), Hl. set_solver.
  - rewrite Hpg, E2, E3, Hbs. pose proof Hr as (Er & Lr & _). split; [rewrite Lr; apply Hc|].
    intros p Hp. apply (in_area_same _ _ _ Hsa) in Hp.
    rewrite (page_at_ext a' a1) by (done || by rewrite Er, E1).
    eapply (pages_range_true a a1); [done|exact (range_page_set _ _ _ _ _ Hr)| |done].
    clear p Hp. intros p Hp. rewrite Hl, !seg_ex_app. cbn.
    rewrite (covers_free (heap a)), (covers_allocated (heap a')), (covers_free (heap a')) by done.
    rewrite (seg_covers_ext (heap a') (heap a) p l1), (seg_covers_ext (heap a') (heap a) p l2)
      by (intros c Hcin; apply Hh; intros ->; set_solver).
    pose proof (next_header_covered (heap a) p l2 (area_end a) (paged_area_end a Hc)
      ltac:(apply Hp)) as Hnext.
    pose proof (cover_split p b size (next_of l2 (area_end a)) ltac:(apply Hp) H0) as Hcov.
    unfold nb, data, sizeof_binder_buffer in *. specialize (Hcov ltac:(lia)). cbn zeta in Hcov.
    exact (absorb _ _ _ _ _ _ _ Hcov Hnext).
Qed.
End AllocCore.

(** ** Bounds of the pages a chain covers *)
Section CoverBounds.
Implicit Types (h : gmap Z binder_buffer) (p b e : Z) (l : list Z).

Lemma covers_bounds h p b n : room b n -> covers h p b n -> page_down b <= p < n.
Proof.
  unfold room, covers, data, sizeof_binder_buffer. pose proof (page_down_bounds b).
  pose proof (page_down_bounds n). pose proof (page_align_bounds (b + 80)).
  intros ? [?|(_ & ? & ?)]; lia.
Qed.

Lemma seg_cov_bounds h p l e : seg_all room l e -> seg_ex (covers h p) l e ->
  page_down (next_of l e) <= p < e.
Proof.
  induction l as [|b l IH]; [done|]. intros Hr Hs.
  pose proof (room_next _ _ _ Hr) as Hn. destruct Hr as [Hb Hr], Hs as [Hs|Hs].
  - apply covers_bounds in Hs; [|done]. cbn in *. split; [lia|].
    destruct l as [|c l]; cbn in *; [lia|]. destruct (room_below (c :: l) e c) as [_ ?]; [done|left|]. lia.
  - specialize (IH Hr Hs). split; [|lia]. cbn. rewrite !page_down_div in *. zdiv.
Qed.
End CoverBounds.

(** ** Merging a free buffer into its predecessor *)

(** The range [binder_delete_free_buffer] frees, for the header [b] between
    [p0] and [n]. *)
Definition merge_range (p0 b n : Z) (has_next : bool) : Z * Z :=
  let '(fs, fe) :=
    if buffer_end_page p0 =? buffer_start_page b
    then (false, negb (buffer_end_page p0 =? buffer_end_page b)) else (true, true) in
  let '(fs, fe) :=
    if has_next && (buffer_start_page n =? buffer_end_page b)
    then (fs && negb (buffer_start_page n =? buffer_start_page b), false) else (fs, fe) in
  if fs || fe then
    (if fs then buffer_start_page b else buffer_end_page b,
     (if fe then buffer_end_page b else buffer_start_page b) + PAGE_SIZE)
  else (page_down b, page_down b).

Section Merge.
Implicit Types (p b n : Z).

Lemma merge_range_paged p0 b n hn :
  paged (merge_range p0 b n hn).1 /\ paged (merge_range p0 b n hn).2.
Proof.
  unfold merge_range, buffer_end_page, buffer_start_page.
  assert (forall x, paged (page_down x + PAGE_SIZE)) as Hp.
  { intros x. pose proof (page_down_paged x). unfold paged, PAGE_SIZE in *. zdiv. }
  repeat case_match; simplify_eq/=; auto with binder.
Qed.

(** It frees pages of the header only, and of those exactly the ones that
    neither neighbour's header shares. *)
Lemma merge_range_spec p p0 b n hn :
  paged p -> p0 + 80 <= b -> b + 80 <= n -> (hn = false -> paged n /\ p < n) ->
  let r := merge_range p0 b n hn in
  (r.1 <= p < r.2 -> header_page p b /\ p0 <= p /\ ~ header_page p p0 /\ ~ page_down n <= p) /\
  (header_page p b -> r.1 <= p < r.2 \/ header_page p p0 \/ (hn = true /\ header_page p n)).
Proof.
  unfold merge_range, header_page, buffer_end_page, buffer_start_page, sizeof_binder_buffer,
    PAGE_SIZE, paged.
  rewrite !page_down_div. intros Hp H1 H2 Hn. cbn zeta.
  destruct (Z.eqb_spec (4096 * ((p0 + 80 - 1) / 4096)) (4096 * (b / 4096))) as [E1|E1];
    [destruct (Z.eqb_spec (4096 * ((p0 + 80 - 1) / 4096)) (4096 * ((b + 80 - 1) / 4096))) as [E2|E2]|];
    (destruct hn; cbn [andb negb]; [destruct (Z.eqb_spec (4096 * (n / 4096)) (4096 * ((b + 80 - 1) / 4096))) as [E3|E3];
       [destruct (Z.eqb_spec (4096 * (n / 4096)) (4096 * (b / 4096))) as [E4|E4]|]|specialize (Hn eq_refl)]);
    cbn; (split; [intros ?; split_and!|intros ?]); zdiv.
Qed.
End Merge.

Section MergeCore.
Implicit Types (a : balloc) (b : Z).

Lemma next_of_lookup b (l1 l2 : list Z) e :
  NoDup (l1 ++ b :: l2) ->
  match list_next b (l1 ++ b :: l2) with Some n => n | None => e end = next_of l2 e.
Proof. intros. rewrite list_next_app by done. by destruct l2. Qed.

Lemma binder_buffer_size_app a b l1 l2 :
  NoDup (buffers a) -> buffers a = l1 ++ b :: l2 ->
  binder_buffer_size a b = next_of l2 (area_end a) - data b.
Proof.
  intros Hnd Hl. unfold binder_buffer_size. rewrite Hl in *.
  rewrite list_next_app by done. unfold area_end. by destruct l2.
Qed.

Lemma deleted_pages a a' p0 b l1 l2 h' :
  core a -> buffers a = l1 ++ p0 :: b :: l2 ->
  free_in (heap a) p0 = true -> free_in (heap a) b = true ->
  (forall c, c ≠ b -> h' !! c = heap a !! c) ->
  let r := merge_range p0 b (next_of l2 (area_end a)) (bool_decide (l2 ≠ [])) in
  page_set a a' r.1 r.2 false ->
  forall p, in_area a p -> exists v, page_at a' p = Ok v /\
    (v = true <-> seg_ex (covers h' p) (l1 ++ p0 :: l2) (area_end a)).
Proof.
  intros Hc Hl Hf0 Hfb Hh r Hr. eapply pages_range_false; [done|exact Hr|].
  intros p Hp. pose proof (core_room a Hc) as Hroom. rewrite Hl in Hroom.
  pose proof (room_NoDup _ _ Hroom) as Hnd.
  assert (Hbl : (b ∉ l1) /\ (b ≠ p0) /\ (b ∉ l2)).
  { replace (l1 ++ p0 :: b :: l2) with ((l1 ++ [p0]) ++ b :: l2) in Hnd by by rewrite <- app_assoc.
    pose proof (not_in_front _ _ _ Hnd). pose proof (not_in_back _ _ _ Hnd). set_solver. }
  destruct Hbl as (Hb1 & Hb0 & Hb2).
  apply seg_all_app in Hroom as [R1 (R0 & Rb & R2)].
  set (n := next_of l2 (area_end a)) in *.
  rewrite Hl, !seg_ex_app. cbn. fold n.
  rewrite (seg_covers_ext h' (heap a) p l1), (seg_covers_ext h' (heap a) p l2)
    by (intros c Hcin; apply Hh; intros ->; done).
  rewrite (covers_ext h' (heap a) p p0) by (apply Hh; done).
  rewrite !(covers_free (heap a)) by done.
  destruct (merge_range_spec p p0 b n (bool_decide (l2 ≠ []))) as [HA HB].
  { apply Hp. } { apply R0. } { apply Rb. }
  { intros E. assert (l2 = []) as E'.
    { destruct l2; [done|]. by rewrite bool_decide_eq_false in E; exfalso; apply E. }
    subst n. rewrite E'. cbn. split; [by apply paged_area_end|apply Hp]. }
  fold r in HA, HB.
  assert (H1 : seg_ex (covers (heap a) p) l1 p0 -> p < p0) by (intros; by eapply seg_cov_bounds).
  assert (H2 : seg_ex (covers (heap a) p) l2 (area_end a) -> page_down n <= p)
    by (intros; by eapply seg_cov_bounds).
  assert (H3 : header_page p n -> seg_ex (covers (heap a) p) l2 (area_end a)).
  { intros. apply next_header_covered; [by apply paged_area_end|apply Hp|done]. }
  assert (H1' : seg_ex (covers (heap a) p) l1 p0 -> r.1 <= p < r.2 -> False).
  { intros Hs Hrg. apply H1 in Hs. apply HA in Hrg. lia. }
  clear H1. tauto.
Qed.

Lemma binder_delete_free_buffer_unfold env a p0 b l1 l2 :
  core a -> buffers a = l1 ++ p0 :: b :: l2 -> free_in (heap a) p0 = true ->
  binder_delete_free_buffer env a b =
    (let r := merge_range p0 b (next_of l2 (area_end a)) (bool_decide (l2 ≠ [])) in
     '(_, a') ← binder_update_page_range env (list_del_buffer a b) false (r.1) (r.2) None; Ok a').
Proof.
  intros Hc Hl Hf0. pose proof (room_NoDup _ _ (core_room a Hc)) as Hnd.
  unfold binder_delete_free_buffer. rewrite Hl in *.
  rewrite bug_on_false by (apply bool_decide_eq_false, head_app_ne; done). cbn [mbind res_bind].
  rewrite list_prev_app by done. cbn.
  destruct (headers_get a p0 (core_headers a Hc)) as (v & Hv & ->); [rewrite Hl; set_solver|].
  cbn. unfold free_in in Hf0. rewrite Hv in Hf0. rewrite Hf0. cbn.
  replace (list_next b (l1 ++ p0 :: b :: l2)) with (head l2).
  2: { replace (l1 ++ p0 :: b :: l2) with ((l1 ++ [p0]) ++ b :: l2) in * by by rewrite <- app_assoc.
       by rewrite list_next_app. }
  unfold merge_range.
  assert (Hempty : binder_update_page_range env (list_del_buffer a b) false (page_down b) (page_down b) None
    = Ok (0, list_del_buffer a b)).
  { unfold binder_update_page_range. by rewrite (proj2 (Z.leb_le _ _)) by lia. }
  destruct l2 as [|n l2]; cbn [next_of head].
  - rewrite (bool_decide_eq_false_2 ([] ≠ [])) by auto. cbn [andb].
    repeat case_match; simplify_eq/=; rewrite ?Hempty; done.
  - rewrite (bool_decide_eq_true_2 (n :: l2 ≠ [])) by done. cbn [andb].
    repeat case_match; simplify_eq/=; rewrite ?Hempty; try done.
Qed.
End MergeCore.

(** What an operation leaves alone besides chain, heap and pages. *)
Definition same_trees (a a' : balloc) : Prop :=
  free_buffers a' = free_buffers a /\ allocated_buffers a' = allocated_buffers a /\
  free_async_space a' = free_async_space a.

Section FreeCore.
Implicit Types (a : balloc) (b : Z).

(** The freed range lies in the area and is mapped. *)
Lemma merge_range_mapped a p0 b l1 l2 q :
  core a -> buffers a = l1 ++ p0 :: b :: l2 -> free_in (heap a) b = true ->
  let r := merge_range p0 b (next_of l2 (area_end a)) (bool_decide (l2 ≠ [])) in
  paged q -> r.1 <= q < r.2 -> in_area a q /\ page_at a q = Ok true.
Proof.
  intros Hc Hl Hfb r Hq Hrq.
  pose proof (core_room a Hc) as Hroom. rewrite Hl in Hroom.
  apply seg_all_app in Hroom as [_ (R0 & Rb & _)].
  assert (Hb : b ∈ buffers a) by (rewrite Hl; set_solver).
  destruct (core_bounds a b Hc Hb) as [Hlo Hhi].
  destruct (header_pages a b (core_pages_ok a Hc) Hlo Hhi) as [[_ Hp1] [_ Hp2]].
  assert (Hhp : header_page q b).
  { eapply (merge_range_spec q p0 b); [done|apply R0|apply Rb| |exact Hrq].
    intros E. assert (l2 = []) as ->.
    { destruct l2; [done|]. rewrite bool_decide_eq_true_2 in E by done. done. }
    cbn. split; [by apply paged_area_end|]. revert Hrq. unfold r. cbn.
    pose proof (paged_area_end a Hc) as Hpe. revert Hp1 Hp2 Hpe Hq.
    unfold merge_range, buffer_end_page, buffer_start_page, sizeof_binder_buffer, PAGE_SIZE, paged.
    rewrite !page_down_div. cbn. repeat case_match; simplify_eq/=; intros; zdiv. }
  assert (Ha : in_area a q).
  { split; [done|]. unfold header_page in Hhp. unfold sizeof_binder_buffer in *. lia. }
  split; [exact Ha|]. destruct (core_pages a Hc) as [_ Hpg].
  destruct (Hpg q Ha) as (v & Hv & Hiff). rewrite Hv. f_equal. apply Hiff.
  eapply seg_ex_intro; [exact Hb|]. intros. by apply covers_free.
Qed.

(** Removing [b] from the chain keeps its shape. *)
Lemma core_delete a a1 p0 b l1 l2 :
  core a -> buffers a = l1 ++ p0 :: b :: l2 ->
  free_in (heap a) p0 = true -> free_in (heap a) b = true ->
  same_area a a1 -> length (pages a1) = length (pages a) ->
  buffers a1 = l1 ++ p0 :: l2 -> heap a1 = delete b (heap a) ->
  let r := merge_range p0 b (next_of l2 (area_end a)) (bool_decide (l2 ≠ [])) in
  page_set a a1 r.1 r.2 false -> core a1.
Proof.
  intros Hc Hl Hf0 Hfb Hsa Lr Hb1 Hh1 r Hr.
  pose proof (area_end_same _ _ Hsa) as E3. pose proof Hsa as (E1 & E2 & _).
  pose proof (core_room a Hc) as Hroom. rewrite Hl in Hroom.
  pose proof (room_NoDup _ _ Hroom) as Hnd. apply seg_all_app in Hroom as [R1 (R0 & Rb & R2)].
  split.
  - rewrite E1, E2, E3. apply Hc.
  - rewrite Hb1, E1. pose proof (core_head a Hc) as E. rewrite Hl in E. by destruct l1.
  - rewrite Hb1, E3. apply seg_all_app. cbn. split_and!; [done| |done].
    unfold room, sizeof_binder_buffer in *. cbn in *. lia.
  - intros c. rewrite Hb1, Hh1. destruct (decide (c = b)) as [->|Hne].
    + rewrite lookup_delete_eq. split; [|by intros [? ?]].
      intros Hin. exfalso. replace (l1 ++ p0 :: b :: l2) with ((l1 ++ [p0]) ++ b :: l2) in Hnd
        by by rewrite <- app_assoc.
      pose proof (not_in_front _ _ _ Hnd). pose proof (not_in_back _ _ _ Hnd). set_solver.
    + rewrite lookup_delete_ne by done. rewrite <- (core_heap a Hc), Hl. set_solver.
  - rewrite E2, E3, Hb1, Hh1. split; [rewrite Lr; apply (core_pages a Hc)|].
    intros p Hp. apply (in_area_same _ _ _ Hsa) in Hp.
    eapply (deleted_pages a a1 p0 b l1 l2); [done..| |done|done].
    intros c Hne. by rewrite lookup_delete_ne.
Qed.

Lemma delete_free_spec env a p0 b l1 l2 :
  core a -> buffers a = l1 ++ p0 :: b :: l2 ->
  free_in (heap a) p0 = true -> free_in (heap a) b = true ->
  exists a', binder_delete_free_buffer env a b = Ok a' /\ core a' /\
    buffers a' = l1 ++ p0 :: l2 /\ heap a' = delete b (heap a) /\ same_area a a' /\ same_trees a a'.
Proof.
  intros Hc Hl Hf0 Hfb. rewrite (binder_delete_free_buffer_unfold env a p0 b l1 l2) by done.
  set (r := merge_range _ _ _ _). cbn zeta.
  pose proof (room_NoDup _ _ (core_room a Hc)) as Hnd.
  assert (Hbs : buffers (list_del_buffer a b) = l1 ++ p0 :: l2).
  { cbn. rewrite Hl in *. replace (l1 ++ p0 :: b :: l2) with ((l1 ++ [p0]) ++ b :: l2) in *
      by by rewrite <- app_assoc. rewrite list_del_mid by done. by rewrite <- app_assoc. }
  destruct (merge_range_paged p0 b (next_of l2 (area_end a)) (bool_decide (l2 ≠ []))) as [P1 P2].
  destruct (update_free_spec env (list_del_buffer a b) r.1 r.2 None) as (rc & a1 & -> & Hr);
    [exact (core_pages_ok a Hc)|done|done| |].
  { intros q Hq Hrq. rewrite (page_at_ext _ a) by done.
    exact (merge_range_mapped a p0 b l1 l2 q Hc Hl Hfb Hq Hrq). }
  cbn. destruct Hr as (Er & Lr & Hin & Hout). exists a1.
  assert (Hsa : same_area a a1) by (rewrite Er; done).
  assert (Hb1 : buffers a1 = l1 ++ p0 :: l2) by (rewrite Er; exact Hbs).
  assert (Hh1 : heap a1 = delete b (heap a)) by (rewrite Er; done).
  split_and!; [done| |done|done|done|rewrite Er; done..].
  eapply (core_delete a a1 p0 b); [done..|]. split; [done|].
  intros q Hq Hq'. rewrite Hout by done. by apply page_at_ext.
Qed.

(** Giving back the data pages of the allocated buffer [b]. *)
Lemma data_pages_mapped a b l1 l2 q :
  core a -> buffers a = l1 ++ b :: l2 -> free_in (heap a) b = false ->
  paged q -> page_align (data b) <= q < page_down (next_of l2 (area_end a)) ->
  in_area a q /\ page_at a q = Ok true.
Proof.
  intros Hc Hl Hf Hq Hr.
  assert (Hb : b ∈ buffers a) by (rewrite Hl; set_solver).
  destruct (core_bounds a b Hc Hb) as [Hlo Hhi].
  pose proof (page_align_bounds (data b)). pose proof (page_down_bounds (next_of l2 (area_end a))).
  assert (next_of l2 (area_end a) <= area_end a).
  { pose proof (core_room a Hc) as Hroom. rewrite Hl in Hroom.
    apply seg_all_app in Hroom as [_ [_ R2]]. destruct l2 as [|c l2]; cbn in *; [lia|].
    destruct (room_below (c :: l2) _ c R2) as [_ ?]; [left|]. lia. }
  assert (Ha : in_area a q). { split; [done|]. unfold data, sizeof_binder_buffer in *. lia. }
  split; [exact Ha|]. destruct (core_pages a Hc) as [_ Hpg].
  destruct (Hpg q Ha) as (v & Hv & Hiff). rewrite Hv. f_equal. apply Hiff.
  rewrite Hl, seg_ex_app. right. left. right. split; [done|]. lia.
Qed.

Lemma core_release a a1 a' b l1 l2 :
  core a -> buffers a = l1 ++ b :: l2 -> free_in (heap a) b = false ->
  page_set a a1 (page_align (data b)) (page_down (next_of l2 (area_end a))) false ->
  same_area a a' -> pages a' = pages a1 -> buffer a1 = buffer a ->
  length (pages a1) = length (pages a) -> buffers a' = buffers a ->
  (forall c, c ≠ b -> heap a' !! c = heap a !! c) -> free_in (heap a') b = true -> core a'.
Proof.
  intros Hc Hl Hf Hr Hsa Hpg Eb Lr Hbs Hh Hf'.
  pose proof (core_room a Hc) as Hroom. rewrite Hl in Hroom.
  pose proof (room_NoDup _ _ Hroom) as Hnd. apply seg_all_app in Hroom as [R1 [Rb R2]].
  pose proof (not_in_front _ _ _ Hnd). pose proof (not_in_back _ _ _ Hnd).
  pose proof Hsa as (E1 & E2 & _). pose proof (area_end_same _ _ Hsa) as E3.
  split.
  - rewrite E1, E2, E3. apply Hc.
  - rewrite E1, Hbs. apply Hc.
  - rewrite E3, Hbs. apply Hc.
  - intros c. rewrite Hbs. destruct (decide (c = b)) as [->|Hne].
    + rewrite Hl. unfold free_in in Hf'. destruct (heap a' !! b); [|done].
      split; [eauto|set_solver].
    + rewrite Hh by done. apply Hc.
  - rewrite Hpg, E2, E3, Hbs, Lr. split; [apply (core_pages a Hc)|].
    intros p Hp. apply (in_area_same _ _ _ Hsa) in Hp.
    rewrite (page_at_ext a' a1) by congruence.
    eapply (pages_range_false a a1); [done|exact Hr| |done].
    clear p Hp. intros p Hp. rewrite Hl, !seg_ex_app. cbn.
    rewrite (covers_free (heap a')), (covers_allocated (heap a)) by done.
    rewrite (seg_covers_ext (heap a') (heap a) p l1), (seg_covers_ext (heap a') (heap a) p l2)
      by (intros c Hcin; apply Hh; intros ->; done).
    pose proof (seg_cov_bounds (heap a) p l1 b R1) as B1.
    pose proof (seg_cov_bounds (heap a) p l2 _ R2) as B2.
    pose proof (page_align_bounds (data b)).
    assert (X1 : seg_ex (covers (heap a) p) l1 b -> page_align (data b) <= p -> False).
    { intros Hs Hd. specialize (B1 Hs). unfold data, sizeof_binder_buffer in *. lia. }
    assert (X2 : seg_ex (covers (heap a) p) l2 (area_end a) ->
      p < page_down (next_of l2 (area_end a)) -> False).
    { intros Hs Hd. specialize (B2 Hs). lia. }
    assert (X3 : header_page p b -> page_align (data b) <= p -> False).
    { unfold header_page, data, sizeof_binder_buffer in *. lia. }
    unfold data, sizeof_binder_buffer in *. clear B1 B2. tauto.
Qed.
End FreeCore.

(** ** The invariant after an allocation *)
Section AllocInvariant.
Implicit Types (a : balloc) (b c : Z) (h : gmap Z binder_buffer).

Lemma list_next_insert (l1 l2 : list Z) b nb c :
  c ≠ b -> c ≠ nb -> list_next c (l1 ++ b :: nb :: l2) = list_next c (l1 ++ b :: l2).
Proof.
  intros H1 H2. induction l1 as [|y l1 IH]; cbn.
  - destruct (Z.eqb_spec b c); [congruence|]. destruct (Z.eqb_spec nb c); [congruence|done].
  - destruct (Z.eqb_spec y c); [by destruct l1|done].
Qed.

Lemma size_insert a a' (l1 l2 : list Z) b nb c :
  same_area a a' -> buffers a = l1 ++ b :: l2 -> buffers a' = l1 ++ b :: nb :: l2 ->
  c ≠ b -> c ≠ nb -> binder_buffer_size a' c = binder_buffer_size a c.
Proof.
  intros (E1 & E2 & _) H1 H2 ??. unfold binder_buffer_size.
  rewrite H1, H2, E1, E2, list_next_insert by done. done.
Qed.

Lemma seg_all_mono' Q Q' (l : list Z) e :
  (forall b n, b ∈ l -> n ∈ l \/ n = e -> Q b n -> Q' b n) -> seg_all Q l e -> seg_all Q' l e.
Proof.
  induction l as [|b l IH]; cbn; [done|]. intros H [H1 H2]. split.
  - apply H; [left| |done]. destruct l as [|c l]; cbn; [by right|]. left. right. left.
  - apply IH; [|done]. intros c n Hc Hn. apply H; [by right|]. destruct Hn; [left; by right|by right].
Qed.

Lemma free_in_ext h h' b : h !! b = h' !! b -> free_in h b = free_in h' b.
Proof. unfold free_in. by intros ->. Qed.
Lemma payload_in_ext h h' b : h !! b = h' !! b -> payload_in h b = payload_in h' b.
Proof. unfold payload_in. by intros ->. Qed.
Lemma async_charge_ext h h' b : h !! b = h' !! b -> async_charge h b = async_charge h' b.
Proof. unfold async_charge, payload_in. by intros ->. Qed.
Lemma async_charge_free h b : free_in h b = true -> async_charge h b = 0.
Proof. unfold async_charge, free_in. destruct (h !! b) as [v|]; [|done]. by intros ->. Qed.

Lemma not_both_free_ext h h' e l x :
  (forall c, c ∈ l -> h !! c = h' !! c) -> (x = e \/ free_in h' x = false) ->
  seg_all (not_both_free h e) l x -> seg_all (not_both_free h' e) l x.
Proof.
  intros Hh Hx. apply seg_all_mono'. intros b n Hb Hn Hq (F1 & F2 & F3). apply Hq.
  rewrite (free_in_ext h h') by auto. split_and!; [done|done|].
  destruct Hn as [Hn| ->]; [by rewrite (free_in_ext h h') by auto|].
  destruct Hx as [->|Hx]; congruence.
Qed.

Lemma fits_ext h h' l x : (forall c, c ∈ l -> h !! c = h' !! c) ->
  seg_all (fits h) l x -> seg_all (fits h') l x.
Proof.
  intros Hh. apply seg_all_mono. intros b n Hb. unfold fits.
  rewrite (free_in_ext h h'), (payload_in_ext h h') by auto. done.
Qed.

(** A core is insensitive to trees and to header fields other than [free]. *)
Lemma core_ext a a' :
  core a -> same_area a a' -> buffers a' = buffers a -> pages a' = pages a ->
  (forall c, free_in (heap a') c = free_in (heap a) c) ->
  (forall c, is_Some (heap a' !! c) <-> is_Some (heap a !! c)) -> core a'.
Proof.
  intros Hc Hsa Hb Hp Hf Hs. pose proof Hsa as (E1 & E2 & _).
  pose proof (area_end_same _ _ Hsa) as E3. split.
  - rewrite E1, E2, E3. apply Hc.
  - rewrite E1, Hb. apply Hc.
  - rewrite E3, Hb. apply Hc.
  - intros c. rewrite Hb, Hs. apply Hc.
  - rewrite Hp, E2, E3, Hb. split; [apply (core_pages a Hc)|]. intros p Hpa.
    apply (in_area_same _ _ _ Hsa) in Hpa. destruct (core_pages a Hc) as [_ Hpg].
    destruct (Hpg p Hpa) as (v & Hv & Hiff). exists v.
    rewrite (page_at_ext _ a) by done. split; [done|]. rewrite Hiff.
    apply seg_ex_ext. intros c n _. unfold covers. by rewrite Hf.
Qed.

Lemma inv_alloc a a' b size (async : bool) l1 mid l2 :
  inv a -> buffers a = l1 ++ b :: l2 -> free_in (heap a) b = true ->
  core a' -> same_area a a' -> buffers a' = l1 ++ b :: mid ++ l2 ->
  mid = [] \/ (exists nb, mid = [nb] /\ free_in (heap a') nb = true) ->
  (forall c, c ∈ l1 \/ c ∈ l2 -> heap a' !! c = heap a !! c) ->
  free_in (heap a') b = false -> payload_in (heap a') b = size ->
  0 <= size <= next_of (mid ++ l2) (area_end a) - data b ->
  async_charge (heap a') b = (if async then size + sizeof_binder_buffer else 0) ->
  0 <= free_async_space a' ->
  free_async_space a' = free_async_space a - (if async then size + sizeof_binder_buffer else 0) ->
  tree_of (free_buffers a') (is_free a') (binder_buffer_size a') ->
  tree_of (allocated_buffers a') (is_allocated a') (fun b => b) -> inv a'.
Proof.
  intros Hi Hl Hfb Hc Hsa Hl' Hmid Hh Hf' Hp Hsz Hch H0 Has Htf Hta.
  pose proof (area_end_same _ _ Hsa) as E3. pose proof Hsa as (_ & E2 & _).
  pose proof (inv_coalesced a Hi) as Hco. pose proof (inv_fit a Hi) as Hfi.
  destruct (inv_async a Hi) as [_ Hsum]. rewrite Hl in Hco, Hfi, Hsum.
  apply seg_all_app in Hco as [C1 [Cb C2]], Hfi as [F1 [_ F2]]. cbn in C1, F1.
  assert (Hnext : next_of l2 (area_end a) ≠ area_end a -> next_of l2 (area_end a) ∈ l2).
  { destruct l2; [done|]. left. }
  split; [done|..|done|done|split; [done|]]; rewrite ?E3, ?Hl'.
  - rewrite !seg_all_app. cbn. split_and!.
    + apply (not_both_free_ext (heap a)); [intros; symmetry; apply Hh; auto|by right|done].
    + intros (F & _). congruence.
    + apply seg_all_app. split.
      * destruct Hmid as [->|(nb & -> & Hnb)]; [done|]. cbn. split; [|done].
        intros (_ & Hne & Hfn). apply Cb. split_and!; [done|done|].
        rewrite (free_in_ext _ (heap a')); [done|]. symmetry. apply Hh. auto.
      * apply (not_both_free_ext (heap a)); [intros; symmetry; apply Hh; auto|by left|done].
  - rewrite !seg_all_app. cbn. split_and!.
    + apply (fits_ext (heap a)); [intros; symmetry; apply Hh; auto|done].
    + intros _. by rewrite Hp.
    + apply seg_all_app. split.
      * destruct Hmid as [->|(nb & -> & Hnb)]; [done|]. cbn. split; [|done].
        intros F. congruence.
      * apply (fits_ext (heap a)); [intros; symmetry; apply Hh; auto|done].
  - rewrite Has, E2, <- Hsum, !seg_sum_app. cbn. rewrite seg_sum_app, Hch.
    rewrite (async_charge_free (heap a) b) by done.
    rewrite (seg_sum_ext (async_charge (heap a')) (async_charge (heap a)) l1)
      by (intros; apply async_charge_ext, Hh; auto).
    rewrite (seg_sum_ext (async_charge (heap a')) (async_charge (heap a)) l2)
      by (intros; apply async_charge_ext, Hh; auto).
    destruct Hmid as [->|(nb & -> & Hnb)]; cbn; [|rewrite (async_charge_free _ nb) by done]; lia.
Qed.
End AllocInvariant.

(** ** [take_buffer] *)
Section Take.
Context `{ops : RbOps} {laws : RbLaws ops} {jk : Junk}.
Implicit Types (a : balloc) (b c : Z).

Definition taken (v : binder_buffer) (ds os : Z) (async : bool) : binder_buffer :=
  with_sizes ds os async (with_free false v).

Definition async_cost (async : bool) (size : Z) : Z :=
  if async then size + sizeof_binder_buffer else 0.

Lemma free_in_insert h b v c :
  free_in (<[b := v]> h) c = if decide (b = c) then b_free v else free_in h c.
Proof. unfold free_in. rewrite lookup_insert. by case_decide. Qed.

Lemma is_Some_insert (h : gmap Z binder_buffer) b v c :
  is_Some (<[b := v]> h !! c) <-> b = c \/ is_Some (h !! c).
Proof. rewrite lookup_insert. case_decide; [split; eauto|]. split; [auto|by intros [?|?]]. Qed.

(** The trees after [b] moved from one to the other. *)
Lemma take_trees a a1 b v s e :
  inv a -> heap a !! b = Some v -> b_free v = true -> b ∈ buffers a -> range_set a a1 s e true ->
  exists t, binder_insert_allocated_buffer
      (set_heap (set_free_buffers a1 (rb_erase b (free_buffers a)))
         (<[b := with_free false v]> (heap a))) b =
    Ok (set_allocated_buffers (set_heap (set_free_buffers a1 (rb_erase b (free_buffers a)))
         (<[b := with_free false v]> (heap a))) t) /\
    tree_of t (fun c => is_allocated a c \/ c = b) (fun c => c).
Proof.
  intros Hi Hv Hf Hb Hr. pose proof (headers_range_true _ _ _ _ (inv_core a Hi) Hr) as Hh.
  destruct Hr as (Er & _). assert (Hal : allocated_buffers a1 = allocated_buffers a) by (by rewrite Er).
  assert (Hbs : buffers a1 = buffers a) by (by rewrite Er).
  assert (Hhp : heap a1 = heap a) by (by rewrite Er).
  match goal with |- context [binder_insert_allocated_buffer ?x _] => set (a2 := x) end.
  destruct (insert_allocated_spec a2 b (is_allocated a)) as (t & E & Ht).
  - intros c Hc. cbn in Hc. destruct (Hh c Hc) as [Hm Hs]. rewrite Hhp in Hs. split; [exact Hm|].
    cbn. rewrite is_Some_insert. auto.
  - cbn. by rewrite Hbs.
  - cbn. rewrite free_in_insert, decide_True by done. done.
  - cbn. rewrite Hal. exact (inv_alloc_tree a Hi).
  - intros c [Hc1 Hc2]. split; cbn; [by rewrite Hbs|]. rewrite free_in_insert. case_decide; [|done].
    done.
  - intros [_ Hc]. unfold free_in in Hc. rewrite Hv in Hc. congruence.
  - exists t. split; [exact E|exact Ht].
Qed.

(** Nothing is left over. *)
Lemma take_whole_spec a a1 b v ds os async size l1 l2 :
  inv a -> buffers a = l1 ++ b :: l2 -> heap a !! b = Some v -> b_free v = true ->
  range_set a a1 (page_align (data b)) (page_down (next_of l2 (area_end a))) true ->
  size = payload_size ds os -> 0 <= size <= next_of l2 (area_end a) - data b ->
  async_cost async size <= free_async_space a ->
  exists a', take_buffer a1 b size size ds os async = Ok a' /\ inv a' /\ same_area a a' /\
    buffers a' = buffers a /\ heap a' = <[b := taken v ds os async]> (heap a) /\
    free_async_space a' = free_async_space a - async_cost async size.
Proof.
  intros Hi Hl Hv Hf Hr Hsz Hn Has.
  assert (Hb : b ∈ buffers a) by (rewrite Hl; set_solver).
  destruct (take_trees a a1 b v _ _ Hi Hv Hf Hb Hr) as (t & Et & Ht).
  pose proof (headers_range_true _ _ _ _ (inv_core a Hi) Hr) as Hh.
  pose proof Hr as (Er & _).
  assert (Hbs : buffers a1 = buffers a) by (by rewrite Er).
  assert (Hhp : heap a1 = heap a) by (by rewrite Er).
  assert (Hfb : free_buffers a1 = free_buffers a) by (by rewrite Er).
  assert (Hfs : free_async_space a1 = free_async_space a) by (by rewrite Er).
  destruct (Hh b) as [Hm _]; [by rewrite Hbs|].
  unfold take_buffer. rewrite (get_buffer_Ok _ b v); [|exact Hm|cbn; by rewrite Hhp]. cbn [mbind res_bind].
  rewrite put_buffer_Ok by exact Hm. cbn [mbind res_bind]. rewrite Hfb. cbn [heap set_free_buffers].
  rewrite Hhp, Et. cbn [mbind res_bind]. rewrite Z.eqb_refl. cbn [mbind res_bind].
  erewrite get_buffer_Ok; [|exact Hm|cbn; apply lookup_insert_eq]. cbn [mbind res_bind].
  rewrite put_buffer_Ok by exact Hm. cbn [mbind res_bind].
  eexists. split; [reflexivity|].
  match goal with |- inv ?x /\ _ => set (a' := x) end.
  assert (Hsa : same_area a a') by (unfold a', same_area; destruct async; rewrite Er; done).
  assert (Hb' : buffers a' = buffers a) by (unfold a'; destruct async; exact Hbs).
  assert (Hp' : pages a' = pages a1) by (unfold a'; destruct async; done).
  assert (Hh' : heap a' = <[b := taken v ds os async]> (heap a)).
  { unfold a'; destruct async; cbn; by rewrite insert_insert_eq. }
  assert (Hs' : free_async_space a' = free_async_space a - async_cost async size).
  { unfold a', async_cost; destruct async; cbn; rewrite Hfs; lia. }
  split; [|done].
  assert (Hc : core a').
  { eapply (core_whole a a1 a' b); try done; [apply Hi|unfold free_in; by rewrite Hv|..].
    - intros c Hne. rewrite Hh'. by rewrite lookup_insert_ne.
    - rewrite Hh', lookup_insert_eq. eauto.
    - rewrite Hh', free_in_insert, decide_True by done. done. }
  pose proof (room_NoDup _ _ (core_room a (inv_core a Hi))) as Hnd. rewrite Hl in Hnd.
  eapply (inv_alloc a a' b size async l1 [] l2); try done.
  - unfold free_in. by rewrite Hv.
  - by rewrite Hb'.
  - by left.
  - intros c Hc'. rewrite Hh', lookup_insert_ne; [done|]. intros ->.
    pose proof (not_in_front _ _ _ Hnd). pose proof (not_in_back _ _ _ Hnd). tauto.
  - rewrite Hh', free_in_insert, decide_True by done. done.
  - unfold payload_in. rewrite Hh', lookup_insert_eq. done.
  - unfold async_charge, payload_in. rewrite Hh', lookup_insert_eq. cbn. by rewrite Hsz.
  - rewrite Hs'. lia.
  - assert (free_buffers a' = rb_erase b (free_buffers a)) as -> by (unfold a'; destruct async; done).
    eapply tree_of_ext; [apply tree_of_erase, Hi| |].
    + intros c. unfold is_free. rewrite Hb', Hh', free_in_insert. case_decide as E.
      * cbn. subst. split; [tauto|by intros [_ ?]].
      * split; [tauto|]. intros [? ?]. split_and!; auto.
    + intros c _. unfold binder_buffer_size. destruct Hsa as (-> & -> & _). by rewrite Hb'.
  - assert (allocated_buffers a' = t) as -> by (unfold a'; destruct async; done).
    eapply tree_of_ext; [exact Ht| |done].
    intros c. unfold is_allocated. rewrite Hb', Hh', free_in_insert. case_decide as E; [|naive_solver].
    cbn. subst. split; [intros _; auto|intros _; by right].
Qed.

(** The rest of the chosen buffer becomes the free buffer [data b + size]. *)
Lemma take_split_spec a a1 b v ds os async size l1 l2 new_size :
  inv a -> buffers a = l1 ++ b :: l2 -> heap a !! b = Some v -> b_free v = true ->
  data b + size + sizeof_binder_buffer <= next_of l2 (area_end a) ->
  range_set a a1 (page_align (data b))
    (Z.min (page_align (data b + (size + sizeof_binder_buffer))) (page_down (next_of l2 (area_end a)))) true ->
  size = payload_size ds os -> 0 <= size -> new_size ≠ size ->
  async_cost async size <= free_async_space a ->
  let nb := data b + size in
  exists a', take_buffer a1 b size new_size ds os async = Ok a' /\ inv a' /\ same_area a a' /\
    buffers a' = l1 ++ b :: nb :: l2 /\
    heap a' = <[b := taken v ds os async]> (<[nb := with_free true (junk nb)]> (heap a)) /\
    free_async_space a' = free_async_space a - async_cost async size.
Proof.
  intros Hi Hl Hv Hf Hroomy Hr Hsz Hn Hns Has nb.
  assert (Hb : b ∈ buffers a) by (rewrite Hl; set_solver).
  destruct (take_trees a a1 b v _ _ Hi Hv Hf Hb Hr) as (t & Et & Ht).
  pose proof (headers_range_true _ _ _ _ (inv_core a Hi) Hr) as Hh.
  pose proof Hr as (Er & _).
  assert (Hbs : buffers a1 = buffers a) by (by rewrite Er).
  assert (Hhp : heap a1 = heap a) by (by rewrite Er).
  assert (Hfb : free_buffers a1 = free_buffers a) by (by rewrite Er).
  assert (Hfs : free_async_space a1 = free_async_space a) by (by rewrite Er).
  destruct (Hh b) as [Hm _]; [by rewrite Hbs|].
  pose proof (core_room a (inv_core a Hi)) as Hroom. pose proof (room_NoDup _ _ Hroom) as Hnd.
  (* the chain with the new buffer, and its core *)
  assert (Hnb : nb ≠ b) by (unfold nb, data, sizeof_binder_buffer; lia).
  assert (Hnbl : nb ∉ buffers a).
  { rewrite Hl. rewrite Hl in Hroom. apply seg_all_app in Hroom as [R1 [_ R2]].
    intros [Hin|[?|Hin]%elem_of_cons]%elem_of_app; [|done|].
    - destruct (room_below _ _ _ R1 Hin). unfold nb, data, sizeof_binder_buffer in *. cbn in *. lia.
    - destruct (room_below _ _ _ R2 Hin). unfold nb, data, sizeof_binder_buffer in *. lia. }
  set (h2 := <[nb := with_free true (junk nb)]> (<[b := with_free false v]> (heap a))).
  set (ac := MkAlloc (buffer a) (buffer_size a) (user_buffer_offset a) (vma a) (vma_vm_mm a)
    (l1 ++ b :: nb :: l2) h2 (rb_erase b (free_buffers a)) t (free_async_space a) (pages a1)).
  assert (Hsac : same_area a ac) by done.
  assert (Hcc : core ac).
  { eapply (core_split a a1 ac b size l1 l2); try done; [apply Hi|unfold free_in; by rewrite Hv|..]; cbn; fold nb; unfold h2.
    - intros c H1 H2. by rewrite !lookup_insert_ne.
    - rewrite !is_Some_insert. auto.
    - rewrite !free_in_insert. rewrite decide_False, decide_True by done. done.
    - rewrite is_Some_insert. auto.
    - rewrite free_in_insert, decide_True by done. done. }
  assert (Hmm : forall c, header_mapped ac c = header_mapped a1 c).
  { intros c. apply header_mapped_ext; [done|]. by rewrite Er. }
  assert (Hmnb : header_mapped a1 nb = Ok true).
  { rewrite <- Hmm. apply core_headers; [done|]. cbn. set_solver. }
  assert (Hndc : NoDup (l1 ++ b :: nb :: l2)) by exact (room_NoDup _ _ (core_room ac Hcc)).
  (* run up to the insertion of the new free buffer *)
  unfold take_buffer. rewrite (get_buffer_Ok _ b v); [|exact Hm|cbn; by rewrite Hhp]. cbn [mbind res_bind].
  rewrite put_buffer_Ok by exact Hm. cbn [mbind res_bind]. rewrite Hfb. cbn [heap set_free_buffers].
  rewrite Hhp, Et. cbn [mbind res_bind]. rewrite (proj2 (Z.eqb_neq _ _)) by done. fold nb.
  rewrite put_buffer_Ok by exact Hmnb. cbn [mbind res_bind buffers set_buffers set_allocated_buffers set_heap set_free_buffers heap].
  rewrite Hbs, Hl, list_add_after_app by (by rewrite <- Hl). fold h2.
  match goal with |- context [binder_insert_free_buffer ?x nb] => set (a3 := x) end.
  assert (E3 : a3 = ac). { unfold a3, ac. rewrite Er. done. }
  destruct (insert_free_spec ac nb (fun c => is_free a c /\ c ≠ b)) as (tf & Etf & Htf).
  { by apply core_headers. } { cbn. set_solver. }
  { cbn. unfold h2. rewrite free_in_insert, decide_True by done. done. }
  { cbn. eapply tree_of_ext; [apply tree_of_erase, Hi|done|]. intros c [[Hc _] Hcb]. symmetry.
    apply (size_insert a ac l1 l2 b nb); [done..|]. intros ->. done. }
  { intros c [[Hc1 Hc2] Hcb]. split; cbn; [rewrite Hl in Hc1; set_solver|].
    unfold h2. rewrite !free_in_insert. repeat case_decide; [done|congruence|done]. }
  { intros [[Hc _] _]. done. }
  rewrite E3, Etf. cbn [mbind res_bind].
  erewrite get_buffer_Ok; [|exact (eq_trans (Hmm b) Hm)|
    cbn; unfold h2; rewrite lookup_insert_ne, lookup_insert_eq by done; reflexivity].
  cbn [mbind res_bind]. rewrite put_buffer_Ok by exact (eq_trans (Hmm b) Hm). cbn [mbind res_bind].
  eexists. split; [reflexivity|].
  match goal with |- inv ?x /\ _ => set (a' := x) end.
  assert (Hsa : same_area a a') by (unfold a', same_area; destruct async; done).
  assert (Hb' : buffers a' = l1 ++ b :: nb :: l2) by (unfold a'; destruct async; done).
  assert (Hh' : heap a' = <[b := taken v ds os async]> (<[nb := with_free true (junk nb)]> (heap a))).
  { unfold a', h2; destruct async; cbn; unfold h2;
      rewrite (insert_insert_ne _ nb b), insert_insert_eq by done; done. }
  assert (Hs' : free_async_space a' = free_async_space a - async_cost async size).
  { unfold a', async_cost; destruct async; cbn; lia. }
  split; [|done].
  apply (inv_alloc a a' b size async l1 [nb] l2); try done.
  - unfold free_in. by rewrite Hv.
  - apply (core_ext ac); [done|done|done|by unfold a'; destruct async|..].
    + intros c. rewrite Hh'. cbn. unfold h2. rewrite !free_in_insert.
      repeat case_decide; try congruence. done.
    + intros c. rewrite Hh'. cbn. unfold h2. rewrite !is_Some_insert. tauto.
  - right. exists nb. split; [done|]. rewrite Hh', !free_in_insert.
    rewrite decide_False, decide_True by done. done.
  - intros c Hc'. rewrite Hh'. rewrite !lookup_insert_ne; [done| |].
    + intros <-. apply Hnbl. rewrite Hl. set_solver.
    + intros <-. rewrite Hl in Hnd.
      pose proof (not_in_front _ _ _ Hnd). pose proof (not_in_back _ _ _ Hnd). tauto.
  - rewrite Hh', free_in_insert, decide_True by done. done.
  - unfold payload_in. rewrite Hh', lookup_insert_eq. done.
  - cbn. unfold nb. lia.
  - unfold async_charge, payload_in. rewrite Hh', lookup_insert_eq. cbn. by rewrite Hsz.
  - rewrite Hs'. lia.
  - assert (free_buffers a' = tf) as -> by (unfold a'; destruct async; done).
    eapply tree_of_ext; [exact Htf| |].
    + intros c. unfold is_free. rewrite Hb', Hh', !free_in_insert. rewrite Hl.
      destruct (decide (b = c)) as [<-|]; cbn; [naive_solver|].
      destruct (decide (nb = c)) as [<-|]; cbn; [set_solver|].
      rewrite !elem_of_app, !elem_of_cons. naive_solver.
    + intros c _. unfold binder_buffer_size. destruct Hsa as (-> & -> & _). by rewrite Hb'.
  - assert (allocated_buffers a' = t) as -> by (unfold a'; destruct async; done).
    eapply tree_of_ext; [exact Ht| |done].
    intros c. unfold is_allocated. rewrite Hb', Hh', !free_in_insert. rewrite Hl.
    destruct (decide (b = c)) as [<-|]; cbn; [set_solver|].
    destruct (decide (nb = c)) as [<-|]; cbn.
    + split; [|naive_solver]. rewrite <- Hl. naive_solver.
    + rewrite !elem_of_app, !elem_of_cons. naive_solver.
Qed.
End Take.

(** ** The live buffers *)
Definition live (a : balloc) : gmap Z binder_buffer := filter (fun kv => b_free kv.2 = false) (heap a).

Section Live.
Implicit Types (a : balloc) (b c : Z).

Lemma live_lookup a b v : live a !! b = Some v <-> heap a !! b = Some v /\ b_free v = false.
Proof. unfold live. rewrite map_lookup_filter_Some. done. Qed.

Lemma live_allocated a b : inv a -> is_Some (live a !! b) <-> is_allocated a b.
Proof.
  intros Hi. unfold is_allocated, free_in. rewrite (core_heap a (inv_core a Hi)). split.
  - intros [v [Hv Hf]%live_lookup]. rewrite Hv. eauto.
  - intros [[v Hv] Hf]. rewrite Hv in Hf. exists v. by apply live_lookup.
Qed.

Lemma live_None a b : free_in (heap a) b = true -> live a !! b = None.
Proof.
  unfold free_in. intros Hf. apply eq_None_not_Some. intros [v [Hv Hf']%live_lookup].
  rewrite Hv in Hf. congruence.
Qed.

(** The segment of a member of the chain. *)
Lemma member_segment a b : core a -> b ∈ buffers a ->
  exists l1 l2, buffers a = l1 ++ b :: l2 /\
    binder_buffer_size a b = next_of l2 (area_end a) - data b /\
    0 <= binder_buffer_size a b < 2 ^ 63.
Proof.
  intros Hc Hb. apply list_elem_of_split in Hb as (l1 & l2 & Hl). exists l1, l2.
  pose proof (core_room a Hc) as Hr. pose proof (room_NoDup _ _ Hr) as Hnd.
  assert (E : binder_buffer_size a b = next_of l2 (area_end a) - data b).
  { by eapply binder_buffer_size_app. }
  split_and!; [done|done|..].
  - rewrite Hl in Hr. apply seg_all_app in Hr as [_ [Hr _]]. rewrite E.
    unfold room, data, sizeof_binder_buffer in *. lia.
  - destruct (core_bounds a b Hc) as [H1 H2]; [rewrite Hl; set_solver|].
    destruct (core_base a Hc) as (_ & _ & H3 & H4).
    assert (next_of l2 (area_end a) <= area_end a).
    { rewrite Hl in Hr. apply seg_all_app in Hr as [_ [_ R2]]. destruct l2 as [|c l2]; cbn in *; [lia|].
      destruct (room_below (c :: l2) _ c R2) as [_ ?]; [left|]. lia. }
    rewrite E. unfold data, sizeof_binder_buffer in *. lia.
Qed.

Lemma live_insert_taken a a' b v' : free_in (heap a) b = true -> b_free v' = false ->
  heap a' = <[b := v']> (heap a) -> live a' = <[b := v']> (live a).
Proof.
  intros Hf Hf' Hh. apply map_eq. intros c. unfold live. rewrite Hh.
  rewrite map_filter_insert_True by done. done.
Qed.

Lemma live_insert_split a a' b nb v' w : b ≠ nb -> nb ∉ buffers a -> core a -> b_free v' = false ->
  b_free w = true -> heap a' = <[b := v']> (<[nb := w]> (heap a)) -> live a' = <[b := v']> (live a).
Proof.
  intros Hne Hnb Hc Hf' Hw Hh. unfold live. rewrite Hh, map_filter_insert_True by done.
  f_equal. rewrite map_filter_insert_False; [|cbn; congruence].
  f_equal. apply delete_id. apply eq_None_not_Some. intros Hs. by apply Hnb, (core_heap a Hc).
Qed.
End Live.

(** ** Theorems *)
Section Theorems.
Context `{ops : RbOps} {laws : RbLaws ops} {jk : Junk}.
Implicit Types (a : balloc) (b c : Z).

(** The walk of [binder_alloc_buf] finds a smallest free buffer that is large
    enough. *)
Lemma best_fit_walk a size :
  inv a ->
  exists o n, walk_best (fun y =>
      buf ← get_buffer a y;
      _ ← bug_on (negb (b_free buf));
      Ok (Z.compare size (binder_buffer_size a y))) (free_buffers a) None = Ok (o, n) /\
    match o with
    | None => n = None /\ forall c, is_free a c -> binder_buffer_size a c < size
    | Some b => is_free a b /\ size <= binder_buffer_size a b /\
        (forall c, is_free a c -> size <= binder_buffer_size a c ->
           binder_buffer_size a b <= binder_buffer_size a c) /\
        (n = None /\ size < binder_buffer_size a b \/ n = Some b /\ binder_buffer_size a b = size)
    end.
Proof.
  intros Hi. destruct (inv_free_tree a Hi) as (Hnd & Hm & Hs).
  destruct (walk_best_spec (binder_buffer_size a) (fun y =>
      buf ← get_buffer a y;
      _ ← bug_on (negb (b_free buf));
      Ok (Z.compare size (binder_buffer_size a y))) size (free_buffers a) None Hs)
    as (o & n & E & H).
  { intros y Hy. apply Hm in Hy as [Hy Hf].
    destruct (headers_get a y (core_headers a (inv_core a Hi)) Hy) as (v & Hv & ->). cbn.
    unfold free_in in Hf. rewrite Hv in Hf. rewrite Hf. done. }
  exists o, n. split; [exact E|]. destruct n as [x|].
  - destruct H as (-> & Hx & Hk). apply Hm in Hx. split_and!; [done|lia|intros; lia|by right].
  - destruct H as (Hne & [[-> Hb]|(x & -> & Hx & Hk & Hmin)]).
    + split; [done|]. intros c Hc. by apply Hb, Hm.
    + apply Hm in Hx. split_and!; [done|lia| |left; auto].
      intros c Hc Hsz. apply Hm in Hc. apply Hmin; [done|]. specialize (Hne c Hc). lia.
Qed.

(** What a successful allocation of [size] bytes at [b] does. *)
Record allocated_from (a a' : balloc) (b ds os : Z) (async : bool) : Prop := {
  af_no_overflow : align ds 8 + align os 8 < 2 ^ 64;
  af_fits : align ds 8 + align os 8 <= binder_buffer_size a' b;
  af_was_free : is_free a b;
  af_best : forall c, is_free a c -> align ds 8 + align os 8 <= binder_buffer_size a c ->
    binder_buffer_size a b <= binder_buffer_size a c;
  af_live : exists v, b_data_size v = ds /\ b_offsets_size v = os /\
    b_async_transaction v = async /\ live a' = <[b := v]> (live a);
  af_others : forall c, is_Some (live a !! c) -> binder_buffer_size a' c = binder_buffer_size a c;
  af_async : free_async_space a' =
    free_async_space a - async_cost async (align ds 8 + align os 8)
}.

Lemma payload_size_sum ds os : 0 <= ds < 2 ^ 64 -> 0 <= os < 2 ^ 64 ->
  ~ (payload_size ds os < ds \/ payload_size ds os < os) ->
  align ds 8 + align os 8 < 2 ^ 64 /\ payload_size ds os = align ds 8 + align os 8.
Proof.
  intros H1 H2 H. rewrite size_check_exact in H by done.
  assert (Hlt : align ds 8 + align os 8 < 2 ^ 64) by lia. split; [done|].
  assert (0 <= align ds 8 /\ 0 <= align os 8) as [? ?] by (rewrite !align8_div; split; zdiv).
  unfold payload_size. rewrite !align_ptr_small by (rewrite !align8_div in *; zdiv).
  apply u64_small. lia.
Qed.

Lemma data_pages_unmapped a b l1 l2 q :
  core a -> buffers a = l1 ++ b :: l2 -> free_in (heap a) b = true ->
  paged q -> page_align (data b) <= q < page_down (next_of l2 (area_end a)) ->
  in_area a q /\ page_at a q = Ok false.
Proof.
  intros Hc Hl Hf Hq Hr.
  assert (Hb : b ∈ buffers a) by (rewrite Hl; set_solver).
  destruct (core_bounds a b Hc Hb) as [Hlo Hhi].
  destruct (member_segment a b Hc Hb) as (_ & _ & _ & _ & _).
  pose proof (core_room a Hc) as Hroom. pose proof (room_NoDup _ _ Hroom) as Hnd.
  rewrite Hl in Hroom, Hnd. apply seg_all_app in Hroom as [R1 [Rb R2]].
  pose proof (page_align_bounds (data b)). pose proof (page_down_bounds (next_of l2 (area_end a))).
  assert (next_of l2 (area_end a) <= area_end a).
  { destruct l2 as [|c l2]; cbn in *; [lia|].
    destruct (room_below (c :: l2) _ c R2) as [_ ?]; [left|]. lia. }
  assert (Ha : in_area a q). { split; [done|]. unfold data, sizeof_binder_buffer in *. lia. }
  split; [exact Ha|]. destruct (core_pages a Hc) as [_ Hpg].
  destruct (Hpg q Ha) as (v & Hv & Hiff). rewrite Hv. f_equal.
  destruct v; [|done]. exfalso. assert (Hs : seg_ex (covers (heap a) q) (buffers a) (area_end a)) by tauto.
  rewrite Hl, seg_ex_app in Hs. destruct Hs as [Hs|[Hs|Hs]].
  - apply seg_cov_bounds in Hs; [|done]. unfold data, sizeof_binder_buffer in *. cbn in *. lia.
  - apply covers_free in Hs; [|done]. unfold header_page, data, sizeof_binder_buffer in *. lia.
  - apply seg_cov_bounds in Hs; [|done]. lia.
Qed.

(** From the chosen buffer to the end of [binder_alloc_buf]. *)
Lemma take_chosen a a1 b ds os async new_size :
  let size := payload_size ds os in
  inv a -> is_free a b -> size <= binder_buffer_size a b ->
  (forall c, is_free a c -> size <= binder_buffer_size a c ->
     binder_buffer_size a b <= binder_buffer_size a c) ->
  size = align ds 8 + align os 8 -> align ds 8 + align os 8 < 2 ^ 64 ->
  async_cost async size <= free_async_space a ->
  (new_size = size /\ binder_buffer_size a b <= size + sizeof_binder_buffer + 4 \/
   new_size = size + sizeof_binder_buffer /\ size + sizeof_binder_buffer + 4 < binder_buffer_size a b) ->
  range_set a a1 (page_align (data b))
    (Z.min (page_align (data b + new_size)) (page_down (data b + binder_buffer_size a b))) true ->
  exists a', take_buffer a1 b size new_size ds os async = Ok a' /\ inv a' /\ same_area a a' /\
    allocated_from a a' b ds os async.
Proof.
  intros size Hi Hfree Hsz Hbest Hsum Hov Has Hns Hr.
  pose proof (inv_core a Hi) as Hc. destruct Hfree as [Hb Hf].
  destruct (member_segment a b Hc Hb) as (l1 & l2 & Hl & Hbs & Hlt).
  assert (exists v, heap a !! b = Some v /\ b_free v = true) as (v & Hv & Hfv).
  { unfold free_in in Hf. destruct (heap a !! b) as [v|]; [eauto|done]. }
  assert (Hs0 : 0 <= size) by apply payload_size_range.
  replace (data b + binder_buffer_size a b) with (next_of l2 (area_end a)) in Hr by lia.
  destruct Hns as [[-> Hns]|[-> Hns]].
  - assert (Emin : Z.min (page_align (data b + size)) (page_down (next_of l2 (area_end a)))
        = page_down (next_of l2 (area_end a))).
    { replace (next_of l2 (area_end a)) with (data b + binder_buffer_size a b) by lia.
      apply no_split_end; [|unfold sizeof_binder_buffer in *]; lia. }
    rewrite Emin in Hr.
    destruct (take_whole_spec a a1 b v ds os async size l1 l2) as
      (a' & E & Hi' & Hsa & Hbs' & Hh' & Has'); try done; [lia|].
    exists a'. split_and!; try done. split; rewrite <- ?Hsum; try done; [lia|..].
    + assert (binder_buffer_size a' b = binder_buffer_size a b) as ->; [|done].
      unfold binder_buffer_size. destruct Hsa as (-> & -> & _). by rewrite Hbs'.
    + exists (taken v ds os async). split_and!; [done..|]. by apply live_insert_taken.
    + intros c _. unfold binder_buffer_size. destruct Hsa as (-> & -> & _). by rewrite Hbs'.
  - destruct (take_split_spec a a1 b v ds os async size l1 l2 (size + sizeof_binder_buffer)) as
      (a' & E & Hi' & Hsa & Hbs' & Hh' & Has'); try done;
      [unfold sizeof_binder_buffer in *; lia..|].
    exists a'. split_and!; try done.
    pose proof (room_NoDup _ _ (core_room a' (inv_core a' Hi'))) as Hnd'. rewrite Hbs' in Hnd'.
    set (nb := data b + size) in *.
    assert (Hnb : nb ∉ buffers a).
    { rewrite Hl. replace (l1 ++ b :: nb :: l2) with ((l1 ++ [b]) ++ nb :: l2) in Hnd'
        by by rewrite <- app_assoc.
      pose proof (not_in_front _ _ _ Hnd'). pose proof (not_in_back _ _ _ Hnd'). set_solver. }
    split; rewrite <- ?Hsum; try done; [lia|..].
    + rewrite (binder_buffer_size_app a' b l1 (nb :: l2)); [cbn; lia|by rewrite Hbs'|done].
    + exists (taken v ds os async). split_and!; [done..|].
      apply (live_insert_split a a' b nb _ (with_free true (junk nb))); [unfold nb, data, sizeof_binder_buffer; lia|done..].
    + intros c Hcl. apply live_allocated in Hcl as [Hcb Hcf]; [|done].
      apply (size_insert a a' l1 l2 b nb); [done..| |]; intros E'; rewrite E' in *; congruence || contradiction.
Qed.

(** Allocation never faults and keeps the invariant.  A result is a smallest
    sufficient free buffer, becomes live with the requested sizes and leaves
    the other live buffers alone; without a result nothing changed. *)
Lemma alloc_spec e a ds os async :
  inv a -> 0 <= ds < 2 ^ 64 -> 0 <= os < 2 ^ 64 ->
  exists r a', binder_alloc_buf e a ds os async = Ok (r, a') /\ inv a' /\ same_area a a' /\
    match r with
    | Some b => allocated_from a a' b ds os async
    | None => a' = a
    end.
Proof.
  intros Hi Hds Hos. pose proof (inv_core a Hi) as Hc. unfold binder_alloc_buf.
  assert (Hnone : exists r a', Ok (None, a) = Ok (r, a') /\ inv a' /\ same_area a a' /\
    match r with Some b => allocated_from a a' b ds os async | None => a' = a end).
  { exists None, a. split_and!; done. }
  destruct (vma a) as [vm|]; [|exact Hnone]. cbn zeta.
  destruct ((payload_size ds os <? ds) || (payload_size ds os <? os)) eqn:Eov; [exact Hnone|].
  assert (Hov : ~ (payload_size ds os < ds \/ payload_size ds os < os)).
  { apply orb_false_iff in Eov as [?%Z.ltb_ge ?%Z.ltb_ge]. lia. }
  destruct (payload_size_sum ds os Hds Hos Hov) as [Hlt Hsum].
  destruct (async && _) eqn:Eas; [exact Hnone|].
  destruct (best_fit_walk a (payload_size ds os) Hi) as (o & n & -> & Ho). cbn [mbind res_bind].
  destruct o as [b|]; [|exact Hnone]. destruct Ho as (Hfree & Hsz & Hbest & Hn).
  destruct (member_segment a b Hc (proj1 Hfree)) as (l1 & l2 & Hl & Hbs & Hbound).
  pose proof (payload_size_range ds os) as Hpr. unfold sizeof_binder_buffer in *.
  set (size := payload_size ds os) in *.
  set (new_size := match n with Some _ => _ | None => _ end).
  assert (Hns : new_size = size /\ binder_buffer_size a b <= size + sizeof_binder_buffer + 4 \/
    new_size = size + sizeof_binder_buffer /\ size + sizeof_binder_buffer + 4 < binder_buffer_size a b).
  { unfold new_size, sizeof_binder_buffer. destruct Hn as [[-> ?]|[-> ?]]; [|lia].
    rewrite !u64_small by lia. destruct (Z.leb_spec (binder_buffer_size a b) (size + 80 + 4)); lia. }
  assert (Has : async_cost async size <= free_async_space a).
  { destruct (inv_async a Hi) as [? _]. unfold async_cost. destruct async; [|done]. cbn in Eas.
    rewrite u64_small in Eas by lia. apply Z.ltb_ge in Eas. unfold sizeof_binder_buffer. lia. }
  destruct (update_allocate_spec e a (page_align (data b))
    (Z.min (page_align (data b + new_size)) (page_down (data b + binder_buffer_size a b))) None)
    as (r & a1 & -> & Hr).
  - by apply core_pages_ok.
  - auto with binder.
  - destruct (Z.min_spec (page_align (data b + new_size)) (page_down (data b + binder_buffer_size a b)))
      as [[_ ->]|[_ ->]]; auto with binder.
  - intros q Hq Hrq. apply (data_pages_unmapped a b l1 l2); [done..|apply Hfree|done|].
    replace (data b + binder_buffer_size a b) with (next_of l2 (area_end a)) in Hrq by lia. lia.
  - cbn [mbind res_bind]. destruct Hr as [[-> Hr]|[-> ->]]; [|exact Hnone].
    destruct (take_chosen a a1 b ds os async new_size) as (a' & Et & Hi' & Hsa & Haf); try done.
    cbn [negb Z.eqb]. fold size in Et. rewrite Et. cbn.
    exists (Some b), a'. split_and!; done.
Qed.
End Theorems.
