(* ===== verification/AllocFree.v ===== *)
(** * Correctness of [binder_free_buf]

    While a buffer is being released the chain has a hole: one free buffer that
    is in neither tree and may have free neighbours.  Each step of
    [binder_free_buf] keeps the invariant of such a state; inserting the hole
    in the free tree closes it. *)
From S2P Require Import Prelude RbTree Alloc AllocInv AllocSpec.

Record hole (a : balloc) (x : Z) (l1 l2 : list Z) : Prop := {
  hole_core : core a;
  hole_list : buffers a = l1 ++ x :: l2;
  hole_free : free_in (heap a) x = true;
  hole_co1 : seg_all (not_both_free (heap a) x) l1 x;
  hole_co2 : seg_all (not_both_free (heap a) (area_end a)) l2 (area_end a);
  hole_fit1 : seg_all (fits (heap a)) l1 x;
  hole_fit2 : seg_all (fits (heap a)) l2 (area_end a);
  hole_free_tree : tree_of (free_buffers a)
    (fun c => (c ∈ l1 \/ c ∈ l2) /\ free_in (heap a) c = true) (binder_buffer_size a);
  hole_alloc_tree : tree_of (allocated_buffers a) (is_allocated a) (fun c => c);
  hole_async : 0 <= free_async_space a /\
    free_async_space a + seg_sum (async_charge (heap a)) (l1 ++ l2) = buffer_size a / 2
}.

(** What a step leaves alone: the live buffers and their sizes. *)
Definition same_live (a a' : balloc) : Prop :=
  same_area a a' /\ live a' = live a /\ free_async_space a' = free_async_space a /\
  forall c, is_Some (live a !! c) -> binder_buffer_size a' c = binder_buffer_size a c.

Section Holes.
Context `{ops : RbOps} {laws : RbLaws ops} {jk : Junk}.
Implicit Types (a : balloc) (x c p : Z).

Lemma hole_NoDup a x l1 l2 : hole a x l1 l2 -> NoDup (l1 ++ x :: l2).
Proof. intros H. rewrite <- (hole_list _ _ _ _ H). eapply room_NoDup, core_room, hole_core, H. Qed.

Lemma same_live_trans a1 a2 a3 : same_live a1 a2 -> same_live a2 a3 -> same_live a1 a3.
Proof.
  intros ((A1 & A2 & A3 & A4 & A5) & L1 & F1 & S1) ((B1 & B2 & B3 & B4 & B5) & L2 & F2 & S2).
  split_and!; [unfold same_area; split_and!; congruence|congruence|congruence|].
  intros c Hc. rewrite S2, S1; [done|done|by rewrite L1].
Qed.

Lemma live_delete_free a a' n : free_in (heap a) n = true ->
  heap a' = delete n (heap a) -> live a' = live a.
Proof.
  intros Hf Hh. unfold live. rewrite Hh, map_filter_delete. apply delete_id.
  by apply (live_None a n).
Qed.

Lemma free_in_delete h n c : c ≠ n -> free_in (delete n h) c = free_in h c.
Proof. intros. apply free_in_ext. by rewrite lookup_delete_ne. Qed.

(** Sizes after the removal of [n], for the other buffers but [x]. *)
Lemma size_delete a a' (l1 l2 : list Z) x n c :
  same_area a a' -> buffers a = l1 ++ x :: n :: l2 -> buffers a' = l1 ++ x :: l2 ->
  c ≠ x -> c ≠ n -> binder_buffer_size a' c = binder_buffer_size a c.
Proof.
  intros (E1 & E2 & _) H1 H2 ??. unfold binder_buffer_size.
  rewrite H1, H2, E1, E2, list_next_insert by done. done.
Qed.

Lemma live_not_free a c x : is_Some (live a !! c) -> free_in (heap a) x = true -> c ≠ x.
Proof.
  intros [v [Hv Hf]%live_lookup] Hx ->. unfold free_in in Hx. rewrite Hv in Hx. congruence.
Qed.

(** Removing a free buffer from the chain leaves the allocated ones alone. *)
Lemma is_allocated_delete a a' (l1 l2 : list Z) x n :
  NoDup (l1 ++ x :: n :: l2) -> free_in (heap a) n = true ->
  buffers a = l1 ++ x :: n :: l2 -> buffers a' = l1 ++ x :: l2 -> heap a' = delete n (heap a) ->
  forall c, is_allocated a c <-> is_allocated a' c.
Proof.
  intros Hnd Hn H1 H2 Hh c. unfold is_allocated. rewrite H1, H2, Hh.
  destruct (decide (c = n)) as [->|Hne].
  - split; [intros [_ ?]; congruence|]. intros [Hin _]. exfalso.
    replace (l1 ++ x :: n :: l2) with ((l1 ++ [x]) ++ n :: l2) in Hnd by by rewrite <- app_assoc.
    pose proof (not_in_front _ _ _ Hnd). pose proof (not_in_back _ _ _ Hnd). set_solver.
  - rewrite free_in_delete by done. set_solver.
Qed.

(** The next buffer is free: it is merged into the hole. *)
Lemma hole_next env a x n l1 l2 :
  hole a x l1 (n :: l2) -> free_in (heap a) n = true ->
  exists a', binder_delete_free_buffer env (set_free_buffers a (rb_erase n (free_buffers a))) n = Ok a' /\
    hole a' x l1 l2 /\ same_live a a'.
Proof.
  intros H Hn. pose proof (hole_NoDup _ _ _ _ H) as Hnd.
  pose proof (hole_list _ _ _ _ H) as Hl. pose proof (hole_free _ _ _ _ H) as Hx.
  set (a0 := set_free_buffers a (rb_erase n (free_buffers a))).
  destruct (delete_free_spec env a0 x n l1 l2) as (a' & E & Hc & Hb & Hh & Hsa & Ht1 & Ht2 & Ht3);
    [apply (core_ext a); try done; apply H|done..|].
  exists a'. split; [done|]. cbn in Hh, Ht1, Ht2, Ht3.
  assert (Hsa' : same_area a a') by exact Hsa.
  pose proof (area_end_same _ _ Hsa') as E3.
  assert (Hnd2 : NoDup ((l1 ++ [x]) ++ n :: l2)) by by rewrite <- app_assoc.
  pose proof (not_in_front _ _ _ Hnd) as X1. pose proof (not_in_back _ _ _ Hnd) as X2.
  pose proof (not_in_front _ _ _ Hnd2) as N1. pose proof (not_in_back _ _ _ Hnd2) as N2.
  assert (Hlook : forall c, c ∈ l1 \/ c ∈ l2 -> heap a !! c = heap a' !! c).
  { intros c Hcin. rewrite Hh, lookup_delete_ne; [done|]. intros ->. set_solver. }
  split.
  - split; rewrite ?E3; try done.
    + rewrite Hh, free_in_delete; [done|]. set_solver.
    + apply (not_both_free_ext (heap a)); [auto|by left|apply H].
    + apply (not_both_free_ext (heap a)); [auto|by left|apply (hole_co2 _ _ _ _ H)].
    + apply (fits_ext (heap a)); [auto|apply H].
    + apply (fits_ext (heap a)); [auto|apply (hole_fit2 _ _ _ _ H)].
    + rewrite Ht1. eapply tree_of_ext; [apply tree_of_erase, (hole_free_tree _ _ _ _ H)| |].
      * intros c. rewrite Hh. split.
        -- intros [[Hin Hf] Hne]. rewrite free_in_delete by done. set_solver.
        -- intros [Hin Hf]. assert (c ≠ n) by (intros ->; set_solver).
           rewrite free_in_delete in Hf by done. set_solver.
      * intros c [[Hin Hf] Hne]. symmetry. apply (size_delete a a' l1 l2 x n); [done..| |done].
        intros ->. set_solver.
    + rewrite Ht2. eapply tree_of_ext; [apply (hole_alloc_tree _ _ _ _ H)| |done].
      by apply (is_allocated_delete a a' l1 l2 x n).
    + destruct (hole_async _ _ _ _ H) as [H0 Hs]. rewrite Ht3. split; [done|].
      destruct Hsa' as (_ & -> & _). rewrite <- Hs, !seg_sum_app. cbn.
      rewrite (async_charge_free (heap a) n) by done.
      rewrite (seg_sum_ext _ (async_charge (heap a)) l1) by (intros; symmetry; apply async_charge_ext; auto).
      rewrite (seg_sum_ext _ (async_charge (heap a)) l2) by (intros; symmetry; apply async_charge_ext; auto).
      lia.
  - split_and!; [done|by apply (live_delete_free a a' n)|done|].
    intros c Hcl. apply (size_delete a a' l1 l2 x n); [done..| |]; by eapply live_not_free.
Qed.

(** The previous buffer is free: the hole is merged into it. *)
Lemma hole_prev env a x p l1 l2 :
  hole a x (l1 ++ [p]) l2 -> free_in (heap a) p = true ->
  exists a', binder_delete_free_buffer env a x = Ok a' /\
    hole (set_free_buffers a' (rb_erase p (free_buffers a'))) p l1 l2 /\
    same_live a (set_free_buffers a' (rb_erase p (free_buffers a'))).
Proof.
  intros H Hp. pose proof (hole_NoDup _ _ _ _ H) as Hnd.
  pose proof (hole_list _ _ _ _ H) as Hl. pose proof (hole_free _ _ _ _ H) as Hx.
  rewrite <- app_assoc in Hl, Hnd. cbn in Hl, Hnd.
  destruct (delete_free_spec env a p x l1 l2) as (a1 & E & Hc & Hb & Hh & Hsa & Ht1 & Ht2 & Ht3);
    [apply H|done..|].
  exists a1. split; [done|]. set (a' := set_free_buffers a1 _).
  assert (Hsa' : same_area a a') by exact Hsa.
  pose proof (area_end_same _ _ Hsa') as E3.
  assert (Hnd2 : NoDup ((l1 ++ [p]) ++ x :: l2)) by by rewrite <- app_assoc.
  pose proof (not_in_front _ _ _ Hnd) as P1. pose proof (not_in_back _ _ _ Hnd) as P2.
  pose proof (not_in_front _ _ _ Hnd2) as X1. pose proof (not_in_back _ _ _ Hnd2) as X2.
  assert (Hh' : heap a' = delete x (heap a)) by done.
  assert (Hlook : forall c, c ∈ l1 \/ c ∈ l2 -> heap a !! c = heap a' !! c).
  { intros c Hcin. rewrite Hh', lookup_delete_ne; [done|]. intros ->. set_solver. }
  pose proof (hole_co1 _ _ _ _ H) as C1. apply seg_all_app in C1 as [C1 _]. cbn in C1.
  pose proof (hole_fit1 _ _ _ _ H) as F1. apply seg_all_app in F1 as [F1 _]. cbn in F1.
  split.
  - split; rewrite ?E3; try done.
    + apply (core_ext a1); done.
    + rewrite Hh', free_in_delete; [done|]. set_solver.
    + eapply (seg_all_mono' (not_both_free (heap a) x)); [|exact C1].
      intros b n Hb' Hn Hq (G1 & G2 & G3). destruct Hn as [Hn| ->]; [|done]. apply Hq.
      rewrite (free_in_ext (heap a) (heap a')), (free_in_ext (heap a) (heap a') n) by auto.
      split_and!; [done| |done]. intros ->. set_solver.
    + apply (not_both_free_ext (heap a)); [auto|by left|apply H].
    + apply (fits_ext (heap a)); [auto|exact F1].
    + apply (fits_ext (heap a)); [auto|apply H].
    + cbn. rewrite Ht1. eapply tree_of_ext; [apply tree_of_erase, (hole_free_tree _ _ _ _ H)| |].
      * intros c. rewrite Hh. split.
        -- intros [[Hin Hf] Hne]. assert (c ≠ x) by (intros ->; set_solver).
           rewrite free_in_delete by done. set_solver.
        -- intros [Hin Hf]. assert (c ≠ x) by (intros ->; set_solver).
           rewrite free_in_delete in Hf by done. set_solver.
      * intros c [[Hin Hf] Hne]. symmetry. apply (size_delete a a' l1 l2 p x); [done..|].
        intros ->. set_solver.
    + cbn. rewrite Ht2. eapply tree_of_ext; [apply (hole_alloc_tree _ _ _ _ H)| |done].
      by apply (is_allocated_delete a a' l1 l2 p x).
    + destruct (hole_async _ _ _ _ H) as [H0 Hs].
      replace (free_async_space a') with (free_async_space a) by (symmetry; exact Ht3).
      split; [done|]. destruct Hsa' as (_ & -> & _). rewrite <- Hs, !seg_sum_app. cbn.
      rewrite (async_charge_free (heap a) p) by done.
      rewrite Hh.
      rewrite (seg_sum_ext _ (async_charge (heap a)) l1)
        by (intros; symmetry; apply async_charge_ext; rewrite <- Hh'; auto).
      rewrite (seg_sum_ext _ (async_charge (heap a)) l2)
        by (intros; symmetry; apply async_charge_ext; rewrite <- Hh'; auto).
      lia.
  - split_and!; [done|by apply (live_delete_free a a' x)|exact Ht3|].
    intros c Hcl. apply (size_delete a a' l1 l2 p x); [done..| |]; by eapply live_not_free.
Qed.

(** Inserting the hole in the free tree restores the invariant. *)
Lemma hole_close a x l1 l2 :
  hole a x l1 l2 ->
  (forall l p, l1 = l ++ [p] -> free_in (heap a) p = false) ->
  (forall n l, l2 = n :: l -> free_in (heap a) n = false) ->
  exists a', binder_insert_free_buffer a x = Ok a' /\ inv a' /\ same_live a a'.
Proof.
  intros H Hprev Hnext. pose proof (hole_NoDup _ _ _ _ H) as Hnd.
  pose proof (hole_list _ _ _ _ H) as Hl. pose proof (hole_free _ _ _ _ H) as Hx.
  pose proof (not_in_front _ _ _ Hnd) as X1. pose proof (not_in_back _ _ _ Hnd) as X2.
  destruct (insert_free_spec a x (fun c => (c ∈ l1 \/ c ∈ l2) /\ free_in (heap a) c = true))
    as (t & E & Ht).
  { apply core_headers, H. } { rewrite Hl. set_solver. } { done. } { apply H. }
  { intros c [Hin Hf]. split; [rewrite Hl; set_solver|done]. } { intros [[?|?] _]; done. }
  exists (set_free_buffers a t). split; [done|]. split; [|by split_and!].
  split; cbn; rewrite ?Hl.
  - apply (core_ext a); try done. apply H.
  - apply seg_all_app. cbn. split_and!.
    + destruct (decide (l1 = [])) as [->|Hne]; [done|].
      destruct (exists_last Hne) as (l & p & ->). specialize (Hprev l p eq_refl).
      pose proof (hole_co1 _ _ _ _ H) as C1. apply seg_all_app in C1 as [C1 _]. cbn in C1.
      apply seg_all_app. cbn. split_and!; [|by intros (? & _); congruence|done].
      assert (Hnd3 : NoDup (l ++ [p])) by (apply NoDup_app in Hnd; tauto).
      eapply (seg_all_mono' (not_both_free (heap a) x)); [|exact C1].
      intros b n Hb Hn Hq (G1 & G2 & G3). apply Hq. split_and!; [done| |done].
      intros ->. destruct Hn as [Hn| ->]; set_solver.
    + intros (_ & Hne & Hf). destruct l2 as [|n l2]; [done|]. cbn in *.
      rewrite (Hnext n l2) in Hf; done.
    + apply H.
  - apply seg_all_app. cbn. split_and!; [apply H| |apply H]. intros F. congruence.
  - eapply tree_of_ext; [exact Ht| |done]. intros c. unfold is_free. cbn. rewrite Hl.
    rewrite elem_of_app, elem_of_cons. split; [|naive_solver].
    intros [[? ?]| ->]; [naive_solver|]. auto.
  - apply (hole_alloc_tree _ _ _ _ H).
  - destruct (hole_async _ _ _ _ H) as [H0 Hs]. split; [done|]. rewrite <- Hs, !seg_sum_app. cbn.
    rewrite (async_charge_free (heap a) x) by done. lia.
Qed.

(** The state of [binder_free_buf] once the buffer is marked free. *)
Lemma hole_release env a b v l1 l2 :
  inv a -> buffers a = l1 ++ b :: l2 -> heap a !! b = Some v -> b_free v = false ->
  let a0 := if b_async_transaction v
            then set_free_async_space a (free_async_space a +
                   (payload_size (b_data_size v) (b_offsets_size v) + sizeof_binder_buffer))
            else a in
  exists r a1 a3,
    binder_update_page_range env a0 false (page_align (data b))
      (page_down (data b + binder_buffer_size a b)) None = Ok (r, a1) /\
    put_buffer (set_allocated_buffers a1 (rb_erase b (allocated_buffers a1))) b (with_free true v) = Ok a3 /\
    hole a3 b l1 l2 /\ same_area a a3 /\ live a3 = delete b (live a) /\ buffers a3 = buffers a /\
    free_async_space a3 = free_async_space a + async_charge (heap a) b.
Proof.
  intros Hi Hl Hv Hf a0. pose proof (inv_core a Hi) as Hc.
  assert (Hb : b ∈ buffers a) by (rewrite Hl; set_solver).
  assert (Hfb : free_in (heap a) b = false) by (unfold free_in; by rewrite Hv).
  pose proof (core_room a Hc) as Hroom. pose proof (room_NoDup _ _ Hroom) as Hnd.
  pose proof (binder_buffer_size_app a b l1 l2 Hnd Hl) as Hbs.
  assert (Hsa0 : same_area a a0) by (unfold a0; destruct (b_async_transaction v); done).
  assert (Hp0 : pages a0 = pages a) by (unfold a0; destruct (b_async_transaction v); done).
  assert (Hin0 : forall q, in_area a0 q <-> in_area a q) by (intros; by apply in_area_same).
  replace (data b + binder_buffer_size a b) with (next_of l2 (area_end a)) by lia.
  destruct (update_free_spec env a0 (page_align (data b)) (page_down (next_of l2 (area_end a))) None)
    as (r & a1 & -> & Hr).
  { unfold a0. destruct (b_async_transaction v); apply (core_pages_ok a Hc). }
  { auto with binder. } { auto with binder. }
  { intros q Hq Hrq. rewrite Hin0, (page_at_ext a0 a) by (done || by destruct Hsa0 as (? & _)).
    by apply (data_pages_mapped a b l1 l2). }
  destruct Hr as (Er & Lr & Hrin & Hrout).
  set (a2 := set_allocated_buffers a1 (rb_erase b (allocated_buffers a1))).
  set (a3 := set_heap a2 (<[b := with_free true v]> (heap a))).
  assert (Hh1 : heap a1 = heap a) by (rewrite Er; unfold a0; by destruct (b_async_transaction v)).
  assert (Hb1 : buffers a1 = buffers a) by (rewrite Er; unfold a0; by destruct (b_async_transaction v)).
  assert (Ht1 : free_buffers a1 = free_buffers a) by (rewrite Er; unfold a0; by destruct (b_async_transaction v)).
  assert (Ht2 : allocated_buffers a1 = allocated_buffers a) by (rewrite Er; unfold a0; by destruct (b_async_transaction v)).
  assert (Hs1 : free_async_space a1 = free_async_space a + async_charge (heap a) b).
  { rewrite Er. unfold async_charge, payload_in, a0. rewrite Hv, Hf. destruct (b_async_transaction v); cbn; lia. }
  assert (Hsa1 : same_area a a1).
  { destruct Hsa0 as (? & ? & ? & ? & ?). rewrite Er. unfold same_area. cbn. done. }
  assert (Hsa : same_area a a3) by exact Hsa1.
  assert (Hc3 : core a3).
  { apply (core_release a a1 a3 b l1 l2); try done.
    - split.
      + intros q Hq Hq'. apply Hrin; [by apply Hin0|done].
      + intros q Hq Hq'. rewrite Hrout by (by apply Hin0 || done).
        apply page_at_ext; [done|]. by destruct Hsa0 as (? & _).
    - by destruct Hsa1 as (? & _).
    - by rewrite Lr, Hp0.
    - intros c Hne. cbn. by rewrite lookup_insert_ne.
    - cbn. rewrite free_in_insert, decide_True by done. done. }
  exists r, a1, a3. split; [done|]. split.
  { rewrite put_buffer_Ok; [cbn; by rewrite Hh1|].
    rewrite <- (header_mapped_ext a3) by done. apply core_headers; [done|]. cbn. by rewrite Hb1. }
  pose proof (area_end_same _ _ Hsa) as E3. rewrite Hl in Hnd.
  pose proof (not_in_front _ _ _ Hnd) as X1. pose proof (not_in_back _ _ _ Hnd) as X2.
  assert (Hlook : forall c, c ∈ l1 \/ c ∈ l2 -> heap a !! c = heap a3 !! c).
  { intros c Hcin. cbn. rewrite lookup_insert_ne; [done|]. intros ->. tauto. }
  pose proof (inv_coalesced a Hi) as Hco. pose proof (inv_fit a Hi) as Hfi.
  destruct (inv_async a Hi) as [Ha0 Hsum]. rewrite Hl in Hco, Hfi, Hsum.
  apply seg_all_app in Hco as [C1 [_ C2]], Hfi as [F1 [Fb F2]]. cbn in C1, F1.
  split; [|split_and!; [done| |done|done]].
  - split; rewrite ?E3; try done.
    + cbn. by rewrite Hb1.
    + cbn. rewrite free_in_insert, decide_True by done. done.
    + eapply (seg_all_mono' (not_both_free (heap a) (area_end a))); [|exact C1].
      intros c n Hcin Hn Hq (G1 & G2 & G3). destruct Hn as [Hn| ->]; [|done].
      apply Hq. rewrite (free_in_ext (heap a) (heap a3)), (free_in_ext (heap a) (heap a3) n) by auto.
      split_and!; [done| |done]. intros ->.
      assert (area_end a ∈ buffers a) as He by (rewrite Hl; set_solver).
      destruct (core_bounds a _ Hc He). unfold sizeof_binder_buffer in *. lia.
    + apply (not_both_free_ext (heap a)); [auto|by left|done].
    + apply (fits_ext (heap a)); [auto|done].
    + apply (fits_ext (heap a)); [auto|done].
    + cbn. rewrite Ht1. eapply tree_of_ext; [apply (inv_free_tree a Hi)| |].
      * intros c. unfold is_free. rewrite Hl, free_in_insert. case_decide as E; [subst c|set_solver].
        split; [intros [_ ?]; congruence|]. tauto.
      * intros c _. unfold binder_buffer_size. cbn. destruct Hsa1 as (-> & -> & _). by rewrite Hb1.
    + cbn. rewrite Ht2. eapply tree_of_ext; [apply tree_of_erase, (inv_alloc_tree a Hi)| |done].
      intros c. unfold is_allocated. cbn. rewrite Hb1, free_in_insert. case_decide as E.
      * subst c. cbn. split; [tauto|]. by intros [_ ?].
      * split; [tauto|]. intros ?. split; [done|]. auto.
    + cbn. rewrite Hs1. pose proof Hsa as (_ & E2 & _). cbn in E2. rewrite E2, <- Hsum, !seg_sum_app. cbn.
      rewrite (seg_sum_ext _ (async_charge (heap a)) l1) by (intros; symmetry; apply async_charge_ext; auto).
      rewrite (seg_sum_ext _ (async_charge (heap a)) l2) by (intros; symmetry; apply async_charge_ext; auto).
      split; [|lia]. assert (0 <= async_charge (heap a) b); [|lia].
      unfold async_charge, payload_in. rewrite Hv. pose proof (payload_size_range (b_data_size v) (b_offsets_size v)).
      unfold sizeof_binder_buffer. destruct (_ && _); lia.
  - unfold live. cbn. rewrite map_filter_insert_False by done. by rewrite map_filter_delete.
Qed.

(** The two merges of [binder_free_buf]. *)
Lemma merge_next env a b l1 l2 :
  hole a b l1 l2 ->
  exists a' l2',
    (match list_next b (buffers a) with
     | None => Ok a
     | Some next =>
         nb ← get_buffer a next;
         if b_free nb then
           binder_delete_free_buffer env (set_free_buffers a (rb_erase next (free_buffers a))) next
         else Ok a
     end) = Ok a' /\
    hole a' b l1 l2' /\ same_live a a' /\ (forall n l, l2' = n :: l -> free_in (heap a') n = false).
Proof.
  intros H. pose proof (hole_NoDup _ _ _ _ H) as Hnd. replace (list_next b (buffers a)) with (head l2)
    by (rewrite (hole_list _ _ _ _ H); symmetry; by apply list_next_app).
  destruct l2 as [|n l2]; cbn [head].
  { exists a, []. split_and!; done. }
  assert (Hn : n ∈ buffers a) by (rewrite (hole_list _ _ _ _ H); set_solver).
  destruct (headers_get a n (core_headers a (hole_core _ _ _ _ H)) Hn) as (w & Hw & ->). cbn.
  assert (Ef : free_in (heap a) n = b_free w) by (unfold free_in; by rewrite Hw).
  destruct (b_free w).
  - destruct (hole_next env a b n l1 l2 H Ef) as (a' & E & H' & Hs). exists a', l2.
    split_and!; try done. intros n' l ->.
    pose proof (hole_co2 _ _ _ _ H) as [Hco _]. cbn in Hco.
    destruct (free_in (heap a') n') eqn:Ef'; [|done]. exfalso. apply Hco.
    assert (Hn' : n' ∈ buffers a) by (rewrite (hole_list _ _ _ _ H); set_solver).
    split_and!; [done| |].
    + intros ->. destruct (core_bounds a _ (hole_core _ _ _ _ H) Hn').
      unfold sizeof_binder_buffer in *. lia.
    + destruct Hs as (_ & Hl & _). destruct (free_in (heap a) n') eqn:Ef2; [done|].
      apply (core_heap a (hole_core _ _ _ _ H)) in Hn' as [u Hu].
      assert (Hlv : live a !! n' = Some u).
      { apply live_lookup. split; [done|]. unfold free_in in Ef2. by rewrite Hu in Ef2. }
      rewrite <- Hl in Hlv. apply live_lookup in Hlv as [E1 E2].
      unfold free_in in Ef'. rewrite E1 in Ef'. congruence.
  - exists a, (n :: l2). split_and!; try done. intros n' l [= <- <-]. exact Ef.
Qed.

Lemma merge_prev env a b l1 l2 :
  hole a b l1 l2 -> head (buffers a) = Some (buffer a) ->
  exists b' a' l1',
    (if bool_decide (head (buffers a) = Some b) then Ok (b, a) else
       prev ← deref (list_prev b (buffers a));
       pb ← get_buffer a prev;
       if b_free pb then
         a ← binder_delete_free_buffer env a b;
         Ok (prev, set_free_buffers a (rb_erase prev (free_buffers a)))
       else Ok (b, a)) = Ok (b', a') /\
    hole a' b' l1' l2 /\ same_live a a' /\
    (forall l p, l1' = l ++ [p] -> free_in (heap a') p = false).
Proof.
  intros H Hhead. pose proof (hole_NoDup _ _ _ _ H) as Hnd.
  pose proof (hole_list _ _ _ _ H) as Hl.
  destruct (decide (l1 = [])) as [->|Hne].
  { exists b, a, []. rewrite Hl, bool_decide_eq_true_2 by done. split_and!; try done.
    intros l p E. by destruct l. }
  destruct (exists_last Hne) as (l & p & ->). rewrite <- app_assoc in Hl, Hnd. cbn in Hl, Hnd.
  rewrite Hl. rewrite bool_decide_eq_false_2 by by apply head_app_ne.
  rewrite list_prev_app by done. cbn [mbind res_bind deref].
  assert (Hp : p ∈ buffers a) by (rewrite Hl; set_solver).
  destruct (headers_get a p (core_headers a (hole_core _ _ _ _ H)) Hp) as (w & Hw & ->). cbn.
  assert (Ef : free_in (heap a) p = b_free w) by (unfold free_in; by rewrite Hw).
  destruct (b_free w).
  - destruct (hole_prev env a b p l l2 H Ef) as (a' & E & H' & Hs). rewrite E. cbn.
    eexists _, _, l. split; [done|]. split_and!; try done.
    intros l' p' ->. cbn.
    pose proof (hole_co1 _ _ _ _ H) as Hco. rewrite <- app_assoc in Hco.
    apply seg_all_app in Hco as [_ [Hco _]]. cbn in Hco.
    destruct (free_in (heap a') p') eqn:Ef'; [|done]. exfalso. apply Hco.
    assert (Hp' : p' ∈ buffers a) by (rewrite Hl; set_solver).
    split_and!; [|intros E'; apply (not_in_back _ _ _ Hnd); rewrite E'; left|done].
    destruct Hs as (_ & Hlv & _). destruct (free_in (heap a) p') eqn:Ef2; [done|].
    apply (core_heap a (hole_core _ _ _ _ H)) in Hp' as [u Hu].
    assert (Hlu : live a !! p' = Some u).
    { apply live_lookup. split; [done|]. unfold free_in in Ef2. by rewrite Hu in Ef2. }
    rewrite <- Hlv in Hlu. apply live_lookup in Hlu as [E1 E2]. cbn in E1.
    unfold free_in in Ef'. rewrite E1 in Ef'. congruence.
  - exists b, a, (l ++ [p]). split_and!; try done. intros l' p' E.
    apply app_inj_tail in E as [_ <-]. exact Ef.
Qed.

(** What releasing [b] does to the other buffers and the async space. *)
Record released_from (a a' : balloc) (b : Z) : Prop := {
  rf_live : live a' = delete b (live a);
  rf_others : forall c, is_Some (live a' !! c) -> binder_buffer_size a' c = binder_buffer_size a c;
  rf_async : free_async_space a' = free_async_space a + async_charge (heap a) b
}.

Lemma free_spec env a b v :
  inv a -> live a !! b = Some v -> b_transaction v = None ->
  exists a', binder_free_buf env a b = Ok a' /\ inv a' /\ same_area a a' /\ released_from a a' b.
Proof.
  intros Hi Hlv Ht. pose proof (inv_core a Hi) as Hc.
  pose proof (proj1 (live_allocated a b Hi) (ex_intro _ v Hlv)) as [Hb Hfb].
  apply live_lookup in Hlv as [Hv Hf].
  destruct (member_segment a b Hc Hb) as (l1 & l2 & Hl & Hbs & _).
  destruct (core_bounds a b Hc Hb) as [Hlo Hhi]. unfold sizeof_binder_buffer, area_end in Hhi.
  pose proof (inv_fit a Hi) as Hfit. rewrite Hl in Hfit. apply seg_all_lookup in Hfit.
  specialize (Hfit Hfb). unfold payload_in in Hfit. rewrite Hv in Hfit.
  destruct (hole_release env a b v l1 l2 Hi Hl Hv Hf) as (r & a1 & a3 & E1 & E3 & H3 & Hsa & Hlive & Hbs3 & Has).
  unfold binder_free_buf.
  rewrite (get_buffer_Ok a b v) by (done || apply core_headers; done). cbn [mbind res_bind].
  rewrite Hf. cbn [bug_on mbind res_bind].
  rewrite (proj2 (Z.ltb_ge (binder_buffer_size a b) _)) by lia. cbn [bug_on mbind res_bind].
  rewrite bool_decide_eq_false_2 by auto. cbn [bug_on mbind res_bind].
  rewrite (proj2 (Z.ltb_ge b (buffer a))) by lia. cbn [bug_on mbind res_bind].
  rewrite (proj2 (Z.ltb_ge (buffer a + buffer_size a) b)) by lia. cbn [bug_on mbind res_bind].
  rewrite E1. cbn [mbind res_bind]. rewrite E3. cbn [mbind res_bind].
  destruct (merge_next env a3 b l1 l2 H3) as (a4 & l2' & -> & H4 & Hs4 & Hn4). cbn [mbind res_bind].
  destruct (merge_prev env a4 b l1 l2' H4) as (b' & a5 & l1' & -> & H5 & Hs5 & Hp5).
  { apply H4. } cbn [mbind res_bind].
  destruct (hole_close a5 b' l1' l2' H5 Hp5) as (a6 & -> & Hi6 & Hs6).
  { intros n l ->. specialize (Hn4 n l eq_refl).
    assert (n ∈ buffers a4) as Hn by (rewrite (hole_list _ _ _ _ H4); set_solver).
    destruct (free_in (heap a5) n) eqn:Ef; [|done]. exfalso.
    apply (core_heap a4 (hole_core _ _ _ _ H4)) in Hn as [u Hu].
    assert (Hlu : live a4 !! n = Some u).
    { apply live_lookup. split; [done|]. unfold free_in in Hn4. by rewrite Hu in Hn4. }
    destruct Hs5 as (_ & Hlv & _). rewrite <- Hlv in Hlu. apply live_lookup in Hlu as [X1 X2].
    unfold free_in in Ef. rewrite X1 in Ef. congruence. }
  pose proof (same_live_trans _ _ _ Hs4 (same_live_trans _ _ _ Hs5 Hs6)) as (Hsa' & Hlv & Has' & Hsz).
  exists a6. split_and!; [done|done|..].
  - destruct Hsa as (? & ? & ? & ? & ?), Hsa' as (? & ? & ? & ? & ?).
    unfold same_area; split_and!; congruence.
  - split; [congruence| |congruence]. intros c Hcl. rewrite Hlv in Hcl. rewrite Hsz by done.
    unfold binder_buffer_size. destruct Hsa as (-> & -> & _). by rewrite Hbs3.
Qed.
End Holes.
