(* ===== verification/AllocMap.v ===== *)
(** * The mapped area: its creation, lookups in it and liveness of allocation *)
From S2P Require Import Prelude UserMem RbTree Alloc AllocInv AllocSpec AllocFree.

Section Mmap.
Context `{ops : RbOps} {laws : RbLaws ops} {jk : Junk}.
Implicit Types (a : balloc) (b c : Z).

(** The area before its first page is mapped. *)
Definition bare (base size offset : Z) : balloc :=
  MkAlloc base size offset None None [] ∅ Leaf Leaf 0
    (replicate (Z.to_nat (size / PAGE_SIZE)) false).

Definition good_area (base size : Z) : Prop :=
  paged base /\ paged size /\ 0 <= base /\ 0 < size /\ base + size < 2 ^ 63.

Lemma bare_pages base size offset : good_area base size -> pages_ok (bare base size offset).
Proof.
  unfold good_area, pages_ok, bare, PAGE_SIZE, paged. cbn. intros (? & ? & ? & ? & ?).
  rewrite length_replicate. split_and!; [done..|]. zdiv.
Qed.

Lemma bare_unmapped base size offset p : good_area base size ->
  in_area (bare base size offset) p -> page_at (bare base size offset) p = Ok false.
Proof.
  intros H Hp. destruct (page_slot_in _ p (bare_pages _ _ offset H) Hp) as (i & E & _ & Hi).
  unfold page_at. rewrite E. cbn in *. rewrite length_replicate in Hi.
  by rewrite lookup_replicate_2.
Qed.

(** The area with its first page and the one free buffer. *)
Lemma first_core a base size offset v mm w :
  good_area base size -> range_set (bare base size offset) a base (base + PAGE_SIZE) true ->
  forall as' ft, core (MkAlloc base size offset v mm [base] {[base := with_free true w]} ft Leaf as' (pages a)).
Proof.
  intros Hg (Er & Lr & Hin & Hout) as' ft.
  pose proof (bare_pages _ _ offset Hg) as Hok.
  destruct Hg as (G1 & G2 & G3 & G4 & G5).
  split; unfold area_end; cbn; [done|done|..].
  - unfold room, sizeof_binder_buffer, paged in *. split; [zdiv|done].
  - intros b. rewrite lookup_singleton_is_Some, list_elem_of_singleton. done.
  - split; [rewrite Lr; apply Hok|]. intros p Hp.
    change (in_area (bare base size offset) p) in Hp. 
    exists (bool_decide (base <= p < base + PAGE_SIZE)).
    rewrite (page_at_ext _ a) by (done || by rewrite Er). split.
    + case_bool_decide; [by apply Hin|]. rewrite Hout by done. by apply bare_unmapped.
    + rewrite bool_decide_eq_true. unfold covers, free_in.
      rewrite lookup_singleton_eq, (page_down_id base) by done. cbn.
      destruct Hp as [Hp Hr]. unfold paged, PAGE_SIZE, sizeof_binder_buffer in *.
      split; [intros; left; left; split; zdiv|intros [[?|?]|[]]; [zdiv|naive_solver]].
Qed.

Lemma first_inv base size offset v mm w ft as' pg :
  core (MkAlloc base size offset v mm [base] {[base := with_free true w]} ft Leaf as' pg) ->
  0 <= size -> as' = size / 2 ->
  tree_of ft (fun b => False \/ b = base) (binder_buffer_size (MkAlloc base size offset v mm [base] {[base := with_free true w]} ft Leaf as' pg)) ->
  inv (MkAlloc base size offset v mm [base] {[base := with_free true w]} ft Leaf as' pg).
Proof.
  intros Hc Hs -> Ht. assert (Hf : free_in {[base := with_free true w]} base = true).
  { unfold free_in. by rewrite lookup_singleton_eq. }
  split; unfold area_end; cbn; [done|..].
  - split; [|done]. unfold not_both_free. tauto.
  - split; [|done]. unfold fits. rewrite Hf. done.
  - eapply tree_of_ext; [done|..|done]. intros b. unfold is_free. cbn.
    rewrite list_elem_of_singleton. split; [intros [[]| ->]; done|intros [-> _]; auto].
  - split_and!; [apply NoDup_nil_2|..|apply SSorted_nil]. intros b. unfold is_allocated. cbn.
    rewrite list_elem_of_singleton. split; [by intros ?%elem_of_nil|intros [-> ?]; congruence].
  - rewrite async_charge_free by done. split; [|lia]. apply Z.div_pos; lia.
Qed.

Lemma mmap_spec e base size offset vm mm : good_area base size ->
  exists r, mmap_buffers e base size offset vm mm = Ok r /\
    match r with
    | None => True
    | Some a => inv a /\ live a = ∅ /\ buffers a = [base] /\ vma a = Some vm /\ vma_vm_mm a = Some mm /\
        buffer a = base /\ buffer_size a = size /\ user_buffer_offset a = offset
    end.
Proof.
  intros Hg. pose proof (bare_pages _ _ offset Hg) as Hok. unfold mmap_buffers.
  fold (bare base size offset). cbn zeta.
  destruct (update_allocate_spec e (bare base size offset) base (base + PAGE_SIZE) (Some vm))
    as (r & a & E & Hr); [done|apply Hg|..].
  { destruct Hg as (G & _). unfold paged, PAGE_SIZE in *. zdiv. }
  { intros q Hq Hr. assert (in_area (bare base size offset) q); [|by auto using bare_unmapped].
    destruct Hg as (G1 & G2 & G3 & G4 & G5). unfold in_area, area_end, PAGE_SIZE, paged in *. cbn.
    split; [done|]. zdiv. }
  rewrite E. cbn [mbind res_bind].
  destruct Hr as [[-> Hr]|[-> ->]]; [|by exists None]. cbn [negb Z.eqb].
  pose proof Hr as (Er & _). rewrite Er. unfold bare, set_pages, set_buffers. cbn.
  pose proof (first_core a base size offset None None (junk base) Hg Hr 0 Leaf) as Hc.
  assert (Hh : headers (MkAlloc base size offset None None [base] {[base := with_free true (junk base)]} Leaf Leaf 0 (pages a)))
    by by apply core_headers.
  rewrite put_buffer_Ok; [|apply (Hh base); cbn; left]. cbn. rewrite insert_empty.
  set (a1 := set_heap _ _). assert (headers a1) by exact Hh.
  destruct (insert_free_spec a1 base (fun _ => False)) as (t & -> & Ht); [done|left|..|done|auto|].
  { unfold free_in. cbn. by rewrite lookup_singleton_eq. }
  { split_and!; [apply NoDup_nil_2|by intros b; cbn; rewrite elem_of_nil|apply SSorted_nil]. }
  cbn. eexists. split; [done|]. split_and!; try done.
  - unfold a1, set_vma, set_free_async_space, set_free_buffers, set_heap. cbn.
    apply first_inv; [|unfold good_area in Hg; lia|done|exact Ht].
    by apply first_core.
  - apply map_eq. intros i. rewrite lookup_empty. apply eq_None_not_Some.
    intros [v [Hv Hf]%live_lookup]. cbn in Hv. apply lookup_singleton_Some in Hv as [_ <-]. done.
Qed.
End Mmap.

(** ** Lookups *)
Section Lookup.
Context `{ops : RbOps} {laws : RbLaws ops}.
Implicit Types (a : balloc) (b c : Z).

Lemma u64_shift x y z : 0 <= x < 2 ^ 64 -> u64 (y - z) = x <-> u64 (x + z) = u64 y.
Proof. unfold u64. intros. split; zdiv. Qed.

(** The user addresses of live buffers, and nothing else, are found. *)
Lemma lookup_spec a user_ptr : inv a ->
  exists o, binder_buffer_lookup a user_ptr = Ok o /\
    forall b, o = Some b <-> is_Some (live a !! b) /\
      u64 (data b + user_buffer_offset a) = u64 user_ptr.
Proof.
  intros Hi. destruct (inv_alloc_tree a Hi) as (_ & Hm & Hs).
  unfold binder_buffer_lookup. set (k := u64 (user_ptr - _ - _)).
  destruct (walk_find_spec (fun b => b) (fun y =>
      buf ← get_buffer a y;
      _ ← bug_on (b_free buf);
      Ok (Z.compare k y)) k (allocated_buffers a) Hs) as (o & -> & Ho).
  { intros y Hy. apply Hm in Hy as [Hy Hf].
    destruct (headers_get a y (core_headers a (inv_core a Hi)) Hy) as (v & Hv & ->). cbn.
    unfold free_in in Hf. rewrite Hv in Hf. by rewrite Hf. }
  exists o. split; [done|]. intros b. rewrite live_allocated by done. rewrite <- Hm.
  assert (Hk : b ∈ inorder (allocated_buffers a) ->
    k = b <-> u64 (data b + user_buffer_offset a) = u64 user_ptr).
  { intros [Hb _]%Hm. destruct (core_bounds a b (inv_core a Hi) Hb) as [H1 H2].
    destruct (core_base a (inv_core a Hi)) as (_ & _ & H3 & H4).
    unfold k, data, sizeof_binder_buffer in *.
    replace (user_ptr - user_buffer_offset a - 80) with (user_ptr - (user_buffer_offset a + 80)) by lia.
    replace (b + 80 + user_buffer_offset a) with (b + (user_buffer_offset a + 80)) by lia.
    apply u64_shift. lia. }
  split.
  - intros ->. destruct Ho as [Ho ->]. split; [done|]. by apply Hk.
  - intros [Hb Hp]. apply Hk in Hp; [|done]. destruct o as [x|].
    + destruct Ho as [_ ->]. congruence.
    + exfalso. by apply (Ho b).
Qed.
End Lookup.

(** ** Liveness of allocation *)
Section Succeeds.
Context `{ops : RbOps} {laws : RbLaws ops} {jk : Junk}.
Implicit Types (a : balloc) (b c : Z).

(** Every memory-management call succeeds. *)
Record plentiful (e : page_env) (a : balloc) : Prop := {
  pl_mm : get_task_mm e = vma_vm_mm a /\ is_Some (vma_vm_mm a);
  pl_page : forall p, alloc_page e p = true;
  pl_map : forall p, map_kernel_range_noflush e p = 1;
  pl_insert : forall p, vm_insert_page e p = 0
}.

Lemma allocate_pages_succeeds e a0 start l a r a' : plentiful e a0 ->
  allocate_pages e start l a = Ok (r, a') -> r = 0.
Proof.
  intros [_ Hp Hm Hi]. revert a. induction l as [|p l IH]; intros a; cbn [allocate_pages].
  - by intros [= <- _].
  - rewrite Hp, Hm, Hi. cbn. intros H. unbind. eauto.
Qed.

Lemma update_allocate_succeeds e a s t r a' : plentiful e a -> is_Some (vma a) ->
  binder_update_page_range e a true s t None = Ok (r, a') -> r = 0.
Proof.
  intros He [vm Hv]. destruct (pl_mm e a He) as [Hm [m Hmm]].
  unfold binder_update_page_range. rewrite Hm, Hmm, Hv.
  destruct (t <=? s); [by intros [= <- _]|]. cbn. case_decide; [|done].
  by apply allocate_pages_succeeds with a.
Qed.

Lemma alloc_succeeds e a ds os (async : bool) c :
  inv a -> 0 <= ds < 2 ^ 64 -> 0 <= os < 2 ^ 64 -> plentiful e a -> is_Some (vma a) ->
  is_free a c -> align ds 8 + align os 8 <= binder_buffer_size a c ->
  async_cost async (align ds 8 + align os 8) <= free_async_space a ->
  exists b a', binder_alloc_buf e a ds os async = Ok (Some b, a').
Proof.
  intros Hi Hds Hos He Hv Hc Hfit Has.
  destruct (member_segment a c (inv_core a Hi) (proj1 Hc)) as (_ & _ & _ & _ & Hcs).
  assert (Hov : align ds 8 + align os 8 < 2 ^ 64) by lia.
  assert (Hchk : ~ (payload_size ds os < ds \/ payload_size ds os < os)).
  { rewrite size_check_exact by done. lia. }
  destruct (payload_size_sum ds os Hds Hos Hchk) as [_ Hsum]. rewrite <- Hsum in *.
  destruct (alloc_spec e a ds os async Hi Hds Hos) as (r & a' & E & _).
  destruct r as [b|]; [eauto|]. exfalso. revert E. unfold binder_alloc_buf.
  destruct (vma a) eqn:Hvm; [|by destruct Hv]. cbn zeta.
  destruct (_ || _) eqn:Eo; [apply orb_true_iff in Eo as [?%Z.ltb_lt|?%Z.ltb_lt]; lia|].
  pose proof (payload_size_range ds os).
  destruct (async && _) eqn:Ea.
  { destruct async; [|done]. cbn in *. apply Z.ltb_lt in Ea.
    unfold u64, sizeof_binder_buffer in *. rewrite Z.mod_small in Ea by lia. lia. }
  destruct (best_fit_walk a (payload_size ds os) Hi) as ([b|] & n & -> & Ho); cbn [mbind res_bind].
  2: { destruct Ho as [_ Ho]. specialize (Ho c Hc). lia. }
  destruct (binder_update_page_range _ _ _ _ _ _) as [[r a1]|] eqn:Eu; [|done]. cbn [mbind res_bind].
  apply update_allocate_succeeds in Eu as ->; [|done|eauto]. cbn [negb Z.eqb].
  by intros (? & _ & ?)%bind_Ok_inv.
Qed.
End Succeeds.

(** ** Payloads of live buffers *)
Section Payloads.
Implicit Types (a : balloc) (b c x : Z).

(** The bytes a live buffer's header says it holds. *)
Definition payload_byte a b x : Prop := data b <= x < data b + payload_in (heap a) b.

Lemma live_member a b : inv a -> is_Some (live a !! b) ->
  exists l1 l2, buffers a = l1 ++ b :: l2 /\ free_in (heap a) b = false /\
    payload_in (heap a) b <= next_of l2 (area_end a) - data b /\ next_of l2 (area_end a) <= area_end a /\
    buffer a <= b.
Proof.
  intros Hi Hb. apply live_allocated in Hb as [Hb Hf]; [|done].
  destruct (member_segment a b (inv_core a Hi) Hb) as (l1 & l2 & Hl & _ & _).
  exists l1, l2. split_and!; [done|done|..].
  - pose proof (inv_fit a Hi) as H. rewrite Hl in H. apply seg_all_lookup in H. by apply H.
  - pose proof (core_room a (inv_core a Hi)) as R. rewrite Hl in R. apply seg_all_app in R as [_ [_ R]].
    destruct l2 as [|c l2]; cbn in *; [lia|].
    destruct (room_below (c :: l2) _ c R) as [_ ?]; [left|]. lia.
  - by apply (core_bounds a b (inv_core a Hi)).
Qed.

Lemma async_charge_live a b v : live a !! b = Some v ->
  async_charge (heap a) b =
    if b_async_transaction v then payload_size (b_data_size v) (b_offsets_size v) + sizeof_binder_buffer else 0.
Proof. intros [Hv Hf]%live_lookup. unfold async_charge, payload_in. by rewrite Hv, Hf. Qed.

(** A live payload ends before every buffer that follows. *)
Lemma payload_below a b c x l1 l2 : inv a -> buffers a = l1 ++ b :: l2 -> is_Some (live a !! b) ->
  c ∈ l2 -> payload_byte a b x -> x < c.
Proof.
  intros Hi Hl Hb Hc [_ X]. apply live_allocated in Hb as [_ Hf]; [|done].
  pose proof (inv_fit a Hi) as H. rewrite Hl in H. apply seg_all_lookup in H. specialize (H Hf).
  pose proof (core_room a (inv_core a Hi)) as R. rewrite Hl in R. apply seg_all_app in R as (_ & _ & R).
  assert (next_of l2 (area_end a) <= c); [|lia].
  destruct l2 as [|d l2]; [by apply elem_of_nil in Hc|]. by destruct (room_below (d :: l2) _ c R).
Qed.

Lemma payload_disjoint a b c x : inv a -> is_Some (live a !! b) -> is_Some (live a !! c) ->
  payload_byte a b x -> payload_byte a c x -> b = c.
Proof.
  intros Hi Hb Hc HB HC. destruct (live_member a b Hi Hb) as (l1 & l2 & Hl & _).
  destruct (live_member a c Hi Hc) as (k1 & k2 & Hk & _).
  assert (Hcin : c ∈ l1 ++ b :: l2) by (rewrite <- Hl, Hk; set_solver).
  pose proof HB as [B _]. pose proof HC as [C _]. unfold data, sizeof_binder_buffer in *.
  apply elem_of_app in Hcin as [Hcin|[->|Hcin]%elem_of_cons]; [|done|].
  - apply list_elem_of_split in Hcin as (m1 & m2 & ->). rewrite <- app_assoc in Hl. cbn in Hl.
    pose proof (payload_below a c b x _ _ Hi Hl Hc ltac:(set_solver) HC). lia.
  - pose proof (payload_below a b c x _ _ Hi Hl Hb Hcin HB). lia.
Qed.

Lemma payload_mapped a b x : inv a -> is_Some (live a !! b) -> payload_byte a b x ->
  in_area a (page_down x) /\ page_at a (page_down x) = Ok true.
Proof.
  intros Hi Hb [X1 X2]. destruct (live_member a b Hi Hb) as (l1 & l2 & Hl & Hf & Hp & Hend & Hlo).
  pose proof (inv_core a Hi) as Hc. destruct (core_base a Hc) as (Hpb & _ & _ & _).
  pose proof (page_down_bounds x). pose proof (page_down_paged x) as Hpx.
  assert (Ha : in_area a (page_down x)).
  { split; [done|]. pose proof (proj2 (page_down_le (buffer a) x Hpb)).
    unfold data, sizeof_binder_buffer in *. lia. }
  split; [done|]. destruct (core_pages a Hc) as [_ Hpg].
  destruct (Hpg _ Ha) as (v & -> & Hv). f_equal. apply Hv. rewrite Hl. apply seg_ex_app. right. cbn.
  pose proof (next_header_covered (heap a) (page_down x) l2 (area_end a) (paged_area_end a Hc)
    ltac:(apply Ha)) as Hnext.
  rewrite covers_allocated by done. unfold header_page, data, sizeof_binder_buffer in *.
  set (n := next_of l2 (area_end a)) in *.
  pose proof (page_align_le (page_down x) (b + 80) Hpx). pose proof (page_down_bounds b).
  pose proof (page_down_bounds n). pose proof (page_down_le (page_down b) x (page_down_paged b)).
  pose proof (page_down_le (page_down x) n Hpx).
  destruct (decide (page_down x <= b + 79)); [left; left; lia|].
  destruct (decide (page_down x < page_down n)); [left; right; lia|].
  right. apply Hnext. lia.
Qed.
End Payloads.

(** ** Areas in use

    The drivers change the owner of a buffer in place: the flags, the transaction and
    the node of a header, never its extent.  Such a change keeps the invariant of the
    allocator.  [area_ok]: the area of a process is well formed, or there is none. *)

Implicit Types (a : balloc) (b c : Z) (v : binder_buffer) (h : gmap Z binder_buffer).

(** What an owner may not change. *)
Definition extent v : bool * bool * Z * Z := (b_free v, b_async_transaction v, b_data_size v, b_offsets_size v).

Section Extents.
Lemma extent_in h b v v' : h !! b = Some v -> extent v' = extent v ->
  (forall c, free_in (<[b := v']> h) c = free_in h c) /\ (forall c, payload_in (<[b := v']> h) c = payload_in h c) /\
  (forall c, async_charge (<[b := v']> h) c = async_charge h c).
Proof.
  intros Hv He. injection He as E1 E2 E3 E4.
  assert (F : forall c, free_in (<[b := v']> h) c = free_in h c).
  { intros c. unfold free_in. destruct (decide (c = b)) as [->|]; [by rewrite lookup_insert_eq, Hv|by rewrite lookup_insert_ne]. }
  assert (P : forall c, payload_in (<[b := v']> h) c = payload_in h c).
  { intros c. unfold payload_in. destruct (decide (c = b)) as [->|]; [|by rewrite lookup_insert_ne].
    by rewrite lookup_insert_eq, Hv, E3, E4. }
  split_and!; [done..|]. intros c. unfold async_charge. rewrite P.
  destruct (decide (c = b)) as [->|]; [|by rewrite lookup_insert_ne]. by rewrite lookup_insert_eq, Hv, E1, E2.
Qed.

Lemma inv_extent a b v v' : inv a -> heap a !! b = Some v -> extent v' = extent v -> inv (set_heap a (<[b := v']> (heap a))).
Proof.
  intros [[C1 C2 C3 C4 [C5 C6]] I1 I2 I3 I4 [I5 I6]] Hv He. destruct (extent_in _ _ _ _ Hv He) as (F & P & A).
  assert (D : forall c, is_Some (<[b := v']> (heap a) !! c) <-> is_Some (heap a !! c)).
  { intros c. rewrite lookup_insert_is_Some'. split; [|by right]. intros [<-|]; [by eexists|done]. }
  revert F P A D. generalize (<[b := v']> (heap a)) as h'. intros h' F P A D.
  split; unfold area_end in *; cbn -[area_end].
  - split; try done.
    + intros c. by rewrite D.
    + split; [done|]. intros p Hp. destruct (C6 p Hp) as (w & Hw & Hs). exists w. split; [exact Hw|]. rewrite Hs.
      apply seg_ex_ext. intros c n _. unfold covers. cbn. by rewrite F.
  - eapply seg_all_mono; [|exact I1]. intros c n _. unfold not_both_free. by rewrite !F.
  - eapply seg_all_mono; [|exact I2]. intros c n _. unfold fits. by rewrite F, P.
  - eapply tree_of_ext; [exact I3| |done]. intros c. unfold is_free. cbn. by rewrite F.
  - eapply tree_of_ext; [exact I4| |done]. intros c. unfold is_allocated. cbn. by rewrite F.
  - split; [done|]. rewrite <- I6. f_equal. apply seg_sum_ext. intros c _. apply A.
Qed.
End Extents.

(** No area is mapped. *)
Definition no_area a : Prop := vma a = None /\ pages a = [] /\ heap a = ∅ /\ buffer a = 0 /\ free_async_space a = 0.
Definition area_ok a : Prop := inv a \/ no_area a.

Section AreaOk.
Context `{ops : RbOps} {laws : RbLaws ops} {jk : Junk}.

Lemma no_area_page a p : no_area a -> page_at a p = Fault OOPS.
Proof.
  intros (_ & H & _). unfold page_at, page_slot. rewrite H. change (Z.of_nat (length [])) with 0.
  destruct (Z.leb_spec 0 ((p - buffer a) / PAGE_SIZE)), (Z.ltb_spec ((p - buffer a) / PAGE_SIZE) 0); first [done|lia].
Qed.
Lemma no_area_header a b : no_area a -> header_mapped a b = Fault OOPS.
Proof. intros H. unfold header_mapped. by rewrite !no_area_page. Qed.

(** A header that can be read and is put back with the same extent. *)
Lemma area_put a b v v' a' : area_ok a -> get_buffer a b = Ok v -> extent v' = extent v -> put_buffer a b v' = Ok a' -> area_ok a'.
Proof.
  intros [Hi|Hn] Hg He Hp.
  - left. unfold get_buffer in Hg. unfold put_buffer in Hp. destruct (header_mapped a b) as [[]|]; try done. cbn in *.
    injection Hp as <-. eapply inv_extent; [done| |exact He]. by destruct (heap a !! b); [injection Hg as ->|].
  - unfold get_buffer in Hg. by rewrite no_area_header in Hg.
Qed.
Lemma area_alloc e a ds os async o a' : area_ok a -> 0 <= ds < 2 ^ 64 -> 0 <= os < 2 ^ 64 ->
  binder_alloc_buf e a ds os async = Ok (o, a') -> area_ok a'.
Proof.
  intros [Hi|Hn] Hds Hos E.
  - destruct (alloc_spec e a ds os async Hi Hds Hos) as (r & a1 & E1 & Hi1 & _). rewrite E1 in E. injection E as _ <-. by left.
  - unfold binder_alloc_buf in E. destruct Hn as (Hv & Hn). rewrite Hv in E. injection E as _ <-. by right.
Qed.
(** What [binder_free_buf] tests before it frees. *)
Lemma free_buf_live e a b a' : binder_free_buf e a b = Ok a' ->
  exists v, heap a !! b = Some v /\ b_free v = false /\ b_transaction v = None.
Proof.
  unfold binder_free_buf. destruct (get_buffer a b) as [v|] eqn:Eg; [|done]. cbn [mbind res_bind].
  unfold get_buffer in Eg. destruct (header_mapped a b) as [[]|]; try done. cbn in Eg.
  destruct (heap a !! b) as [w|]; [injection Eg as ->|done]. intros E. exists v.
  destruct (b_free v); [done|]. cbn [bug_on mbind res_bind] in E. destruct (_ <? payload_size _ _); [done|]. cbn [bug_on mbind res_bind] in E.
  by case_bool_decide; [|destruct (b_transaction v)].
Qed.
Lemma area_free e a b a' : area_ok a -> binder_free_buf e a b = Ok a' -> area_ok a' /\
  (inv a -> exists v, live a !! b = Some v /\ released_from a a' b).
Proof.
  intros Ha E. destruct (free_buf_live e a b a' E) as (v & Hv & Hf & Ht). destruct Ha as [Hi|Hn].
  - assert (Hl : live a !! b = Some v) by (apply map_lookup_filter_Some; done).
    destruct (free_spec e a b v Hi Hl Ht) as (a1 & E1 & Hi1 & _ & Hr). rewrite E1 in E. injection E as <-. split; [by left|]. eauto.
  - unfold binder_free_buf, get_buffer in E. by rewrite no_area_header in E.
Qed.
(** The numbers of an area. *)
Lemma area_numbers a : area_ok a -> 0 <= buffer a < 2 ^ 64 /\ 0 <= free_async_space a < 2 ^ 64.
Proof.
  intros [[[(_ & _ & Hb & He) _ Hr _ _] _ _ _ _ [Ha Hs]]|(_ & _ & _ & -> & ->)]; [|lia].
  assert (forall l, 0 <= seg_sum (async_charge (heap a)) l) as Hn.
  { induction l as [|b l IH]; cbn [seg_sum]; [lia|]. assert (0 <= async_charge (heap a) b); [|lia].
    unfold async_charge, payload_in, sizeof_binder_buffer. destruct (heap a !! b) as [v|]; [|done]. destruct (_ && _); [|done].
    pose proof (payload_size_range (b_data_size v) (b_offsets_size v)). lia. }
  specialize (Hn (buffers a)). unfold area_end in He. assert (0 <= buffer_size a) as Hz.
  { destruct (Z.lt_ge_cases (buffer_size a) 0) as [Hlt|]; [|done]. pose proof (Z.div_lt_upper_bound (buffer_size a) 2 0). lia. }
  split; [lia|]. pose proof (Z.div_le_upper_bound (buffer_size a) 2 (buffer_size a)). lia.
Qed.
Lemma area_unmap a : area_ok a -> area_ok (Alloc.set_vma a None None).
Proof. intros [[[] ? ? ? ? ?]|(? & ? & ? & ? & ?)]; [left; split; [split|..]; done|right; done]. Qed.
Lemma area_mmap e base size offset vm mm a : good_area base size -> mmap_buffers e base size offset vm mm = Ok (Some a) -> area_ok a.
Proof.
  intros Hg E. destruct (mmap_spec e base size offset vm mm Hg) as (r & E1 & Hr). rewrite E1 in E. injection E as ->. left. apply Hr.
Qed.
End AreaOk.
