(* ===== verification/AllocProps.v ===== *)
(** * Properties of the buffer allocator

    The theorems about [Alloc] as a whole, each with a witness that evaluates
    the definitions on a 16 KiB area.  A state is well formed when [inv] holds;
    [live] is the abstract view: the allocated buffers by address. *)
From S2P Require Import Prelude RbTree Alloc AllocInv AllocSpec AllocFree AllocMap.

(** ** A concrete area for the witnesses *)
Section Demo.
Definition demo_junk : Junk := fun _ => MkBuffer false false false 0 None None 0 0.

(** Memory management that always succeeds, and one that runs out of pages. *)
Definition demo_env : page_env := Build_page_env (Some 7) (fun _ => true) (fun _ => 1) (fun _ => 0).
Definition demo_starved : page_env := Build_page_env (Some 7) (fun p => p <? 73728) (fun _ => 1) (fun _ => 0).

Definition the {A} (d : A) (m : res A) : A := match m with Ok x => x | Fault _ => d end.

Definition demo_bare : balloc := bare 65536 16384 1000.

Definition demo_area : balloc :=
  match mmap_buffers (H := plain_ops) (H0 := demo_junk) demo_env 65536 16384 1000 1 7 with
  | Ok (Some a) => a
  | _ => demo_bare
  end.

(** The area after one allocation of 5000 + 8 bytes. *)
Definition demo_used : balloc :=
  snd (the (None, demo_area)
    (binder_alloc_buf (H := plain_ops) (H0 := demo_junk) demo_env demo_area 5000 8 true)).

Lemma demo_area_inv : inv demo_area.
Proof.
  destruct (mmap_spec (ops := plain_ops) (laws := plain_laws) (jk := demo_junk) demo_env 65536 16384 1000 1 7)
    as (r & E & H); [done|].
  unfold demo_area. rewrite E. destruct r as [a|]; [apply H|].
  exfalso. revert E. vm_compute. discriminate.
Qed.

Lemma demo_used_inv : inv demo_used.
Proof.
  destruct (alloc_spec (ops := plain_ops) (laws := plain_laws) (jk := demo_junk)
    demo_env demo_area 5000 8 true demo_area_inv) as (r & a' & E & Hi & _); [lia..|].
  unfold demo_used. rewrite E. exact Hi.
Qed.
End Demo.

Section Properties.
Context `{ops : RbOps} {laws : RbLaws ops} {jk : Junk}.
Implicit Types (a : balloc) (b c x : Z) (e : page_env).

(** C12: [binder_alloc_buf] on a well-formed area never faults, whatever the
    memory management answers, and leaves a well-formed area.  When it returns
    a buffer, that buffer was a smallest free buffer large enough, is now live
    with exactly the requested sizes, its aligned sizes did not overflow and
    fit, no other live buffer changed its extent, and an asynchronous request
    was charged; when it returns NULL nothing changed. *)
Theorem binder_alloc_buf_correct e a ds os async :
  inv a -> 0 <= ds < 2 ^ 64 -> 0 <= os < 2 ^ 64 ->
  exists r a', binder_alloc_buf e a ds os async = Ok (r, a') /\ inv a' /\ same_area a a' /\
    match r with
    | Some b => allocated_from a a' b ds os async
    | None => a' = a
    end.
Proof. apply alloc_spec. Qed.

(** C14: [binder_alloc_buf] returns a buffer whenever some free buffer is large
    enough, the area is mapped, the asynchronous budget allows the request and
    the memory management succeeds: the tree walk never misses one. *)
Theorem binder_alloc_buf_complete e a ds os (async : bool) c :
  inv a -> 0 <= ds < 2 ^ 64 -> 0 <= os < 2 ^ 64 -> plentiful e a -> is_Some (vma a) ->
  is_free a c -> align ds 8 + align os 8 <= binder_buffer_size a c ->
  async_cost async (align ds 8 + align os 8) <= free_async_space a ->
  exists b a', binder_alloc_buf e a ds os async = Ok (Some b, a').
Proof. apply alloc_succeeds. Qed.

(** C13: [binder_free_buf] of a live buffer without a transaction hits none of
    its [BUG_ON]s, leaves a well-formed area from which exactly that buffer has
    gone, coalesced with its free neighbours, keeps the extent of all others
    and gives back the asynchronous space the buffer was charged. *)
Theorem binder_free_buf_correct e a b v :
  inv a -> live a !! b = Some v -> b_transaction v = None ->
  exists a', binder_free_buf e a b = Ok a' /\ inv a' /\ same_area a a' /\ released_from a a' b.
Proof. apply free_spec. Qed.

(** Freeing what was just allocated restores the live buffers and the
    asynchronous space (the free list may be coalesced differently). *)
Theorem alloc_free_roundtrip e1 e2 a ds os async b a1 v :
  inv a -> 0 <= ds < 2 ^ 64 -> 0 <= os < 2 ^ 64 ->
  binder_alloc_buf e1 a ds os async = Ok (Some b, a1) ->
  live a1 !! b = Some v -> b_transaction v = None ->
  exists a2, binder_free_buf e2 a1 b = Ok a2 /\ inv a2 /\
    live a2 = live a /\ free_async_space a2 = free_async_space a.
Proof.
  intros Hi Hds Hos E Hv Ht.
  destruct (alloc_spec e1 a ds os async Hi Hds Hos) as (r & a' & E' & Hi' & _ & Hr).
  rewrite E' in E. injection E as -> ->.
  destruct (free_spec e2 a1 b v Hi' Hv Ht) as (a2 & E2 & Hi2 & _ & Hf).
  exists a2. split_and!; [done|done|..].
  - rewrite (rf_live _ _ _ Hf). destruct (af_live _ _ _ _ _ _ Hr) as (w & _ & _ & _ & ->).
    rewrite delete_insert_eq. apply delete_id.
    apply live_None, (af_was_free _ _ _ _ _ _ Hr).
  - rewrite (rf_async _ _ _ Hf), (af_async _ _ _ _ _ _ Hr).
    rewrite (async_charge_live a1 b v Hv).
    destruct (af_live _ _ _ _ _ _ Hr) as (w & W1 & W2 & W3 & W4).
    rewrite W4, lookup_insert_eq in Hv. injection Hv as <-. rewrite W1, W2, W3.
    unfold async_cost. destruct async; [|lia].
    destruct (payload_size_sum ds os Hds Hos) as [_ ->]; [|lia].
    rewrite size_check_exact by done. pose proof (af_no_overflow _ _ _ _ _ _ Hr). lia.
Qed.

(** [binder_buffer_lookup] finds exactly the live buffers: it returns a
    buffer if and only if that buffer is live and its data is mapped to the
    user at the address asked for, and it never faults. *)
Theorem binder_buffer_lookup_correct a user_ptr : inv a ->
  exists o, binder_buffer_lookup a user_ptr = Ok o /\
    forall b, o = Some b <-> is_Some (live a !! b) /\
      u64 (data b + user_buffer_offset a) = u64 user_ptr.
Proof. apply lookup_spec. Qed.

(** [mmap_buffers] never faults; if the first page can be mapped the area
    is well formed, has no live buffer and half of it is asynchronous space. *)
Theorem mmap_buffers_establishes e base size offset vm mm : good_area base size ->
  exists r, mmap_buffers e base size offset vm mm = Ok r /\
    match r with
    | None => True
    | Some a => inv a /\ live a = ∅ /\ buffers a = [base] /\ vma a = Some vm /\ vma_vm_mm a = Some mm /\
        buffer a = base /\ buffer_size a = size /\ user_buffer_offset a = offset
    end.
Proof. apply mmap_spec. Qed.
End Properties.

Section Pages.
Implicit Types (a : balloc) (b c x : Z) (e : page_env).

(** Every byte a live buffer holds lies in the area on a mapped page, and
    in no other live buffer: copies into one buffer neither fault nor overwrite
    another. *)
Theorem live_payload_safe a b x :
  inv a -> is_Some (live a !! b) -> payload_byte a b x ->
  page_at a (page_down x) = Ok true /\ buffer a <= x < area_end a /\
  forall c, is_Some (live a !! c) -> payload_byte a c x -> c = b.
Proof.
  intros Hi Hb Hx. destruct (payload_mapped a b x Hi Hb Hx) as [Ha Hp].
  split; [done|]. split.
  - destruct (live_member a b Hi Hb) as (l1 & l2 & _ & _ & H1 & H2 & H3).
    destruct Hx. unfold data, sizeof_binder_buffer in *. lia.
  - intros c Hc Hxc. by apply (payload_disjoint a c b x).
Qed.

(** [binder_update_page_range] is all or nothing: asked to map a range of
    unmapped pages it maps all of them and returns 0, or returns [-ENOMEM] and
    the pages are as before, wherever in the range the failure was. *)
Theorem binder_update_page_range_atomic e a s t v :
  pages_ok a -> paged s -> paged t ->
  (forall q, paged q -> s <= q < t -> in_area a q /\ page_at a q = Ok false) ->
  exists r a', binder_update_page_range e a true s t v = Ok (r, a') /\
    ((r = 0 /\ range_set a a' s t true) \/ (r = - ENOMEM /\ a' = a)).
Proof. apply update_allocate_spec. Qed.

(** The two comparisons of [binder_alloc_buf] detect every wrap-around of
    the aligned sizes and their sum, and nothing else. *)
Theorem size_check_detects_overflow ds os : 0 <= ds < 2 ^ 64 -> 0 <= os < 2 ^ 64 ->
  payload_size ds os < ds \/ payload_size ds os < os <-> 2 ^ 64 <= align ds 8 + align os 8.
Proof. apply size_check_exact. Qed.
End Pages.

(** ** Witnesses *)
Section Witnesses.
Abbreviation alloc := (binder_alloc_buf (H := plain_ops) (H0 := demo_junk)).
Abbreviation free := (binder_free_buf (H := plain_ops)).

(** The buffer at 65536 of [demo_used]. *)
Definition demo_live : binder_buffer := taken (demo_junk 0) 5000 8 true.

Lemma binder_alloc_buf_correct_witness :
  exists r a', alloc demo_env demo_area 5000 8 true = Ok (r, a') /\ inv a' /\ same_area demo_area a' /\
    match r with
    | Some b => allocated_from demo_area a' b 5000 8 true
    | None => a' = demo_area
    end.
Proof. apply (binder_alloc_buf_correct (laws := plain_laws)); [apply demo_area_inv|lia|lia]. Defined.

Lemma binder_alloc_buf_complete_witness :
  exists b a', alloc demo_env demo_area 5000 8 true = Ok (Some b, a').
Proof.
  apply (binder_alloc_buf_complete (laws := plain_laws)) with (c := 65536).
  - apply demo_area_inv.
  - lia.
  - lia.
  - split; done.
  - exists 1. reflexivity.
  - split; [left|reflexivity].
  - vm_compute. discriminate.
  - vm_compute. discriminate.
Defined.

Lemma binder_free_buf_correct_witness :
  exists a', free demo_env demo_used 65536 = Ok a' /\ inv a' /\ same_area demo_used a' /\
    released_from demo_used a' 65536.
Proof.
  apply (binder_free_buf_correct (laws := plain_laws)) with (v := demo_live);
    [apply demo_used_inv|vm_compute; reflexivity|reflexivity].
Defined.

Lemma alloc_free_roundtrip_witness :
  exists a2, free demo_starved demo_used 65536 = Ok a2 /\ inv a2 /\
    live a2 = live demo_area /\ free_async_space a2 = free_async_space demo_area.
Proof.
  apply (alloc_free_roundtrip (laws := plain_laws) (jk := demo_junk) demo_env demo_starved demo_area 5000 8 true 65536 demo_used demo_live);
    [apply demo_area_inv|lia|lia|vm_compute; reflexivity..].
Defined.

Lemma binder_buffer_lookup_correct_witness :
  exists o, binder_buffer_lookup demo_used 66616 = Ok o /\
    forall b, o = Some b <-> is_Some (live demo_used !! b) /\
    u64 (data b + user_buffer_offset demo_used) = u64 66616.
Proof. apply binder_buffer_lookup_correct, demo_used_inv. Defined.

Lemma mmap_buffers_establishes_witness :
  exists r, mmap_buffers (H := plain_ops) (H0 := demo_junk) demo_starved 65536 16384 1000 1 7 = Ok r /\
    match r with
    | None => True
    | Some a => inv a /\ live a = ∅ /\ buffers a = [65536] /\ vma a = Some 1 /\ vma_vm_mm a = Some 7 /\
    buffer a = 65536 /\ buffer_size a = 16384 /\ user_buffer_offset a = 1000
    end.
Proof. apply (mmap_buffers_establishes (jk := demo_junk) (laws := plain_laws)). done. Defined.

Lemma live_payload_safe_witness :
  page_at demo_used (page_down 70000) = Ok true /\ buffer demo_used <= 70000 < area_end demo_used /\
    forall c, is_Some (live demo_used !! c) -> payload_byte demo_used c 70000 -> c = 65536.
Proof.
  apply live_payload_safe; [apply demo_used_inv|exists demo_live; vm_compute; reflexivity|].
  vm_compute. split; [discriminate|reflexivity].
Defined.

Lemma binder_update_page_range_atomic_witness :
  exists r a', binder_update_page_range demo_starved demo_bare true 65536 77824 (Some 1) = Ok (r, a') /\
    ((r = 0 /\ range_set demo_bare a' 65536 77824 true) \/ (r = - ENOMEM /\ a' = demo_bare)).
Proof.
  apply binder_update_page_range_atomic; [by apply bare_pages|done|done|].
  intros q Hq Hr. assert (in_area demo_bare q) by (split; cbn; [done|unfold area_end; cbn; lia]).
  split; [done|]. by apply bare_unmapped.
Defined.

Lemma size_check_detects_overflow_witness :
  payload_size (2 ^ 64 - 1) 16 < 2 ^ 64 - 1 \/ payload_size (2 ^ 64 - 1) 16 < 16 <->
    2 ^ 64 <= align (2 ^ 64 - 1) 8 + align 16 8.
Proof. apply size_check_detects_overflow; lia. Defined.
End Witnesses.
