(* ===== verification/Protocol.v ===== *)
(** * The binder protocol (driver/binder/binder.h)

    Command and return codes, the structures user programs and the driver
    exchange, and their layout in memory on LP64 (little-endian). *)
From S2P Require Import Prelude UserMem.

(** ** Codes *)
Definition ioc (dir type nr size : Z) : Z := dir * 2 ^ 30 + size * 2 ^ 16 + type * 2 ^ 8 + nr.
Definition io (type nr : Z) : Z := ioc 0 type nr 0.
Definition iow (type nr size : Z) : Z := ioc 1 type nr size.
Definition ior (type nr size : Z) : Z := ioc 2 type nr size.
Definition iowr (type nr size : Z) : Z := ioc 3 type nr size.

Definition B_PACK_CHARS (c1 c2 c3 c4 : Z) : Z :=
  Z.lor (Z.lor (Z.lor (Z.shiftl c1 24) (Z.shiftl c2 16)) (Z.shiftl c3 8)) c4.
Definition B_TYPE_LARGE : Z := 133.

Definition BINDER_TYPE_BINDER : Z := B_PACK_CHARS 115 98 42 B_TYPE_LARGE.
Definition BINDER_TYPE_WEAK_BINDER : Z := B_PACK_CHARS 119 98 42 B_TYPE_LARGE.
Definition BINDER_TYPE_HANDLE : Z := B_PACK_CHARS 115 104 42 B_TYPE_LARGE.
Definition BINDER_TYPE_WEAK_HANDLE : Z := B_PACK_CHARS 119 104 42 B_TYPE_LARGE.
Definition BINDER_TYPE_FD : Z := B_PACK_CHARS 102 100 42 B_TYPE_LARGE.

Definition FLAT_BINDER_FLAG_PRIORITY_MASK : Z := 255.
Definition FLAT_BINDER_FLAG_ACCEPTS_FDS : Z := 256.

Definition TF_ONE_WAY : Z := 1.
Definition TF_ROOT_OBJECT : Z := 4.
Definition TF_STATUS_CODE : Z := 8.
Definition TF_ACCEPT_FDS : Z := 16.

(** Sizes of the structures. *)
Definition sizeof_flat_binder_object : nat := 24.
Definition sizeof_binder_write_read : nat := 48.
Definition sizeof_binder_transaction_data : nat := 64.
Definition sizeof_binder_ptr_cookie : nat := 16.
Definition sizeof_binder_handle_cookie : nat := 12.

Definition BINDER_CURRENT_PROTOCOL_VERSION : Z := 8.
Definition BINDER_WRITE_READ : Z := iowr 98 1 48.
Definition BINDER_SET_IDLE_TIMEOUT : Z := iow 98 3 8.
Definition BINDER_SET_MAX_THREADS : Z := iow 98 5 4.
Definition BINDER_SET_IDLE_PRIORITY : Z := iow 98 6 4.
Definition BINDER_SET_CONTEXT_MGR : Z := iow 98 7 4.
Definition BINDER_THREAD_EXIT : Z := iow 98 8 4.
Definition BINDER_VERSION : Z := iowr 98 9 4.

(** [enum binder_driver_return_protocol] *)
Definition BR_ERROR : Z := ior 114 0 4.
Definition BR_OK : Z := io 114 1.
Definition BR_TRANSACTION : Z := ior 114 2 64.
Definition BR_REPLY : Z := ior 114 3 64.
Definition BR_ACQUIRE_RESULT : Z := ior 114 4 4.
Definition BR_DEAD_REPLY : Z := io 114 5.
Definition BR_TRANSACTION_COMPLETE : Z := io 114 6.
Definition BR_INCREFS : Z := ior 114 7 16.
Definition BR_ACQUIRE : Z := ior 114 8 16.
Definition BR_RELEASE : Z := ior 114 9 16.
Definition BR_DECREFS : Z := ior 114 10 16.
Definition BR_ATTEMPT_ACQUIRE : Z := ior 114 11 24.
Definition BR_NOOP : Z := io 114 12.
Definition BR_SPAWN_LOOPER : Z := io 114 13.
Definition BR_FINISHED : Z := io 114 14.
Definition BR_DEAD_BINDER : Z := ior 114 15 8.
Definition BR_CLEAR_DEATH_NOTIFICATION_DONE : Z := ior 114 16 8.
Definition BR_FAILED_REPLY : Z := io 114 17.

(** [enum binder_driver_command_protocol] *)
Definition BC_TRANSACTION : Z := iow 99 0 64.
Definition BC_REPLY : Z := iow 99 1 64.
Definition BC_ACQUIRE_RESULT : Z := iow 99 2 4.
Definition BC_FREE_BUFFER : Z := iow 99 3 8.
Definition BC_INCREFS : Z := iow 99 4 4.
Definition BC_ACQUIRE : Z := iow 99 5 4.
Definition BC_RELEASE : Z := iow 99 6 4.
Definition BC_DECREFS : Z := iow 99 7 4.
Definition BC_INCREFS_DONE : Z := iow 99 8 16.
Definition BC_ACQUIRE_DONE : Z := iow 99 9 16.
Definition BC_ATTEMPT_ACQUIRE : Z := iow 99 10 8.
Definition BC_REGISTER_LOOPER : Z := io 99 11.
Definition BC_ENTER_LOOPER : Z := io 99 12.
Definition BC_EXIT_LOOPER : Z := io 99 13.
Definition BC_REQUEST_DEATH_NOTIFICATION : Z := iow 99 14 12.
Definition BC_CLEAR_DEATH_NOTIFICATION : Z := iow 99 15 12.
Definition BC_DEAD_BINDER_DONE : Z := iow 99 16 8.

(** ** Structures *)

(** [struct flat_binder_object]; [fo_binder] is the 8-byte union, whose low
    four bytes are [handle]. *)
Record flat_binder_object := MkObj {
  fo_type : Z;
  fo_flags : Z;
  fo_binder : Z;
  fo_cookie : Z
}.
Definition fo_handle (o : flat_binder_object) : Z := fo_binder o mod 2 ^ 32.

Definition obj_widths : list nat := [4; 4; 8; 8]%nat.
Definition obj_bytes (o : flat_binder_object) : list Z :=
  bytes_of obj_widths [fo_type o; fo_flags o; fo_binder o; fo_cookie o].
Definition obj_of_bytes (l : list Z) : flat_binder_object :=
  match words_of obj_widths l with
  | [ty; fl; bi; co] => MkObj ty fl bi co
  | _ => MkObj 0 0 0 0
  end.

(** [struct binder_transaction_data]; [td_target] is the 8-byte union of
    [handle] and [ptr]. *)
Record binder_transaction_data := MkTxn {
  td_target : Z;
  td_cookie : Z;
  td_code : Z;
  td_flags : Z;
  td_sender_pid : Z;
  td_sender_euid : Z;
  td_data_size : Z;
  td_offsets_size : Z;
  td_buffer : Z;
  td_offsets : Z
}.
Definition td_handle (t : binder_transaction_data) : Z := td_target t mod 2 ^ 32.

Definition txn_widths : list nat := [8; 8; 4; 4; 4; 4; 8; 8; 8; 8]%nat.
Definition txn_fields (t : binder_transaction_data) : list Z :=
  [td_target t; td_cookie t; td_code t; td_flags t; td_sender_pid t; td_sender_euid t;
   td_data_size t; td_offsets_size t; td_buffer t; td_offsets t].
Definition txn_bytes (t : binder_transaction_data) : list Z := bytes_of txn_widths (txn_fields t).
Definition txn_of_bytes (l : list Z) : binder_transaction_data :=
  match words_of txn_widths l with
  | [ta; ck; cd; fl; pi; eu; ds; os; bu; ofs] => MkTxn ta ck cd fl pi eu ds os bu ofs
  | _ => MkTxn 0 0 0 0 0 0 0 0 0 0
  end.

(** [struct binder_write_read] *)
Record binder_write_read := MkBwr {
  write_size : Z;
  write_consumed : Z;
  write_buffer : Z;
  read_size : Z;
  read_consumed : Z;
  read_buffer : Z
}.
Definition bwr_widths : list nat := [8; 8; 8; 8; 8; 8]%nat.
Definition bwr_bytes (b : binder_write_read) : list Z :=
  bytes_of bwr_widths [write_size b; write_consumed b; write_buffer b; read_size b; read_consumed b; read_buffer b].
Definition bwr_of_bytes (l : list Z) : binder_write_read :=
  match words_of bwr_widths l with
  | [ws; wc; wb; rs; rc; rb] => MkBwr ws wc wb rs rc rb
  | _ => MkBwr 0 0 0 0 0 0
  end.

(** ** Layouts round-trip *)
Section Layouts.
Lemma obj_roundtrip o l : Forall2 word obj_widths [fo_type o; fo_flags o; fo_binder o; fo_cookie o] ->
  obj_of_bytes (obj_bytes o ++ l) = o.
Proof. intros H. unfold obj_of_bytes, obj_bytes. rewrite words_of_bytes_of by done. by destruct o. Qed.

Lemma txn_roundtrip t l : Forall2 word txn_widths (txn_fields t) -> txn_of_bytes (txn_bytes t ++ l) = t.
Proof. intros H. unfold txn_of_bytes, txn_bytes. rewrite words_of_bytes_of by done. by destruct t. Qed.

Lemma bwr_roundtrip b l :
  Forall2 word bwr_widths [write_size b; write_consumed b; write_buffer b; read_size b; read_consumed b; read_buffer b] ->
  bwr_of_bytes (bwr_bytes b ++ l) = b.
Proof. intros H. unfold bwr_of_bytes, bwr_bytes. rewrite words_of_bytes_of by done. by destruct b. Qed.

(** What is read from user memory fits the fields. *)
Lemma txn_range l : Forall is_byte l -> length l = sizeof_binder_transaction_data -> Forall2 word txn_widths (txn_fields (txn_of_bytes l)).
Proof.
  intros Hl Hn. pose proof (words_of_range txn_widths l Hl) as H. unfold txn_of_bytes.
  destruct (words_of txn_widths l) as [|? [|? [|? [|? [|? [|? [|? [|? [|? [|? [|]]]]]]]]]]] eqn:E; done.
Qed.
Lemma txn_sizes l : Forall is_byte l -> length l = sizeof_binder_transaction_data ->
  0 <= td_data_size (txn_of_bytes l) < 2 ^ 64 /\ 0 <= td_offsets_size (txn_of_bytes l) < 2 ^ 64.
Proof.
  intros Hl Hn. pose proof (txn_range l Hl Hn) as H. unfold txn_widths, txn_fields in H.
  repeat match goal with H : Forall2 _ (_ :: _) _ |- _ => apply Forall2_cons_1 in H as [? H] end. done.
Qed.

Lemma sizes_of_layouts :
  sum_list obj_widths = sizeof_flat_binder_object /\ sum_list txn_widths = sizeof_binder_transaction_data /\
  sum_list bwr_widths = sizeof_binder_write_read.
Proof. done. Qed.
End Layouts.
