(* ===== verification/Bio.v ===== *)
(** * The service manager's binder library (servicemanager/binder.c)

    User-space code: its memory is a map from addresses to bytes, and touching an
    unmapped address is a fault.  What the process writes to the driver is the
    trace [sent]; what the driver answers is read from a script. *)
From S2P Require Import Prelude UserMem Protocol.

Abbreviation memory := (gmap Z Z).

Definition load (m : memory) (p : Z) (n : nat) : res (list Z) := deref (flat_read m p n).
Definition store (m : memory) (p : Z) (l : list Z) : res memory :=
  let '(ok, m') := flat_write m p l in if (ok : bool) then Ok m' else Fault OOPS.
Definition load_word (m : memory) (p : Z) (n : nat) : res Z := l ← load m p n; Ok (le_val l).
Definition store_word (m : memory) (p : Z) (n : nat) (x : Z) : res memory := store m p (le_bytes n x).

(** ** [struct binder_io] *)
Definition BIO_F_SHARED : Z := 1.
Definition BIO_F_OVERFLOW : Z := 2.
Definition BIO_F_IOERROR : Z := 4.
Definition MAX_BIO_SIZE : Z := 2 ^ 30.

Record binder_io := MkBio {
  bio_data : Z;
  bio_offs : Z;
  data_avail : Z;
  offs_avail : Z;
  data0 : Z;
  offs0 : Z;
  bio_flags : Z
}.

Definition bio_zero : binder_io := MkBio 0 0 0 0 0 0 0.
Definition bio_or_flags (f : Z) (b : binder_io) : binder_io :=
  MkBio (bio_data b) (bio_offs b) (data_avail b) (offs_avail b) (data0 b) (offs0 b) (Z.lor (bio_flags b) f).
Definition bio_set_data (p n : Z) (b : binder_io) : binder_io :=
  MkBio p (bio_offs b) n (offs_avail b) (data0 b) (offs0 b) (bio_flags b).
Definition bio_set_offs (p n : Z) (b : binder_io) : binder_io :=
  MkBio (bio_data b) p (data_avail b) n (data0 b) (offs0 b) (bio_flags b).

Definition bio_init_from_txn (txn : binder_transaction_data) : binder_io :=
  MkBio (td_buffer txn) (td_offsets txn) (td_data_size txn) (td_offsets_size txn / 8)
    (td_buffer txn) (td_offsets txn) BIO_F_SHARED.

(** Without room for the offsets the pointers keep the values they had. *)
Definition bio_init (bio : binder_io) (data maxdata maxoffs : Z) : binder_io :=
  let n := u64 (maxoffs * 8) in
  if maxdata <? n then
    MkBio (bio_data bio) (bio_offs bio) 0 0 (data0 bio) (offs0 bio) BIO_F_OVERFLOW
  else MkBio (data + n) data (maxdata - n) maxoffs (data + n) data 0.

(** [(size + 3) & ~3] on [size_t] *)
Definition align_word (size : Z) : Z := Z.land (u64 (size + 3)) (Z.lnot 3).

Definition bio_alloc (bio : binder_io) (size : Z) : option Z * binder_io :=
  let size := align_word size in
  if data_avail bio <? size then (None, bio_or_flags BIO_F_OVERFLOW bio)
  else (Some (bio_data bio), bio_set_data (bio_data bio + size) (data_avail bio - size) bio).

Definition bio_get (bio : binder_io) (size : Z) : option Z * binder_io :=
  let size := align_word size in
  if data_avail bio <? size then (None, bio_or_flags BIO_F_OVERFLOW (bio_set_data (bio_data bio) 0 bio))
  else (Some (bio_data bio), bio_set_data (bio_data bio + size) (data_avail bio - size) bio).

Definition bio_alloc_obj (m : memory) (bio : binder_io) : res (option Z * memory * binder_io) :=
  let '(obj, bio) := bio_alloc bio 24 in
  match obj with
  | Some p =>
      if offs_avail bio =? 0 then Ok (None, m, bio_or_flags BIO_F_OVERFLOW bio)
      else
        m ← store_word m (bio_offs bio) 8 (u64 (p - data0 bio));
        Ok (Some p, m, bio_set_offs (bio_offs bio + 8) (offs_avail bio - 1) bio)
  | None => Ok (None, m, bio_or_flags BIO_F_OVERFLOW bio)
  end.

Definition bio_put_uint32 (m : memory) (bio : binder_io) (n : Z) : res (memory * binder_io) :=
  let '(ptr, bio) := bio_alloc bio 4 in
  match ptr with
  | Some p => m ← store_word m p 4 n; Ok (m, bio)
  | None => Ok (m, bio)
  end.

(** The assignments to [obj->flags], [type], [binder] (8 bytes) or [handle]
    (4 bytes of the union) and [cookie]. *)
Definition put_object (m : memory) (p type : Z) (width : nat) (value : Z) : res memory :=
  m ← store_word m (p + 4) 4 (Z.lor 127 FLAT_BINDER_FLAG_ACCEPTS_FDS);
  m ← store_word m p 4 type;
  m ← store_word m (p + 8) width value;
  store_word m (p + 16) 8 0.

Definition bio_put_obj (m : memory) (bio : binder_io) (ptr : Z) : res (memory * binder_io) :=
  '(obj, m, bio) ← bio_alloc_obj m bio;
  match obj with
  | None => Ok (m, bio)
  | Some p => m ← put_object m p BINDER_TYPE_BINDER 8 ptr; Ok (m, bio)
  end.

Definition bio_put_ref (m : memory) (bio : binder_io) (handle : Z) : res (memory * binder_io) :=
  '(obj, m, bio) ← (if negb (handle =? 0) then bio_alloc_obj m bio
                    else let '(p, bio) := bio_alloc bio 24 in Ok (p, m, bio));
  match obj with
  | None => Ok (m, bio)
  | Some p => m ← put_object m p BINDER_TYPE_HANDLE 4 handle; Ok (m, bio)
  end.

(** [while (str[len]) len++]: the units before the NUL; running off the end of
    the array is a fault. *)
Fixpoint until_nul (l : list Z) : res (list Z) :=
  match l with
  | [] => Fault OOPS
  | x :: l => if x =? 0 then Ok [] else s ← until_nul l; Ok (x :: s)
  end.

(** Both string writers: the length, then the units and a NUL. *)
Definition put_units (m : memory) (bio : binder_io) (s : list Z) : res (memory * binder_io) :=
  let len := Z.of_nat (length s) in
  if MAX_BIO_SIZE / 2 <=? len then bio_put_uint32 m bio (2 ^ 32 - 1) else
  '(m, bio) ← bio_put_uint32 m bio (u32 len);
  let '(ptr, bio) := bio_alloc bio ((len + 1) * 2) in
  match ptr with
  | Some p => m ← store m p (bytes16 (s ++ [0])); Ok (m, bio)
  | None => Ok (m, bio)
  end.

Definition bio_put_string16 (m : memory) (bio : binder_io) (str : option (list Z)) : res (memory * binder_io) :=
  match str with
  | None => bio_put_uint32 m bio (2 ^ 32 - 1)
  | Some l => s ← until_nul l; put_units m bio s
  end.

(** The characters are widened to 16 bits. *)
Definition bio_put_string16_x (m : memory) (bio : binder_io) (str : option (list Z)) : res (memory * binder_io) :=
  match str with
  | None => bio_put_uint32 m bio (2 ^ 32 - 1)
  | Some l => s ← until_nul l; put_units m bio s
  end.

Definition bio_get_uint32 (m : memory) (bio : binder_io) : res (Z * binder_io) :=
  let '(ptr, bio) := bio_get bio 4 in
  match ptr with
  | Some p => x ← load_word m p 4; Ok (x, bio)
  | None => Ok (0, bio)
  end.

(** The length is delivered even when the string is not there. *)
Definition bio_get_string16 (m : memory) (bio : binder_io) : res (option Z * Z * binder_io) :=
  '(len, bio) ← bio_get_uint32 m bio;
  let '(ptr, bio) := bio_get bio (u64 ((len + 1) * 2)) in
  Ok (ptr, len, bio).

(** [for (n = 0; n < bio->offs_avail; n++) if (bio->offs[n] == off)] *)
Fixpoint find_offset (m : memory) (offs off : Z) (n : nat) : res bool :=
  match n with
  | O => Ok false
  | S n => x ← load_word m offs 8; if x =? off then Ok true else find_offset m (offs + 8) off n
  end.

Definition _bio_get_obj (m : memory) (bio : binder_io) : res (option Z * binder_io) :=
  found ← find_offset m (bio_offs bio) (u64 (bio_data bio - data0 bio)) (Z.to_nat (offs_avail bio));
  if (found : bool) then Ok (bio_get bio 24)
  else Ok (None, bio_or_flags BIO_F_OVERFLOW (bio_set_data (bio_data bio) 0 bio)).

Definition bio_get_ref (m : memory) (bio : binder_io) : res (Z * binder_io) :=
  '(obj, bio) ← _bio_get_obj m bio;
  match obj with
  | None => Ok (0, bio)
  | Some p =>
      l ← load m p 24;
      let o := obj_of_bytes l in
      Ok (if fo_type o =? BINDER_TYPE_HANDLE then fo_handle o else 0, bio)
  end.

(** ** Commands to the driver *)

(** What [binder_write] and [binder_call] hand to the driver.  A transaction
    carries the bytes the driver will copy: its data and its offsets ([None]
    where they are not readable). *)
Inductive command : Type :=
| CFreeBuffer (buffer : Z)
| CReply (flags : Z) (data offs : option (list Z))
| CTransaction (handle code flags : Z) (data offs : option (list Z))
| CAcquire (handle : Z)
| CRelease (handle : Z)
| CRequestDeath (handle cookie : Z)
| CEnterLooper.

(** The data of a written [binder_io]. *)
Definition bio_payload (m : memory) (b : binder_io) : option (list Z) * option (list Z) :=
  (flat_read m (data0 b) (Z.to_nat (u64 (bio_data b - data0 b))),
   flat_read m (offs0 b) (Z.to_nat (u64 (bio_offs b - offs0 b)))).

(** The commands of [binder_send_reply]; [status] is an [int]. *)
Definition binder_send_reply (m : memory) (reply : binder_io) (buffer_to_free status : Z) : list command :=
  CFreeBuffer buffer_to_free ::
  (if negb (status =? 0) then [CReply TF_STATUS_CODE (Some (le_bytes 4 (u32 status))) (Some [])]
   else let '(data, offs) := bio_payload m reply in [CReply 0 data offs]).

Definition binder_done (reply : binder_io) : list command * binder_io :=
  if negb (Z.land (bio_flags reply) BIO_F_SHARED =? 0) then
    ([CFreeBuffer (data0 reply)],
     MkBio (bio_data reply) (bio_offs reply) (data_avail reply) (offs_avail reply) (data0 reply) (offs0 reply) 0)
  else ([], reply).

(** ** Parsing what the driver returned *)
Section Parse.
(** The state of the process apart from its memory, the transaction handler
    (None for [binder_call]) and [death->func]. *)
Context {S : Type}.
Variable handler : option (memory -> S -> binder_transaction_data -> binder_io -> binder_io ->
  res (Z * binder_io * memory * S)).
Variable death_func : memory -> S -> Z -> res S.
Variable send : list command -> S -> S.
(** The array [rdata] of the handler's reply, in the stack frame. *)
Variable rdata : Z.

Definition parse_transaction (m : memory) (s : S) (txn : binder_transaction_data) : res (memory * S) :=
  match handler with
  | None => Ok (m, s)
  | Some func =>
      let reply := bio_init bio_zero rdata 256 4 in
      let msg := bio_init_from_txn txn in
      '(status, reply, m, s) ← func m s txn msg reply;
      Ok (m, send (binder_send_reply m reply (td_buffer txn) status) s)
  end.

(** The loop of [binder_parse]; each round consumes at least four bytes. *)
Fixpoint parse_loop (fuel : nat) (m : memory) (s : S) (bio : option binder_io) (filled : option binder_io)
    (ptr end_ r : Z) : res (Z * option binder_io * memory * S) :=
  match fuel with
  | O => Fault HANG
  | Datatypes.S fuel =>
      if end_ <=? ptr then Ok (r, filled, m, s) else
      cmd ← load_word m ptr 4;
      let ptr := ptr + 4 in
      if (cmd =? BR_NOOP) || (cmd =? BR_TRANSACTION_COMPLETE) then
        parse_loop fuel m s bio filled ptr end_ r
      else if (cmd =? BR_INCREFS) || (cmd =? BR_ACQUIRE) || (cmd =? BR_RELEASE) || (cmd =? BR_DECREFS) then
        parse_loop fuel m s bio filled (ptr + 16) end_ r
      else if cmd =? BR_TRANSACTION then
        if u64 (end_ - ptr) <? 64 then Ok (-1, filled, m, s) else
        l ← load m ptr 64;
        '(m, s) ← parse_transaction m s (txn_of_bytes l);
        parse_loop fuel m s bio filled (ptr + 64) end_ r
      else if cmd =? BR_REPLY then
        if u64 (end_ - ptr) <? 64 then Ok (-1, filled, m, s) else
        l ← load m ptr 64;
        let filled := match bio with Some _ => Some (bio_init_from_txn (txn_of_bytes l)) | None => filled end in
        parse_loop fuel m s None filled (ptr + 64) end_ 0
      else if cmd =? BR_DEAD_BINDER then
        death ← load_word m ptr 8;
        s ← death_func m s death;
        parse_loop fuel m s bio filled (ptr + 8) end_ r
      else if (cmd =? BR_FAILED_REPLY) || (cmd =? BR_DEAD_REPLY) then
        parse_loop fuel m s bio filled ptr end_ (-1)
      else Ok (-1, filled, m, s)
  end.

(** The result, the [binder_io] filled from a reply (if [bio] was given and one
    came), and the state. *)
Definition binder_parse (m : memory) (s : S) (bio : option binder_io) (ptr size : Z)
    : res (Z * option binder_io * memory * S) :=
  parse_loop (Datatypes.S (Z.to_nat size)) m s bio None ptr (ptr + size) 1.

(** ** The driver's answers *)

(** Each [ioctl(BINDER_WRITE_READ)] fails or fills [readbuf] (128 bytes) with
    bytes, having placed the data of transactions in the mapped buffer area
    [area]; [answers] lists them in order, and the process blocks in [ioctl]
    when there is none left. *)
Definition answer : Type := option (list Z * memory).

Inductive outcome : Type :=
| Blocked
| Done (r : Z).

Fixpoint binder_call_loop (answers : list answer) (m : memory) (s : S) (reply : binder_io) (readbuf : Z)
    : res (outcome * binder_io * memory * S) :=
  let fail := bio_or_flags BIO_F_IOERROR bio_zero in
  match answers with
  | [] => Ok (Blocked, reply, m, s)
  | None :: _ => Ok (Done (-1), fail, m, s)
  | Some (bytes, area) :: answers =>
      m ← store (area ∪ m) readbuf bytes;
      '(r, filled, m, s) ← binder_parse m s (Some reply) readbuf (Z.of_nat (length bytes));
      let reply := default reply filled in
      if r =? 0 then Ok (Done 0, reply, m, s)
      else if r <? 0 then Ok (Done (-1), fail, m, s)
      else binder_call_loop answers m s reply readbuf
  end.

Definition binder_call (answers : list answer) (m : memory) (s : S) (msg reply : binder_io)
    (target code readbuf : Z) : res (outcome * binder_io * memory * S) :=
  if negb (Z.land (bio_flags msg) BIO_F_OVERFLOW =? 0) then
    Ok (Done (-1), bio_or_flags BIO_F_IOERROR bio_zero, m, s)
  else
    let '(data, offs) := bio_payload m msg in
    binder_call_loop answers m (send [CTransaction target code 0 data offs] s) reply readbuf.

Fixpoint loop_rounds (answers : list answer) (m : memory) (s : S) (readbuf : Z)
    : res (outcome * memory * S) :=
  match answers with
  | [] => Ok (Blocked, m, s)
  | None :: _ => Ok (Done (-1), m, s)
  | Some (bytes, area) :: answers =>
      m ← store (area ∪ m) readbuf bytes;
      '(r, _, m, s) ← binder_parse m s None readbuf (Z.of_nat (length bytes));
      if r <=? 0 then Ok (Done r, m, s) else loop_rounds answers m s readbuf
  end.

Definition binder_loop (answers : list answer) (m : memory) (s : S) (readbuf : Z)
    : res (outcome * memory * S) :=
  loop_rounds answers m (send [CEnterLooper] s) readbuf.
End Parse.
