(* ===== verification/BioInv.v ===== *)
(** * Readers and writers of transaction data

    [mapped m p n]: the bytes [p .. p+n) exist.  A reader ([reads]) is a
    [binder_io] whose remaining data is known; a writer ([writes]) is one whose
    written data and offsets are known and whose free room exists. *)
From S2P Require Import Prelude UserMem Protocol Bio.

Implicit Types (m : memory) (p x n : Z) (b : binder_io) (l : list Z).

(** ** Memory *)
Section Memory.
Definition mapped m p n : Prop := forall q, p <= q < p + n -> is_Some (m !! q).

Lemma mapped_sub m p n q k : mapped m p n -> p <= q -> q + k <= p + n -> mapped m q k.
Proof. intros H H1 H2 x Hx. apply H. lia. Qed.

Lemma flat_read_mapped m p k : (exists l, flat_read m p k = Some l) <-> mapped m p (Z.of_nat k).
Proof.
  revert p. induction k as [|k IH]; intros p; cbn [flat_read].
  - split; [intros _ q Hq; lia|eauto].
  - split.
    + intros [l H]. destruct (m !! p) as [x|] eqn:E; [|done]. cbn in H.
      destruct (flat_read m (p + 1) k) as [l'|] eqn:E'; [|done].
      intros q Hq. destruct (decide (q = p)) as [->|]; [by rewrite E|].
      apply (proj1 (IH (p + 1))); [eauto|lia].
    + intros H. destruct (H p ltac:(lia)) as [x ->]. cbn.
      destruct (proj2 (IH (p + 1))) as [l ->]; [|cbn; eauto]. intros q Hq. apply H. lia.
Qed.

Lemma load_mapped m p k : mapped m p (Z.of_nat k) -> exists l, load m p k = Ok l /\ length l = k /\ Forall is_byte l.
Proof.
  intros [l E]%flat_read_mapped. exists l. unfold load. rewrite E.
  split_and!; [done|by eapply flat_read_length|by eapply flat_read_bytes].
Qed.

Lemma load_word_mapped m p k : mapped m p (Z.of_nat k) -> exists x, load_word m p k = Ok x /\ 0 <= x < 256 ^ Z.of_nat k.
Proof.
  intros (l & E & Hl & Hb)%load_mapped. unfold load_word. rewrite E. cbn. eexists. split; [done|].
  rewrite <- Hl. by apply le_val_range.
Qed.

(** A store changes the bytes of its range only, and maps nothing. *)
Definition stored_at m m' p l : Prop :=
  flat_read m' p (length l) = Some l /\ (forall q, q < p \/ p + Z.of_nat (length l) <= q -> m' !! q = m !! q) /\
  (forall q, is_Some (m' !! q) <-> is_Some (m !! q)).

Lemma flat_write_mapped m p l : mapped m p (Z.of_nat (length l)) -> exists m', flat_write m p l = (true, m').
Proof.
  revert m p. induction l as [|x l IH]; intros m p H; cbn [flat_write]; [eauto|]. cbn [length] in H.
  destruct (H p ltac:(lia)) as [y ->]. apply IH. intros q Hq.
  destruct (decide (q = p)) as [->|]; [lia|]. rewrite lookup_insert_ne by lia. apply H. lia.
Qed.

Lemma flat_write_dom m p l ok m' : flat_write m p l = (ok, m') -> forall q, is_Some (m' !! q) <-> is_Some (m !! q).
Proof.
  revert m p. induction l as [|x l IH]; intros m p; cbn; [by intros [= _ <-]|].
  destruct (m !! p) as [y|] eqn:E; [|by intros [= _ <-]]. intros H q. rewrite (IH _ _ H q).
  destruct (decide (q = p)) as [->|]; [rewrite lookup_insert_eq, E; by split; eauto|by rewrite lookup_insert_ne].
Qed.

Lemma store_mapped m p l : Forall is_byte l -> mapped m p (Z.of_nat (length l)) ->
  exists m', store m p l = Ok m' /\ stored_at m m' p l.
Proof.
  intros Hb [m' E]%flat_write_mapped. exists m'. unfold store. rewrite E. split; [done|]. split_and!.
  - by eapply flat_read_write.
  - intros q Hq. by eapply flat_write_other.
  - by eapply flat_write_dom.
Qed.

Lemma store_word_mapped m p k x : mapped m p (Z.of_nat k) ->
  exists m', store_word m p k x = Ok m' /\ stored_at m m' p (le_bytes k x).
Proof. intros H. apply store_mapped; [apply le_bytes_byte|by rewrite length_le_bytes]. Qed.

Lemma stored_mapped m m' p l q n : stored_at m m' p l -> mapped m q n -> mapped m' q n.
Proof. intros (_ & _ & Hd) H x Hx. apply Hd. by apply H. Qed.

Lemma stored_read m m' p l q k : stored_at m m' p l -> q + Z.of_nat k <= p \/ p + Z.of_nat (length l) <= q ->
  flat_read m' q k = flat_read m q k.
Proof. intros (_ & Hf & _) H. apply flat_read_ext. intros r Hr. apply Hf. lia. Qed.

Lemma flat_read_app m p j k : flat_read m p (j + k) =
  (l1 ← flat_read m p j; l2 ← flat_read m (p + Z.of_nat j) k; Some (l1 ++ l2)).
Proof.
  revert p. induction j as [|j IH]; intros p; cbn [flat_read Nat.add].
  - cbn. replace (p + Z.of_nat 0) with p by lia. by destruct (flat_read m p k).
  - destruct (m !! p) as [x|]; cbn; [|done]. rewrite IH.
    replace (p + 1 + Z.of_nat j) with (p + Z.of_nat (S j)) by lia.
    destruct (flat_read m (p + 1) j); cbn; [|done]. by destruct (flat_read m _ k).
Qed.

Lemma flat_read_app_Some m p l1 l2 : flat_read m p (length (l1 ++ l2)) = Some (l1 ++ l2) <->
  flat_read m p (length l1) = Some l1 /\ flat_read m (p + Z.of_nat (length l1)) (length l2) = Some l2.
Proof.
  rewrite length_app, flat_read_app. split.
  - destruct (flat_read m p (length l1)) as [k1|] eqn:E1; cbn; [|done].
    destruct (flat_read m _ (length l2)) as [k2|] eqn:E2; cbn; [|done]. intros [= E].
    apply flat_read_length in E1 as H1. apply flat_read_length in E2 as H2.
    apply app_inj_1 in E as [-> ->]; [done|lia].
  - intros [-> ->]. done.
Qed.

Lemma flat_read_take m p k l : flat_read m p (length l) = Some l -> (k <= length l)%nat ->
  flat_read m p k = Some (take k l).
Proof.
  intros H Hk. rewrite <- (take_drop k l) in H. apply flat_read_app_Some in H as [H _].
  by rewrite length_take, Nat.min_l in H by lia.
Qed.
End Memory.

(** ** Alignment of sizes *)
Section Align.
Lemma align_word_div n : 0 <= n -> n + 3 < 2 ^ 64 -> align_word n = 4 * ((n + 3) / 4).
Proof. intros. unfold align_word. rewrite u64_small by lia. apply (land_lnot_ones (n + 3) 2). lia. Qed.
Lemma align_word_bounds n : 0 <= n -> n + 3 < 2 ^ 64 -> n <= align_word n < n + 4 /\ align_word n mod 4 = 0.
Proof. intros. rewrite align_word_div by lia. zdiv. Qed.
End Align.

(** ** Safety: no access outside the mapped data *)
Section Safety.
(** The remaining data and the offsets of [b] exist. *)
Record bio_ok m b : Prop := {
  bo_avail : 0 <= data_avail b < 2 ^ 63;
  bo_offs : 0 <= offs_avail b < 2 ^ 60;
  bo_data : mapped m (bio_data b) (data_avail b);
  bo_table : mapped m (bio_offs b) (8 * offs_avail b)
}.

Lemma bio_or_flags_ok m b f : bio_ok m b -> bio_ok m (bio_or_flags f b).
Proof. intros [? ? ? ?]. by split. Qed.

Lemma bio_ok_stored m m' p l b : stored_at m m' p l -> bio_ok m b -> bio_ok m' b.
Proof. intros Hs [? ? ? ?]. split; try done; by eapply stored_mapped. Qed.

Lemma bio_get_ok m b n : bio_ok m b -> 0 <= n < 2 ^ 63 ->
  bio_ok m (snd (bio_get b n)) /\
  forall p, fst (bio_get b n) = Some p -> mapped m p n /\ p = bio_data b.
Proof.
  intros [H1 H2 H3 H4] Hn. pose proof (align_word_bounds n ltac:(lia) ltac:(lia)) as [Ha _].
  unfold bio_get. destruct (Z.ltb_spec (data_avail b) (align_word n)); cbn.
  - split; [|done]. split; cbn; try done. intros q Hq. lia.
  - split.
    + split; cbn; try done; [lia|]. apply (mapped_sub m (bio_data b) (data_avail b)); [done|lia..].
    + intros p [= <-]. split; [|done]. apply (mapped_sub m (bio_data b) (data_avail b)); [done|lia..].
Qed.

Lemma bio_alloc_ok m b n : bio_ok m b -> 0 <= n < 2 ^ 63 ->
  bio_ok m (snd (bio_alloc b n)) /\ (forall p, fst (bio_alloc b n) = Some p -> mapped m p n) /\
  offs_avail (snd (bio_alloc b n)) = offs_avail b /\ bio_offs (snd (bio_alloc b n)) = bio_offs b.
Proof.
  intros [H1 H2 H3 H4] Hn. pose proof (align_word_bounds n ltac:(lia) ltac:(lia)) as [Ha _].
  unfold bio_alloc. destruct (Z.ltb_spec (data_avail b) (align_word n)); cbn.
  - split_and!; try done.
  - split_and!; try done.
    + split; cbn; try done; [lia|]. apply (mapped_sub m (bio_data b) (data_avail b)); [done|lia..].
    + intros p [= <-]. apply (mapped_sub m (bio_data b) (data_avail b)); [done|lia..].
Qed.

Lemma bio_get_uint32_ok m b : bio_ok m b ->
  exists x b', bio_get_uint32 m b = Ok (x, b') /\ bio_ok m b' /\ 0 <= x < 2 ^ 32.
Proof.
  intros H. destruct (bio_get_ok m b 4 H ltac:(lia)) as [H1 H2]. unfold bio_get_uint32.
  destruct (bio_get b 4) as [[p|] b']; cbn in *.
  - destruct (load_word_mapped m p 4) as (x & -> & Hx); [by apply H2|]. cbn. eauto.
  - exists 0, b'. done.
Qed.

Lemma bio_get_string16_ok m b : bio_ok m b ->
  exists (p : option Z) (len : Z) b', bio_get_string16 m b = Ok (p, len, b') /\ bio_ok m b' /\ 0 <= len < 2 ^ 32 /\
    forall q, p = Some q -> mapped m q ((len + 1) * 2).
Proof.
  intros H. unfold bio_get_string16. destruct (bio_get_uint32_ok m b H) as (len & b' & -> & H' & Hlen). cbn.
  rewrite u64_small by lia. destruct (bio_get_ok m b' ((len + 1) * 2) H' ltac:(lia)) as [H1 H2].
  destruct (bio_get b' _) as [p b'']; cbn in *. exists p, len, b''. split_and!; [done|done|lia|lia|].
  intros q ->. by apply H2.
Qed.

Lemma find_offset_ok m offs off k : mapped m offs (8 * Z.of_nat k) -> exists r, find_offset m offs off k = Ok r.
Proof.
  revert offs. induction k as [|k IH]; intros offs H; cbn [find_offset]; [eauto|].
  destruct (load_word_mapped m offs 8) as (x & -> & _); [by apply (mapped_sub m offs _ offs _ H); lia|]. cbn.
  destruct (x =? off); [eauto|]. apply IH. by apply (mapped_sub m offs _ _ _ H); lia.
Qed.

Lemma bio_get_ref_ok m b : bio_ok m b ->
  exists h b', bio_get_ref m b = Ok (h, b') /\ bio_ok m b' /\ 0 <= h < 2 ^ 32.
Proof.
  intros H. pose proof H as [H1 H2 H3 H4]. unfold bio_get_ref, _bio_get_obj.
  destruct (find_offset_ok m (bio_offs b) (u64 (bio_data b - data0 b)) (Z.to_nat (offs_avail b))) as (r & ->).
  { by rewrite Z2Nat.id by lia. }
  cbn. destruct r; cbn.
  - destruct (bio_get_ok m b 24 H ltac:(lia)) as [G1 G2]. destruct (bio_get b 24) as [[p|] b']; cbn in *; [|exists 0, b'; done].
    destruct (load_mapped m p 24) as (l & -> & _ & _); [by apply G2|]. cbn. eexists _, b'. split; [done|]. split; [done|].
    destruct (_ =? _); [|lia]. unfold fo_handle. apply Z.mod_pos_bound. lia.
  - exists 0, (bio_or_flags BIO_F_OVERFLOW (bio_set_data (bio_data b) 0 b)). split_and!; [done|split; cbn; try done|done|done].
    intros q Hq. lia.
Qed.

(** The writers: no access outside, no mapping changed. *)
Definition same_dom m m' : Prop := forall q, is_Some (m' !! q) <-> is_Some (m !! q).

Lemma same_dom_refl m : same_dom m m.
Proof. done. Qed.
Lemma same_dom_trans m1 m2 m3 : same_dom m1 m2 -> same_dom m2 m3 -> same_dom m1 m3.
Proof. intros H1 H2 q. by rewrite (H2 q), (H1 q). Qed.
Lemma same_dom_mapped m m' p n : same_dom m m' -> mapped m p n -> mapped m' p n.
Proof. intros Hd H q Hq. apply Hd. by apply H. Qed.
Lemma same_dom_bio m m' b : same_dom m m' -> bio_ok m b -> bio_ok m' b.
Proof. intros Hd [? ? ? ?]. split; try done; by eapply same_dom_mapped. Qed.

(** Only bytes of the room of [b] and of its offset table change. *)
Definition writes_in b m m' : Prop := same_dom m m' /\
  forall q, ~ (bio_data b <= q < bio_data b + data_avail b) -> ~ (bio_offs b <= q < bio_offs b + 8 * offs_avail b) ->
    m' !! q = m !! q.

Lemma writes_in_refl b m : writes_in b m m.
Proof. done. Qed.

Lemma stored_writes b m m' p l : stored_at m m' p l ->
  (bio_data b <= p /\ p + Z.of_nat (length l) <= bio_data b + data_avail b) \/
  (bio_offs b <= p /\ p + Z.of_nat (length l) <= bio_offs b + 8 * offs_avail b) -> writes_in b m m'.
Proof. intros (_ & Hf & Hd) Hin. split; [done|]. intros q H1 H2. apply Hf. lia. Qed.

Lemma writes_in_trans b m1 m2 m3 : writes_in b m1 m2 -> writes_in b m2 m3 -> writes_in b m1 m3.
Proof.
  intros [D1 F1] [D2 F2]. split; [by eapply same_dom_trans|]. intros q H1 H2. by rewrite F2, F1.
Qed.

(** [b'] has its room inside the room of [b]. *)
Definition inside b b' : Prop :=
  bio_data b <= bio_data b' /\ bio_data b' + data_avail b' = bio_data b + data_avail b /\
  bio_offs b <= bio_offs b' /\ bio_offs b' + 8 * offs_avail b' = bio_offs b + 8 * offs_avail b.

Lemma writes_in_inside b b' m m' : inside b b' -> writes_in b' m m' -> writes_in b m m'.
Proof. intros H [D F]. split; [done|]. intros q H1 H2. unfold inside in H. apply F; lia. Qed.

Definition put_ok m b (f : res (memory * binder_io)) : Prop :=
  exists m' b', f = Ok (m', b') /\ bio_ok m' b' /\ inside b b' /\ writes_in b m m'.

Lemma bio_alloc_inside b n : 0 <= align_word n -> inside b (snd (bio_alloc b n)).
Proof.
  intros Ha. unfold bio_alloc, inside. destruct (Z.ltb_spec (data_avail b) (align_word n)); cbn; lia.
Qed.

Lemma bio_alloc_room b n p : 0 <= n < 2 ^ 63 -> fst (bio_alloc b n) = Some p ->
  p = bio_data b /\ n <= data_avail b.
Proof.
  intros Hn. pose proof (align_word_bounds n ltac:(lia) ltac:(lia)) as [Ha _].
  unfold bio_alloc. destruct (Z.ltb_spec (data_avail b) (align_word n)); cbn; [done|]. intros [= <-]. lia.
Qed.

Lemma put_uint32_ok m b x : bio_ok m b -> put_ok m b (bio_put_uint32 m b x).
Proof.
  intros H. destruct (bio_alloc_ok m b 4 H ltac:(lia)) as (H1 & H2 & _).
  pose proof (bio_alloc_inside b 4 ltac:(done)) as Hi. pose proof (bio_alloc_room b 4) as Hr.
  unfold bio_put_uint32. destruct (bio_alloc b 4) as [[p|] b']; cbn in *.
  - destruct (store_word_mapped m p 4 x) as (m' & -> & Hs); [by apply H2|]. cbn.
    destruct (Hr p ltac:(lia) eq_refl) as [-> ?].
    exists m', b'. split_and!; [done|by eapply bio_ok_stored|done|].
    apply (stored_writes b m m' _ _ Hs). rewrite length_le_bytes. lia.
  - exists m, b'. split_and!; try done.
Qed.

Lemma bio_alloc_obj_ok m b : bio_ok m b ->
  exists (p : option Z) m' b', bio_alloc_obj m b = Ok (p, m', b') /\ bio_ok m' b' /\ inside b b' /\ writes_in b m m' /\
    forall q, p = Some q -> bio_data b <= q /\ q + 24 <= bio_data b + data_avail b.
Proof.
  intros H. destruct (bio_alloc_ok m b 24 H ltac:(lia)) as (H1 & H2 & H3 & H4).
  pose proof (bio_alloc_inside b 24 ltac:(done)) as Hi. pose proof (bio_alloc_room b 24) as Hr.
  unfold bio_alloc_obj. destruct (bio_alloc b 24) as [[p|] b']; cbn in *.
  - destruct (Z.eqb_spec (offs_avail b') 0) as [Hz|Hz].
    { exists None, m, (bio_or_flags BIO_F_OVERFLOW b'). split_and!; try done. by apply bio_or_flags_ok. }
    pose proof (bo_offs m b' H1) as Ho.
    destruct (store_word_mapped m (bio_offs b') 8 (u64 (p - data0 b'))) as (m' & -> & Hs).
    { apply (mapped_sub m _ _ _ _ (bo_table m b' H1)); lia. }
    cbn. destruct (Hr p ltac:(lia) eq_refl) as [-> ?]. eexists _, m', _. split_and!; [done| | | |].
    + destruct (bio_ok_stored _ _ _ _ _ Hs H1) as [? ? ? ?]. split; cbn; try done; [lia|].
      apply (mapped_sub m' (bio_offs b') (8 * offs_avail b')); [done|lia..].
    + unfold inside in *. cbn. lia.
    + apply (stored_writes b m m' _ _ Hs). rewrite length_le_bytes. lia.
    + intros q [= <-]. lia.
  - exists None, m, (bio_or_flags BIO_F_OVERFLOW b'). split_and!; try done. by apply bio_or_flags_ok.
Qed.

Lemma put_object_ok m b p ty w v : bio_ok m b -> mapped m p 24 -> (w <= 8)%nat ->
  bio_data b <= p -> p + 24 <= bio_data b + data_avail b ->
  exists m', put_object m p ty w v = Ok m' /\ writes_in b m m'.
Proof.
  intros H Hm Hw H1 H2. unfold put_object.
  assert (Hst : forall m0 q k x, same_dom m m0 -> p <= q -> q + Z.of_nat k <= p + 24 ->
    exists m1, store_word m0 q k x = Ok m1 /\ writes_in b m0 m1 /\ same_dom m m1).
  { intros m0 q k x Hd Hq Hk. destruct (store_word_mapped m0 q k x) as (m1 & E & Hs).
    { apply (same_dom_mapped m); [done|]. apply (mapped_sub m p 24); [done|lia..]. }
    exists m1. split_and!; [done| |].
    - apply (stored_writes b m0 m1 _ _ Hs). rewrite length_le_bytes. lia.
    - apply (same_dom_trans m m0); [done|]. by destruct Hs as (_ & _ & ?). }
  destruct (Hst m (p + 4) 4%nat (Z.lor 127 FLAT_BINDER_FLAG_ACCEPTS_FDS)) as (m1 & -> & W1 & D1); [done|lia..|]. cbn.
  destruct (Hst m1 p 4%nat ty) as (m2 & -> & W2 & D2); [done|lia..|]. cbn.
  destruct (Hst m2 (p + 8) w v) as (m3 & -> & W3 & D3); [done|lia..|]. cbn.
  destruct (Hst m3 (p + 16) 8%nat 0) as (m4 & -> & W4 & D4); [done|lia..|].
  exists m4. split; [done|]. eauto using writes_in_trans.
Qed.

Lemma put_ref_ok m b h : bio_ok m b -> put_ok m b (bio_put_ref m b h).
Proof.
  intros H. unfold bio_put_ref.
  assert (Ha : exists (p : option Z) m' b', (if negb (h =? 0) then bio_alloc_obj m b
      else let '(p, bio) := bio_alloc b 24 in Ok (p, m, bio)) = Ok (p, m', b') /\ bio_ok m' b' /\ inside b b' /\
    writes_in b m m' /\ forall q, p = Some q -> bio_data b <= q /\ q + 24 <= bio_data b + data_avail b).
  { destruct (negb (h =? 0)); [by apply bio_alloc_obj_ok|].
    destruct (bio_alloc_ok m b 24 H ltac:(lia)) as (H1 & _ & _).
    pose proof (bio_alloc_inside b 24 ltac:(done)) as Hi. pose proof (bio_alloc_room b 24) as Hr.
    destruct (bio_alloc b 24) as [p b']; cbn in *. exists p, m, b'. split_and!; try done.
    intros q ->. destruct (Hr q ltac:(lia) eq_refl) as [-> ?]. lia. }
  destruct Ha as (p & m' & b' & -> & H1 & Hi & W & Hp). cbn. destruct p as [p|]; [|by exists m', b'].
  destruct (Hp p eq_refl) as [P1 P2].
  destruct (put_object_ok m' b p BINDER_TYPE_HANDLE 4 h) as (m'' & -> & W'); [| |lia|done|done|].
  { apply (same_dom_bio m); [apply W|done]. }
  { apply (same_dom_mapped m); [apply W|]. apply (mapped_sub m _ _ _ _ (bo_data m b H)); lia. }
  cbn. exists m'', b'. split_and!; [done| |done|by eapply writes_in_trans].
  apply (same_dom_bio m'); [apply W'|done].
Qed.


Lemma put_units_ok m b l : bio_ok m b -> put_ok m b (put_units m b l).
Proof.
  intros H. unfold put_units, MAX_BIO_SIZE. change (2 ^ 30 / 2) with 536870912.
  destruct (Z.leb_spec 536870912 (Z.of_nat (length l))); [by apply put_uint32_ok|].
  destruct (put_uint32_ok m b (u32 (Z.of_nat (length l))) H) as (m1 & b1 & -> & H1 & I1 & W1). cbn.
  set (n := (Z.of_nat (length l) + 1) * 2). assert (0 <= n < 2 ^ 63) by lia.
  destruct (bio_alloc_ok m1 b1 n H1 ltac:(lia)) as (G2 & G3 & _).
  pose proof (align_word_bounds n ltac:(lia) ltac:(lia)) as [Hal _].
  pose proof (bio_alloc_inside b1 n ltac:(lia)) as I2. pose proof (bio_alloc_room b1 n) as Hr.
  assert (I3 : inside b (snd (bio_alloc b1 n))) by (unfold inside in *; lia).
  destruct (bio_alloc b1 n) as [[p|] b2]; cbn in *; [|by exists m1, b2].
  destruct (Hr p ltac:(lia) eq_refl) as [-> Hroom].
  assert (Hlen : Z.of_nat (length (bytes16 (l ++ [0]))) = n).
  { rewrite length_bytes16, length_app. cbn. lia. }
  destruct (store_mapped m1 (bio_data b1) (bytes16 (l ++ [0]))) as (m2 & -> & Hs);
    [apply bytes16_byte|rewrite Hlen; by apply G3|].
  cbn. exists m2, b2. split_and!; [done|by eapply bio_ok_stored|done|].
  apply (writes_in_trans b m m1 m2 W1). apply (writes_in_inside b b1); [done|].
  apply (stored_writes b1 m1 m2 _ _ Hs). rewrite Hlen. lia.
Qed.
End Safety.
