(* ===== verification/BioSpec.v ===== *)
(** * What the readers deliver and the writers leave *)
From S2P Require Import Prelude UserMem Protocol Bio BioInv.

Implicit Types (m : memory) (p x n : Z) (b : binder_io) (l d : list Z).

(** ** Readers *)
Section Readers.
(** The remaining data of [b] is [l]. *)
Definition reads m b l : Prop := data_avail b = Z.of_nat (length l) /\ flat_read m (bio_data b) (length l) = Some l.

(** [b] moved forward by [n] bytes. *)
Definition advance n b : binder_io := bio_set_data (bio_data b + n) (data_avail b - n) b.

Lemma advance_twice n k b : advance n (advance k b) = advance (n + k) b.
Proof. unfold advance, bio_set_data. cbn. f_equal; lia. Qed.

Lemma reads_app m b l1 l2 : reads m b (l1 ++ l2) ->
  flat_read m (bio_data b) (length l1) = Some l1 /\ reads m (advance (Z.of_nat (length l1)) b) l2.
Proof.
  intros [H1 H2]. apply flat_read_app_Some in H2 as [H2 H3]. split; [done|]. split; cbn; [|done].
  rewrite H1, length_app. lia.
Qed.

Lemma bio_get_reads m b l1 l2 n : reads m b (l1 ++ l2) -> align_word n = Z.of_nat (length l1) ->
  bio_get b n = (Some (bio_data b), advance (Z.of_nat (length l1)) b).
Proof.
  intros [H1 _] Hn. unfold bio_get. rewrite Hn, H1, length_app.
  destruct (Z.ltb_spec (Z.of_nat (length l1 + length l2)) (Z.of_nat (length l1))); [lia|].
  unfold advance. by rewrite H1, length_app.
Qed.

Lemma get_uint32_reads m b x l : 0 <= x < 2 ^ 32 -> reads m b (le_bytes 4 x ++ l) ->
  bio_get_uint32 m b = Ok (x, advance 4 b) /\ reads m (advance 4 b) l.
Proof.
  intros Hx H. unfold bio_get_uint32. rewrite (bio_get_reads m b (le_bytes 4 x) l) by done.
  apply reads_app in H as [H1 H2]. rewrite length_le_bytes in *. split; [|exact H2].
  unfold load_word, load. rewrite H1. cbn [deref mbind res_bind]. rewrite le_val_bytes by done. done.
Qed.

(** A string of units [s] on the wire: its length, its units and a NUL, padding. *)
Definition string16 (s pad : list Z) : list Z := le_bytes 4 (Z.of_nat (length s)) ++ bytes16 (s ++ [0]) ++ pad.
Definition padded (s pad : list Z) : Prop :=
  Z.of_nat (length s) < 2 ^ 32 - 1 /\
  align_word ((Z.of_nat (length s) + 1) * 2) = 2 * (Z.of_nat (length s) + 1) + Z.of_nat (length pad).

Lemma get_string16_reads m b s pad l : padded s pad -> reads m b (string16 s pad ++ l) ->
  let n := 4 + 2 * (Z.of_nat (length s) + 1) + Z.of_nat (length pad) in
  bio_get_string16 m b = Ok (Some (bio_data b + 4), Z.of_nat (length s), advance n b) /\
  reads m (advance n b) l /\
  flat_read m (bio_data b + 4) (length (bytes16 (s ++ [0]))) = Some (bytes16 (s ++ [0])).
Proof.
  intros [Hs Hpad] H n. unfold string16 in H. rewrite <- !app_assoc in H. unfold bio_get_string16.
  destruct (get_uint32_reads m b (Z.of_nat (length s)) _ ltac:(lia) H) as [-> H1]. cbn [mbind res_bind].
  rewrite u64_small by lia. rewrite app_assoc in H1.
  assert (Hl : Z.of_nat (length (bytes16 (s ++ [0]) ++ pad)) = 2 * (Z.of_nat (length s) + 1) + Z.of_nat (length pad)).
  { rewrite length_app. pose proof (length_bytes16 (s ++ [0])) as E. rewrite length_app in E. cbn [length] in E. lia. }
  rewrite (bio_get_reads m _ (bytes16 (s ++ [0]) ++ pad) l _ H1) by (rewrite Hpad, Hl; done).
  apply reads_app in H1 as [H2 H3]. rewrite Hl in *. apply flat_read_app_Some in H2 as [H2 _].
  rewrite advance_twice in H3 |- *. unfold n.
  replace (4 + 2 * (Z.of_nat (length s) + 1) + Z.of_nat (length pad))
    with (2 * (Z.of_nat (length s) + 1) + Z.of_nat (length pad) + 4) by lia.
  split_and!; [done|exact H3|exact H2].
Qed.

(** An object at the read position that the offsets list. *)
Lemma get_ref_reads m b o l : Forall2 word obj_widths [fo_type o; fo_flags o; fo_binder o; fo_cookie o] ->
  reads m b (obj_bytes o ++ l) ->
  find_offset m (bio_offs b) (u64 (bio_data b - data0 b)) (Z.to_nat (offs_avail b)) = Ok true ->
  bio_get_ref m b = Ok (if fo_type o =? BINDER_TYPE_HANDLE then fo_handle o else 0, advance 24 b) /\
  reads m (advance 24 b) l.
Proof.
  intros Ho H Hf. assert (Hlen : length (obj_bytes o) = 24%nat).
  { unfold obj_bytes. by rewrite length_bytes_of. }
  unfold bio_get_ref, _bio_get_obj. rewrite Hf. cbn [mbind res_bind].
  rewrite (bio_get_reads m b (obj_bytes o) l _ H) by (by rewrite Hlen). cbn [mbind res_bind].
  apply reads_app in H as [H1 H2]. rewrite Hlen in *. split; [|exact H2].
  unfold load. rewrite H1. cbn [deref mbind res_bind]. rewrite <- (app_nil_r (obj_bytes o)), obj_roundtrip by done. done.
Qed.
End Readers.

(** ** Writers *)
Section Writers.
(** [b] has written the data [d] and has room left. *)
Record writes m b d : Prop := {
  wr_ok : bio_ok m b;
  wr_pos : bio_data b = data0 b + Z.of_nat (length d);
  wr_data : flat_read m (data0 b) (length d) = Some d;
  (** the offset table does not overlap the data *)
  wr_apart : bio_offs b + 8 * offs_avail b <= data0 b \/ bio_data b + data_avail b <= bio_offs b
}.

Lemma bio_alloc_room_eq b n : align_word n <= data_avail b ->
  bio_alloc b n = (Some (bio_data b), advance (align_word n) b).
Proof. intros H. unfold bio_alloc. by rewrite (proj2 (Z.ltb_ge _ _)). Qed.

(** Storing [l] at the write position after an allocation of [n] bytes: the data
    grows by [l] and the padding that was in memory. *)
Lemma writes_store m m' b d l n : writes m b d -> stored_at m m' (bio_data b) l ->
  Z.of_nat (length l) <= n -> n <= data_avail b ->
  exists pad, Z.of_nat (length pad) = n - Z.of_nat (length l) /\ writes m' (advance n b) (d ++ l ++ pad).
Proof.
  intros [O P D A] Hs Hl Hn. pose proof (bio_ok_stored _ _ _ _ _ Hs O) as O'. pose proof O as [? ? ? ?].
  set (k := Z.to_nat (n - Z.of_nat (length l))).
  destruct (proj2 (flat_read_mapped m' (bio_data b + Z.of_nat (length l)) k)) as [pad Hp].
  { apply (mapped_sub m' (bio_data b) (data_avail b)); [apply O'|lia|unfold k; lia]. }
  assert (Hpl : length pad = k) by (by eapply flat_read_length). exists pad. split; [unfold k in *; lia|].
  split.
  - destruct O' as [? ? ? ?]. split; cbn; try done; [lia|].
    apply (mapped_sub m' (bio_data b) (data_avail b)); [done|lia..].
  - cbn. rewrite !length_app. unfold k in *. lia.
  - cbn. apply flat_read_app_Some. split.
    + rewrite (stored_read m m' (bio_data b) l) by (done || lia). exact D.
    + rewrite <- P. apply flat_read_app_Some. split; [apply Hs|]. by rewrite Hpl.
  - cbn. lia.
Qed.

Lemma put_uint32_writes m b d x : writes m b d -> 0 <= x < 2 ^ 32 -> 4 <= data_avail b ->
  exists m', bio_put_uint32 m b x = Ok (m', advance 4 b) /\ writes m' (advance 4 b) (d ++ le_bytes 4 x).
Proof.
  intros H Hx Hr. unfold bio_put_uint32. rewrite bio_alloc_room_eq by done. change (align_word 4) with 4.
  destruct (store_word_mapped m (bio_data b) 4 x) as (m' & -> & Hs).
  { apply (mapped_sub m (bio_data b) (data_avail b)); [apply (wr_ok _ _ _ H)|lia..]. }
  cbn [mbind res_bind]. exists m'. split; [done|].
  destruct (writes_store m m' b d (le_bytes 4 x) 4 H Hs) as (pad & Hl & W); [by rewrite length_le_bytes|lia|].
  rewrite length_le_bytes in Hl. destruct pad; [|cbn in Hl; lia]. by rewrite app_nil_r in W.
Qed.

Lemma put_units_writes m b d s : writes m b d -> Z.of_nat (length s) < 2 ^ 29 ->
  4 + align_word ((Z.of_nat (length s) + 1) * 2) <= data_avail b ->
  exists m' pad, put_units m b s = Ok (m', advance (4 + align_word ((Z.of_nat (length s) + 1) * 2)) b) /\
    padded s pad /\ writes m' (advance (4 + align_word ((Z.of_nat (length s) + 1) * 2)) b) (d ++ string16 s pad).
Proof.
  intros H Hs Hr. unfold put_units, MAX_BIO_SIZE. set (n := (Z.of_nat (length s) + 1) * 2) in *.
  assert (Hn : 0 <= n /\ n + 3 < 2 ^ 64) by (unfold n; lia).
  pose proof (align_word_bounds n ltac:(lia) ltac:(lia)) as [Hal Hal4].
  change (2 ^ 30 / 2) with (2 ^ 29). rewrite (proj2 (Z.leb_gt _ _)) by lia. rewrite u32_small by lia.
  destruct (put_uint32_writes m b d (Z.of_nat (length s)) H ltac:(lia) ltac:(lia)) as (m1 & -> & W1).
  cbn [mbind res_bind]. fold n. rewrite bio_alloc_room_eq by (cbn; lia).
  assert (Hlen : Z.of_nat (length (bytes16 (s ++ [0]))) = n).
  { rewrite length_bytes16, length_app. cbn [length]. unfold n. lia. }
  destruct (store_mapped m1 (bio_data (advance 4 b)) (bytes16 (s ++ [0]))) as (m2 & -> & Hst); [apply bytes16_byte| |].
  { apply (mapped_sub m1 _ (data_avail (advance 4 b)) _ _ (bo_data _ _ (wr_ok _ _ _ W1))); cbn; lia. }
  cbn [mbind res_bind].
  destruct (writes_store m1 m2 _ _ (bytes16 (s ++ [0])) (align_word n) W1 Hst) as (pad & Hpl & W2); [lia|cbn; lia|].
  rewrite advance_twice in *. replace (align_word n + 4) with (4 + align_word n) in * by lia.
  exists m2, pad. split_and!; [done| |].
  - split; [lia|]. fold n. rewrite Hpl, Hlen. unfold n. lia.
  - unfold string16. by rewrite app_assoc.
Qed.

(** Without room for the units only the length is written. *)
Lemma put_units_short m b d s : writes m b d -> Z.of_nat (length s) < 2 ^ 29 ->
  4 <= data_avail b < 4 + align_word ((Z.of_nat (length s) + 1) * 2) ->
  exists m', put_units m b s = Ok (m', bio_or_flags BIO_F_OVERFLOW (advance 4 b)) /\
    writes m' (bio_or_flags BIO_F_OVERFLOW (advance 4 b)) (d ++ le_bytes 4 (Z.of_nat (length s))).
Proof.
  intros H Hs Hr. unfold put_units, MAX_BIO_SIZE. change (2 ^ 30 / 2) with (2 ^ 29).
  rewrite (proj2 (Z.leb_gt _ _)) by lia. rewrite u32_small by lia.
  destruct (put_uint32_writes m b d (Z.of_nat (length s)) H ltac:(lia) ltac:(lia)) as (m1 & -> & W1).
  cbn [mbind res_bind]. unfold bio_alloc. rewrite (proj2 (Z.ltb_lt _ _)) by (cbn; lia).
  exists m1. split; [done|]. destruct W1 as [? ? ? ?]. split; try done. by apply bio_or_flags_ok.
Qed.

(** The object [put_object] leaves at [p]. *)
Lemma put_object_obj m p ty v : mapped m p 24 -> word 4 ty -> word 4 v ->
  exists m' l, put_object m p ty 4 v = Ok m' /\ flat_read m' p 24 = Some l /\
    fo_type (obj_of_bytes l) = ty /\ fo_handle (obj_of_bytes l) = v /\ same_dom m m' /\
    forall q, q < p \/ p + 24 <= q -> m' !! q = m !! q.
Proof.
  intros Hm Hty Hv. unfold put_object.
  assert (Hst : forall m0 k (n : nat) x, same_dom m m0 -> 0 <= k -> k + Z.of_nat n <= 24 ->
    exists m1, store_word m0 (p + k) n x = Ok m1 /\ stored_at m0 m1 (p + k) (le_bytes n x) /\ same_dom m m1).
  { intros m0 k n x Hd Hk Hn. destruct (store_word_mapped m0 (p + k) n x) as (m1 & E & Hs).
    - apply (same_dom_mapped m); [done|]. apply (mapped_sub m p 24); [done|lia..].
    - exists m1. split_and!; [done|done|]. apply (same_dom_trans m m0); [done|]. by destruct Hs as (_ & _ & ?). }
  set (fl := Z.lor 127 FLAT_BINDER_FLAG_ACCEPTS_FDS).
  destruct (Hst m 4 4%nat fl) as (m1 & -> & S1 & D1); [done|lia..|]. cbn [mbind res_bind].
  destruct (Hst m1 0 4%nat ty) as (m2 & E2 & S2 & D2); [done|lia..|].
  rewrite Z.add_0_r in E2, S2. rewrite E2. cbn [mbind res_bind].
  destruct (Hst m2 8 4%nat v) as (m3 & -> & S3 & D3); [done|lia..|]. cbn [mbind res_bind].
  destruct (Hst m3 16 8%nat 0) as (m4 & -> & S4 & D4); [done|lia..|].
  destruct (proj2 (flat_read_mapped m4 (p + 12) 4)) as [junk Hj].
  { apply (same_dom_mapped m); [done|]. apply (mapped_sub m p 24); [done|lia..]. }
  pose proof (flat_read_length _ _ _ _ Hj) as Hjl. pose proof (flat_read_bytes _ _ _ _ Hj) as Hjb.
  exists m4, (bytes_of obj_widths [ty; fl; le_val (le_bytes 4 v ++ junk); 0]).
  assert (Hw : word 8 (le_val (le_bytes 4 v ++ junk))).
  { pose proof (le_val_range (le_bytes 4 v ++ junk)) as R. rewrite length_app, length_le_bytes, Hjl in R.
    apply R. apply Forall_app. split; [apply le_bytes_byte|done]. }
  assert (Hf2 : Forall2 word obj_widths [ty; fl; le_val (le_bytes 4 v ++ junk); 0]).
    { repeat (apply Forall2_cons; split); try done. }
  split_and!; [done| | | |done|].
  - cbn [bytes_of obj_widths]. rewrite app_nil_r.
    rewrite <- (length_le_bytes 4 v) in Hjl.
    replace (le_bytes 8 (le_val (le_bytes 4 v ++ junk))) with (le_bytes 4 v ++ junk).
    2: { rewrite <- (le_bytes_val (le_bytes 4 v ++ junk)) at 1.
         - rewrite length_app, length_le_bytes in *. by rewrite Hjl.
         - apply Forall_app. split; [apply le_bytes_byte|done]. }
    rewrite length_le_bytes in Hjl.
    assert (R : flat_read m4 p (length (le_bytes 4 ty ++ le_bytes 4 fl ++ (le_bytes 4 v ++ junk) ++ le_bytes 8 0)) =
      Some (le_bytes 4 ty ++ le_bytes 4 fl ++ (le_bytes 4 v ++ junk) ++ le_bytes 8 0)).
    2: { rewrite !length_app, !length_le_bytes, Hjl in R. exact R. }
    rewrite !flat_read_app_Some, !length_app, !length_le_bytes, Hjl. cbn [Nat.add].
    replace (p + Z.of_nat 4 + Z.of_nat 4) with (p + 8) by lia. replace (p + Z.of_nat 4) with (p + 4) by lia.
    replace (p + 8 + Z.of_nat 4) with (p + 12) by lia. replace (p + 8 + Z.of_nat 8) with (p + 16) by lia.
    split_and!.
    + rewrite (stored_read _ _ _ _ _ _ S4), (stored_read _ _ _ _ _ _ S3) by (rewrite length_le_bytes; lia). apply S2.
    + rewrite (stored_read _ _ _ _ _ _ S4), (stored_read _ _ _ _ _ _ S3), (stored_read _ _ _ _ _ _ S2)
        by (rewrite length_le_bytes; lia). apply S1.
    + rewrite (stored_read _ _ _ _ _ _ S4) by (rewrite length_le_bytes; lia). apply S3.
    + exact Hj.
    + apply S4.
  - pose proof (words_of_bytes_of _ _ [] Hf2) as E. rewrite app_nil_r in E. unfold obj_of_bytes. by rewrite E.
  - pose proof (words_of_bytes_of _ _ [] Hf2) as E. rewrite app_nil_r in E. unfold obj_of_bytes, fo_handle. rewrite E.
    cbn [fo_binder]. cbn [le_bytes app le_val]. unfold word in Hv. change (256 ^ Z.of_nat 4) with (2 ^ 32) in Hv. zdiv.
  - intros q Hq. destruct S4 as (_ & F4 & _), S3 as (_ & F3 & _), S2 as (_ & F2 & _), S1 as (_ & F1 & _).
    rewrite length_le_bytes in *. rewrite F4, F3, F2, F1 by lia. done.
Qed.

(** [bio_put_ref] of a handle: one object of data and one entry of the offset
    table, which is the object's offset. *)
Definition with_object b : binder_io := bio_set_offs (bio_offs b + 8) (offs_avail b - 1) (advance 24 b).

Lemma alloc_obj_writes m b d : writes m b d -> Z.of_nat (length d) < 2 ^ 64 ->
  24 <= data_avail b -> 1 <= offs_avail b ->
  exists m', bio_alloc_obj m b = Ok (Some (bio_data b), m', with_object b) /\ bio_ok m' b /\
    flat_read m' (data0 b) (length d) = Some d /\ flat_read m' (bio_offs b) 8 = Some (le_bytes 8 (Z.of_nat (length d))).
Proof.
  intros [O P D A] Hd H1 H2. pose proof O as [O1 O2 O3 O4]. unfold bio_alloc_obj.
  rewrite bio_alloc_room_eq by done. change (align_word 24) with 24. cbn [advance bio_set_data offs_avail bio_offs data0 bio_data].
  rewrite (proj2 (Z.eqb_neq _ 0)) by lia. replace (bio_data b - data0 b) with (Z.of_nat (length d)) by lia.
  rewrite u64_small by lia.
  destruct (store_word_mapped m (bio_offs b) 8 (Z.of_nat (length d))) as (m' & -> & Hs).
  { apply (mapped_sub m _ _ _ _ O4); lia. }
  cbn [mbind res_bind]. exists m'. split_and!; [done|by eapply bio_ok_stored| |by apply Hs].
  rewrite (stored_read m m' _ _ _ _ Hs); [done|]. rewrite length_le_bytes. lia.
Qed.

Lemma put_ref_writes m b d h : writes m b d -> Z.of_nat (length d) < 2 ^ 64 -> word 4 h -> h ≠ 0 ->
  24 <= data_avail b -> 1 <= offs_avail b ->
  exists m' l, bio_put_ref m b h = Ok (m', with_object b) /\ length l = 24%nat /\ writes m' (with_object b) (d ++ l) /\
    fo_type (obj_of_bytes l) = BINDER_TYPE_HANDLE /\ fo_handle (obj_of_bytes l) = h /\
    flat_read m' (bio_offs b) 8 = Some (le_bytes 8 (Z.of_nat (length d))).
Proof.
  intros W Hd Hw Hh H1 H2. unfold bio_put_ref. rewrite (proj2 (Z.eqb_neq h 0)) by done. cbn [negb].
  destruct (alloc_obj_writes m b d W Hd H1 H2) as (m1 & -> & O & D & T). cbn [mbind res_bind].
  destruct (put_object_obj m1 (bio_data b) BINDER_TYPE_HANDLE h) as (m2 & l & -> & R & Ty & Ha & Dm & F); [|done..|].
  { apply (mapped_sub m1 (bio_data b) (data_avail b)); [apply O|lia..]. }
  cbn [mbind res_bind]. exists m2, l. pose proof (flat_read_length _ _ _ _ R) as Hl. destruct W as [W1 P _ A]. destruct W1 as [W1 W2 _ _].
  split_and!; [done|done| |done|done|].
  - destruct (same_dom_bio m1 m2 b Dm O) as [B1 B2 B3 B4]. split.
    + split; cbn; [lia|lia|apply (mapped_sub m2 _ _ _ _ B3); lia|apply (mapped_sub m2 _ _ _ _ B4); lia].
    + cbn. rewrite length_app. lia.
    + change (data0 (with_object b)) with (data0 b). apply flat_read_app_Some. rewrite <- P, Hl. split; [|exact R].
      rewrite <- D. apply flat_read_ext. intros q Hq. apply F. lia.
    + cbn. lia.
  - rewrite <- T. apply flat_read_ext. intros q Hq. apply F. lia.
Qed.
End Writers.
