(* ===== verification/SvcMgr.v ===== *)
(** * The service manager (servicemanager/service_manager.c)

    The context manager of the binder driver: it keeps the list of services by
    name and answers transactions to add, find and list them. *)
From S2P Require Import Prelude UserMem Protocol Bio.

Definition BINDER_SERVICE_MANAGER : Z := 0.
Definition PING_TRANSACTION : Z := B_PACK_CHARS 95 80 78 71.
Definition SVC_MGR_GET_SERVICE : Z := 1.
Definition SVC_MGR_CHECK_SERVICE : Z := 2.
Definition SVC_MGR_ADD_SERVICE : Z := 3.
Definition SVC_MGR_LIST_SERVICES : Z := 4.

(** [struct svcinfo]; [si_ptr] is its address, [name] has [len + 1] units.  The
    embedded [struct binder_death] (its function is always [svcinfo_death]) is
    at offset 16. *)
Record svcinfo := MkSvc {
  si_ptr : Z;
  si_handle : Z;
  si_allow_isolated : bool;
  si_len : Z;
  si_name : list Z
}.
Definition si_death (si : svcinfo) : Z := si_ptr si + 16.

(** The list, newest first, and the commands sent to the driver. *)
Record svc_state := MkState {
  svclist : list svcinfo;
  sent : list command
}.
Definition send (l : list command) (s : svc_state) : svc_state := MkState (svclist s) (sent s ++ l).
Definition set_svclist (l : list svcinfo) (s : svc_state) : svc_state := MkState l (sent s).

Definition with_handle (h : Z) (si : svcinfo) : svcinfo :=
  MkSvc (si_ptr si) h (si_allow_isolated si) (si_len si) (si_name si).
(** [si->handle = h] through a pointer into the list. *)
Definition set_handle (p h : Z) (l : list svcinfo) : list svcinfo :=
  (fun si => if si_ptr si =? p then with_handle h si else si) <$> l.

(** [str8]: at most 127 units up to a NUL, narrowed to bytes; [rd] reads a unit. *)
Fixpoint str8_loop (rd : nat -> res Z) (i max : nat) : res (list Z) :=
  match max with
  | O => Ok [0]
  | Datatypes.S max =>
      x ← rd i;
      if x =? 0 then Ok [0] else s ← str8_loop rd (Datatypes.S i) max; Ok (x mod 256 :: s)
  end.
Definition str8 (rd : nat -> res Z) (x_len : Z) : res (list Z) :=
  str8_loop rd 0 (Z.to_nat (Z.min x_len 127)).

Definition rd_memory (m : memory) (p : Z) (i : nat) : res Z := load_word m (p + 2 * Z.of_nat i) 2.
Definition rd_name (si : svcinfo) (i : nat) : res Z := deref (si_name si !! i).

(** [str16eq], on strings that end in NUL inside their arrays. *)
Fixpoint str16eq (a b : list Z) : res bool :=
  match a, b with
  | x :: a', y :: b' =>
      if negb (x =? 0) && negb (y =? 0) then if negb (x =? y) then Ok false else str16eq a' b'
      else Ok ((x =? 0) && (y =? 0))
  | _, _ => Fault OOPS
  end.

(** The permission checks are compiled to "allowed"; they still convert the name. *)
Definition svc_can_register (m : memory) (name name_len : Z) : res bool :=
  _ ← str8 (rd_memory m name) name_len; Ok true.
Definition svc_can_find (m : memory) (name name_len : Z) : res bool :=
  _ ← str8 (rd_memory m name) name_len; Ok true.
Definition svc_can_list : bool := true.

Fixpoint find_svc (m : memory) (s16 len : Z) (l : list svcinfo) : res (option svcinfo) :=
  match l with
  | [] => Ok None
  | si :: next =>
      if len =? si_len si then
        a ← load m s16 (Z.to_nat (len * 2));
        if decide (a = bytes16 (take (Z.to_nat len) (si_name si))) then Ok (Some si)
        else find_svc m s16 len next
      else find_svc m s16 len next
  end.

Definition svcinfo_death (si : svcinfo) (s : svc_state) : res svc_state :=
  _ ← str8 (rd_name si) (si_len si);
  Ok (if negb (si_handle si =? 0) then
        let s := send [CRelease (si_handle si)] s in
        set_svclist (set_handle (si_ptr si) 0 (svclist s)) s
      else s).

(** [death->func(bs, death->ptr)] for a pointer to some service's death record;
    any other pointer is wild. *)
Definition death_func (m : memory) (s : svc_state) (death : Z) : res svc_state :=
  si ← deref (list_find (fun si => si_death si = death) (svclist s));
  svcinfo_death (snd si) s.

Definition svcmgr_id : list Z :=
  [97; 110; 100; 114; 111; 105; 100; 46; 111; 115; 46;
   73; 83; 101; 114; 118; 105; 99; 101; 77; 97; 110; 97; 103; 101; 114].

Definition do_find_service (m : memory) (s : svc_state) (str len : Z) : res Z :=
  si ← find_svc m str len (svclist s);
  match si with
  | None => Ok 0
  | Some si =>
      if si_handle si =? 0 then Ok 0 else
      ok ← svc_can_find m str len;
      Ok (if (ok : bool) then si_handle si else 0)
  end.

Section Manager.
(** What [malloc] returns for a new record. *)
Variable malloc : list svcinfo -> option Z.

Definition do_add_service (m : memory) (s : svc_state) (str len handle : Z) (allow_isolated : bool)
    : res (Z * svc_state) :=
  if (handle =? 0) || (len =? 0) || (127 <? len) then Ok (-1, s) else
  ok ← svc_can_register m str len;
  if negb ok then Ok (-1, s) else
  si ← find_svc m str len (svclist s);
  match si with
  | Some si =>
      s ← (if negb (si_handle si =? 0) then
             _ ← str8 (rd_memory m str) len;
             svcinfo_death si s
           else Ok s);
      let s := set_svclist (set_handle (si_ptr si) handle (svclist s)) s in
      Ok (0, send [CAcquire handle; CRequestDeath handle (si_death si)] s)
  | None =>
      match malloc (svclist s) with
      | None => _ ← str8 (rd_memory m str) len; Ok (-1, s)
      | Some p =>
          l ← load m str (Z.to_nat ((len + 1) * 2));
          let si := MkSvc p handle allow_isolated len (<[Z.to_nat len := 0]> (units l)) in
          let s := set_svclist (si :: svclist s) s in
          Ok (0, send [CAcquire handle; CRequestDeath handle (si_death si)] s)
      end
  end.

(** [while ((n-- > 0) && si) si = si->next;] *)
Fixpoint skip (n : Z) (l : list svcinfo) : option svcinfo :=
  match l with
  | [] => None
  | si :: l' => if 0 <? n then skip (n - 1) l' else Some si
  end.

(** The requests of the [switch], after the interface name has been read. *)
Definition get_request (m : memory) (s : svc_state) (msg reply : binder_io) : res (Z * binder_io * memory * svc_state) :=
  '(str, len, msg) ← bio_get_string16 m msg;
  match str with
  | None => Ok (-1, reply, m, s)
  | Some p =>
      handle ← do_find_service m s p len;
      if handle =? 0 then '(m, reply) ← bio_put_uint32 m reply 0; Ok (0, reply, m, s)
      else '(m, reply) ← bio_put_ref m reply handle; Ok (0, reply, m, s)
  end.

Definition add_request (m : memory) (s : svc_state) (msg reply : binder_io) : res (Z * binder_io * memory * svc_state) :=
  '(str, len, msg) ← bio_get_string16 m msg;
  match str with
  | None => Ok (-1, reply, m, s)
  | Some p =>
      '(handle, msg) ← bio_get_ref m msg;
      '(allow, msg) ← bio_get_uint32 m msg;
      '(r, s) ← do_add_service m s p len handle (negb (allow =? 0));
      if negb (r =? 0) then Ok (-1, reply, m, s)
      else '(m, reply) ← bio_put_uint32 m reply 0; Ok (0, reply, m, s)
  end.

Definition list_request (m : memory) (s : svc_state) (msg reply : binder_io) : res (Z * binder_io * memory * svc_state) :=
  '(n, msg) ← bio_get_uint32 m msg;
  if negb svc_can_list then Ok (-1, reply, m, s) else
  match skip n (svclist s) with
  | Some si => '(m, reply) ← bio_put_string16 m reply (Some (si_name si)); Ok (0, reply, m, s)
  | None => Ok (-1, reply, m, s)
  end.

Definition svcmgr_handler (m : memory) (s : svc_state) (txn : binder_transaction_data) (msg reply : binder_io)
    : res (Z * binder_io * memory * svc_state) :=
  let answer r := Ok (r, reply, m, s) in
  if negb (td_target txn =? BINDER_SERVICE_MANAGER) then answer (-1) else
  if td_code txn =? PING_TRANSACTION then answer 0 else
  '(strict_policy, msg) ← bio_get_uint32 m msg;
  '(str, len, msg) ← bio_get_string16 m msg;
  match str with
  | None => answer (-1)
  | Some p =>
      bad ← (if negb (len =? Z.of_nat (length svcmgr_id)) then Ok true
             else a ← load m p (2 * length svcmgr_id); Ok (negb (bool_decide (a = bytes16 svcmgr_id))));
      if (bad : bool) then _ ← str8 (rd_memory m p) len; answer (-1) else
      let code := td_code txn in
      if (code =? SVC_MGR_GET_SERVICE) || (code =? SVC_MGR_CHECK_SERVICE) then get_request m s msg reply
      else if code =? SVC_MGR_ADD_SERVICE then add_request m s msg reply
      else if code =? SVC_MGR_LIST_SERVICES then list_request m s msg reply
      else answer (-1)
  end.
End Manager.

(** [main] after the driver is open: the loop with the handler. *)
Definition svcmgr_main (malloc : list svcinfo -> option Z) (rdata readbuf : Z) (answers : list answer)
    (m : memory) : res (outcome * memory * svc_state) :=
  binder_loop (Some (svcmgr_handler malloc)) death_func send rdata answers m (MkState [] []) readbuf.
