(* ===== verification/SvcInv.v ===== *)
(** * The registry of the service manager

    [svc_inv]: names are distinct, non-empty and at most 127 units, stored with a
    NUL.  The abstract view is [handle_of]: the handle registered for a name, 0
    for none. *)
From S2P Require Import Prelude UserMem Protocol Bio BioInv BioSpec SvcMgr.

Implicit Types (m : memory) (p len h : Z) (s : svc_state) (si : svcinfo) (l : list svcinfo) (nm : list Z).

Section Registry.

(** The stored name without its NUL. *)
Definition svc_name si : list Z := take (Z.to_nat (si_len si)) (si_name si).

Record svc_ok si : Prop := {
  so_len : 1 <= si_len si <= 127;
  so_name : si_name si = svc_name si ++ [0] /\ Z.of_nat (length (svc_name si)) = si_len si;
  so_units : Forall is_unit (svc_name si)
}.

Record svc_inv l : Prop := {
  sv_ok : forall si, si ∈ l -> svc_ok si;
  sv_names : NoDup (svc_name <$> l);
  sv_ptrs : NoDup (si_ptr <$> l)
}.

Fixpoint lookup_name nm l : option svcinfo :=
  match l with
  | [] => None
  | si :: l => if decide (svc_name si = nm) then Some si else lookup_name nm l
  end.
Definition handle_of l nm : Z := match lookup_name nm l with Some si => si_handle si | None => 0 end.


Lemma bytes16_inj_iff nm1 nm2 : Forall is_unit nm1 -> Forall is_unit nm2 -> bytes16 nm1 = bytes16 nm2 <-> nm1 = nm2.
Proof. intros H1 H2. split; [by apply bytes16_inj|by intros ->]. Qed.

(** The string [nm] and one more unit are in memory at [p]. *)
Definition str_at m p nm : Prop := Forall is_unit nm /\
  exists z, flat_read m p (length (bytes16 (nm ++ [z]))) = Some (bytes16 (nm ++ [z])).



Lemma str_at_load m p nm : str_at m p nm -> load m p (Z.to_nat (Z.of_nat (length nm) * 2)) = Ok (bytes16 nm).
Proof.
  intros [_ [z H]]. rewrite bytes16_app in H. apply flat_read_app_Some in H as [H _].
  rewrite length_bytes16_nat in H. unfold load. replace (Z.to_nat _) with (2 * length nm)%nat by lia. by rewrite H.
Qed.

(** Reading unit [i] of a string in memory or of a stored name. *)
Lemma rd_memory_ok m p nm i : str_at m p nm -> (i <= length nm)%nat -> exists x, rd_memory m p i = Ok x.
Proof.
  intros [_ [z H]] Hi. unfold rd_memory.
  destruct (load_word_mapped m (p + 2 * Z.of_nat i) 2) as (x & -> & _); [|eauto].
  assert (mapped m p (Z.of_nat (length (bytes16 (nm ++ [z]))))) as Hm by (apply flat_read_mapped; eauto).
  rewrite length_bytes16_nat, length_app in Hm. cbn [length] in Hm. apply (mapped_sub m p _ _ _ Hm); lia.
Qed.

Lemma str8_ok rd len : (forall i, (Z.of_nat i < Z.min len 127) -> exists x, rd i = Ok x) -> exists out, str8 rd len = Ok out.
Proof.
  intros H. unfold str8. set (k := Z.to_nat (Z.min len 127)).
  assert (Hg : forall k i, (forall j, (j < i + k)%nat -> exists x, rd j = Ok x) -> exists out, str8_loop rd i k = Ok out).
  { clear. intros k. induction k as [|k IH]; intros i Hi; cbn [str8_loop]; [eauto|].
    destruct (Hi i) as [x ->]; [lia|]. cbn. destruct (x =? 0); [eauto|].
    destruct (IH (Datatypes.S i)) as [o ->]; [intros j Hj; apply Hi; lia|]. cbn. eauto. }
  apply Hg. intros j Hj. apply H. unfold k in Hj. lia.
Qed.

Lemma str8_memory m p nm : str_at m p nm -> exists out, str8 (rd_memory m p) (Z.of_nat (length nm)) = Ok out.
Proof. intros H. apply str8_ok. intros i Hi. apply (rd_memory_ok m p nm); [done|lia]. Qed.

Lemma str8_name si : svc_ok si -> exists out, str8 (rd_name si) (si_len si) = Ok out.
Proof.
  intros [H1 [H2 H3] _]. apply str8_ok. intros i Hi. unfold rd_name.
  destruct (lookup_lt_is_Some_2 (si_name si) i) as [x ->]; [|eauto].
  rewrite H2, length_app. cbn. lia.
Qed.

(** [find_svc] finds the record of the name. *)
Lemma find_svc_spec m p nm l : svc_inv l -> str_at m p nm ->
  find_svc m p (Z.of_nat (length nm)) l = Ok (lookup_name nm l).
Proof.
  intros [Hok _ _] Hs. induction l as [|si l IH]; cbn [find_svc lookup_name]; [done|].
  destruct (Hok si ltac:(left)) as [_ [_ H3] H4].
  assert (IH' : find_svc m p (Z.of_nat (length nm)) l = Ok (lookup_name nm l)).
  { apply IH. intros si' Hsi'. apply Hok. by right. }
  destruct (Z.eqb_spec (Z.of_nat (length nm)) (si_len si)) as [E|E].
  - rewrite (str_at_load m p nm Hs). cbn [mbind res_bind].
    replace (take (Z.to_nat (Z.of_nat (length nm))) (si_name si)) with (svc_name si) by (unfold svc_name; by rewrite E).
    destruct (decide (bytes16 nm = bytes16 (svc_name si))) as [Eb|Eb].
    + apply bytes16_inj in Eb; [|apply Hs|done]. by rewrite decide_True.
    + rewrite decide_False; [done|]. by intros <-.
  - rewrite decide_False; [done|]. intros <-. lia.
Qed.

Lemma lookup_name_Some nm l si : lookup_name nm l = Some si -> si ∈ l /\ svc_name si = nm.
Proof.
  induction l as [|si' l IH]; cbn; [done|]. case_decide as E.
  - intros [= ->]. split; [left|done].
  - intros H. apply IH in H as [? ?]. split; [by right|done].
Qed.

Lemma lookup_name_None nm l : lookup_name nm l = None -> nm ∉ svc_name <$> l.
Proof.
  induction l as [|si' l IH]; cbn; [intros _ ?%elem_of_nil; done|]. case_decide as E; [done|].
  intros H. apply not_elem_of_cons. split; [by intros ->|auto].
Qed.

(** ** Changing a handle *)
Lemma svc_name_with_handle h si : svc_name (with_handle h si) = svc_name si.
Proof. done. Qed.

Lemma set_handle_names p h l : svc_name <$> set_handle p h l = svc_name <$> l.
Proof.
  unfold set_handle. rewrite <- list_fmap_compose. apply list_fmap_ext. intros i si _. cbn.
  by destruct (si_ptr si =? p).
Qed.
Lemma set_handle_ptrs p h l : si_ptr <$> set_handle p h l = si_ptr <$> l.
Proof.
  unfold set_handle. rewrite <- list_fmap_compose. apply list_fmap_ext. intros i si _. cbn.
  by destruct (si_ptr si =? p).
Qed.

Lemma set_handle_inv p h l : svc_inv l -> svc_inv (set_handle p h l).
Proof.
  intros [Hok Hn Hp]. split.
  - intros si Hsi. apply list_elem_of_fmap in Hsi as (si' & -> & Hsi'). specialize (Hok si' Hsi').
    destruct (si_ptr si' =? p); [|done]. by destruct Hok.
  - by rewrite set_handle_names.
  - by rewrite set_handle_ptrs.
Qed.

Lemma lookup_set_handle p h l nm : lookup_name nm (set_handle p h l) =
  (fun si => if si_ptr si =? p then with_handle h si else si) <$> lookup_name nm l.
Proof.
  induction l as [|si l IH]; cbn; [done|]. destruct (si_ptr si =? p) eqn:E; cbn;
    rewrite ?svc_name_with_handle; case_decide; cbn; rewrite ?E; done.
Qed.

(** Setting the handle of the record named [nm] changes that name only. *)
Lemma handle_of_set l nm si h : svc_inv l -> lookup_name nm l = Some si ->
  forall nm', handle_of (set_handle (si_ptr si) h l) nm' = if decide (nm' = nm) then h else handle_of l nm'.
Proof.
  intros [Hok Hn Hp] Hl nm'. unfold handle_of. rewrite lookup_set_handle. case_decide as E.
  - subst nm'. rewrite Hl. cbn. by rewrite Z.eqb_refl.
  - destruct (lookup_name nm' l) as [si'|] eqn:El; cbn; [|done].
    destruct (Z.eqb_spec (si_ptr si') (si_ptr si)) as [Ep|]; [|done]. exfalso. apply E.
    apply lookup_name_Some in Hl as [H1 <-]. apply lookup_name_Some in El as [H2 <-].
    apply list_elem_of_lookup in H1 as [i Hi]. apply list_elem_of_lookup in H2 as [j Hj].
    assert (i = j) as ->.
    { apply (NoDup_lookup (si_ptr <$> l) i j (si_ptr si)); [done|..];
        rewrite list_lookup_fmap; [by rewrite Hi|by rewrite Hj, <- Ep]. }
    congruence.
Qed.

(** ** A new record *)
Lemma svc_inv_cons si l : svc_ok si -> svc_name si ∉ svc_name <$> l -> si_ptr si ∉ si_ptr <$> l ->
  svc_inv l -> svc_inv (si :: l).
Proof.
  intros Hsi Hn Hp [H1 H2 H3]. split; [|by constructor..].
  intros si' [->|H]%elem_of_cons; [done|auto].
Qed.



(** Any bytes of the right number are the bytes of some units. *)
Lemma bytes16_surj k (bs : list Z) : length bs = (2 * k)%nat -> Forall is_byte bs ->
  exists us, bs = bytes16 us /\ length us = k /\ Forall is_unit us.
Proof.
  revert bs. induction k as [|k IH]; intros bs Hl Hb; [destruct bs; [by exists []|done]|].
  destruct bs as [|x [|y bs]]; [cbn in Hl; lia..|].
  apply Forall_cons in Hb as [Hx Hb]. apply Forall_cons in Hb as [Hy Hb].
  destruct (IH bs) as (us & -> & Hk & Hu); [cbn in Hl; lia|done|].
  exists ((x + 256 * y) :: us). unfold is_byte, is_unit in *. split_and!; [|cbn; lia|constructor; [lia|done]].
  change (bytes16 ((x + 256 * y) :: us)) with ((x + 256 * y) mod 256 :: (x + 256 * y) / 256 mod 256 :: bytes16 us).
  f_equal; [zdiv|]. f_equal. zdiv.
Qed.

Lemma snoc_inv (us : list Z) k : length us = S k -> exists nm z, us = nm ++ [z] /\ length nm = k.
Proof.
  intros H. destruct us as [|z nm _] using rev_ind; [done|]. exists nm, z. split; [done|].
  rewrite length_app in H. cbn in H. lia.
Qed.

(** What [do_add_service] stores for a new name. *)
Lemma stored_name m p nm : str_at m p nm -> exists bs, load m p (Z.to_nat ((Z.of_nat (length nm) + 1) * 2)) = Ok bs /\
  <[length nm := 0]> (units bs) = nm ++ [0].
Proof.
  intros [Hu [z H]]. exists (bytes16 (nm ++ [z])). unfold load. rewrite length_bytes16_nat, length_app in H.
  replace (Z.to_nat _) with (2 * (length nm + length [z]))%nat by (cbn; lia). rewrite H. split; [done|].
  rewrite bytes16_app, units_app, units_bytes16 by done. rewrite insert_app_r_alt by lia.
  by rewrite Nat.sub_diag.
Qed.
End Registry.
