(* ===== verification/SvcProps.v ===== *)
(** * The service manager: properties

    Registration, death and lookup against the abstract registry [handle_of], the
    safety of the handler on every message, and lookups across the encoded
    messages. *)
From S2P Require Import Prelude UserMem Protocol Bio BioInv BioSpec SvcMgr SvcInv.

Implicit Types (m : memory) (p len h : Z) (s : svc_state) (si : svcinfo) (l : list svcinfo) (nm : list Z).

(** ** Registration and death *)
Section Operations.
Variable malloc : list svcinfo -> option Z.
(** [malloc] returns memory that is not in use. *)
Hypothesis malloc_fresh : forall l p, malloc l = Some p -> p ∉ si_ptr <$> l.

Lemma svcinfo_death_ok s si : svc_inv (svclist s) -> si ∈ svclist s ->
  svcinfo_death si s = Ok (if si_handle si =? 0 then s
    else MkState (set_handle (si_ptr si) 0 (svclist s)) (sent s ++ [CRelease (si_handle si)])).
Proof.
  intros H Hsi. unfold svcinfo_death. destruct (str8_name si) as [o ->]; [by apply (sv_ok _ H)|].
  cbn. by destruct (si_handle si =? 0).
Qed.

Lemma in_lookup_name l si : svc_inv l -> si ∈ l -> lookup_name (svc_name si) l = Some si.
Proof.
  intros [_ Hn _] H. induction l as [|si' l IH]; [by apply elem_of_nil in H|].
  cbn [fmap list_fmap] in Hn. apply NoDup_cons in Hn as [Hn1 Hn2]. cbn.
  apply elem_of_cons in H as [->|H]; [by rewrite decide_True|].
  rewrite decide_False; [auto|]. intros E. apply Hn1. rewrite E. by apply list_elem_of_fmap_2.
Qed.

Lemma set_handle_twice p h h' l : set_handle p h (set_handle p h' l) = set_handle p h l.
Proof.
  unfold set_handle. rewrite <- list_fmap_compose. apply list_fmap_ext. intros i si _. cbn.
  destruct (si_ptr si =? p) eqn:E; cbn; by rewrite E.
Qed.

(** The effect of registering [h] for [nm]. *)
Record registered s nm h s' : Prop := {
  rg_inv : svc_inv (svclist s');
  rg_handles : forall nm', handle_of (svclist s') nm' = if decide (nm' = nm) then h else handle_of (svclist s) nm';
  rg_sent : exists si, lookup_name nm (svclist s') = Some si /\ sent s' = sent s ++
    (if handle_of (svclist s) nm =? 0 then [] else [CRelease (handle_of (svclist s) nm)]) ++
    [CAcquire h; CRequestDeath h (si_death si)]
}.

Lemma add_existing m s p nm h a si : svc_inv (svclist s) -> str_at m p nm -> (1 <= length nm <= 127)%nat -> h ≠ 0 ->
  lookup_name nm (svclist s) = Some si ->
  exists s', do_add_service malloc m s p (Z.of_nat (length nm)) h a = Ok (0, s') /\ registered s nm h s'.
Proof.
  intros Hi Hs Hl Hh E. unfold do_add_service.
  rewrite (proj2 (Z.eqb_neq h 0)), (proj2 (Z.eqb_neq _ 0)), (proj2 (Z.ltb_ge 127 _)) by lia. cbn [orb].
  unfold svc_can_register. destruct (str8_memory m p nm Hs) as [o Ho]. rewrite Ho. cbn [mbind res_bind negb].
  rewrite (find_svc_spec m p nm _ Hi Hs), E. cbn [mbind res_bind].
  pose proof (lookup_name_Some _ _ _ E) as [Hin Hnm].
  assert (Hho : handle_of (svclist s) nm = si_handle si) by (unfold handle_of; by rewrite E).
  rewrite (svcinfo_death_ok s si Hi Hin). destruct (Z.eqb_spec (si_handle si) 0) as [Hz|Hz]; cbn [negb mbind res_bind].
  - eexists. split; [done|]. split; cbn [svclist sent send set_svclist].
    + by apply set_handle_inv.
    + by apply handle_of_set.
    + eexists. rewrite lookup_set_handle, E, Hho, Hz. cbn. rewrite Z.eqb_refl. split; [done|]. done.
  - eexists. split; [done|]. split; cbn [svclist sent send set_svclist].
    + by apply set_handle_inv, set_handle_inv.
    + rewrite set_handle_twice. by apply handle_of_set.
    + eexists. rewrite set_handle_twice, lookup_set_handle, E, Hho, (proj2 (Z.eqb_neq _ 0)) by done. cbn. rewrite Z.eqb_refl.
      split; [done|]. rewrite <- app_assoc. done.
Qed.

Lemma svc_name_new p h a nm : svc_name (MkSvc p h a (Z.of_nat (length nm)) (nm ++ [0])) = nm.
Proof. unfold svc_name. cbn. rewrite Nat2Z.id. by rewrite take_app_length. Qed.

Lemma svc_ok_new p h a nm : Forall is_unit nm -> (1 <= length nm <= 127)%nat ->
  svc_ok (MkSvc p h a (Z.of_nat (length nm)) (nm ++ [0])).
Proof.
  intros Hu Hl. split; [cbn; lia| |]; rewrite svc_name_new; [|done]. by cbn.
Qed.

Lemma add_new m s p nm h a q : svc_inv (svclist s) -> str_at m p nm -> (1 <= length nm <= 127)%nat -> h ≠ 0 ->
  lookup_name nm (svclist s) = None -> malloc (svclist s) = Some q ->
  exists s', do_add_service malloc m s p (Z.of_nat (length nm)) h a = Ok (0, s') /\ registered s nm h s'.
Proof.
  intros Hi Hs Hl Hh E Em. unfold do_add_service.
  rewrite (proj2 (Z.eqb_neq h 0)), (proj2 (Z.eqb_neq _ 0)), (proj2 (Z.ltb_ge 127 _)) by lia. cbn [orb].
  unfold svc_can_register. destruct (str8_memory m p nm Hs) as [o Ho]. rewrite Ho. cbn [mbind res_bind negb].
  rewrite (find_svc_spec m p nm _ Hi Hs), E. cbn [mbind res_bind]. rewrite Em.
  destruct (stored_name m p nm Hs) as (bs & -> & Hbs). cbn [mbind res_bind]. rewrite Nat2Z.id, Hbs.
  assert (Hho : handle_of (svclist s) nm = 0) by (unfold handle_of; by rewrite E).
  eexists. split; [done|]. split; cbn [svclist sent send set_svclist].
  - apply svc_inv_cons; [by apply svc_ok_new; [apply Hs|]| |by apply malloc_fresh|done].
    rewrite svc_name_new. by apply lookup_name_None.
  - intros nm'. unfold handle_of. cbn [lookup_name]. rewrite svc_name_new.
    destruct (decide (nm = nm')) as [->|Hne]; [by rewrite decide_True|]. rewrite decide_False by congruence. done.
  - eexists. cbn [lookup_name]. rewrite svc_name_new, decide_True by done. rewrite Hho. done.
Qed.

(** C39: [do_add_service] with a non-zero handle and a name of 1 to 127 units
    registers the handle for that name and for no other, keeps the registry
    well-formed, and sends the driver the release of the handle registered before
    (if there was one), then the acquire and the death request of the new one. *)
Theorem do_add_service_registers m s p nm h a : svc_inv (svclist s) -> str_at m p nm ->
  (1 <= length nm <= 127)%nat -> h ≠ 0 ->
  (lookup_name nm (svclist s) = None -> is_Some (malloc (svclist s))) ->
  exists s', do_add_service malloc m s p (Z.of_nat (length nm)) h a = Ok (0, s') /\ registered s nm h s'.
Proof.
  intros Hi Hs Hl Hh Hm. destruct (lookup_name nm (svclist s)) as [si|] eqn:E.
  - by apply (add_existing m s p nm h a si).
  - destruct (Hm eq_refl) as [q Hq]. by apply (add_new m s p nm h a q).
Qed.

(** In the other cases nothing changes: bad arguments, or no memory. *)
Lemma add_bad m s p len h a : h = 0 \/ len = 0 \/ 127 < len -> do_add_service malloc m s p len h a = Ok (-1, s).
Proof.
  intros H. unfold do_add_service.
  replace ((h =? 0) || (len =? 0) || (127 <? len)) with true; [done|].
  destruct (Z.eqb_spec h 0), (Z.eqb_spec len 0), (Z.ltb_spec 127 len); cbn; lia || done.
Qed.

Lemma add_no_memory m s p nm h a : svc_inv (svclist s) -> str_at m p nm ->
  lookup_name nm (svclist s) = None -> malloc (svclist s) = None ->
  do_add_service malloc m s p (Z.of_nat (length nm)) h a = Ok (-1, s).
Proof.
  intros Hi Hs E Em. unfold do_add_service. destruct (_ || _); [done|].
  unfold svc_can_register. destruct (str8_memory m p nm Hs) as [o Ho]. rewrite Ho. cbn [mbind res_bind negb].
  rewrite (find_svc_spec m p nm _ Hi Hs), E. cbn [mbind res_bind]. by rewrite Em.
Qed.

Lemma do_find_service_spec m s p nm : svc_inv (svclist s) -> str_at m p nm ->
  do_find_service m s p (Z.of_nat (length nm)) = Ok (handle_of (svclist s) nm).
Proof.
  intros Hi Hs. unfold do_find_service, handle_of. rewrite (find_svc_spec m p nm _ Hi Hs). cbn [mbind res_bind].
  destruct (lookup_name nm (svclist s)) as [si|]; [|done]. destruct (Z.eqb_spec (si_handle si) 0) as [->|]; [done|].
  unfold svc_can_find. by destruct (str8_memory m p nm Hs) as [o ->].
Qed.

Lemma death_of l si : svc_inv l -> si ∈ l ->
  exists i, list_find (fun si' => si_death si' = si_death si) l = Some (i, si).
Proof.
  intros [_ _ Hp] Hin. destruct (list_find_elem_of (fun si' => si_death si' = si_death si) l si) as [[i si'] E]; [done..|].
  exists i. rewrite E. apply list_find_Some in E as (Hi & Hd & _). apply list_elem_of_lookup in Hin as [j Hj].
  unfold si_death in Hd. do 2 f_equal.
  assert (i = j) as ->; [|congruence]. apply (NoDup_lookup (si_ptr <$> l) i j (si_ptr si)); [done|..];
    rewrite list_lookup_fmap; [rewrite Hi; cbn; f_equal; lia|by rewrite Hj].
Qed.

(** C40: when the driver reports the death of a service, its handle becomes 0 so
    that lookups no longer find it, the handles of the other names stay, and the
    reference is released exactly when one was held. *)
Theorem death_func_unregisters m s si : svc_inv (svclist s) -> si ∈ svclist s ->
  exists s', death_func m s (si_death si) = Ok s' /\ svc_inv (svclist s') /\
    (forall nm, handle_of (svclist s') nm = if decide (nm = svc_name si) then 0 else handle_of (svclist s) nm) /\
    sent s' = sent s ++ (if si_handle si =? 0 then [] else [CRelease (si_handle si)]).
Proof.
  intros Hi Hin. unfold death_func. destruct (death_of _ si Hi Hin) as [i ->]. cbn [deref mbind res_bind snd].
  rewrite (svcinfo_death_ok s si Hi Hin). eexists. split; [done|].
  pose proof (in_lookup_name _ _ Hi Hin) as E.
  destruct (Z.eqb_spec (si_handle si) 0) as [Hz|Hz]; cbn [svclist sent].
  - split_and!; [done| |by rewrite app_nil_r]. intros nm. case_decide as En; [|done]. subst nm.
    unfold handle_of. by rewrite E.
  - split_and!; [by apply set_handle_inv|by apply handle_of_set|done].
Qed.
End Operations.

(** ** The handler on every message *)
Section Safety.
Variable malloc : list svcinfo -> option Z.
Hypothesis malloc_fresh : forall l p, malloc l = Some p -> p ∉ si_ptr <$> l.

Lemma mapped_str_at m p len : 0 <= len -> mapped m p ((len + 1) * 2) ->
  exists nm, str_at m p nm /\ len = Z.of_nat (length nm).
Proof.
  intros Hlen Hm. set (k := Z.to_nat len).
  assert (Hk : (len + 1) * 2 = Z.of_nat (2 * S k)) by (unfold k; lia). rewrite Hk in Hm.
  apply flat_read_mapped in Hm as [bs Hbs].
  pose proof (flat_read_length _ _ _ _ Hbs) as Hl. pose proof (flat_read_bytes _ _ _ _ Hbs) as Hb.
  destruct (bytes16_surj (S k) bs Hl Hb) as (us & -> & Hul & Hu).
  destruct (snoc_inv us k Hul) as (nm & z & -> & Hnm).
  exists nm. split; [|unfold k in *; lia]. apply Forall_app in Hu as [Hu _]. split; [done|]. exists z.
  by rewrite Hl.
Qed.

Lemma until_nul_stored nm : exists u, until_nul (nm ++ [0]) = Ok u /\ (length u <= length nm)%nat.
Proof.
  induction nm as [|x nm (u & E & Hu)]; cbn; [by exists []|].
  destruct (x =? 0); [exists []; split; [done|cbn; lia]|]. rewrite E. cbn. exists (x :: u). split; [done|cbn; lia].
Qed.

Lemma skip_in n l si : skip n l = Some si -> si ∈ l.
Proof.
  revert n. induction l as [|si' l IH]; intros n; cbn; [done|].
  destruct (0 <? n); [intros H; right; eauto|intros [= ->]; left].
Qed.

(** What a handler does to the memory, the reply and the registry. *)
Definition handled m b s (f : res (Z * binder_io * memory * svc_state)) : Prop :=
  exists r b' m' s', f = Ok (r, b', m', s') /\ (r = 0 \/ r = -1) /\ svc_inv (svclist s') /\
    bio_ok m' b' /\ inside b b' /\ writes_in b m m'.

Lemma handled_answer m b s r : svc_inv (svclist s) -> bio_ok m b -> r = 0 \/ r = -1 ->
  handled m b s (Ok (r, b, m, s)).
Proof. intros Hi Hb Hr. exists r, b, m, s. by split_and!. Qed.

Lemma handled_put m b s f : svc_inv (svclist s) -> put_ok m b f ->
  handled m b s ('(m, reply) ← f; Ok (0, reply, m, s)).
Proof.
  intros Hi (m' & b' & -> & H1 & H2 & H3). exists 0, b', m', s. split_and!; try done. by left.
Qed.

Lemma add_service_ok m s p len h a : svc_inv (svclist s) -> 0 <= len -> mapped m p ((len + 1) * 2) ->
  exists r s', do_add_service malloc m s p len h a = Ok (r, s') /\ svc_inv (svclist s').
Proof.
  intros Hi Hlen Hm. destruct (mapped_str_at m p len Hlen Hm) as (nm & Hs & ->).
  destruct (decide (h = 0 \/ Z.of_nat (length nm) = 0 \/ 127 < Z.of_nat (length nm))) as [Hb|Hg].
  { exists (-1), s. split; [by apply add_bad|done]. }
  destruct (lookup_name nm (svclist s)) as [si|] eqn:E.
  - destruct (add_existing malloc m s p nm h a si Hi Hs) as (s' & -> & R); [lia|lia|done|]. exists 0, s'. by destruct R.
  - destruct (malloc (svclist s)) as [q|] eqn:Em.
    + destruct (add_new malloc malloc_fresh m s p nm h a q Hi Hs) as (s' & -> & R); [lia|lia|done..|]. exists 0, s'. by destruct R.
    + exists (-1), s. split; [by apply add_no_memory|done].
Qed.

Lemma get_service_ok m s msg b : svc_inv (svclist s) -> bio_ok m msg -> bio_ok m b ->
  handled m b s (get_request m s msg b).
Proof.
  intros Hi Hm Hb. unfold get_request. destruct (bio_get_string16_ok m msg Hm) as (p & len & msg' & -> & _ & Hlen & Hp). cbn [mbind res_bind].
  destruct p as [p|]; [|apply handled_answer; auto].
  destruct (mapped_str_at m p len ltac:(lia) (Hp p eq_refl)) as (nm & Hs & ->).
  rewrite (do_find_service_spec m s p nm Hi Hs). cbn [mbind res_bind].
  destruct (_ =? 0); apply handled_put; auto using put_uint32_ok, put_ref_ok.
Qed.

Lemma add_request_ok m s msg b : svc_inv (svclist s) -> bio_ok m msg -> bio_ok m b ->
  handled m b s (add_request malloc m s msg b).
Proof.
  intros Hi Hm Hb. unfold add_request. destruct (bio_get_string16_ok m msg Hm) as (p & len & msg1 & -> & Hm1 & Hlen & Hp). cbn [mbind res_bind].
  destruct p as [p|]; [|apply handled_answer; auto].
  destruct (bio_get_ref_ok m msg1 Hm1) as (h & msg2 & -> & Hm2 & _). cbn [mbind res_bind].
  destruct (bio_get_uint32_ok m msg2 Hm2) as (al & msg3 & -> & _ & _). cbn [mbind res_bind].
  destruct (add_service_ok m s p len h (negb (al =? 0)) Hi ltac:(lia) (Hp p eq_refl)) as (r & s' & -> & Hi').
  cbn [mbind res_bind]. destruct (negb (r =? 0)).
  - destruct (handled_answer m b s' (-1) Hi' Hb (or_intror eq_refl)) as (r' & b' & m' & s'' & E & H). by exists r', b', m', s''.
  - destruct (handled_put m b s' _ Hi' (put_uint32_ok m b 0 Hb)) as (r' & b' & m' & s'' & E & H). by exists r', b', m', s''.
Qed.

Lemma list_request_ok m s msg b : svc_inv (svclist s) -> bio_ok m msg -> bio_ok m b ->
  handled m b s (list_request m s msg b).
Proof.
  intros Hi Hm Hb. unfold list_request. destruct (bio_get_uint32_ok m msg Hm) as (n & msg1 & -> & _ & _). cbn [mbind res_bind negb svc_can_list].
  destruct (skip n (svclist s)) as [si|] eqn:E; [|apply handled_answer; auto].
  apply skip_in in E. destruct (sv_ok _ Hi si E) as [_ [Hn _] _]. unfold bio_put_string16. rewrite Hn.
  destruct (until_nul_stored (svc_name si)) as (u & -> & _). cbn [mbind res_bind].
  apply handled_put; [done|]. by apply put_units_ok.
Qed.

(** C38: the handler is safe on every message: whatever the bytes of the message
    (strings cut short or with huge lengths, objects at undeclared offsets,
    unknown codes) it touches only the message, the reply buffer and its own
    records, never writes outside the reply buffer, returns 0 or -1 and keeps the
    registry well-formed. *)
Theorem svcmgr_handler_safe m s txn msg reply : svc_inv (svclist s) -> bio_ok m msg -> bio_ok m reply ->
  handled m reply s (svcmgr_handler malloc m s txn msg reply).
Proof.
  intros Hi Hm Hb. unfold svcmgr_handler. cbn zeta.
  destruct (negb (td_target txn =? _)); [apply handled_answer; auto|].
  destruct (_ =? PING_TRANSACTION); [apply handled_answer; auto|].
  destruct (bio_get_uint32_ok m msg Hm) as (sp & msg1 & -> & Hm1 & _). cbn [mbind res_bind].
  destruct (bio_get_string16_ok m msg1 Hm1) as (p & len & msg2 & -> & Hm2 & Hlen & Hp). cbn [mbind res_bind].
  destruct p as [p|]; [|apply handled_answer; auto]. specialize (Hp p eq_refl).
  destruct (mapped_str_at m p len ltac:(lia) Hp) as (nm & Hs & ->).
  destruct (str8_memory m p nm Hs) as [o Ho].
  assert (Hbad : exists bad, (if negb (Z.of_nat (length nm) =? Z.of_nat (length svcmgr_id)) then Ok true
     else a ← load m p (2 * length svcmgr_id); Ok (negb (bool_decide (a = bytes16 svcmgr_id)))) = Ok bad).
  { destruct (Z.eqb_spec (Z.of_nat (length nm)) (Z.of_nat (length svcmgr_id))) as [E|]; cbn [negb]; [|eauto].
    replace (2 * length svcmgr_id)%nat with (Z.to_nat (Z.of_nat (length nm) * 2)) by (cbn in *; lia).
    rewrite (str_at_load m p nm Hs). cbn [mbind res_bind]. eauto. }
  destruct Hbad as [bad ->]. cbn [mbind res_bind]. rewrite Ho. cbn [mbind res_bind].
  destruct bad; [apply handled_answer; auto|].
  destruct (_ || _); [by apply get_service_ok|].
  destruct (_ =? SVC_MGR_ADD_SERVICE); [by apply add_request_ok|].
  destruct (_ =? SVC_MGR_LIST_SERVICES); [by apply list_request_ok|]. apply handled_answer; auto.
Qed.
End Safety.

(** ** Across the encoded messages *)
Section Messages.
Variable malloc : list svcinfo -> option Z.
Hypothesis malloc_fresh : forall l p, malloc l = Some p -> p ∉ si_ptr <$> l.

(** Bytes of a string on the wire. *)
Definition size16 nm (pad : list Z) : Z := 4 + 2 * (Z.of_nat (length nm) + 1) + Z.of_nat (length pad).

(** A request: the policy word, the interface name, then [rest]. *)
Definition request (policy : Z) (pad rest : list Z) : list Z := le_bytes 4 policy ++ string16 svcmgr_id pad ++ rest.
Definition header_size (pad : list Z) : Z := 4 + size16 svcmgr_id pad.

Lemma handler_header m s txn msg reply policy pad rest :
  td_target txn = BINDER_SERVICE_MANAGER -> td_code txn ≠ PING_TRANSACTION ->
  0 <= policy < 2 ^ 32 -> padded svcmgr_id pad -> reads m msg (request policy pad rest) ->
  let msg' := advance (header_size pad) msg in
  reads m msg' rest /\ svcmgr_handler malloc m s txn msg reply =
    (let code := td_code txn in
      if (code =? SVC_MGR_GET_SERVICE) || (code =? SVC_MGR_CHECK_SERVICE) then get_request m s msg' reply
      else if code =? SVC_MGR_ADD_SERVICE then add_request malloc m s msg' reply
      else if code =? SVC_MGR_LIST_SERVICES then list_request m s msg' reply
      else Ok (-1, reply, m, s)).
Proof.
  intros Ht Hc Hp Hpad H. unfold svcmgr_handler. cbn zeta. rewrite Ht, (proj2 (Z.eqb_neq _ _) Hc). cbn [negb Z.eqb BINDER_SERVICE_MANAGER].
  destruct (get_uint32_reads m msg policy _ Hp H) as [-> H1]. cbn [mbind res_bind].
  destruct (get_string16_reads m _ svcmgr_id pad rest Hpad H1) as (-> & H2 & H3). cbn [mbind res_bind].
  rewrite advance_twice in *. fold (size16 svcmgr_id pad) in *. 
  replace (size16 svcmgr_id pad + 4) with (header_size pad) in * by (unfold header_size; lia).
  split; [done|]. rewrite Z.eqb_refl. cbn [negb]. unfold load.
  rewrite bytes16_app in H3. apply flat_read_app_Some in H3 as [H3 _].
  change (2 * length svcmgr_id)%nat with (length (bytes16 svcmgr_id)). rewrite H3. cbn [deref mbind res_bind].
  by rewrite bool_decide_true.
Qed.

Lemma wire_str_at m p nm : Forall is_unit nm -> flat_read m p (length (bytes16 (nm ++ [0]))) = Some (bytes16 (nm ++ [0])) ->
  str_at m p nm.
Proof. intros Hu H. split; [done|by exists 0]. Qed.

(** A lookup: the answer is an object with the registered handle, which the
    offset table lists, or the word 0 when there is none. *)
Definition lookup_answer m' (reply reply' : binder_io) d h : Prop :=
  if h =? 0 then writes m' reply' (d ++ le_bytes 4 0)
  else exists l : list Z, writes m' reply' (d ++ l) /\ length l = 24%nat /\
    fo_type (obj_of_bytes l) = BINDER_TYPE_HANDLE /\ fo_handle (obj_of_bytes l) = h /\
    flat_read m' (bio_offs reply) 8 = Some (le_bytes 8 (Z.of_nat (length d))).

Lemma get_request_answers m s msg reply d nm pad rest : svc_inv (svclist s) -> Forall is_unit nm -> padded nm pad ->
  reads m msg (string16 nm pad ++ rest) -> word 4 (handle_of (svclist s) nm) ->
  writes m reply d -> Z.of_nat (length d) < 2 ^ 64 -> 24 <= data_avail reply -> 1 <= offs_avail reply ->
  exists m' reply', get_request m s msg reply = Ok (0, reply', m', s) /\
    lookup_answer m' reply reply' d (handle_of (svclist s) nm).
Proof.
  intros Hi Hu Hp Hr Hw W Hd H1 H2. unfold get_request.
  destruct (get_string16_reads m msg nm pad rest Hp Hr) as (-> & _ & Hs). cbn [mbind res_bind].
  rewrite (do_find_service_spec m s _ nm Hi (wire_str_at m _ nm Hu Hs)). cbn [mbind res_bind].
  unfold lookup_answer. destruct (Z.eqb_spec (handle_of (svclist s) nm) 0) as [Hz|Hz].
  - destruct (put_uint32_writes m reply d 0 W) as (m' & -> & W'); [lia..|]. cbn. eauto.
  - destruct (put_ref_writes m reply d _ W Hd Hw Hz H1 H2) as (m' & l & -> & Hl & W' & Ty & Ha & T). cbn. eauto 10.
Qed.

(** The next object of [b] is declared in the offset table. *)
Definition declared m b : Prop :=
  find_offset m (bio_offs b) (u64 (bio_data b - data0 b)) (Z.to_nat (offs_avail b)) = Ok true.

Lemma add_request_registers m s msg reply d nm pad o allow rest : svc_inv (svclist s) ->
  Forall is_unit nm -> (1 <= length nm <= 127)%nat -> padded nm pad ->
  Forall2 word obj_widths [fo_type o; fo_flags o; fo_binder o; fo_cookie o] ->
  fo_type o = BINDER_TYPE_HANDLE -> fo_handle o ≠ 0 -> 0 <= allow < 2 ^ 32 ->
  reads m msg (string16 nm pad ++ obj_bytes o ++ le_bytes 4 allow ++ rest) ->
  declared m (advance (size16 nm pad) msg) ->
  (lookup_name nm (svclist s) = None -> is_Some (malloc (svclist s))) ->
  writes m reply d -> 4 <= data_avail reply ->
  exists m' reply' s', add_request malloc m s msg reply = Ok (0, reply', m', s') /\
    registered s nm (fo_handle o) s' /\ writes m' reply' (d ++ le_bytes 4 0).
Proof.
  intros Hi Hu Hl Hp Ho Hty Hh Ha Hr Hdecl Hmal W Hroom. unfold add_request.
  destruct (get_string16_reads m msg nm pad _ Hp Hr) as (-> & H1 & Hs). cbn [mbind res_bind].
  destruct (get_ref_reads m _ o _ Ho H1 Hdecl) as [-> H2]. cbn [mbind res_bind]. rewrite Hty, Z.eqb_refl.
  destruct (get_uint32_reads m _ allow rest Ha H2) as [-> _]. cbn [mbind res_bind].
  assert (Hadd : exists s', do_add_service malloc m s (bio_data msg + 4) (Z.of_nat (length nm)) (fo_handle o)
    (negb (allow =? 0)) = Ok (0, s') /\ registered s nm (fo_handle o) s').
  { pose proof (wire_str_at m _ nm Hu Hs) as Hat. destruct (lookup_name nm (svclist s)) as [si|] eqn:E.
    - by apply (add_existing malloc m s _ nm _ _ si).
    - destruct (Hmal eq_refl) as [q Hq]. by apply (add_new malloc malloc_fresh m s _ nm _ _ q). }
  destruct Hadd as (s' & -> & R). cbn [mbind res_bind Z.eqb negb].
  destruct (put_uint32_writes m reply d 0 W) as (m' & -> & W'); [lia..|]. cbn. eauto 10.
Qed.

(** C37: after an add-service message for a name has been handled, a get- or
    check-service message for the same name is answered with an object that
    carries the registered handle and that the offset table of the reply lists;
    a message for another name is answered as before. *)
Theorem add_then_get m1 s txn1 msg1 reply1 d1 policy1 pi1 nm pad1 o allow m2 txn2 msg2 reply2 d2 policy2 pi2 nm' pad2 rest1 rest2 :
  svc_inv (svclist s) -> (lookup_name nm (svclist s) = None -> is_Some (malloc (svclist s))) ->
  (* the first message: add the handle of [o] under [nm] *)
  td_target txn1 = BINDER_SERVICE_MANAGER -> td_code txn1 = SVC_MGR_ADD_SERVICE ->
  0 <= policy1 < 2 ^ 32 -> padded svcmgr_id pi1 -> Forall is_unit nm -> (1 <= length nm <= 127)%nat -> padded nm pad1 ->
  Forall2 word obj_widths [fo_type o; fo_flags o; fo_binder o; fo_cookie o] ->
  fo_type o = BINDER_TYPE_HANDLE -> fo_handle o ≠ 0 -> 0 <= allow < 2 ^ 32 ->
  reads m1 msg1 (request policy1 pi1 (string16 nm pad1 ++ obj_bytes o ++ le_bytes 4 allow ++ rest1)) ->
  declared m1 (advance (size16 nm pad1) (advance (header_size pi1) msg1)) ->
  writes m1 reply1 d1 -> 4 <= data_avail reply1 ->
  (* the second message, some time later: look [nm'] up *)
  td_target txn2 = BINDER_SERVICE_MANAGER -> td_code txn2 = SVC_MGR_GET_SERVICE \/ td_code txn2 = SVC_MGR_CHECK_SERVICE ->
  0 <= policy2 < 2 ^ 32 -> padded svcmgr_id pi2 -> Forall is_unit nm' -> padded nm' pad2 ->
  reads m2 msg2 (request policy2 pi2 (string16 nm' pad2 ++ rest2)) ->
  word 4 (handle_of (svclist s) nm') ->
  writes m2 reply2 d2 -> Z.of_nat (length d2) < 2 ^ 64 -> 24 <= data_avail reply2 -> 1 <= offs_avail reply2 ->
  exists m1' reply1' s' m2' reply2',
    svcmgr_handler malloc m1 s txn1 msg1 reply1 = Ok (0, reply1', m1', s') /\
    svcmgr_handler malloc m2 s' txn2 msg2 reply2 = Ok (0, reply2', m2', s') /\
    lookup_answer m2' reply2 reply2' d2 (if decide (nm' = nm) then fo_handle o else handle_of (svclist s) nm').
Proof.
  intros Hi Hmal T1 C1 P1 PI1 U1 L1 PD1 O Ty Hh Al R1 D1 W1 A1 T2 C2 P2 PI2 U2 PD2 R2 Hw W2 L2 A2 A2'.
  destruct (handler_header m1 s txn1 msg1 reply1 policy1 pi1
    (string16 nm pad1 ++ obj_bytes o ++ le_bytes 4 allow ++ rest1) T1) as [R1' ->]; [by rewrite C1|done..|].
  rewrite C1. cbn [Z.eqb orb SVC_MGR_ADD_SERVICE SVC_MGR_GET_SERVICE SVC_MGR_CHECK_SERVICE Pos.eqb].
  destruct (add_request_registers m1 s _ reply1 d1 nm pad1 o allow rest1 Hi U1 L1 PD1 O Ty Hh Al R1' D1 Hmal W1 A1)
    as (m1' & reply1' & s' & -> & [Ri Rh _] & _).
  exists m1', reply1', s'. rewrite <- Rh.
  destruct (handler_header m2 s' txn2 msg2 reply2 policy2 pi2 (string16 nm' pad2 ++ rest2) T2) as [R2' ->]; [destruct C2 as [-> | ->]; done|done..|].
  cbn zeta. replace ((td_code txn2 =? SVC_MGR_GET_SERVICE) || (td_code txn2 =? SVC_MGR_CHECK_SERVICE)) with true
    by (by destruct C2 as [-> | ->]).
  destruct (get_request_answers m2 s' _ reply2 d2 nm' pad2 rest2 Ri U2 PD2 R2') as (m2' & reply2' & -> & H); [|done..|].
  - rewrite Rh. case_decide; [|done]. unfold fo_handle, word. change (256 ^ Z.of_nat 4) with (2 ^ 32). zdiv.
  - exists m2', reply2'. by split.
Qed.

Lemma until_nul_app nm : Forall (fun x => x ≠ 0) nm -> until_nul (nm ++ [0]) = Ok nm.
Proof.
  induction 1 as [|x nm Hx H IH]; [done|]. cbn. rewrite (proj2 (Z.eqb_neq x 0)) by done. by rewrite IH.
Qed.

Lemma skip_lookup l (i : nat) : skip (Z.of_nat i) l = l !! i.
Proof.
  revert i. induction l as [|si l IH]; intros i; [done|]. cbn [skip]. destruct i as [|i]; [done|].
  rewrite (proj2 (Z.ltb_lt 0 _)) by lia. replace (Z.of_nat (S i) - 1) with (Z.of_nat i) by lia. apply IH.
Qed.

(** Bytes a string takes in a message. *)
Definition room16 nm : Z := 4 + align_word ((Z.of_nat (length nm) + 1) * 2).

(** A list-services message with index [i] is answered with the name of the
    [i]-th service, the newest first, and with -1 past the end.  When the reply
    buffer cannot hold the name, the answer still has status 0 but carries only the
    length, without the string. *)
Theorem list_services_names m s txn msg reply d policy pi (i : nat) rest :
  svc_inv (svclist s) -> td_target txn = BINDER_SERVICE_MANAGER -> td_code txn = SVC_MGR_LIST_SERVICES ->
  0 <= policy < 2 ^ 32 -> padded svcmgr_id pi -> Z.of_nat i < 2 ^ 32 ->
  reads m msg (request policy pi (le_bytes 4 (Z.of_nat i) ++ rest)) ->
  writes m reply d -> 4 <= data_avail reply ->
  match svclist s !! i with
  | None => svcmgr_handler malloc m s txn msg reply = Ok (-1, reply, m, s)
  | Some si => let nm := svc_name si in Forall (fun x => x ≠ 0) nm ->
      exists m' reply', svcmgr_handler malloc m s txn msg reply = Ok (0, reply', m', s) /\
        if room16 nm <=? data_avail reply then exists pad, padded nm pad /\ writes m' reply' (d ++ string16 nm pad)
        else writes m' reply' (d ++ le_bytes 4 (Z.of_nat (length nm)))
  end.
Proof.
  intros Hi T C P PI Hn R W Hroom.
  destruct (handler_header m s txn msg reply policy pi (le_bytes 4 (Z.of_nat i) ++ rest) T) as [R' ->]; [by rewrite C|done..|].
  rewrite C. cbn [Z.eqb orb SVC_MGR_ADD_SERVICE SVC_MGR_GET_SERVICE SVC_MGR_CHECK_SERVICE SVC_MGR_LIST_SERVICES Pos.eqb].
  unfold list_request. destruct (get_uint32_reads m _ (Z.of_nat i) rest ltac:(lia) R') as [-> _].
  cbn [mbind res_bind negb svc_can_list]. rewrite skip_lookup. destruct (svclist s !! i) as [si|] eqn:E; [|done].
  set (nm := svc_name si). intros Hnz. apply list_elem_of_lookup_2 in E. destruct (sv_ok _ Hi si E) as [Hlen [Hname Hl] _].
  unfold bio_put_string16. rewrite Hname. fold nm. rewrite until_nul_app by done. cbn [mbind res_bind].
  fold nm in Hl. unfold room16. destruct (Z.leb_spec (4 + align_word ((Z.of_nat (length nm) + 1) * 2)) (data_avail reply)).
  - destruct (put_units_writes m reply d nm W) as (m' & pad & -> & Hp & W'); [lia..|]. cbn. eauto 10.
  - destruct (put_units_short m reply d nm W) as (m' & -> & W'); [lia..|]. cbn. eauto 10.
Qed.
End Messages.

(** ** Concrete messages *)
Section Witnesses.
Definition bytes_at (p : Z) (bs : list Z) : memory := list_to_map (zip (seqZ p (Z.of_nat (length bs))) bs).

(** An allocator that returns fresh addresses. *)
Definition malloc_next l : option Z := Some (1 + foldr Z.max 0 (si_ptr <$> l)).
Lemma malloc_next_fresh l p : malloc_next l = Some p -> p ∉ si_ptr <$> l.
Proof.
  intros [= <-] H. assert (Hm : forall x, x ∈ si_ptr <$> l -> x <= foldr Z.max 0 (si_ptr <$> l)); [|specialize (Hm _ H); lia].
  clear H. induction (si_ptr <$> l) as [|y ys IH]; intros x Hx; [by apply elem_of_nil in Hx|].
  cbn. apply elem_of_cons in Hx as [->|Hx]; [lia|]. specialize (IH x Hx). lia.
Qed.

Definition ex_name : list Z := [97; 98].
Definition ex_pad : list Z := [0; 0].
Definition ex_obj : flat_binder_object := MkObj BINDER_TYPE_HANDLE 0 7 0.
Definition ex_add : list Z := request 0 ex_pad (string16 ex_name ex_pad ++ obj_bytes ex_obj ++ le_bytes 4 0 ++ []).
Definition ex_get : list Z := request 0 ex_pad (string16 ex_name ex_pad ++ []).
Definition ex_list : list Z := request 0 ex_pad (le_bytes 4 (Z.of_nat 0) ++ []).
(** The message at 1000, its offsets at 2000, the reply array at 3000. *)
Definition ex_memory (bs : list Z) : memory :=
  bytes_at 1000 bs ∪ bytes_at 2000 (le_bytes 8 76) ∪ bytes_at 3000 (replicate 256 0).
Definition ex_msg (bs : list Z) : binder_io := MkBio 1000 2000 (Z.of_nat (length bs)) 1 1000 2000 BIO_F_SHARED.
Definition ex_reply : binder_io := bio_init bio_zero 3000 256 4.
Definition ex_txn (code : Z) : binder_transaction_data := MkTxn 0 0 code 0 0 0 0 0 0 0.

Ltac by_reading := apply flat_read_mapped; eexists; vm_compute; reflexivity.

Lemma ex_reply_writes bs : flat_read (ex_memory bs) 3000 256 = Some (replicate 256 0) -> writes (ex_memory bs) ex_reply [].
Proof.
  intros H. assert (Hm : mapped (ex_memory bs) 3000 256) by (apply (flat_read_mapped _ 3000 256); eauto).
  change ex_reply with (MkBio 3032 3000 224 4 3032 3000 0).
  split; [|done|done|left; done]. split; [done|done|..]; apply (mapped_sub _ _ _ _ _ Hm); cbn; lia.
Qed.

(** A service in the list, with its record's invariant. *)
Definition ex_svc : svcinfo := MkSvc 1 7 false 2 [97; 98; 0].
Lemma ex_svc_inv : svc_inv [ex_svc].
Proof.
  split.
  - intros si ->%list_elem_of_singleton. split; [done|done|]. unfold is_unit. repeat constructor; done.
  - apply NoDup_singleton.
  - apply NoDup_singleton.
Qed.
Lemma svc_inv_nil : svc_inv [].
Proof. split; [by intros si ?%elem_of_nil|constructor..]. Qed.

Lemma ex_name_units : Forall is_unit ex_name.
Proof. unfold is_unit. repeat constructor; done. Qed.

(** Close a hypothesis about a concrete message. *)
Ltac by_message :=
  lazymatch goal with
  | |- reads _ _ _ => split; vm_compute; reflexivity
  | |- writes _ _ _ => apply ex_reply_writes; vm_compute; reflexivity
  | |- declared _ _ => vm_compute; reflexivity
  | |- padded _ _ => split; reflexivity
  | |- svc_inv _ => exact svc_inv_nil
  | |- Forall is_unit _ => exact ex_name_units
  | |- Forall2 _ _ _ => repeat constructor; done
  | |- _ -> is_Some _ => eauto
  | |- _ \/ _ => by left
  | |- (_ <= _ <= _)%nat => cbn; lia
  | |- Forall _ _ => repeat constructor; done
  | |- _ => done
  end.

Lemma do_add_service_registers_witness : exists s',
  do_add_service malloc_next (bytes_at 1000 (bytes16 (ex_name ++ [0]))) (MkState [ex_svc] []) 1000 2 9 false = Ok (0, s') /\
  sent s' = [CRelease 7; CAcquire 9; CRequestDeath 9 17].
Proof.
  destruct (do_add_service_registers malloc_next malloc_next_fresh (bytes_at 1000 (bytes16 (ex_name ++ [0])))
    (MkState [ex_svc] []) 1000 ex_name 9 false ex_svc_inv) as (s' & E & [_ _ (si & H1 & H2)]).
  - split; [apply ex_name_units|]. exists 0. vm_compute. reflexivity.
  - cbn. lia.
  - done.
  - eauto.
  - exists s'. split; [exact E|]. vm_compute in E. injection E as <-. reflexivity.
Defined.

Lemma death_func_unregisters_witness :
  exists s', death_func ∅ (MkState [ex_svc] []) 17 = Ok s' /\ handle_of (svclist s') ex_name = 0 /\ sent s' = [CRelease 7].
Proof.
  destruct (death_func_unregisters ∅ (MkState [ex_svc] []) ex_svc ex_svc_inv) as (s' & E & _ & H1 & H2).
  - left.
  - exists s'. split_and!; [exact E|rewrite H1; reflexivity|exact H2].
Defined.

Lemma svcmgr_handler_safe_witness :
  handled (ex_memory ex_add) ex_reply (MkState [] [])
    (svcmgr_handler malloc_next (ex_memory ex_add) (MkState [] []) (ex_txn SVC_MGR_ADD_SERVICE) (ex_msg ex_add) ex_reply).
Proof.
  apply (svcmgr_handler_safe malloc_next malloc_next_fresh).
  - exact svc_inv_nil.
  - split; [done|done| |].
    + change (mapped (ex_memory ex_add) 1000 (Z.of_nat 104)). by_reading.
    + change (mapped (ex_memory ex_add) 2000 (Z.of_nat 8)). by_reading.
  - apply ex_reply_writes. vm_compute. reflexivity.
Defined.

Lemma add_then_get_witness : exists m1' reply1' s' m2' reply2',
  svcmgr_handler malloc_next (ex_memory ex_add) (MkState [] []) (ex_txn SVC_MGR_ADD_SERVICE) (ex_msg ex_add) ex_reply =
    Ok (0, reply1', m1', s') /\
  svcmgr_handler malloc_next (ex_memory ex_get) s' (ex_txn SVC_MGR_GET_SERVICE) (ex_msg ex_get) ex_reply =
    Ok (0, reply2', m2', s') /\
  lookup_answer m2' ex_reply reply2' [] 7.
Proof.
  apply (add_then_get malloc_next malloc_next_fresh (ex_memory ex_add) (MkState [] []) (ex_txn SVC_MGR_ADD_SERVICE) (ex_msg ex_add)
    ex_reply [] 0 ex_pad ex_name ex_pad ex_obj 0 (ex_memory ex_get) (ex_txn SVC_MGR_GET_SERVICE) (ex_msg ex_get) ex_reply []
    0 ex_pad ex_name ex_pad [] []);
    by_message.
Defined.

Lemma list_services_names_witness : exists m' reply',
  svcmgr_handler malloc_next (ex_memory ex_list) (MkState [ex_svc] []) (ex_txn SVC_MGR_LIST_SERVICES) (ex_msg ex_list) ex_reply =
    Ok (0, reply', m', MkState [ex_svc] []) /\ exists pad, writes m' reply' (string16 ex_name pad).
Proof.
  destruct (list_services_names malloc_next (ex_memory ex_list) (MkState [ex_svc] []) (ex_txn SVC_MGR_LIST_SERVICES)
    (ex_msg ex_list) ex_reply [] 0 ex_pad 0%nat [] ex_svc_inv) as (m' & reply' & E & pad & _ & W); [by_message..|].
  exists m', reply'. split; [exact E|]. exists pad. exact W.
Defined.

(** A name of 110 units does not fit in the reply of the service manager's loop:
    224 bytes of data, 4 for the length and 224 for the units. *)
Example list_reply_room : data_avail ex_reply = 224 /\ room16 (replicate 109 65) = 224 /\ room16 (replicate 110 65) = 228.
Proof. done. Qed.
End Witnesses.
