(* ===== verification/Ashmem.v ===== *)
(** * Anonymous shared memory (driver/ashmem/ashmem.c)

    The state of the driver is one record: the areas, the ranges of unpinned
    pages and the files by pointer, the LRU list and its page count.  Each
    operation is the C function of the same name; the mutex makes every
    operation atomic. *)
From S2P Require Import Prelude UserMem.

(** ** Constants *)
Definition ASHMEM_NAME_LEN : Z := 256.

(** ["dev/ashmem/"] and ["dev/ashmem"], without the NUL. *)
Definition ASHMEM_NAME_PREFIX : list Z := [100; 101; 118; 47; 97; 115; 104; 109; 101; 109; 47].
Definition ASHMEM_NAME_DEF : list Z := [100; 101; 118; 47; 97; 115; 104; 109; 101; 109].
Definition ASHMEM_NAME_PREFIX_LEN : Z := 11.
Definition ASHMEM_FULL_NAME_LEN : Z := ASHMEM_NAME_LEN + ASHMEM_NAME_PREFIX_LEN.

Definition ASHMEM_NOT_PURGED : Z := 0.
Definition ASHMEM_WAS_PURGED : Z := 1.
Definition ASHMEM_IS_UNPINNED : Z := 0.
Definition ASHMEM_IS_PINNED : Z := 1.

Definition PROT_READ : Z := 1.
Definition PROT_WRITE : Z := 2.
Definition PROT_EXEC : Z := 4.
Definition PROT_MASK : Z := Z.lor (Z.lor PROT_EXEC PROT_READ) PROT_WRITE.
Definition VM_SHARED : Z := 8.
Definition VM_MAYREAD : Z := 16.
Definition VM_MAYWRITE : Z := 32.
Definition VM_MAYEXEC : Z := 64.
Definition READ_IMPLIES_EXEC : Z := 4194304.
Definition __GFP_FS : Z := 128.
Definition GFP_KERNEL : Z := 208.
Definition LONG_MAX : Z := 2 ^ 63 - 1.
Definition SHRINK_STOP : Z := 2 ^ 64 - 1.

(** [_IO], [_IOW], [_IOR] with type [__ASHMEMIOC]; on LP64 [size_t] and
    [unsigned long] have 8 bytes, [struct ashmem_pin] has 8. *)
Definition __ASHMEMIOC : Z := 119.
Definition _IOC (dir nr size : Z) : Z := dir * 2 ^ 30 + size * 2 ^ 16 + __ASHMEMIOC * 2 ^ 8 + nr.
Definition ASHMEM_SET_NAME : Z := _IOC 1 1 ASHMEM_NAME_LEN.
Definition ASHMEM_GET_NAME : Z := _IOC 2 2 ASHMEM_NAME_LEN.
Definition ASHMEM_SET_SIZE : Z := _IOC 1 3 8.
Definition ASHMEM_GET_SIZE : Z := _IOC 0 4 0.
Definition ASHMEM_SET_PROT_MASK : Z := _IOC 1 5 8.
Definition ASHMEM_GET_PROT_MASK : Z := _IOC 0 6 0.
Definition ASHMEM_PIN : Z := _IOC 1 7 8.
Definition ASHMEM_UNPIN : Z := _IOC 1 8 8.
Definition ASHMEM_GET_PIN_STATUS : Z := _IOC 0 9 0.
Definition ASHMEM_PURGE_ALL_CACHES : Z := _IOC 0 10 0.
(** ashmem.h: the codes a 32-bit process uses. *)
Definition COMPAT_ASHMEM_SET_SIZE : Z := _IOC 1 3 4.
Definition COMPAT_ASHMEM_SET_PROT_MASK : Z := _IOC 1 5 4.

(** ** State *)

(** [struct ashmem_area]; [name] has [ASHMEM_FULL_NAME_LEN] characters. *)
Record ashmem_area := MkArea {
  name : list Z;
  unpinned_list : list Z;
  file : option Z;
  size : Z;
  prot_mask : Z
}.

(** [struct ashmem_range] *)
Record ashmem_range := MkRange {
  asma : Z;
  pgstart : Z;
  pgend : Z;
  purged : Z
}.

(** [struct file], as far as the driver uses it. *)
Record vfile := MkFile {
  f_count : Z;
  f_pos : Z;
  private_data : option Z
}.
Abbreviation vfiles := (gmap Z vfile).

(** [struct vm_area_struct] *)
Record vm_area := MkVma {
  vm_flags : Z;
  vm_file : option Z
}.

Record ashmem := MkAshmem {
  areas : gmap Z ashmem_area;
  ranges : gmap Z ashmem_range;
  ashmem_lru_list : list Z;
  lru_count : Z;
  files : vfiles;
  punched : list (Z * Z * Z)
}.

Section Setters.
Variable st : ashmem.
Definition set_areas x := MkAshmem x (ranges st) (ashmem_lru_list st) (lru_count st) (files st) (punched st).
Definition set_ranges x := MkAshmem (areas st) x (ashmem_lru_list st) (lru_count st) (files st) (punched st).
Definition set_lru l n := MkAshmem (areas st) (ranges st) l n (files st) (punched st).
Definition set_files x := MkAshmem (areas st) (ranges st) (ashmem_lru_list st) (lru_count st) x (punched st).
Definition set_punched x := MkAshmem (areas st) (ranges st) (ashmem_lru_list st) (lru_count st) (files st) x.
Definition put_area p a := set_areas (<[p := a]> (areas st)).
Definition put_range p r := set_ranges (<[p := r]> (ranges st)).
Definition put_file p f := set_files (<[p := f]> (files st)).
End Setters.

Section AreaSetters.
Variable a : ashmem_area.
Definition with_name x := MkArea x (unpinned_list a) (file a) (size a) (prot_mask a).
Definition with_unpinned_list x := MkArea (name a) x (file a) (size a) (prot_mask a).
Definition with_file x := MkArea (name a) (unpinned_list a) x (size a) (prot_mask a).
Definition with_size x := MkArea (name a) (unpinned_list a) (file a) x (prot_mask a).
Definition with_prot_mask x := MkArea (name a) (unpinned_list a) (file a) (size a) x.
End AreaSetters.

Definition with_pages (s e : Z) (r : ashmem_range) : ashmem_range := MkRange (asma r) s e (purged r).
Definition with_purged (p : Z) (r : ashmem_range) : ashmem_range := MkRange (asma r) (pgstart r) (pgend r) p.
Definition with_count (n : Z) (f : vfile) : vfile := MkFile n (f_pos f) (private_data f).
Definition with_pos (n : Z) (f : vfile) : vfile := MkFile (f_count f) n (private_data f).
Definition with_private (p : option Z) (f : vfile) : vfile := MkFile (f_count f) (f_pos f) p.

(** ** Code of the kernel that the driver calls *)
Class Vfs := {
  generic_file_open : Z -> Z;
  shmem_file_setup : list Z -> Z -> Z -> vfiles -> (Z + Z) * vfiles;
  shmem_zero_setup : vm_area -> vfiles -> Z * vm_area * vfiles;
  __vfs_read : Z -> Z -> Z -> Z -> vfiles -> Z * Z * vfiles;
  vfs_llseek : Z -> Z -> Z -> vfiles -> Z * vfiles;
  calc_vm_prot_bits : Z -> Z;
  _calc_vm_trans : Z -> Z -> Z -> Z
}.

(** ** Ranges *)
Definition range_size (r : ashmem_range) : Z := u64 (pgend r - pgstart r + 1).
Definition range_on_lru (r : ashmem_range) : bool := purged r =? ASHMEM_NOT_PURGED.
Definition page_range_subsumes_range (r : ashmem_range) (s e : Z) : bool := (s <=? pgstart r) && (pgend r <=? e).
Definition page_range_subsumed_by_range (r : ashmem_range) (s e : Z) : bool := (pgstart r <=? s) && (e <=? pgend r).
Definition page_in_range (r : ashmem_range) (p : Z) : bool := (pgstart r <=? p) && (p <=? pgend r).
Definition page_range_in_range (r : ashmem_range) (s e : Z) : bool :=
  page_in_range r s || page_in_range r e || page_range_subsumes_range r s e.
Definition range_before_page (r : ashmem_range) (p : Z) : bool := pgend r <? p.

Definition lru_add (st : ashmem) (r : Z) : res ashmem :=
  rg ← deref (ranges st !! r);
  Ok (set_lru st (ashmem_lru_list st ++ [r]) (u64 (lru_count st + range_size rg))).

Definition lru_del (st : ashmem) (r : Z) : res ashmem :=
  rg ← deref (ranges st !! r);
  Ok (set_lru st (list_del r (ashmem_lru_list st)) (u64 (lru_count st - range_size rg))).

(** [list_add_tail(&x->unpinned, &prev->unpinned)]: before [prev], or at the
    end when [prev] is the list head ([None]). *)
Fixpoint list_add_before (prev : option Z) (x : Z) (l : list Z) : list Z :=
  match l with
  | [] => [x]
  | y :: l' => if decide (prev = Some y) then x :: y :: l' else y :: list_add_before prev x l'
  end.

(** [zalloc] is what [kmem_cache_zalloc] returns. *)
Definition range_alloc (zalloc : option Z) (st : ashmem) (a : Z) (prev_range : option Z)
    (prg start end_ : Z) : res (Z * ashmem) :=
  match zalloc with
  | None => Ok (- ENOMEM, st)
  | Some r =>
      let rg := MkRange a start end_ prg in
      let st := put_range st r rg in
      ar ← deref (areas st !! a);
      let st := put_area st a (with_unpinned_list ar (list_add_before prev_range r (unpinned_list ar))) in
      st ← (if range_on_lru rg then lru_add st r else Ok st);
      Ok (0, st)
  end.

Definition range_del (st : ashmem) (r : Z) : res ashmem :=
  rg ← deref (ranges st !! r);
  ar ← deref (areas st !! asma rg);
  let st := put_area st (asma rg) (with_unpinned_list ar (list_del r (unpinned_list ar))) in
  st ← (if range_on_lru rg then lru_del st r else Ok st);
  Ok (set_ranges st (delete r (ranges st))).

Definition range_shrink (st : ashmem) (r start end_ : Z) : res ashmem :=
  rg ← deref (ranges st !! r);
  let pre := range_size rg in
  let rg := with_pages start end_ rg in
  let st := put_range st r rg in
  Ok (if range_on_lru rg
      then set_lru st (ashmem_lru_list st) (u64 (lru_count st - (pre - range_size rg)))
      else st).

(** ** Pinning *)

(** The loop of [ashmem_pin] over the entries of the list as the loop finds
    them: the body removes the current entry or adds one before it, so the
    saved [next] pointers walk the rest of the initial list. *)
Fixpoint pin_loop (zalloc : option Z) (a s e : Z) (todo : list Z) (ret : Z) (st : ashmem)
    : res (Z * ashmem) :=
  match todo with
  | [] => Ok (ret, st)
  | r :: next =>
      rg ← deref (ranges st !! r);
      if range_before_page rg s then Ok (ret, st) else
      if negb (page_range_in_range rg s e) then pin_loop zalloc a s e next ret st else
      let ret := Z.lor ret (purged rg) in
      if page_range_subsumes_range rg s e then
        st ← range_del st r; pin_loop zalloc a s e next ret st
      else if s <=? pgstart rg then
        st ← range_shrink st r (u64 (e + 1)) (pgend rg); pin_loop zalloc a s e next ret st
      else if pgend rg <=? e then
        st ← range_shrink st r (pgstart rg) (u64 (s - 1)); pin_loop zalloc a s e next ret st
      else
        '(_, st) ← range_alloc zalloc st a (Some r) (purged rg) (u64 (e + 1)) (pgend rg);
        st ← range_shrink st r (pgstart rg) (u64 (s - 1));
        Ok (ret, st)
  end.

Definition ashmem_pin (zalloc : option Z) (st : ashmem) (a s e : Z) : res (Z * ashmem) :=
  ar ← deref (areas st !! a);
  pin_loop zalloc a s e (unpinned_list ar) ASHMEM_NOT_PURGED st.

(** How one pass of the loop of [ashmem_unpin] ends: the pages are unpinned
    already, an overlapping range is to be merged, or the insertion point. *)
Inductive unpin_pass : Type :=
| AlreadyUnpinned
| MergeWith (r : Z) (rg : ashmem_range)
| InsertAt (prev : option Z).

Fixpoint unpin_scan (s e : Z) (todo : list Z) (st : ashmem) : res unpin_pass :=
  match todo with
  | [] => Ok (InsertAt None)
  | r :: next =>
      rg ← deref (ranges st !! r);
      if range_before_page rg s then Ok (InsertAt (Some r)) else
      if page_range_subsumed_by_range rg s e then Ok AlreadyUnpinned else
      if page_range_in_range rg s e then Ok (MergeWith r rg) else
      unpin_scan s e next st
  end.

(** [goto restart] after a merge; every merge removes a range, so the list's
    length bounds the restarts. *)
Fixpoint unpin_loop (fuel : nat) (zalloc : option Z) (st : ashmem) (a prg s e : Z) : res (Z * ashmem) :=
  match fuel with
  | O => Fault OOPS
  | S fuel =>
      ar ← deref (areas st !! a);
      pass ← unpin_scan s e (unpinned_list ar) st;
      match pass with
      | AlreadyUnpinned => Ok (0, st)
      | MergeWith r rg =>
          st ← range_del st r;
          unpin_loop fuel zalloc st a (Z.lor prg (purged rg)) (Z.min (pgstart rg) s) (Z.max (pgend rg) e)
      | InsertAt prev => range_alloc zalloc st a prev prg s e
      end
  end.

Definition ashmem_unpin (zalloc : option Z) (st : ashmem) (a s e : Z) : res (Z * ashmem) :=
  ar ← deref (areas st !! a);
  unpin_loop (S (length (unpinned_list ar))) zalloc st a ASHMEM_NOT_PURGED s e.

Fixpoint pin_status_loop (s e : Z) (todo : list Z) (st : ashmem) : res Z :=
  match todo with
  | [] => Ok ASHMEM_IS_PINNED
  | r :: next =>
      rg ← deref (ranges st !! r);
      if range_before_page rg s then Ok ASHMEM_IS_PINNED else
      if page_range_in_range rg s e then Ok ASHMEM_IS_UNPINNED else
      pin_status_loop s e next st
  end.

Definition ashmem_get_pin_status (st : ashmem) (a s e : Z) : res Z :=
  ar ← deref (areas st !! a);
  pin_status_loop s e (unpinned_list ar) st.

(** The checks of [ashmem_pin_unpin] on the copied [struct ashmem_pin]; all of
    [offset], [len] and their sum are [__u32]. *)
Definition pin_range (sz offset len : Z) : option (Z * Z) :=
  let len := if len =? 0 then u32 (u64 (page_align sz) - offset) else len in
  if negb (Z.land (Z.lor offset len) (Z.lnot PAGE_MASK) =? 0) then None else
  if 2 ^ 32 - 1 - offset <? len then None else
  if u64 (page_align sz) <? u32 (offset + len) then None else
  let pgstart := offset / PAGE_SIZE in
  Some (pgstart, u64 (pgstart + len / PAGE_SIZE - 1)).

Section Handlers.
Context {M : Type} `{U : UserOps M} `{V : Vfs}.

Definition ashmem_pin_unpin (zalloc : option Z) (um : M) (st : ashmem) (a cmd p : Z) : res (Z * ashmem) :=
  ar ← deref (areas st !! a);
  match file ar with None => Ok (- EINVAL, st) | Some _ =>
  match copy_from_user um p 8 with None => Ok (- EFAULT, st) | Some pin =>
  match pin_range (size ar) (le_val (take 4 pin)) (le_val (drop 4 pin)) with
  | None => Ok (- EINVAL, st)
  | Some (s, e) =>
      if cmd =? ASHMEM_PIN then ashmem_pin zalloc st a s e
      else if cmd =? ASHMEM_UNPIN then ashmem_unpin zalloc st a s e
      else if cmd =? ASHMEM_GET_PIN_STATUS then r ← ashmem_get_pin_status st a s e; Ok (r, st)
      else Ok (- EINVAL, st)
  end end end.

(** ** The shrinker *)

(** [loff_t start = range->pgstart * PAGE_SIZE; .. end - start] *)
Definition hole_of (rg : ashmem_range) : Z * Z :=
  let start := s64 (u64 (pgstart rg * PAGE_SIZE)) in
  let end_ := s64 (u64 ((pgend rg + 1) * PAGE_SIZE)) in
  (start, end_ - start).

(** [nr_to_scan] is unsigned: [--nr <= 0] holds when it was 1. *)
Fixpoint shrink_loop (todo : list Z) (nr freed : Z) (st : ashmem) : res (Z * Z * ashmem) :=
  match todo with
  | [] => Ok (freed, nr, st)
  | r :: next =>
      rg ← deref (ranges st !! r);
      ar ← deref (areas st !! asma rg);
      f ← deref (file ar);
      let '(start, len) := hole_of rg in
      let st := set_punched st (punched st ++ [(f, start, len)]) in
      let st := put_range st r (with_purged ASHMEM_WAS_PURGED rg) in
      st ← lru_del st r;
      let freed := u64 (freed + range_size rg) in
      let nr := u64 (nr - 1) in
      if nr <=? 0 then Ok (freed, nr, st) else shrink_loop next nr freed st
  end.

Definition ashmem_shrink_scan (st : ashmem) (gfp_mask nr_to_scan : Z) : res (Z * Z * ashmem) :=
  if Z.land gfp_mask __GFP_FS =? 0 then Ok (SHRINK_STOP, nr_to_scan, st)
  else shrink_loop (ashmem_lru_list st) nr_to_scan 0 st.

Definition ashmem_shrink_count (st : ashmem) : Z := lru_count st.

(** ** Files *)
Definition get_file (st : ashmem) (f : Z) : res ashmem :=
  vf ← deref (files st !! f); Ok (put_file st f (with_count (f_count vf + 1) vf)).
Definition fput (st : ashmem) (f : Z) : res ashmem :=
  vf ← deref (files st !! f); Ok (put_file st f (with_count (f_count vf - 1) vf)).

(** [file->private_data] and the area it points to. *)
Definition file_area (st : ashmem) (filp : Z) : res (Z * ashmem_area) :=
  vf ← deref (files st !! filp);
  a ← deref (private_data vf);
  ar ← deref (areas st !! a);
  Ok (a, ar).

(** An array initialised with [kmem_cache_zalloc] and the [memcpy] of the prefix. *)
Definition fresh_name : list Z :=
  ASHMEM_NAME_PREFIX ++ replicate (Z.to_nat ASHMEM_NAME_LEN) 0.

Definition ashmem_open (zalloc : option Z) (st : ashmem) (filp : Z) : res (Z * ashmem) :=
  let ret := generic_file_open filp in
  if negb (ret =? 0) then Ok (ret, st) else
  match zalloc with
  | None => Ok (- ENOMEM, st)
  | Some a =>
      vf ← deref (files st !! filp);
      let st := put_area st a (MkArea fresh_name [] None 0 PROT_MASK) in
      Ok (0, put_file st filp (with_private (Some a) vf))
  end.

Fixpoint release_loop (todo : list Z) (st : ashmem) : res ashmem :=
  match todo with
  | [] => Ok st
  | r :: next => st ← range_del st r; release_loop next st
  end.

Definition ashmem_release (st : ashmem) (filp : Z) : res (Z * ashmem) :=
  '(a, ar) ← file_area st filp;
  st ← release_loop (unpinned_list ar) st;
  st ← match file ar with Some f => fput st f | None => Ok st end;
  Ok (0, set_areas st (delete a (areas st))).

(** The result is returned through an [int]. *)
Definition ashmem_read (st : ashmem) (filp buf len pos : Z) : res (Z * Z * ashmem) :=
  '(_, ar) ← file_area st filp;
  if size ar =? 0 then Ok (0, pos, st) else
  match file ar with None => Ok (- EBADF, pos, st) | Some f =>
  let '(r, pos', fs) := __vfs_read f buf len pos (files st) in
  let ret := s32 r in
  let st := set_files st fs in
  if 0 <=? ret then
    vf ← deref (files st !! f); Ok (ret, pos', put_file st f (with_pos pos' vf))
  else Ok (ret, pos', st)
  end.

Definition ashmem_llseek (st : ashmem) (filp offset origin : Z) : res (Z * ashmem) :=
  '(_, ar) ← file_area st filp;
  if size ar =? 0 then Ok (- EINVAL, st) else
  match file ar with None => Ok (- EBADF, st) | Some f =>
  let '(r, fs) := vfs_llseek f offset origin (files st) in
  let ret := s32 r in
  let st := set_files st fs in
  if ret <? 0 then Ok (ret, st) else
  bf ← deref (files st !! f);
  vf ← deref (files st !! filp);
  Ok (ret, put_file st filp (with_pos (f_pos bf) vf))
  end.

Definition calc_vm_may_flags (prot : Z) : Z :=
  Z.lor (Z.lor (_calc_vm_trans prot PROT_READ VM_MAYREAD) (_calc_vm_trans prot PROT_WRITE VM_MAYWRITE))
    (_calc_vm_trans prot PROT_EXEC VM_MAYEXEC).

Definition ashmem_mmap (st : ashmem) (filp : Z) (vma : vm_area) : res (Z * vm_area * ashmem) :=
  '(a, ar) ← file_area st filp;
  if size ar =? 0 then Ok (- EINVAL, vma, st) else
  if negb (Z.land (Z.land (vm_flags vma) (Z.lnot (calc_vm_prot_bits (prot_mask ar))))
      (calc_vm_prot_bits PROT_MASK) =? 0)
  then Ok (- EPERM, vma, st) else
  let vma := MkVma (Z.land (vm_flags vma) (Z.lnot (calc_vm_may_flags (u64 (Z.lnot (prot_mask ar)))))) (vm_file vma) in
  let '(setup, st) :=
    match file ar with
    | Some f => (inr f, st)
    | None =>
        let nm := if default 0 (name ar !! Z.to_nat ASHMEM_NAME_PREFIX_LEN) =? 0
                  then ASHMEM_NAME_DEF ++ [0] else name ar in
        let '(vmfile, fs) := shmem_file_setup nm (size ar) (vm_flags vma) (files st) in
        let st := set_files st fs in
        match vmfile with
        | inl err => (inl err, st)
        | inr f => (inr f, put_area st a (with_file ar (Some f)))
        end
    end in
  match setup with
  | inl err => Ok (s32 err, vma, st)
  | inr f =>
      st ← get_file st f;
      let '(ret, vma, st) :=
        if negb (Z.land (vm_flags vma) VM_SHARED =? 0) then
          let '(ret, vma, fs) := shmem_zero_setup vma (files st) in (ret, vma, set_files st fs)
        else (0, vma, st) in
      if negb (ret =? 0) then st ← fput st f; Ok (ret, vma, st) else
      st ← match vm_file vma with Some old => fput st old | None => Ok st end;
      Ok (0, MkVma (vm_flags vma) (Some f), st)
  end.

(** ** Names and protection *)
Definition set_prot_mask (personality : Z) (st : ashmem) (a prot : Z) : res (Z * ashmem) :=
  ar ← deref (areas st !! a);
  if negb (Z.land (prot_mask ar) prot =? prot) then Ok (- EINVAL, st) else
  let prot := if negb (Z.land prot PROT_READ =? 0) && negb (Z.land personality READ_IMPLIES_EXEC =? 0)
              then Z.lor prot PROT_EXEC else prot in
  Ok (0, put_area st a (with_prot_mask ar prot)).

(** The C string at the start of an array: its characters before the NUL. *)
Fixpoint c_string (l : list Z) : option (list Z) :=
  match l with
  | [] => None
  | b :: l => if b =? 0 then Some [] else cons b <$> c_string l
  end.

(** [strcpy(dst + off, src)] into an array: writing past its end is a fault. *)
Definition strcpy (dst : list Z) (off : nat) (src : list Z) : res (list Z) :=
  s ← deref (c_string src);
  if decide (off + length s + 1 <= length dst)%nat
  then Ok (take off dst ++ s ++ [0] ++ drop (off + length s + 1) dst)
  else Fault OOPS.

Definition set_name (um : M) (st : ashmem) (a p : Z) : res (Z * ashmem) :=
  let '(len, local_name) := strncpy_from_user um p ASHMEM_NAME_LEN in
  if len <? 0 then Ok (len, st) else
  let local_name := if len =? ASHMEM_NAME_LEN
                    then <[Z.to_nat (ASHMEM_NAME_LEN - 1) := 0]> local_name else local_name in
  ar ← deref (areas st !! a);
  match file ar with
  | Some _ => Ok (- EINVAL, st)
  | None =>
      nm ← strcpy (name ar) (Z.to_nat ASHMEM_NAME_PREFIX_LEN) local_name;
      Ok (0, put_area st a (with_name ar nm))
  end.

(** [memcpy] of [len] bytes into [local_name]: more than its length is a fault. *)
Definition get_name (um : M) (st : ashmem) (a p : Z) : res (Z * M) :=
  ar ← deref (areas st !! a);
  let suffix := drop (Z.to_nat ASHMEM_NAME_PREFIX_LEN) (name ar) in
  local_name ← (if default 0 (head suffix) =? 0 then Ok (ASHMEM_NAME_DEF ++ [0]) else
    s ← deref (c_string suffix); Ok (s ++ [0]));
  if ASHMEM_NAME_LEN <? Z.of_nat (length local_name) then Fault OOPS else
  let '(ok, um) := copy_to_user um p local_name in
  Ok (if (ok : bool) then 0 else - EFAULT, um).

(** ** The ioctl entry points *)
Record task := MkTask {
  personality : Z;
  capable_sys_admin : bool
}.

Definition ashmem_ioctl (zalloc : option Z) (current : task) (um : M) (st : ashmem)
    (filp cmd arg : Z) : res (Z * ashmem * M) :=
  '(a, ar) ← file_area st filp;
  if cmd =? ASHMEM_SET_NAME then '(r, st) ← set_name um st a arg; Ok (r, st, um)
  else if cmd =? ASHMEM_GET_NAME then '(r, um) ← get_name um st a arg; Ok (r, st, um)
  else if cmd =? ASHMEM_SET_SIZE then
    match file ar with
    | None => Ok (0, put_area st a (with_size ar arg), um)
    | Some _ => Ok (- EINVAL, st, um)
    end
  else if cmd =? ASHMEM_GET_SIZE then Ok (s64 (size ar), st, um)
  else if cmd =? ASHMEM_SET_PROT_MASK then
    '(r, st) ← set_prot_mask (personality current) st a arg; Ok (r, st, um)
  else if cmd =? ASHMEM_GET_PROT_MASK then Ok (s64 (prot_mask ar), st, um)
  else if (cmd =? ASHMEM_PIN) || (cmd =? ASHMEM_UNPIN) || (cmd =? ASHMEM_GET_PIN_STATUS) then
    '(r, st) ← ashmem_pin_unpin zalloc um st a cmd arg; Ok (r, st, um)
  else if cmd =? ASHMEM_PURGE_ALL_CACHES then
    if capable_sys_admin current then
      let ret := ashmem_shrink_count st in
      '(_, _, st) ← ashmem_shrink_scan st GFP_KERNEL LONG_MAX;
      Ok (s64 ret, st, um)
    else Ok (- EPERM, st, um)
  else Ok (- ENOTTY, st, um).

Definition compat_ashmem_ioctl (zalloc : option Z) (current : task) (um : M) (st : ashmem)
    (filp cmd arg : Z) : res (Z * ashmem * M) :=
  let cmd := if cmd =? COMPAT_ASHMEM_SET_SIZE then ASHMEM_SET_SIZE
             else if cmd =? COMPAT_ASHMEM_SET_PROT_MASK then ASHMEM_SET_PROT_MASK else cmd in
  ashmem_ioctl zalloc current um st filp cmd arg.
End Handlers.
