(* ===== verification/AshmemInv.v ===== *)
(** * Well-formed ashmem states and the primitive range operations

    [wf]: every area's list holds exactly its ranges, in descending order of
    pages and without overlap; the LRU list holds exactly the ranges that were
    not purged, and [lru_count] counts their pages.  The abstract view of an
    area is the set [unpinned_page] of its unpinned pages, and which of them
    were purged ([purged_page]). *)
From S2P Require Import Prelude UserMem Ashmem.

Implicit Types (st : ashmem) (a r s e p : Z) (rg : ashmem_range) (ar : ashmem_area).

(** ** Invariant *)
Definition above (h : gmap Z ashmem_range) (r s : Z) : Prop :=
  forall rg sg, h !! r = Some rg -> h !! s = Some sg -> pgend sg < pgstart rg.

(** A range may be empty ([pgend] = [pgstart - 1]): [ASHMEM_UNPIN] of nothing
    at the end of an area makes one. *)
Definition good_range (rg : ashmem_range) : Prop :=
  0 <= pgstart rg <= pgend rg + 1 /\ 0 <= pgend rg < 2 ^ 64 /\ (purged rg = 0 \/ purged rg = 1).

Definition lru_pages (h : gmap Z ashmem_range) (r : Z) : Z :=
  match h !! r with Some rg => range_size rg | None => 0 end.

Record wf (st : ashmem) : Prop := {
  wf_lists : forall a ar, areas st !! a = Some ar -> NoDup (unpinned_list ar) /\
    StronglySorted (above (ranges st)) (unpinned_list ar) /\
    forall r, r ∈ unpinned_list ar <-> exists rg, ranges st !! r = Some rg /\ asma rg = a;
  wf_owner : forall r rg, ranges st !! r = Some rg ->
    exists ar, areas st !! asma rg = Some ar /\ is_Some (file ar);
  wf_ranges : forall r rg, ranges st !! r = Some rg -> good_range rg;
  wf_lru : NoDup (ashmem_lru_list st) /\
    forall r, r ∈ ashmem_lru_list st <-> exists rg, ranges st !! r = Some rg /\ purged rg = 0;
  wf_count : lru_count st = u64 (Zsum (lru_pages (ranges st)) (ashmem_lru_list st))
}.

(** ** Abstract view *)

(** The pages of the ranges of [a] whose purge status satisfies [c]. *)
Definition pages_with (c : Z -> Prop) st a p : Prop :=
  exists r rg, ranges st !! r = Some rg /\ asma rg = a /\ c (purged rg) /\ pgstart rg <= p <= pgend rg.
Definition unpinned_page : ashmem -> Z -> Z -> Prop := pages_with (fun _ => True).
Definition purged_page : ashmem -> Z -> Z -> Prop := pages_with (fun n => n = 1).

(** [st'] differs from [st] in the ranges of area [a] only. *)
Definition touches a st st' : Prop :=
  (exists ar l, areas st !! a = Some ar /\ areas st' = <[a := with_unpinned_list ar l]> (areas st)) /\
  files st' = files st /\ punched st' = punched st /\
  forall r rg, asma rg ≠ a -> ranges st' !! r = Some rg <-> ranges st !! r = Some rg.

Lemma touches_refl a st : is_Some (areas st !! a) -> touches a st st.
Proof.
  intros [ar H]. split_and!; [|done..]. exists ar, (unpinned_list ar).
  split; [done|]. rewrite insert_id; [done|]. by destruct ar.
Qed.

Lemma touches_trans a st1 st2 st3 : touches a st1 st2 -> touches a st2 st3 -> touches a st1 st3.
Proof.
  intros ((ar & l & H1 & H2) & F1 & P1 & R1) ((ar' & l' & H3 & H4) & F2 & P2 & R2).
  split_and!; [|congruence..|].
  - exists ar, l'. split; [done|]. rewrite H4, H2 in *. rewrite lookup_insert_eq in H3.
    injection H3 as <-. by rewrite insert_insert_eq.
  - intros r rg Hn. rewrite R2, R1 by done. done.
Qed.

Lemma touches_area a st st' ar : touches a st st' -> areas st !! a = Some ar ->
  exists l, areas st' !! a = Some (with_unpinned_list ar l).
Proof.
  intros ((ar' & l & H1 & H2) & _) H. rewrite H in H1. injection H1 as ->. exists l.
  by rewrite H2, lookup_insert_eq.
Qed.

(** The pages of other areas do not change. *)
Lemma touches_other a st st' b c p : touches a st st' -> b ≠ a ->
  pages_with c st' b p <-> pages_with c st b p.
Proof.
  intros (_ & _ & _ & R) Hb. unfold pages_with.
  split; intros (r & rg & H & <- & H'); exists r, rg; (split; [by apply R|done]).
Qed.

(** ** Ordered lists under change of the ranges *)
Lemma above_ext h h' l : (forall r, r ∈ l -> h !! r = h' !! r) ->
  StronglySorted (above h) l -> StronglySorted (above h') l.
Proof.
  intros H. apply StronglySorted_ext. intros x y Hx Hy Hxy rg sg.
  rewrite <- !H by done. apply Hxy.
Qed.

Lemma lru_pages_ext h h' l : (forall r, r ∈ l -> h !! r = h' !! r) ->
  Zsum (lru_pages h) l = Zsum (lru_pages h') l.
Proof. intros H. apply Zsum_ext. intros x Hx. unfold lru_pages. by rewrite H. Qed.

Lemma member_range st a ar r : wf st -> areas st !! a = Some ar -> r ∈ unpinned_list ar ->
  exists rg, ranges st !! r = Some rg /\ asma rg = a.
Proof. intros H Ha Hr. by apply (wf_lists st H a ar Ha). Qed.

(** ** [range_del] *)
Section RangeDel.
Variables (st : ashmem) (r : Z) (rg : ashmem_range) (ar : ashmem_area).
Hypotheses (W : wf st) (Hr : ranges st !! r = Some rg) (Ha : areas st !! asma rg = Some ar).

Definition deleted : ashmem :=
  MkAshmem (<[asma rg := with_unpinned_list ar (list_del r (unpinned_list ar))]> (areas st))
    (delete r (ranges st)) (list_del r (ashmem_lru_list st))
    (if range_on_lru rg then u64 (lru_count st - range_size rg) else lru_count st)
    (files st) (punched st).

Lemma range_del_eq : range_del st r = Ok deleted.
Proof.
  unfold range_del, lru_del. rewrite Hr. cbn. rewrite Ha. cbn.
  destruct (range_on_lru rg) eqn:E; cbn; [rewrite Hr; cbn; unfold deleted; by rewrite E|].
  unfold deleted. rewrite E, (list_del_notin r (ashmem_lru_list st)); [done|].
  destruct (wf_lru st W) as [_ H]. rewrite H. intros (rg' & H1 & H2).
  rewrite Hr in H1. injection H1 as <-. unfold range_on_lru in E. rewrite H2 in E. done.
Qed.

Lemma deleted_wf : wf deleted.
Proof.
  split; cbn.
  - intros b br Hb. destruct (decide (b = asma rg)) as [->|Hne].
    + rewrite lookup_insert_eq in Hb. injection Hb as <-. cbn.
      destruct (wf_lists st W _ _ Ha) as (Hnd & Hs & Hm). split_and!.
      * by apply NoDup_list_del.
      * apply (above_ext (ranges st)); [|by apply StronglySorted_list_del].
        intros q [_ Hq]%elem_of_list_del. by rewrite lookup_delete_ne.
      * intros q. rewrite elem_of_list_del, Hm. split.
        -- intros [(qg & Hq & E) Hn]. exists qg. by rewrite lookup_delete_ne.
        -- intros (qg & [Hn Hq]%lookup_delete_Some & E). eauto.
    + rewrite lookup_insert_ne in Hb by done.
      destruct (wf_lists st W _ _ Hb) as (Hnd & Hs & Hm).
      assert (Hnr : r ∉ unpinned_list br). { rewrite Hm. intros (rg' & H1 & H2). congruence. }
      split_and!; [done| |].
      * apply (above_ext (ranges st)); [|done]. intros q Hq.
        rewrite lookup_delete_ne; [done|]. intros ->. done.
      * intros q. rewrite Hm. split.
        -- intros (qg & Hq & E). exists qg. rewrite lookup_delete_ne; [done|]. intros ->. congruence.
        -- intros (qg & [Hn Hq]%lookup_delete_Some & E). eauto.
  - intros q qg [_ Hq]%lookup_delete_Some. destruct (wf_owner st W _ _ Hq) as (br & Hb & Hf).
    destruct (decide (asma qg = asma rg)) as [E|Hne].
    + rewrite E, lookup_insert_eq. rewrite E, Ha in Hb. injection Hb as ->. eauto.
    + rewrite lookup_insert_ne by done. eauto.
  - intros q qg [_ Hq]%lookup_delete_Some. by apply (wf_ranges st W q).
  - destruct (wf_lru st W) as [Hnd Hm]. split; [by apply NoDup_list_del|].
    intros q. rewrite elem_of_list_del, Hm. split.
    + intros [(qg & Hq & E) Hn]. exists qg. by rewrite lookup_delete_ne.
    + intros (qg & [Hn Hq]%lookup_delete_Some & E). eauto.
  - destruct (wf_lru st W) as [Hnd Hm].
    rewrite (lru_pages_ext _ (ranges st)) by (intros q [_ Hq]%elem_of_list_del; by rewrite lookup_delete_ne).
    rewrite (wf_count st W). destruct (range_on_lru rg) eqn:E.
    + rewrite Zsum_list_del; [|done|].
      * rewrite u64_sub_l. unfold lru_pages at 3. by rewrite Hr.
      * apply Hm. exists rg. split; [done|]. unfold range_on_lru in E. by apply Z.eqb_eq in E.
    + rewrite list_del_notin; [done|]. rewrite Hm. intros (rg' & H1 & H2).
      rewrite Hr in H1. injection H1 as <-. unfold range_on_lru in E. by rewrite H2 in E.
Qed.

Lemma deleted_touches : touches (asma rg) st deleted.
Proof.
  split_and!; [|done..|].
  - by exists ar, (list_del r (unpinned_list ar)).
  - intros q qg Hn. cbn. destruct (decide (q = r)) as [->|].
    + rewrite lookup_delete_eq, Hr. split; congruence.
    + by rewrite lookup_delete_ne.
Qed.
End RangeDel.

(** ** [range_shrink] *)
Section RangeShrink.
Variables (st : ashmem) (r s e : Z) (rg : ashmem_range) (ar : ashmem_area).
Hypotheses (W : wf st) (Hr : ranges st !! r = Some rg) (Ha : areas st !! asma rg = Some ar)
  (Hlo : pgstart rg <= s) (Hhi : e <= pgend rg) (Hse : s <= e + 1) (He : 0 <= e).

Definition shrunk : ashmem :=
  MkAshmem (areas st) (<[r := with_pages s e rg]> (ranges st)) (ashmem_lru_list st)
    (if range_on_lru rg then u64 (lru_count st - (range_size rg - range_size (with_pages s e rg)))
     else lru_count st) (files st) (punched st).

Lemma range_shrink_eq : range_shrink st r s e = Ok shrunk.
Proof.
  unfold range_shrink. rewrite Hr. cbn. unfold shrunk.
  change (range_on_lru (with_pages s e rg)) with (range_on_lru rg). by destruct (range_on_lru rg).
Qed.

Lemma shrunk_member (P : ashmem_range -> Prop) q :
  (forall qg, P (with_pages s e qg) <-> P qg) ->
  (exists qg, <[r := with_pages s e rg]> (ranges st) !! q = Some qg /\ P qg) <->
  (exists qg, ranges st !! q = Some qg /\ P qg).
Proof.
  intros HP. destruct (decide (q = r)) as [->|Hne].
  - rewrite lookup_insert_eq, Hr. split; intros (qg & [= <-] & H); eexists; (split; [done|]); by eapply HP.
  - by rewrite lookup_insert_ne.
Qed.

Lemma shrunk_wf : wf shrunk.
Proof.
  split; cbn.
  - intros b br Hb. destruct (wf_lists st W _ _ Hb) as (Hnd & Hs & Hm). split_and!; [done| |].
    + revert Hs. apply StronglySorted_ext. intros x y _ _ Hxy xg yg.
      rewrite !lookup_insert_Some. intros [[<- <-]|[_ Hx]] [[<- <-]|[Hn Hy]]; cbn.
      * specialize (Hxy rg rg Hr Hr). lia.
      * specialize (Hxy rg yg Hr Hy). lia.
      * specialize (Hxy xg rg Hx Hr). lia.
      * by apply Hxy.
    + intros q. rewrite Hm. symmetry. by apply shrunk_member.
  - intros q qg. rewrite lookup_insert_Some. intros [[<- <-]|[_ Hq]]; [exact (wf_owner st W r rg Hr)|by apply (wf_owner st W q)].
  - intros q qg. rewrite lookup_insert_Some. intros [[<- <-]|[_ Hq]]; [|by apply (wf_ranges st W q)].
    pose proof (wf_ranges st W r rg Hr) as (? & ? & ?). unfold good_range. cbn. lia.
  - destruct (wf_lru st W) as [Hnd Hm]. split; [done|]. intros q. rewrite Hm. symmetry. by apply shrunk_member.
  - destruct (wf_lru st W) as [Hnd Hm]. rewrite (wf_count st W). destruct (range_on_lru rg) eqn:E.
    + assert (Hin : r ∈ ashmem_lru_list st).
      { apply Hm. exists rg. split; [done|]. unfold range_on_lru in E. by apply Z.eqb_eq in E. }
      apply list_elem_of_split in Hin as (l1 & l2 & El). rewrite El in Hnd |- *.
      pose proof Hnd as (_ & N1 & [N2 _]%NoDup_cons)%NoDup_app.
      rewrite !Zsum_app. cbn [Zsum]. unfold lru_pages at 2 5. rewrite lookup_insert_eq, Hr.
      rewrite !(lru_pages_ext (<[r := _]> _) (ranges st)) by (intros q Hq; rewrite lookup_insert_ne; set_solver).
      rewrite u64_sub_l. f_equal. lia.
    + f_equal. apply lru_pages_ext. intros q Hq. rewrite lookup_insert_ne; [done|]. intros <-.
      apply Hm in Hq as (qg & Hq & E'). rewrite Hr in Hq. injection Hq as <-.
      unfold range_on_lru in E. by rewrite E' in E.
Qed.

Lemma shrunk_touches : touches (asma rg) st shrunk.
Proof.
  split_and!; [|done..|].
  - exists ar, (unpinned_list ar). split; [done|]. cbn. rewrite insert_id; [done|]. by destruct ar.
  - intros q qg Hn. cbn. rewrite lookup_insert_Some. split; [|].
    + intros [[<- <-]|[_ ?]]; [by cbn in Hn|done].
    + intros Hq. right. split; [|done]. intros <-. congruence.
Qed.
End RangeShrink.

(** ** [range_alloc] *)
Section RangeAlloc.
Variables (st : ashmem) (a x prg s e : Z) (ar : ashmem_area) (prev : option Z) (l1 l2 : list Z).
Hypotheses (W : wf st) (Ha : areas st !! a = Some ar) (Hf : is_Some (file ar)) (Hx : ranges st !! x = None)
  (Hl : unpinned_list ar = l1 ++ l2) (Hprev : prev = head l2)
  (Hg : good_range (MkRange a s e prg))
  (Habove : forall r rg, r ∈ l1 -> ranges st !! r = Some rg -> e < pgstart rg)
  (Hbelow : forall r rg, r ∈ l2 -> ranges st !! r = Some rg -> pgend rg < s).

Definition inserted : ashmem :=
  MkAshmem (<[a := with_unpinned_list ar (l1 ++ x :: l2)]> (areas st))
    (<[x := MkRange a s e prg]> (ranges st))
    (if prg =? 0 then ashmem_lru_list st ++ [x] else ashmem_lru_list st)
    (if prg =? 0 then u64 (lru_count st + range_size (MkRange a s e prg)) else lru_count st)
    (files st) (punched st).

Lemma list_add_before_app (l1' l2' : list Z) : NoDup (l1' ++ l2') ->
  list_add_before (head l2') x (l1' ++ l2') = l1' ++ x :: l2'.
Proof.
  induction l1' as [|y l1' IH]; cbn; intros Hnd.
  - destruct l2' as [|z l2']; cbn; [done|]. by rewrite decide_True.
  - apply NoDup_cons in Hnd as [Hy Hnd]. rewrite decide_False.
    + by rewrite IH.
    + destruct l2' as [|z l2']; cbn; [done|]. intros [= ->]. set_solver.
Qed.

Lemma range_alloc_eq : range_alloc (Some x) st a prev prg s e = Ok (0, inserted).
Proof.
  unfold range_alloc, lru_add, inserted. cbn. rewrite Ha. cbn.
  rewrite Hprev, Hl, list_add_before_app by (rewrite <- Hl; by apply (wf_lists st W a)).
  unfold range_on_lru, ASHMEM_NOT_PURGED. cbn.
  destruct (prg =? 0); cbn; [|done]. by rewrite lookup_insert_eq.
Qed.

Lemma fresh_not_listed b br : areas st !! b = Some br -> x ∉ unpinned_list br.
Proof. intros Hb. rewrite (proj2 (proj2 (wf_lists st W _ _ Hb))). intros (rg & H & _). congruence. Qed.

Lemma inserted_member (P : ashmem_range -> Prop) q :
  (exists qg, <[x := MkRange a s e prg]> (ranges st) !! q = Some qg /\ P qg) <->
  (exists qg, ranges st !! q = Some qg /\ P qg) \/ (q = x /\ P (MkRange a s e prg)).
Proof.
  split.
  - intros (qg & [[<- <-]|[_ ?]]%lookup_insert_Some & HP); eauto.
  - intros [(qg & Hq & HP)|[-> HP]].
    + exists qg. rewrite lookup_insert_ne; [done|]. intros <-. congruence.
    + eexists. by rewrite lookup_insert_eq.
Qed.

Lemma inserted_list : NoDup (l1 ++ x :: l2) /\
  StronglySorted (above (<[x := MkRange a s e prg]> (ranges st))) (l1 ++ x :: l2).
Proof.
  destruct (wf_lists st W _ _ Ha) as (Hnd & Hs & Hm). pose proof (fresh_not_listed _ _ Ha) as Hn.
  rewrite Hl in Hnd, Hs, Hn. split.
  - rewrite <- Permutation_middle. by constructor.
  - assert (Hs' : StronglySorted (above (<[x := MkRange a s e prg]> (ranges st))) (l1 ++ l2)).
    { revert Hs. apply above_ext. intros q Hq. rewrite lookup_insert_ne; [done|]. intros <-. done. }
    apply StronglySorted_app_iff in Hs' as (S1 & S2 & S3).
    assert (Hxl : forall q, q ∈ l1 ++ l2 -> <[x := MkRange a s e prg]> (ranges st) !! q = ranges st !! q).
    { intros q Hq. rewrite lookup_insert_ne; [done|]. intros <-. done. }
    apply StronglySorted_app_iff. split_and!; [done|apply StronglySorted_cons_iff; split; [|done]|].
    + intros q Hq xg qg. rewrite lookup_insert_eq, Hxl by set_solver. intros [= <-] Hqg. cbn. eauto.
    + intros q y Hq [->|Hy]%elem_of_cons; [|auto]. intros qg xg.
      rewrite lookup_insert_eq, Hxl by set_solver. intros Hqg [= <-]. cbn. eauto.
Qed.

Lemma inserted_wf : wf inserted.
Proof.
  split; cbn.
  - intros b br Hb. destruct (decide (b = a)) as [->|Hne].
    + rewrite lookup_insert_eq in Hb. injection Hb as <-. cbn.
      destruct (wf_lists st W _ _ Ha) as (_ & _ & Hm). rewrite Hl in Hm.
      split_and!; [apply inserted_list..|]. intros q. rewrite inserted_member, <- Hm. cbn. set_solver.
    + rewrite lookup_insert_ne in Hb by done. destruct (wf_lists st W _ _ Hb) as (Hnd & Hs & Hm).
      split_and!; [done| |].
      * revert Hs. apply above_ext. intros q Hq. rewrite lookup_insert_ne; [done|]. intros <-.
        by apply (fresh_not_listed _ _ Hb).
      * intros q. rewrite inserted_member, <- Hm. cbn. naive_solver.
  - intros q qg. rewrite lookup_insert_Some. intros [[<- <-]|[_ Hq]].
    + cbn. rewrite lookup_insert_eq. eauto.
    + destruct (wf_owner st W _ _ Hq) as (br & Hb & Hbf). destruct (decide (asma qg = a)) as [->|].
      * rewrite lookup_insert_eq. eauto.
      * rewrite lookup_insert_ne by done. eauto.
  - intros q qg. rewrite lookup_insert_Some. intros [[<- <-]|[_ Hq]]; [done|by apply (wf_ranges st W q)].
  - destruct (wf_lru st W) as [Hnd Hm].
    assert (Hn : x ∉ ashmem_lru_list st). { rewrite Hm. intros (rg & H & _). congruence. }
    destruct (Z.eqb_spec prg 0) as [Hp|Hp].
    + split.
      * rewrite <- Permutation_cons_append. by constructor.
      * intros q. rewrite inserted_member, elem_of_app, list_elem_of_singleton, Hm. cbn. naive_solver.
    + split; [done|]. intros q. rewrite inserted_member, Hm. cbn. naive_solver.
  - destruct (wf_lru st W) as [Hnd Hm].
    assert (Hn : x ∉ ashmem_lru_list st). { rewrite Hm. intros (rg & H & _). congruence. }
    assert (E : Zsum (lru_pages (<[x := MkRange a s e prg]> (ranges st))) (ashmem_lru_list st) =
      Zsum (lru_pages (ranges st)) (ashmem_lru_list st)).
    { apply lru_pages_ext. intros q Hq. rewrite lookup_insert_ne; [done|]. intros <-. done. }
    rewrite (wf_count st W). destruct (prg =? 0); [|by rewrite E].
    rewrite Zsum_app, E. cbn. unfold lru_pages at 3. rewrite lookup_insert_eq, u64_add_l. f_equal. lia.
Qed.

Lemma inserted_touches : touches a st inserted.
Proof.
  split_and!; [|done..|].
  - by exists ar, (l1 ++ x :: l2).
  - intros q qg Hn. cbn. rewrite lookup_insert_Some. split.
    + intros [[<- <-]|[_ ?]]; done.
    + intros Hq. right. split; [|done]. intros <-. congruence.
Qed.
End RangeAlloc.

(** ** Pages under the primitive operations *)
Section PageEffects.
Implicit Types (c : Z -> Prop).

(** A page is in one range of an area at most. *)
Lemma ranges_disjoint st r1 r2 rg1 rg2 p : wf st ->
  ranges st !! r1 = Some rg1 -> ranges st !! r2 = Some rg2 -> asma rg1 = asma rg2 ->
  pgstart rg1 <= p <= pgend rg1 -> pgstart rg2 <= p <= pgend rg2 -> r1 = r2.
Proof.
  intros W H1 H2 E P1 P2. destruct (wf_owner st W _ _ H1) as (ar & Ha & _).
  destruct (wf_lists st W _ _ Ha) as (Hnd & Hs & Hm).
  assert (M1 : r1 ∈ unpinned_list ar) by (apply Hm; eauto).
  assert (M2 : r2 ∈ unpinned_list ar) by (apply Hm; eauto).
  apply list_elem_of_split in M1 as (l1 & l2 & El). rewrite El in M2, Hs.
  apply StronglySorted_app_iff in Hs as (_ & [S2 _]%StronglySorted_cons_iff & S3).
  apply elem_of_app in M2 as [M2|[->|M2]%elem_of_cons]; [|done|].
  - specialize (S3 r2 r1 M2 ltac:(left) _ _ H2 H1). lia.
  - specialize (S2 r2 M2 _ _ H1 H2). lia.
Qed.

Lemma pages_deleted st r rg ar c b p : wf st -> ranges st !! r = Some rg ->
  pages_with c (deleted st r rg ar) b p <->
  pages_with c st b p /\ ~ (b = asma rg /\ pgstart rg <= p <= pgend rg).
Proof.
  intros W Hr. unfold pages_with. cbn. split.
  - intros (q & qg & [Hn Hq]%lookup_delete_Some & <- & Hc & Hp). split; [eauto 10|].
    intros [E Hp']. apply Hn. by apply (ranges_disjoint st r q rg qg p).
  - intros [(q & qg & Hq & <- & Hc & Hp) Hn]. exists q, qg. split; [|done].
    rewrite lookup_delete_ne; [done|]. intros <-. rewrite Hr in Hq. injection Hq as <-. tauto.
Qed.

Lemma pages_shrunk st r s e rg c b p : wf st -> ranges st !! r = Some rg ->
  pgstart rg <= s -> e <= pgend rg ->
  pages_with c (shrunk st r s e rg) b p <->
  pages_with c st b p /\ ~ (b = asma rg /\ pgstart rg <= p <= pgend rg /\ ~ s <= p <= e).
Proof.
  intros W Hr Hs He. unfold pages_with. cbn. split.
  - intros (q & qg & [[<- <-]|[Hn Hq]]%lookup_insert_Some & <- & Hc & Hp); cbn in *.
    + split; [|lia]. exists r, rg. split_and!; try done; lia.
    + split; [eauto 10|]. intros (E & Hp' & _). apply Hn. by apply (ranges_disjoint st r q rg qg p).
  - intros [(q & qg & Hq & <- & Hc & Hp) Hn]. destruct (decide (q = r)) as [->|].
    + rewrite Hr in Hq. injection Hq as <-. exists r, (with_pages s e rg). rewrite lookup_insert_eq. cbn.
      split_and!; try done; lia.
    + exists q, qg. by rewrite lookup_insert_ne.
Qed.

Lemma pages_inserted st a x prg s e ar l1 l2 c b p : ranges st !! x = None ->
  pages_with c (inserted st a x prg s e ar l1 l2) b p <->
  pages_with c st b p \/ (b = a /\ c prg /\ s <= p <= e).
Proof.
  intros Hx. unfold pages_with. cbn. split.
  - intros (q & qg & [[<- <-]|[Hn Hq]]%lookup_insert_Some & <- & Hc & Hp); cbn in *; eauto 10.
  - intros [(q & qg & Hq & <- & Hc & Hp)|(-> & Hc & Hp)].
    + exists q, qg. rewrite lookup_insert_ne; [done|]. intros <-. congruence.
    + exists x, (MkRange a s e prg). by rewrite lookup_insert_eq.
Qed.
End PageEffects.

(** The booleans of the source as inequalities. *)
Lemma range_before_page_spec rg s : range_before_page rg s = true <-> pgend rg < s.
Proof. apply Z.ltb_lt. Qed.
Lemma subsumes_spec rg s e : page_range_subsumes_range rg s e = true <-> s <= pgstart rg /\ pgend rg <= e.
Proof. unfold page_range_subsumes_range. rewrite andb_true_iff, !Z.leb_le. done. Qed.
Lemma subsumed_by_spec rg s e : page_range_subsumed_by_range rg s e = true <-> pgstart rg <= s /\ e <= pgend rg.
Proof. unfold page_range_subsumed_by_range. rewrite andb_true_iff, !Z.leb_le. done. Qed.
Lemma in_range_spec rg s e : page_range_in_range rg s e = true <->
  pgstart rg <= s <= pgend rg \/ pgstart rg <= e <= pgend rg \/ (s <= pgstart rg /\ pgend rg <= e).
Proof.
  unfold page_range_in_range, page_in_range. rewrite !orb_true_iff, subsumes_spec, !andb_true_iff, !Z.leb_le. tauto.
Qed.

(** On ranges with pages this is the overlap of the two intervals. *)
Lemma in_range_overlap rg s e : pgstart rg <= pgend rg -> s <= e ->
  page_range_in_range rg s e = true <-> exists p, s <= p <= e /\ pgstart rg <= p <= pgend rg.
Proof.
  intros H1 H2. rewrite in_range_spec. split.
  - intros H. exists (Z.max s (pgstart rg)). lia.
  - intros (p & ? & ?). lia.
Qed.
