(* ===== verification/AshmemPin.v ===== *)
(** * Correctness of pinning and unpinning *)
From S2P Require Import Prelude UserMem Ashmem AshmemInv.

Implicit Types (st : ashmem) (a r s e p : Z) (rg : ashmem_range) (ar : ashmem_area) (c : Z -> Prop).

(** ** Splitting a range *)

(** The two halves of case 4 of [ashmem_pin] commute. *)
Lemma alloc_shrink_commute st a x r rg prg s1 e1 s2 e2 : ranges st !! r = Some rg -> x ≠ r ->
  ('(_, st') ← range_alloc (Some x) st a (Some r) prg s2 e2; range_shrink st' r s1 e1) =
  (st' ← range_shrink st r s1 e1; '(_, st'') ← range_alloc (Some x) st' a (Some r) prg s2 e2; Ok st'').
Proof.
  intros Hr Hx. unfold range_alloc, range_shrink, lru_add. rewrite Hr. cbn.
  change (range_on_lru (with_pages s1 e1 rg)) with (range_on_lru rg).
  destruct (areas st !! a) as [ar|] eqn:Ha; cbn; [|destruct (range_on_lru rg); cbn; by rewrite Ha].
  destruct (range_on_lru (MkRange a s2 e2 prg)), (range_on_lru rg) eqn:El; cbn;
    rewrite ?Ha; cbn; rewrite ?lookup_insert_eq; cbn; rewrite ?lookup_insert_ne by done; rewrite ?Hr; cbn;
    change (range_on_lru (with_pages s1 e1 rg)) with (range_on_lru rg); rewrite ?El; cbn;
    unfold put_area, put_range, set_lru, set_areas, set_ranges; cbn; rewrite ?lookup_insert_eq; cbn;
    unfold put_area, put_range, set_lru, set_areas, set_ranges; cbn;
    rewrite (insert_insert_ne (ranges st) r x) by done; try done.
  rewrite ?u64_add_l, ?u64_sub_l. do 3 f_equal. lia.
Qed.

Section Pin.
Variables (zalloc : option Z) (a s e : Z).
Hypotheses (Hs : 0 <= s) (Hse : s <= e + 1) (He : 0 <= e < 2 ^ 64).

(** What a request for [s .. e] has to keep: the pages outside of it. *)
Definition cut (P : Z -> Prop) (p : Z) : Prop := P p /\ ~ s <= p <= e.

(** The effect of pinning: the pages of [s .. e] go; if a split could not
    allocate its upper half, pages of that half may go too. *)
Record pinned_from st st' : Prop := {
  pf_touches : touches a st st';
  pf_gone : forall c p, pages_with c st' a p -> cut (pages_with c st a) p;
  pf_kept : forall c p, is_Some zalloc -> cut (pages_with c st a) p -> pages_with c st' a p
}.

Lemma pinned_from_step st1 st2 st3 :
  touches a st1 st2 ->
  (forall c p, pages_with c st2 a p -> pages_with c st1 a p) ->
  (forall c p, cut (pages_with c st1 a) p -> pages_with c st2 a p) ->
  pinned_from st2 st3 -> pinned_from st1 st3.
Proof.
  intros T H1 H2 [T' G K]. split.
  - by apply (touches_trans a st1 st2).
  - intros c p H. apply G in H as [H Hn]. split; [by apply H1|done].
  - intros c p Hz H. apply K; [done|]. split; [by apply H2|apply H].
Qed.

(** A range of the list none of whose pages is asked for. *)
Definition apart st r : Prop :=
  forall rg, ranges st !! r = Some rg -> forall p, pgstart rg <= p <= pgend rg -> ~ s <= p <= e.

Lemma pinned_done st ar : wf st -> areas st !! a = Some ar ->
  (forall r, r ∈ unpinned_list ar -> apart st r) -> pinned_from st st.
Proof.
  intros W Ha H. split.
  - apply touches_refl. eauto.
  - intros c p Hp. split; [done|]. destruct Hp as (r & rg & Hr & E & _ & Hp).
    assert (Hin : r ∈ unpinned_list ar) by (apply (wf_lists st W a ar Ha); eauto).
    exact (H r Hin rg Hr p Hp).
  - intros c p _ [Hp _]. done.
Qed.

(** Past the first range below [s] every range is below [s]. *)
Lemma below_apart st ar r rg done todo : wf st -> areas st !! a = Some ar ->
  unpinned_list ar = done ++ r :: todo -> ranges st !! r = Some rg -> pgend rg < s ->
  (forall q, q ∈ done -> apart st q) -> forall q, q ∈ unpinned_list ar -> apart st q.
Proof.
  intros W Ha El Hr Hlt Hd q Hq. rewrite El in Hq.
  apply elem_of_app in Hq as [Hq|[->|Hq]%elem_of_cons]; [auto| |].
  - intros rg' Hr'. rewrite Hr in Hr'. injection Hr' as <-. lia.
  - intros qg Hqg p Hp. destruct (wf_lists st W a ar Ha) as (_ & Hsrt & _). rewrite El in Hsrt.
    apply StronglySorted_app_iff in Hsrt as (_ & [Hb _]%StronglySorted_cons_iff & _).
    specialize (Hb q Hq _ _ Hr Hqg). pose proof (wf_ranges st W _ _ Hr) as (? & _). lia.
Qed.

(** The purge status the loop collects. *)
Definition hits st (todo : list Z) : Prop :=
  exists r rg, r ∈ todo /\ ranges st !! r = Some rg /\ page_range_in_range rg s e = true /\ s <= pgend rg /\ purged rg = 1.

Definition flag (ret : Z) st (todo : list Z) (ret' : Z) : Prop :=
  (ret' = 0 \/ ret' = 1) /\ (ret' = 1 <-> ret = 1 \/ hits st todo).

Lemma flag_end ret st todo : (ret = 0 \/ ret = 1) ->
  (forall r rg, r ∈ todo -> ranges st !! r = Some rg -> pgend rg < s) ->
  flag ret st todo ret.
Proof.
  intros Hr H. split; [done|]. split; [auto|]. intros [?|(r & rg & H1 & H2 & _ & H3 & _)]; [done|].
  specialize (H r rg H1 H2). lia.
Qed.

Lemma flag_step ret r rg todo st st' ret' : wf st -> (ret = 0 \/ ret = 1) -> ranges st !! r = Some rg ->
  s <= pgend rg ->
  (forall q, q ∈ todo -> ranges st' !! q = ranges st !! q) ->
  flag (if page_range_in_range rg s e then Z.lor ret (purged rg) else ret) st' todo ret' ->
  flag ret st (r :: todo) ret'.
Proof.
  intros W Hret Hr Hle Hext [H1 H2]. split; [done|]. rewrite H2. unfold hits.
  destruct (wf_ranges st W r rg Hr) as (_ & _ & Hp).
  assert (E : (exists q qg, q ∈ todo /\ ranges st' !! q = Some qg /\ page_range_in_range qg s e = true /\ s <= pgend qg /\ purged qg = 1) <->
    (exists q qg, q ∈ todo /\ ranges st !! q = Some qg /\ page_range_in_range qg s e = true /\ s <= pgend qg /\ purged qg = 1)).
  { split; intros (q & qg & Hq & Hl & H); exists q, qg; (split; [done|]); by rewrite Hext in * || rewrite <- Hext in *. }
  rewrite E. clear E H1 H2 Hext. split.
  - intros [H|(q & qg & Hq & H)]; [|right; exists q, qg; split; [by right|done]].
    destruct (page_range_in_range rg s e) eqn:Ei; [|by left].
    destruct Hret as [->| ->]; [|by left]. right. exists r, rg. split_and!; [left|done|done|done|].
    by rewrite Z.lor_0_l in H.
  - intros [->|(q & qg & [->|Hq]%elem_of_cons & Hl & Hi & Hb & H)].
    + left. destruct (page_range_in_range rg s e); [|done]. by destruct Hp as [-> | ->].
    + rewrite Hr in Hl. injection Hl as <-. rewrite Hi, H. left. by destruct Hret as [-> | ->].
    + right. eauto 10.
Qed.
(** *** The steps of the loop *)
Definition pin_ok done todo ret st : Prop := forall ar, wf st -> areas st !! a = Some ar ->
  unpinned_list ar = done ++ todo -> (forall x, zalloc = Some x -> ranges st !! x = None) ->
  (ret = 0 \/ ret = 1) -> (forall q, q ∈ done -> apart st q) ->
  exists ret' st', pin_loop zalloc a s e todo ret st = Ok (ret', st') /\ wf st' /\
    pinned_from st st' /\ flag ret st todo ret'.

Section Step.
Variables (st : ashmem) (ar : ashmem_area) (done todo : list Z) (r : Z) (rg : ashmem_range) (ret : Z).
Hypotheses (W : wf st) (Ha : areas st !! a = Some ar) (El : unpinned_list ar = done ++ r :: todo)
  (Hz : forall x, zalloc = Some x -> ranges st !! x = None) (Hret : ret = 0 \/ ret = 1)
  (Hd : forall q, q ∈ done -> apart st q) (Hr : ranges st !! r = Some rg) (Hrg : asma rg = a)
  (Hb : s <= pgend rg) (IH : forall done ret st, pin_ok done todo ret st).

Lemma step_facts : NoDup (done ++ r :: todo) /\ (r ∉ done) /\ (r ∉ todo) /\ good_range rg /\
  (forall q qg, q ∈ todo -> ranges st !! q = Some qg -> pgend qg < pgstart rg) /\
  (forall q qg, q ∈ done -> ranges st !! q = Some qg -> pgend rg < pgstart qg).
Proof.
  destruct (wf_lists st W a ar Ha) as (Hnd & Hsrt & _). rewrite El in Hnd, Hsrt.
  pose proof Hnd as (_ & N1 & [N2 _]%NoDup_cons)%NoDup_app.
  apply StronglySorted_app_iff in Hsrt as (_ & [S1 _]%StronglySorted_cons_iff & S2).
  split_and!; [done|set_solver|done|by apply (wf_ranges st W r)|..].
  - intros q qg Hq Hqg. by apply (S1 q Hq).
  - intros q qg Hq Hqg. by apply (S2 q r Hq ltac:(left)).
Qed.

(** Going on at [st1], where [r] was kept ([done1] ends in it) or removed. *)
Lemma pin_continue st1 ar1 done1 : wf st1 -> touches a st st1 -> areas st1 !! a = Some ar1 ->
  unpinned_list ar1 = done1 ++ todo -> (forall x, zalloc = Some x -> ranges st1 !! x = None) ->
  (forall q, q ∈ done1 -> apart st1 q) -> (forall q, q ∈ todo -> ranges st1 !! q = ranges st !! q) ->
  (forall c p, pages_with c st1 a p -> pages_with c st a p) ->
  (forall c p, cut (pages_with c st a) p -> pages_with c st1 a p) ->
  exists ret' st', pin_loop zalloc a s e todo (if page_range_in_range rg s e then Z.lor ret (purged rg) else ret) st1
      = Ok (ret', st') /\ wf st' /\ pinned_from st st' /\ flag ret st (r :: todo) ret'.
Proof.
  intros W1 T Ha1 El1 Hz1 Hd1 Hext H1 H2.
  destruct (IH done1 (if page_range_in_range rg s e then Z.lor ret (purged rg) else ret) st1 ar1)
    as (ret' & st' & E & W' & P & F); try assumption.
  { destruct (wf_ranges st W r rg Hr) as (_ & _ & Hp).
    destruct (page_range_in_range rg s e); [|done]. destruct Hp as [-> | ->], Hret as [-> | ->]; auto. }
  exists ret', st'. split_and!; [done|done| |].
  - by apply (pinned_from_step st st1).
  - by apply (flag_step ret r rg todo st st1 ret').
Qed.

Lemma apart_ext st1 q : ranges st1 !! q = ranges st !! q -> apart st q -> apart st1 q.
Proof. unfold apart. by intros ->. Qed.

Lemma step_skip : page_range_in_range rg s e = false ->
  exists ret' st', pin_loop zalloc a s e todo ret st = Ok (ret', st') /\ wf st' /\
    pinned_from st st' /\ flag ret st (r :: todo) ret'.
Proof.
  intros Hi. destruct step_facts as (_ & _ & _ & G & _).
  destruct (pin_continue st ar (done ++ [r])) as (ret' & st' & E & H); try done.
  - apply touches_refl. eauto.
  - by rewrite <- app_assoc.
  - intros q [Hq| ->%list_elem_of_singleton]%elem_of_app; [auto|]. intros rg' Hr' p Hp.
    rewrite Hr in Hr'. injection Hr' as <-. apply not_true_iff_false in Hi.
    rewrite in_range_spec in Hi. lia.
  - intros c p [H _]. done.
  - rewrite Hi in E. eauto.
Qed.

Lemma step_del : page_range_in_range rg s e = true -> s <= pgstart rg /\ pgend rg <= e ->
  exists ret' st', (st' ← range_del st r; pin_loop zalloc a s e todo (Z.lor ret (purged rg)) st')
      = Ok (ret', st') /\ wf st' /\ pinned_from st st' /\ flag ret st (r :: todo) ret'.
Proof.
  intros Hi Hsub. destruct step_facts as (Hnd & Nd & Nt & G & _).
  assert (Ha' : areas st !! asma rg = Some ar) by by rewrite Hrg.
  rewrite (range_del_eq st r rg ar W Hr Ha'). cbn [mbind res_bind].
  destruct (pin_continue (deleted st r rg ar) (with_unpinned_list ar (done ++ todo)) done)
    as (ret' & st' & E & H); try done.
  - by apply deleted_wf.
  - rewrite <- Hrg. by apply deleted_touches.
  - cbn. rewrite Hrg, lookup_insert_eq, El. by rewrite list_del_mid.
  - intros x Hx. cbn. rewrite lookup_delete_None. auto.
  - intros q Hq. apply apart_ext; [|auto]. cbn. rewrite lookup_delete_ne; [done|]. by intros <-.
  - intros q Hq. cbn. rewrite lookup_delete_ne; [done|]. by intros <-.
  - intros c p. rewrite pages_deleted by done. tauto.
  - intros c p [Hp Hn]. rewrite pages_deleted by done. split; [done|]. lia.
  - rewrite Hi in E. eauto.
Qed.

Lemma step_shrink lo hi : page_range_in_range rg s e = true ->
  pgstart rg <= lo -> hi <= pgend rg -> lo <= hi + 1 -> 0 <= hi ->
  (forall p, lo <= p <= hi -> ~ s <= p <= e) ->
  (forall p, pgstart rg <= p <= pgend rg -> ~ s <= p <= e -> lo <= p <= hi) ->
  exists ret' st', (st' ← range_shrink st r lo hi; pin_loop zalloc a s e todo (Z.lor ret (purged rg)) st')
      = Ok (ret', st') /\ wf st' /\ pinned_from st st' /\ flag ret st (r :: todo) ret'.
Proof.
  intros Hi H1 H2 H3 H4 Hout Hin. destruct step_facts as (Hnd & Nd & Nt & G & _).
  assert (Ha' : areas st !! asma rg = Some ar) by by rewrite Hrg.
  rewrite (range_shrink_eq st r lo hi rg) by done. cbn [mbind res_bind].
  destruct (pin_continue (shrunk st r lo hi rg) ar (done ++ [r])) as (ret' & st' & E & H); try done.
  - by apply (shrunk_wf st r lo hi rg ar W).
  - rewrite <- Hrg. by apply (shrunk_touches st r lo hi rg ar).
  - by rewrite <- app_assoc.
  - intros x Hx. cbn. apply lookup_insert_None. split; [auto|]. intros ->. rewrite Hz in Hr; done.
  - intros q [Hq| ->%list_elem_of_singleton]%elem_of_app.
    + apply apart_ext; [|auto]. cbn. rewrite lookup_insert_ne; [done|]. by intros <-.
    + intros rg'. cbn. rewrite lookup_insert_eq. intros [= <-]. exact Hout.
  - intros q Hq. cbn. rewrite lookup_insert_ne; [done|]. by intros <-.
  - intros c p. rewrite (pages_shrunk st r lo hi) by done. tauto.
  - intros c p [Hp Hn]. rewrite (pages_shrunk st r lo hi) by done. split; [done|].
    intros (_ & Hp' & Hx). apply Hx. by apply Hin.
  - rewrite Hi in E. eauto.
Qed.

Lemma file_there : is_Some (file ar).
Proof. destruct (wf_owner st W r rg Hr) as (ar' & Ha' & ?). rewrite Hrg, Ha in Ha'. by injection Ha' as <-. Qed.

(** Case 4: the lower part shrinks, the upper part becomes a range of its own. *)
Definition halved : ashmem := shrunk st r (pgstart rg) (s - 1) rg.
Definition halves (x : Z) : ashmem :=
  inserted halved a x (purged rg) (e + 1) (pgend rg) ar done (r :: todo).

Lemma halved_wf : pgstart rg < s -> e < pgend rg -> wf halved.
Proof.
  intros H1 H2. assert (Ha' : areas st !! asma rg = Some ar) by by rewrite Hrg.
  apply (shrunk_wf st r _ _ rg ar W); try done; destruct step_facts as (_ & _ & _ & (? & ? & _) & _); lia.
Qed.

Lemma halved_fresh x : zalloc = Some x -> ranges halved !! x = None /\ x ≠ r.
Proof.
  intros Hx. assert (x ≠ r) by (intros ->; rewrite Hz in Hr; done).
  split; [|done]. cbn. rewrite lookup_insert_ne by done. auto.
Qed.

Lemma halves_order : pgstart rg < s -> e < pgend rg ->
  good_range (MkRange a (e + 1) (pgend rg) (purged rg)) /\
  (forall q qg, q ∈ done -> ranges halved !! q = Some qg -> pgend rg < pgstart qg) /\
  (forall q qg, q ∈ r :: todo -> ranges halved !! q = Some qg -> pgend qg < e + 1).
Proof.
  intros H1 H2. destruct step_facts as (Hnd & Nd & Nt & G & S1 & S2). split_and!.
  - destruct G as (? & ? & ?). unfold good_range. cbn. lia.
  - intros q qg Hq. cbn. rewrite lookup_insert_ne by (by intros <-). by apply S2.
  - intros q qg [->|Hq]%elem_of_cons; cbn.
    + rewrite lookup_insert_eq. intros [= <-]. cbn. lia.
    + rewrite lookup_insert_ne by (by intros <-). intros Hqg. specialize (S1 q qg Hq Hqg). lia.
Qed.

Lemma step_split_eq x : zalloc = Some x -> pgstart rg < s -> e < pgend rg ->
  ('(_, st') ← range_alloc (Some x) st a (Some r) (purged rg) (e + 1) (pgend rg);
    range_shrink st' r (pgstart rg) (s - 1)) = Ok (halves x).
Proof.
  intros Hx H1 H2. destruct (halved_fresh x Hx) as [Hf Hne].
  rewrite (alloc_shrink_commute st a x r rg) by done.
  rewrite (range_shrink_eq st r _ _ rg) by done. cbn [mbind res_bind]. fold halved.
  destruct (halves_order H1 H2) as (G & O1 & O2).
  rewrite (range_alloc_eq halved a x (purged rg) (e + 1) (pgend rg) ar (Some r) done (r :: todo)); try done.
  - by apply halved_wf.
  - apply file_there.
Qed.

Lemma pages_halved c p : pgstart rg < s -> e < pgend rg ->
  pages_with c halved a p <-> pages_with c st a p /\ ~ (s <= p <= pgend rg).
Proof.
  intros H1 H2. unfold halved. rewrite (pages_shrunk st r _ _ rg) by (done || lia).
  split; (intros [Hp Hn]; split; [done|]).
  - intros Hp'. apply Hn. lia.
  - intros (_ & Hp' & Hx). apply Hn. lia.
Qed.

Lemma halves_pinned x : zalloc = Some x -> pgstart rg < s -> e < pgend rg ->
  wf (halves x) /\ pinned_from st (halves x).
Proof.
  intros Hx H1 H2. destruct (halved_fresh x Hx) as [Hf Hne]. destruct (halves_order H1 H2) as (G & O1 & O2).
  pose proof file_there as Hfile.
  assert (Ha' : areas st !! asma rg = Some ar) by by rewrite Hrg.
  split; [by apply inserted_wf; try apply halved_wf|]. split.
  - apply (touches_trans a st halved).
    + rewrite <- Hrg. by apply (shrunk_touches st r _ _ rg ar).
    + by apply inserted_touches.
  - intros c p. unfold halves. rewrite pages_inserted, pages_halved by done. unfold cut.
    intros [[Hp Hn]|(_ & Hc & Hp)].
    + split; [done|]. lia.
    + split; [|lia]. exists r, rg. split_and!; try done; lia.
  - intros c p _ [Hp Hn]. unfold halves. rewrite pages_inserted, pages_halved by done.
    destruct (decide (s <= p <= pgend rg)) as [Hin|]; [right|left; done].
    split_and!; [done| |lia|lia]. destruct Hp as (q & qg & Hq & Eq & Hc & Hp).
    assert (q = r) as ->; [|by rewrite Hr in Hq; injection Hq as ->].
    apply (ranges_disjoint st q r qg rg p); try done; [congruence|lia].
Qed.

Lemma step_split : page_range_in_range rg s e = true -> pgstart rg < s -> e < pgend rg ->
  exists ret' st', ('(_, st') ← range_alloc zalloc st a (Some r) (purged rg) (e + 1) (pgend rg);
      st'' ← range_shrink st' r (pgstart rg) (s - 1); Ok (Z.lor ret (purged rg), st''))
      = Ok (ret', st') /\ wf st' /\ pinned_from st st' /\ flag ret st (r :: todo) ret'.
Proof.
  intros Hi H1 H2. destruct step_facts as (Hnd & Nd & Nt & G & S1 & S2).
  assert (F : flag ret st (r :: todo) (Z.lor ret (purged rg))).
  { apply (flag_step ret r rg todo st st); try done. rewrite Hi. apply flag_end.
    - destruct G as (_ & _ & [-> | ->]), Hret as [-> | ->]; auto.
    - intros q qg Hq Hqg. specialize (S1 q qg Hq Hqg). lia. }
  exists (Z.lor ret (purged rg)). assert (zalloc = None \/ exists x, zalloc = Some x) as [Ez|[x Ez]] by (destruct zalloc; eauto).
  2: { exists (halves x). pose proof (step_split_eq x Ez H1 H2) as E. rewrite Ez.
    apply bind_Ok_inv in E as ([z st'] & -> & E). cbn. rewrite E. cbn.
    split; [done|]. destruct (halves_pinned x Ez H1 H2). done. }
  - exists halved. rewrite Ez. cbn. rewrite (range_shrink_eq st r _ _ rg) by done. cbn.
    assert (Ha' : areas st !! asma rg = Some ar) by by rewrite Hrg.
    split_and!; [done|by apply halved_wf| |done]. split.
    + rewrite <- Hrg. by apply (shrunk_touches st r _ _ rg ar).
    + intros c p. rewrite pages_halved by done. intros [Hp Hn]. split; [done|]. lia.
    + intros c p [y Hy]. congruence.
Qed.
End Step.

Lemma pin_loop_spec todo : forall done ret st, pin_ok done todo ret st.
Proof.
  induction todo as [|r todo IH]; intros done ret st ar W Ha El Hz Hret Hd; cbn [pin_loop].
  - rewrite app_nil_r in El. exists ret, st. split_and!; [done|done| |].
    + apply (pinned_done st ar); [done|done|]. by rewrite El.
    + apply flag_end; [done|]. intros r rg ?%elem_of_nil. done.
  - destruct (member_range st a ar r W Ha) as (rg & Hr & Hrg); [rewrite El; set_solver|].
    rewrite Hr. cbn [deref mbind res_bind].
    destruct (range_before_page rg s) eqn:Eb.
    { apply range_before_page_spec in Eb. exists ret, st. split_and!; [done|done| |].
      - apply (pinned_done st ar); [done|done|]. by apply (below_apart st ar r rg done todo).
      - apply flag_end; [done|]. intros q qg Hq Hqg.
        destruct (wf_lists st W a ar Ha) as (_ & Hsrt & _). rewrite El in Hsrt.
        apply StronglySorted_app_iff in Hsrt as (_ & [S1 _]%StronglySorted_cons_iff & _).
        apply elem_of_cons in Hq as [->|Hq]; [congruence|].
        specialize (S1 q Hq _ _ Hr Hqg). destruct (wf_ranges st W r rg Hr) as (? & _). lia. }
    apply not_true_iff_false in Eb. rewrite range_before_page_spec in Eb.
    assert (Hb : s <= pgend rg) by lia. destruct (wf_ranges st W r rg Hr) as (G1 & G2 & _).
    destruct (page_range_in_range rg s e) eqn:Ei; cbn [negb].
    2: { by apply (step_skip st ar done todo r rg). }
    pose proof (proj1 (in_range_spec rg s e) Ei) as Hov.
    destruct (page_range_subsumes_range rg s e) eqn:Es.
    { apply subsumes_spec in Es. by apply (step_del st ar done todo r rg). }
    apply not_true_iff_false in Es. rewrite subsumes_spec in Es.
    destruct (Z.leb_spec s (pgstart rg)).
    { rewrite u64_small by lia. apply (step_shrink st ar done todo r rg); (done || lia). }
    rewrite (u64_small (s - 1)) by lia. destruct (Z.leb_spec (pgend rg) e).
    { apply (step_shrink st ar done todo r rg); (done || lia). }
    rewrite u64_small by lia. by apply (step_split st ar done todo r rg).
Qed.

(** [ashmem_pin] on a well-formed state. *)
Lemma pin_spec st ar : wf st -> areas st !! a = Some ar ->
  (forall x, zalloc = Some x -> ranges st !! x = None) ->
  exists ret st', ashmem_pin zalloc st a s e = Ok (ret, st') /\ wf st' /\ pinned_from st st' /\
    flag 0 st (unpinned_list ar) ret.
Proof.
  intros W Ha Hz. unfold ashmem_pin. rewrite Ha. cbn.
  by apply (pin_loop_spec (unpinned_list ar) [] 0 st ar); [done..|left|intros ? ?%elem_of_nil].
Qed.
End Pin.

(** *** What becomes of each range *)
Section PinRanges.
Variables (a s e : Z) (Hse : 0 <= s <= e) (He : e < 2 ^ 64).

(** Every range has a page. *)
Definition solid st : Prop := forall r rg, ranges st !! r = Some rg -> pgstart rg <= pgend rg.

Definition in_bounds st : Prop := forall r rg, ranges st !! r = Some rg -> 0 <= pgstart rg /\ pgend rg < 2 ^ 64.

Lemma range_del_ranges st r st' : range_del st r = Ok st' -> ranges st' = delete r (ranges st).
Proof.
  unfold range_del, lru_del. intros (rg & Hr & (ar & _ & E)%bind_Ok_inv)%bind_Ok_inv. destruct (range_on_lru rg); cbn in E.
  - destruct (ranges st !! r); cbn in *; [by injection E as <-|done].
  - by injection E as <-.
Qed.
Lemma range_shrink_ranges st r lo hi st' : range_shrink st r lo hi = Ok st' ->
  exists rg, ranges st !! r = Some rg /\ ranges st' = <[r := with_pages lo hi rg]> (ranges st).
Proof.
  unfold range_shrink. destruct (ranges st !! r) as [rg|]; [|done]. cbn. intros [= <-]. exists rg. split; [done|]. by destruct (range_on_lru _).
Qed.
Lemma range_alloc_ranges zalloc st prev prg lo hi x st' : range_alloc zalloc st a prev prg lo hi = Ok (x, st') ->
  ranges st' = match zalloc with Some q => <[q := MkRange a lo hi prg]> (ranges st) | None => ranges st end.
Proof.
  unfold range_alloc. destruct zalloc as [q|]; [|by intros [= _ <-]]. intros (ar & _ & E)%bind_Ok_inv. cbn in E.
  destruct (range_on_lru _); cbn in E; [unfold lru_add in E; cbn in E; rewrite lookup_insert_eq in E; cbn in E|]; by injection E as _ <-.
Qed.

(** Pinning some pages leaves no empty range behind. *)
Lemma pin_loop_solid zalloc todo ret st ret' st' : solid st -> in_bounds st ->
  pin_loop zalloc a s e todo ret st = Ok (ret', st') -> solid st'.
Proof.
  revert ret st. induction todo as [|r todo IH]; intros ret st Hs Hb E; cbn [pin_loop] in E; [by injection E as _ <-|].
  apply bind_Ok_inv in E as (rg & Hr & E). destruct (ranges st !! r) as [rg'|] eqn:Hr'; [|done]. injection Hr as ->.
  pose proof (Hs r rg Hr'). pose proof (Hb r rg Hr'). destruct (range_before_page rg s); [by injection E as _ <-|].
  assert (put : forall st1 q lo hi x prg, ranges st1 = <[q := MkRange x lo hi prg]> (ranges st) -> 0 <= lo <= hi -> hi < 2 ^ 64 -> solid st1 /\ in_bounds st1).
  { intros st1 q lo hi x prg E1 HA HB. split; intros k kg; rewrite E1; intros [[_ <-]|[_ H3]]%lookup_insert_Some; cbn; first [lia|by eapply Hs|by eapply Hb]. }
  destruct (page_range_in_range rg s e) eqn:Ei; cbn [negb] in E; [|by eapply IH]. rewrite in_range_spec in Ei.
  destruct (page_range_subsumes_range rg s e) eqn:Es.
  { apply bind_Ok_inv in E as (st1 & E1 & E). apply range_del_ranges in E1. eapply IH; [..|exact E]; intros k kg; rewrite E1; intros [_ Hk]%lookup_delete_Some; by eauto. }
  apply not_true_iff_false in Es. rewrite subsumes_spec in Es. destruct (Z.leb_spec s (pgstart rg)).
  { apply bind_Ok_inv in E as (st1 & E1 & E). apply range_shrink_ranges in E1 as (rg1 & HR & E1). rewrite Hr' in HR. injection HR as <-.
    rewrite u64_small in E1 by lia. destruct (put _ _ _ _ _ _ E1); [lia..|]. by eapply IH. }
  rewrite (u64_small (s - 1)) in E by lia. destruct (Z.leb_spec (pgend rg) e).
  { apply bind_Ok_inv in E as (st1 & E1 & E). apply range_shrink_ranges in E1 as (rg1 & HR & E1). rewrite Hr' in HR. injection HR as <-.
    destruct (put _ _ _ _ _ _ E1); [lia..|]. by eapply IH. }
  rewrite u64_small in E by lia. apply bind_Ok_inv in E as ([x st1] & E1 & E). apply range_alloc_ranges in E1.
  apply bind_Ok_inv in E as (st2 & E2 & [= _ <-]). apply range_shrink_ranges in E2 as (rg2 & HR & E2).
  assert (solid st1) as Hs1. { destruct zalloc as [q|]; [|intros k kg; rewrite E1; apply Hs]. destruct (put _ _ _ _ _ _ E1); [lia..|done]. }
  intros k kg. rewrite E2. intros [[_ <-]|[_ H3]]%lookup_insert_Some; [|by eapply Hs1]. cbn.
  lia.
Qed.

(** Without memory for a split, the pages that are lost are those above the request in a
    range that starts below it. *)
Lemma pin_loop_lost todo ret st ret' st' : in_bounds st -> pin_loop None a s e todo ret st = Ok (ret', st') ->
  forall r rg p, ranges st !! r = Some rg -> pgstart rg <= p <= pgend rg -> ~ s <= p <= e ->
    (exists rg', ranges st' !! r = Some rg' /\ asma rg' = asma rg /\ pgstart rg' <= p <= pgend rg') \/ (pgstart rg < s /\ e < p).
Proof.
  revert ret st. induction todo as [|q todo IH]; intros ret st Hb E r rg p Hr Hp Hn; cbn [pin_loop] in E; [injection E as _ <-; eauto|].
  apply bind_Ok_inv in E as (qg & Hq & E). destruct (ranges st !! q) as [qg'|] eqn:Hq'; [|done]. injection Hq as ->.
  pose proof (Hb q qg Hq'). destruct (range_before_page qg s); [injection E as _ <-; eauto|].
  destruct (page_range_in_range qg s e) eqn:Ei; cbn [negb] in E; [|by eapply IH].
  assert (put : forall st1 lo hi, ranges st1 = <[q := with_pages lo hi qg]> (ranges st) -> pgstart qg <= lo -> hi <= pgend qg ->
    (lo = pgstart qg \/ s <= lo) -> (r = q -> (lo <= p <= hi) \/ (pgstart qg < s /\ e < p)) -> in_bounds st1 /\
    ((exists rg1, ranges st1 !! r = Some rg1 /\ asma rg1 = asma rg /\ pgstart rg1 <= p <= pgend rg1 /\ (pgstart rg1 < s -> pgstart rg < s)) \/ (pgstart rg < s /\ e < p))).
  { intros st1 lo hi E1 H1 H2 H3 H4. split.
    - intros k kg. rewrite E1. intros [[_ <-]|[_ H5]]%lookup_insert_Some; cbn; [lia|by eapply Hb].
    - rewrite E1. destruct (decide (r = q)) as [->|Hne].
      + rewrite Hq' in Hr. injection Hr as <-. destruct (H4 eq_refl); [left|by right]. rewrite lookup_insert_eq. eexists. split; [done|]. cbn. lia.
      + left. rewrite lookup_insert_ne by done. eauto 10. }
  destruct (page_range_subsumes_range qg s e) eqn:Es.
  { apply subsumes_spec in Es. apply bind_Ok_inv in E as (st1 & E1 & E). apply range_del_ranges in E1. eapply IH; [|exact E| |done..].
    - intros k kg. rewrite E1. intros [_ Hk]%lookup_delete_Some. by eapply Hb.
    - rewrite E1, lookup_delete_ne; [done|]. intros ->. rewrite Hq' in Hr. injection Hr as <-. lia. }
  apply not_true_iff_false in Es. rewrite subsumes_spec in Es.
  assert (go : forall st1 ret, in_bounds st1 /\ ((exists rg1, ranges st1 !! r = Some rg1 /\ asma rg1 = asma rg /\ pgstart rg1 <= p <= pgend rg1 /\ (pgstart rg1 < s -> pgstart rg < s)) \/ (pgstart rg < s /\ e < p)) ->
    pin_loop None a s e todo ret st1 = Ok (ret', st') -> (exists rg', ranges st' !! r = Some rg' /\ asma rg' = asma rg /\ pgstart rg' <= p <= pgend rg') \/ (pgstart rg < s /\ e < p)).
  { intros st1 ret1 [Hb1 [(rg1 & H1 & H2 & H3 & H4)|?]] E1; [|by right]. destruct (IH _ _ Hb1 E1 r rg1 p H1 H3 Hn) as [(rg' & ? & ? & ?)|[? ?]]; [left; exists rg'; split_and!; [done|congruence|lia..]|right; auto]. }
  rewrite in_range_spec in Ei. destruct (Z.leb_spec s (pgstart qg)).
  { apply bind_Ok_inv in E as (st1 & E1 & E). apply range_shrink_ranges in E1 as (rg1 & HR & E1). rewrite Hq' in HR. injection HR as <-.
    rewrite u64_small in E1 by lia. eapply go; [|exact E]. eapply put; [exact E1|lia..|]. intros ->. rewrite Hq' in Hr. injection Hr as <-. lia. }
  rewrite (u64_small (s - 1)) in E by lia. destruct (Z.leb_spec (pgend qg) e).
  { apply bind_Ok_inv in E as (st1 & E1 & E). apply range_shrink_ranges in E1 as (rg1 & HR & E1). rewrite Hq' in HR. injection HR as <-.
    eapply go; [|exact E]. eapply put; [exact E1|lia..|]. intros ->. rewrite Hq' in Hr. injection Hr as <-. lia. }
  cbn in E. apply bind_Ok_inv in E as (st1 & E1 & [= _ <-]). apply range_shrink_ranges in E1 as (rg1 & HR & E1). rewrite Hq' in HR. injection HR as <-.
  destruct (put _ _ _ E1) as [_ [(rg3 & HA & HB & HC & _)|?]]; [lia..| |left; eauto|by right]. intros ->. rewrite Hq' in Hr. injection Hr as <-. lia.
Qed.
End PinRanges.

(** ** Unpinning *)
Section Unpin.
Variables (zalloc : option Z) (a : Z).

(** How one pass over the list ends. *)
Definition pass_ok st (l : list Z) s e (pass : unpin_pass) : Prop :=
  match pass with
  | AlreadyUnpinned => exists r rg, r ∈ l /\ ranges st !! r = Some rg /\ pgstart rg <= s /\ e <= pgend rg
  | MergeWith r rg => r ∈ l /\ ranges st !! r = Some rg /\ s <= pgend rg /\ pgstart rg <= e + 1
  | InsertAt prev => exists l1 l2, l = l1 ++ l2 /\ prev = head l2 /\
      (forall r rg, r ∈ l1 -> ranges st !! r = Some rg -> e < pgstart rg) /\
      (forall r rg, r ∈ l2 -> ranges st !! r = Some rg -> pgend rg < s)
  end.

Lemma unpin_scan_spec s e st todo : s <= e + 1 ->
  (forall r, r ∈ todo -> exists rg, ranges st !! r = Some rg /\ good_range rg) ->
  StronglySorted (above (ranges st)) todo ->
  exists pass, unpin_scan s e todo st = Ok pass /\ pass_ok st todo s e pass.
Proof.
  intros Hse. induction todo as [|r todo IH]; intros Hm Hsrt; cbn [unpin_scan].
  { eexists. split; [done|]. exists [], []. split_and!; try done; intros ? ? ?%elem_of_nil; done. }
  apply StronglySorted_cons_iff in Hsrt as [S1 S2].
  destruct (Hm r ltac:(left)) as (rg & Hr & G1 & G2 & _). rewrite Hr. cbn [deref mbind res_bind].
  destruct (range_before_page rg s) eqn:Eb.
  { apply range_before_page_spec in Eb. eexists. split; [done|]. exists [], (r :: todo).
    split_and!; try done; [intros ? ? ?%elem_of_nil; done|].
    intros q qg [->|Hq]%elem_of_cons Hqg; [congruence|]. specialize (S1 q Hq _ _ Hr Hqg). lia. }
  apply not_true_iff_false in Eb. rewrite range_before_page_spec in Eb.
  destruct (page_range_subsumed_by_range rg s e) eqn:Es.
  { apply subsumed_by_spec in Es. eexists. split; [done|]. exists r, rg. split_and!; try done; [left|lia..]. }
  destruct (page_range_in_range rg s e) eqn:Ei.
  { apply in_range_spec in Ei. eexists. split; [done|]. split_and!; [left|done|lia|lia]. }
  apply not_true_iff_false in Ei. rewrite in_range_spec in Ei.
  apply not_true_iff_false in Es. rewrite subsumed_by_spec in Es.
  destruct IH as (pass & -> & Hp); [intros q Hq; apply Hm; by right|done|]. exists pass. split; [done|].
  destruct pass; cbn in *.
  - destruct Hp as (q & qg & Hq & H). exists q, qg. split; [by right|done].
  - destruct Hp as (Hq & H). split; [by right|done].
  - destruct Hp as (l1 & l2 & -> & -> & H1 & H2). exists (r :: l1), l2. split_and!; try done.
    intros q qg [->|Hq]%elem_of_cons Hqg; [|by apply (H1 q)]. rewrite Hr in Hqg. injection Hqg as <-. lia.
Qed.

(** No range of the area was purged. *)
Definition clean st : Prop := forall r rg, ranges st !! r = Some rg -> asma rg = a -> purged rg = 0.

(** The effect of unpinning [s .. e], when the ranges merged so far had purged
    the pages [Q]: with memory for the range all the pages become unpinned and
    purged pages stay purged; without it no page becomes unpinned. *)
Record unpinned_from st st' s e prg (Q : Z -> Prop) (ret : Z) : Prop := {
  uf_touches : touches a st st';
  uf_ret : (ret = 0 /\ forall p, unpinned_page st' a p <-> unpinned_page st a p \/ s <= p <= e) \/
    (zalloc = None /\ ret = - ENOMEM /\ forall p, unpinned_page st' a p -> unpinned_page st a p);
  uf_purged : ret = 0 -> forall p, purged_page st a p \/ Q p -> purged_page st' a p;
  uf_clean : clean st -> prg = 0 -> clean st'
}.

Definition unpin_ready st ar s e prg (Q : Z -> Prop) : Prop :=
  wf st /\ areas st !! a = Some ar /\ is_Some (file ar) /\
  (forall x, zalloc = Some x -> ranges st !! x = None) /\
  0 <= s <= e + 1 /\ 0 <= e < 2 ^ 64 /\ (prg = 0 \/ prg = 1) /\
  (forall p, Q p -> s <= p <= e /\ ~ unpinned_page st a p /\ prg = 1).

Lemma unpin_already st ar s e prg Q r rg : unpin_ready st ar s e prg Q ->
  r ∈ unpinned_list ar -> ranges st !! r = Some rg -> pgstart rg <= s -> e <= pgend rg ->
  unpinned_from st st s e prg Q 0.
Proof.
  intros (W & Ha & Hf & Hz & Hs & He & Hp & HQ) Hin Hr H1 H2.
  destruct (member_range st a ar r W Ha Hin) as (rg' & Hr' & Hrg). rewrite Hr in Hr'. injection Hr' as <-.
  assert (Hun : forall p, s <= p <= e -> unpinned_page st a p).
  { intros p Hpe. exists r, rg. split_and!; try done; lia. }
  split; [apply touches_refl; eauto|left; split; [done|]|..|done].
  - intros p. split; [auto|]. intros [?|?]; auto.
  - intros _ p [?|Hq]; [done|]. apply HQ in Hq as (? & Hn & _). by destruct Hn; apply Hun.
Qed.

Lemma unpin_insert st ar s e prg Q l1 l2 : unpin_ready st ar s e prg Q ->
  unpinned_list ar = l1 ++ l2 ->
  (forall r rg, r ∈ l1 -> ranges st !! r = Some rg -> e < pgstart rg) ->
  (forall r rg, r ∈ l2 -> ranges st !! r = Some rg -> pgend rg < s) ->
  exists ret st', range_alloc zalloc st a (head l2) prg s e = Ok (ret, st') /\ wf st' /\
    unpinned_from st st' s e prg Q ret.
Proof.
  intros (W & Ha & Hf & Hz & Hs & He & Hp & HQ) El H1 H2. destruct zalloc as [x|] eqn:Ez.
  - specialize (Hz x eq_refl). exists 0, (inserted st a x prg s e ar l1 l2).
    assert (G : good_range (MkRange a s e prg)) by (unfold good_range; cbn; lia).
    split_and!; [by apply range_alloc_eq|by apply inserted_wf|]. split.
    + by apply inserted_touches.
    + left. split; [done|]. intros p. unfold unpinned_page. rewrite pages_inserted by done. tauto.
    + intros _ p. unfold purged_page. rewrite pages_inserted by done. intros [?|Hq]; [auto|].
      apply HQ in Hq as (? & _ & ?). auto.
    + intros Hc Hp0 r rg Hr. cbn in Hr. apply lookup_insert_Some in Hr as [[<- <-]|[_ Hr]]; [done|].
      by apply (Hc r).
  - exists (- ENOMEM), st. split_and!; [done|done|]. split; [apply touches_refl; eauto| |done..].
    right. split_and!; [done..|auto].
Qed.

(** Merging [r] keeps the loop ready. *)
Lemma unpin_merge st ar s e prg (Q : Z -> Prop) r rg : unpin_ready st ar s e prg Q ->
  r ∈ unpinned_list ar -> ranges st !! r = Some rg -> s <= pgend rg -> pgstart rg <= e + 1 ->
  let st1 := deleted st r rg ar in
  let ar1 := with_unpinned_list ar (list_del r (unpinned_list ar)) in
  let s1 := Z.min (pgstart rg) s in let e1 := Z.max (pgend rg) e in
  let Q1 := fun p => Q p \/ (purged rg = 1 /\ pgstart rg <= p <= pgend rg) in
  range_del st r = Ok st1 /\ unpin_ready st1 ar1 s1 e1 (Z.lor prg (purged rg)) Q1 /\
  (forall ret st', unpinned_from st1 st' s1 e1 (Z.lor prg (purged rg)) Q1 ret ->
    unpinned_from st st' s e prg Q ret).
Proof.
  intros (W & Ha & Hf & Hz & Hs & He & Hp & HQ) Hin Hr H1 H2 st1 ar1 s1 e1 Q1.
  destruct (member_range st a ar r W Ha Hin) as (rg' & Hr' & Hrg). rewrite Hr in Hr'. injection Hr' as <-.
  assert (Ha' : areas st !! asma rg = Some ar) by by rewrite Hrg.
  destruct (wf_ranges st W r rg Hr) as (G1 & G2 & G3).
  assert (Hpg : forall c p, pages_with c st1 a p <-> pages_with c st a p /\ ~ pgstart rg <= p <= pgend rg).
  { intros c p. unfold st1. rewrite pages_deleted by done. split; (intros [Hp1 Hn]; split; [done|]; intros Hp2; apply Hn); [done|apply Hp2]. }
  split_and!; [by apply range_del_eq|split_and!|].
  - by apply deleted_wf.
  - cbn. by rewrite Hrg, lookup_insert_eq.
  - done.
  - intros x Hx. cbn. rewrite lookup_delete_None. auto.
  - unfold s1. lia.
  - unfold s1, e1. lia.
  - unfold e1. lia.
  - unfold e1. lia.
  - destruct Hp as [-> | ->], G3 as [-> | ->]; auto.
  - intros p [Hq|[Hq1 Hq2]]; unfold s1, e1, unpinned_page; rewrite Hpg.
    + apply HQ in Hq as (? & Hn & ->). split_and!; [lia..|unfold unpinned_page in Hn; tauto|].
      by destruct G3 as [-> | ->].
    + split_and!; [lia..|tauto|]. rewrite Hq1. by destruct Hp as [-> | ->].
  - intros ret st' [T R P C]. split.
    + apply (touches_trans a st st1); [|done]. rewrite <- Hrg. by apply deleted_touches.
    + destruct R as [[-> R]|(R1 & R2 & R)]; [left|right]; (split_and!; [done..|]); intros p.
      * rewrite R. unfold unpinned_page. rewrite Hpg. unfold s1, e1.
        assert (pgstart rg <= p <= pgend rg -> pages_with (fun _ => True) st a p).
        { intros Hpp. exists r, rg. split_and!; try done; lia. }
        destruct (decide (pgstart rg <= p <= pgend rg)).
        -- assert (Z.min (pgstart rg) s <= p <= Z.max (pgend rg) e) by lia. tauto.
        -- assert (Z.min (pgstart rg) s <= p <= Z.max (pgend rg) e <-> s <= p <= e) by lia. tauto.
      * intros Hpp. apply R, Hpg in Hpp. by destruct Hpp.
    + intros -> p Hpp. apply P; [done|]. unfold purged_page in *. rewrite Hpg. unfold Q1.
      destruct Hpp as [Hpp|Hq]; [|auto]. destruct (decide (pgstart rg <= p <= pgend rg)) as [Hi|]; [|auto].
      right. right. split; [|done]. destruct Hpp as (q & qg & Hq & Eq & Hc & Hi').
      assert (q = r) as ->; [|by rewrite Hr in Hq; injection Hq as ->].
      apply (ranges_disjoint st q r qg rg p); try done. congruence.
    + intros Hc ->. apply C.
      * intros q qg Hq. cbn in Hq. apply lookup_delete_Some in Hq as [_ Hq]. by apply (Hc q).
      * by rewrite (Hc r rg).
Qed.

Lemma unpin_loop_spec fuel : forall st ar s e prg Q, unpin_ready st ar s e prg Q ->
  (length (unpinned_list ar) < fuel)%nat ->
  exists ret st', unpin_loop fuel zalloc st a prg s e = Ok (ret, st') /\ wf st' /\
    unpinned_from st st' s e prg Q ret.
Proof.
  induction fuel as [|fuel IH]; intros st ar s e prg Q Hrdy Hlen; [lia|]. cbn [unpin_loop].
  pose proof Hrdy as (W & Ha & _ & _ & Hs & _). rewrite Ha. cbn [deref mbind res_bind].
  destruct (unpin_scan_spec s e st (unpinned_list ar)) as (pass & -> & Hpass); [lia| |by apply (wf_lists st W a)|].
  { intros r Hr. destruct (member_range st a ar r W Ha Hr) as (rg & ? & _).
    eauto using wf_ranges. }
  cbn [mbind res_bind]. destruct pass as [|r rg|prev]; cbn in Hpass.
  - destruct Hpass as (r & rg & Hin & Hr & H1 & H2). exists 0, st. split_and!; [done|done|].
    by apply (unpin_already st ar s e prg Q r rg).
  - destruct Hpass as (Hin & Hr & H1 & H2).
    destruct (unpin_merge st ar s e prg Q r rg Hrdy Hin Hr H1 H2) as (-> & Hrdy1 & Hk). cbn [mbind res_bind].
    destruct (IH _ _ _ _ _ _ Hrdy1) as (ret & st' & E & W' & H); [|eauto 10].
    cbn. pose proof (length_list_del r (unpinned_list ar) Hin). lia.
  - destruct Hpass as (l1 & l2 & El & -> & H1 & H2). by apply (unpin_insert st ar s e prg Q l1 l2).
Qed.

(** [ashmem_unpin] on a well-formed state terminates without a fault. *)
Lemma unpin_spec st ar s e : wf st -> areas st !! a = Some ar -> is_Some (file ar) ->
  (forall x, zalloc = Some x -> ranges st !! x = None) -> 0 <= s <= e + 1 -> 0 <= e < 2 ^ 64 ->
  exists ret st', ashmem_unpin zalloc st a s e = Ok (ret, st') /\ wf st' /\
    unpinned_from st st' s e 0 (fun _ => False) ret.
Proof.
  intros W Ha Hf Hz Hs He. unfold ashmem_unpin. rewrite Ha. cbn [deref mbind res_bind].
  apply (unpin_loop_spec _ st ar); [|lia]. unfold unpin_ready. split_and!; try done; try lia.
Qed.
End Unpin.

(** ** The pin status *)
Section Status.

(** The loop reads ranges of the list only. *)
Lemma pin_status_safe st a ar s e : wf st -> areas st !! a = Some ar ->
  exists ret, ashmem_get_pin_status st a s e = Ok ret.
Proof.
  intros W Ha. unfold ashmem_get_pin_status. rewrite Ha. cbn.
  assert (Hin : forall r, r ∈ unpinned_list ar -> is_Some (ranges st !! r)).
  { intros r Hr. destruct (member_range st a ar r W Ha Hr) as (rg & ? & _). eauto. }
  induction (unpinned_list ar) as [|r l IH]; cbn [pin_status_loop]; [eauto|].
  destruct (Hin r ltac:(left)) as [rg ->]. cbn [deref mbind res_bind].
  destruct (range_before_page rg s); [eauto|]. destruct (page_range_in_range rg s e); [eauto|].
  apply IH. intros q Hq. apply Hin. by right.
Qed.

Lemma pin_status_spec st a ar s e : wf st -> areas st !! a = Some ar -> solid st -> s <= e ->
  exists ret, ashmem_get_pin_status st a s e = Ok ret /\
    (ret = ASHMEM_IS_PINNED \/ ret = ASHMEM_IS_UNPINNED) /\
    (ret = ASHMEM_IS_UNPINNED <-> exists p, s <= p <= e /\ unpinned_page st a p).
Proof.
  intros W Ha Hso Hse. unfold ashmem_get_pin_status. rewrite Ha. cbn.
  destruct (wf_lists st W a ar Ha) as (_ & Hsrt & Hm).
  assert (H : exists ret, pin_status_loop s e (unpinned_list ar) st = Ok ret /\
    (ret = ASHMEM_IS_PINNED \/ ret = ASHMEM_IS_UNPINNED) /\
    (ret = ASHMEM_IS_UNPINNED <-> exists r rg p, r ∈ unpinned_list ar /\ ranges st !! r = Some rg /\
       s <= p <= e /\ pgstart rg <= p <= pgend rg)).
  { assert (Hin : forall r, r ∈ unpinned_list ar -> is_Some (ranges st !! r)).
    { intros r (rg & ? & _)%Hm. eauto. }
    clear Hm Ha. induction (unpinned_list ar) as [|r l IH]; cbn [pin_status_loop].
    - eexists. split_and!; [done|by left|]. split; [done|]. by intros (? & ? & ? & ?%elem_of_nil & _).
    - apply StronglySorted_cons_iff in Hsrt as [S1 S2]. destruct (Hin r ltac:(left)) as [rg Hr].
      pose proof (Hso r rg Hr) as G. rewrite Hr. cbn [deref mbind res_bind].
      destruct (range_before_page rg s) eqn:Eb.
      { apply range_before_page_spec in Eb. eexists. split_and!; [done|by left|]. split; [done|].
        intros (q & qg & p & [->|Hq]%elem_of_cons & Hqg & H1 & H2).
        - rewrite Hr in Hqg. injection Hqg as <-. lia.
        - specialize (S1 q Hq _ _ Hr Hqg). lia. }
      destruct (page_range_in_range rg s e) eqn:Ei.
      { eexists. split_and!; [done|by right|]. split; [|done]. intros _.
        apply in_range_overlap in Ei as (p & H1 & H2); [|done..]. exists r, rg, p. split_and!; try done; [left|lia..]. }
      destruct IH as (ret & -> & Hret & IH); [done|intros; apply Hin; by right|].
      exists ret. split_and!; [done..|]. rewrite IH. split.
      + intros (q & qg & p & Hq & H). exists q, qg, p. split; [by right|done].
      + intros (q & qg & p & [->|Hq]%elem_of_cons & Hqg & H1 & H2); [|eauto 10].
        rewrite Hr in Hqg. injection Hqg as <-. apply not_true_iff_false in Ei. destruct Ei.
        apply in_range_overlap; eauto. }
  destruct H as (ret & E & Hret & H). exists ret. split_and!; [done..|]. rewrite H. split.
  - intros (r & rg & p & Hin & Hr & H1 & H2). exists p. split; [done|]. exists r, rg.
    apply Hm in Hin as (rg' & Hr' & ?). rewrite Hr in Hr'. injection Hr' as <-. done.
  - intros (p & H1 & r & rg & Hr & E' & _ & H2). exists r, rg, p. split_and!; try done; try lia.
    apply Hm. eauto.
Qed.
End Status.
