(* ===== verification/AshmemOps.v ===== *)
(** * The other ashmem operations: shrinker, names, protection, release *)
From S2P Require Import Prelude UserMem Ashmem AshmemInv AshmemPin.

Implicit Types (st : ashmem) (a r p : Z) (rg : ashmem_range) (ar : ashmem_area).

(** ** The shrinker *)
Section Shrink.
(** One iteration: the range at the front of the LRU list is purged. *)
Definition shrunk_one st r rg (f : Z) : ashmem :=
  MkAshmem (areas st) (<[r := with_purged ASHMEM_WAS_PURGED rg]> (ranges st))
    (list_del r (ashmem_lru_list st)) (u64 (lru_count st - range_size rg)) (files st)
    (punched st ++ [(f, fst (hole_of rg), snd (hole_of rg))]).

Lemma shrunk_one_member st r rg (P : ashmem_range -> Prop) q : ranges st !! r = Some rg ->
  (forall qg, P (with_purged ASHMEM_WAS_PURGED qg) <-> P qg) ->
  (exists qg, <[r := with_purged ASHMEM_WAS_PURGED rg]> (ranges st) !! q = Some qg /\ P qg) <->
  (exists qg, ranges st !! q = Some qg /\ P qg).
Proof.
  intros Hr HP. destruct (decide (q = r)) as [->|Hne].
  - rewrite lookup_insert_eq, Hr. split; intros (qg & [= <-] & H); eexists; (split; [done|]); by eapply HP.
  - by rewrite lookup_insert_ne.
Qed.

Lemma shrunk_one_wf st r rg f : wf st -> ranges st !! r = Some rg -> r ∈ ashmem_lru_list st ->
  wf (shrunk_one st r rg f).
Proof.
  intros W Hr Hin. destruct (wf_lru st W) as [Hnd Hm]. split; cbn.
  - intros b br Hb. destruct (wf_lists st W _ _ Hb) as (N & S & M). split_and!; [done| |].
    + revert S. apply StronglySorted_ext. intros x y _ _ Hxy xg yg.
      rewrite !lookup_insert_Some. intros [[<- <-]|[_ Hx]] [[<- <-]|[Hn Hy]]; cbn.
      * exact (Hxy rg rg Hr Hr).
      * exact (Hxy rg yg Hr Hy).
      * exact (Hxy xg rg Hx Hr).
      * by apply Hxy.
    + intros q. rewrite M. symmetry. by apply shrunk_one_member.
  - intros q qg. rewrite lookup_insert_Some. intros [[<- <-]|[_ Hq]]; [exact (wf_owner st W r rg Hr)|by apply (wf_owner st W q)].
  - intros q qg. rewrite lookup_insert_Some. intros [[<- <-]|[_ Hq]]; [|by apply (wf_ranges st W q)].
    destruct (wf_ranges st W r rg Hr) as (? & ? & ?). unfold good_range. cbn. auto.
  - split; [by apply NoDup_list_del|]. intros q. rewrite elem_of_list_del, Hm. split.
    + intros [(qg & Hq & E) Hn]. exists qg. by rewrite lookup_insert_ne.
    + intros (qg & [[<- <-]|[Hn Hq]]%lookup_insert_Some & E); [done|]. split; [eauto|done].
  - rewrite (lru_pages_ext _ (ranges st)) by (intros q [_ Hq]%elem_of_list_del; by rewrite lookup_insert_ne).
    rewrite Zsum_list_del by done. rewrite (wf_count st W), u64_sub_l. unfold lru_pages at 3. by rewrite Hr.
Qed.

(** How many ranges a scan of [nr] takes: [0] wraps around to no limit. *)
Definition scan_count (nr : Z) (l : list Z) : nat :=
  if nr =? 0 then length l else Nat.min (Z.to_nat nr) (length l).

Definition hole_in st r : option (Z * Z * Z) :=
  rg ← ranges st !! r; ar ← areas st !! asma rg; f ← file ar; Some (f, fst (hole_of rg), snd (hole_of rg)).

(** The effect of purging the ranges [l]. *)
Record purged_all st st' (l : list Z) : Prop := {
  pa_areas : areas st' = areas st;
  pa_files : files st' = files st;
  pa_ranges : forall r, ranges st' !! r =
    if decide (r ∈ l) then with_purged ASHMEM_WAS_PURGED <$> ranges st !! r else ranges st !! r;
  pa_holes : Some <$> punched st' = (Some <$> punched st) ++ (hole_in st <$> l)
}.

Lemma purged_all_nil st : purged_all st st [].
Proof. split; [done..|]. cbn. by rewrite app_nil_r. Qed.

Lemma purged_all_cons st r rg f st' l : ranges st !! r = Some rg ->
  hole_in st r = Some (f, fst (hole_of rg), snd (hole_of rg)) -> r ∉ l ->
  purged_all (shrunk_one st r rg f) st' l -> purged_all st st' (r :: l).
Proof.
  intros Hr Hh Hn [A F R H]. split; [done|done| |].
  - intros q. rewrite R. cbn. destruct (decide (q = r)) as [->|Hne].
    + rewrite decide_False by done. rewrite decide_True by left. by rewrite lookup_insert_eq, Hr.
    + rewrite lookup_insert_ne by done. destruct (decide (q ∈ l)).
      * rewrite decide_True by by right. done.
      * rewrite decide_False by set_solver. done.
  - rewrite H. cbn. rewrite fmap_app. cbn. rewrite <- app_assoc. cbn. rewrite Hh. do 2 f_equal.
    apply list_fmap_ext. intros i q Hq. apply list_elem_of_lookup_2 in Hq. unfold hole_in. cbn.
    rewrite lookup_insert_ne; [done|]. by intros <-.
Qed.

Lemma shrink_loop_spec l : forall st nr freed, wf st -> ashmem_lru_list st = l -> 0 <= nr < 2 ^ 64 ->
  Z.of_nat (length l) < 2 ^ 64 ->
  let n := scan_count nr l in
  exists nr' st', shrink_loop l nr freed st =
      Ok ((if decide (l = []) then freed else u64 (freed + Zsum (lru_pages (ranges st)) (take n l))), nr', st') /\
    wf st' /\ ashmem_lru_list st' = drop n l /\ purged_all st st' (take n l).
Proof.
  induction l as [|r l IH]; intros st nr freed W El Hnr Hlen.
  { cbn. exists nr, st. unfold scan_count. rewrite take_nil, drop_nil. split_and!; try done. apply purged_all_nil. }
  destruct (wf_lru st W) as [Hnd Hm]. assert (Hin : r ∈ ashmem_lru_list st) by (rewrite El; left).
  pose proof Hin as (rg & Hr & Hp)%Hm. destruct (wf_owner st W r rg Hr) as (ar & Ha & [f Hf]).
  assert (Hh : hole_in st r = Some (f, fst (hole_of rg), snd (hole_of rg))).
  { unfold hole_in. rewrite Hr. cbn. rewrite Ha. cbn. by rewrite Hf. }
  rewrite El in Hnd. pose proof Hnd as [Hn Hnd']%NoDup_cons.
  cbn [shrink_loop]. rewrite Hr. cbn [deref mbind res_bind]. rewrite Ha. cbn [deref mbind res_bind].
  rewrite Hf. cbn [deref mbind res_bind]. rewrite (surjective_pairing (hole_of rg)).
  unfold lru_del. cbn [ranges put_range set_ranges set_punched]. rewrite lookup_insert_eq. cbn [deref mbind res_bind].
  match goal with |- context [set_lru ?x ?y ?z] => change (set_lru x y z) with (shrunk_one st r rg f) end.
  pose proof (shrunk_one_wf st r rg f W Hr Hin) as W1.
  assert (El1 : ashmem_lru_list (shrunk_one st r rg f) = l).
  { cbn. rewrite El. by apply (list_del_mid r [] l). }
  assert (Hs : Zsum (lru_pages (ranges (shrunk_one st r rg f))) l = Zsum (lru_pages (ranges st)) l).
  { apply lru_pages_ext. intros q Hq. cbn. rewrite lookup_insert_ne; [done|]. by intros <-. }
  assert (Hr1 : lru_pages (ranges st) r = range_size rg) by (unfold lru_pages; by rewrite Hr).
  rewrite decide_False by done. cbn [length] in Hlen.
  destruct (Z.leb_spec (u64 (nr - 1)) 0) as [Hle|Hgt].
  - assert (nr = 1) as ->.
    { pose proof (u64_range (nr - 1)). unfold u64 in *. destruct (decide (nr = 0)) as [->|]; [by vm_compute in Hle|].
      rewrite Z.mod_small in Hle by lia. lia. }
    replace (scan_count 1 (r :: l)) with 1%nat by (unfold scan_count; cbn; lia). cbn [take drop Zsum].
    exists (u64 (1 - 1)), (shrunk_one st r rg f). split_and!; [|done|..].
    + rewrite Hr1. rewrite take_0. cbn. do 4 f_equal. lia.
    + rewrite El1. by rewrite drop_0.
    + rewrite take_0. apply (purged_all_cons st r rg f); [done..|by intros ?%elem_of_nil|]. apply purged_all_nil.
  - destruct (IH (shrunk_one st r rg f) (u64 (nr - 1)) (u64 (freed + range_size rg)) W1 El1 (u64_range _) ltac:(lia))
      as (nr' & st' & E & W' & El' & P). rewrite E.
    assert (Hn' : scan_count nr (r :: l) = S (scan_count (u64 (nr - 1)) l)).
    { unfold scan_count, u64 in *. destruct (Z.eqb_spec nr 0) as [->|].
      - destruct (Z.eqb_spec ((0 - 1) mod 2 ^ 64) 0); [done|]. cbn. change ((0 - 1) mod 2 ^ 64) with (2 ^ 64 - 1). lia.
      - rewrite Z.mod_small in Hgt |- * by lia. destruct (Z.eqb_spec (nr - 1) 0); [lia|]. cbn. lia. }
    rewrite Hn'. cbn [take drop]. exists nr', st'. split_and!; [|done|done|].
    + do 3 f_equal. cbn [Zsum]. rewrite Hr1. destruct (decide (l = [])) as [->|].
      * rewrite take_nil. cbn. f_equal. lia.
      * rewrite u64_add_l. rewrite (lru_pages_ext _ (ranges st)); [f_equal; lia|].
        intros q Hq. cbn. rewrite lookup_insert_ne; [done|]. intros <-. apply Hn. by eapply elem_of_take_in.
    + apply (purged_all_cons st r rg f); [done..| |done]. intros Hq. apply Hn. by eapply elem_of_take_in.
Qed.

Lemma pages_purged st st' l a p : purged_all st st' l -> unpinned_page st' a p <-> unpinned_page st a p.
Proof.
  intros [_ _ R _]. unfold unpinned_page, pages_with. split; intros (r & rg & Hr & Ea & _ & Hp).
  - rewrite R in Hr. destruct (decide (r ∈ l)); [|eauto 10].
    destruct (ranges st !! r) as [rg'|] eqn:E; [|done]. injection Hr as <-. exists r, rg'. done.
  - specialize (R r). rewrite Hr in R. destruct (decide (r ∈ l)); eexists r, _; (split; [done|]); done.
Qed.
End Shrink.

(** ** Release *)
Section Release.
Lemma with_unpinned_list_twice ar l l' : with_unpinned_list (with_unpinned_list ar l) l' = with_unpinned_list ar l'.
Proof. done. Qed.

Lemma release_loop_spec todo : forall st a ar, wf st -> areas st !! a = Some ar -> unpinned_list ar = todo ->
  exists st', release_loop todo st = Ok st' /\ wf st' /\ touches a st st' /\
    areas st' = <[a := with_unpinned_list ar []]> (areas st) /\
    (forall r rg, ranges st' !! r = Some rg -> asma rg ≠ a).
Proof.
  induction todo as [|r todo IH]; intros st a ar W Ha El; cbn [release_loop].
  - exists st. split_and!; [done|done|apply touches_refl; eauto| |].
    + rewrite insert_id; [done|]. rewrite Ha, <- El. by destruct ar.
    + intros r rg Hr E. assert (r ∈ unpinned_list ar) as Hin by (apply (wf_lists st W a ar Ha); eauto).
      rewrite El in Hin. by apply elem_of_nil in Hin.
  - destruct (member_range st a ar r W Ha) as (rg & Hr & Hrg); [rewrite El; left|].
    assert (Ha' : areas st !! asma rg = Some ar) by by rewrite Hrg.
    rewrite (range_del_eq st r rg ar W Hr Ha'). cbn [mbind res_bind].
    destruct (wf_lists st W a ar Ha) as (Hnd & _). rewrite El in Hnd.
    destruct (IH (deleted st r rg ar) a (with_unpinned_list ar todo)) as (st' & E & W' & T & A & R).
    + by apply deleted_wf.
    + cbn. rewrite Hrg, lookup_insert_eq, El. do 2 f_equal. by apply (list_del_mid r []).
    + done.
    + exists st'. split_and!; [done|done| | |done].
      * apply (touches_trans a st (deleted st r rg ar)); [|done]. rewrite <- Hrg at 1. by apply deleted_touches.
      * rewrite A. cbn. rewrite Hrg, insert_insert_eq. done.
Qed.

Lemma delete_area_wf st a : wf st -> (forall r rg, ranges st !! r = Some rg -> asma rg ≠ a) ->
  wf (set_areas st (delete a (areas st))).
Proof.
  intros W Hn. split; cbn.
  - intros b br [_ Hb]%lookup_delete_Some. by apply (wf_lists st W).
  - intros r rg Hr. rewrite lookup_delete_ne; [by apply (wf_owner st W r)|]. intros E. by apply (Hn r rg).
  - apply (wf_ranges st W).
  - apply (wf_lru st W).
  - apply (wf_count st W).
Qed.

(** [wf] looks at the areas, ranges and LRU list only. *)
Lemma wf_ext st st' : areas st' = areas st -> ranges st' = ranges st ->
  ashmem_lru_list st' = ashmem_lru_list st -> lru_count st' = lru_count st -> wf st -> wf st'.
Proof. intros E1 E2 E3 E4 [? ? ? ? ?]. split; rewrite ?E1, ?E2, ?E3, ?E4; done. Qed.

(** Changes of an area's fields other than its list. *)
Lemma put_area_wf st a ar ar' : wf st -> areas st !! a = Some ar ->
  unpinned_list ar' = unpinned_list ar -> (is_Some (file ar) -> is_Some (file ar')) -> wf (put_area st a ar').
Proof.
  intros W Ha El Hf. split; cbn; [..|apply (wf_ranges st W)|apply (wf_lru st W)|apply (wf_count st W)].
  - intros b br. destruct (decide (b = a)) as [->|Hne].
    + rewrite lookup_insert_eq. intros [= <-]. rewrite El. by apply (wf_lists st W).
    + rewrite lookup_insert_ne by done. apply (wf_lists st W).
  - intros r rg Hr. destruct (wf_owner st W r rg Hr) as (br & Hb & Hbf).
    destruct (decide (asma rg = a)) as [E|Hne].
    + rewrite E in *. rewrite lookup_insert_eq. rewrite Ha in Hb. injection Hb as <-. eauto.
    + rewrite lookup_insert_ne by done. eauto.
Qed.
End Release.

(** ** Names *)
Section Names.
Definition char (b : Z) : Prop := 0 < b < 256.

(** The area's array holds the prefix, the name [s], its NUL and anything. *)
Definition named ar (s : list Z) : Prop :=
  Forall char s /\ Z.of_nat (length s) < ASHMEM_NAME_LEN /\
  exists tail, name ar = ASHMEM_NAME_PREFIX ++ s ++ 0 :: tail /\
    Z.of_nat (length (name ar)) = ASHMEM_FULL_NAME_LEN.

Lemma c_string_app s tail : Forall char s -> c_string (s ++ 0 :: tail) = Some s.
Proof.
  induction 1 as [|b s Hb Hs IH]; [done|]. cbn. unfold char in Hb.
  destruct (Z.eqb_spec b 0); [lia|]. by rewrite IH.
Qed.

Lemma fresh_named : named (MkArea fresh_name [] None 0 PROT_MASK) [].
Proof. split_and!; [done|done|]. eexists. split; [|done]. reflexivity. Qed.

(** What [set_name] stores of the user's string: at most 255 characters. *)
Definition stored (s : list Z) : list Z := take 255 s.

(** What [get_name] delivers. *)
Definition shown (s : list Z) : list Z :=
  match s with [] => ASHMEM_NAME_DEF ++ [0] | _ => s ++ [0] end.

Lemma strcpy_named ar s0 s src tail : named ar s0 -> Forall char s -> Z.of_nat (length s) < ASHMEM_NAME_LEN ->
  src = s ++ 0 :: tail ->
  exists nm, strcpy (name ar) (Z.to_nat ASHMEM_NAME_PREFIX_LEN) src = Ok nm /\ named (with_name ar nm) s.
Proof.
  intros (_ & _ & tl & En & Hlen) Hs Hls ->. unfold strcpy. rewrite c_string_app by done. cbn [deref mbind res_bind].
  unfold ASHMEM_FULL_NAME_LEN, ASHMEM_NAME_LEN, ASHMEM_NAME_PREFIX_LEN in *.
  change (Z.to_nat 11) with 11%nat. rewrite decide_True by lia. eexists. split; [done|].
  split_and!; [done|done|]. cbn [name with_name]. exists (drop (11 + length s + 1) (name ar)). split.
  - rewrite En at 1. change (take 11 (ASHMEM_NAME_PREFIX ++ s0 ++ 0 :: tl)) with ASHMEM_NAME_PREFIX.
    done.
  - rewrite !length_app, length_take, length_drop. cbn [length].
    unfold ASHMEM_FULL_NAME_LEN, ASHMEM_NAME_LEN, ASHMEM_NAME_PREFIX_LEN. lia.
Qed.

Context {M : Type} {U : UserOps M} {L : UserLaws U}.

(** The local copy of the name is a C string, the first 255 characters. *)
Lemma local_name_string um p len dst : strncpy_from_user um p ASHMEM_NAME_LEN = (len, dst) -> 0 <= len ->
  exists s tail, Forall char s /\ Z.of_nat (length s) = len /\
    (if len =? ASHMEM_NAME_LEN then <[Z.to_nat (ASHMEM_NAME_LEN - 1) := 0]> dst else dst) = stored s ++ 0 :: tail /\
    Z.of_nat (length (stored s)) < ASHMEM_NAME_LEN /\ (dst = s ++ [0] \/ dst = s).
Proof.
  intros E Hlen. pose proof (strncpy_string (U := U) um p ASHMEM_NAME_LEN ltac:(done)) as [H|H];
    rewrite E in H; cbn in H; [lia|]. destruct H as (Hle & s & Hs & Els & Hd). unfold stored, ASHMEM_NAME_LEN in *.
  assert (Hst : Z.of_nat (length (take 255 s)) < 256) by (rewrite length_take; lia).
  destruct (Z.eqb_spec len 256) as [E256|Hne].
  - destruct Hd as [[? _]|[_ ->]]; [lia|]. exists s, []. split_and!; try done; [|by right].
    change (Z.to_nat (256 - 1)) with 255%nat.
    rewrite <- (take_drop 255 s) at 1. rewrite insert_app_r_alt by (rewrite length_take; lia).
    replace (255 - length (take 255 s))%nat with 0%nat by (rewrite length_take; lia).
    assert (Hd1 : length (drop 255 s) = 1%nat) by (rewrite length_drop; lia).
    destruct (drop 255 s) as [|b [|b' l]]; try done.
  - destruct Hd as [[_ ->]|[? _]]; [|lia]. exists s, []. split_and!; try done; [|by left].
    by rewrite take_ge by lia.
Qed.

Lemma set_name_spec um st a p ar s0 : areas st !! a = Some ar -> named ar s0 ->
  exists ret st', set_name um st a p = Ok (ret, st') /\
    ((ret < 0 /\ st' = st) \/
     (ret = 0 /\ file ar = None /\ exists s nm, st' = put_area st a (with_name ar nm) /\
        named (with_name ar nm) (stored s) /\
        (snd (strncpy_from_user um p ASHMEM_NAME_LEN) = s ++ [0] \/
         snd (strncpy_from_user um p ASHMEM_NAME_LEN) = s))).
Proof.
  intros Ha Hn. unfold set_name. destruct (strncpy_from_user um p ASHMEM_NAME_LEN) as [len dst] eqn:E.
  destruct (Z.ltb_spec len 0) as [|Hlen]; [exists len, st; auto|]. rewrite Ha. cbn [deref mbind res_bind].
  destruct (file ar) as [f|] eqn:Ef; [exists (- EINVAL), st; split; [done|]; left; done|].
  destruct (local_name_string um p len dst E Hlen) as (s & tail & Hs & Hls & -> & Hst & Hd).
  destruct (strcpy_named ar s0 (stored s) (stored s ++ 0 :: tail) tail) as (nm & -> & Hnm); try done.
  { by apply Forall_take. }
  cbn. exists 0, (put_area st a (with_name ar nm)). split; [done|]. right. split_and!; [done..|]. eauto 10.
Qed.

Lemma get_name_spec um st a p ar s : areas st !! a = Some ar -> named ar s ->
  get_name um st a p =
    Ok (if fst (copy_to_user um p (shown s)) then 0 else - EFAULT, snd (copy_to_user um p (shown s))).
Proof.
  intros Ha (Hs & Hls & tail & En & Hlen). unfold get_name. rewrite Ha. cbn [deref mbind res_bind].
  replace (drop (Z.to_nat ASHMEM_NAME_PREFIX_LEN) (name ar)) with (s ++ 0 :: tail) by (by rewrite En).
  destruct s as [|b s]; cbn [app head default shown].
  - change (0 =? 0) with true. cbn. by destruct (copy_to_user um p _).
  - apply Forall_cons in Hs as Hs'. destruct Hs' as [Hb _]. unfold char in Hb.
    change (id b) with b. destruct (Z.eqb_spec b 0); [lia|]. change (b :: s ++ 0 :: tail) with ((b :: s) ++ 0 :: tail). rewrite (c_string_app (b :: s) tail Hs). cbn [deref mbind res_bind].
    cbn [deref mbind res_bind].     rewrite (proj2 (Z.ltb_ge _ _)); [by destruct (copy_to_user um p _)|].
    rewrite length_app. cbn [length] in *. lia.
Qed.
End Names.

(** ** Ranges of requests *)
Section Requests.
(** The length a request means: zero stands for "everything onward". *)
Definition request_len (sz offset len : Z) : Z :=
  if len =? 0 then u32 (u64 (page_align sz) - offset) else len.

Lemma land_page_mask x : Z.land x (Z.lnot PAGE_MASK) = x mod 4096.
Proof. unfold PAGE_MASK, PAGE_SIZE. rewrite Z.lnot_involutive. apply (Z.land_ones x 12). lia. Qed.

Lemma lor_aligned x y : Z.land (Z.lor x y) (Z.lnot PAGE_MASK) = 0 <-> x mod 4096 = 0 /\ y mod 4096 = 0.
Proof.
  rewrite Z.land_lor_distr_l, !land_page_mask. rewrite Z.lor_eq_0_iff. done.
Qed.

Lemma pin_range_exact sz offset len s e : 0 <= offset < 2 ^ 32 -> 0 <= len < 2 ^ 32 ->
  pin_range sz offset len = Some (s, e) ->
  let l := request_len sz offset len in
  0 <= l < 2 ^ 32 /\ offset = 4096 * s /\ offset + l <= u64 (page_align sz) /\
  e = u64 (s + l / 4096 - 1) /\ l mod 4096 = 0.
Proof.
  intros Ho Hl. unfold pin_range. fold (request_len sz offset len). set (l := request_len sz offset len).
  assert (Hlr : 0 <= l < 2 ^ 32).
  { unfold l, request_len. destruct (len =? 0); [apply u32_range|done]. }
  destruct (Z.eqb_spec (Z.land (Z.lor offset l) (Z.lnot PAGE_MASK)) 0) as [Hal|]; [|done].
  apply lor_aligned in Hal as [Ha1 Ha2]. cbn [negb].
  destruct (Z.ltb_spec (2 ^ 32 - 1 - offset) l); [done|].
  destruct (Z.ltb_spec (u64 (page_align sz)) (u32 (offset + l))) as [|Hfit]; [done|].
  rewrite u32_small in Hfit by lia. intros [= <- <-]. unfold PAGE_SIZE. split_and!; try done; zdiv.
Qed.

(** Every accepted request is a range of pages, possibly empty. *)
Lemma pin_range_bounds sz offset len s e : 0 <= offset < 2 ^ 32 -> 0 <= len < 2 ^ 32 ->
  pin_range sz offset len = Some (s, e) -> 0 <= s <= e + 1 /\ 0 <= e < 2 ^ 64.
Proof.
  intros Ho Hl H. apply pin_range_exact in H as (Hlr & Hs & Hfit & -> & Hm); [|done..].
  set (l := request_len sz offset len) in *. pose proof (u64_range (s + l / 4096 - 1)) as R.
  assert (0 <= l / 4096 < 2 ^ 20) by (split; [apply Z.div_pos; lia|apply Z.div_lt_upper_bound; lia]).
  destruct (decide (s + l / 4096 = 0)) as [E|E].
  - assert (s = 0) as -> by lia. replace (l / 4096) with 0 by lia. change (u64 (0 + 0 - 1)) with (2 ^ 64 - 1). lia.
  - rewrite u64_small in * by lia. lia.
Qed.
End Requests.

(** ** The ioctl entry points never fault *)
Section Safety.
Context {M : Type} {U : UserOps M} {L : UserLaws U}.

Definition sound st : Prop := wf st /\ forall a ar, areas st !! a = Some ar -> exists s, named ar s.

Lemma sound_put_area st a ar ar' : sound st -> areas st !! a = Some ar ->
  unpinned_list ar' = unpinned_list ar -> file ar' = file ar -> (exists s, named ar' s) -> sound (put_area st a ar').
Proof.
  intros [W N] Ha El Ef Hn. split; [apply (put_area_wf st a ar); [done..|by rewrite Ef]|].
  intros b br. cbn. rewrite lookup_insert_Some. intros [[<- <-]|[_ Hb]]; [done|by apply (N b)].
Qed.

Lemma sound_touches st st' a : sound st -> wf st' -> touches a st st' -> sound st'.
Proof.
  intros [W N] W' ((ar & l & Ha & E) & _). split; [done|]. intros b br. rewrite E, lookup_insert_Some.
  intros [[<- <-]|[_ Hb]]; [|by apply (N b)]. destruct (N a ar Ha) as (s & Hs). exists s. exact Hs.
Qed.

(** What an operation on the file of area [a] leaves: a sound state in which the
    file still refers to the area, with the same backing file. *)
Definition kept st st' a ar : Prop :=
  sound st' /\ files st' = files st /\ exists ar', areas st' !! a = Some ar' /\ file ar' = file ar.

Lemma kept_refl st a ar : sound st -> areas st !! a = Some ar -> kept st st a ar.
Proof. intros. split_and!; eauto. Qed.

Lemma kept_touches st st' a ar : sound st -> areas st !! a = Some ar -> wf st' -> touches a st st' -> kept st st' a ar.
Proof.
  intros S Ha W T. split_and!; [by apply (sound_touches st st' a)|apply T|].
  destruct (touches_area a st st' ar T Ha) as (l & ->). by eexists.
Qed.

Lemma kept_put_area st a ar ar' : sound st -> areas st !! a = Some ar ->
  unpinned_list ar' = unpinned_list ar -> file ar' = file ar -> (exists s, named ar' s) ->
  kept st (put_area st a ar') a ar.
Proof.
  intros S Ha El Ef Hn. split_and!; [by apply (sound_put_area st a ar)|done|].
  exists ar'. cbn. by rewrite lookup_insert_eq.
Qed.

Lemma pin_words um p pin : copy_from_user um p 8 = Some pin ->
  0 <= le_val (take 4 pin) < 2 ^ 32 /\ 0 <= le_val (drop 4 pin) < 2 ^ 32.
Proof.
  intros E. pose proof (copy_from_user_length _ _ _ _ E) as Hl. pose proof (copy_from_user_bytes _ _ _ _ E) as Hb.
  assert (L1 : length (take 4 pin) = 4%nat) by (rewrite length_take; lia).
  assert (L2 : length (drop 4 pin) = 4%nat) by (rewrite length_drop; lia).
  pose proof (le_val_range (take 4 pin) ltac:(by apply Forall_take)) as R1. rewrite L1 in R1.
  pose proof (le_val_range (drop 4 pin) ltac:(by apply Forall_drop)) as R2. rewrite L2 in R2.
  done.
Qed.

Lemma pin_unpin_safe zalloc um st a ar cmd p : sound st -> areas st !! a = Some ar ->
  (forall x, zalloc = Some x -> ranges st !! x = None) ->
  exists r st', ashmem_pin_unpin zalloc um st a cmd p = Ok (r, st') /\ kept st st' a ar.
Proof.
  intros S Ha Hz. unfold ashmem_pin_unpin. rewrite Ha. cbn [deref mbind res_bind].
  assert (Hid : forall r, exists r' st', Ok (r, st) = Ok (r', st') /\ kept st st' a ar).
  { intros r. exists r, st. split; [done|by apply kept_refl]. }
  destruct (file ar) as [f|] eqn:Ef; [|apply Hid].
  destruct (copy_from_user um p 8) as [pin|] eqn:Ec; [|apply Hid].
  destruct (pin_words um p pin Ec) as [B1 B2].
  destruct (pin_range _ _ _) as [[s e]|] eqn:Ep; [|apply Hid].
  apply pin_range_bounds in Ep as [Hs He]; [|done..]. pose proof S as [W _].
  destruct (cmd =? ASHMEM_PIN).
  { destruct (pin_spec zalloc a s e ltac:(lia) ltac:(lia) He st ar W Ha Hz) as (r & st' & -> & W' & P & _).
    exists r, st'. split; [done|]. by apply kept_touches; try apply P. }
  destruct (cmd =? ASHMEM_UNPIN).
  { destruct (unpin_spec zalloc a st ar s e W Ha ltac:(eauto) Hz Hs He) as (r & st' & -> & W' & P).
    exists r, st'. split; [done|]. by apply kept_touches; try apply P. }
  destruct (cmd =? ASHMEM_GET_PIN_STATUS); [|apply Hid].
  destruct (pin_status_safe st a ar s e W Ha) as (r & ->). cbn. apply Hid.
Qed.

Lemma shrink_scan_spec st gfp nr : wf st -> 0 <= nr < 2 ^ 64 ->
  Z.of_nat (length (ashmem_lru_list st)) < 2 ^ 64 -> Z.land gfp __GFP_FS ≠ 0 ->
  let n := scan_count nr (ashmem_lru_list st) in
  exists nr' st', ashmem_shrink_scan st gfp nr =
      Ok (u64 (Zsum (lru_pages (ranges st)) (take n (ashmem_lru_list st))), nr', st') /\
    wf st' /\ ashmem_lru_list st' = drop n (ashmem_lru_list st) /\
    purged_all st st' (take n (ashmem_lru_list st)).
Proof.
  intros W Hnr Hlen Hg n. unfold ashmem_shrink_scan. rewrite (proj2 (Z.eqb_neq _ _) Hg).
  destruct (shrink_loop_spec _ st nr 0 W eq_refl Hnr Hlen) as (nr' & st' & -> & H).
  exists nr', st'. split; [|exact H]. do 3 f_equal. destruct (decide _) as [->|]; [by rewrite take_nil|].
  f_equal.
Qed.

Lemma purged_all_kept st st' l a ar : sound st -> areas st !! a = Some ar -> wf st' -> purged_all st st' l ->
  kept st st' a ar.
Proof.
  intros [W N] Ha W' [A F _ _]. split_and!; [split; [done|by rewrite A]|done|].
  exists ar. by rewrite A.
Qed.

Lemma set_prot_mask_kept per st a ar prot : sound st -> areas st !! a = Some ar ->
  exists r st', set_prot_mask per st a prot = Ok (r, st') /\ kept st st' a ar.
Proof.
  intros S Ha. unfold set_prot_mask. rewrite Ha. cbn [deref mbind res_bind].
  destruct (negb _); [exists (- EINVAL), st; split; [done|by apply kept_refl]|].
  eexists 0, _. split; [done|]. apply kept_put_area; try done. destruct (proj2 S a ar Ha) as (s & Hs). by exists s.
Qed.

Lemma ioctl_safe zalloc current um st filp a ar cmd arg vf :
  sound st -> files st !! filp = Some vf -> private_data vf = Some a -> areas st !! a = Some ar ->
  (forall x, zalloc = Some x -> ranges st !! x = None) -> Z.of_nat (length (ashmem_lru_list st)) < 2 ^ 64 ->
  exists r st' um', ashmem_ioctl zalloc current um st filp cmd arg = Ok (r, st', um') /\ kept st st' a ar.
Proof.
  intros S Hf Hp Ha Hz Hlen. pose proof S as [W N]. destruct (N a ar Ha) as (s0 & Hs0).
  assert (Hid : forall (r : Z) (um' : M), exists r' st' (um'' : M), Ok (r, st, um') = Ok (r', st', um'') /\ kept st st' a ar).
  { intros r um'. exists r, st, um'. split; [done|by apply kept_refl]. }
  unfold ashmem_ioctl, file_area. rewrite Hf. cbn [deref mbind res_bind]. rewrite Hp. cbn [deref mbind res_bind].
  rewrite Ha. cbn [deref mbind res_bind].
  destruct (cmd =? ASHMEM_SET_NAME).
  { destruct (set_name_spec um st a arg ar s0 Ha Hs0) as (r & st' & -> & H). cbn. exists r, st', um. split; [done|].
    destruct H as [[_ ->]|(_ & _ & s & nm & -> & Hn & _)]; [by apply kept_refl|]. apply kept_put_area; eauto. }
  destruct (cmd =? ASHMEM_GET_NAME).
  { rewrite (get_name_spec um st a arg ar s0) by done. apply Hid. }
  destruct (cmd =? ASHMEM_SET_SIZE).
  { destruct (file ar) eqn:Ef; [apply Hid|]. exists 0, (put_area st a (with_size ar arg)), um. split; [done|].
    apply kept_put_area; try done. exists s0. exact Hs0. }
  destruct (cmd =? ASHMEM_GET_SIZE); [apply Hid|].
  destruct (cmd =? ASHMEM_SET_PROT_MASK).
  { destruct (set_prot_mask_kept (personality current) st a ar arg S Ha) as (r & st' & -> & K). cbn. eauto. }
  destruct (cmd =? ASHMEM_GET_PROT_MASK); [apply Hid|].
  destruct ((cmd =? ASHMEM_PIN) || (cmd =? ASHMEM_UNPIN) || (cmd =? ASHMEM_GET_PIN_STATUS)).
  { destruct (pin_unpin_safe zalloc um st a ar cmd arg S Ha Hz) as (r & st' & -> & K). cbn. eauto. }
  destruct (cmd =? ASHMEM_PURGE_ALL_CACHES); [|apply Hid].
  destruct (capable_sys_admin current); [|apply Hid].
  destruct (shrink_scan_spec st GFP_KERNEL LONG_MAX W) as (nr' & st' & -> & W' & _ & P); [done|done|done|].
  cbn. eexists _, st', um. split; [done|]. by eapply purged_all_kept.
Qed.
End Safety.
