(* ===== verification/AshmemProps.v ===== *)
(** * Properties of the ashmem driver

    The abstract view of an area is its set of unpinned pages and the purged
    ones among them ([unpinned_page], [purged_page]); the theorems say what each
    operation does to it, and that no operation on a well-formed state faults.
    The witnesses evaluate the definitions on a 64 KiB area. *)
From S2P Require Import Prelude UserMem Ashmem AshmemInv AshmemPin AshmemOps.

(** ** A concrete state for the witnesses *)
Section Demo.
Definition demo_area : ashmem_area := MkArea fresh_name [20] (Some 50) 65536 PROT_MASK.

(** Pages 4 to 9 of the area 10 are unpinned; file 40 is its device file. *)
Definition demo_state : ashmem :=
  MkAshmem {[10 := demo_area]} {[20 := MkRange 10 4 9 0]} [20] 6
    {[40 := MkFile 1 0 (Some 10); 50 := MkFile 1 0 None]} [].

Lemma demo_ranges r rg : ranges demo_state !! r = Some rg -> r = 20 /\ rg = MkRange 10 4 9 0.
Proof. unfold demo_state. cbn [ranges]. intros [<- <-]%lookup_singleton_Some. done. Qed.
Lemma demo_areas a ar : areas demo_state !! a = Some ar -> a = 10 /\ ar = demo_area.
Proof. unfold demo_state. cbn [areas]. intros [<- <-]%lookup_singleton_Some. done. Qed.

Lemma demo_wf : wf demo_state.
Proof.
  split.
  - intros a ar [-> ->]%demo_areas. split_and!; [apply NoDup_singleton|by repeat constructor|].
    intros r. cbn. rewrite list_elem_of_singleton. split.
    + intros ->. by eexists.
    + by intros (rg & [-> ->]%demo_ranges & _).
  - intros r rg [-> ->]%demo_ranges. exists demo_area. split; [done|]. by exists 50.
  - intros r rg [-> ->]%demo_ranges. unfold good_range. cbn. lia.
  - split; [apply NoDup_singleton|]. intros r. cbn. rewrite list_elem_of_singleton. split.
    + intros ->. by eexists.
    + by intros (rg & [-> ->]%demo_ranges & _).
  - reflexivity.
Qed.

Lemma demo_sound : sound demo_state.
Proof.
  split; [apply demo_wf|]. intros a ar [-> ->]%demo_areas. exists []. exact fresh_named.
Qed.

Lemma demo_solid : solid demo_state.
Proof. intros r rg [-> ->]%demo_ranges. cbn. lia. Qed.
End Demo.

(** ** Pinning *)
Section Pinning.
Implicit Types (st : ashmem) (a s e p : Z) (ar : ashmem_area).

(** What the loop collects, in terms of pages. *)
Lemma pin_answer st a ar s e ret : wf st -> areas st !! a = Some ar -> s <= e ->
  (ret = 1 <-> 0 = 1 \/ hits s e st (unpinned_list ar)) ->
  ret = ASHMEM_WAS_PURGED <-> (exists p, s <= p <= e /\ purged_page st a p) \/
    exists r rg, ranges st !! r = Some rg /\ asma rg = a /\ purged rg = 1 /\ pgend rg < pgstart rg /\ s <= pgend rg <= e.
Proof.
  intros W Ha Hse F. unfold ASHMEM_WAS_PURGED. rewrite F. split.
  - intros [?|(r & rg & Hin & Hr & Hi & Hle & Hp)]; [done|].
    destruct (member_range st a ar r W Ha Hin) as (rg' & Hr' & Hrg). rewrite Hr in Hr'. injection Hr' as <-.
    destruct (Z.le_gt_cases (pgstart rg) (pgend rg)) as [H|H].
    + left. apply in_range_overlap in Hi as (p & ? & ?); [|done..]. exists p. split; [done|]. by exists r, rg.
    + right. apply in_range_spec in Hi. exists r, rg. split_and!; (done || lia).
  - intros H. right. assert (exists r rg, ranges st !! r = Some rg /\ asma rg = a /\ purged rg = 1 /\ page_range_in_range rg s e = true /\ s <= pgend rg) as (r & rg & Hr & Hrg & Hp & Hi & Hle).
    { destruct H as [(p & Hp & r & rg & Hr & Hrg & H1 & Hin)|(r & rg & Hr & Hrg & H1 & H2 & H3)]; exists r, rg; (split_and!; [done..| |lia]); apply in_range_spec; [lia|].
      destruct (wf_ranges st W r rg Hr) as (? & _). lia. }
    exists r, rg. split_and!; try done. apply (wf_lists st W a ar Ha). eauto.
Qed.

(** The abstract specification of [ASHMEM_PIN]: the requested pages leave the
    set, the answer tells whether one of them was purged.  Two failings of the driver show
    in it.  Without memory for the split of a range, the pages above the request in the
    range that starts below it leave the set too ([pc_lost]).  And an empty range, which
    [ASHMEM_UNPIN] of nothing at the end of an area records, counts as purged when its place
    is inside of the request ([pc_ret]); pinning itself makes none ([pc_solid]). *)
Record pin_contract st st' a s e (alloc : bool) (ret : Z) : Prop := {
  pc_touches : touches a st st';
  pc_unpinned : forall p, unpinned_page st' a p -> unpinned_page st a p /\ ~ s <= p <= e;
  pc_kept : alloc = true -> forall p, unpinned_page st a p -> ~ s <= p <= e -> unpinned_page st' a p;
  pc_purged : alloc = true -> forall p, ~ s <= p <= e -> (purged_page st' a p <-> purged_page st a p);
  pc_lost : forall p, unpinned_page st a p -> ~ s <= p <= e -> unpinned_page st' a p \/
    (alloc = false /\ exists r rg, ranges st !! r = Some rg /\ asma rg = a /\ pgstart rg < s /\ e < p <= pgend rg);
  pc_ret : (ret = ASHMEM_WAS_PURGED \/ ret = ASHMEM_NOT_PURGED) /\
    (ret = ASHMEM_WAS_PURGED <-> (exists p, s <= p <= e /\ purged_page st a p) \/
       exists r rg, ranges st !! r = Some rg /\ asma rg = a /\ purged rg = 1 /\ pgend rg < pgstart rg /\ s <= pgend rg <= e);
  pc_solid : solid st -> solid st' /\ (ret = ASHMEM_WAS_PURGED <-> exists p, s <= p <= e /\ purged_page st a p)
}.

(** C15: [ashmem_pin] refines its contract: on a well-formed state it does not
    fault, keeps the state well formed, touches no other area, and removes the
    requested pages from the unpinned ones of this area and, if an allocation for a split
    succeeds or none is needed, no others; if it fails, the pages above the request in
    the range to be split go too.  It answers [ASHMEM_WAS_PURGED] if and only if a
    requested page was purged, provided that no range is empty, which it keeps true; an
    empty purged range whose place is in the request gives that answer too. *)
Theorem ashmem_pin_correct zalloc st a ar s e :
  wf st -> areas st !! a = Some ar -> (forall x, zalloc = Some x -> ranges st !! x = None) ->
  0 <= s <= e -> e < 2 ^ 64 ->
  exists ret st', ashmem_pin zalloc st a s e = Ok (ret, st') /\ wf st' /\
    pin_contract st st' a s e (bool_decide (is_Some zalloc)) ret.
Proof.
  intros W Ha Hz Hs He.
  destruct (pin_spec zalloc a s e ltac:(lia) ltac:(lia) ltac:(lia) st ar W Ha Hz) as (ret & st' & E & W' & [T G K] & F1 & F2).
  assert (in_bounds st) as Hb by (intros r rg Hr; destruct (wf_ranges st W r rg Hr) as (? & ? & _); lia).
  pose proof E as EL. unfold ashmem_pin in EL. rewrite Ha in EL. cbn [deref mbind res_bind] in EL.
  assert (R : (ret = ASHMEM_WAS_PURGED \/ ret = ASHMEM_NOT_PURGED) /\ (ret = ASHMEM_WAS_PURGED <-> (exists p, s <= p <= e /\ purged_page st a p) \/
       exists r rg, ranges st !! r = Some rg /\ asma rg = a /\ purged rg = 1 /\ pgend rg < pgstart rg /\ s <= pgend rg <= e)).
  { split; [destruct F1; auto|]. exact (pin_answer st a ar s e ret W Ha ltac:(lia) F2). }
  exists ret, st'. split_and!; [done|done|]. split.
  - done.
  - intros p. apply G.
  - intros Hal p Hp Hn. apply bool_decide_eq_true in Hal. by apply K.
  - intros Hal p Hn. apply bool_decide_eq_true in Hal. split; [apply G|]. intros Hp. by apply K.
  - intros p Hp Hn. destruct zalloc as [x|]; [left; apply K; [by exists x|done]|]. destruct Hp as (r & rg & Hr & Hrg & _ & Hp).
    destruct (pin_loop_lost a s e Hs He _ _ _ _ _ Hb EL r rg p Hr Hp Hn) as [(rg' & ? & ? & ?)|[? ?]].
    + left. exists r, rg'. split_and!; (done || congruence || lia).
    + right. split; [done|]. exists r, rg. split_and!; (done || lia).
  - exact R.
  - intros Hso. split; [by apply (pin_loop_solid a s e Hs He _ _ _ _ _ _ Hso Hb EL)|]. destruct R as [_ ->]. split; [|by left].
    intros [?|(r & rg & Hr & _ & _ & ? & _)]; [done|]. specialize (Hso r rg Hr). lia.
Qed.

(** C16: [ashmem_unpin] terminates without a fault on a well-formed state and
    keeps it well formed.  When it returns 0, exactly the requested pages have
    been added to the unpinned ones (overlapping ranges are merged), pages that
    were purged stay marked so, and no range is marked purged if none was; it
    fails only with [-ENOMEM] for want of memory, and then unpins nothing. *)
Theorem ashmem_unpin_correct zalloc st a ar s e :
  wf st -> areas st !! a = Some ar -> is_Some (file ar) ->
  (forall x, zalloc = Some x -> ranges st !! x = None) -> 0 <= s <= e -> e < 2 ^ 64 ->
  exists ret st', ashmem_unpin zalloc st a s e = Ok (ret, st') /\ wf st' /\ touches a st st' /\
    ((ret = 0 /\ forall p, unpinned_page st' a p <-> unpinned_page st a p \/ s <= p <= e) \/
     (ret = - ENOMEM /\ zalloc = None /\ forall p, unpinned_page st' a p -> unpinned_page st a p)) /\
    (ret = 0 -> forall p, purged_page st a p -> purged_page st' a p) /\
    (clean a st -> clean a st').
Proof.
  intros W Ha Hf Hz Hs He.
  destruct (unpin_spec zalloc a st ar s e W Ha Hf Hz ltac:(lia) ltac:(lia)) as (ret & st' & E & W' & [T R P C]).
  exists ret, st'. split_and!; [done|done|done| | |auto].
  - destruct R as [R|(? & ? & ?)]; [by left|by right].
  - intros Hr p Hp. by apply P; [|left].
Qed.

(** [ashmem_get_pin_status] answers [ASHMEM_IS_UNPINNED] if and only if some
    page of the request is unpinned, provided no range is empty. *)
Theorem ashmem_get_pin_status_correct st a ar s e : wf st -> areas st !! a = Some ar -> solid st -> s <= e ->
  exists ret, ashmem_get_pin_status st a s e = Ok ret /\
    (ret = ASHMEM_IS_PINNED \/ ret = ASHMEM_IS_UNPINNED) /\
    (ret = ASHMEM_IS_UNPINNED <-> exists p, s <= p <= e /\ unpinned_page st a p).
Proof. apply pin_status_spec. Qed.

(** The checks of [ashmem_pin_unpin] accept only page-aligned requests that
    end inside the rounded-up area: an accepted request of non-zero effective
    length [l] is the pages [s .. e] with [4096*s] its offset, [s <= e] and
    [4096*(e+1) = offset + l <= PAGE_ALIGN(size)]. *)
Theorem pin_range_correct sz offset len s e : 0 <= offset < 2 ^ 32 -> 0 <= len < 2 ^ 32 ->
  pin_range sz offset len = Some (s, e) -> request_len sz offset len ≠ 0 ->
  0 <= s <= e /\ 4096 * s = offset /\ 4096 * (e + 1) = offset + request_len sz offset len /\
  4096 * (e + 1) <= u64 (page_align sz).
Proof.
  intros Ho Hl E Hne. apply pin_range_exact in E as (Hr & -> & Hfit & -> & Hm); [|done..].
  set (l := request_len sz (4096 * s) len) in *.
  assert (4096 * (l / 4096) = l) by zdiv. assert (1 <= l / 4096) by zdiv.
  rewrite u64_small by zdiv. lia.
Qed.
End Pinning.

(** ** The shrinker, names and protection *)
Section Others.
Implicit Types (st : ashmem) (a p : Z) (ar : ashmem_area).

(** C18: [ashmem_shrink_scan] purges the first [nr_to_scan] ranges of the LRU list
    in order (all of them when [nr_to_scan] is 0): exactly these are marked and
    leave the list, one hole is punched in the backing file for each, the result
    is the number of their pages, and the unpinned pages do not change. *)
Theorem ashmem_shrink_scan_correct st gfp nr : wf st -> 0 <= nr < 2 ^ 64 ->
  Z.of_nat (length (ashmem_lru_list st)) < 2 ^ 64 -> Z.land gfp __GFP_FS ≠ 0 ->
  let n := scan_count nr (ashmem_lru_list st) in
  exists nr' st', ashmem_shrink_scan st gfp nr =
      Ok (u64 (Zsum (lru_pages (ranges st)) (take n (ashmem_lru_list st))), nr', st') /\
    wf st' /\ ashmem_lru_list st' = drop n (ashmem_lru_list st) /\
    purged_all st st' (take n (ashmem_lru_list st)) /\
    forall a p, unpinned_page st' a p <-> unpinned_page st a p.
Proof.
  intros W Hnr Hlen Hg n. destruct (shrink_scan_spec st gfp nr W Hnr Hlen Hg) as (nr' & st' & E & W' & El & P).
  exists nr', st'. split_and!; try done. intros a p. by apply (pages_purged st st' _ a p P).
Qed.

(** [lru_count] is the number of pages on the LRU list, so
    [ashmem_shrink_count] reports what a full scan would free. *)
Theorem ashmem_shrink_count_correct st : wf st -> Z.of_nat (length (ashmem_lru_list st)) < 2 ^ 64 ->
  exists nr' st', ashmem_shrink_scan st GFP_KERNEL 0 = Ok (ashmem_shrink_count st, nr', st') /\
    ashmem_lru_list st' = [] /\ ashmem_shrink_count st' = 0.
Proof.
  intros W Hlen. destruct (shrink_scan_spec st GFP_KERNEL 0 W) as (nr' & st' & E & W' & El & _); [done..|].
  unfold scan_count in *. rewrite take_ge, drop_ge in * by done. exists nr', st'. unfold ashmem_shrink_count.
  rewrite E, (wf_count st W), (wf_count st' W'), El. done.
Qed.

(** The protection mask is replaced only by a subset of itself, plus
    [PROT_EXEC] for a process with [READ_IMPLIES_EXEC] that keeps [PROT_READ]; a
    request for more fails with [-EINVAL] and changes nothing. *)
Theorem set_prot_mask_correct per st a ar prot : areas st !! a = Some ar ->
  exists ret st', set_prot_mask per st a prot = Ok (ret, st') /\
    if Z.land (prot_mask ar) prot =? prot then
      ret = 0 /\ exists m, st' = put_area st a (with_prot_mask ar m) /\
        (m = prot \/ (m = Z.lor prot PROT_EXEC /\ Z.land per READ_IMPLIES_EXEC ≠ 0 /\ Z.land prot PROT_READ ≠ 0)) /\
        (Z.land per READ_IMPLIES_EXEC = 0 -> Z.land (prot_mask ar) m = m)
    else ret = - EINVAL /\ st' = st.
Proof.
  intros Ha. unfold set_prot_mask. rewrite Ha. cbn [deref mbind res_bind].
  destruct (Z.eqb_spec (Z.land (prot_mask ar) prot) prot) as [Hsub|]; cbn [negb]; [|eauto].
  eexists 0, _. split; [done|]. split; [done|]. eexists. split; [done|].
  destruct (Z.eqb_spec (Z.land prot PROT_READ) 0), (Z.eqb_spec (Z.land per READ_IMPLIES_EXEC) 0); cbn; naive_solver.
Qed.
End Others.

Section Names.
Context {M : Type} {U : UserOps M} {L : UserLaws U}.
Implicit Types (st : ashmem) (a p : Z) (ar : ashmem_area).

(** A name set by [ASHMEM_SET_NAME] is what [ASHMEM_GET_NAME] delivers: the
    first 255 characters of the user's string with a NUL, or ["dev/ashmem"] when
    the string was empty; neither copy leaves its array. *)
Theorem name_roundtrip um um2 st a ar s0 p q len dst :
  areas st !! a = Some ar -> named ar s0 -> file ar = None ->
  strncpy_from_user um p ASHMEM_NAME_LEN = (len, dst) -> 0 <= len ->
  exists s st', (dst = s ++ [0] \/ dst = s) /\ Z.of_nat (length s) = len /\
    set_name um st a p = Ok (0, st') /\
    get_name um2 st' a q =
      Ok (if fst (copy_to_user um2 q (shown (stored s))) then 0 else - EFAULT,
          snd (copy_to_user um2 q (shown (stored s)))).
Proof.
  intros Ha Hn Hf E Hlen. destruct (local_name_string um p len dst E Hlen) as (s & tail & Hs & Hls & El & Hst & Hd).
  destruct (strcpy_named ar s0 (stored s) _ tail Hn ltac:(by apply Forall_take) Hst El) as (nm & Ec & Hnm).
  exists s, (put_area st a (with_name ar nm)). split_and!; [done|done| |].
  - unfold set_name. rewrite E, (proj2 (Z.ltb_ge _ _)) by done. rewrite Ha. cbn [deref mbind res_bind].
    rewrite Hf, Ec. done.
  - apply (get_name_spec um2 _ a q (with_name ar nm)); [|done]. cbn. by rewrite lookup_insert_eq.
Qed.

(** C17: whatever a process passes to [ioctl] on an open ashmem file, native or
    compat, the handler does not fault, keeps the driver state sound, and leaves
    the file with its area and backing file. *)
Theorem ashmem_ioctl_safe zalloc current um st filp a ar cmd arg vf :
  sound st -> files st !! filp = Some vf -> private_data vf = Some a -> areas st !! a = Some ar ->
  (forall x, zalloc = Some x -> ranges st !! x = None) -> Z.of_nat (length (ashmem_lru_list st)) < 2 ^ 64 ->
  (exists r st' um', ashmem_ioctl zalloc current um st filp cmd arg = Ok (r, st', um') /\ kept st st' a ar) /\
  (exists r st' um', compat_ashmem_ioctl zalloc current um st filp cmd arg = Ok (r, st', um') /\ kept st st' a ar).
Proof. intros. split; by apply (ioctl_safe zalloc current um st filp a ar _ arg vf). Qed.
End Names.

(** ** Files: mmap, release and the [int] results *)
Section Files.
Context {V : Vfs}.
Implicit Types (st : ashmem) (a p : Z) (ar : ashmem_area).

(** What mmap relies on in the memory manager (linux/mman.h, mm/shmem.c). *)
Record mman_laws : Prop := {
  prot_bits_law prot : calc_vm_prot_bits prot = Z.land prot PROT_MASK;
  vm_trans_law x bit1 bit2 : _calc_vm_trans x bit1 bit2 = if Z.land x bit1 =? 0 then 0 else bit2;
  file_setup_law nm sz flags fs err : fst (shmem_file_setup nm sz flags fs) = inl err -> - 4096 < err < 0;
  zero_setup_law vma fs : vm_flags (snd (fst (shmem_zero_setup vma fs))) = vm_flags vma
}.

Lemma testbit_u64 x i : 0 <= i < 64 -> Z.testbit (u64 x) i = Z.testbit x i.
Proof. intros. unfold u64. apply Z.mod_pow2_bits_low. lia. Qed.

Lemma testbit_pow2 i j : 0 <= i -> 0 <= j -> Z.testbit (2 ^ i) j = bool_decide (i = j).
Proof.
  intros. case_bool_decide as E; [subst; by apply Z.pow2_bits_true|by apply Z.pow2_bits_false].
Qed.

Lemma land_pow2_zero x i : 0 <= i -> Z.land x (2 ^ i) = 0 <-> Z.testbit x i = false.
Proof.
  intros Hi. split.
  - intros H. apply (f_equal (fun y => Z.testbit y i)) in H.
    rewrite Z.land_spec, testbit_pow2, bool_decide_eq_true_2, andb_true_r, Z.bits_0 in H by done. done.
  - intros H. apply Z.bits_inj_0. intros n. rewrite Z.land_spec. destruct (decide (0 <= n)) as [Hn|Hn].
    + rewrite testbit_pow2 by done. case_bool_decide as E; [by subst; rewrite H|apply andb_false_r].
    + by rewrite Z.testbit_neg_r by lia.
Qed.

Lemma may_flags_bit ml x i : mman_laws -> ml = calc_vm_may_flags x -> 0 <= i < 3 ->
  Z.testbit ml (i + 4) = Z.testbit x i.
Proof.
  intros Hl -> Hi. unfold calc_vm_may_flags. rewrite !(vm_trans_law Hl), !Z.lor_spec.
  change PROT_READ with (2 ^ 0). change PROT_WRITE with (2 ^ 1). change PROT_EXEC with (2 ^ 2).
  assert (T : forall k, 0 <= k -> (Z.land x (2 ^ k) =? 0) = negb (Z.testbit x k)).
  { intros k Hk. destruct (Z.testbit x k) eqn:E; [apply Z.eqb_neq|apply Z.eqb_eq];
      rewrite land_pow2_zero by done; congruence. }
  rewrite !T by done. assert (i = 0 \/ i = 1 \/ i = 2) as [->|[->| ->]] by lia;
    destruct (Z.testbit x 0), (Z.testbit x 1), (Z.testbit x 2); reflexivity.
Qed.

(** The checks that come first. *)
Lemma mmap_checks flags mask m i : mman_laws ->
  Z.land (Z.land flags (Z.lnot (calc_vm_prot_bits mask))) (calc_vm_prot_bits PROT_MASK) = 0 ->
  m = Z.land flags (Z.lnot (calc_vm_may_flags (u64 (Z.lnot mask)))) ->
  0 <= i < 3 -> Z.testbit mask i = false -> Z.testbit flags i = false /\ Z.testbit m (i + 4) = false.
Proof.
  intros Hl Hc -> Hi Hm. assert (Hp : Z.testbit PROT_MASK i = true).
  { assert (i = 0 \/ i = 1 \/ i = 2) as [->|[->| ->]] by lia; reflexivity. }
  split.
  - apply (f_equal (fun y => Z.testbit y i)) in Hc. rewrite !(prot_bits_law Hl), Z.bits_0 in Hc.
    rewrite !Z.land_spec, Z.lnot_spec, Z.land_spec, Hm, Hp in Hc by lia. cbn in Hc.
    by rewrite !andb_true_r in Hc.
  - rewrite Z.land_spec, Z.lnot_spec by lia.
    rewrite (may_flags_bit _ (u64 (Z.lnot mask)) i Hl eq_refl Hi), testbit_u64, Z.lnot_spec by lia.
    rewrite Hm. apply andb_false_r.
Qed.

(** The end of [ashmem_mmap], once the area has the backing file [f]. *)
Definition mmap_tail st vma f : res (Z * vm_area * ashmem) :=
  st ← get_file st f;
  let '(ret, vma, st) :=
    if negb (Z.land (vm_flags vma) VM_SHARED =? 0) then
      let '(ret, vma, fs) := shmem_zero_setup vma (files st) in (ret, vma, set_files st fs)
    else (0, vma, st) in
  if negb (ret =? 0) then st ← fput st f; Ok (ret, vma, st) else
  st ← match vm_file vma with Some old => fput st old | None => Ok st end;
  Ok (0, MkVma (vm_flags vma) (Some f), st).

Lemma mmap_tail_spec st vma f vma' st' : mman_laws -> mmap_tail st vma f = Ok (0, vma', st') ->
  vm_flags vma' = vm_flags vma /\ vm_file vma' = Some f /\ areas st' = areas st.
Proof.
  intros Hl. unfold mmap_tail, get_file, fput. intros (st1 & E1 & H)%bind_Ok_inv.
  apply bind_Ok_inv in E1 as (vf & _ & [= <-]).
  set (st1 := put_file st f _) in *. assert (A1 : areas st1 = areas st) by done.
  assert (Ht : forall ret vma1 st2, areas st2 = areas st -> vm_flags vma1 = vm_flags vma ->
    (if negb (ret =? 0) then st ← (vf ← deref (files st2 !! f); Ok (put_file st2 f (with_count (f_count vf - 1) vf)));
       Ok (ret, vma1, st) else
     st ← match vm_file vma1 with Some old => vf ← deref (files st2 !! old); Ok (put_file st2 old (with_count (f_count vf - 1) vf)) | None => Ok st2 end;
     Ok (0, MkVma (vm_flags vma1) (Some f), st)) = Ok (0, vma', st') ->
    vm_flags vma' = vm_flags vma /\ vm_file vma' = Some f /\ areas st' = areas st).
  { intros ret vma1 st2 A2 F2. destruct (Z.eqb_spec ret 0) as [->|Hn]; cbn [negb].
    - intros (st3 & E3 & [= <- <-])%bind_Ok_inv. split_and!; [done|done|].
      destruct (vm_file vma1); [|by injection E3 as <-]. by apply bind_Ok_inv in E3 as (? & _ & [= <-]).
    - intros (st3 & _ & E)%bind_Ok_inv. congruence. }
  destruct (negb (Z.land (vm_flags vma) VM_SHARED =? 0)).
  - destruct (shmem_zero_setup vma (files st1)) as [[ret vma1] fs] eqn:Ez. apply (Ht ret vma1 (set_files st1 fs)); [done| |done].
    pose proof (zero_setup_law Hl vma (files st1)) as Hz. by rewrite Ez in Hz.
  - by apply (Ht 0 vma st1).
Qed.

(** A mapping that [ashmem_mmap] grants respects the area's protection mask:
    for each of read, write and execute that the mask forbids, the request did
    not have the permission and the mapping cannot gain it later ([VM_MAYxxx] is
    clear); the mapping's file is the area's backing file. *)
Theorem ashmem_mmap_respects_mask st filp vma vma' st' vf a ar : mman_laws ->
  files st !! filp = Some vf -> private_data vf = Some a -> areas st !! a = Some ar ->
  ashmem_mmap st filp vma = Ok (0, vma', st') ->
  size ar ≠ 0 /\
  (forall i, 0 <= i < 3 -> Z.testbit (prot_mask ar) i = false ->
    Z.testbit (vm_flags vma) i = false /\ Z.testbit (vm_flags vma') (i + 4) = false) /\
  exists f ar', vm_file vma' = Some f /\ areas st' !! a = Some ar' /\ file ar' = Some f.
Proof.
  intros Hl Hf Hp Ha. unfold ashmem_mmap, file_area. rewrite Hf. cbn [deref mbind res_bind].
  rewrite Hp. cbn [deref mbind res_bind]. rewrite Ha. cbn [deref mbind res_bind].
  destruct (Z.eqb_spec (size ar) 0) as [|Hsz]; [done|].
  destruct (Z.eqb_spec (Z.land (Z.land (vm_flags vma) (Z.lnot (calc_vm_prot_bits (prot_mask ar))))
      (calc_vm_prot_bits PROT_MASK)) 0) as [Hc|]; [cbn [negb]|done].
  set (vma1 := MkVma _ _). intros H. split; [done|].
  assert (Hend : exists st2 f ar', areas st2 !! a = Some ar' /\ file ar' = Some f /\
    mmap_tail st2 vma1 f = Ok (0, vma', st')).
  { destruct (file ar) as [f|] eqn:Ef; [by exists st, f, ar|].
    destruct (shmem_file_setup _ _ _ _) as [[err|f] fs] eqn:Es.
    - injection H as E _ _. pose proof (file_setup_law Hl _ _ _ _ err (f_equal fst Es)).
      rewrite s32_small in E by lia. lia.
    - eexists _, f, (with_file ar (Some f)). split; [|split; [|exact H]]; [|done].
      cbn. by rewrite lookup_insert_eq. }
  destruct Hend as (st2 & f & ar' & Ha2 & Hf2 & Ht). apply mmap_tail_spec in Ht as (E1 & E2 & E3); [|done].
  split; [|exists f, ar'; by rewrite E3]. intros i Hi Hm. rewrite E1.
  by apply (mmap_checks _ (prot_mask ar)).
Qed.
End Files.

Section Release.
Context {V : Vfs}.
Implicit Types (st : ashmem) (a p : Z) (ar : ashmem_area).

(** Closing the device file frees the area with all its ranges: it returns 0
    without a fault, the area is gone, none of its ranges is left (on any list),
    the backing file loses one reference, and the other areas keep their pages. *)
Theorem ashmem_release_correct st filp vf a ar : wf st ->
  files st !! filp = Some vf -> private_data vf = Some a -> areas st !! a = Some ar ->
  (forall f, file ar = Some f -> is_Some (files st !! f)) ->
  exists st', ashmem_release st filp = Ok (0, st') /\ wf st' /\ areas st' = delete a (areas st) /\
    (forall r rg, ranges st' !! r = Some rg -> asma rg ≠ a) /\
    (forall b p, b ≠ a -> (unpinned_page st' b p <-> unpinned_page st b p)) /\
    files st' = match file ar with
      | Some f => alter (fun vf => with_count (f_count vf - 1) vf) f (files st)
      | None => files st
      end.
Proof.
  intros W Hf Hp Ha Hfile. unfold ashmem_release, file_area. rewrite Hf. cbn [deref mbind res_bind].
  rewrite Hp. cbn [deref mbind res_bind]. rewrite Ha. cbn [deref mbind res_bind].
  destruct (release_loop_spec (unpinned_list ar) st a ar W Ha eq_refl) as (st1 & -> & W1 & T & A & R).
  cbn [mbind res_bind]. pose proof T as (_ & F & _).
  assert (Hend : forall fs, files (set_files st1 fs) = fs ->
    let st' := set_areas (set_files st1 fs) (delete a (areas st1)) in
    wf st' /\ areas st' = delete a (areas st) /\ (forall r rg, ranges st' !! r = Some rg -> asma rg ≠ a) /\
    (forall b p, b ≠ a -> (unpinned_page st' b p <-> unpinned_page st b p))).
  { intros fs _ st'. split_and!.
    - apply (wf_ext (set_areas st1 (delete a (areas st1)))); try done. by apply delete_area_wf.
    - cbn. by rewrite A, delete_insert_eq.
    - exact R.
    - intros b p Hb. by apply (touches_other a st st1 b _ p T). }
  destruct (file ar) as [f|].
  - destruct (Hfile f eq_refl) as [bf Hbf]. unfold fput. rewrite F, Hbf. cbn.
    eexists. split; [done|]. destruct (Hend (<[f := with_count (f_count bf - 1) bf]> (files st1)) eq_refl) as (? & ? & ? & ?).
    split_and!; [done..|]. cbn. rewrite F. apply map_eq. intros i. destruct (decide (i = f)) as [->|].
    + by rewrite lookup_insert_eq, lookup_alter_eq, Hbf.
    + by rewrite lookup_insert_ne, lookup_alter_ne.
  - cbn. eexists. split; [done|]. destruct (Hend (files st1) eq_refl) as (? & ? & ? & ?). split_and!; done.
Qed.

(** [ashmem_llseek] returns the position of the backing file reduced to a
    32-bit [int]: a seek that succeeds at a position of 2 GiB or more can return
    a negative number, and then leaves the position of the device file behind
    although the backing file has moved. *)
Theorem ashmem_llseek_truncates st filp offset origin vf a ar f pos fs : 
  files st !! filp = Some vf -> private_data vf = Some a -> areas st !! a = Some ar -> size ar ≠ 0 ->
  file ar = Some f -> vfs_llseek f offset origin (files st) = (pos, fs) -> 2 ^ 31 <= pos < 2 ^ 32 ->
  ashmem_llseek st filp offset origin = Ok (pos - 2 ^ 32, set_files st fs).
Proof.
  intros Hf Hp Ha Hsz Hff Hv Hpos. unfold ashmem_llseek, file_area. rewrite Hf. cbn [deref mbind res_bind].
  rewrite Hp. cbn [deref mbind res_bind]. rewrite Ha. cbn [deref mbind res_bind].
  rewrite (proj2 (Z.eqb_neq _ _) Hsz), Hff, Hv.
  assert (E : s32 pos = pos - 2 ^ 32).
  { unfold s32, u32. rewrite Z.mod_small by lia. destruct (Z.ltb_spec pos (2 ^ 31)); lia. }
  rewrite E, (proj2 (Z.ltb_lt _ _)) by lia. done.
Qed.
End Release.

(** ** Behaviour at the edges, on concrete states *)
Section Edges.
#[local] Existing Instance flat_user.

(** A [struct ashmem_pin] with offset 65536 and length 0 at 100, one with 0 and
    0 at 108. *)
Definition edge_user : gmap Z Z :=
  snd (flat_write (list_to_map ((fun i => (i, 0)) <$> seqZ 100 16)) 100 (le_bytes 4 65536)).

(** The area of [demo_state] with every page pinned. *)
Definition edge_pinned : ashmem :=
  MkAshmem {[10 := with_unpinned_list demo_area []]} ∅ [] 0 (files demo_state) [].

Definition edge_empty : ashmem :=
  MkAshmem {[10 := with_unpinned_list demo_area [20]]} {[20 := MkRange 10 16 15 0]} [20] 0 (files demo_state) [].

(** Unpinning the zero bytes at the end of the area records an empty range, and
    the whole area, all of it pinned, is reported as unpinned. *)
Example unpin_nothing_reported_unpinned :
  ashmem_pin_unpin (Some 20) edge_user edge_pinned 10 ASHMEM_UNPIN 100 = Ok (0, edge_empty) /\
  (forall p, ~ unpinned_page edge_empty 10 p) /\
  ashmem_pin_unpin None edge_user edge_empty 10 ASHMEM_GET_PIN_STATUS 108 = Ok (ASHMEM_IS_UNPINNED, edge_empty).
Proof.
  split_and!; [vm_compute; reflexivity| |vm_compute; reflexivity].
  unfold edge_empty. intros p (r & rg & Hr & _ & _ & Hp). cbn [ranges] in Hr.
  apply lookup_singleton_Some in Hr as [<- <-]. cbn in Hp. lia.
Qed.

(** The same when the shrinker has met that range.  Pinning the whole area, none of which ever
    left memory, is then answered with [ASHMEM_WAS_PURGED]. *)
Definition edge_scanned : ashmem :=
  MkAshmem {[10 := with_unpinned_list demo_area [20]]} {[20 := MkRange 10 16 15 1]} [] 0 (files demo_state) [(50, 65536, 0)].
Example pin_nothing_reported_purged :
  ashmem_shrink_scan edge_empty GFP_KERNEL 0 = Ok (0, 2 ^ 64 - 1, edge_scanned) /\
  fst <$> ashmem_pin None edge_scanned 10 0 15 = Ok ASHMEM_WAS_PURGED.
Proof. split; vm_compute; reflexivity. Qed.

(** Pages 4 to 9 unpinned and purged. *)
Definition edge_purged : ashmem :=
  MkAshmem {[10 := demo_area]} {[20 := MkRange 10 4 9 1]} [] 0 (files demo_state) [].
Definition edge_lost : ashmem :=
  MkAshmem {[10 := demo_area]} {[20 := MkRange 10 4 4 1]} [] 0 (files demo_state) [].

(** Pinning pages 5 and 6 without memory for the split also pins 7 to 9, whose
    contents are lost; pinning those later reports them as never purged. *)
Example pin_split_failure_forgets_purge :
  purged_page edge_purged 10 8 /\
  ashmem_pin None edge_purged 10 5 6 = Ok (ASHMEM_WAS_PURGED, edge_lost) /\
  ashmem_pin None edge_lost 10 7 9 = Ok (ASHMEM_NOT_PURGED, edge_lost).
Proof.
  split_and!; [|vm_compute; reflexivity..].
  exists 20, (MkRange 10 4 9 1). cbn. split_and!; try done; lia.
Qed.

(** Unpinning pages 3 to 5 without memory first removes the overlapping range: the
    call fails, and the purged pages 6 to 9 are pinned and forgotten. *)
Example unpin_failure_forgets_purge :
  exists st', ashmem_unpin None edge_purged 10 3 5 = Ok (- ENOMEM, st') /\ ranges st' = ∅ /\
    ashmem_pin None st' 10 6 9 = Ok (ASHMEM_NOT_PURGED, st').
Proof. eexists. split; [vm_compute; reflexivity|]. split; vm_compute; reflexivity. Qed.

(** A process with [READ_IMPLIES_EXEC] gets [PROT_EXEC] back after giving it up. *)
Example prot_mask_grows :
  exists st', set_prot_mask READ_IMPLIES_EXEC (put_area demo_state 10 (with_prot_mask demo_area PROT_READ)) 10 PROT_READ
      = Ok (0, st') /\
    prot_mask <$> areas st' !! 10 = Some (Z.lor PROT_READ PROT_EXEC).
Proof. eexists. split; [reflexivity|]. reflexivity. Qed.
End Edges.

(** ** Witnesses *)
Section Witnesses.
#[local] Existing Instance flat_user.
#[local] Existing Instance flat_laws.

(** A memory manager that gives file 60 to every area and seeks to the offset. *)
Definition demo_vfs : Vfs := {|
  generic_file_open _ := 0;
  shmem_file_setup _ _ _ fs := (inr 60, <[60 := MkFile 1 0 None]> fs);
  shmem_zero_setup vma fs := (0, vma, fs);
  __vfs_read f buf len pos fs := (len, pos + len, fs);
  vfs_llseek f offset origin fs := (offset, alter (with_pos offset) f fs);
  calc_vm_prot_bits prot := Z.land prot PROT_MASK;
  _calc_vm_trans x bit1 bit2 := if Z.land x bit1 =? 0 then 0 else bit2
|}.
#[local] Existing Instance demo_vfs.

Lemma demo_mman_laws : mman_laws.
Proof. split; done. Qed.

Definition demo_user : gmap Z Z :=
  snd (flat_write (list_to_map ((fun i => (i, 0)) <$> seqZ 100 64)) 100 [110; 97; 109; 101; 0]).

Lemma ashmem_pin_correct_witness :
  exists ret st', ashmem_pin (Some 21) demo_state 10 5 6 = Ok (ret, st') /\ wf st' /\
    pin_contract demo_state st' 10 5 6 (bool_decide (is_Some (Some 21))) ret.
Proof.
  apply ashmem_pin_correct with (ar := demo_area); [exact demo_wf|reflexivity| |lia|lia].
  intros x [= <-]. reflexivity.
Defined.

Lemma ashmem_unpin_correct_witness :
  exists ret st', ashmem_unpin (Some 21) demo_state 10 2 5 = Ok (ret, st') /\ wf st' /\ touches 10 demo_state st' /\
    ((ret = 0 /\ forall p, unpinned_page st' 10 p <-> unpinned_page demo_state 10 p \/ 2 <= p <= 5) \/
     (ret = - ENOMEM /\ Some 21 = None /\ forall p, unpinned_page st' 10 p -> unpinned_page demo_state 10 p)) /\
    (ret = 0 -> forall p, purged_page demo_state 10 p -> purged_page st' 10 p) /\
    (clean 10 demo_state -> clean 10 st').
Proof.
  apply ashmem_unpin_correct with (ar := demo_area); [exact demo_wf|reflexivity|exists 50; reflexivity| |lia|lia].
  intros x [= <-]. reflexivity.
Defined.

Lemma ashmem_get_pin_status_correct_witness :
  exists ret, ashmem_get_pin_status demo_state 10 9 12 = Ok ret /\
    (ret = ASHMEM_IS_PINNED \/ ret = ASHMEM_IS_UNPINNED) /\
    (ret = ASHMEM_IS_UNPINNED <-> exists p, 9 <= p <= 12 /\ unpinned_page demo_state 10 p).
Proof.
  apply ashmem_get_pin_status_correct with (ar := demo_area); [exact demo_wf|reflexivity|exact demo_solid|lia].
Defined.

Lemma pin_range_correct_witness :
  0 <= 1 <= 15 /\ 4096 * 1 = 4096 /\ 4096 * (15 + 1) = 4096 + request_len 65000 4096 0 /\
  4096 * (15 + 1) <= u64 (page_align 65000).
Proof.
  apply pin_range_correct with (len := 0); [lia|lia|vm_compute; reflexivity|vm_compute; discriminate].
Defined.

Lemma ashmem_shrink_scan_correct_witness :
  let n := scan_count 1 (ashmem_lru_list demo_state) in
  exists nr' st', ashmem_shrink_scan demo_state GFP_KERNEL 1 =
      Ok (u64 (Zsum (lru_pages (ranges demo_state)) (take n (ashmem_lru_list demo_state))), nr', st') /\
    wf st' /\ ashmem_lru_list st' = drop n (ashmem_lru_list demo_state) /\
    purged_all demo_state st' (take n (ashmem_lru_list demo_state)) /\
    forall a p, unpinned_page st' a p <-> unpinned_page demo_state a p.
Proof.
  apply ashmem_shrink_scan_correct; [exact demo_wf|lia|vm_compute; reflexivity|vm_compute; discriminate].
Defined.

Lemma ashmem_shrink_count_correct_witness :
  exists nr' st', ashmem_shrink_scan demo_state GFP_KERNEL 0 = Ok (ashmem_shrink_count demo_state, nr', st') /\
    ashmem_lru_list st' = [] /\ ashmem_shrink_count st' = 0.
Proof. apply ashmem_shrink_count_correct; [exact demo_wf|vm_compute; reflexivity]. Defined.

Lemma set_prot_mask_correct_witness :
  exists ret st', set_prot_mask 0 demo_state 10 PROT_READ = Ok (ret, st') /\
    if Z.land (prot_mask demo_area) PROT_READ =? PROT_READ then
      ret = 0 /\ exists m, st' = put_area demo_state 10 (with_prot_mask demo_area m) /\
        (m = PROT_READ \/ (m = Z.lor PROT_READ PROT_EXEC /\ Z.land 0 READ_IMPLIES_EXEC ≠ 0 /\ Z.land PROT_READ PROT_READ ≠ 0)) /\
        (Z.land 0 READ_IMPLIES_EXEC = 0 -> Z.land (prot_mask demo_area) m = m)
    else ret = - EINVAL /\ st' = demo_state.
Proof. apply set_prot_mask_correct. reflexivity. Defined.

Definition demo_unmapped : ashmem := put_area demo_state 11 (MkArea fresh_name [] None 4096 PROT_READ).

Lemma name_roundtrip_witness :
  exists s st', ([110; 97; 109; 101; 0] = s ++ [0] \/ [110; 97; 109; 101; 0] = s) /\ Z.of_nat (length s) = 4 /\
    set_name demo_user demo_unmapped 11 100 = Ok (0, st') /\
    get_name demo_user st' 11 120 =
      Ok (if fst (copy_to_user demo_user 120 (shown (stored s))) then 0 else - EFAULT,
          snd (copy_to_user demo_user 120 (shown (stored s)))).
Proof.
  apply name_roundtrip with (ar := MkArea fresh_name [] None 4096 PROT_READ) (s0 := []);
    [reflexivity|exact fresh_named|reflexivity|vm_compute; reflexivity|lia].
Defined.

Lemma ashmem_ioctl_safe_witness :
  (exists r st' um', ashmem_ioctl (Some 21) (MkTask 0 true) demo_user demo_state 40 ASHMEM_PURGE_ALL_CACHES 0
      = Ok (r, st', um') /\ kept demo_state st' 10 demo_area) /\
  (exists r st' um', compat_ashmem_ioctl (Some 21) (MkTask 0 true) demo_user demo_state 40 ASHMEM_PURGE_ALL_CACHES 0
      = Ok (r, st', um') /\ kept demo_state st' 10 demo_area).
Proof.
  apply ashmem_ioctl_safe with (vf := MkFile 1 0 (Some 10));
    [exact demo_sound|reflexivity|reflexivity|reflexivity| |vm_compute; reflexivity].
  intros x [= <-]. reflexivity.
Defined.

Definition demo_mmapped : vm_area * ashmem :=
  match ashmem_mmap (put_file demo_unmapped 41 (MkFile 1 0 (Some 11))) 41 (MkVma 25 None) with
  | Ok (_, vma, st) => (vma, st)
  | Fault _ => (MkVma 0 None, demo_state)
  end.

Lemma ashmem_mmap_respects_mask_witness :
  size (MkArea fresh_name [] None 4096 PROT_READ) ≠ 0 /\
  (forall i, 0 <= i < 3 -> Z.testbit (prot_mask (MkArea fresh_name [] None 4096 PROT_READ)) i = false ->
    Z.testbit (vm_flags (MkVma 25 None)) i = false /\ Z.testbit (vm_flags (fst demo_mmapped)) (i + 4) = false) /\
  exists f ar', vm_file (fst demo_mmapped) = Some f /\ areas (snd demo_mmapped) !! 11 = Some ar' /\ file ar' = Some f.
Proof.
  apply ashmem_mmap_respects_mask with (st := put_file demo_unmapped 41 (MkFile 1 0 (Some 11))) (filp := 41)
    (vf := MkFile 1 0 (Some 11)); [exact demo_mman_laws|reflexivity|reflexivity|reflexivity|vm_compute; reflexivity].
Defined.

Lemma ashmem_release_correct_witness :
  exists st', ashmem_release demo_state 40 = Ok (0, st') /\ wf st' /\ areas st' = delete 10 (areas demo_state) /\
    (forall r rg, ranges st' !! r = Some rg -> asma rg ≠ 10) /\
    (forall b p, b ≠ 10 -> (unpinned_page st' b p <-> unpinned_page demo_state b p)) /\
    files st' = match file demo_area with
      | Some f => alter (fun vf => with_count (f_count vf - 1) vf) f (files demo_state)
      | None => files demo_state
      end.
Proof.
  apply ashmem_release_correct with (vf := MkFile 1 0 (Some 10)); [exact demo_wf|reflexivity|reflexivity|reflexivity|].
  intros f [= <-]. eexists. reflexivity.
Defined.

Lemma ashmem_llseek_truncates_witness :
  ashmem_llseek demo_state 40 (2 ^ 31) 0 =
    Ok (2 ^ 31 - 2 ^ 32, set_files demo_state (alter (with_pos (2 ^ 31)) 50 (files demo_state))).
Proof.
  apply ashmem_llseek_truncates with (vf := MkFile 1 0 (Some 10)) (a := 10) (ar := demo_area) (f := 50);
    [reflexivity|reflexivity|reflexivity|discriminate|reflexivity|reflexivity|lia].
Defined.
End Witnesses.
