(* ===== verification/Kernel.v ===== *)
(** * State of the binder driver (driver/binder/binder.c)

    The objects of the driver and the state in which its operations run.  Every
    operation runs under [binder_main_lock], so it is a function from states to
    states; [K] is the monad of such functions, with the faults of [res].  What
    the rest of the kernel answers (memory, security hooks, file descriptors,
    nice values) is the class [KernelEnv]. *)
From S2P Require Import Prelude UserMem RbTree Alloc Protocol.

(** ** Objects *)

(** [struct binder_work] by what contains it: a transaction, the completion of
    one, a node, a death notification. *)
Inductive work : Set :=
| WTransaction (t : Z)
| WComplete (c : Z)
| WNode (n : Z)
| WDeath (d : Z).

(** The three work types of a [struct binder_ref_death]. *)
Inductive death_type : Set :=
| DEAD_BINDER
| DEAD_BINDER_AND_CLEAR
| CLEAR_DEATH_NOTIFICATION.

(** The heads of work lists: [proc->todo], [thread->todo],
    [proc->delivered_death], [node->async_todo]. *)
Inductive lhead : Set :=
| TodoProc (p : Z)
| TodoThread (th : Z)
| Delivered (p : Z)
| AsyncTodo (n : Z).

#[export] Instance work_eq_dec : EqDecision work.
Proof. solve_decision. Defined.
#[export] Instance death_type_eq_dec : EqDecision death_type.
Proof. solve_decision. Defined.
#[export] Instance lhead_eq_dec : EqDecision lhead.
Proof. solve_decision. Defined.
#[export] Instance lhead_countable : Countable lhead.
Proof.
  refine (inj_countable' (fun h => match h with
    | TodoProc p => inl (inl p) | TodoThread t => inl (inr t)
    | Delivered p => inr (inl p) | AsyncTodo n => inr (inr n) end)
    (fun x => match x with
    | inl (inl p) => TodoProc p | inl (inr t) => TodoThread t
    | inr (inl p) => Delivered p | inr (inr n) => AsyncTodo n end) _).
  by intros [].
Defined.

(** [struct binder_node]; [n_refs] is the hlist of the references to it, and the
    lists of its [work] and [async_todo] are in [lists] below. *)
Record binder_node := MkNode {
  n_debug_id : Z;
  n_proc : option Z;
  n_refs : list Z;
  n_internal_strong_refs : Z;
  n_local_weak_refs : Z;
  n_local_strong_refs : Z;
  n_ptr : Z;
  n_cookie : Z;
  n_has_strong_ref : bool;
  n_pending_strong_ref : bool;
  n_has_weak_ref : bool;
  n_pending_weak_ref : bool;
  n_has_async_transaction : bool;
  n_accept_fds : bool;
  n_min_priority : Z
}.
Section Binder_nodeUpdates.
Variable n : binder_node.
Definition set_n_proc (v : option Z) : binder_node := MkNode (n_debug_id n) v (n_refs n) (n_internal_strong_refs n) (n_local_weak_refs n) (n_local_strong_refs n) (n_ptr n) (n_cookie n) (n_has_strong_ref n) (n_pending_strong_ref n) (n_has_weak_ref n) (n_pending_weak_ref n) (n_has_async_transaction n) (n_accept_fds n) (n_min_priority n).
Definition set_n_refs (v : list Z) : binder_node := MkNode (n_debug_id n) (n_proc n) v (n_internal_strong_refs n) (n_local_weak_refs n) (n_local_strong_refs n) (n_ptr n) (n_cookie n) (n_has_strong_ref n) (n_pending_strong_ref n) (n_has_weak_ref n) (n_pending_weak_ref n) (n_has_async_transaction n) (n_accept_fds n) (n_min_priority n).
Definition set_n_internal_strong_refs (v : Z) : binder_node := MkNode (n_debug_id n) (n_proc n) (n_refs n) v (n_local_weak_refs n) (n_local_strong_refs n) (n_ptr n) (n_cookie n) (n_has_strong_ref n) (n_pending_strong_ref n) (n_has_weak_ref n) (n_pending_weak_ref n) (n_has_async_transaction n) (n_accept_fds n) (n_min_priority n).
Definition set_n_local_weak_refs (v : Z) : binder_node := MkNode (n_debug_id n) (n_proc n) (n_refs n) (n_internal_strong_refs n) v (n_local_strong_refs n) (n_ptr n) (n_cookie n) (n_has_strong_ref n) (n_pending_strong_ref n) (n_has_weak_ref n) (n_pending_weak_ref n) (n_has_async_transaction n) (n_accept_fds n) (n_min_priority n).
Definition set_n_local_strong_refs (v : Z) : binder_node := MkNode (n_debug_id n) (n_proc n) (n_refs n) (n_internal_strong_refs n) (n_local_weak_refs n) v (n_ptr n) (n_cookie n) (n_has_strong_ref n) (n_pending_strong_ref n) (n_has_weak_ref n) (n_pending_weak_ref n) (n_has_async_transaction n) (n_accept_fds n) (n_min_priority n).
Definition set_n_has_strong_ref (v : bool) : binder_node := MkNode (n_debug_id n) (n_proc n) (n_refs n) (n_internal_strong_refs n) (n_local_weak_refs n) (n_local_strong_refs n) (n_ptr n) (n_cookie n) v (n_pending_strong_ref n) (n_has_weak_ref n) (n_pending_weak_ref n) (n_has_async_transaction n) (n_accept_fds n) (n_min_priority n).
Definition set_n_pending_strong_ref (v : bool) : binder_node := MkNode (n_debug_id n) (n_proc n) (n_refs n) (n_internal_strong_refs n) (n_local_weak_refs n) (n_local_strong_refs n) (n_ptr n) (n_cookie n) (n_has_strong_ref n) v (n_has_weak_ref n) (n_pending_weak_ref n) (n_has_async_transaction n) (n_accept_fds n) (n_min_priority n).
Definition set_n_has_weak_ref (v : bool) : binder_node := MkNode (n_debug_id n) (n_proc n) (n_refs n) (n_internal_strong_refs n) (n_local_weak_refs n) (n_local_strong_refs n) (n_ptr n) (n_cookie n) (n_has_strong_ref n) (n_pending_strong_ref n) v (n_pending_weak_ref n) (n_has_async_transaction n) (n_accept_fds n) (n_min_priority n).
Definition set_n_pending_weak_ref (v : bool) : binder_node := MkNode (n_debug_id n) (n_proc n) (n_refs n) (n_internal_strong_refs n) (n_local_weak_refs n) (n_local_strong_refs n) (n_ptr n) (n_cookie n) (n_has_strong_ref n) (n_pending_strong_ref n) (n_has_weak_ref n) v (n_has_async_transaction n) (n_accept_fds n) (n_min_priority n).
Definition set_n_has_async_transaction (v : bool) : binder_node := MkNode (n_debug_id n) (n_proc n) (n_refs n) (n_internal_strong_refs n) (n_local_weak_refs n) (n_local_strong_refs n) (n_ptr n) (n_cookie n) (n_has_strong_ref n) (n_pending_strong_ref n) (n_has_weak_ref n) (n_pending_weak_ref n) v (n_accept_fds n) (n_min_priority n).
Definition set_n_accept_fds (v : bool) : binder_node := MkNode (n_debug_id n) (n_proc n) (n_refs n) (n_internal_strong_refs n) (n_local_weak_refs n) (n_local_strong_refs n) (n_ptr n) (n_cookie n) (n_has_strong_ref n) (n_pending_strong_ref n) (n_has_weak_ref n) (n_pending_weak_ref n) (n_has_async_transaction n) v (n_min_priority n).
Definition set_n_min_priority (v : Z) : binder_node := MkNode (n_debug_id n) (n_proc n) (n_refs n) (n_internal_strong_refs n) (n_local_weak_refs n) (n_local_strong_refs n) (n_ptr n) (n_cookie n) (n_has_strong_ref n) (n_pending_strong_ref n) (n_has_weak_ref n) (n_pending_weak_ref n) (n_has_async_transaction n) (n_accept_fds n) v.
End Binder_nodeUpdates.

(** [struct binder_ref] *)
Record binder_ref := MkRef {
  r_debug_id : Z;
  r_proc : Z;
  r_node : Z;
  r_desc : Z;
  r_strong : Z;
  r_weak : Z;
  r_death : option Z
}.
Section Binder_refUpdates.
Variable r : binder_ref.
Definition set_r_desc (v : Z) : binder_ref := MkRef (r_debug_id r) (r_proc r) (r_node r) v (r_strong r) (r_weak r) (r_death r).
Definition set_r_strong (v : Z) : binder_ref := MkRef (r_debug_id r) (r_proc r) (r_node r) (r_desc r) v (r_weak r) (r_death r).
Definition set_r_weak (v : Z) : binder_ref := MkRef (r_debug_id r) (r_proc r) (r_node r) (r_desc r) (r_strong r) v (r_death r).
Definition set_r_death (v : option Z) : binder_ref := MkRef (r_debug_id r) (r_proc r) (r_node r) (r_desc r) (r_strong r) (r_weak r) v.
End Binder_refUpdates.

(** [struct binder_ref_death] *)
Record binder_ref_death := MkDeath {
  d_type : death_type;
  d_cookie : Z
}.
Section Binder_ref_deathUpdates.
Variable d : binder_ref_death.
Definition set_d_type (v : death_type) : binder_ref_death := MkDeath v (d_cookie d).
End Binder_ref_deathUpdates.

(** [struct binder_proc]: its search trees as maps from the key to the object
    (threads by pid, nodes by user pointer, references by descriptor and by node);
    [p_alloc] holds the fields of the buffer allocator. *)
Record binder_proc := MkProc {
  p_threads : gmap Z Z;
  p_nodes : gmap Z Z;
  p_refs_by_desc : gmap Z Z;
  p_refs_by_node : gmap Z Z;
  p_pid : Z;
  p_tsk : Z;
  p_files : option Z;
  p_deferred_work : Z;
  p_alloc : balloc;
  p_max_threads : Z;
  p_requested_threads : Z;
  p_requested_threads_started : Z;
  p_ready_threads : Z;
  p_default_priority : Z
}.
Section Binder_procUpdates.
Variable p : binder_proc.
Definition set_p_threads (v : gmap Z Z) : binder_proc := MkProc v (p_nodes p) (p_refs_by_desc p) (p_refs_by_node p) (p_pid p) (p_tsk p) (p_files p) (p_deferred_work p) (p_alloc p) (p_max_threads p) (p_requested_threads p) (p_requested_threads_started p) (p_ready_threads p) (p_default_priority p).
Definition set_p_nodes (v : gmap Z Z) : binder_proc := MkProc (p_threads p) v (p_refs_by_desc p) (p_refs_by_node p) (p_pid p) (p_tsk p) (p_files p) (p_deferred_work p) (p_alloc p) (p_max_threads p) (p_requested_threads p) (p_requested_threads_started p) (p_ready_threads p) (p_default_priority p).
Definition set_p_refs_by_desc (v : gmap Z Z) : binder_proc := MkProc (p_threads p) (p_nodes p) v (p_refs_by_node p) (p_pid p) (p_tsk p) (p_files p) (p_deferred_work p) (p_alloc p) (p_max_threads p) (p_requested_threads p) (p_requested_threads_started p) (p_ready_threads p) (p_default_priority p).
Definition set_p_refs_by_node (v : gmap Z Z) : binder_proc := MkProc (p_threads p) (p_nodes p) (p_refs_by_desc p) v (p_pid p) (p_tsk p) (p_files p) (p_deferred_work p) (p_alloc p) (p_max_threads p) (p_requested_threads p) (p_requested_threads_started p) (p_ready_threads p) (p_default_priority p).
Definition set_p_files (v : option Z) : binder_proc := MkProc (p_threads p) (p_nodes p) (p_refs_by_desc p) (p_refs_by_node p) (p_pid p) (p_tsk p) v (p_deferred_work p) (p_alloc p) (p_max_threads p) (p_requested_threads p) (p_requested_threads_started p) (p_ready_threads p) (p_default_priority p).
Definition set_p_deferred_work (v : Z) : binder_proc := MkProc (p_threads p) (p_nodes p) (p_refs_by_desc p) (p_refs_by_node p) (p_pid p) (p_tsk p) (p_files p) v (p_alloc p) (p_max_threads p) (p_requested_threads p) (p_requested_threads_started p) (p_ready_threads p) (p_default_priority p).
Definition set_p_alloc (v : balloc) : binder_proc := MkProc (p_threads p) (p_nodes p) (p_refs_by_desc p) (p_refs_by_node p) (p_pid p) (p_tsk p) (p_files p) (p_deferred_work p) v (p_max_threads p) (p_requested_threads p) (p_requested_threads_started p) (p_ready_threads p) (p_default_priority p).
Definition set_p_max_threads (v : Z) : binder_proc := MkProc (p_threads p) (p_nodes p) (p_refs_by_desc p) (p_refs_by_node p) (p_pid p) (p_tsk p) (p_files p) (p_deferred_work p) (p_alloc p) v (p_requested_threads p) (p_requested_threads_started p) (p_ready_threads p) (p_default_priority p).
Definition set_p_requested_threads (v : Z) : binder_proc := MkProc (p_threads p) (p_nodes p) (p_refs_by_desc p) (p_refs_by_node p) (p_pid p) (p_tsk p) (p_files p) (p_deferred_work p) (p_alloc p) (p_max_threads p) v (p_requested_threads_started p) (p_ready_threads p) (p_default_priority p).
Definition set_p_requested_threads_started (v : Z) : binder_proc := MkProc (p_threads p) (p_nodes p) (p_refs_by_desc p) (p_refs_by_node p) (p_pid p) (p_tsk p) (p_files p) (p_deferred_work p) (p_alloc p) (p_max_threads p) (p_requested_threads p) v (p_ready_threads p) (p_default_priority p).
Definition set_p_ready_threads (v : Z) : binder_proc := MkProc (p_threads p) (p_nodes p) (p_refs_by_desc p) (p_refs_by_node p) (p_pid p) (p_tsk p) (p_files p) (p_deferred_work p) (p_alloc p) (p_max_threads p) (p_requested_threads p) (p_requested_threads_started p) v (p_default_priority p).
End Binder_procUpdates.

(** [struct binder_thread] *)
Record binder_thread := MkThread {
  th_proc : Z;
  th_pid : Z;
  th_looper : Z;
  th_transaction_stack : option Z;
  th_return_error : Z;
  th_return_error2 : Z
}.
Section Binder_threadUpdates.
Variable th : binder_thread.
Definition set_th_looper (v : Z) : binder_thread := MkThread (th_proc th) (th_pid th) v (th_transaction_stack th) (th_return_error th) (th_return_error2 th).
Definition set_th_transaction_stack (v : option Z) : binder_thread := MkThread (th_proc th) (th_pid th) (th_looper th) v (th_return_error th) (th_return_error2 th).
Definition set_th_return_error (v : Z) : binder_thread := MkThread (th_proc th) (th_pid th) (th_looper th) (th_transaction_stack th) v (th_return_error2 th).
Definition set_th_return_error2 (v : Z) : binder_thread := MkThread (th_proc th) (th_pid th) (th_looper th) (th_transaction_stack th) (th_return_error th) v.
End Binder_threadUpdates.

(** [struct binder_transaction]; a buffer is named by the process whose area holds
    it and the address of its header. *)
Record binder_transaction := MkTr {
  t_debug_id : Z;
  t_from : option Z;
  t_from_parent : option Z;
  t_to_proc : option Z;
  t_to_thread : option Z;
  t_to_parent : option Z;
  t_need_reply : bool;
  t_buffer : option (Z * Z);
  t_code : Z;
  t_flags : Z;
  t_priority : Z;
  t_saved_priority : Z;
  t_sender_euid : Z
}.
Section Binder_transactionUpdates.
Variable t : binder_transaction.
Definition set_t_from (v : option Z) : binder_transaction := MkTr (t_debug_id t) v (t_from_parent t) (t_to_proc t) (t_to_thread t) (t_to_parent t) (t_need_reply t) (t_buffer t) (t_code t) (t_flags t) (t_priority t) (t_saved_priority t) (t_sender_euid t).
Definition set_t_from_parent (v : option Z) : binder_transaction := MkTr (t_debug_id t) (t_from t) v (t_to_proc t) (t_to_thread t) (t_to_parent t) (t_need_reply t) (t_buffer t) (t_code t) (t_flags t) (t_priority t) (t_saved_priority t) (t_sender_euid t).
Definition set_t_to_proc (v : option Z) : binder_transaction := MkTr (t_debug_id t) (t_from t) (t_from_parent t) v (t_to_thread t) (t_to_parent t) (t_need_reply t) (t_buffer t) (t_code t) (t_flags t) (t_priority t) (t_saved_priority t) (t_sender_euid t).
Definition set_t_to_thread (v : option Z) : binder_transaction := MkTr (t_debug_id t) (t_from t) (t_from_parent t) (t_to_proc t) v (t_to_parent t) (t_need_reply t) (t_buffer t) (t_code t) (t_flags t) (t_priority t) (t_saved_priority t) (t_sender_euid t).
Definition set_t_to_parent (v : option Z) : binder_transaction := MkTr (t_debug_id t) (t_from t) (t_from_parent t) (t_to_proc t) (t_to_thread t) v (t_need_reply t) (t_buffer t) (t_code t) (t_flags t) (t_priority t) (t_saved_priority t) (t_sender_euid t).
Definition set_t_need_reply (v : bool) : binder_transaction := MkTr (t_debug_id t) (t_from t) (t_from_parent t) (t_to_proc t) (t_to_thread t) (t_to_parent t) v (t_buffer t) (t_code t) (t_flags t) (t_priority t) (t_saved_priority t) (t_sender_euid t).
Definition set_t_buffer (v : option (Z * Z)) : binder_transaction := MkTr (t_debug_id t) (t_from t) (t_from_parent t) (t_to_proc t) (t_to_thread t) (t_to_parent t) (t_need_reply t) v (t_code t) (t_flags t) (t_priority t) (t_saved_priority t) (t_sender_euid t).
Definition set_t_priority (v : Z) : binder_transaction := MkTr (t_debug_id t) (t_from t) (t_from_parent t) (t_to_proc t) (t_to_thread t) (t_to_parent t) (t_need_reply t) (t_buffer t) (t_code t) (t_flags t) v (t_saved_priority t) (t_sender_euid t).
Definition set_t_saved_priority (v : Z) : binder_transaction := MkTr (t_debug_id t) (t_from t) (t_from_parent t) (t_to_proc t) (t_to_thread t) (t_to_parent t) (t_need_reply t) (t_buffer t) (t_code t) (t_flags t) (t_priority t) v (t_sender_euid t).
End Binder_transactionUpdates.

(** The payload of a transaction buffer: its [data_size] bytes of data and its
    [offsets_size] bytes of offsets. *)
Record content := MkContent {
  c_data : list Z;
  c_offsets : list Z
}.

(** [struct binder_stats]: the global statistics, those of a process and those of
    a thread. *)
Inductive stat_owner : Set := Global | OfProc (p : Z) | OfThread (th : Z).
Inductive stat_type : Set :=
| BINDER_STAT_PROC | BINDER_STAT_THREAD | BINDER_STAT_NODE | BINDER_STAT_REF
| BINDER_STAT_DEATH | BINDER_STAT_TRANSACTION | BINDER_STAT_TRANSACTION_COMPLETE.
Inductive counter : Set :=
| CBr (o : stat_owner) (nr : Z)
| CBc (o : stat_owner) (nr : Z)
| CCreated (ty : stat_type)
| CDeleted (ty : stat_type).
#[export] Instance stat_owner_eq_dec : EqDecision stat_owner.
Proof. solve_decision. Defined.
#[export] Instance stat_type_eq_dec : EqDecision stat_type.
Proof. solve_decision. Defined.
#[export] Instance counter_eq_dec : EqDecision counter.
Proof. solve_decision. Defined.

(** [struct binder_transaction_log] and its entries. *)
Record log_entry := MkEntry {
  e_debug_id : Z;
  e_call_type : Z;
  e_from_proc : Z;
  e_from_thread : Z;
  e_target_handle : Z;
  e_to_proc : Z;
  e_to_thread : Z;
  e_to_node : Z;
  e_data_size : Z;
  e_offsets_size : Z
}.
Definition log_zero : log_entry := MkEntry 0 0 0 0 0 0 0 0 0 0.
Record transaction_log := MkLog {
  log_next : Z;
  log_full : bool;
  log_entries : list log_entry
}.

(** ** The state *)

(** The state of the driver: the objects that exist, by address (kfree removes
    them, and an access to a removed one is a fault); the work lists; the globals of
    the file; the payloads of transaction buffers by header address; the file tables
    and nice values of the tasks; statistics and logs.  [ticket] counts the requests
    made of the kernel: it names the object a [kzalloc] returns and selects what the
    environment answers, so that nothing is said about one answer by another. *)
Record kstate := MkK {
  procs : gmap Z binder_proc;
  threads : gmap Z binder_thread;
  nodes : gmap Z binder_node;
  refs : gmap Z binder_ref;
  deaths : gmap Z binder_ref_death;
  txns : gmap Z binder_transaction;
  lists : gmap lhead (list work);
  contents : gmap Z content;
  context_mgr_node : option Z;
  context_mgr_uid : option Z;
  last_id : Z;
  ticket : Z;
  proc_list : list Z;
  dead_nodes : list Z;
  deferred_list : list Z;
  open_files : gmap (Z * Z) Z;
  nices : gmap Z Z;
  counters : counter -> Z;
  tlog : transaction_log;
  tlog_failed : transaction_log
}.
Section KstateUpdates.
Variable s : kstate.
Definition set_procs (v : gmap Z binder_proc) : kstate := MkK v (threads s) (nodes s) (refs s) (deaths s) (txns s) (lists s) (contents s) (context_mgr_node s) (context_mgr_uid s) (last_id s) (ticket s) (proc_list s) (dead_nodes s) (deferred_list s) (open_files s) (nices s) (counters s) (tlog s) (tlog_failed s).
Definition set_threads (v : gmap Z binder_thread) : kstate := MkK (procs s) v (nodes s) (refs s) (deaths s) (txns s) (lists s) (contents s) (context_mgr_node s) (context_mgr_uid s) (last_id s) (ticket s) (proc_list s) (dead_nodes s) (deferred_list s) (open_files s) (nices s) (counters s) (tlog s) (tlog_failed s).
Definition set_nodes (v : gmap Z binder_node) : kstate := MkK (procs s) (threads s) v (refs s) (deaths s) (txns s) (lists s) (contents s) (context_mgr_node s) (context_mgr_uid s) (last_id s) (ticket s) (proc_list s) (dead_nodes s) (deferred_list s) (open_files s) (nices s) (counters s) (tlog s) (tlog_failed s).
Definition set_refs (v : gmap Z binder_ref) : kstate := MkK (procs s) (threads s) (nodes s) v (deaths s) (txns s) (lists s) (contents s) (context_mgr_node s) (context_mgr_uid s) (last_id s) (ticket s) (proc_list s) (dead_nodes s) (deferred_list s) (open_files s) (nices s) (counters s) (tlog s) (tlog_failed s).
Definition set_deaths (v : gmap Z binder_ref_death) : kstate := MkK (procs s) (threads s) (nodes s) (refs s) v (txns s) (lists s) (contents s) (context_mgr_node s) (context_mgr_uid s) (last_id s) (ticket s) (proc_list s) (dead_nodes s) (deferred_list s) (open_files s) (nices s) (counters s) (tlog s) (tlog_failed s).
Definition set_txns (v : gmap Z binder_transaction) : kstate := MkK (procs s) (threads s) (nodes s) (refs s) (deaths s) v (lists s) (contents s) (context_mgr_node s) (context_mgr_uid s) (last_id s) (ticket s) (proc_list s) (dead_nodes s) (deferred_list s) (open_files s) (nices s) (counters s) (tlog s) (tlog_failed s).
Definition set_lists (v : gmap lhead (list work)) : kstate := MkK (procs s) (threads s) (nodes s) (refs s) (deaths s) (txns s) v (contents s) (context_mgr_node s) (context_mgr_uid s) (last_id s) (ticket s) (proc_list s) (dead_nodes s) (deferred_list s) (open_files s) (nices s) (counters s) (tlog s) (tlog_failed s).
Definition set_contents (v : gmap Z content) : kstate := MkK (procs s) (threads s) (nodes s) (refs s) (deaths s) (txns s) (lists s) v (context_mgr_node s) (context_mgr_uid s) (last_id s) (ticket s) (proc_list s) (dead_nodes s) (deferred_list s) (open_files s) (nices s) (counters s) (tlog s) (tlog_failed s).
Definition set_context_mgr_node (v : option Z) : kstate := MkK (procs s) (threads s) (nodes s) (refs s) (deaths s) (txns s) (lists s) (contents s) v (context_mgr_uid s) (last_id s) (ticket s) (proc_list s) (dead_nodes s) (deferred_list s) (open_files s) (nices s) (counters s) (tlog s) (tlog_failed s).
Definition set_context_mgr_uid (v : option Z) : kstate := MkK (procs s) (threads s) (nodes s) (refs s) (deaths s) (txns s) (lists s) (contents s) (context_mgr_node s) v (last_id s) (ticket s) (proc_list s) (dead_nodes s) (deferred_list s) (open_files s) (nices s) (counters s) (tlog s) (tlog_failed s).
Definition set_last_id (v : Z) : kstate := MkK (procs s) (threads s) (nodes s) (refs s) (deaths s) (txns s) (lists s) (contents s) (context_mgr_node s) (context_mgr_uid s) v (ticket s) (proc_list s) (dead_nodes s) (deferred_list s) (open_files s) (nices s) (counters s) (tlog s) (tlog_failed s).
Definition set_ticket (v : Z) : kstate := MkK (procs s) (threads s) (nodes s) (refs s) (deaths s) (txns s) (lists s) (contents s) (context_mgr_node s) (context_mgr_uid s) (last_id s) v (proc_list s) (dead_nodes s) (deferred_list s) (open_files s) (nices s) (counters s) (tlog s) (tlog_failed s).
Definition set_proc_list (v : list Z) : kstate := MkK (procs s) (threads s) (nodes s) (refs s) (deaths s) (txns s) (lists s) (contents s) (context_mgr_node s) (context_mgr_uid s) (last_id s) (ticket s) v (dead_nodes s) (deferred_list s) (open_files s) (nices s) (counters s) (tlog s) (tlog_failed s).
Definition set_dead_nodes (v : list Z) : kstate := MkK (procs s) (threads s) (nodes s) (refs s) (deaths s) (txns s) (lists s) (contents s) (context_mgr_node s) (context_mgr_uid s) (last_id s) (ticket s) (proc_list s) v (deferred_list s) (open_files s) (nices s) (counters s) (tlog s) (tlog_failed s).
Definition set_deferred_list (v : list Z) : kstate := MkK (procs s) (threads s) (nodes s) (refs s) (deaths s) (txns s) (lists s) (contents s) (context_mgr_node s) (context_mgr_uid s) (last_id s) (ticket s) (proc_list s) (dead_nodes s) v (open_files s) (nices s) (counters s) (tlog s) (tlog_failed s).
Definition set_open_files (v : gmap (Z * Z) Z) : kstate := MkK (procs s) (threads s) (nodes s) (refs s) (deaths s) (txns s) (lists s) (contents s) (context_mgr_node s) (context_mgr_uid s) (last_id s) (ticket s) (proc_list s) (dead_nodes s) (deferred_list s) v (nices s) (counters s) (tlog s) (tlog_failed s).
Definition set_nices (v : gmap Z Z) : kstate := MkK (procs s) (threads s) (nodes s) (refs s) (deaths s) (txns s) (lists s) (contents s) (context_mgr_node s) (context_mgr_uid s) (last_id s) (ticket s) (proc_list s) (dead_nodes s) (deferred_list s) (open_files s) v (counters s) (tlog s) (tlog_failed s).
Definition set_counters (v : counter -> Z) : kstate := MkK (procs s) (threads s) (nodes s) (refs s) (deaths s) (txns s) (lists s) (contents s) (context_mgr_node s) (context_mgr_uid s) (last_id s) (ticket s) (proc_list s) (dead_nodes s) (deferred_list s) (open_files s) (nices s) v (tlog s) (tlog_failed s).
Definition set_tlog (v : transaction_log) : kstate := MkK (procs s) (threads s) (nodes s) (refs s) (deaths s) (txns s) (lists s) (contents s) (context_mgr_node s) (context_mgr_uid s) (last_id s) (ticket s) (proc_list s) (dead_nodes s) (deferred_list s) (open_files s) (nices s) (counters s) v (tlog_failed s).
Definition set_tlog_failed (v : transaction_log) : kstate := MkK (procs s) (threads s) (nodes s) (refs s) (deaths s) (txns s) (lists s) (contents s) (context_mgr_node s) (context_mgr_uid s) (last_id s) (ticket s) (proc_list s) (dead_nodes s) (deferred_list s) (open_files s) (nices s) (counters s) (tlog s) v.
End KstateUpdates.

(** ** The monad *)
Definition K (A : Type) : Type := kstate -> res (A * kstate).
#[export] Instance K_ret : MRet K := fun A a s => Ok (a, s).
#[export] Instance K_bind : MBind K := fun A B f m s =>
  match m s with Ok (a, s') => f a s' | Fault e => Fault e end.

Definition get {A} (f : kstate -> A) : K A := fun s => Ok (f s, s).
Definition modify (f : kstate -> kstate) : K unit := fun s => Ok (tt, f s).
Definition klift {A} (m : res A) : K A := fun s => match m with Ok a => Ok (a, s) | Fault e => Fault e end.
Definition BUG_ON (c : bool) : K unit := klift (bug_on c).
Definition when (c : bool) (m : K unit) : K unit := if c then m else mret tt.

(** *** Objects by address *)
Definition get_obj {A} (m : kstate -> gmap Z A) (p : Z) : K A := fun s =>
  match m s !! p with Some a => Ok (a, s) | None => Fault OOPS end.

Definition get_node (n : Z) : K binder_node := get_obj nodes n.
Definition put_node (n : Z) (v : binder_node) : K unit := modify (fun s => set_nodes s (<[n := v]> (nodes s))).
Definition mod_node (n : Z) (f : binder_node -> binder_node) : K unit := v ← get_node n; put_node n (f v).
Definition get_ref (r : Z) : K binder_ref := get_obj refs r.
Definition put_ref (r : Z) (v : binder_ref) : K unit := modify (fun s => set_refs s (<[r := v]> (refs s))).
Definition mod_ref (r : Z) (f : binder_ref -> binder_ref) : K unit := v ← get_ref r; put_ref r (f v).
Definition get_death (d : Z) : K binder_ref_death := get_obj deaths d.
Definition put_death (d : Z) (v : binder_ref_death) : K unit := modify (fun s => set_deaths s (<[d := v]> (deaths s))).
Definition mod_death (d : Z) (f : binder_ref_death -> binder_ref_death) : K unit := v ← get_death d; put_death d (f v).
Definition get_proc (p : Z) : K binder_proc := get_obj procs p.
Definition put_proc (p : Z) (v : binder_proc) : K unit := modify (fun s => set_procs s (<[p := v]> (procs s))).
Definition mod_proc (p : Z) (f : binder_proc -> binder_proc) : K unit := v ← get_proc p; put_proc p (f v).
Definition get_thread (t : Z) : K binder_thread := get_obj threads t.
Definition put_thread (t : Z) (v : binder_thread) : K unit := modify (fun s => set_threads s (<[t := v]> (threads s))).
Definition mod_thread (t : Z) (f : binder_thread -> binder_thread) : K unit := v ← get_thread t; put_thread t (f v).
Definition get_txn (t : Z) : K binder_transaction := get_obj txns t.
Definition put_txn (t : Z) (v : binder_transaction) : K unit := modify (fun s => set_txns s (<[t := v]> (txns s))).
Definition mod_txn (t : Z) (f : binder_transaction -> binder_transaction) : K unit := v ← get_txn t; put_txn t (f v).

(** [kfree] of an object: freeing what is not there is a fault. *)
Definition free_node (n : Z) : K unit := _ ← get_node n; modify (fun s => set_nodes s (delete n (nodes s))).
Definition free_ref (r : Z) : K unit := _ ← get_ref r; modify (fun s => set_refs s (delete r (refs s))).
Definition free_death (d : Z) : K unit := _ ← get_death d; modify (fun s => set_deaths s (delete d (deaths s))).
Definition free_proc (p : Z) : K unit := _ ← get_proc p; modify (fun s => set_procs s (delete p (procs s))).
Definition free_thread (t : Z) : K unit := _ ← get_thread t; modify (fun s => set_threads s (delete t (threads s))).
Definition free_txn (t : Z) : K unit := _ ← get_txn t; modify (fun s => set_txns s (delete t (txns s))).

(** *** Work lists *)
Definition list_of (h : lhead) (s : kstate) : list work := default [] (lists s !! h).
Definition list_add_tail (w : work) (h : lhead) : K unit :=
  modify (fun s => set_lists s (<[h := list_of h s ++ [w]]> (lists s))).
(** [list_add]: at the head. *)
Definition list_add_head (w : work) (h : lhead) : K unit :=
  modify (fun s => set_lists s (<[h := w :: list_of h s]> (lists s))).
(** [list_del]/[list_del_init] of the entry in [w]: it leaves the list it is on. *)
Definition list_del_work (w : work) : K unit := modify (fun s => set_lists s (list_del w <$> lists s)).
(** [!list_empty(&w->entry)] for an entry that is initialised when unlinked. *)
Definition linked (w : work) (s : kstate) : bool := bool_decide (map_Exists (fun _ l => w ∈ l) (lists s)).
Definition list_empty (h : lhead) : K bool := get (fun s => bool_decide (list_of h s = [])).
Definition list_head (h : lhead) : K (option work) := get (fun s => head (list_of h s)).

(** *** Statistics and the transaction logs *)
Definition bump (c : counter) : K unit :=
  modify (fun s => set_counters s (fun c' => if decide (c' = c) then s32 (counters s c + 1) else counters s c')).
Definition binder_stats_created (ty : stat_type) : K unit := bump (CCreated ty).
Definition binder_stats_deleted (ty : stat_type) : K unit := bump (CDeleted ty).

Definition LOG_SIZE : Z := 32.
(** A zeroed entry at [next]; its index. *)
Definition binder_transaction_log_add (l : transaction_log) : nat * transaction_log :=
  let i := Z.to_nat (log_next l) in
  let entries := <[i := log_zero]> (log_entries l) in
  let next := log_next l + 1 in
  (i, if next =? LOG_SIZE then MkLog 0 true entries else MkLog next (log_full l) entries).

Definition next_id : K Z :=
  _ ← modify (fun s => set_last_id s (s32 (last_id s + 1))); get last_id.

(** ** The environment *)

(** A task: its pid (which names it), the pid of its group leader, its file table
    and its effective uid. *)
Record task := MkTask {
  tk_pid : Z;
  tk_tgid : Z;
  tk_files : option Z;
  tk_euid : Z
}.

(** What the kernel answers; the first argument is the ticket of the request.
    The security hooks return 0 or a negative error; [alloc_fd] an unused
    descriptor or a negative error. *)
Class KernelEnv := {
  kzalloc_ok : Z -> bool;
  page_answers : Z -> page_env;
  security_binder_set_context_mgr : Z -> Z -> Z;
  security_binder_transaction : Z -> Z -> Z -> Z;
  security_binder_transfer_binder : Z -> Z -> Z -> Z;
  security_binder_transfer_file : Z -> Z -> Z -> Z -> Z;
  lock_task_sighand : Z -> Z -> bool;
  alloc_fd : Z -> Z -> Z;
  can_nice : Z -> Z -> Z -> bool;
  rlimit_nice : Z -> Z -> Z;
  task_euid : Z -> Z;
  task_tgid_nr : Z -> Z;
  from_kuid : Z -> Z
}.

Definition new_ticket : K Z := _ ← modify (fun s => set_ticket s (ticket s + 1)); get ticket.

Section Environment.
Context `{env : KernelEnv}.

(** The address of the new object, [None] when memory is short. *)
Definition kzalloc : K (option Z) := p ← new_ticket; mret (if kzalloc_ok p then Some p else None).

Definition task_nice (pid : Z) : K Z := get (fun s => default 0 (nices s !! pid)).
Definition MIN_NICE : Z := -20.
Definition MAX_NICE : Z := 19.
(** The kernel ignores nice values out of range. *)
Definition set_user_nice (pid nice : Z) : K unit :=
  modify (fun s => if (MIN_NICE <=? nice) && (nice <=? MAX_NICE) then set_nices s (<[pid := nice]> (nices s)) else s).

Definition binder_set_nice (cur : task) (nice : Z) : K unit :=
  t ← new_ticket;
  if can_nice t (tk_pid cur) nice then set_user_nice (tk_pid cur) nice
  else set_user_nice (tk_pid cur) (rlimit_nice t (tk_pid cur)).

(** [fget] of a descriptor of the calling task. *)
Definition fget (cur : task) (fd : Z) : K (option Z) :=
  get (fun s => files ← tk_files cur; open_files s !! (files, fd)).

Definition ESRCH : Z := 3.
Definition EMFILE : Z := 24.
Definition task_get_unused_fd_flags (p : binder_proc) : K Z :=
  match p_files p with
  | None => mret (- ESRCH)
  | Some files =>
      t ← new_ticket;
      mret (if negb (lock_task_sighand t (p_tsk p)) then - EMFILE else alloc_fd t files)
  end.

Definition task_fd_install (p : binder_proc) (fd file : Z) : K unit :=
  match p_files p with
  | None => mret tt
  | Some files => modify (fun s => set_open_files s (<[(files, fd) := file]> (open_files s)))
  end.

(** The callers ignore what it returns. *)
Definition task_close_fd (p : binder_proc) (fd : Z) : K unit :=
  match p_files p with
  | None => mret tt
  | Some files => modify (fun s => set_open_files s (delete (files, fd) (open_files s)))
  end.
End Environment.
