(* ===== verification/Refs.v ===== *)
(** * Nodes and references (driver/binder/binder.c)

    [binder_get_node] .. [binder_dec_ref]: the objects a process offers (nodes)
    and the handles other processes hold on them (references). *)
From S2P Require Import Prelude UserMem RbTree Alloc Protocol Kernel.

Implicit Types (p n r d : Z).

Section Refs.
Context `{env : KernelEnv}.

Definition binder_get_node p (ptr : Z) : K (option Z) :=
  proc ← get_proc p; mret (p_nodes proc !! ptr).

Definition binder_new_node p (ptr cookie : Z) : K (option Z) :=
  proc ← get_proc p;
  match p_nodes proc !! ptr with
  | Some _ => mret None
  | None =>
      o ← kzalloc;
      match o with
      | None => mret None
      | Some n =>
          _ ← binder_stats_created BINDER_STAT_NODE;
          _ ← mod_proc p (fun proc => set_p_nodes proc (<[ptr := n]> (p_nodes proc)));
          id ← next_id;
          _ ← put_node n (MkNode id (Some p) [] 0 0 0 ptr cookie false false false false false false 0);
          mret (Some n)
      end
  end.

Definition incr (x : Z) : Z := s32 (x + 1).
Definition decr (x : Z) : Z := s32 (x - 1).
Definition set_if (b : bool) (h : option lhead) : option lhead := if b then h else None.

(** The invalid increment of a node nobody would be told about. *)
Definition inc_strong_invalid n (node : binder_node) (target_list : option lhead) (mgr : option Z) : bool :=
  bool_decide (target_list = None) && (n_internal_strong_refs node =? 0) &&
  negb (bool_decide (mgr = Some n) && n_has_strong_ref node).

Definition binder_inc_node n (strong internal : bool) (target_list : option lhead) : K Z :=
  node ← get_node n;
  if strong then
    mgr ← get context_mgr_node;
    if internal && inc_strong_invalid n node target_list mgr then mret (- EINVAL) else
    _ ← put_node n (if internal then set_n_internal_strong_refs node (incr (n_internal_strong_refs node))
                    else set_n_local_strong_refs node (incr (n_local_strong_refs node)));
    _ ← (match target_list with
         | Some h => when (negb (n_has_strong_ref node)) (_ ← list_del_work (WNode n); list_add_tail (WNode n) h)
         | None => mret tt
         end);
    mret 0
  else
    _ ← put_node n (if internal then node else set_n_local_weak_refs node (incr (n_local_weak_refs node)));
    on ← get (linked (WNode n));
    if negb (n_has_weak_ref node) && negb on then
      match target_list with
      | None => mret (- EINVAL)
      | Some h => _ ← list_add_tail (WNode n) h; mret 0
      end
    else mret 0.

(** The node is still referenced in the kind that was decremented. *)
Definition still_held (node : binder_node) (strong : bool) : bool :=
  if strong then negb (n_local_strong_refs node =? 0) || negb (n_internal_strong_refs node =? 0)
  else negb (n_local_weak_refs node =? 0) || negb (bool_decide (n_refs node = [])).

Definition dec_counts (node : binder_node) (strong internal : bool) : binder_node :=
  if strong then
    if internal then set_n_internal_strong_refs node (decr (n_internal_strong_refs node))
    else set_n_local_strong_refs node (decr (n_local_strong_refs node))
  else
    if internal then node else set_n_local_weak_refs node (decr (n_local_weak_refs node)).

(** The end of [binder_dec_node], where the node is no longer held. *)
Definition unused_node n (node : binder_node) : K unit :=
  match n_proc node with
  | Some p =>
      if n_has_strong_ref node || n_has_weak_ref node then
        on ← get (linked (WNode n)); when (negb on) (list_add_tail (WNode n) (TodoProc p))
      else when (bool_decide (n_refs node = []) && (n_local_strong_refs node =? 0) && (n_local_weak_refs node =? 0))
        (_ ← list_del_work (WNode n);
         _ ← mod_proc p (fun proc => set_p_nodes proc (delete (n_ptr node) (p_nodes proc)));
         _ ← free_node n;
         binder_stats_deleted BINDER_STAT_NODE)
  | None =>
      when (bool_decide (n_refs node = []) && (n_local_strong_refs node =? 0) && (n_local_weak_refs node =? 0))
        (_ ← list_del_work (WNode n);
         _ ← modify (fun s => set_dead_nodes s (list_del n (dead_nodes s)));
         _ ← free_node n;
         binder_stats_deleted BINDER_STAT_NODE)
  end.

Definition binder_dec_node n (strong internal : bool) : K unit :=
  node ← get_node n;
  let node := dec_counts node strong internal in
  _ ← put_node n node;
  if still_held node strong then mret tt else unused_node n node.

Definition binder_get_ref p (desc : Z) : K (option Z) :=
  proc ← get_proc p; mret (p_refs_by_desc proc !! desc).

(** The keys of a tree, in the order of [rb_first], [rb_next]. *)
Definition keys {A} (m : gmap Z A) : list Z := merge_sort Z.le (map_to_list m).*1.

(** The loop that picks the descriptor of a new reference. *)
Fixpoint pick_desc (descs : list Z) (desc : Z) : Z :=
  match descs with
  | [] => desc
  | d :: descs => if desc <? d then desc else pick_desc descs (u32 (d + 1))
  end.

Definition binder_get_ref_for_node p n : K (option Z) :=
  proc ← get_proc p;
  match p_refs_by_node proc !! n with
  | Some r => mret (Some r)
  | None =>
      o ← kzalloc;
      match o with
      | None => mret None
      | Some r =>
          _ ← binder_stats_created BINDER_STAT_REF;
          id ← next_id;
          _ ← mod_proc p (fun proc => set_p_refs_by_node proc (<[n := r]> (p_refs_by_node proc)));
          mgr ← get context_mgr_node;
          let desc := pick_desc (keys (p_refs_by_desc proc)) (if decide (mgr = Some n) then 0 else 1) in
          _ ← BUG_ON (bool_decide (is_Some (p_refs_by_desc proc !! desc)));
          _ ← mod_proc p (fun proc => set_p_refs_by_desc proc (<[desc := r]> (p_refs_by_desc proc)));
          _ ← put_ref r (MkRef id p n desc 0 0 None);
          _ ← mod_node n (fun node => set_n_refs node (r :: n_refs node));
          mret (Some r)
      end
  end.

Definition binder_delete_ref r : K unit :=
  ref ← get_ref r;
  _ ← mod_proc (r_proc ref) (fun proc => set_p_refs_by_desc proc (delete (r_desc ref) (p_refs_by_desc proc)));
  _ ← mod_proc (r_proc ref) (fun proc => set_p_refs_by_node proc (delete (r_node ref) (p_refs_by_node proc)));
  _ ← when (negb (r_strong ref =? 0)) (binder_dec_node (r_node ref) true true);
  _ ← mod_node (r_node ref) (fun node => set_n_refs node (list_del r (n_refs node)));
  _ ← binder_dec_node (r_node ref) false true;
  _ ← (match r_death ref with
       | None => mret tt
       | Some d =>
           _ ← list_del_work (WDeath d);
           _ ← free_death d;
           binder_stats_deleted BINDER_STAT_DEATH
       end);
  _ ← free_ref r;
  binder_stats_deleted BINDER_STAT_REF.

Definition binder_inc_ref r (strong : bool) (target_list : option lhead) : K Z :=
  ref ← get_ref r;
  if strong then
    ret ← (if r_strong ref =? 0 then binder_inc_node (r_node ref) true true target_list else mret 0);
    if negb (ret =? 0) then mret ret else
    _ ← mod_ref r (fun ref => set_r_strong ref (incr (r_strong ref))); mret 0
  else
    ret ← (if r_weak ref =? 0 then binder_inc_node (r_node ref) false true target_list else mret 0);
    if negb (ret =? 0) then mret ret else
    _ ← mod_ref r (fun ref => set_r_weak ref (incr (r_weak ref))); mret 0.

Definition binder_dec_ref r (strong : bool) : K Z :=
  ref ← get_ref r;
  if (if strong then r_strong ref else r_weak ref) =? 0 then mret (- EINVAL) else
  _ ← (if strong then
         let strong_refs := decr (r_strong ref) in
         _ ← put_ref r (set_r_strong ref strong_refs);
         when (strong_refs =? 0) (binder_dec_node (r_node ref) true true)
       else put_ref r (set_r_weak ref (decr (r_weak ref))));
  ref ← get_ref r;
  _ ← when ((r_strong ref =? 0) && (r_weak ref =? 0)) (binder_delete_ref r);
  mret 0.
End Refs.
