(* ===== verification/Transact.v ===== *)
(** * Transactions (driver/binder/binder.c)

    [binder_pop_transaction] .. [binder_transaction]: a transaction or reply is
    copied into a buffer of the target process, its objects are translated, and
    it is queued; failures undo what was done and tell the sender. *)
From S2P Require Import Prelude UserMem RbTree Alloc Protocol Kernel Refs.

Implicit Types (p n r d t th b : Z).

Section Transact.
Context `{env : KernelEnv} `{rb : RbOps} `{jk : Junk}.

(** ** Transaction buffers *)

(** A buffer through a pointer to it. *)
Definition get_buf (pb : Z * Z) : K binder_buffer :=
  proc ← get_proc pb.1; klift (get_buffer (p_alloc proc) pb.2).
Definition put_buf (pb : Z * Z) (v : binder_buffer) : K unit :=
  proc ← get_proc pb.1; a ← klift (put_buffer (p_alloc proc) pb.2 v); put_proc pb.1 (set_p_alloc proc a).
Definition mod_buf (pb : Z * Z) (f : binder_buffer -> binder_buffer) : K unit := v ← get_buf pb; put_buf pb (f v).

Definition with_transaction (o : option Z) (v : binder_buffer) : binder_buffer :=
  MkBuffer (b_free v) (b_allow_user_free v) (b_async_transaction v) (b_debug_id v) o
    (b_target_node v) (b_data_size v) (b_offsets_size v).
Definition with_allow_user_free (a : bool) (v : binder_buffer) : binder_buffer :=
  MkBuffer (b_free v) a (b_async_transaction v) (b_debug_id v) (b_transaction v)
    (b_target_node v) (b_data_size v) (b_offsets_size v).
(** The assignments after the allocation; [debug_id] has 29 bits. *)
Definition with_owner (id t : Z) (node : option Z) (v : binder_buffer) : binder_buffer :=
  MkBuffer (b_free v) false (b_async_transaction v) (id mod 2 ^ 29) (Some t)
    node (b_data_size v) (b_offsets_size v).

Definition alloc_buf p (data_size offsets_size : Z) (is_async : bool) : K (option Z) :=
  proc ← get_proc p;
  tk ← new_ticket;
  '(o, a) ← klift (binder_alloc_buf (page_answers tk) (p_alloc proc) data_size offsets_size is_async);
  _ ← put_proc p (set_p_alloc proc a);
  mret o.

Definition free_buf (pb : Z * Z) : K unit :=
  proc ← get_proc pb.1;
  tk ← new_ticket;
  a ← klift (binder_free_buf (page_answers tk) (p_alloc proc) pb.2);
  _ ← put_proc pb.1 (set_p_alloc proc a);
  modify (fun s => set_contents s (delete pb.2 (contents s))).

Definition get_content b : K content := get_obj contents b.
Definition put_content b (c : content) : K unit := modify (fun s => set_contents s (<[b := c]> (contents s))).

(** The [i]-th offset of a buffer. *)
Definition offset_at (c : content) (i : nat) : K Z :=
  let l := take 8 (drop (8 * i) (c_offsets c)) in
  if decide (length l = 8%nat) then mret (le_val l) else klift (Fault OOPS).

(** The test of an offset against the size of the data; [data_size - sizeof( *fp)]
    is computed in [size_t]. *)
Definition bad_offset (off data_size : Z) : bool :=
  (u64 (data_size - Z.of_nat sizeof_flat_binder_object) <? off) ||
  (data_size <? Z.of_nat sizeof_flat_binder_object) || negb (is_aligned off 4).

Definition obj_at (c : content) (off : Z) : flat_binder_object :=
  obj_of_bytes (take sizeof_flat_binder_object (drop (Z.to_nat off) (c_data c))).

Definition overwrite (off : Z) (l data : list Z) : list Z :=
  take (Z.to_nat off) data ++ l ++ drop (Z.to_nat off + length l) data.
(** Stores to fields of the object at [off]: [type], [binder] (8 bytes) or
    [handle] (its low 4 bytes), [cookie]. *)
Definition store_field (k : Z) (width : nat) (x : Z) (off : Z) (c : content) : content :=
  MkContent (overwrite (off + k) (le_bytes width x) (c_data c)) (c_offsets c).
Definition store_type := store_field 0 4.
Definition store_handle := store_field 8 4.
Definition store_binder := store_field 8 8.
Definition store_cookie := store_field 16 8.
Definition mod_content b (f : content -> content) : K unit := c ← get_content b; put_content b (f c).

(** ** The transaction stack *)
Definition is_some_eq (o : option Z) (x : Z) : bool := bool_decide (o = Some x).

Definition binder_pop_transaction (target_thread : option Z) t : K unit :=
  _ ← (match target_thread with
       | None => mret tt
       | Some th =>
           thread ← get_thread th;
           _ ← BUG_ON (negb (is_some_eq (th_transaction_stack thread) t));
           tr ← get_txn t;
           _ ← BUG_ON (negb (is_some_eq (t_from tr) th));
           _ ← put_thread th (set_th_transaction_stack thread (t_from_parent tr));
           put_txn t (set_t_from tr None)
       end);
  tr ← get_txn t;
  _ ← put_txn t (set_t_need_reply tr false);
  _ ← (match t_buffer tr with Some pb => mod_buf pb (with_transaction None) | None => mret tt end);
  _ ← free_txn t;
  binder_stats_deleted BINDER_STAT_TRANSACTION.

(** The error a thread has, moved aside to make room for a second one. *)
Definition shift_error (thread : binder_thread) : binder_thread :=
  if negb (th_return_error thread =? BR_OK) && (th_return_error2 thread =? BR_OK) then
    set_th_return_error (set_th_return_error2 thread (th_return_error thread)) BR_OK
  else thread.

Fixpoint send_failed_reply_loop (fuel : nat) t (error_code : Z) : K unit :=
  match fuel with
  | O => klift (Fault HANG)
  | S fuel =>
      tr ← get_txn t;
      match t_from tr with
      | Some th =>
          _ ← mod_thread th shift_error;
          thread ← get_thread th;
          if th_return_error thread =? BR_OK then
            _ ← binder_pop_transaction (Some th) t;
            mod_thread th (fun thread => set_th_return_error thread error_code)
          else mret tt
      | None =>
          let next := t_from_parent tr in
          _ ← binder_pop_transaction None t;
          match next with
          | None => mret tt
          | Some t => send_failed_reply_loop fuel t error_code
          end
      end
  end.

Definition one_way (flags : Z) : bool := negb (Z.land flags TF_ONE_WAY =? 0).

(** Each round frees a transaction, so their number bounds the rounds. *)
Definition binder_send_failed_reply t (error_code : Z) : K unit :=
  tr ← get_txn t;
  _ ← BUG_ON (one_way (t_flags tr));
  count ← get (fun s => size (txns s));
  send_failed_reply_loop (S count) t error_code.

(** ** Releasing the objects of a buffer *)
Definition is_binder_type (ty : Z) : bool := (ty =? BINDER_TYPE_BINDER) || (ty =? BINDER_TYPE_WEAK_BINDER).
Definition is_handle_type (ty : Z) : bool := (ty =? BINDER_TYPE_HANDLE) || (ty =? BINDER_TYPE_WEAK_HANDLE).

Definition release_object p (failed : bool) (fp : flat_binder_object) : K unit :=
  if is_binder_type (fo_type fp) then
    o ← binder_get_node p (fo_binder fp);
    match o with
    | None => mret tt
    | Some n => binder_dec_node n (fo_type fp =? BINDER_TYPE_BINDER) false
    end
  else if is_handle_type (fo_type fp) then
    o ← binder_get_ref p (fo_handle fp);
    match o with
    | None => mret tt
    | Some r => _ ← binder_dec_ref r (fo_type fp =? BINDER_TYPE_HANDLE); mret tt
    end
  else if fo_type fp =? BINDER_TYPE_FD then
    when failed (proc ← get_proc p; task_close_fd proc (fo_handle fp))
  else mret tt.

(** [for (; offp < off_end; offp++)], [i] being the index of [offp]. *)
Fixpoint release_objects (k i : nat) p b (data_size : Z) (failed : bool) : K unit :=
  match k with
  | O => mret tt
  | S k =>
      c ← get_content b;
      off ← offset_at c i;
      _ ← when (negb (bad_offset off data_size)) (release_object p failed (obj_at c off));
      release_objects k (S i) p b data_size failed
  end.

(** [failed_at]: the index of the offset at which the translation stopped. *)
Definition binder_transaction_buffer_release p b (failed_at : option nat) : K unit :=
  v ← get_buf (p, b);
  _ ← (match b_target_node v with Some n => binder_dec_node n true false | None => mret tt end);
  let count := match failed_at with
               | Some i => i
               | None => Z.to_nat ((b_offsets_size v + 7) / 8)
               end in
  release_objects count 0 p b (b_data_size v) (bool_decide (is_Some failed_at)).
End Transact.
