(* ===== verification/Send.v ===== *)
(** * [binder_transaction] (driver/binder/binder.c)

    The function in its stages: finding the target, the new transaction and its
    buffer, the translation of the objects, the delivery, and the error exits. *)
From S2P Require Import Prelude UserMem RbTree Alloc Protocol Kernel Refs Transact.

Implicit Types (p n r d t th b : Z).

(** The entries of the log while the transaction runs. *)
Definition log_at (i : nat) (f : log_entry -> log_entry) (l : transaction_log) : transaction_log :=
  MkLog (log_next l) (log_full l) (alter f i (log_entries l)).
Definition log_update (i : nat) (f : log_entry -> log_entry) : K unit :=
  modify (fun s => set_tlog s (log_at i f (tlog s))).
Definition with_to_node (v : Z) (e : log_entry) : log_entry :=
  MkEntry (e_debug_id e) (e_call_type e) (e_from_proc e) (e_from_thread e) (e_target_handle e)
    (e_to_proc e) (e_to_thread e) v (e_data_size e) (e_offsets_size e).
Definition with_to_thread (v : Z) (e : log_entry) : log_entry :=
  MkEntry (e_debug_id e) (e_call_type e) (e_from_proc e) (e_from_thread e) (e_target_handle e)
    (e_to_proc e) v (e_to_node e) (e_data_size e) (e_offsets_size e).
Definition with_to_proc (v : Z) (e : log_entry) : log_entry :=
  MkEntry (e_debug_id e) (e_call_type e) (e_from_proc e) (e_from_thread e) (e_target_handle e)
    v (e_to_thread e) (e_to_node e) (e_data_size e) (e_offsets_size e).
Definition with_debug_id (v : Z) (e : log_entry) : log_entry :=
  MkEntry v (e_call_type e) (e_from_proc e) (e_from_thread e) (e_target_handle e)
    (e_to_proc e) (e_to_thread e) (e_to_node e) (e_data_size e) (e_offsets_size e).

(** A stage either goes on with a value or leaves through an error exit. *)
Definition stage (E A : Type) : Type := K (E + A).
Definition and_then {E A B} (m : stage E A) (f : A -> stage E B) : stage E B :=
  x ← m; match x with inl e => mret (inl e) | inr a => f a end.
Definition goes {E A} (a : A) : stage E A := mret (inr a).
Definition exits {E A} (e : E) : stage E A := mret (inl e).
Definition does {E A} (m : K A) : stage E A := a ← m; mret (inr a).
Notation "x <~ m ; k" := (and_then m (fun x => k)) (at level 20, m at level 100, k at level 200) : binder_scope.
Notation "' x <~ m ; k" := (and_then m (fun x => k)) (at level 20, x pattern, m at level 100, k at level 200) : binder_scope.
Open Scope binder_scope.

(** Where a transaction goes. *)
Record target := MkTarget {
  tg_proc : Z;
  tg_thread : option Z;
  tg_node : option Z;
  tg_in_reply_to : option Z
}.
(** [return_error] with the value of [in_reply_to] at the exit. *)
Definition exit_ : Type := Z * option Z.

Section Send.
Context {M : Type} `{uops : UserOps M}.
Context `{env : KernelEnv} `{rb : RbOps} `{jk : Junk}.

Definition reply_target (cur : task) th : stage exit_ target :=
  thread <~ does (get_thread th);
  match th_transaction_stack thread with
  | None => exits (BR_FAILED_REPLY, None)
  | Some irt =>
      tr <~ does (get_txn irt);
      _ <~ does (binder_set_nice cur (t_saved_priority tr));
      if negb (is_some_eq (t_to_thread tr) th) then exits (BR_FAILED_REPLY, None) else
      _ <~ does (mod_thread th (fun thread => set_th_transaction_stack thread (t_to_parent tr)));
      match t_from tr with
      | None => exits (BR_DEAD_REPLY, Some irt)
      | Some tth =>
          tthread <~ does (get_thread tth);
          if negb (is_some_eq (th_transaction_stack tthread) irt) then exits (BR_FAILED_REPLY, None)
          else goes (MkTarget (th_proc tthread) (Some tth) None (Some irt))
      end
  end.

(** [while (tmp)]: the oldest caller in the target process, if there is one; a
    chain longer than the transactions there are is a cycle. *)
Fixpoint caller_in (fuel : nat) (target_proc : Z) (tmp found : option Z) : K (option Z) :=
  match fuel with
  | O => klift (Fault HANG)
  | S fuel =>
      match tmp with
      | None => mret found
      | Some t =>
          tr ← get_txn t;
          found ← (match t_from tr with
                   | None => mret found
                   | Some th => thread ← get_thread th; mret (if th_proc thread =? target_proc then Some th else found)
                   end);
          caller_in fuel target_proc (t_from_parent tr) found
      end
  end.

Definition call_target p th (tr : binder_transaction_data) (e : nat) : stage exit_ target :=
  proc <~ does (get_proc p);
  n <~ (if negb (td_handle tr =? 0) then
          o <~ does (binder_get_ref p (td_handle tr));
          match o with
          | None => exits (BR_FAILED_REPLY, None)
          | Some r => ref <~ does (get_ref r); goes (r_node ref)
          end
        else
          mgr <~ does (get context_mgr_node);
          match mgr with None => exits (BR_DEAD_REPLY, None) | Some n => goes n end);
  node <~ does (get_node n);
  _ <~ does (log_update e (with_to_node (n_debug_id node)));
  match n_proc node with
  | None => exits (BR_DEAD_REPLY, None)
  | Some tp =>
      tproc <~ does (get_proc tp);
      tk <~ does new_ticket;
      if security_binder_transaction tk (p_tsk proc) (p_tsk tproc) <? 0 then exits (BR_FAILED_REPLY, None) else
      thread <~ does (get_thread th);
      match (if one_way (td_flags tr) then None else th_transaction_stack thread) with
      | None => goes (MkTarget tp None (Some n) None)
      | Some tmp =>
          top <~ does (get_txn tmp);
          if negb (is_some_eq (t_to_thread top) th) then exits (BR_FAILED_REPLY, None) else
          count <~ does (get (fun s => size (txns s)));
          found <~ does (caller_in (S (S count)) tp (Some tmp) None);
          goes (MkTarget tp found (Some n) None)
      end
  end.

(** ** Translation of the objects *)

(** A node of the sender becomes a reference of the target. *)
Definition translate_binder p th tp b (off : Z) (fp : flat_binder_object) : K bool :=
  o ← binder_get_node p (fo_binder fp);
  o ← (match o with
       | Some n => mret (Some n)
       | None =>
           o ← binder_new_node p (fo_binder fp) (fo_cookie fp);
           match o with
           | None => mret None
           | Some n =>
               _ ← mod_node n (fun node =>
                 set_n_accept_fds (set_n_min_priority node (Z.land (fo_flags fp) FLAT_BINDER_FLAG_PRIORITY_MASK))
                   (negb (Z.land (fo_flags fp) FLAT_BINDER_FLAG_ACCEPTS_FDS =? 0)));
               mret (Some n)
           end
       end);
  match o with
  | None => mret false
  | Some n =>
      node ← get_node n;
      if negb (fo_cookie fp =? n_cookie node) then mret false else
      proc ← get_proc p; tproc ← get_proc tp; tk ← new_ticket;
      if negb (security_binder_transfer_binder tk (p_tsk proc) (p_tsk tproc) =? 0) then mret false else
      o ← binder_get_ref_for_node tp n;
      match o with
      | None => mret false
      | Some r =>
          let strong := fo_type fp =? BINDER_TYPE_BINDER in
          _ ← mod_content b (store_type (if strong then BINDER_TYPE_HANDLE else BINDER_TYPE_WEAK_HANDLE) off);
          ref ← get_ref r;
          _ ← mod_content b (store_handle (r_desc ref) off);
          _ ← binder_inc_ref r strong (Some (TodoThread th));
          mret true
      end
  end.

(** A reference of the sender becomes a node of the target, when it is the
    target's own, or a reference of the target. *)
Definition translate_handle p tp b (off : Z) (fp : flat_binder_object) : K bool :=
  o ← binder_get_ref p (fo_handle fp);
  match o with
  | None => mret false
  | Some r =>
      proc ← get_proc p; tproc ← get_proc tp; tk ← new_ticket;
      if negb (security_binder_transfer_binder tk (p_tsk proc) (p_tsk tproc) =? 0) then mret false else
      ref ← get_ref r;
      node ← get_node (r_node ref);
      let strong := fo_type fp =? BINDER_TYPE_HANDLE in
      if is_some_eq (n_proc node) tp then
        _ ← mod_content b (store_type (if strong then BINDER_TYPE_BINDER else BINDER_TYPE_WEAK_BINDER) off);
        _ ← mod_content b (store_binder (n_ptr node) off);
        _ ← mod_content b (store_cookie (n_cookie node) off);
        _ ← binder_inc_node (r_node ref) strong false None;
        mret true
      else
        o ← binder_get_ref_for_node tp (r_node ref);
        match o with
        | None => mret false
        | Some r' =>
            ref' ← get_ref r';
            _ ← mod_content b (store_handle (r_desc ref') off);
            _ ← binder_inc_ref r' strong None;
            mret true
        end
  end.

(** A file descriptor is installed in the target. *)
Definition translate_fd (cur : task) p (tg : target) b (off : Z) (fp : flat_binder_object) : K bool :=
  allowed ← (match tg_in_reply_to tg, tg_node tg with
             | Some irt, _ => tr ← get_txn irt; mret (negb (Z.land (t_flags tr) TF_ACCEPT_FDS =? 0))
             | None, Some n => node ← get_node n; mret (n_accept_fds node)
             | None, None => klift (Fault OOPS)
             end);
  if negb allowed then mret false else
  o ← fget cur (fo_handle fp);
  match o with
  | None => mret false
  | Some file =>
      proc ← get_proc p; tproc ← get_proc (tg_proc tg); tk ← new_ticket;
      if security_binder_transfer_file tk (p_tsk proc) (p_tsk tproc) file <? 0 then mret false else
      target_fd ← task_get_unused_fd_flags tproc;
      if target_fd <? 0 then mret false else
      _ ← task_fd_install tproc target_fd file;
      _ ← mod_content b (store_handle target_fd off);
      mret true
  end.

Definition translate_object (cur : task) p th (tg : target) b (off : Z) (fp : flat_binder_object) : K bool :=
  if is_binder_type (fo_type fp) then translate_binder p th (tg_proc tg) b off fp
  else if is_handle_type (fo_type fp) then translate_handle p (tg_proc tg) b off fp
  else if fo_type fp =? BINDER_TYPE_FD then translate_fd cur p tg b off fp
  else mret false.

(** The loop over the offsets; it stops at the index of the object that fails. *)
Fixpoint translate_objects (k i : nat) (cur : task) p th (tg : target) b (data_size : Z) : stage nat unit :=
  match k with
  | O => goes tt
  | S k =>
      c <~ does (get_content b);
      off <~ does (offset_at c i);
      if bad_offset off data_size then exits i else
      ok <~ does (translate_object cur p th tg b off (obj_at c off));
      if (ok : bool) then translate_objects k (S i) cur p th tg b data_size else exits i
  end.

(** The copies from the sender's memory and the translation. *)
Definition fill_buffer (u : M) (cur : task) p th (tr : binder_transaction_data) (tg : target) b : stage nat unit :=
  match copy_from_user u (td_buffer tr) (Z.to_nat (td_data_size tr)) with
  | None => exits 0%nat
  | Some bytes =>
      match copy_from_user u (td_offsets tr) (Z.to_nat (td_offsets_size tr)) with
      | None => exits 0%nat
      | Some offs =>
          if negb (is_aligned (td_offsets_size tr) 8) then exits 0%nat else
          _ <~ does (put_content b (MkContent bytes offs));
          translate_objects (Z.to_nat (td_offsets_size tr / 8)) 0 cur p th tg b (td_data_size tr)
      end
  end.

(** ** The new transaction *)

(** The last part: the transaction replaces the one it answers, or goes on the
    stack of the sender, or waits for the node's previous one-way transaction;
    it and its completion are queued. *)
Definition deliver th (tg : target) t complete b : K unit :=
  tr ← get_txn t;
  v ← get_buf (tg_proc tg, b);
  let queue := match tg_thread tg with Some tth => TodoThread tth | None => TodoProc (tg_proc tg) end in
  queue ← (match tg_in_reply_to tg with
    | Some irt =>
        _ ← BUG_ON (b_async_transaction v);
        _ ← binder_pop_transaction (tg_thread tg) irt;
        mret queue
    | None =>
        if negb (one_way (t_flags tr)) then
          _ ← BUG_ON (b_async_transaction v);
          thread ← get_thread th;
          _ ← put_txn t (set_t_from_parent (set_t_need_reply tr true) (th_transaction_stack thread));
          _ ← put_thread th (set_th_transaction_stack thread (Some t));
          mret queue
        else
          match tg_node tg with
          | None => klift (Fault BUG)
          | Some n =>
              _ ← BUG_ON (negb (b_async_transaction v));
              node ← get_node n;
              if n_has_async_transaction node then mret (AsyncTodo n)
              else _ ← put_node n (set_n_has_async_transaction node true); mret queue
          end
    end);
  _ ← list_add_tail (WTransaction t) queue;
  list_add_tail (WComplete complete) (TodoThread th).

(** The exits after the buffer was allocated, from the object at [failed_at]. *)
Definition release_buffer (tg : target) b (failed_at : nat) : K unit :=
  _ ← binder_transaction_buffer_release (tg_proc tg) b (Some failed_at);
  _ ← mod_buf (tg_proc tg, b) (with_transaction None);
  free_buf (tg_proc tg, b).

Definition new_transaction (cur : task) p th (tr : binder_transaction_data) (tg : target) t (id : Z) : K unit :=
  proc ← get_proc p;
  nice ← task_nice (tk_pid cur);
  let reply := bool_decide (is_Some (tg_in_reply_to tg)) in
  put_txn t (MkTr id (if negb reply && negb (one_way (td_flags tr)) then Some th else None) None
    (Some (tg_proc tg)) (tg_thread tg) None false None (td_code tr) (td_flags tr) nice 0 (task_euid (p_tsk proc))).

(** [t], its buffer and its delivery. *)
Definition send_to (u : M) (cur : task) p th (tr : binder_transaction_data) (tg : target) (e : nat) : stage exit_ unit :=
  let failed := (BR_FAILED_REPLY, tg_in_reply_to tg) in
  o <~ does kzalloc;
  match o with None => exits failed | Some t =>
  _ <~ does (binder_stats_created BINDER_STAT_TRANSACTION);
  o <~ does kzalloc;
  match o with
  | None => _ <~ does (binder_stats_deleted BINDER_STAT_TRANSACTION); exits failed
  | Some complete =>
      _ <~ does (binder_stats_created BINDER_STAT_TRANSACTION_COMPLETE);
      id <~ does next_id;
      _ <~ does (log_update e (with_debug_id id));
      _ <~ does (new_transaction cur p th tr tg t id);
      let reply := bool_decide (is_Some (tg_in_reply_to tg)) in
      let undo := (_ ← binder_stats_deleted BINDER_STAT_TRANSACTION_COMPLETE;
                   _ ← free_txn t; binder_stats_deleted BINDER_STAT_TRANSACTION) in
      o <~ does (alloc_buf (tg_proc tg) (td_data_size tr) (td_offsets_size tr)
                   (negb reply && one_way (td_flags tr)));
      match o with
      | None => _ <~ does undo; exits failed
      | Some b =>
          _ <~ does (mod_buf (tg_proc tg, b) (with_owner id t (tg_node tg)));
          _ <~ does (mod_txn t (fun v => set_t_buffer v (Some (tg_proc tg, b))));
          _ <~ does (match tg_node tg with
                     | Some n => _ ← binder_inc_node n true false None; mret tt
                     | None => mret tt
                     end);
          x <~ does (fill_buffer u cur p th tr tg b);
          match x with
          | inl failed_at => _ <~ does (release_buffer tg b failed_at); _ <~ does undo; exits failed
          | inr _ => does (deliver th tg t complete b)
          end
      end
  end end.

(** The common end of the error exits. *)
Definition fail_transaction th (e : nat) (return_error : Z) (in_reply_to : option Z) : K unit :=
  _ ← modify (fun s =>
    let '(fe, l) := binder_transaction_log_add (tlog_failed s) in
    set_tlog_failed s (log_at fe (fun _ => default log_zero (log_entries (tlog s) !! e)) l));
  thread ← get_thread th;
  _ ← BUG_ON (negb (th_return_error thread =? BR_OK));
  match in_reply_to with
  | Some irt =>
      _ ← put_thread th (set_th_return_error thread BR_TRANSACTION_COMPLETE);
      binder_send_failed_reply irt return_error
  | None => put_thread th (set_th_return_error thread return_error)
  end.

Definition binder_transaction (u : M) (cur : task) p th (tr : binder_transaction_data) (reply : bool) : K unit :=
  proc ← get_proc p;
  thread ← get_thread th;
  e ← (fun s => let '(e, l) := binder_transaction_log_add (tlog s) in Ok (e, set_tlog s l));
  _ ← log_update e (fun _ => MkEntry 0 (if reply then 2 else if one_way (td_flags tr) then 1 else 0)
    (p_pid proc) (th_pid thread) (s32 (td_handle tr)) 0 0 0 (s32 (td_data_size tr)) (s32 (td_offsets_size tr)));
  x ← (tg <~ (if reply then reply_target cur th else call_target p th tr e);
       _ <~ does (match tg_thread tg with
                  | Some tth => tthread ← get_thread tth; log_update e (with_to_thread (th_pid tthread))
                  | None => mret tt
                  end);
       tproc <~ does (get_proc (tg_proc tg));
       _ <~ does (log_update e (with_to_proc (p_pid tproc)));
       send_to u cur p th tr tg e);
  match x with
  | inl (return_error, in_reply_to) => fail_transaction th e return_error in_reply_to
  | inr _ => mret tt
  end.
End Send.
