(* ===== verification/Write.v ===== *)
(** * [binder_thread_write] (driver/binder/binder.c)

    The commands a thread writes: one handler per group of cases of the switch,
    and the loop that decodes them. *)
From S2P Require Import Prelude UserMem RbTree Alloc Protocol Kernel Refs Transact Send.

Implicit Types (p n r d t th b : Z).

Definition BINDER_LOOPER_STATE_REGISTERED : Z := 1.
Definition BINDER_LOOPER_STATE_ENTERED : Z := 2.
Definition BINDER_LOOPER_STATE_EXITED : Z := 4.
Definition BINDER_LOOPER_STATE_INVALID : Z := 8.
Definition BINDER_LOOPER_STATE_WAITING : Z := 16.
Definition BINDER_LOOPER_STATE_NEED_RETURN : Z := 32.

Definition has_bits (x bits : Z) : bool := negb (Z.land x bits =? 0).
Definition looper_or (bits : Z) (thread : binder_thread) : binder_thread :=
  set_th_looper thread (Z.lor (th_looper thread) bits).
Definition looper_clear (bits : Z) (thread : binder_thread) : binder_thread :=
  set_th_looper thread (Z.ldiff (th_looper thread) bits).
(** A thread that called [BC_REGISTER_LOOPER] or [BC_ENTER_LOOPER]. *)
Definition is_looper (thread : binder_thread) : bool :=
  has_bits (th_looper thread) (Z.lor BINDER_LOOPER_STATE_REGISTERED BINDER_LOOPER_STATE_ENTERED).

(** [_IOC_NR(cmd)] *)
Definition IOC_NR (cmd : Z) : Z := cmd mod 256.
Definition BC_COUNT : Z := 17.
Definition BR_COUNT : Z := 18.

Section Write.
Context {M : Type} `{uops : UserOps M}.
Context `{env : KernelEnv} `{rb : RbOps} `{jk : Junk}.

Definition binder_stat_bc p th (cmd : Z) : K unit :=
  when (IOC_NR cmd <? BC_COUNT)
    (_ ← bump (CBc Global (IOC_NR cmd)); _ ← bump (CBc (OfProc p) (IOC_NR cmd)); bump (CBc (OfThread th) (IOC_NR cmd))).

(** [BC_INCREFS], [BC_ACQUIRE], [BC_RELEASE], [BC_DECREFS]: a reference to
    descriptor 0 is created on demand; the result is not tested for NULL. *)
Definition write_refs p (cmd target : Z) : K unit :=
  mgr ← get context_mgr_node;
  o ← (match mgr with
       | Some n =>
           if (target =? 0) && ((cmd =? BC_INCREFS) || (cmd =? BC_ACQUIRE)) then
             o ← binder_get_ref_for_node p n;
             r ← klift (deref o);
             _ ← get_ref r;
             mret (Some r)
           else binder_get_ref p target
       | None => binder_get_ref p target
       end);
  match o with
  | None => mret tt
  | Some r =>
      _ ← (if cmd =? BC_INCREFS then binder_inc_ref r false None
           else if cmd =? BC_ACQUIRE then binder_inc_ref r true None
           else if cmd =? BC_RELEASE then binder_dec_ref r true
           else binder_dec_ref r false);
      mret tt
  end.

(** [BC_INCREFS_DONE], [BC_ACQUIRE_DONE] *)
Definition write_refs_done p (cmd node_ptr cookie : Z) : K unit :=
  o ← binder_get_node p node_ptr;
  match o with
  | None => mret tt
  | Some n =>
      node ← get_node n;
      if negb (cookie =? n_cookie node) then mret tt else
      if cmd =? BC_ACQUIRE_DONE then
        if negb (n_pending_strong_ref node) then mret tt else
        _ ← put_node n (set_n_pending_strong_ref node false); binder_dec_node n true false
      else
        if negb (n_pending_weak_ref node) then mret tt else
        _ ← put_node n (set_n_pending_weak_ref node false); binder_dec_node n false false
  end.

(** A one-way transaction of the node is done: the next one is queued. *)
Definition next_async th n : K unit :=
  node ← get_node n;
  _ ← BUG_ON (negb (n_has_async_transaction node));
  o ← list_head (AsyncTodo n);
  match o with
  | None => put_node n (set_n_has_async_transaction node false)
  | Some w => _ ← list_del_work w; list_add_tail w (TodoThread th)
  end.

(** [BC_FREE_BUFFER] *)
Definition write_free_buffer p th (data_ptr : Z) : K unit :=
  proc ← get_proc p;
  o ← klift (binder_buffer_lookup (p_alloc proc) data_ptr);
  match o with
  | None => mret tt
  | Some b =>
      v ← get_buf (p, b);
      if negb (b_allow_user_free v) then mret tt else
      _ ← (match b_transaction v with
           | None => mret tt
           | Some t =>
               _ ← mod_txn t (fun tr => set_t_buffer tr None);
               put_buf (p, b) (with_transaction None v)
           end);
      _ ← (match b_target_node v with
           | Some n => when (b_async_transaction v) (next_async th n)
           | None => mret tt
           end);
      _ ← binder_transaction_buffer_release p b None;
      free_buf (p, b)
  end.

Definition write_register_looper p th : K unit :=
  thread ← get_thread th;
  proc ← get_proc p;
  _ ← (if has_bits (th_looper thread) BINDER_LOOPER_STATE_ENTERED then
         put_thread th (looper_or BINDER_LOOPER_STATE_INVALID thread)
       else if p_requested_threads proc =? 0 then
         put_thread th (looper_or BINDER_LOOPER_STATE_INVALID thread)
       else
         put_proc p (set_p_requested_threads_started
           (set_p_requested_threads proc (decr (p_requested_threads proc)))
           (incr (p_requested_threads_started proc))));
  mod_thread th (looper_or BINDER_LOOPER_STATE_REGISTERED).

Definition write_enter_looper th : K unit :=
  _ ← mod_thread th (fun thread =>
    if has_bits (th_looper thread) BINDER_LOOPER_STATE_REGISTERED then looper_or BINDER_LOOPER_STATE_INVALID thread
    else thread);
  mod_thread th (looper_or BINDER_LOOPER_STATE_ENTERED).

Definition write_exit_looper th : K unit := mod_thread th (looper_or BINDER_LOOPER_STATE_EXITED).

(** A death notification is queued for the thread when it is a looper, for its
    process otherwise. *)
Definition queue_death p th d : K unit :=
  thread ← get_thread th;
  list_add_tail (WDeath d) (if is_looper thread then TodoThread th else TodoProc p).

(** [BC_REQUEST_DEATH_NOTIFICATION] *)
Definition write_request_death p th (target cookie : Z) : K unit :=
  o ← binder_get_ref p target;
  match o with
  | None => mret tt
  | Some r =>
      ref ← get_ref r;
      if bool_decide (is_Some (r_death ref)) then mret tt else
      o ← kzalloc;
      match o with
      | None => mod_thread th (fun thread => set_th_return_error thread BR_ERROR)
      | Some d =>
          _ ← binder_stats_created BINDER_STAT_DEATH;
          node ← get_node (r_node ref);
          let dead := bool_decide (n_proc node = None) in
          _ ← put_death d (MkDeath DEAD_BINDER cookie);
          _ ← put_ref r (set_r_death ref (Some d));
          when dead (queue_death p th d)
      end
  end.

(** [BC_CLEAR_DEATH_NOTIFICATION] *)
Definition write_clear_death p th (target cookie : Z) : K unit :=
  o ← binder_get_ref p target;
  match o with
  | None => mret tt
  | Some r =>
      ref ← get_ref r;
      match r_death ref with
      | None => mret tt
      | Some d =>
          death ← get_death d;
          if negb (d_cookie death =? cookie) then mret tt else
          _ ← put_ref r (set_r_death ref None);
          on ← get (linked (WDeath d));
          if negb on then
            _ ← put_death d (set_d_type death CLEAR_DEATH_NOTIFICATION);
            queue_death p th d
          else
            _ ← BUG_ON (negb (bool_decide (d_type death = DEAD_BINDER)));
            put_death d (set_d_type death DEAD_BINDER_AND_CLEAR)
      end
  end.

(** The entry of [proc->delivered_death] with the cookie. *)
Fixpoint find_death (l : list work) (cookie : Z) : K (option Z) :=
  match l with
  | WDeath d :: l =>
      death ← get_death d;
      if d_cookie death =? cookie then mret (Some d) else find_death l cookie
  | _ :: _ => klift (Fault OOPS)
  | [] => mret None
  end.

(** [BC_DEAD_BINDER_DONE] *)
Definition write_dead_binder_done p th (cookie : Z) : K unit :=
  l ← get (list_of (Delivered p));
  o ← find_death l cookie;
  match o with
  | None => mret tt
  | Some d =>
      _ ← list_del_work (WDeath d);
      death ← get_death d;
      if decide (d_type death = DEAD_BINDER_AND_CLEAR) then
        _ ← put_death d (set_d_type death CLEAR_DEATH_NOTIFICATION);
        queue_death p th d
      else mret tt
  end.

(** ** The loop *)

(** [get_user] of a word of the command stream: [-EFAULT] if it is not there. *)
Definition fetch (u : M) (ptr : Z) (width : nat) : stage Z Z :=
  match get_user u ptr width with Some x => goes x | None => exits (- EFAULT) end.

Definition step (ptr n : Z) : Z := u64 (ptr + n).

(** One command; [ptr] is behind its code.  The result is an error to return, or
    the address behind the arguments. *)
Definition write_command (u : M) (cur : task) p th (cmd ptr : Z) : stage Z Z :=
  if (cmd =? BC_INCREFS) || (cmd =? BC_ACQUIRE) || (cmd =? BC_RELEASE) || (cmd =? BC_DECREFS) then
    target <~ fetch u ptr 4;
    _ <~ does (write_refs p cmd target);
    goes (step ptr 4)
  else if (cmd =? BC_INCREFS_DONE) || (cmd =? BC_ACQUIRE_DONE) then
    node_ptr <~ fetch u ptr 8;
    cookie <~ fetch u (step ptr 8) 8;
    _ <~ does (write_refs_done p cmd node_ptr cookie);
    goes (step ptr 16)
  else if (cmd =? BC_ATTEMPT_ACQUIRE) || (cmd =? BC_ACQUIRE_RESULT) then exits (- EINVAL)
  else if cmd =? BC_FREE_BUFFER then
    data_ptr <~ fetch u ptr 8;
    _ <~ does (write_free_buffer p th data_ptr);
    goes (step ptr 8)
  else if (cmd =? BC_TRANSACTION) || (cmd =? BC_REPLY) then
    match copy_from_user u ptr sizeof_binder_transaction_data with
    | None => exits (- EFAULT)
    | Some l =>
        _ <~ does (binder_transaction u cur p th (txn_of_bytes l) (cmd =? BC_REPLY));
        goes (step ptr (Z.of_nat sizeof_binder_transaction_data))
    end
  else if cmd =? BC_REGISTER_LOOPER then _ <~ does (write_register_looper p th); goes ptr
  else if cmd =? BC_ENTER_LOOPER then _ <~ does (write_enter_looper th); goes ptr
  else if cmd =? BC_EXIT_LOOPER then _ <~ does (write_exit_looper th); goes ptr
  else if (cmd =? BC_REQUEST_DEATH_NOTIFICATION) || (cmd =? BC_CLEAR_DEATH_NOTIFICATION) then
    target <~ fetch u ptr 4;
    cookie <~ fetch u (step ptr 4) 8;
    _ <~ does (if cmd =? BC_REQUEST_DEATH_NOTIFICATION then write_request_death p th target cookie
               else write_clear_death p th target cookie);
    goes (step ptr 12)
  else if cmd =? BC_DEAD_BINDER_DONE then
    cookie <~ fetch u ptr 8;
    _ <~ does (write_dead_binder_done p th cookie);
    goes (step ptr 8)
  else exits (- EINVAL).

(** The result and [*consumed]. *)
Fixpoint write_loop (fuel : nat) (u : M) (cur : task) p th (buffer ptr end_ consumed : Z) : K (Z * Z) :=
  match fuel with
  | O => klift (Fault HANG)
  | S fuel =>
      thread ← get_thread th;
      if negb ((ptr <? end_) && (th_return_error thread =? BR_OK)) then mret (0, consumed) else
      match get_user u ptr 4 with
      | None => mret (- EFAULT, consumed)
      | Some cmd =>
          _ ← binder_stat_bc p th cmd;
          x ← write_command u cur p th cmd (step ptr 4);
          match x with
          | inl ret => mret (ret, consumed)
          | inr ptr => write_loop fuel u cur p th buffer ptr end_ (u64 (ptr - buffer))
          end
      end
  end.

(** Each command takes four bytes at least. *)
Definition binder_thread_write (u : M) (cur : task) p th (buffer size consumed : Z) : K (Z * Z) :=
  let ptr := u64 (buffer + consumed) in
  let end_ := u64 (buffer + size) in
  write_loop (S (Z.to_nat ((end_ - ptr + 3) / 4))) u cur p th buffer ptr end_ consumed.
End Write.
