(* ===== verification/Read.v ===== *)
(** * [binder_thread_read] (driver/binder/binder.c)

    The function gives up the lock while it waits for work, so it is split there:
    [binder_thread_read] runs to the first wait or to its end, and
    [binder_thread_resume] goes on with what [wait_event] returned.  A retry waits
    again.  Between the two any other operation may run. *)
From S2P Require Import Prelude UserMem RbTree Alloc Protocol Kernel Refs Transact Send Write.

Implicit Types (p n r d t th b : Z).

(** Running in the driver state and the memory of the calling process, with the
    early [return]s of an error number. *)
Definition R (M A : Type) : Type := kstate -> M -> res ((Z + A) * kstate * M).
#[export] Instance R_ret {M} : MRet (R M) := fun A a s m => Ok (inr a, s, m).
#[export] Instance R_bind {M} : MBind (R M) := fun A B f x s m =>
  match x s m with
  | Ok (inr a, s, m) => f a s m
  | Ok (inl e, s, m) => Ok (inl e, s, m)
  | Fault e => Fault e
  end.
Definition in_driver {M A} (x : K A) : R M A := fun s m =>
  match x s with Ok (a, s) => Ok (inr a, s, m) | Fault e => Fault e end.
Definition return_early {M A} (ret : Z) : R M A := fun s m => Ok (inl ret, s, m).

Section Read.
Context {M : Type} `{uops : UserOps M}.
Context `{env : KernelEnv} `{rb : RbOps} `{jk : Junk}.

(** [put_user] and [copy_to_user] or [return -EFAULT]; the address behind. *)
Definition put_bytes (ptr : Z) (l : list Z) : R M Z := fun s m =>
  let '(ok, m) := copy_to_user m ptr l in
  Ok (if (ok : bool) then inr (u64 (ptr + Z.of_nat (length l))) else inl (- EFAULT), s, m).
Definition put_word (ptr : Z) (width : nat) (x : Z) : R M Z := put_bytes ptr (le_bytes width x).

Definition binder_stat_br p th (cmd : Z) : K unit :=
  when (IOC_NR cmd <? BR_COUNT)
    (_ ← bump (CBr Global (IOC_NR cmd)); _ ← bump (CBr (OfProc p) (IOC_NR cmd)); bump (CBr (OfThread th) (IOC_NR cmd))).

Definition binder_has_proc_work p th : K bool :=
  empty ← list_empty (TodoProc p);
  thread ← get_thread th;
  mret (negb empty || has_bits (th_looper thread) BINDER_LOOPER_STATE_NEED_RETURN).

Definition binder_has_thread_work th : K bool :=
  empty ← list_empty (TodoThread th);
  thread ← get_thread th;
  mret (negb empty || negb (th_return_error thread =? BR_OK) ||
        has_bits (th_looper thread) BINDER_LOOPER_STATE_NEED_RETURN).

(** ** One entry of the work list *)

(** What a node's state calls for, and the node afterwards; None when its user
    knows of all. *)
Definition node_command (node : binder_node) : option (Z * binder_node) :=
  let strong := negb (n_internal_strong_refs node =? 0) || negb (n_local_strong_refs node =? 0) in
  let weak := negb (bool_decide (n_refs node = [])) || negb (n_local_weak_refs node =? 0) || strong in
  if weak && negb (n_has_weak_ref node) then
    Some (BR_INCREFS, set_n_local_weak_refs (set_n_pending_weak_ref (set_n_has_weak_ref node true) true)
                        (incr (n_local_weak_refs node)))
  else if strong && negb (n_has_strong_ref node) then
    Some (BR_ACQUIRE, set_n_local_strong_refs (set_n_pending_strong_ref (set_n_has_strong_ref node true) true)
                        (incr (n_local_strong_refs node)))
  else if negb strong && n_has_strong_ref node then Some (BR_RELEASE, set_n_has_strong_ref node false)
  else if negb weak && n_has_weak_ref node then Some (BR_DECREFS, set_n_has_weak_ref node false)
  else None.

Definition node_unused (node : binder_node) : bool :=
  (n_internal_strong_refs node =? 0) && (n_local_strong_refs node =? 0) &&
  bool_decide (n_refs node = []) && (n_local_weak_refs node =? 0).

(** [BINDER_WORK_NODE]; the address behind what was written. *)
Definition read_node p th n (ptr : Z) : R M Z :=
  node ← in_driver (get_node n);
  match node_command node with
  | Some (cmd, node) =>
      _ ← in_driver (put_node n node);
      ptr ← put_word ptr 4 cmd;
      ptr ← put_word ptr 8 (n_ptr node);
      ptr ← put_word ptr 8 (n_cookie node);
      _ ← in_driver (binder_stat_br p th cmd);
      mret ptr
  | None =>
      _ ← in_driver (list_del_work (WNode n));
      _ ← in_driver (when (node_unused node)
            (_ ← mod_proc p (fun proc => set_p_nodes proc (delete (n_ptr node) (p_nodes proc)));
             _ ← free_node n;
             binder_stats_deleted BINDER_STAT_NODE));
      mret ptr
  end.

(** [BINDER_WORK_TRANSACTION_COMPLETE] *)
Definition read_complete p th c (ptr : Z) : R M Z :=
  ptr ← put_word ptr 4 BR_TRANSACTION_COMPLETE;
  _ ← in_driver (binder_stat_br p th BR_TRANSACTION_COMPLETE);
  _ ← in_driver (list_del_work (WComplete c));
  _ ← in_driver (binder_stats_deleted BINDER_STAT_TRANSACTION_COMPLETE);
  mret ptr.

(** The death notifications; whether [BR_DEAD_BINDER] was written. *)
Definition read_death p th d (ptr : Z) : R M (bool * Z) :=
  death ← in_driver (get_death d);
  let clear := bool_decide (d_type death = CLEAR_DEATH_NOTIFICATION) in
  let cmd := if clear then BR_CLEAR_DEATH_NOTIFICATION_DONE else BR_DEAD_BINDER in
  ptr ← put_word ptr 4 cmd;
  ptr ← put_word ptr 8 (d_cookie death);
  _ ← in_driver (binder_stat_br p th cmd);
  _ ← in_driver (list_del_work (WDeath d));
  _ ← in_driver (if clear then _ ← free_death d; binder_stats_deleted BINDER_STAT_DEATH
                 else list_add_head (WDeath d) (Delivered p));
  mret (negb clear, ptr).

(** The scheduling of a thread that takes a transaction to a node. *)
Definition take_priority (cur : task) t (node : binder_node) : K unit :=
  nice ← task_nice (tk_pid cur);
  _ ← mod_txn t (fun tr => set_t_saved_priority tr nice);
  tr ← get_txn t;
  if (t_priority tr <? n_min_priority node) && negb (one_way (t_flags tr)) then binder_set_nice cur (t_priority tr)
  else when (negb (one_way (t_flags tr)) || (n_min_priority node <? t_saved_priority tr))
    (binder_set_nice cur (n_min_priority node)).

(** [BINDER_WORK_TRANSACTION]: the transaction or reply is delivered. *)
Definition read_transaction (cur : task) p th t (ptr : Z) : R M Z :=
  tr ← in_driver (get_txn t);
  pb ← in_driver (match t_buffer tr with Some pb => mret pb | None => klift (Fault BUG) end);
  v ← in_driver (get_buf pb);
  '(cmd, tgt, cookie) ← in_driver (match b_target_node v with
    | Some n => node ← get_node n; _ ← take_priority cur t node; mret (BR_TRANSACTION, n_ptr node, n_cookie node)
    | None => mret (BR_REPLY, 0, 0)
    end);
  sender ← in_driver (match t_from tr with
    | Some f => thread ← get_thread f; proc ← get_proc (th_proc thread); mret (task_tgid_nr (p_tsk proc))
    | None => mret 0
    end);
  proc ← in_driver (get_proc p);
  let buffer := u64 (data pb.2 + user_buffer_offset (p_alloc proc)) in
  let out := MkTxn tgt cookie (t_code tr) (t_flags tr) sender (from_kuid (t_sender_euid tr))
    (b_data_size v) (b_offsets_size v) buffer (u64 (buffer + align_ptr (b_data_size v))) in
  ptr ← put_word ptr 4 cmd;
  ptr ← put_bytes ptr (txn_bytes out);
  _ ← in_driver (binder_stat_br p th cmd);
  _ ← in_driver (list_del_work (WTransaction t));
  _ ← in_driver (mod_buf pb (with_allow_user_free true));
  _ ← in_driver (if (cmd =? BR_TRANSACTION) && negb (one_way (t_flags tr)) then
      thread ← get_thread th;
      _ ← mod_txn t (fun tr => set_t_to_thread (set_t_to_parent tr (th_transaction_stack thread)) (Some th));
      put_thread th (set_th_transaction_stack thread (Some t))
    else
      _ ← mod_buf pb (with_transaction None);
      _ ← free_txn t;
      binder_stats_deleted BINDER_STAT_TRANSACTION);
  mret ptr.

(** ** The loop over the work *)
Inductive loop_end : Type :=
| LDone (ptr : Z)
| LRetry (ptr : Z).

(** [sizeof(tr) + 4] *)
Definition READ_ROOM : Z := Z.of_nat sizeof_binder_transaction_data + 4.

Definition next_work p th (wait_for_proc_work : bool) : K (option work) :=
  o ← list_head (TodoThread th);
  match o with
  | Some w => mret (Some w)
  | None => if wait_for_proc_work then list_head (TodoProc p) else mret None
  end.

Fixpoint read_loop (fuel : nat) (cur : task) p th (wait_for_proc_work : bool) (buffer ptr end_ : Z) : R M loop_end :=
  match fuel with
  | O => in_driver (klift (Fault HANG))
  | S fuel =>
      o ← in_driver (next_work p th wait_for_proc_work);
      match o with
      | None =>
          thread ← in_driver (get_thread th);
          mret (if (u64 (ptr - buffer) =? 4) && negb (has_bits (th_looper thread) BINDER_LOOPER_STATE_NEED_RETURN)
                then LRetry ptr else LDone ptr)
      | Some w =>
          if u64 (end_ - ptr) <? READ_ROOM then mret (LDone ptr) else
          match w with
          | WTransaction t => ptr ← read_transaction cur p th t ptr; mret (LDone ptr)
          | WComplete c => ptr ← read_complete p th c ptr; read_loop fuel cur p th wait_for_proc_work buffer ptr end_
          | WNode n => ptr ← read_node p th n ptr; read_loop fuel cur p th wait_for_proc_work buffer ptr end_
          | WDeath d =>
              '(dead, ptr) ← read_death p th d ptr;
              if (dead : bool) then mret (LDone ptr)
              else read_loop fuel cur p th wait_for_proc_work buffer ptr end_
          end
      end
  end.

(** ** The function *)

(** It returns (0 or an error, with [*consumed]) or waits. *)
Inductive read_state : Type :=
| Returned (ret consumed : Z)
| Waiting (wait_for_proc_work : bool) (ptr : Z).

(** Early returns as a result. *)
Definition catching {A} (x : R M A) (f : Z -> A) : R M A := fun s m =>
  match x s m with
  | Ok (inl e, s, m) => Ok (inr (f e), s, m)
  | y => y
  end.

(** The code behind [done:], which asks for a new looper thread. *)
Definition read_done p th (buffer ptr : Z) : R M read_state :=
  let consumed := u64 (ptr - buffer) in
  proc ← in_driver (get_proc p);
  thread ← in_driver (get_thread th);
  if (s32 (p_requested_threads proc + p_ready_threads proc) =? 0) &&
     (p_requested_threads_started proc <? p_max_threads proc) && is_looper thread
  then
    _ ← in_driver (put_proc p (set_p_requested_threads proc (incr (p_requested_threads proc))));
    catching (_ ← put_word buffer 4 BR_SPAWN_LOOPER;
              _ ← in_driver (binder_stat_br p th BR_SPAWN_LOOPER);
              mret (Returned 0 consumed))
      (fun e => Returned e consumed)
  else mret (Returned 0 consumed).

(** The errors of the last write, delivered first. *)
Definition read_errors p th (buffer ptr end_ : Z) : R M read_state :=
  thread ← in_driver (get_thread th);
  if negb (th_return_error2 thread =? BR_OK) then
    ptr ← put_word ptr 4 (th_return_error2 thread);
    _ ← in_driver (binder_stat_br p th (th_return_error2 thread));
    if ptr =? end_ then read_done p th buffer ptr else
    _ ← in_driver (put_thread th (set_th_return_error2 thread BR_OK));
    ptr ← put_word ptr 4 (th_return_error thread);
    _ ← in_driver (binder_stat_br p th (th_return_error thread));
    _ ← in_driver (mod_thread th (fun thread => set_th_return_error thread BR_OK));
    read_done p th buffer ptr
  else
    ptr ← put_word ptr 4 (th_return_error thread);
    _ ← in_driver (binder_stat_br p th (th_return_error thread));
    _ ← in_driver (mod_thread th (fun thread => set_th_return_error thread BR_OK));
    read_done p th buffer ptr.

(** From [retry:] to the wait.  The nice value is set and the warning for a thread
    that is no looper is given after the lock is dropped. *)
Definition read_retry (cur : task) p th (buffer ptr end_ : Z) : R M read_state :=
  thread ← in_driver (get_thread th);
  empty ← in_driver (list_empty (TodoThread th));
  let wait_for_proc_work := bool_decide (th_transaction_stack thread = None) && (empty : bool) in
  if negb (th_return_error thread =? BR_OK) && (ptr <? end_) then read_errors p th buffer ptr end_ else
  _ ← in_driver (put_thread th (looper_or BINDER_LOOPER_STATE_WAITING thread));
  _ ← in_driver (when wait_for_proc_work
        (_ ← mod_proc p (fun proc => set_p_ready_threads proc (incr (p_ready_threads proc)));
         proc ← get_proc p; binder_set_nice cur (p_default_priority proc)));
  mret (Waiting wait_for_proc_work ptr).

Definition binder_thread_read (cur : task) p th (buffer size consumed : Z) : R M read_state :=
  let ptr := u64 (buffer + consumed) in
  let end_ := u64 (buffer + size) in
  ptr ← (if consumed =? 0 then put_word ptr 4 BR_NOOP else mret ptr);
  read_retry cur p th buffer ptr end_.

(** The condition of [wait_event]. *)
Definition wait_condition p th (wait_for_proc_work : bool) : K bool :=
  if wait_for_proc_work then binder_has_proc_work p th else binder_has_thread_work th.

(** An entry takes five rounds at most: a node is told of one command after the
    other and then taken off the list, everything else goes at once. *)
Definition read_fuel p th (s : kstate) : nat :=
  S (5 * (length (list_of (TodoThread th) s) + length (list_of (TodoProc p) s))).

(** With the lock again; [ret] is the result of the wait: 0, [-EAGAIN] or the
    number of an interruption.  An error before [done:] leaves [*consumed] as it was. *)
Definition binder_thread_resume (cur : task) p th (buffer size consumed : Z) (wait_for_proc_work : bool) (ptr ret : Z)
    : R M read_state :=
  let end_ := u64 (buffer + size) in
  _ ← in_driver (when wait_for_proc_work
        (mod_proc p (fun proc => set_p_ready_threads proc (decr (p_ready_threads proc)))));
  _ ← in_driver (mod_thread th (looper_clear BINDER_LOOPER_STATE_WAITING));
  if negb (ret =? 0) then mret (Returned ret consumed) else
  fuel ← in_driver (get (read_fuel p th));
  e ← read_loop fuel cur p th wait_for_proc_work buffer ptr end_;
  match e with
  | LDone ptr => read_done p th buffer ptr
  | LRetry ptr => read_retry cur p th buffer ptr end_
  end.
End Read.
