(* ===== verification/Driver.v ===== *)
(** * Files, threads and processes of the driver (driver/binder/binder.c)

    [binder_release_work] .. [binder_free_thread], the file operations ([poll],
    [ioctl], [mmap], [open], [flush], [release]) and the work that is deferred to
    the workqueue. *)
From S2P Require Import Prelude UserMem RbTree Alloc Protocol Kernel Refs Transact Send Write Read.

Implicit Types (p n r d t th b : Z).

Section Driver.
Context {M : Type} `{uops : UserOps M}.
Context `{env : KernelEnv} `{rb : RbOps} `{jk : Junk}.

(** ** Work that nobody will read *)
Definition release_one (w : work) : K unit :=
  match w with
  | WTransaction t =>
      tr ← get_txn t;
      pb ← klift (deref (t_buffer tr));
      v ← get_buf pb;
      if bool_decide (is_Some (b_target_node v)) && negb (one_way (t_flags tr)) then
        binder_send_failed_reply t BR_DEAD_REPLY
      else
        _ ← mod_buf pb (with_transaction None);
        _ ← free_txn t;
        binder_stats_deleted BINDER_STAT_TRANSACTION
  | WComplete _ => binder_stats_deleted BINDER_STAT_TRANSACTION_COMPLETE
  | WDeath d =>
      death ← get_death d;
      if decide (d_type death = DEAD_BINDER) then mret tt
      else _ ← free_death d; binder_stats_deleted BINDER_STAT_DEATH
  | WNode _ => mret tt
  end.

(** Each round takes an entry off the list. *)
Fixpoint release_work_loop (fuel : nat) (h : lhead) : K unit :=
  o ← list_head h;
  match o, fuel with
  | None, _ => mret tt
  | Some _, O => klift (Fault HANG)
  | Some w, S fuel =>
      _ ← list_del_work w;
      _ ← release_one w;
      release_work_loop fuel h
  end.
Definition binder_release_work (h : lhead) : K unit :=
  count ← get (fun s => length (list_of h s)); release_work_loop count h.

(** ** Threads *)

(** The thread of the calling task, made when it first calls. *)
Definition binder_get_thread (cur : task) p : K (option Z) :=
  proc ← get_proc p;
  match p_threads proc !! tk_pid cur with
  | Some th => mret (Some th)
  | None =>
      o ← kzalloc;
      match o with
      | None => mret None
      | Some th =>
          _ ← binder_stats_created BINDER_STAT_THREAD;
          _ ← mod_proc p (fun proc => set_p_threads proc (<[tk_pid cur := th]> (p_threads proc)));
          _ ← put_thread th (MkThread p (tk_pid cur) BINDER_LOOPER_STATE_NEED_RETURN None BR_OK BR_OK);
          mret (Some th)
      end
  end.

(** The transactions on the stack of a thread that goes away: it leaves those it
    was to answer (their buffer stays with its process) and those it sent.  Each is
    met twice at most, once in either role. *)
Fixpoint unlink_stack (fuel : nat) th (t : option Z) (active : Z) : K Z :=
  match t, fuel with
  | None, _ => mret active
  | Some _, O => klift (Fault HANG)
  | Some t, S fuel =>
      tr ← get_txn t;
      if is_some_eq (t_to_thread tr) th then
        _ ← put_txn t (set_t_buffer (set_t_to_thread (set_t_to_proc tr None) None) None);
        _ ← (match t_buffer tr with Some pb => mod_buf pb (with_transaction None) | None => mret tt end);
        unlink_stack fuel th (t_to_parent tr) (active + 1)
      else if is_some_eq (t_from tr) th then
        _ ← put_txn t (set_t_from tr None);
        unlink_stack fuel th (t_from_parent tr) (active + 1)
      else klift (Fault BUG)
  end.

Definition binder_free_thread p th : K Z :=
  thread ← get_thread th;
  _ ← mod_proc p (fun proc => set_p_threads proc (delete (th_pid thread) (p_threads proc)));
  send_reply ← (match th_transaction_stack thread with
    | None => mret None
    | Some t => tr ← get_txn t; mret (if is_some_eq (t_to_thread tr) th then Some t else None)
    end);
  count ← get (fun s => size (txns s));
  active ← unlink_stack (S (2 * count)) th (th_transaction_stack thread) 0;
  _ ← (match send_reply with Some t => binder_send_failed_reply t BR_DEAD_REPLY | None => mret tt end);
  _ ← binder_release_work (TodoThread th);
  _ ← free_thread th;
  _ ← binder_stats_deleted BINDER_STAT_THREAD;
  mret active.

(** [binder_poll]: whether there is work; the thread is not tested for NULL.
    [poll_wait] only registers the caller with a wait queue. *)
Definition binder_poll (cur : task) p : K bool :=
  o ← binder_get_thread cur p;
  th ← klift (deref o);
  thread ← get_thread th;
  empty ← list_empty (TodoThread th);
  let wait_for_proc_work :=
    bool_decide (th_transaction_stack thread = None) && empty && (th_return_error thread =? BR_OK) in
  if wait_for_proc_work then binder_has_proc_work p th else binder_has_thread_work th.

(** ** [ioctl] *)

(** What an [ioctl] does: it returns, or waits in a read. *)
Inductive io_state : Type :=
| IoReturned (ret : Z)
| IoWaiting (bwr : binder_write_read) (wait_for_proc_work : bool) (ptr : Z).

(** The end of a [BINDER_WRITE_READ]: the structure goes back to the user. *)
Definition write_read_out (ubuf : Z) (bwr : binder_write_read) (ret : Z) : R M io_state := fun s m =>
  let '(ok, m) := copy_to_user m ubuf (bwr_bytes bwr) in
  Ok (inr (IoReturned (if (ok : bool) then ret else - EFAULT)), s, m).

Definition with_write_consumed (n : Z) (b : binder_write_read) : binder_write_read :=
  MkBwr (write_size b) n (write_buffer b) (read_size b) (read_consumed b) (read_buffer b).
Definition with_read_consumed (n : Z) (b : binder_write_read) : binder_write_read :=
  MkBwr (write_size b) (write_consumed b) (write_buffer b) (read_size b) n (read_buffer b).

(** The read of a [BINDER_WRITE_READ] has returned or waits. *)
Definition after_read (ubuf : Z) (bwr : binder_write_read) (x : read_state) : R M io_state :=
  match x with
  | Returned ret consumed => write_read_out ubuf (with_read_consumed consumed bwr) ret
  | Waiting wait_for_proc_work ptr => mret (IoWaiting bwr wait_for_proc_work ptr)
  end.

Definition binder_ioctl_write_read (cur : task) p th (cmd ubuf : Z) : R M io_state := fun s m =>
  if negb (cmd / 2 ^ 16 mod 2 ^ 14 =? Z.of_nat sizeof_binder_write_read) then Ok (inr (IoReturned (- EINVAL)), s, m) else
  match copy_from_user m ubuf sizeof_binder_write_read with
  | None => Ok (inr (IoReturned (- EFAULT)), s, m)
  | Some l =>
      let bwr := bwr_of_bytes l in
      ('(ret, consumed) ← (if 0 <? write_size bwr then
           in_driver (binder_thread_write m cur p th (write_buffer bwr) (write_size bwr) (write_consumed bwr))
         else mret (0, write_consumed bwr));
       let bwr := with_write_consumed consumed bwr in
       if ret <? 0 then write_read_out ubuf (with_read_consumed 0 bwr) ret
       else if 0 <? read_size bwr then
         x ← catching (binder_thread_read cur p th (read_buffer bwr) (read_size bwr) (read_consumed bwr))
               (fun e => Returned e (read_consumed bwr));
         after_read ubuf bwr x
       else write_read_out ubuf bwr ret) s m
  end.

(** A waiting [BINDER_WRITE_READ] goes on. *)
Definition write_read_resume (cur : task) p th (ubuf : Z) (bwr : binder_write_read)
    (wait_for_proc_work : bool) (ptr ret : Z) : R M io_state :=
  x ← catching (binder_thread_resume cur p th (read_buffer bwr) (read_size bwr) (read_consumed bwr)
                 wait_for_proc_work ptr ret)
        (fun e => Returned e (read_consumed bwr));
  after_read ubuf bwr x.

Definition INVALID_UID : option Z := None.

Definition binder_ioctl_set_ctx_mgr (cur : task) p : K Z :=
  mgr ← get context_mgr_node;
  match mgr with
  | Some _ => mret (- EBUSY)
  | None =>
      proc ← get_proc p;
      tk ← new_ticket;
      let ret := security_binder_set_context_mgr tk (p_tsk proc) in
      if ret <? 0 then mret ret else
      uid ← get context_mgr_uid;
      if match uid with Some u => negb (u =? tk_euid cur) | None => false end then mret (- EPERM) else
      _ ← modify (fun s => set_context_mgr_uid s (Some (tk_euid cur)));
      o ← binder_new_node p 0 0;
      _ ← modify (fun s => set_context_mgr_node s o);
      match o with
      | None => mret (- ENOMEM)
      | Some n =>
          _ ← mod_node n (fun node =>
            set_n_has_weak_ref (set_n_has_strong_ref
              (set_n_local_strong_refs (set_n_local_weak_refs node (incr (n_local_weak_refs node)))
                 (incr (n_local_strong_refs node))) true) true);
          mret ret
      end
  end.

(** The end of every [ioctl] that got its thread (unless the thread has gone). *)
Definition clear_need_return th : K unit := mod_thread th (looper_clear BINDER_LOOPER_STATE_NEED_RETURN).

Definition ioctl_done th (x : io_state) : R M io_state :=
  match x with
  | IoReturned _ => _ ← in_driver (clear_need_return th); mret x
  | IoWaiting _ _ _ => mret x
  end.

(** What [copy_from_user] leaves in the kernel's bytes: zeros for those that cannot be read. *)
Fixpoint copied (m : M) (ptr : Z) (n : nat) : list Z :=
  match n with
  | O => []
  | S k => match copy_from_user m ptr n with Some l => l | None => copied m ptr k ++ [0] end
  end.

Definition binder_ioctl (cur : task) p (cmd arg : Z) : R M io_state :=
  o ← in_driver (binder_get_thread cur p);
  match o with
  | None => mret (IoReturned (- ENOMEM))
  | Some th =>
      if cmd =? BINDER_WRITE_READ then
        x ← binder_ioctl_write_read cur p th cmd arg; ioctl_done th x
      else if cmd =? BINDER_SET_MAX_THREADS then
        ret ← (fun s m => in_driver (
          _ ← mod_proc p (fun proc => set_p_max_threads proc (s32 (le_val (copied m arg 4))));
          mret (match copy_from_user m arg 4 with None => - EINVAL | Some _ => 0 end)) s m);
        ioctl_done th (IoReturned ret)
      else if cmd =? BINDER_SET_CONTEXT_MGR then
        ret ← in_driver (binder_ioctl_set_ctx_mgr cur p); ioctl_done th (IoReturned ret)
      else if cmd =? BINDER_THREAD_EXIT then
        _ ← in_driver (binder_free_thread p th); mret (IoReturned 0)
      else if cmd =? BINDER_VERSION then
        ret ← (fun s m => let '(ok, m) := put_user m arg 4 BINDER_CURRENT_PROTOCOL_VERSION in
                          Ok (inr (if (ok : bool) then 0 else - EINVAL), s, m));
        ioctl_done th (IoReturned ret)
      else ioctl_done th (IoReturned (- EINVAL))
  end.

(** The wait of the [ioctl] is over. *)
Definition binder_ioctl_resume (cur : task) p th (arg : Z) (bwr : binder_write_read)
    (wait_for_proc_work : bool) (ptr ret : Z) : R M io_state :=
  x ← write_read_resume cur p th arg bwr wait_for_proc_work ptr ret; ioctl_done th x.

(** ** Deferred work *)
Definition BINDER_DEFERRED_PUT_FILES : Z := 1.
Definition BINDER_DEFERRED_FLUSH : Z := 2.
Definition BINDER_DEFERRED_RELEASE : Z := 4.

Definition binder_defer_work p (defer : Z) : K unit :=
  _ ← mod_proc p (fun proc => set_p_deferred_work proc (Z.lor (p_deferred_work proc) defer));
  modify (fun s => if bool_decide (p ∈ deferred_list s) then s else set_deferred_list s (p :: deferred_list s)).

(** ** [mmap], [open], [flush], [release] *)
Definition SZ_4M : Z := 4194304.
Definition VM_WRITE : Z := 2.
Definition FORBIDDEN_MMAP_FLAGS : Z := VM_WRITE.
Definition VM_MAYWRITE : Z := 32.
Definition VM_DONTCOPY : Z := 131072.

Definition binder_vma_close p : K unit :=
  _ ← mod_proc p (fun proc => set_p_alloc proc (Alloc.set_vma (p_alloc proc) None None));
  binder_defer_work p BINDER_DEFERRED_PUT_FILES.

(** [struct vm_area_struct]: its address and the fields used. *)
Record vm_area := MkVma {
  vma_ptr : Z;
  vm_start : Z;
  vm_end : Z;
  vm_flags : Z;
  vm_mm : Z
}.

(** An area that is not mapped; [offset] as the failed attempt left it. *)
Definition unmapped_area (size offset : Z) : balloc := MkAlloc 0 size offset None None [] ∅ Leaf Leaf 0 [].

(** [vm_area] is the answer of [get_vm_area]: the address of the kernel's area. *)
Definition binder_mmap (cur : task) p (area : Z -> option Z) (v : vm_area) : K (Z * vm_area) :=
  proc ← get_proc p;
  if negb (p_tsk proc =? tk_pid cur) then mret (- EINVAL, v) else
  let v := if SZ_4M <? vm_end v - vm_start v
           then MkVma (vma_ptr v) (vm_start v) (vm_start v + SZ_4M) (vm_flags v) (vm_mm v) else v in
  if has_bits (vm_flags v) FORBIDDEN_MMAP_FLAGS then mret (- EPERM, v) else
  let v := MkVma (vma_ptr v) (vm_start v) (vm_end v)
             (Z.ldiff (Z.lor (vm_flags v) VM_DONTCOPY) VM_MAYWRITE) (vm_mm v) in
  if negb (buffer (p_alloc proc) =? 0) then mret (- EBUSY, v) else
  let size := vm_end v - vm_start v in
  match area size with
  | None => mret (- ENOMEM, v)
  | Some base =>
      let offset := u64 (vm_start v - base) in
      pages ← kzalloc;
      match pages with
      | None =>
          _ ← put_proc p (set_p_alloc proc (unmapped_area (buffer_size (p_alloc proc)) offset));
          mret (- ENOMEM, v)
      | Some _ =>
          tk ← new_ticket;
          o ← klift (mmap_buffers (page_answers tk) base size offset (vma_ptr v) (vm_mm v));
          match o with
          | None => _ ← put_proc p (set_p_alloc proc (unmapped_area size offset)); mret (- ENOMEM, v)
          | Some a => _ ← put_proc p (set_p_files (set_p_alloc proc a) (tk_files cur)); mret (0, v)
          end
      end
  end.

(** The process of a new file, None when memory is short. *)
Definition binder_open (cur : task) : K (Z * option Z) :=
  o ← kzalloc;
  match o with
  | None => mret (- ENOMEM, None)
  | Some p =>
      nice ← task_nice (tk_pid cur);
      _ ← binder_stats_created BINDER_STAT_PROC;
      _ ← put_proc p (MkProc ∅ ∅ ∅ ∅ (tk_tgid cur) (tk_pid cur) None 0 (unmapped_area 0 0) 0 0 0 0 nice);
      _ ← modify (fun s => set_proc_list s (p :: proc_list s));
      mret (0, Some p)
  end.

Definition binder_flush p : K Z := _ ← binder_defer_work p BINDER_DEFERRED_FLUSH; mret 0.
Definition binder_release p : K Z := _ ← binder_defer_work p BINDER_DEFERRED_RELEASE; mret 0.

(** ** The workqueue *)

(** Every thread of the process returns to user space. *)
Fixpoint need_return (ths : list Z) : K unit :=
  match ths with
  | [] => mret tt
  | th :: ths => _ ← mod_thread th (looper_or BINDER_LOOPER_STATE_NEED_RETURN); need_return ths
  end.
(** The entries of a tree in the order of its keys. *)
Definition in_order (m : gmap Z Z) : list Z := omap (fun k => m !! k) (keys m).
Definition binder_deferred_flush p : K unit := proc ← get_proc p; need_return (in_order (p_threads proc)).

(** The references to a node that dies, each told once. *)
Fixpoint tell_refs (rs : list Z) (count : Z) : K Z :=
  match rs with
  | [] => mret count
  | r :: rs =>
      ref ← get_ref r;
      _ ← (match r_death ref with
           | None => mret tt
           | Some d =>
               on ← get (linked (WDeath d));
               _ ← BUG_ON on;
               _ ← mod_death d (fun death => set_d_type death DEAD_BINDER);
               list_add_tail (WDeath d) (TodoProc (r_proc ref))
           end);
      tell_refs rs (count + 1)
  end.

Definition binder_node_release n (count : Z) : K Z :=
  _ ← list_del_work (WNode n);
  _ ← binder_release_work (AsyncTodo n);
  node ← get_node n;
  if bool_decide (n_refs node = []) then
    _ ← free_node n; _ ← binder_stats_deleted BINDER_STAT_NODE; mret count
  else
    _ ← put_node n (set_n_local_weak_refs (set_n_local_strong_refs (set_n_proc node None) 0) 0);
    _ ← modify (fun s => set_dead_nodes s (n :: dead_nodes s));
    tell_refs (n_refs node) count.

(** [while ((n = rb_first(..)))], for the trees of a process; [pop] takes its
    first entry out. *)
Fixpoint drain_threads (fuel : nat) p : K unit :=
  proc ← get_proc p;
  match in_order (p_threads proc), fuel with
  | [], _ => mret tt
  | _ :: _, O => klift (Fault HANG)
  | th :: _, S fuel => _ ← binder_free_thread p th; drain_threads fuel p
  end.

Fixpoint drain_nodes (fuel : nat) p (incoming_refs : Z) : K Z :=
  proc ← get_proc p;
  match in_order (p_nodes proc), fuel with
  | [], _ => mret incoming_refs
  | _ :: _, O => klift (Fault HANG)
  | n :: _, S fuel =>
      node ← get_node n;
      _ ← put_proc p (set_p_nodes proc (delete (n_ptr node) (p_nodes proc)));
      incoming_refs ← binder_node_release n incoming_refs;
      drain_nodes fuel p incoming_refs
  end.

Fixpoint drain_refs (fuel : nat) p : K unit :=
  proc ← get_proc p;
  match in_order (p_refs_by_desc proc), fuel with
  | [], _ => mret tt
  | _ :: _, O => klift (Fault HANG)
  | r :: _, S fuel => _ ← binder_delete_ref r; drain_refs fuel p
  end.

Fixpoint drain_buffers (fuel : nat) p : K unit :=
  proc ← get_proc p;
  match inorder (allocated_buffers (p_alloc proc)), fuel with
  | [], _ => mret tt
  | _ :: _, O => klift (Fault HANG)
  | b :: _, S fuel =>
      v ← get_buf (p, b);
      _ ← (match b_transaction v with
           | None => mret tt
           | Some t => _ ← mod_txn t (fun tr => set_t_buffer tr None); put_buf (p, b) (with_transaction None v)
           end);
      _ ← free_buf (p, b);
      drain_buffers fuel p
  end.

(** The whole process goes away; its pages and its area go with it. *)
Definition binder_deferred_release p : K unit :=
  proc ← get_proc p;
  _ ← BUG_ON (bool_decide (is_Some (vma (p_alloc proc))));
  _ ← BUG_ON (bool_decide (is_Some (p_files proc)));
  _ ← modify (fun s => set_proc_list s (list_del p (proc_list s)));
  mgr ← get context_mgr_node;
  _ ← (match mgr with
       | None => mret tt
       | Some n => node ← get_node n;
           when (is_some_eq (n_proc node) p) (modify (fun s => set_context_mgr_node s None))
       end);
  _ ← drain_threads (size (p_threads proc)) p;
  proc ← get_proc p;
  _ ← drain_nodes (size (p_nodes proc)) p 0;
  proc ← get_proc p;
  _ ← drain_refs (size (p_refs_by_desc proc)) p;
  _ ← binder_release_work (TodoProc p);
  _ ← binder_release_work (Delivered p);
  proc ← get_proc p;
  _ ← drain_buffers (length (inorder (allocated_buffers (p_alloc proc)))) p;
  _ ← binder_stats_deleted BINDER_STAT_PROC;
  free_proc p.

(** One round of [binder_deferred_func]: whether there was a process. *)
Definition deferred_round : K bool :=
  l ← get deferred_list;
  match l with
  | [] => mret false
  | p :: l =>
      _ ← modify (fun s => set_deferred_list s l);
      proc ← get_proc p;
      let defer := p_deferred_work proc in
      _ ← put_proc p (set_p_files (set_p_deferred_work proc 0)
            (if has_bits defer BINDER_DEFERRED_PUT_FILES then None else p_files proc));
      _ ← when (has_bits defer BINDER_DEFERRED_FLUSH) (binder_deferred_flush p);
      _ ← when (has_bits defer BINDER_DEFERRED_RELEASE) (binder_deferred_release p);
      mret true
  end.

(** The rounds until the list is empty; no round adds to it. *)
Fixpoint deferred_rounds (fuel : nat) : K unit :=
  match fuel with
  | O => klift (Fault HANG)
  | S fuel => more ← deferred_round; if (more : bool) then deferred_rounds fuel else mret tt
  end.
Definition binder_deferred_func : K unit :=
  count ← get (fun s => length (deferred_list s)); deferred_rounds (S count).
End Driver.

(** The driver as it is loaded. *)
Definition empty_log : transaction_log := MkLog 0 false (replicate 32 log_zero).
Definition initial_state : kstate :=
  MkK ∅ ∅ ∅ ∅ ∅ ∅ ∅ ∅ None None 0 0 [] [] [] ∅ ∅ (fun _ => 0) empty_log empty_log.
