(* ===== verification/Scenario.v ===== *)
(** * A server and a client

    A concrete run of the driver: two processes open and map the device, the first
    becomes the context manager, the second calls it.  The states of the run are where
    the theorems of the other files are evaluated. *)
From S2P Require Import Prelude UserMem RbTree Alloc Protocol Kernel Refs Transact Send Write Read Driver.

Section Scenario.
#[local] Existing Instance flat_user.
#[local] Existing Instance plain_ops.

(** A kernel that grants everything. *)
Definition kind_env : KernelEnv := {|
  kzalloc_ok := fun _ => true;
  page_answers := fun _ => Build_page_env (Some 7) (fun _ => true) (fun _ => 1) (fun _ => 0);
  security_binder_set_context_mgr := fun _ _ => 0;
  security_binder_transaction := fun _ _ _ => 0;
  security_binder_transfer_binder := fun _ _ _ => 0;
  security_binder_transfer_file := fun _ _ _ _ => 0;
  lock_task_sighand := fun _ _ => true;
  alloc_fd := fun _ _ => 5;
  can_nice := fun _ _ _ => true;
  rlimit_nice := fun _ _ => 0;
  task_euid := fun _ => 1000;
  task_tgid_nr := fun x => x;
  from_kuid := fun x => x
|}.
Definition no_junk : Junk := fun _ => MkBuffer false false false 0 None None 0 0.
#[local] Existing Instance kind_env.
#[local] Existing Instance no_junk.

Definition server : task := MkTask 100 100 (Some 1) 1000.
Definition client : task := MkTask 200 200 (Some 2) 2000.

(** The run up to the first call: addresses of the two processes and threads. *)
Definition boot : K (Z * Z * Z * Z) :=
  '(_, o) ← binder_open server; sp ← klift (deref o);
  '(_, o) ← binder_open client; cp ← klift (deref o);
  _ ← binder_mmap server sp (fun _ => Some 65536) (MkVma 1 (65536 + 1000 * 4096) (65536 + 1004 * 4096) 0 7);
  _ ← binder_mmap client cp (fun _ => Some 1048576) (MkVma 2 (1048576 + 1000 * 4096) (1048576 + 1004 * 4096) 0 8);
  o ← binder_get_thread server sp; st ← klift (deref o);
  o ← binder_get_thread client cp; ct ← klift (deref o);
  _ ← binder_ioctl_set_ctx_mgr server sp;
  _ ← clear_need_return st; _ ← clear_need_return ct;
  mret (sp, cp, st, ct).

(** The state after a run that succeeds. *)
Definition final {A} (m : K A) (s : kstate) : kstate := match m s with Ok (_, s') => s' | Fault _ => s end.
Definition succeeds {A} (m : res A) : bool := match m with Ok _ => true | Fault _ => false end.
Lemma final_ok (m : K unit) s : succeeds (m s) = true -> m s = Ok (tt, final m s).
Proof. unfold final. by destruct (m s) as [[[] s']|]. Qed.

Definition booted : kstate := final boot initial_state.
Definition sp : Z := 1.
Definition cp : Z := 2.
Definition st : Z := 7.
Definition ct : Z := 8.
Example boot_ok : fst <$> boot initial_state = Ok (sp, cp, st, ct) /\ is_Some (context_mgr_node booted).
Proof. split; vm_compute; [reflexivity|by eexists]. Qed.

(** ** A call with an object *)

(** Bytes in a memory. *)
Definition mem_at (p : Z) (l : list Z) : gmap Z Z := list_to_map (zip (seqZ p (Z.of_nat (length l))) l).

(** The client passes a binder of its own, at 1000, with its offset at 2000. *)
Definition call_object : flat_binder_object := MkObj BINDER_TYPE_BINDER 0 777 778.
Definition call_data : binder_transaction_data := MkTxn 0 0 5 TF_ACCEPT_FDS 0 0 24 8 1000 2000.
Definition client_mem : gmap Z Z :=
  mem_at 1000 (obj_bytes call_object) ∪ mem_at 2000 (le_bytes 8 0) ∪
  mem_at 3000 (le_bytes 4 BC_TRANSACTION ++ txn_bytes call_data) ∪ mem_at 4000 (replicate 256 0).

Definition do_call : K unit := binder_transaction client_mem client cp ct call_data false.
Definition called : kstate := final do_call booted.
Example call_ok : succeeds (do_call booted) = true.
Proof. vm_compute. reflexivity. Qed.
Lemma call_done : binder_transaction client_mem client cp ct call_data false booted = Ok (tt, called).
Proof. vm_compute. reflexivity. Qed.

(** ** The server gets the call *)

(** A run with memory: the outcome, the state and the memory. *)
Definition read_with (r : R (gmap Z Z) read_state) (s : kstate) (m : gmap Z Z) : option (read_state * kstate * gmap Z Z) :=
  match r s m with Ok (inr x, s, m) => Some (x, s, m) | _ => None end.

(** The server waits for work of its process before the client calls, and goes on
    after. *)
Definition server_mem : gmap Z Z := mem_at 5000 (replicate 256 0).
Definition served : option (read_state * kstate * gmap Z Z) :=
  '(x, s, m) ← read_with (binder_thread_read server sp st 5000 256 0) booted server_mem;
  match x with
  | Waiting true ptr =>
      match binder_transaction client_mem client cp ct call_data false s with
      | Ok (_, s) => read_with (binder_thread_resume server sp st 5000 256 0 true ptr 0) s m
      | Fault _ => None
      end
  | _ => None
  end.
Definition served_state : kstate := match served with Some (_, s, _) => s | None => booted end.
Definition served_mem : gmap Z Z := match served with Some (_, _, m) => m | None => ∅ end.

(** It reads 72 bytes: [BR_NOOP], and [BR_TRANSACTION] with the code and the data
    of the client, its pid and uid, at the server's view of the buffer. *)
Definition user_buf : Z := 65536 + 1000 * 4096 + sizeof_binder_buffer.
Example server_reads_call :
  (fst ∘ fst) <$> served = Some (Returned 0 72) /\
  get_user served_mem 5000 4 = Some BR_NOOP /\ get_user served_mem 5004 4 = Some BR_TRANSACTION /\
  txn_of_bytes <$> copy_from_user served_mem 5008 64 =
    Some (MkTxn 0 0 5 TF_ACCEPT_FDS (tk_tgid client) 1000 24 8 user_buf (user_buf + 24)) /\
  (th_transaction_stack <$> threads served_state !! st) = (th_transaction_stack <$> threads served_state !! ct).
Proof. split_and!; vm_compute; reflexivity. Qed.

(** ** The reply *)

(** The server frees the buffer and replies with four bytes at 7000. *)
Definition reply_data : binder_transaction_data := MkTxn 0 0 6 0 0 0 4 0 7000 7000.
Definition reply_mem : gmap Z Z :=
  mem_at 6000 (le_bytes 4 BC_FREE_BUFFER ++ le_bytes 8 user_buf ++ le_bytes 4 BC_REPLY ++ txn_bytes reply_data) ∪
  mem_at 7000 [1; 2; 3; 4].
Definition do_reply : K (Z * Z) := binder_thread_write reply_mem server sp st 6000 80 0.
Definition replied : kstate := final do_reply served_state.

(** The client reads: its call is complete and the answer is there.  Nothing is left
    of the two transactions but the buffer of the reply; the binder the client passed
    was dropped with the buffer of the call, and so its node is gone. *)
Definition client_read : option (read_state * kstate * gmap Z Z) :=
  '(x, s, m) ← read_with (binder_thread_read client cp ct 4000 256 0) replied client_mem;
  match x with
  | Waiting false ptr => read_with (binder_thread_resume client cp ct 4000 256 0 false ptr 0) s m
  | _ => None
  end.
Definition end_state : kstate := match client_read with Some (_, s, _) => s | None => booted end.
Definition end_mem : gmap Z Z := match client_read with Some (_, _, m) => m | None => ∅ end.

Example client_reads_reply :
  fst <$> do_reply served_state = Ok (0, 80) /\
  (fst ∘ fst) <$> client_read = Some (Returned 0 76) /\
  get_user end_mem 4000 4 = Some BR_NOOP /\ get_user end_mem 4004 4 = Some BR_TRANSACTION_COMPLETE /\
  get_user end_mem 4008 4 = Some BR_REPLY /\
  td_code <$> (txn_of_bytes <$> copy_from_user end_mem 4012 64) = Some 6 /\
  (c_data <$> contents end_state !! 1048576) = Some [1; 2; 3; 4] /\
  txns end_state = ∅ /\ (th_transaction_stack <$> threads end_state !! ct) = Some None /\
  nodes end_state !! 15 = None.
Proof. split_and!; vm_compute; reflexivity. Qed.
End Scenario.
