(* ===== verification/BioParse.v ===== *)
(** * What the driver returns, read back

    [binder_parse] (servicemanager/binder.c) works on bytes; here it is compared with
    the same work on the list of returns that the bytes encode. *)
From S2P Require Import Prelude UserMem Protocol Bio BioInv Kernel Read Scenario.

(** ** The returns of the driver *)
Inductive node_return : Set := RIncRefs | RAcquire | RRelease | RDecRefs.
Inductive return_ : Type :=
| RNoop
| RTransactionComplete
| RNode (cmd : node_return) (ptr cookie : Z)
| RTransaction (txn : binder_transaction_data)
| RReply (txn : binder_transaction_data)
| RDeadBinder (cookie : Z)
| RFailedReply
| RDeadReply.
Definition node_code (c : node_return) : Z :=
  match c with RIncRefs => BR_INCREFS | RAcquire => BR_ACQUIRE | RRelease => BR_RELEASE | RDecRefs => BR_DECREFS end.
Definition code (x : return_) : Z :=
  match x with
  | RNoop => BR_NOOP | RTransactionComplete => BR_TRANSACTION_COMPLETE | RNode c _ _ => node_code c
  | RTransaction _ => BR_TRANSACTION | RReply _ => BR_REPLY | RDeadBinder _ => BR_DEAD_BINDER
  | RFailedReply => BR_FAILED_REPLY | RDeadReply => BR_DEAD_REPLY
  end.
Definition arguments (x : return_) : list Z :=
  match x with
  | RNode _ ptr cookie => le_bytes 8 ptr ++ le_bytes 8 cookie
  | RTransaction txn | RReply txn => txn_bytes txn
  | RDeadBinder cookie => le_bytes 8 cookie
  | _ => []
  end.
Definition encode (l : list return_) : list Z := l ≫= fun x => le_bytes 4 (code x) ++ arguments x.
(** The fields fit their widths. *)
Definition fits (x : return_) : Prop :=
  match x with
  | RTransaction txn | RReply txn => Forall2 word txn_widths (txn_fields txn)
  | RDeadBinder cookie => word 8 cookie
  | _ => True
  end.

Section Parse.
Context {S : Type}.
Variable handler : option (memory -> S -> binder_transaction_data -> binder_io -> binder_io -> res (Z * binder_io * memory * S)).
Variable death_func : memory -> S -> Z -> res S.
Variable send : list command -> S -> S.
Variable rdata : Z.

(** The work on the list: each transaction goes to the handler and is answered, each
    death to its function, in order; the last of the replies and failures decides the
    result, and only the first reply is kept. *)
Fixpoint process (l : list return_) (m : memory) (s : S) (bio filled : option binder_io) (r : Z) : res (Z * option binder_io * memory * S) :=
  match l with
  | [] => Ok (r, filled, m, s)
  | RTransaction txn :: l => '(m, s) ← parse_transaction handler send rdata m s txn; process l m s bio filled r
  | RReply txn :: l => process l m s None (match bio with Some _ => Some (bio_init_from_txn txn) | None => filled end) 0
  | RDeadBinder cookie :: l => s ← death_func m s cookie; process l m s bio filled r
  | (RFailedReply | RDeadReply) :: l => process l m s bio filled (-1)
  | (RNoop | RTransactionComplete | RNode _ _ _) :: l => process l m s bio filled r
  end.

(** The handler leaves the read buffer alone. *)
Definition spares (lo hi : Z) : Prop :=
  forall f m s txn msg reply status reply' m' s', handler = Some f -> f m s txn msg reply = Ok (status, reply', m', s') ->
  forall q k, lo <= q -> q + Z.of_nat k <= hi -> flat_read m' q k = flat_read m q k.

Lemma encode_cons x l : encode (x :: l) = le_bytes 4 (code x) ++ arguments x ++ encode l.
Proof. change ((le_bytes 4 (code x) ++ arguments x) ++ encode l = le_bytes 4 (code x) ++ arguments x ++ encode l). by rewrite <- app_assoc. Qed.
Lemma code_word x : word 4 (code x).
Proof. destruct x as [| |[]| | | | |]; by vm_compute. Qed.
Lemma load_here m p l l' : flat_read m p (length (l ++ l')) = Some (l ++ l') -> load m p (length l) = Ok l /\
  flat_read m (p + Z.of_nat (length l)) (length l') = Some l'.
Proof. intros [H1 H2]%flat_read_app_Some. unfold load. by rewrite H1. Qed.
Lemma spared m s txn lo hi m' s' : spares lo hi -> parse_transaction handler send rdata m s txn = Ok (m', s') ->
  forall q k, lo <= q -> q + Z.of_nat k <= hi -> flat_read m' q k = flat_read m q k.
Proof.
  intros Hk. unfold parse_transaction. destruct handler as [f|] eqn:Ef; [|by intros [= <- _]].
  destruct (f m s txn _ _) as [[[[status reply] m1] s1]|] eqn:E; [|done]. intros [= <- _]. by eapply Hk.
Qed.
Lemma txn_back txn : Forall2 word txn_widths (txn_fields txn) -> txn_of_bytes (txn_bytes txn) = txn.
Proof. intros H. rewrite <- (app_nil_r (txn_bytes txn)). by apply txn_roundtrip. Qed.
(** The tests of the [switch] for a return that is known. *)
Ltac dispatch :=
  cbn [mbind res_bind]; repeat match goal with
  | |- context [?a =? ?b] => let v := eval vm_compute in (a =? b) in match v with true => idtac | false => idtac end; change (a =? b) with v; cbn [orb negb]
  end.
Lemma parse_loop_process lo hi l : spares lo hi -> Forall fits l -> hi < 2 ^ 64 -> 0 <= lo -> forall fuel m s bio filled ptr r,
  lo <= ptr -> hi = ptr + Z.of_nat (length (encode l)) -> (length (encode l) < fuel)%nat ->
  flat_read m ptr (length (encode l)) = Some (encode l) ->
  parse_loop handler death_func send rdata fuel m s bio filled ptr hi r = process l m s bio filled r.
Proof.
  intros Hk Hl Hhi Hlo. induction Hl as [|x l Hx Hl IH]; intros fuel m s bio filled ptr r Hp Eh Hf Hm.
  { destruct fuel; [lia|]. cbn [parse_loop process]. destruct (Z.leb_spec hi ptr); [done|]. cbn in Eh. lia. }
  rewrite encode_cons in *. apply load_here in Hm as [Hw Hm]. rewrite length_le_bytes in *. rewrite !length_app, length_le_bytes in *.
  destruct fuel as [|fuel]; [lia|]. cbn [parse_loop]. destruct (Z.leb_spec hi ptr); [lia|]. rewrite <- (length_app (arguments x)) in Hm.
  assert (load_word m ptr 4 = Ok (code x)) as -> by (unfold load_word; rewrite Hw; cbn [mbind res_bind]; by rewrite le_val_bytes by apply code_word).
  apply load_here in Hm as [Ha Hm].
  assert (next : forall m' s' bio' filled' r' ptr', ptr' = ptr + 4 + Z.of_nat (length (arguments x)) ->
    (forall q k, lo <= q -> q + Z.of_nat k <= hi -> flat_read m' q k = flat_read m q k) ->
    parse_loop handler death_func send rdata fuel m' s' bio' filled' ptr' hi r' = process l m' s' bio' filled' r').
  { intros m' s' bio' filled' r' ptr' -> Hq. apply IH; [lia|lia|lia|]. rewrite Hq by lia. exact Hm. }
  clear IH Hw Hm. change (Z.of_nat 4) with 4 in *. assert (He : hi - (ptr + 4) = Z.of_nat (length (arguments x)) + Z.of_nat (length (encode l))) by lia.
  destruct x as [| |[] p ck|txn|txn|ck| |]; cbn [code node_code process] in *; dispatch; try (apply next; [cbn; lia|done]).
  - change (length (arguments (RTransaction txn))) with 64%nat in *. rewrite u64_small by lia. destruct (Z.ltb_spec (hi - (ptr + 4)) 64); [lia|].
    rewrite Ha. cbn [mbind res_bind arguments]. rewrite (txn_back txn Hx).
    destruct (parse_transaction _ _ _ m s txn) as [[m1 s1]|] eqn:Et; [|done]. cbn. apply next; [done|]. by eapply spared.
  - change (length (arguments (RReply txn))) with 64%nat in *. rewrite u64_small by lia. destruct (Z.ltb_spec (hi - (ptr + 4)) 64); [lia|].
    rewrite Ha. cbn [mbind res_bind arguments]. rewrite (txn_back txn Hx). by apply next.
  - unfold load_word. change (load m (ptr + 4) 8 = Ok (le_bytes 8 ck)) in Ha. rewrite Ha. cbn [mbind res_bind]. rewrite le_val_bytes by exact Hx.
    destruct (death_func m s ck) as [s1|]; [|done]. cbn [mbind res_bind]. by apply next.
Qed.

(** C36: [binder_parse] of what the driver returned does what the list of returns
    calls for.  When the read buffer holds the encoding of a list of returns and the
    handler of transactions leaves that buffer alone, parsing it ends, after as many
    rounds as there are returns, and its result, its reply, and the memory and state
    that it leaves are those of processing the list from the front: every transaction
    once, answered before the next, every death once, everything else skipped. *)
Theorem binder_parse_processes l m s bio ptr :
  Forall fits l -> 0 <= ptr -> ptr + Z.of_nat (length (encode l)) < 2 ^ 64 -> spares ptr (ptr + Z.of_nat (length (encode l))) ->
  flat_read m ptr (length (encode l)) = Some (encode l) ->
  binder_parse handler death_func send rdata m s bio ptr (Z.of_nat (length (encode l))) = process l m s bio None 1.
Proof. intros Hl Hp Ht Hs Hm. unfold binder_parse. eapply parse_loop_process; [done..|lia|done]. Qed.
End Parse.

Section Witness.
(** What the driver wrote for the server of the scenario, 72 bytes at 5000, parsed with
    a handler that takes note of the transactions and answers them with status 0. *)
Definition noting (m : memory) (s : list binder_transaction_data * list command) (txn : binder_transaction_data) (msg reply : binder_io)
  : res (Z * binder_io * memory * (list binder_transaction_data * list command)) := Ok (0, reply, m, (txn :: s.1, s.2)).
Definition noting_send (l : list command) (s : list binder_transaction_data * list command) := (s.1, s.2 ++ l).
Definition the_call : binder_transaction_data := MkTxn 0 0 5 TF_ACCEPT_FDS (tk_tgid client) 1000 24 8 user_buf (user_buf + 24).
Lemma driver_output : length (encode [RNoop; RTransaction the_call]) = 72%nat /\
  flat_read served_mem 5000 72 = Some (encode [RNoop; RTransaction the_call]).
Proof. split; vm_compute; reflexivity. Qed.
Lemma the_call_fits : Forall fits [RNoop; RTransaction the_call].
Proof. repeat constructor; done. Qed.
Lemma binder_parse_processes_witness :
  flat_read served_mem 5000 72 = Some (encode [RNoop; RTransaction the_call]) /\
  exists reply, binder_parse (Some noting) (fun _ s _ => Ok s) noting_send 9000 served_mem ([], []) None 5000 72 =
    Ok (1, None, served_mem, ([the_call], reply)).
Proof.
  destruct driver_output as [Hl Hm]. split; [exact Hm|]. eexists.
  pose proof (binder_parse_processes (Some noting) (fun _ s _ => Ok s) noting_send 9000 [RNoop; RTransaction the_call] served_mem ([], []) None 5000) as H.
  rewrite Hl in H. change (Z.of_nat 72) with 72 in H. etransitivity; [apply H|].
  - exact the_call_fits.
  - lia.
  - lia.
  - intros f m s txn msg reply status reply' m' s' [= <-] [= <- <- <- <-]. done.
  - exact Hm.
  - reflexivity.
Defined.
End Witness.
