(* ===== verification/KernelWp.v ===== *)
(** * Reasoning about driver operations

    [wp m Q s]: run in state [s], [m] does not fault and ends in a state and with
    a result that satisfy [Q].  One rule per primitive of [Kernel]; the tactic
    [wp_steps] applies them. *)
From S2P Require Import Prelude UserMem RbTree Alloc Protocol Kernel.

Definition wp {A} (m : K A) (Q : A -> kstate -> Prop) (s : kstate) : Prop :=
  match m s with Ok (a, s') => Q a s' | Fault _ => False end.

Section Rules.
Implicit Types (s : kstate).

Lemma wp_bind {A B} (m : K A) (f : A -> K B) Q s : wp m (fun a s => wp (f a) Q s) s -> wp (m ≫= f) Q s.
Proof. unfold wp, mbind, K_bind. by destruct (m s) as [[a s']|]. Qed.
Lemma wp_bind_inv {A B} (m : K A) (f : A -> K B) Q s : wp (m ≫= f) Q s -> wp m (fun a s => wp (f a) Q s) s.
Proof. unfold wp, mbind, K_bind. by destruct (m s) as [[a s']|]. Qed.
Lemma wp_mono {A} (m : K A) (Q Q' : A -> kstate -> Prop) s : wp m Q s -> (forall a s', Q a s' -> Q' a s') -> wp m Q' s.
Proof. unfold wp. destruct (m s) as [[a s']|]; auto. Qed.
Lemma wp_ret {A} (a : A) (Q : A -> kstate -> Prop) s : Q a s -> wp (mret a) Q s.
Proof. done. Qed.
Lemma wp_get {A} (f : kstate -> A) Q s : Q (f s) s -> wp (get f) Q s.
Proof. done. Qed.
Lemma wp_modify f Q s : Q tt (f s) -> wp (modify f) Q s.
Proof. done. Qed.
Lemma wp_get_obj {A} (m : kstate -> gmap Z A) p a Q s : m s !! p = Some a -> Q a s -> wp (get_obj m p) Q s.
Proof. intros E H. unfold wp, get_obj. by rewrite E. Qed.
Lemma wp_when c m Q s : (c = true -> wp m Q s) -> (c = false -> Q tt s) -> wp (when c m) Q s.
Proof. destruct c; cbn; auto. Qed.
Lemma wp_BUG_ON c (Q : unit -> kstate -> Prop) s : c = false -> Q tt s -> wp (BUG_ON c) Q s.
Proof. intros ->. done. Qed.
Lemma wp_klift {A} (m : res A) a (Q : A -> kstate -> Prop) s : m = Ok a -> Q a s -> wp (klift m) Q s.
Proof. intros ->. done. Qed.
Lemma wp_if {A} (c : bool) (m1 m2 : K A) Q s :
  (c = true -> wp m1 Q s) -> (c = false -> wp m2 Q s) -> wp (if c then m1 else m2) Q s.
Proof. destruct c; auto. Qed.

(** The outcome as an equation. *)
Lemma wp_run {A} (m : K A) Q s : wp m Q s <-> exists a s', m s = Ok (a, s') /\ Q a s'.
Proof.
  unfold wp. destruct (m s) as [[a s']|]; split; eauto; [|done|].
  - by intros (a' & s'' & [= <- <-] & H).
  - by intros (a' & s'' & ? & H).
Qed.
End Rules.

(** Steps that need no thought. *)
Ltac wp_step :=
  lazymatch goal with
  | |- wp (_ ≫= _) _ _ => apply wp_bind
  | |- wp (mret _) _ _ => apply wp_ret
  | |- wp (get _) _ _ => apply wp_get
  | |- wp (modify _) _ _ => apply wp_modify
  | |- wp (get_obj _ _) _ _ => eapply wp_get_obj; [eassumption|]
  | |- wp (get_node _) _ _ => unfold get_node
  | |- wp (get_ref _) _ _ => unfold get_ref
  | |- wp (get_death _) _ _ => unfold get_death
  | |- wp (get_proc _) _ _ => unfold get_proc
  | |- wp (get_thread _) _ _ => unfold get_thread
  | |- wp (get_txn _) _ _ => unfold get_txn
  | |- wp (put_node _ _) _ _ => unfold put_node
  | |- wp (put_ref _ _) _ _ => unfold put_ref
  | |- wp (put_death _ _) _ _ => unfold put_death
  | |- wp (put_proc _ _) _ _ => unfold put_proc
  | |- wp (put_thread _ _) _ _ => unfold put_thread
  | |- wp (put_txn _ _) _ _ => unfold put_txn
  | |- wp (mod_node _ _) _ _ => unfold mod_node
  | |- wp (mod_ref _ _) _ _ => unfold mod_ref
  | |- wp (mod_death _ _) _ _ => unfold mod_death
  | |- wp (mod_proc _ _) _ _ => unfold mod_proc
  | |- wp (mod_thread _ _) _ _ => unfold mod_thread
  | |- wp (mod_txn _ _) _ _ => unfold mod_txn
  | |- wp (free_node _) _ _ => unfold free_node
  | |- wp (free_ref _) _ _ => unfold free_ref
  | |- wp (free_death _) _ _ => unfold free_death
  | |- wp (free_proc _) _ _ => unfold free_proc
  | |- wp (free_thread _) _ _ => unfold free_thread
  | |- wp (free_txn _) _ _ => unfold free_txn
  | |- wp (list_add_tail _ _) _ _ => unfold list_add_tail
  | |- wp (list_add_head _ _) _ _ => unfold list_add_head
  | |- wp (list_del_work _) _ _ => unfold list_del_work
  | |- wp (list_empty _) _ _ => unfold list_empty
  | |- wp (list_head _) _ _ => unfold list_head
  | |- wp (bump _) _ _ => unfold bump
  | |- wp (binder_stats_created _) _ _ => unfold binder_stats_created
  | |- wp (binder_stats_deleted _) _ _ => unfold binder_stats_deleted
  | |- wp next_id _ _ => unfold next_id
  | |- wp new_ticket _ _ => unfold new_ticket
  | |- wp (kzalloc) _ _ => unfold kzalloc
  end; cbn beta.
Ltac wp_steps := repeat wp_step.

(** ** From an outcome back to the steps *)
Section Outcomes.
Implicit Types (s : kstate).

Lemma bind_ok {A B} (m : K A) (f : A -> K B) s b s' : (m ≫= f) s = Ok (b, s') ->
  exists a s1, m s = Ok (a, s1) /\ f a s1 = Ok (b, s').
Proof. unfold mbind, K_bind. destruct (m s) as [[a s1]|]; [eauto|done]. Qed.
Lemma ret_ok {A} (a b : A) s s' : (mret a : K A) s = Ok (b, s') -> b = a /\ s' = s.
Proof. by intros [= <- <-]. Qed.
Lemma get_ok {A} (f : kstate -> A) s b s' : get f s = Ok (b, s') -> b = f s /\ s' = s.
Proof. by intros [= <- <-]. Qed.
Lemma modify_ok f s b s' : modify f s = Ok (b, s') -> s' = f s.
Proof. by intros [= _ <-]. Qed.
Lemma get_obj_ok {A} (m : kstate -> gmap Z A) p s b s' : get_obj m p s = Ok (b, s') -> m s !! p = Some b /\ s' = s.
Proof. unfold get_obj. by destruct (m s !! p); [intros [= <- <-]|]. Qed.
Lemma klift_ok {A} (m : res A) s b s' : klift m s = Ok (b, s') -> m = Ok b /\ s' = s.
Proof. unfold klift. by destruct m; [intros [= <- <-]|]. Qed.
Lemma BUG_ON_ok c s b s' : BUG_ON c s = Ok (b, s') -> c = false /\ s' = s.
Proof. by destruct c; [|intros [= _ <-]]. Qed.
Lemma when_ok c m s b s' : when c m s = Ok (b, s') -> c = true /\ m s = Ok (b, s') \/ c = false /\ s' = s.
Proof. destruct c; [by left|]. intros [= _ <-]. by right. Qed.
End Outcomes.

(** Takes the equation of a run apart, as far as the code is straight. *)
Ltac run_inv :=
  repeat (cbn beta zeta in *;
  match goal with
  | H : (_ ≫= _) _ = Ok _ |- _ =>
      let a := fresh "a" in let s := fresh "s" in let E := fresh "E" in
      apply bind_ok in H as (a & s & E & H)
  | H : mret _ _ = Ok _ |- _ => apply ret_ok in H as [? ?]; subst
  | H : get _ _ = Ok _ |- _ => apply get_ok in H as [? ?]; subst
  | H : modify _ _ = Ok _ |- _ => apply modify_ok in H; subst
  | H : get_obj _ _ _ = Ok _ |- _ => apply get_obj_ok in H as [? ?]; subst
  | H : klift _ _ = Ok _ |- _ => apply klift_ok in H as [? ?]; subst
  | H : BUG_ON _ _ = Ok _ |- _ => apply BUG_ON_ok in H as [? ?]; subst
  | H : get_node _ _ = Ok _ |- _ => apply get_obj_ok in H as [? ?]; subst
  | H : get_ref _ _ = Ok _ |- _ => apply get_obj_ok in H as [? ?]; subst
  | H : get_death _ _ = Ok _ |- _ => apply get_obj_ok in H as [? ?]; subst
  | H : get_proc _ _ = Ok _ |- _ => apply get_obj_ok in H as [? ?]; subst
  | H : get_thread _ _ = Ok _ |- _ => apply get_obj_ok in H as [? ?]; subst
  | H : get_txn _ _ = Ok _ |- _ => apply get_obj_ok in H as [? ?]; subst
  | H : put_node _ _ _ = Ok _ |- _ => apply modify_ok in H; subst
  | H : put_thread _ _ _ = Ok _ |- _ => apply modify_ok in H; subst
  | H : put_proc _ _ _ = Ok _ |- _ => apply modify_ok in H; subst
  | H : put_txn _ _ _ = Ok _ |- _ => apply modify_ok in H; subst
  | H : put_death _ _ _ = Ok _ |- _ => apply modify_ok in H; subst
  | H : list_add_tail _ _ _ = Ok _ |- _ => apply modify_ok in H; subst
  | H : list_add_head _ _ _ = Ok _ |- _ => apply modify_ok in H; subst
  | H : list_del_work _ _ = Ok _ |- _ => apply modify_ok in H; subst
  | H : mod_thread _ _ _ = Ok _ |- _ => unfold mod_thread in H
  | H : mod_txn _ _ _ = Ok _ |- _ => unfold mod_txn in H
  | H : mod_node _ _ _ = Ok _ |- _ => unfold mod_node in H
  | H : mod_proc _ _ _ = Ok _ |- _ => unfold mod_proc in H
  end).
