(* ===== verification/RefsInv.v ===== *)
(** * Invariant of nodes and references

    [refs_inv] relates the processes' trees, the nodes and the references: the two
    trees of references agree with the references there are, the list of a node is
    the list of the references to it, the internal strong count of a node is the
    number of references to it that are strong, every node of a live process is in
    its tree.  The lemmas here say how single changes keep it. *)
From S2P Require Import Prelude UserMem RbTree Alloc Protocol Kernel Refs.

Implicit Types (p n r d ptr desc : Z) (P : binder_proc) (N : binder_node) (R : binder_ref)
  (ps : gmap Z binder_proc) (ns : gmap Z binder_node) (rs : gmap Z binder_ref).

Section Invariant.
(** 1 for a reference held strongly. *)
Definition strong1 rs r : Z :=
  match rs !! r with Some R => if r_strong R =? 0 then 0 else 1 | None => 0 end.

Definition counts_ok R : Prop := 0 <= r_strong R < 2 ^ 31 /\ 0 <= r_weak R < 2 ^ 31 /\ 0 <= r_desc R < 2 ^ 32.

Record refs_inv ps ns rs : Prop := {
  ri_desc p P d r : ps !! p = Some P -> p_refs_by_desc P !! d = Some r ->
    exists R, rs !! r = Some R /\ r_proc R = p /\ r_desc R = d;
  ri_node p P n r : ps !! p = Some P -> p_refs_by_node P !! n = Some r ->
    exists R, rs !! r = Some R /\ r_proc R = p /\ r_node R = n;
  ri_ref r R : rs !! r = Some R -> counts_ok R /\ is_Some (ns !! r_node R) /\
    exists P, ps !! r_proc R = Some P /\ p_refs_by_desc P !! r_desc R = Some r /\ p_refs_by_node P !! r_node R = Some r;
  ri_hlist n N : ns !! n = Some N -> NoDup (n_refs N) /\
    forall r, r ∈ n_refs N <-> exists R, rs !! r = Some R /\ r_node R = n;
  ri_strong n N : ns !! n = Some N -> n_internal_strong_refs N = Zsum (strong1 rs) (n_refs N);
  ri_pnodes p P ptr n : ps !! p = Some P -> p_nodes P !! ptr = Some n ->
    exists N, ns !! n = Some N /\ n_proc N = Some p /\ n_ptr N = ptr;
  ri_owner n N p : ns !! n = Some N -> n_proc N = Some p ->
    exists P, ps !! p = Some P /\ p_nodes P !! n_ptr N = Some n
}.

(** The invariant in a state; objects have addresses that were given out. *)
Definition fresh_after (k : Z) {A} (m : gmap Z A) : Prop := forall x, k < x -> m !! x = None.
Record objects_inv (s : kstate) : Prop := {
  oi_refs : refs_inv (procs s) (nodes s) (refs s);
  oi_fresh_nodes : fresh_after (ticket s) (nodes s);
  oi_fresh_refs : fresh_after (ticket s) (refs s);
  oi_death r R d : refs s !! r = Some R -> r_death R = Some d -> is_Some (deaths s !! d);
  oi_death_inj r1 r2 R1 R2 d : refs s !! r1 = Some R1 -> refs s !! r2 = Some R2 ->
    r_death R1 = Some d -> r_death R2 = Some d -> r1 = r2
}.

Lemma Zsum_strong_ext rs rs' (l : list Z) : (forall r, r ∈ l -> strong1 rs r = strong1 rs' r) ->
  Zsum (strong1 rs) l = Zsum (strong1 rs') l.
Proof. apply Zsum_ext. Qed.

Lemma strong1_range rs r : 0 <= strong1 rs r <= 1.
Proof. unfold strong1. destruct (rs !! r); [destruct (_ =? _)|]; lia. Qed.

Lemma Zsum_strong_bounds rs (l : list Z) : 0 <= Zsum (strong1 rs) l <= Z.of_nat (length l).
Proof.
  induction l as [|r l IH]; cbn [Zsum length]; [lia|]. pose proof (strong1_range rs r). lia.
Qed.

(** The list of a node is no longer than the references there are. *)
Lemma length_n_refs ps ns rs n N : refs_inv ps ns rs -> ns !! n = Some N -> (length (n_refs N) <= size rs)%nat.
Proof.
  intros H HN. destruct (ri_hlist _ _ _ H n N HN) as [Hnd Hin].
  rewrite <- size_dom. rewrite <- (size_list_to_set (C := gset Z)) by done.
  apply subseteq_size. intros r Hr. apply elem_of_list_to_set, Hin in Hr as (R & E & _).
  apply elem_of_dom. eauto.
Qed.

(** *** Changes that keep it *)

(** A node with other local counts and flags. *)
Lemma refs_inv_node ps ns rs n N N' : refs_inv ps ns rs -> ns !! n = Some N ->
  n_refs N' = n_refs N -> n_proc N' = n_proc N -> n_ptr N' = n_ptr N ->
  n_internal_strong_refs N' = n_internal_strong_refs N -> refs_inv ps (<[n := N']> ns) rs.
Proof.
  intros [H1 H2 H3 H4 H5 H6 H7] E F1 F2 F3 F4. split; try done.
  - intros r R HR. destruct (H3 r R HR) as (C & [M HM] & X). split_and!; [done| |done].
    destruct (decide (r_node R = n)) as [->|]; [rewrite lookup_insert_eq|rewrite lookup_insert_ne by done]; eauto.
  - intros m M. destruct (decide (m = n)) as [->|]; [rewrite lookup_insert_eq; intros [= <-]|rewrite lookup_insert_ne by done; eauto].
    rewrite F1. eauto.
  - intros m M. destruct (decide (m = n)) as [->|]; [rewrite lookup_insert_eq; intros [= <-]|rewrite lookup_insert_ne by done; eauto].
    rewrite F1, F4. eauto.
  - intros p P ptr m HP Hm. destruct (H6 p P ptr m HP Hm) as (M & HM & X).
    destruct (decide (m = n)) as [->|]; [rewrite lookup_insert_eq|rewrite lookup_insert_ne by done; eauto].
    exists N'. rewrite E in HM. injection HM as <-. rewrite F2, F3. done.
  - intros m M p. destruct (decide (m = n)) as [->|]; [rewrite lookup_insert_eq; intros [= <-]|rewrite lookup_insert_ne by done; eauto].
    rewrite F2, F3. eauto.
Qed.

(** A reference with other counts; its node's strong count follows. *)
Lemma refs_inv_ref ps ns rs r R R' N N' : refs_inv ps ns rs -> rs !! r = Some R -> ns !! r_node R = Some N ->
  r_proc R' = r_proc R -> r_node R' = r_node R -> r_desc R' = r_desc R -> counts_ok R' ->
  n_refs N' = n_refs N -> n_proc N' = n_proc N -> n_ptr N' = n_ptr N ->
  n_internal_strong_refs N' - n_internal_strong_refs N = strong1 (<[r := R']> rs) r - strong1 rs r ->
  refs_inv ps (<[r_node R := N']> ns) (<[r := R']> rs).
Proof.
  intros [H1 H2 H3 H4 H5 H6 H7] ER EN G1 G2 G3 G4 F1 F2 F3 F4.
  assert (Hr : forall q Q, rs !! q = Some Q -> exists Q', <[r := R']> rs !! q = Some Q' /\ r_proc Q' = r_proc Q /\
    r_node Q' = r_node Q /\ r_desc Q' = r_desc Q).
  { intros q Q HQ. destruct (decide (q = r)) as [->|]; [rewrite lookup_insert_eq|rewrite lookup_insert_ne by done; eauto 10].
    rewrite ER in HQ. injection HQ as <-. eauto 10. }
  split.
  - intros p P d q HP Hd. destruct (H1 p P d q HP Hd) as (Q & HQ & <- & <-). destruct (Hr q Q HQ) as (Q' & ? & ? & ? & ?). eauto.
  - intros p P n q HP Hn. destruct (H2 p P n q HP Hn) as (Q & HQ & <- & <-). destruct (Hr q Q HQ) as (Q' & ? & ? & ? & ?). eauto.
  - intros q Q HQ. assert (Hq : exists Q0, rs !! q = Some Q0 /\ counts_ok Q /\ r_proc Q = r_proc Q0 /\ r_node Q = r_node Q0 /\ r_desc Q = r_desc Q0).
    { destruct (decide (q = r)) as [->|]; [rewrite lookup_insert_eq in HQ; injection HQ as <-; eauto 10|].
      rewrite lookup_insert_ne in HQ by done. exists Q. split_and!; try done. by apply (H3 q Q). }
    destruct Hq as (Q0 & HQ0 & C & -> & -> & ->). destruct (H3 q Q0 HQ0) as (_ & [M HM] & X). split_and!; [done| |done].
    destruct (decide (r_node Q0 = r_node R)) as [->|]; [rewrite lookup_insert_eq|rewrite lookup_insert_ne by done]; eauto.
  - intros m M. assert (Hm : forall M0, ns !! m = Some M0 -> n_refs M = n_refs M0 -> NoDup (n_refs M) /\
      (forall q, q ∈ n_refs M <-> exists Q, <[r := R']> rs !! q = Some Q /\ r_node Q = m)).
    { intros M0 E0 ->. destruct (H4 m M0 E0) as [X Y]. split; [done|]. intros q. rewrite Y. split.
      - intros (Q & HQ & <-). destruct (Hr q Q HQ) as (Q' & ? & ? & ? & ?). eauto.
      - intros (Q & HQ & <-). destruct (decide (q = r)) as [->|]; [rewrite lookup_insert_eq in HQ; injection HQ as <-; eauto|].
        rewrite lookup_insert_ne in HQ by done. eauto. }
    destruct (decide (m = r_node R)) as [->|]; [rewrite lookup_insert_eq; intros [= <-]; by apply (Hm N)|].
    rewrite lookup_insert_ne by done. intros E. by apply (Hm M).
  - assert (Hs : forall (l : list Z), r ∉ l -> Zsum (strong1 (<[r := R']> rs)) l = Zsum (strong1 rs) l).
    { intros l Hl. apply Zsum_ext. intros q Hq. unfold strong1. rewrite lookup_insert_ne; [done|]. by intros ->. }
    intros m M. destruct (decide (m = r_node R)) as [->|Hm].
    + rewrite lookup_insert_eq. intros [= <-]. rewrite F1. pose proof (H5 _ _ EN) as E5.
      destruct (H4 _ _ EN) as [Hnd Hin].
      assert (r ∈ n_refs N) as (l1 & l2 & El)%list_elem_of_split by (apply Hin; eauto). rewrite El in *.
      apply NoDup_app in Hnd as (_ & Hd & [Hn2 _]%NoDup_cons).
      rewrite Zsum_app in *. cbn [Zsum] in *. rewrite (Hs l1), (Hs l2) by (intros ?; set_solver). lia.
    + rewrite lookup_insert_ne by done. intros E. rewrite (H5 m M E). symmetry. apply Hs.
      intros Hq. apply (H4 m M E) in Hq as (Q & HQ & HQm). congruence.
  - intros p P ptr m HP Hm. destruct (H6 p P ptr m HP Hm) as (M & HM & X).
    destruct (decide (m = r_node R)) as [->|]; [rewrite lookup_insert_eq|rewrite lookup_insert_ne by done; eauto].
    exists N'. rewrite EN in HM. injection HM as <-. rewrite F2, F3. done.
  - intros m M p. destruct (decide (m = r_node R)) as [->|]; [rewrite lookup_insert_eq; intros [= <-]|rewrite lookup_insert_ne by done; eauto].
    rewrite F2, F3. eauto.
Qed.

(** A process whose trees of nodes and references are as before. *)
Lemma refs_inv_proc ps ns rs p P P' : refs_inv ps ns rs -> ps !! p = Some P ->
  p_nodes P' = p_nodes P -> p_refs_by_desc P' = p_refs_by_desc P -> p_refs_by_node P' = p_refs_by_node P ->
  refs_inv (<[p := P']> ps) ns rs.
Proof.
  intros [H1 H2 H3 H4 H5 H6 H7] E F1 F2 F3.
  assert (Hp : forall q Q, <[p := P']> ps !! q = Some Q -> exists Q0, ps !! q = Some Q0 /\ p_nodes Q = p_nodes Q0 /\
    p_refs_by_desc Q = p_refs_by_desc Q0 /\ p_refs_by_node Q = p_refs_by_node Q0).
  { intros q Q. destruct (decide (q = p)) as [->|]; [rewrite lookup_insert_eq; intros [= <-]|rewrite lookup_insert_ne by done]; eauto 10. }
  assert (Hq : forall q Q0, ps !! q = Some Q0 -> exists Q, <[p := P']> ps !! q = Some Q /\ p_nodes Q = p_nodes Q0 /\
    p_refs_by_desc Q = p_refs_by_desc Q0 /\ p_refs_by_node Q = p_refs_by_node Q0).
  { intros q Q0 HQ. destruct (decide (q = p)) as [->|]; [rewrite lookup_insert_eq; rewrite E in HQ; injection HQ as <-|rewrite lookup_insert_ne by done]; eauto 10. }
  split; try done.
  - intros q Q d r HQ. destruct (Hp q Q HQ) as (Q0 & HQ0 & _ & -> & _). eauto.
  - intros q Q n r HQ. destruct (Hp q Q HQ) as (Q0 & HQ0 & _ & _ & ->). eauto.
  - intros r R HR. destruct (H3 r R HR) as (C & X & Q0 & HQ0 & Y1 & Y2). split_and!; [done..|].
    destruct (Hq _ Q0 HQ0) as (Q & HQ & _ & E2 & E3). exists Q. by rewrite E2, E3.
  - intros q Q ptr n HQ. destruct (Hp q Q HQ) as (Q0 & HQ0 & -> & _). eauto.
  - intros n N q HN Hpr. destruct (H7 n N q HN Hpr) as (Q0 & HQ0 & X). destruct (Hq _ Q0 HQ0) as (Q & HQ & E1 & _).
    exists Q. by rewrite E1.
Qed.

(** A new reference. *)
Lemma refs_inv_new_ref ps ns rs p P P' n N r desc id : refs_inv ps ns rs ->
  ps !! p = Some P -> ns !! n = Some N -> rs !! r = None ->
  p_refs_by_node P !! n = None -> p_refs_by_desc P !! desc = None -> 0 <= desc < 2 ^ 32 ->
  p_nodes P' = p_nodes P -> p_refs_by_desc P' = <[desc := r]> (p_refs_by_desc P) ->
  p_refs_by_node P' = <[n := r]> (p_refs_by_node P) ->
  refs_inv (<[p := P']> ps) (<[n := set_n_refs N (r :: n_refs N)]> ns) (<[r := MkRef id p n desc 0 0 None]> rs).
Proof.
  intros [H1 H2 H3 H4 H5 H6 H7] EP EN Er En Ed Hd F1 F2 F3. set (R := MkRef id p n desc 0 0 None).
  assert (Hold : forall q Q, rs !! q = Some Q -> <[r := R]> rs !! q = Some Q).
  { intros q Q HQ. rewrite lookup_insert_ne; [done|]. congruence. }
  assert (Hnodes : forall q Q, <[p := P']> ps !! q = Some Q -> exists Q0, ps !! q = Some Q0 /\ p_nodes Q = p_nodes Q0).
  { intros q Q. destruct (decide (q = p)) as [->|]; [rewrite lookup_insert_eq; intros [= <-]|rewrite lookup_insert_ne by done]; eauto. }
  split.
  - intros q Q d s. destruct (decide (q = p)) as [->|]; [rewrite lookup_insert_eq; intros [= <-]|rewrite lookup_insert_ne by done].
    + rewrite F2. destruct (decide (d = desc)) as [->|].
      * rewrite lookup_insert_eq. intros [= <-]. exists R. by rewrite lookup_insert_eq.
      * rewrite lookup_insert_ne by done. intros E. destruct (H1 _ _ _ _ EP E) as (Q & HQ & X). eauto.
    + intros HQ E. destruct (H1 _ _ _ _ HQ E) as (Q' & HQ' & X). eauto.
  - intros q Q m s. destruct (decide (q = p)) as [->|]; [rewrite lookup_insert_eq; intros [= <-]|rewrite lookup_insert_ne by done].
    + rewrite F3. destruct (decide (m = n)) as [->|].
      * rewrite lookup_insert_eq. intros [= <-]. exists R. by rewrite lookup_insert_eq.
      * rewrite lookup_insert_ne by done. intros E. destruct (H2 _ _ _ _ EP E) as (Q & HQ & X). eauto.
    + intros HQ E. destruct (H2 _ _ _ _ HQ E) as (Q' & HQ' & X). eauto.
  - intros s S. destruct (decide (s = r)) as [->|Hs].
    + rewrite lookup_insert_eq. intros [= <-]. cbn. split_and!; [split; cbn; lia|rewrite lookup_insert_eq; eauto|].
      exists P'. by rewrite lookup_insert_eq, F2, F3, !lookup_insert_eq.
    + rewrite lookup_insert_ne by done. intros HS. destruct (H3 s S HS) as (C & [M HM] & Q & HQ & X & Y). split_and!; [done| |].
      * destruct (decide (r_node S = n)) as [->|]; [rewrite lookup_insert_eq|rewrite lookup_insert_ne by done]; eauto.
      * destruct (decide (r_proc S = p)) as [Hp|]; [|rewrite lookup_insert_ne by done; eauto].
        rewrite Hp, lookup_insert_eq in *. rewrite EP in HQ. injection HQ as <-. exists P'. rewrite F2, F3.
        split_and!; [done|rewrite lookup_insert_ne; congruence|rewrite lookup_insert_ne; congruence].
  - intros m M. assert (Hin : forall m s, (exists S, <[r := R]> rs !! s = Some S /\ r_node S = m) <->
      (s = r /\ m = n) \/ exists S, rs !! s = Some S /\ r_node S = m).
    { intros m' s. destruct (decide (s = r)) as [->|]; [rewrite lookup_insert_eq|rewrite lookup_insert_ne by done].
      - split; [intros (? & [= <-] & <-); left; done|intros [[_ ->]|(? & ? & ?)]; [eauto|congruence]].
      - split; [eauto|]. intros [[? _]|?]; done. }
    destruct (decide (m = n)) as [->|Hm].
    + rewrite lookup_insert_eq. intros [= <-]. destruct (H4 n N EN) as [X Y]. cbn. split.
      * constructor; [|done]. rewrite Y. intros (? & ? & _). congruence.
      * intros s. rewrite elem_of_cons, Y, Hin. tauto.
    + rewrite lookup_insert_ne by done. intros E. destruct (H4 m M E) as [X Y]. split; [done|]. intros s. rewrite Y, Hin. tauto.
  - assert (Hs : forall m M, ns !! m = Some M -> Zsum (strong1 (<[r := R]> rs)) (n_refs M) = Zsum (strong1 rs) (n_refs M)).
    { intros m M E. apply Zsum_ext. intros q Hq. unfold strong1. rewrite lookup_insert_ne; [done|]. intros <-.
      apply (H4 m M E) in Hq as (? & ? & _). congruence. }
    intros m M. destruct (decide (m = n)) as [->|Hm].
    + rewrite lookup_insert_eq. intros [= <-]. cbn. rewrite (Hs n N EN), (H5 n N EN).
      unfold strong1 at 2. rewrite lookup_insert_eq. cbn. lia.
    + rewrite lookup_insert_ne by done. intros E. rewrite (Hs m M E). eauto.
  - intros q Q ptr m HQ Hm. destruct (Hnodes q Q HQ) as (Q0 & HQ0 & Enodes). rewrite Enodes in Hm.
    destruct (H6 q Q0 ptr m HQ0 Hm) as (M & HM & X & Y).
    destruct (decide (m = n)) as [->|]; [rewrite lookup_insert_eq|rewrite lookup_insert_ne by done; eauto].
    rewrite EN in HM. injection HM as <-. eauto.
  - intros m M q HM Hpr. assert (exists M0, ns !! m = Some M0 /\ n_proc M0 = Some q /\ n_ptr M0 = n_ptr M) as (M0 & HM0 & Hpr0 & <-).
    { destruct (decide (m = n)) as [->|]; [rewrite lookup_insert_eq in HM; injection HM as <-; eauto|].
      rewrite lookup_insert_ne in HM by done. eauto. }
    destruct (H7 m M0 q HM0 Hpr0) as (Q & HQ & X).
    destruct (decide (q = p)) as [->|]; [rewrite lookup_insert_eq|rewrite lookup_insert_ne by done; eauto].
    rewrite EP in HQ. injection HQ as <-. exists P'. by rewrite F1.
Qed.

(** A reference goes. *)
Lemma refs_inv_del_ref ps ns rs r R P P' N N' : refs_inv ps ns rs ->
  rs !! r = Some R -> ps !! r_proc R = Some P -> ns !! r_node R = Some N ->
  p_nodes P' = p_nodes P -> p_refs_by_desc P' = delete (r_desc R) (p_refs_by_desc P) ->
  p_refs_by_node P' = delete (r_node R) (p_refs_by_node P) ->
  n_refs N' = list_del r (n_refs N) -> n_proc N' = n_proc N -> n_ptr N' = n_ptr N ->
  n_internal_strong_refs N' = n_internal_strong_refs N - strong1 rs r ->
  refs_inv (<[r_proc R := P']> ps) (<[r_node R := N']> ns) (delete r rs).
Proof.
  intros [H1 H2 H3 H4 H5 H6 H7] ER EP EN F1 F2 F3 G1 G2 G3 G4.
  destruct (H3 r R ER) as (_ & _ & P0 & EP0 & Ed & En). rewrite EP in EP0. injection EP0 as <-.
  assert (Hpt : forall q Q, <[r_proc R := P']> ps !! q = Some Q -> exists Q0, ps !! q = Some Q0 /\ p_nodes Q = p_nodes Q0 /\
    forall d s, p_refs_by_desc Q !! d = Some s -> p_refs_by_desc Q0 !! d = Some s /\ s ≠ r).
  { intros q Q. destruct (decide (q = r_proc R)) as [->|Hq]; [rewrite lookup_insert_eq; intros [= <-]|rewrite lookup_insert_ne by done].
    - exists P. split_and!; [done..|]. intros d s. rewrite F2, lookup_delete_Some. intros [Hd Hs]. split; [done|].
      intros ->. destruct (H1 _ _ _ _ EP Hs) as (? & ? & _ & ?). congruence.
    - intros HQ. exists Q. split_and!; [done..|]. intros d s Hs. split; [done|]. intros ->.
      destruct (H1 _ _ _ _ HQ Hs) as (? & ? & ? & _). congruence. }
  split.
  - intros q Q d s HQ Hs. destruct (Hpt q Q HQ) as (Q0 & HQ0 & _ & X). destruct (X d s Hs) as [Hs0 Hsr].
    destruct (H1 _ _ _ _ HQ0 Hs0) as (S & HS & Y). exists S. by rewrite lookup_delete_ne.
  - intros q Q m s HQ Hs. assert (exists Q0, ps !! q = Some Q0 /\ p_refs_by_node Q0 !! m = Some s /\ s ≠ r) as (Q0 & HQ0 & Hs0 & Hsr).
    { destruct (decide (q = r_proc R)) as [->|Hq]; [rewrite lookup_insert_eq in HQ; injection HQ as <-|rewrite lookup_insert_ne in HQ by done].
      - rewrite F3, lookup_delete_Some in Hs. destruct Hs as [Hm Hs]. exists P. split_and!; [done..|].
        intros ->. destruct (H2 _ _ _ _ EP Hs) as (? & ? & _ & ?). congruence.
      - exists Q. split_and!; [done..|]. intros ->. destruct (H2 _ _ _ _ HQ Hs) as (? & ? & ? & _). congruence. }
    destruct (H2 _ _ _ _ HQ0 Hs0) as (S & HS & Y). exists S. by rewrite lookup_delete_ne.
  - intros s S. rewrite lookup_delete_Some. intros [Hs HS]. destruct (H3 s S HS) as (C & [M HM] & Q & HQ & X & Y). split_and!; [done| |].
    + destruct (decide (r_node S = r_node R)) as [->|]; [rewrite lookup_insert_eq|rewrite lookup_insert_ne by done]; eauto.
    + destruct (decide (r_proc S = r_proc R)) as [Hp|]; [|rewrite lookup_insert_ne by done; eauto].
      rewrite Hp, lookup_insert_eq in *. rewrite EP in HQ. injection HQ as <-. exists P'. rewrite F2, F3.
      split_and!; [done|rewrite lookup_delete_ne; [done|congruence]|rewrite lookup_delete_ne; [done|congruence]].
  - intros m M. assert (Hin : forall s, (exists S, delete r rs !! s = Some S /\ r_node S = m) <->
      s ≠ r /\ exists S, rs !! s = Some S /\ r_node S = m).
    { intros s. split; [intros (S & [? ?]%lookup_delete_Some & ?); eauto|]. intros (? & S & ? & ?). exists S. by rewrite lookup_delete_ne. }
    destruct (decide (m = r_node R)) as [->|Hm].
    + rewrite lookup_insert_eq. intros [= <-]. destruct (H4 _ N EN) as [X Y]. rewrite G1. split; [by apply NoDup_list_del|].
      intros s. rewrite elem_of_list_del, Y, Hin. tauto.
    + rewrite lookup_insert_ne by done. intros E. destruct (H4 m M E) as [X Y]. split; [done|]. intros s. rewrite Y, Hin.
      split; [|tauto]. intros (S & HS & HSm). split; [congruence|eauto].
  - assert (Hs : forall (l : list Z), r ∉ l -> Zsum (strong1 (delete r rs)) l = Zsum (strong1 rs) l).
    { intros l Hl. apply Zsum_ext. intros q Hq. unfold strong1. rewrite lookup_delete_ne; [done|]. by intros <-. }
    intros m M. destruct (decide (m = r_node R)) as [->|Hm].
    + rewrite lookup_insert_eq. intros [= <-]. destruct (H4 _ N EN) as [Hnd Hin].
      assert (Hr : r ∈ n_refs N) by (apply Hin; eauto).
      rewrite G1, G4, (H5 _ N EN), Hs by (rewrite elem_of_list_del; tauto). by rewrite Zsum_list_del.
    + rewrite lookup_insert_ne by done. intros E. rewrite (H5 m M E). symmetry. apply Hs.
      intros Hq. apply (H4 m M E) in Hq as (? & ? & ?). congruence.
  - intros q Q ptr m HQ Hm. destruct (Hpt q Q HQ) as (Q0 & HQ0 & Enodes & _). rewrite Enodes in Hm.
    destruct (H6 q Q0 ptr m HQ0 Hm) as (M & HM & X & Y).
    destruct (decide (m = r_node R)) as [->|]; [rewrite lookup_insert_eq|rewrite lookup_insert_ne by done; eauto].
    rewrite EN in HM. injection HM as <-. exists N'. by rewrite G2, G3.
  - intros m M q HM Hpr. assert (exists M0, ns !! m = Some M0 /\ n_proc M0 = Some q /\ n_ptr M0 = n_ptr M) as (M0 & HM0 & Hpr0 & <-).
    { destruct (decide (m = r_node R)) as [->|]; [rewrite lookup_insert_eq in HM; injection HM as <-|rewrite lookup_insert_ne in HM by done; eauto].
      exists N. by rewrite <- G2, <- G3. }
    destruct (H7 m M0 q HM0 Hpr0) as (Q & HQ & X).
    destruct (decide (q = r_proc R)) as [->|]; [rewrite lookup_insert_eq|rewrite lookup_insert_ne by done; eauto].
    rewrite EP in HQ. injection HQ as <-. exists P'. by rewrite F1.
Qed.

(** A node without references goes, and leaves the tree of its process. *)
Lemma refs_inv_del_node ps ns rs n N : refs_inv ps ns rs -> ns !! n = Some N -> n_refs N = [] ->
  (forall p P ptr, ps !! p = Some P -> p_nodes P !! ptr ≠ Some n) ->
  refs_inv ps (delete n ns) rs.
Proof.
  intros [H1 H2 H3 H4 H5 H6 H7] EN Er Hn. split; try done.
  - intros r R HR. destruct (H3 r R HR) as (C & [M HM] & X). split_and!; [done| |done]. exists M.
    rewrite lookup_delete_ne; [done|]. intros En.
    assert (Hin : r ∈ n_refs N) by (apply (H4 _ N EN); eauto). rewrite Er in Hin. by apply elem_of_nil in Hin.
  - intros m M [_ E]%lookup_delete_Some. eauto.
  - intros m M [_ E]%lookup_delete_Some. eauto.
  - intros p P ptr m HP Hm. destruct (H6 p P ptr m HP Hm) as (M & HM & X). exists M. split; [|done].
    rewrite lookup_delete_ne; [done|]. intros <-. by apply (Hn p P ptr HP).
  - intros m M p [_ E]%lookup_delete_Some. eauto.
Qed.

(** A process's tree loses a node that is going or dead, before the node itself. *)
Lemma nodes_of_one ps ns rs n N p P ptr : refs_inv ps ns rs -> ns !! n = Some N -> ps !! p = Some P ->
  p_nodes P !! ptr = Some n -> n_proc N = Some p /\ ptr = n_ptr N.
Proof.
  intros H EN EP E. destruct (ri_pnodes _ _ _ H p P ptr n EP E) as (N' & E' & X & <-). rewrite EN in E'. by injection E' as <-.
Qed.

Lemma refs_inv_unlink_node ps ns rs n N p P P' : refs_inv ps ns rs -> ns !! n = Some N -> n_refs N = [] ->
  n_proc N = Some p -> ps !! p = Some P -> p_nodes P' = delete (n_ptr N) (p_nodes P) ->
  p_refs_by_desc P' = p_refs_by_desc P -> p_refs_by_node P' = p_refs_by_node P ->
  refs_inv (<[p := P']> ps) (delete n ns) rs.
Proof.
  intros H EN Er Ep EP F1 F2 F3. pose proof (nodes_of_one ps ns rs n N) as Hone. pose proof H as [H1 H2 H3 H4 H5 H6 H7].
  assert (Hp : forall q Q, <[p := P']> ps !! q = Some Q -> exists Q0, ps !! q = Some Q0 /\
    p_refs_by_desc Q = p_refs_by_desc Q0 /\ p_refs_by_node Q = p_refs_by_node Q0 /\
    forall ptr m, p_nodes Q !! ptr = Some m -> p_nodes Q0 !! ptr = Some m /\ m ≠ n).
  { intros q Q. destruct (decide (q = p)) as [->|Hq]; [rewrite lookup_insert_eq; intros [= <-]|rewrite lookup_insert_ne by done].
    - exists P. split_and!; try done. intros ptr m. rewrite F1, lookup_delete_Some. intros [Hptr Hm]. split; [done|].
      intros ->. destruct (Hone p P ptr H EN EP Hm) as [_ ->]. done.
    - intros HQ. exists Q. split_and!; try done. intros ptr m Hm. split; [done|]. intros ->.
      destruct (Hone q Q ptr H EN HQ Hm). congruence. }
  split; try done.
  - intros q Q d r HQ Hd. destruct (Hp q Q HQ) as (Q0 & HQ0 & E & _). rewrite E in Hd. eauto.
  - intros q Q m r HQ Hd. destruct (Hp q Q HQ) as (Q0 & HQ0 & _ & E & _). rewrite E in Hd. eauto.
  - intros r R HR. destruct (H3 r R HR) as (C & [M HM] & Q & HQ & X & Y). split_and!; [done| |].
    + exists M. rewrite lookup_delete_ne; [done|]. intros En.
      assert (Hin : r ∈ n_refs N) by (apply (H4 _ N EN); eauto). rewrite Er in Hin. by apply elem_of_nil in Hin.
    + destruct (decide (r_proc R = p)) as [Hrp|]; [|rewrite lookup_insert_ne by done; eauto].
      rewrite Hrp, lookup_insert_eq in *. rewrite EP in HQ. injection HQ as <-. exists P'. by rewrite F2, F3.
  - intros m M [_ E]%lookup_delete_Some. eauto.
  - intros m M [_ E]%lookup_delete_Some. eauto.
  - intros q Q ptr m HQ Hm. destruct (Hp q Q HQ) as (Q0 & HQ0 & _ & _ & X). destruct (X ptr m Hm) as [Hm0 Hmn].
    destruct (H6 q Q0 ptr m HQ0 Hm0) as (M & HM & Y). exists M. by rewrite lookup_delete_ne.
  - intros m M q [Hmn E]%lookup_delete_Some Hpr. destruct (H7 m M q E Hpr) as (Q & HQ & X).
    destruct (decide (q = p)) as [->|]; [rewrite lookup_insert_eq|rewrite lookup_insert_ne by done; eauto].
    rewrite EP in HQ. injection HQ as <-. exists P'. split; [done|]. rewrite F1, lookup_delete_ne; [done|].
    intros Eptr. rewrite <- Eptr in X. destruct (H7 n N p EN Ep) as (P1 & HP1 & Y). congruence.
Qed.

(** A new node. *)
Lemma refs_inv_new_node ps ns rs p P P' n N : refs_inv ps ns rs -> ps !! p = Some P -> ns !! n = None ->
  p_nodes P !! n_ptr N = None -> n_proc N = Some p -> n_refs N = [] -> n_internal_strong_refs N = 0 ->
  p_nodes P' = <[n_ptr N := n]> (p_nodes P) ->
  p_refs_by_desc P' = p_refs_by_desc P -> p_refs_by_node P' = p_refs_by_node P ->
  refs_inv (<[p := P']> ps) (<[n := N]> ns) rs.
Proof.
  intros [H1 H2 H3 H4 H5 H6 H7] EP EN Ep Np Nr Ni F1 F2 F3.
  assert (Hnr : forall r R, rs !! r = Some R -> r_node R ≠ n).
  { intros r R HR <-. destruct (H3 r R HR) as (_ & [M HM] & _). congruence. }
  split.
  - intros q Q d r. destruct (decide (q = p)) as [->|]; [rewrite lookup_insert_eq; intros [= <-]; rewrite F2|rewrite lookup_insert_ne by done]; eauto.
  - intros q Q d r. destruct (decide (q = p)) as [->|]; [rewrite lookup_insert_eq; intros [= <-]; rewrite F3|rewrite lookup_insert_ne by done]; eauto.
  - intros r R HR. destruct (H3 r R HR) as (C & [M HM] & Q & HQ & X & Y). split_and!; [done| |].
    + exists M. rewrite lookup_insert_ne; [done|]. intros E. by apply (Hnr r R).
    + destruct (decide (r_proc R = p)) as [Hrp|]; [|rewrite lookup_insert_ne by done; eauto].
      rewrite Hrp, lookup_insert_eq in *. rewrite EP in HQ. injection HQ as <-. exists P'. by rewrite F2, F3.
  - intros m M. destruct (decide (m = n)) as [->|]; [rewrite lookup_insert_eq; intros [= <-]|rewrite lookup_insert_ne by done; eauto].
    rewrite Nr. split; [constructor|]. intros r. split; [intros ?%elem_of_nil; done|]. intros (R & HR & Hn). by destruct (Hnr r R HR).
  - intros m M. destruct (decide (m = n)) as [->|]; [rewrite lookup_insert_eq; intros [= <-]|rewrite lookup_insert_ne by done; eauto].
    by rewrite Nr, Ni.
  - intros q Q ptr m HQ Hm. assert (Hold : forall M0, (exists Q0, ps !! q = Some Q0 /\ p_nodes Q0 !! ptr = Some M0) ->
      exists N0, <[n := N]> ns !! M0 = Some N0 /\ n_proc N0 = Some q /\ n_ptr N0 = ptr).
    { intros M0 (Q0 & HQ0 & E). destruct (H6 q Q0 ptr M0 HQ0 E) as (N0 & HN0 & X). exists N0.
      rewrite lookup_insert_ne; [done|]. congruence. }
    destruct (decide (q = p)) as [->|]; [rewrite lookup_insert_eq in HQ; injection HQ as <-|rewrite lookup_insert_ne in HQ by done; eauto].
    rewrite F1 in Hm. destruct (decide (ptr = n_ptr N)) as [->|].
    + rewrite lookup_insert_eq in Hm. injection Hm as <-. exists N. by rewrite lookup_insert_eq.
    + rewrite lookup_insert_ne in Hm by done. eauto.
  - intros m M q. destruct (decide (m = n)) as [->|Hmn].
    + rewrite lookup_insert_eq. intros [= <-]. rewrite Np. intros [= <-]. exists P'. by rewrite lookup_insert_eq, F1, lookup_insert_eq.
    + rewrite lookup_insert_ne by done. intros E Hpr. destruct (H7 m M q E Hpr) as (Q & HQ & X).
      destruct (decide (q = p)) as [->|]; [rewrite lookup_insert_eq|rewrite lookup_insert_ne by done; eauto].
      rewrite EP in HQ. injection HQ as <-. exists P'. split; [done|]. rewrite F1, lookup_insert_ne; [done|]. congruence.
Qed.
End Invariant.
