(* ===== verification/RefsProps.v ===== *)
(** * The operations on nodes and references keep their invariant *)
From S2P Require Import Prelude UserMem RbTree Alloc Protocol Kernel Refs KernelWp RefsInv.

Implicit Types (p n r d ptr desc : Z) (P : binder_proc) (N : binder_node) (R : binder_ref) (s : kstate).

(** What these operations leave alone: everything but the nodes, the references,
    the trees of both, the work lists, the dead nodes and the statistics. *)
Definition proc_rest P : gmap Z Z * Z * Z * option Z * Z * balloc * (Z * Z * Z * Z * Z) :=
  (p_threads P, p_pid P, p_tsk P, p_files P, p_deferred_work P, p_alloc P,
   (p_max_threads P, p_requested_threads P, p_requested_threads_started P, p_ready_threads P, p_default_priority P)).
Record frame s s' : Prop := {
  fr_procs p : proc_rest <$> procs s' !! p = proc_rest <$> procs s !! p;
  fr_threads : threads s' = threads s;
  fr_txns : txns s' = txns s;
  fr_contents : contents s' = contents s;
  fr_mgr : context_mgr_node s' = context_mgr_node s /\ context_mgr_uid s' = context_mgr_uid s;
  fr_lists : proc_list s' = proc_list s /\ deferred_list s' = deferred_list s;
  fr_files : open_files s' = open_files s /\ nices s' = nices s;
  fr_logs : tlog s' = tlog s /\ tlog_failed s' = tlog_failed s
}.

Section Spec.
Lemma frame_refl s : frame s s.
Proof. by split. Qed.

Lemma frame_trans s1 s2 s3 : frame s1 s2 -> frame s2 s3 -> frame s1 s3.
Proof.
  intros [A1 A2 A3 A4 [A5 A5'] [A6 A6'] [A7 A7'] [A8 A8']] [B1 B2 B3 B4 [B5 B5'] [B6 B6'] [B7 B7'] [B8 B8']].
  split; [intros p; by rewrite B1, A1|congruence..| | | |]; split; congruence.
Qed.

Lemma frame_put_proc s p P P' : procs s !! p = Some P -> proc_rest P' = proc_rest P ->
  frame s (set_procs s (<[p := P']> (procs s))).
Proof.
  intros E H. split; try done. cbn. intros q. destruct (decide (q = p)) as [->|].
  - rewrite lookup_insert_eq, E. cbn. by rewrite H.
  - by rewrite lookup_insert_ne.
Qed.

(** ** [binder_dec_node] *)

(** The node dies: nobody holds it and its user does not know it. *)
Definition dies N (strong : bool) : bool :=
  negb (still_held N strong) &&
  negb (bool_decide (is_Some (n_proc N)) && (n_has_strong_ref N || n_has_weak_ref N)) &&
  (bool_decide (n_refs N = []) && (n_local_strong_refs N =? 0) && (n_local_weak_refs N =? 0)).

Definition unlink_proc N (ps : gmap Z binder_proc) : gmap Z binder_proc :=
  match n_proc N with
  | Some p => alter (fun P => set_p_nodes P (delete (n_ptr N) (p_nodes P))) p ps
  | None => ps
  end.

Lemma dec_counts_same N strong internal :
  n_refs (dec_counts N strong internal) = n_refs N /\ n_proc (dec_counts N strong internal) = n_proc N /\
  n_ptr (dec_counts N strong internal) = n_ptr N /\
  (strong && internal = false -> n_internal_strong_refs (dec_counts N strong internal) = n_internal_strong_refs N).
Proof. by destruct strong, internal. Qed.

Lemma dec_node_wp n strong internal s N (Q : unit -> kstate -> Prop) : nodes s !! n = Some N ->
  (forall p, n_proc N = Some p -> is_Some (procs s !! p)) ->
  (forall s', frame s s' -> refs s' = refs s -> deaths s' = deaths s -> ticket s' = ticket s ->
    (if dies (dec_counts N strong internal) strong
     then nodes s' = delete n (nodes s) /\ procs s' = unlink_proc N (procs s)
     else nodes s' = <[n := dec_counts N strong internal]> (nodes s) /\ procs s' = procs s) -> Q tt s') ->
  wp (binder_dec_node n strong internal) Q s.
Proof.
  intros EN HP HQ. unfold binder_dec_node. wp_steps. set (N' := dec_counts N strong internal) in *.
  destruct (dec_counts_same N strong internal) as (_ & Hproc & Hptr & _). fold N' in Hproc, Hptr.
  unfold dies in HQ. destruct (still_held N' strong) eqn:Eh; [wp_steps; apply HQ; cbn; [by split|done..]|].
  cbn [negb andb] in HQ. unfold unused_node. rewrite Hproc in *.
  set (u := bool_decide (n_refs N' = []) && (n_local_strong_refs N' =? 0) && (n_local_weak_refs N' =? 0)) in *.
  destruct (n_proc N) as [p|] eqn:Ep.
  - rewrite (bool_decide_true (is_Some (Some p))) in HQ by eauto. cbn [andb] in HQ.
    destruct (n_has_strong_ref N' || n_has_weak_ref N'); cbn [negb andb] in HQ.
    + wp_steps. apply wp_when; intros _; wp_steps; apply HQ; cbn; by (split || done).
    + apply wp_when; intros Hu; rewrite Hu in HQ.
      * destruct (HP p eq_refl) as [P HPp]. wp_steps. eapply wp_get_obj; [by cbn; rewrite lookup_insert_eq|].
        wp_steps. apply HQ; cbn; try done.
        -- split; try done. cbn. intros q. destruct (decide (q = p)) as [->|].
           ++ by rewrite lookup_insert_eq, HPp.
           ++ by rewrite lookup_insert_ne.
        -- split; [by rewrite delete_insert_eq|]. unfold unlink_proc. rewrite Ep, Hptr. apply map_eq. intros q.
           destruct (decide (q = p)) as [->|]; [by rewrite lookup_insert_eq, lookup_alter_eq, HPp|].
           by rewrite lookup_insert_ne, lookup_alter_ne.
      * apply HQ; cbn; by (split || done).
  - rewrite (bool_decide_false (is_Some None)) in HQ by (intros [? ?]; done). cbn [andb negb] in HQ.
    apply wp_when; intros Hu; rewrite Hu in HQ.
    + wp_steps. eapply wp_get_obj; [by cbn; rewrite lookup_insert_eq|]. wp_steps. apply HQ; cbn; try done.
      split; [by rewrite delete_insert_eq|]. unfold unlink_proc. by rewrite Ep.
    + apply HQ; cbn; by (split || done).
Qed.

(** The node a decrement leaves, or its absence, keeps the invariant. *)
Lemma dies_refs_inv ps ns rs n N N' strong : refs_inv ps (<[n := N']> ns) rs -> n_refs N' = n_refs N ->
  n_proc N' = n_proc N -> n_ptr N' = n_ptr N -> dies N' strong = true ->
  refs_inv (unlink_proc N ps) (delete n ns) rs.
Proof.
  intros H F1 F2 F3 Hd. unfold dies in Hd.
  assert (Er : n_refs N' = []).
  { apply andb_true_iff in Hd as [_ Hd]. apply andb_true_iff in Hd as [Hd _]. apply andb_true_iff in Hd as [Hd _].
    by apply bool_decide_eq_true in Hd. }
  assert (EN : <[n := N']> ns !! n = Some N') by apply lookup_insert_eq.
  rewrite <- (delete_insert_eq ns n N'). unfold unlink_proc. rewrite <- F2. destruct (n_proc N') as [p|] eqn:Ep.
  - destruct (ri_owner _ _ _ H n N' p EN Ep) as (P & HP & _).
    assert (alter (fun P => set_p_nodes P (delete (n_ptr N) (p_nodes P))) p ps =
      <[p := set_p_nodes P (delete (n_ptr N) (p_nodes P))]> ps) as ->.
    { apply map_eq. intros q. destruct (decide (q = p)) as [->|]; [by rewrite lookup_alter_eq, lookup_insert_eq, HP|].
      by rewrite lookup_alter_ne, lookup_insert_ne. }
    rewrite <- F3. by apply (refs_inv_unlink_node _ _ _ n N' p P).
  - apply (refs_inv_del_node ps _ rs n N'); [done..|]. intros p P ptr HP E.
    destruct (nodes_of_one _ _ _ n N' p P ptr H EN HP E). congruence.
Qed.

Lemma owner_known s n N p : refs_inv (procs s) (nodes s) (refs s) -> nodes s !! n = Some N -> n_proc N = Some p ->
  is_Some (procs s !! p).
Proof. intros H EN Ep. destruct (ri_owner _ _ _ H n N p EN Ep) as (P & HP & _). eauto. Qed.

(** Dropping a hold that is not a reference's. *)
Lemma dec_node_local n strong internal s N (Q : unit -> kstate -> Prop) : objects_inv s -> nodes s !! n = Some N ->
  strong && internal = false ->
  (forall s', objects_inv s' -> frame s s' -> refs s' = refs s -> deaths s' = deaths s -> ticket s' = ticket s -> Q tt s') ->
  wp (binder_dec_node n strong internal) Q s.
Proof.
  intros [Hi Hf1 Hf2 Hd Hdi] EN Hsi HQ. apply (dec_node_wp n strong internal s N); [done| |].
  { intros p Hp. by apply (owner_known s n N). }
  intros s' Fr Er Ed Et H. destruct (dec_counts_same N strong internal) as (F1 & F2 & F3 & F4).
  assert (Hi' : refs_inv (procs s) (<[n := dec_counts N strong internal]> (nodes s)) (refs s)).
  { apply (refs_inv_node _ _ _ n N); auto. }
  apply HQ; try done. destruct (dies _ strong) eqn:E; destruct H as [En Ep]; split; rewrite ?Er, ?Ed, ?Et, ?En, ?Ep; try done.
  - by apply (dies_refs_inv _ _ _ n N (dec_counts N strong internal) strong).
  - intros x Hx. rewrite lookup_delete_None. right. by apply Hf1.
  - intros x Hx. destruct (decide (x = n)) as [->|]; [by rewrite Hf1 in EN|]. rewrite lookup_insert_ne by done. by apply Hf1.
Qed.

(** ** [binder_delete_ref] *)

(** The first decrement: the reference is still on the list, so the node stays. *)
Lemma drop_strong_wp n s N (c : bool) (Q : unit -> kstate -> Prop) : nodes s !! n = Some N -> n_refs N ≠ [] ->
  (forall p, n_proc N = Some p -> is_Some (procs s !! p)) ->
  (c = true -> 1 <= n_internal_strong_refs N < 2 ^ 31) ->
  (forall s' N1, frame s s' -> refs s' = refs s -> deaths s' = deaths s -> ticket s' = ticket s -> procs s' = procs s ->
    nodes s' = <[n := N1]> (nodes s) -> n_refs N1 = n_refs N -> n_proc N1 = n_proc N -> n_ptr N1 = n_ptr N ->
    n_internal_strong_refs N1 = n_internal_strong_refs N - (if c then 1 else 0) -> Q tt s') ->
  wp (when c (binder_dec_node n true true)) Q s.
Proof.
  intros EN Er HP Hx HQ. destruct c; cbn [when].
  - apply (dec_node_wp n true true s N); [done..|].
    intros s' Fr E1 E2 E3 H. specialize (Hx eq_refl).
    unfold dies in H. cbn [dec_counts n_refs set_n_internal_strong_refs] in H.
    rewrite (bool_decide_false (n_refs N = [])) in H by done. cbn [andb] in H. rewrite andb_false_r in H. destruct H as [H1 H2].
    apply (HQ s' (dec_counts N true true)); try done. cbn. unfold decr. rewrite s32_small by lia. done.
  - apply (HQ s N); first [done|apply frame_refl|by rewrite insert_id|lia].
Qed.

Definition gone r R s s' : Prop := refs s' = delete r (refs s) /\ ticket s' = ticket s /\
  deaths s' = match r_death R with Some d => delete d (deaths s) | None => deaths s end.

Lemma strong1_eq rs r R : rs !! r = Some R -> strong1 rs r = if r_strong R =? 0 then 0 else 1.
Proof. intros E. unfold strong1. by rewrite E. Qed.

Lemma internal_bounds ps ns rs n N r R : refs_inv ps ns rs -> Z.of_nat (size rs) < 2 ^ 31 -> ns !! n = Some N ->
  rs !! r = Some R -> r_node R = n ->
  r ∈ n_refs N /\ (r_strong R ≠ 0 -> 1 <= n_internal_strong_refs N) /\ 0 <= n_internal_strong_refs N < 2 ^ 31.
Proof.
  intros H Hs EN ER En. destruct (ri_hlist _ _ _ H n N EN) as [Hnd Hin].
  assert (Hr : r ∈ n_refs N) by (apply Hin; eauto). split; [done|].
  rewrite (ri_strong _ _ _ H n N EN). pose proof (Zsum_strong_bounds rs (n_refs N)). pose proof (length_n_refs _ _ _ _ _ H EN).
  split; [|lia]. intros Hst. apply list_elem_of_split in Hr as (l1 & l2 & ->). rewrite Zsum_app. cbn [Zsum].
  rewrite (strong1_eq rs r R ER), (proj2 (Z.eqb_neq _ 0)) by done.
  pose proof (Zsum_strong_bounds rs l1). pose proof (Zsum_strong_bounds rs l2). lia.
Qed.

(** The end of a deletion: the death notification and the reference itself. *)
Lemma delete_ref_end r R s s2 : objects_inv s -> refs s !! r = Some R ->
  refs s2 = refs s -> deaths s2 = deaths s -> ticket s2 = ticket s -> frame s s2 ->
  refs_inv (procs s2) (nodes s2) (delete r (refs s)) -> fresh_after (ticket s) (nodes s2) ->
  wp (_ ← match r_death R with
          | None => mret tt
          | Some d => _ ← list_del_work (WDeath d); _ ← free_death d; binder_stats_deleted BINDER_STAT_DEATH
          end;
      _ ← free_ref r; binder_stats_deleted BINDER_STAT_REF)
    (fun _ s' => objects_inv s' /\ frame s s' /\ gone r R s s') s2.
Proof.
  intros Hi ER E1 E2 E3 Fr H Hn. pose proof Hi as [Hri Hf1 Hf2 Hd Hdi].
  assert (Hend : forall s', procs s' = procs s2 -> nodes s' = nodes s2 -> refs s' = delete r (refs s) ->
    ticket s' = ticket s -> deaths s' = match r_death R with Some d => delete d (deaths s) | None => deaths s end ->
    frame s2 s' -> objects_inv s' /\ frame s s' /\ gone r R s s').
  { intros s' G1 G2 G3 G4 G5 G6. split_and!; [|by eapply frame_trans|by split].
    split; rewrite ?G1, ?G2, ?G3, ?G4, ?G5; try done.
    - intros x Hx. rewrite lookup_delete_None. right. by apply Hf2.
    - intros q Q d. rewrite lookup_delete_Some. intros [Hq HQ] HdQ.
      destruct (Hd q Q d HQ HdQ) as [D HD]. destruct (r_death R) as [d'|] eqn:ErR; [|eauto].
      rewrite lookup_delete_ne; [eauto|]. intros ->. apply Hq. by eapply Hdi.
    - intros r1 r2 R1 R2 d. rewrite !lookup_delete_Some. intros [_ ?] [_ ?]. by apply Hdi. }
  apply wp_bind. destruct (r_death R) as [d|] eqn:Edth.
  - destruct (Hd r R d ER Edth) as [D HD]. wp_steps. eapply wp_get_obj; [cbn; by rewrite E2|]. wp_steps.
    eapply wp_get_obj; [cbn; by rewrite E1|]. wp_steps. apply Hend; cbn; first [done|by rewrite E1|by rewrite E2|by split].
  - wp_steps. eapply wp_get_obj; [cbn; by rewrite E1|]. wp_steps. apply Hend; cbn; first [done|by rewrite E1|by split].
Qed.

Lemma delete_ref_wp r s R : objects_inv s -> Z.of_nat (size (refs s)) < 2 ^ 31 -> refs s !! r = Some R ->
  wp (binder_delete_ref r) (fun _ s' => objects_inv s' /\ frame s s' /\ gone r R s s') s.
Proof.
  intros Hi Hsz ER. pose proof Hi as [Hri Hf1 Hf2 Hd Hdi].
  destruct (ri_ref _ _ _ Hri r R ER) as (_ & [N EN] & P & EP & _).
  destruct (internal_bounds _ _ _ _ N r R Hri Hsz EN ER eq_refl) as (Hr & Hst & Hint).
  unfold binder_delete_ref. wp_steps. eapply wp_get_obj; [by cbn; rewrite lookup_insert_eq|]. wp_steps. cbn [procs set_procs].
  rewrite insert_insert_eq. set (P' := set_p_refs_by_node _ _).
  set (s1 := set_procs (set_procs s _) _).
  assert (F1 : frame s s1) by (apply (frame_put_proc s (r_proc R) P P'); done).
  assert (H1 : procs s1 = <[r_proc R := P']> (procs s)) by done.
  assert (Hown : forall p, n_proc N = Some p -> is_Some (procs s1 !! p)).
  { intros p Hp. destruct (owner_known s _ N p Hri EN Hp) as [Q HQ]. rewrite H1.
    destruct (decide (p = r_proc R)) as [->|]; [rewrite lookup_insert_eq|rewrite lookup_insert_ne by done]; eauto. }
  apply (drop_strong_wp (r_node R) s1 N); [done|by intros Hnil; rewrite Hnil in Hr; apply elem_of_nil in Hr|done| |].
  { intros E%negb_true_iff%Z.eqb_neq. auto with lia. }
  intros s2 N1 F2 G1 G2 G3 G4 G5 G6 G7 G8 G9. wp_steps. eapply wp_get_obj; [rewrite G5; apply lookup_insert_eq|]. wp_steps.
  set (N2 := set_n_refs N1 _). set (s3 := set_nodes s2 _).
  assert (H3 : nodes s3 = <[r_node R := N2]> (nodes s)) by (cbn; rewrite G5, insert_insert_eq; done).
  assert (Hinv : refs_inv (<[r_proc R := P']> (procs s)) (<[r_node R := N2]> (nodes s)) (delete r (refs s))).
  { apply (refs_inv_del_ref _ _ _ r R P P' N N2); try done; cbn; [by rewrite G6|].
    rewrite G9, (strong1_eq _ r R ER). by destruct (r_strong R =? 0). }
  apply (dec_node_wp (r_node R) false true s3 N2); [by rewrite H3, lookup_insert_eq|cbn; rewrite G7, G4; done|].
  intros s4 F4 K1 K2 K3 K4. change (dec_counts N2 false true) with N2 in K4.
  apply (delete_ref_end r R s s4 Hi ER).
  - by rewrite K1.
  - by rewrite K2.
  - by rewrite K3.
  - apply (frame_trans s s1 s4 F1), (frame_trans s1 s3 s4); [|done]. apply (frame_trans s1 s2 s3); [done|by split].
  - destruct (dies N2 false) eqn:Ed; destruct K4 as [-> ->].
    + change (procs s3) with (procs s2). rewrite H3, G4, H1.
      rewrite delete_insert_eq. by apply (dies_refs_inv _ _ _ _ N2 N2 false).
    + change (procs s3) with (procs s2). by rewrite H3, insert_insert_eq, G4, H1.
  - intros x Hx. destruct (dies N2 false); destruct K4 as [-> _]; rewrite H3.
    + rewrite delete_insert_eq, lookup_delete_None. right. by apply Hf1.
    + rewrite insert_insert_eq. rewrite lookup_insert_ne; [by apply Hf1|]. intros <-. by rewrite Hf1 in EN.
Qed.

(** ** Counting a reference *)
Definition count_of (strong : bool) R : Z := if strong then r_strong R else r_weak R.
Definition with_count (strong : bool) (x : Z) R : binder_ref := if strong then set_r_strong R x else set_r_weak R x.

Lemma in_list_nonempty {A} (x : A) l : x ∈ l -> l ≠ [].
Proof. intros H ->. by apply elem_of_nil in H. Qed.

(** A state whose reference [r] has another count and whose node follows. *)
Lemma objects_inv_count s s' r R strong x N N' : objects_inv s -> refs s !! r = Some R -> nodes s !! r_node R = Some N ->
  0 <= x < 2 ^ 31 -> procs s' = procs s -> nodes s' = <[r_node R := N']> (nodes s) ->
  refs s' = <[r := with_count strong x R]> (refs s) -> deaths s' = deaths s -> ticket s' = ticket s ->
  n_refs N' = n_refs N -> n_proc N' = n_proc N -> n_ptr N' = n_ptr N ->
  n_internal_strong_refs N' - n_internal_strong_refs N =
    (if strong then (if x =? 0 then 0 else 1) - (if r_strong R =? 0 then 0 else 1) else 0) -> objects_inv s'.
Proof.
  intros [Hri Hf1 Hf2 Hd Hdi] ER EN Hx E1 E2 E3 E4 E5 F1 F2 F3 F4. split; rewrite ?E1, ?E2, ?E3, ?E4, ?E5.
  - destruct (ri_ref _ _ _ Hri r R ER) as ((C1 & C2 & C3) & _).
    apply (refs_inv_ref _ _ _ r R _ N N'); try done; [by destruct strong..|destruct strong; unfold counts_ok; cbn; lia|].
    rewrite (strong1_eq _ r R ER), (strong1_eq _ r (with_count strong x R)) by apply lookup_insert_eq.
    rewrite F4. destruct strong; cbn; lia.
  - intros y Hy. destruct (decide (y = r_node R)) as [->|]; [by rewrite Hf1 in EN|]. rewrite lookup_insert_ne by done. by apply Hf1.
  - intros y Hy. destruct (decide (y = r)) as [->|]; [by rewrite Hf2 in ER|]. rewrite lookup_insert_ne by done. by apply Hf2.
  - intros q Q d. destruct (decide (q = r)) as [->|]; [|rewrite lookup_insert_ne by done; apply Hd].
    rewrite lookup_insert_eq. intros [= <-] HdQ. apply (Hd r R d ER). by destruct strong.
  - assert (Hsame : forall q Q d, <[r := with_count strong x R]> (refs s) !! q = Some Q -> r_death Q = Some d ->
      exists Q0, refs s !! q = Some Q0 /\ r_death Q0 = Some d).
    { intros q Q d. destruct (decide (q = r)) as [->|]; [|rewrite lookup_insert_ne by done; eauto].
      rewrite lookup_insert_eq. intros [= <-] HdQ. exists R. split; [done|]. by destruct strong. }
    intros r1 r2 R1 R2 d H1 H2 D1 D2. destruct (Hsame _ _ _ H1 D1) as (Q1 & ? & ?). destruct (Hsame _ _ _ H2 D2) as (Q2 & ? & ?). eauto.
Qed.

(** What is left of the reference after a decrement. *)
Definition decremented strong R : binder_ref := with_count strong (count_of strong R - 1) R.
Definition uncounted R : bool := (r_strong R =? 0) && (r_weak R =? 0).

Lemma dec_ref_wp r strong s R : objects_inv s -> Z.of_nat (size (refs s)) < 2 ^ 31 -> refs s !! r = Some R ->
  count_of strong R ≠ 0 ->
  wp (binder_dec_ref r strong) (fun ret s' => ret = 0 /\ objects_inv s' /\ frame s s' /\
    if uncounted (decremented strong R) then gone r R s s'
    else refs s' = <[r := decremented strong R]> (refs s) /\ deaths s' = deaths s /\ ticket s' = ticket s) s.
Proof.
  intros Hi Hsz ER Hc. pose proof Hi as [Hri _ _ _ _].
  destruct (ri_ref _ _ _ Hri r R ER) as ((C1 & C2 & C3) & [N EN] & _).
  destruct (internal_bounds _ _ _ _ N r R Hri Hsz EN ER eq_refl) as (Hr & Hst & Hint).
  unfold binder_dec_ref. wp_steps. change (if strong then r_strong R else r_weak R) with (count_of strong R).
  rewrite (proj2 (Z.eqb_neq _ 0)) by done. wp_steps.
  assert (Hx : 0 <= count_of strong R - 1 < 2 ^ 31) by (destruct strong; cbn in *; lia).
  assert (Hsz' : forall s' : kstate, refs s' = <[r := decremented strong R]> (refs s) -> Z.of_nat (size (refs s')) < 2 ^ 31).
  { intros s' ->. rewrite map_size_insert_Some; eauto. }
  assert (Hmid : forall s', objects_inv s' -> frame s s' -> refs s' = <[r := decremented strong R]> (refs s) ->
    deaths s' = deaths s -> ticket s' = ticket s ->
    wp (ref ← get_ref r; _ ← when ((r_strong ref =? 0) && (r_weak ref =? 0)) (binder_delete_ref r); mret 0)
      (fun ret s' => ret = 0 /\ objects_inv s' /\ frame s s' /\
        if uncounted (decremented strong R) then gone r R s s'
        else refs s' = <[r := decremented strong R]> (refs s) /\ deaths s' = deaths s /\ ticket s' = ticket s) s').
  { intros s' Hi' Fr E1 E2 E3. assert (ER' : refs s' !! r = Some (decremented strong R)) by (rewrite E1; apply lookup_insert_eq).
    wp_steps. fold (uncounted (decremented strong R)). apply wp_when; intros Eu; rewrite Eu.
    - eapply wp_mono; [apply (delete_ref_wp r s' _ Hi' (Hsz' s' E1) ER')|]. intros _ s2 (Hi2 & F2 & G1 & G2 & G3). wp_steps.
      split_and!; [done|done|by eapply frame_trans|]. split; [by rewrite G1, E1, delete_insert_eq|]. split; [by rewrite G2|].
      rewrite G3, E2. by destruct strong.
    - by wp_steps. }
  destruct strong; cbn [count_of] in *; wp_steps; unfold decr; rewrite s32_small by lia.
  - set (s1 := set_refs s _).
    apply (drop_strong_wp (r_node R) s1 N); [done|by eapply in_list_nonempty|intros p Hp; by apply (owner_known s (r_node R) N p)| |].
    { intros _. auto with lia. }
    intros s2 N1 F1 G1 G2 G3 G4 G5 G6 G7 G8 G9. apply Hmid; [|by apply (frame_trans s s1)|done..].
    apply (objects_inv_count s s2 r R true (r_strong R - 1) N N1); try done.
    rewrite G9, (proj2 (Z.eqb_neq (r_strong R) 0)) by done. destruct (r_strong R - 1 =? 0); lia.
  - set (s1 := set_refs s _). refine (wp_bind_inv _ _ _ _ (Hmid s1 _ _ _ _ _)); [|by split|done..].
    apply (objects_inv_count s s1 r R false (r_weak R - 1) N N); try done; [by rewrite insert_id|lia].
Qed.

(** ** [binder_inc_node] and [binder_inc_ref] *)
Lemma frame_lists s l : frame s (set_lists s l).
Proof. by split. Qed.

Definition same_node N N' : Prop := n_refs N' = n_refs N /\ n_proc N' = n_proc N /\ n_ptr N' = n_ptr N.

Lemma inc_node_wp n strong internal tl s N : nodes s !! n = Some N ->
  (strong && internal = true -> 0 <= n_internal_strong_refs N < 2 ^ 31 - 1) ->
  wp (binder_inc_node n strong internal tl) (fun ret s' => frame s s' /\ refs s' = refs s /\ deaths s' = deaths s /\
    ticket s' = ticket s /\ procs s' = procs s /\
    exists N', nodes s' = <[n := N']> (nodes s) /\ same_node N N' /\
      (ret = 0 /\ n_internal_strong_refs N' = n_internal_strong_refs N + (if strong && internal then 1 else 0) \/
       ret = - EINVAL /\ tl = None /\ n_internal_strong_refs N' = n_internal_strong_refs N)) s.
Proof.
  intros EN Hb. assert (Hid : nodes s = <[n := N]> (nodes s)) by by rewrite insert_id.
  unfold binder_inc_node. wp_steps. destruct strong.
  - wp_steps. destruct (internal && inc_strong_invalid n N tl (context_mgr_node s)) eqn:E.
    + wp_steps. split_and!; try done. exists N. split_and!; try done. right. split_and!; try done.
      apply andb_true_iff in E as [_ E]. unfold inc_strong_invalid in E.
      apply andb_true_iff in E as [E _]. apply andb_true_iff in E as [E _]. by apply bool_decide_eq_true in E.
    + set (N' := if internal then _ else _). assert (HN' : same_node N N' /\
        n_internal_strong_refs N' = n_internal_strong_refs N + (if true && internal then 1 else 0)).
      { unfold N'. destruct internal; cbn; [|by split; [|lia]]. split; [done|]. unfold incr. specialize (Hb eq_refl). by rewrite s32_small by lia. }
      wp_steps. destruct tl as [h|].
      * apply wp_when; intros _; wp_steps; (split_and!; [by split|done..|]); exists N'; naive_solver.
      * wp_steps. split_and!; [by split|done..|]. exists N'. naive_solver.
  - set (N' := if internal then N else _). assert (HN' : same_node N N' /\ n_internal_strong_refs N' = n_internal_strong_refs N + 0).
    { unfold N'. destruct internal; cbn; split; try done; lia. }
    wp_steps. cbn [andb]. destruct (negb (n_has_weak_ref N) && _).
    + destruct tl as [h|]; wp_steps; (split_and!; [by split|done..|]); exists N'; (split_and!; [done|apply HN'|]);
        [left|right]; split; try done; [apply HN'|split; [done|]]. destruct HN' as [_ ->]. lia.
    + wp_steps. split_and!; [by split|done..|]. exists N'. split_and!; [done|apply HN'|]. left. split; [done|]. apply HN'.
Qed.

Lemma inc_ref_wp r strong tl s R : objects_inv s -> Z.of_nat (size (refs s)) < 2 ^ 31 -> refs s !! r = Some R ->
  count_of strong R < 2 ^ 31 - 1 ->
  wp (binder_inc_ref r strong tl) (fun ret s' => objects_inv s' /\ frame s s' /\ deaths s' = deaths s /\ ticket s' = ticket s /\
    (ret = 0 /\ refs s' = <[r := with_count strong (count_of strong R + 1) R]> (refs s) \/
     ret = - EINVAL /\ tl = None /\ count_of strong R = 0 /\ refs s' = refs s)) s.
Proof.
  intros Hi Hsz ER Hc. pose proof Hi as [Hri _ _ _ _].
  destruct (ri_ref _ _ _ Hri r R ER) as ((C1 & C2 & C3) & [N EN] & _).
  destruct (internal_bounds _ _ _ _ N r R Hri Hsz EN ER eq_refl) as (Hr & Hst & Hint).
  assert (Hlt : r_strong R = 0 -> n_internal_strong_refs N < 2 ^ 31 - 1).
  { intros Hz. rewrite (ri_strong _ _ _ Hri _ N EN) in *. apply list_elem_of_split in Hr as (l1 & l2 & El).
    pose proof (length_n_refs _ _ _ _ N Hri EN) as Hl. rewrite El in *. rewrite Zsum_app. cbn [Zsum].
    rewrite (strong1_eq _ r R ER), Hz. rewrite length_app in Hl. cbn in Hl |- *.
    pose proof (Zsum_strong_bounds (refs s) l1). pose proof (Zsum_strong_bounds (refs s) l2). lia. }
  assert (Hx : 0 <= count_of strong R + 1 < 2 ^ 31) by (destruct strong; cbn in *; lia).
  (* with the node counted, the reference is counted *)
  assert (Hend : forall s1 N1, frame s s1 -> refs s1 = refs s -> deaths s1 = deaths s -> ticket s1 = ticket s ->
    procs s1 = procs s -> nodes s1 = <[r_node R := N1]> (nodes s) -> same_node N N1 ->
    n_internal_strong_refs N1 = n_internal_strong_refs N + (if strong && (r_strong R =? 0) then 1 else 0) ->
    let s2 := set_refs s1 (<[r := with_count strong (count_of strong R + 1) R]> (refs s1)) in
    objects_inv s2 /\ frame s s2 /\ deaths s2 = deaths s /\ ticket s2 = ticket s /\
      (0 = 0 /\ refs s2 = <[r := with_count strong (count_of strong R + 1) R]> (refs s) \/
       0 = - EINVAL /\ tl = None /\ count_of strong R = 0 /\ refs s2 = refs s)).
  { intros s1 N1 F1 G1 G2 G3 G4 G5 (G6 & G7 & G8) G9 s2. split_and!; [|by apply (frame_trans s s1)|done|done|left; cbn; by rewrite G1].
    apply (objects_inv_count s s2 r R strong (count_of strong R + 1) N N1); try done; cbn; [by rewrite G1|].
    rewrite G9. destruct strong; cbn in *; [|lia].
    rewrite (proj2 (Z.eqb_neq (r_strong R + 1) 0)) by lia. destruct (r_strong R =? 0); lia. }
  unfold binder_inc_ref. wp_steps. destruct strong; cbn [count_of with_count andb] in *; wp_steps.
  - destruct (Z.eqb_spec (r_strong R) 0) as [Hz|Hz].
    + eapply wp_mono; [apply (inc_node_wp _ true true tl s N EN); intros _; specialize (Hlt Hz); lia|].
      intros ret s1 (F1 & G1 & G2 & G3 & G4 & N1 & G5 & G6 & [[-> G7]|(-> & -> & G7)]); cbn [Z.eqb negb].
      * wp_steps. eapply wp_get_obj; [by rewrite G1|]. wp_steps. unfold incr. rewrite s32_small by lia. by apply (Hend s1 N1).
      * wp_steps. split_and!; try done; [|right; by rewrite G1].
        destruct G6 as (Ga & Gb & Gc). apply (objects_inv_count s s1 r R true (r_strong R) N N1);
          first [done|rewrite G1, insert_id; [done|by destruct R]|lia].
    + wp_steps. cbn [Z.eqb negb]. wp_steps. unfold incr. rewrite s32_small by lia.
      apply (Hend s N); first [done|apply frame_refl|by rewrite insert_id|lia].
  - destruct (Z.eqb_spec (r_weak R) 0) as [Hz|Hz].
    + eapply wp_mono; [by apply (inc_node_wp _ false true tl s N EN)|].
      intros ret s1 (F1 & G1 & G2 & G3 & G4 & N1 & G5 & G6 & [[-> G7]|(-> & -> & G7)]); cbn [Z.eqb negb].
      * wp_steps. eapply wp_get_obj; [by rewrite G1|]. wp_steps. unfold incr. rewrite s32_small by lia. by apply (Hend s1 N1).
      * wp_steps. split_and!; try done; [|right; by rewrite G1].
        destruct G6 as (Ga & Gb & Gc). apply (objects_inv_count s s1 r R false (r_weak R) N N1);
          first [done|rewrite G1, insert_id; [done|by destruct R]|lia].
    + wp_steps. cbn [Z.eqb negb]. wp_steps. unfold incr. rewrite s32_small by lia.
      apply (Hend s N); first [done|apply frame_refl|by rewrite insert_id|lia].
Qed.

(** ** [binder_get_ref_for_node] *)
Lemma keys_elem {A} (m : gmap Z A) k : k ∈ keys m <-> is_Some (m !! k).
Proof.
  unfold keys. rewrite merge_sort_Permutation, list_elem_of_fmap. split.
  - intros ([k' a] & -> & H). apply elem_of_map_to_list in H. eauto.
  - intros [a H]. exists (k, a). split; [done|]. by apply elem_of_map_to_list.
Qed.

Lemma keys_sorted {A} (m : gmap Z A) : StronglySorted Z.lt (keys m).
Proof.
  assert (Hs : StronglySorted Z.le (keys m)) by (apply StronglySorted_merge_sort; [exact Z.le_trans|apply _]).
  assert (Hnd : NoDup (keys m)) by (unfold keys; rewrite merge_sort_Permutation; apply NoDup_fst_map_to_list).
  induction (keys m) as [|x l IH]; [constructor|].
  apply StronglySorted_cons_iff in Hs as [H1 H2]. apply NoDup_cons in Hnd as [H3 H4].
  apply StronglySorted_cons_iff. split; [|auto]. intros y Hy. specialize (H1 y Hy).
  assert (x ≠ y) by (intros ->; done). lia.
Qed.

Lemma keys_length {A} (m : gmap Z A) : length (keys m) = size m.
Proof. unfold keys. rewrite merge_sort_Permutation, length_fmap. apply length_map_to_list. Qed.

(** The loop ends at the least unused descriptor from where it starts. *)
Lemma pick_desc_spec (l : list Z) c : StronglySorted Z.lt l -> (forall d, d ∈ l -> 0 <= d) -> 0 <= c ->
  c <= 1 \/ (forall d, d ∈ l -> c <= d) -> c + Z.of_nat (length l) < 2 ^ 32 ->
  let x := pick_desc l c in c <= x <= c + Z.of_nat (length l) /\ (x ∉ l) /\ forall d, c <= d < x -> d ∈ l.
Proof.
  revert c. induction l as [|d l IH]; intros c Hs Hp Hc Hor Hlen; cbn [pick_desc].
  { cbn. split_and!; [lia|lia|by intros ?%elem_of_nil|lia]. }
  apply StronglySorted_cons_iff in Hs as [Hd Hs]. pose proof (Hp d ltac:(left)) as Hd0. cbn [length] in *.
  destruct (Z.ltb_spec c d) as [Hcd|Hcd].
  - split_and!; [lia|lia| |lia]. intros [->|Hin]%elem_of_cons; [lia|]. specialize (Hd c Hin). lia.
  - assert (Hnew : c <= d + 1 <= c + 1 /\ (forall e, c <= e < d + 1 -> e = d)).
    { destruct Hor as [Hor|Hor]; [|specialize (Hor d ltac:(left))]; split; try intros; lia. }
    destruct Hnew as [Hn1 Hn2]. rewrite u32_small by lia.
    destruct (IH (d + 1)) as (X1 & X2 & X3); [done|intros e He; apply Hp; by right|lia| |lia|].
    { right. intros e He. specialize (Hd e He). lia. }
    split_and!; [lia|lia| |].
    + intros [E|Hin]%elem_of_cons; [lia|done].
    + intros e He. destruct (decide (e < d + 1)) as [|]; [rewrite (Hn2 e) by lia; left|right; apply X3; lia].
Qed.

(** A process has no more references than there are. *)
Lemma size_by_desc ps ns rs p P : refs_inv ps ns rs -> ps !! p = Some P -> (size (p_refs_by_desc P) <= size rs)%nat.
Proof.
  intros H EP. assert (Hinj : forall d1 d2 r, p_refs_by_desc P !! d1 = Some r -> p_refs_by_desc P !! d2 = Some r -> d1 = d2).
  { intros d1 d2 r E1 E2. destruct (ri_desc _ _ _ H _ _ _ _ EP E1) as (R1 & ? & _ & <-).
    destruct (ri_desc _ _ _ H _ _ _ _ EP E2) as (R2 & ? & _ & <-). congruence. }
  rewrite <- (length_map_to_list (p_refs_by_desc P)), <- (length_fmap snd).
  assert (Hnd : NoDup (map_to_list (p_refs_by_desc P)).*2).
  { apply NoDup_fmap_2_strong; [|apply NoDup_map_to_list]. intros [d1 r1] [d2 r2] H1 H2 E. cbn in E. subst.
    apply elem_of_map_to_list in H1. apply elem_of_map_to_list in H2. by rewrite (Hinj d1 d2 r2). }
  rewrite <- (size_list_to_set (C := gset Z)), <- (size_dom rs) by done. apply subseteq_size.
  intros r. rewrite elem_of_list_to_set, list_elem_of_fmap. intros ([d r'] & -> & Hin). apply elem_of_map_to_list in Hin.
  apply elem_of_dom. destruct (ri_desc _ _ _ H _ _ _ _ EP Hin) as (R & ? & _). cbn. eauto.
Qed.

Context `{env : KernelEnv}.

(** The descriptor of a new reference to [n]: the least unused one, from 0 for the
    context manager's node and from 1 for all others. *)
Definition first_desc s n : Z := if decide (context_mgr_node s = Some n) then 0 else 1.
Definition least_unused P (start desc : Z) : Prop :=
  p_refs_by_desc P !! desc = None /\ start <= desc /\ forall d, start <= d < desc -> is_Some (p_refs_by_desc P !! d).

Lemma pick_desc_least s p P start : objects_inv s -> procs s !! p = Some P -> Z.of_nat (size (refs s)) < 2 ^ 31 ->
  0 <= start <= 1 -> let x := pick_desc (keys (p_refs_by_desc P)) start in least_unused P start x /\ 0 <= x < 2 ^ 32.
Proof.
  intros [Hri _ _ _ _] EP Hsz Hst. pose proof (size_by_desc _ _ _ p P Hri EP) as Hle.
  destruct (pick_desc_spec (keys (p_refs_by_desc P)) start) as (H1 & H2 & H3);
    [apply keys_sorted| |lia|left; lia|rewrite keys_length; lia|].
  { intros d [r E]%keys_elem. destruct (ri_desc _ _ _ Hri _ _ _ _ EP E) as (R & ER & _ & <-).
    destruct (ri_ref _ _ _ Hri r R ER) as ((_ & _ & C) & _). lia. }
  rewrite keys_length in H1. split; [|lia]. split_and!.
  - rewrite keys_elem in H2. by apply eq_None_not_Some.
  - lia.
  - intros d Hd. apply keys_elem. by apply H3.
Qed.

Definition new_ref s s' p P n r : Prop := refs s !! r = None /\ exists id desc, least_unused P (first_desc s n) desc /\
  refs s' = <[r := MkRef id p n desc 0 0 None]> (refs s).

Lemma get_ref_for_node_wp p n s P N : objects_inv s -> procs s !! p = Some P -> nodes s !! n = Some N ->
  Z.of_nat (size (refs s)) < 2 ^ 31 ->
  wp (binder_get_ref_for_node p n) (fun o s' => objects_inv s' /\ frame s s' /\ deaths s' = deaths s /\
    match p_refs_by_node P !! n, o with
    | Some r, _ => o = Some r /\ s' = s
    | None, Some r => new_ref s s' p P n r
    | None, None => kzalloc_ok (ticket s + 1) = false /\ refs s' = refs s
    end) s.
Proof.
  intros Hi EP EN Hsz. pose proof Hi as [Hri Hf1 Hf2 Hd Hdi]. unfold binder_get_ref_for_node. wp_steps.
  destruct (p_refs_by_node P !! n) as [r|] eqn:Ern; [wp_steps; split_and!; [done|apply frame_refl|done..]|].
  wp_steps. cbn [ticket set_ticket]. destruct (kzalloc_ok (ticket s + 1)) eqn:Ek.
  2: { wp_steps. split_and!; try done. split; cbn; try done; intros x Hx; [apply Hf1|apply Hf2]; lia. }
  set (r := ticket s + 1) in *. assert (Er : refs s !! r = None) by (apply Hf2; unfold r; lia).
  wp_steps. cbn [procs context_mgr_node set_procs set_last_id set_counters set_ticket].
  fold (first_desc s n).
  destruct (pick_desc_least s p P (first_desc s n) Hi EP Hsz) as [Hleast Hrange]; [unfold first_desc; case_decide; lia|].
  set (desc := pick_desc _ _) in *. apply wp_BUG_ON.
  { apply bool_decide_eq_false. rewrite (proj1 Hleast). by intros [? ?]. }
  wp_steps. eapply wp_get_obj; [cbn; apply lookup_insert_eq|]. wp_steps. cbn [procs set_procs]. rewrite insert_insert_eq.
  set (P' := set_p_refs_by_desc _ _). set (s' := set_nodes _ _).
  assert (Hp : procs s' = <[p := P']> (procs s)) by done.
  assert (Hn : nodes s' = <[n := set_n_refs N (r :: n_refs N)]> (nodes s)) by done.
  assert (exists id, refs s' = <[r := MkRef id p n desc 0 0 None]> (refs s)) as [id Hr] by (eexists; reflexivity).
  assert (Ht : ticket s' = ticket s + 1) by done.
  assert (Hdth : deaths s' = deaths s) by done.
  assert (Fr : frame s s').
  { split; try done. intros q. rewrite Hp. destruct (decide (q = p)) as [->|]; [by rewrite lookup_insert_eq, EP|by rewrite lookup_insert_ne]. }
  split_and!; [|done|done|].
  - split; rewrite ?Hp, ?Hn, ?Hr, ?Ht, ?Hdth.
    + by apply (refs_inv_new_ref _ _ _ p P P' n N r desc id); try apply Hleast.
    + intros x Hx. rewrite lookup_insert_ne; [apply Hf1; lia|]. intros <-. rewrite Hf1 in EN; [done|lia].
    + intros x Hx. rewrite lookup_insert_ne; [apply Hf2; lia|]. unfold r. lia.
    + intros q Q d. destruct (decide (q = r)) as [->|]; [by rewrite lookup_insert_eq; intros [= <-]|rewrite lookup_insert_ne by done; apply Hd].
    + intros r1 r2 R1 R2 d. destruct (decide (r1 = r)) as [->|]; [by rewrite lookup_insert_eq; intros [= <-]|].
      destruct (decide (r2 = r)) as [->|]; [rewrite (lookup_insert_eq _ r); by intros _ [= <-]|]. rewrite !lookup_insert_ne by done. apply Hdi.
  - split; [done|]. exists id, desc. done.
Qed.
End Spec.

(** ** Properties of nodes and references *)


Section Properties.
Context `{env : KernelEnv}.

(** Looking up the reference of a process to a node never faults (the [BUG()]
    on a used descriptor is not reached), keeps the trees, lists and counts
    consistent, returns the reference there is, and otherwise makes one whose
    descriptor is the least unused one: from 0 for the context manager's node, from 1
    for the others.  It fails only when memory is short. *)
Theorem binder_get_ref_for_node_correct p n s P N : objects_inv s -> procs s !! p = Some P -> nodes s !! n = Some N ->
  Z.of_nat (size (refs s)) < 2 ^ 31 ->
  exists o s', binder_get_ref_for_node p n s = Ok (o, s') /\ objects_inv s' /\ frame s s' /\
    match p_refs_by_node P !! n, o with
    | Some r, _ => o = Some r /\ s' = s
    | None, Some r => new_ref s s' p P n r
    | None, None => kzalloc_ok (ticket s + 1) = false /\ refs s' = refs s
    end.
Proof.
  intros Hi EP EN Hsz. destruct (proj1 (wp_run _ _ _) (get_ref_for_node_wp p n s P N Hi EP EN Hsz)) as (o & s' & E & H).
  exists o, s'. naive_solver.
Qed.

(** C11: [binder_dec_ref] on a count that is 0 is refused with [-EINVAL] and changes
    nothing; otherwise it never faults, takes one off that count, and deletes the
    reference, with its death notification, exactly when both counts have become 0.
    All invariants are kept: the strong count of the node stays the number of strong
    references to it, and a node that has gone was in no list and no tree. *)
Theorem binder_dec_ref_correct r (strong : bool) s R : objects_inv s -> Z.of_nat (size (refs s)) < 2 ^ 31 ->
  refs s !! r = Some R ->
  exists ret s', binder_dec_ref r strong s = Ok (ret, s') /\ objects_inv s' /\ frame s s' /\
    if count_of strong R =? 0 then ret = - EINVAL /\ s' = s
    else ret = 0 /\
      if uncounted (decremented strong R) then gone r R s s'
      else refs s' = <[r := decremented strong R]> (refs s) /\ deaths s' = deaths s.
Proof.
  intros Hi Hsz ER. destruct (Z.eqb_spec (count_of strong R) 0) as [Hz|Hz].
  - exists (- EINVAL), s. split_and!; [|done|apply frame_refl|done..].
    unfold binder_dec_ref, get_ref, get_obj, mbind, K_bind. rewrite ER.
    change (if strong then r_strong R else r_weak R) with (count_of strong R). by rewrite Hz.
  - destruct (proj1 (wp_run _ _ _) (dec_ref_wp r strong s R Hi Hsz ER Hz)) as (ret & s' & E & -> & Hi' & Fr & H).
    exists 0, s'. split_and!; try done. by destruct (uncounted _); [|destruct H as (? & ? & _)].
Qed.

(** [binder_inc_ref] below the limit of the counter never faults and adds one to
    the count, keeping all invariants; the one error, for a node that nobody could be
    told about, comes only when there is no list to queue the node on and the
    reference was not yet counted, and leaves the references as they were. *)
Theorem binder_inc_ref_correct r (strong : bool) tl s R : objects_inv s -> Z.of_nat (size (refs s)) < 2 ^ 31 ->
  refs s !! r = Some R -> count_of strong R < 2 ^ 31 - 1 ->
  exists ret s', binder_inc_ref r strong tl s = Ok (ret, s') /\ objects_inv s' /\ frame s s' /\
    (ret = 0 /\ refs s' = <[r := with_count strong (count_of strong R + 1) R]> (refs s) \/
     ret = - EINVAL /\ tl = None /\ count_of strong R = 0 /\ refs s' = refs s).
Proof.
  intros Hi Hsz ER Hc. destruct (proj1 (wp_run _ _ _) (inc_ref_wp r strong tl s R Hi Hsz ER Hc)) as (ret & s' & E & H).
  exists ret, s'. naive_solver.
Qed.
End Properties.

(** ** A concrete state *)
Section Witnesses.
(** Process 1 has the node 2; process 3 holds it by the reference 4, descriptor 1,
    strongly. *)
Definition ex_env : KernelEnv := {|
  kzalloc_ok := fun _ => true;
  page_answers := fun _ => Build_page_env (Some 7) (fun _ => true) (fun _ => 1) (fun _ => 0);
  security_binder_set_context_mgr := fun _ _ => 0;
  security_binder_transaction := fun _ _ _ => 0;
  security_binder_transfer_binder := fun _ _ _ => 0;
  security_binder_transfer_file := fun _ _ _ _ => 0;
  lock_task_sighand := fun _ _ => true;
  alloc_fd := fun _ _ => 5;
  can_nice := fun _ _ _ => true;
  rlimit_nice := fun _ _ => 0;
  task_euid := fun _ => 1000;
  task_tgid_nr := fun x => x;
  from_kuid := fun x => x
|}.
Definition ex_area : balloc := MkAlloc 0 0 0 None None [] ∅ Leaf Leaf 0 [].
Definition ex_proc1 : binder_proc := MkProc ∅ {[ 64 := 2 ]} ∅ ∅ 10 10 None 0 ex_area 0 0 0 0 0.
Definition ex_proc3 : binder_proc := MkProc ∅ ∅ {[ 1 := 4 ]} {[ 2 := 4 ]} 30 30 None 0 ex_area 0 0 0 0 0.
Definition ex_node : binder_node := MkNode 1 (Some 1) [4] 1 0 0 64 65 true false true false false false 0.
Definition ex_ref : binder_ref := MkRef 2 3 2 1 1 0 None.
Definition ex_log : transaction_log := MkLog 0 false (replicate 32 log_zero).
Definition ex_state : kstate :=
  MkK {[ 1 := ex_proc1; 3 := ex_proc3 ]} ∅ {[ 2 := ex_node ]} {[ 4 := ex_ref ]} ∅ ∅ ∅ ∅ None None 2 4 [1; 3] [] [] ∅ ∅
    (fun _ => 0) ex_log ex_log.

Lemma ex_procs p P : procs ex_state !! p = Some P -> p = 1 /\ P = ex_proc1 \/ p = 3 /\ P = ex_proc3.
Proof.
  cbn. rewrite lookup_insert_Some. intros [[<- <-]|[_ H]]; [by left|]. apply lookup_singleton_Some in H as [<- <-]. by right.
Qed.

(** The one entry of a concrete map, or none. *)
Ltac entry H :=
  unfold ex_state, ex_proc1, ex_proc3 in H; cbn in H;
  first [rewrite lookup_empty in H; discriminate H|apply lookup_singleton_Some in H as [<- <-]].

Lemma ex_state_inv : objects_inv ex_state.
Proof.
  assert (Hr : forall r R, refs ex_state !! r = Some R -> r = 4 /\ R = ex_ref) by (intros r R H; by entry H).
  assert (Hn : forall n N, nodes ex_state !! n = Some N -> n = 2 /\ N = ex_node) by (intros n N H; by entry H).
  split; [split| | | |].
  - intros p P d r [[-> ->]|[-> ->]]%ex_procs H; entry H. by exists ex_ref.
  - intros p P n r [[-> ->]|[-> ->]]%ex_procs H; entry H. by exists ex_ref.
  - intros r R [-> ->]%Hr. split; [done|]. split; [by exists ex_node|]. by exists ex_proc3.
  - intros n N [-> ->]%Hn. split; [apply NoDup_singleton|]. intros r. cbn [n_refs ex_node]. rewrite list_elem_of_singleton. split.
    + intros ->. by exists ex_ref.
    + intros (R & [-> ->]%Hr & _). done.
  - intros n N [-> ->]%Hn. done.
  - intros p P ptr n [[-> ->]|[-> ->]]%ex_procs H; entry H. by exists ex_node.
  - intros n N p [-> ->]%Hn [= <-]. by exists ex_proc1.
  - intros x Hx. apply lookup_singleton_None. cbn in Hx. lia.
  - intros x Hx. apply lookup_singleton_None. cbn in Hx. lia.
  - intros r R d [-> ->]%Hr. done.
  - intros r1 r2 R1 R2 d [-> ->]%Hr. done.
Qed.

Lemma binder_get_ref_for_node_correct_witness : exists o s',
  binder_get_ref_for_node (env := ex_env) 1 2 ex_state = Ok (o, s') /\ o = Some 5 /\ new_ref ex_state s' 1 ex_proc1 2 5.
Proof.
  destruct (binder_get_ref_for_node_correct (env := ex_env) 1 2 ex_state ex_proc1 ex_node ex_state_inv) as (o & s' & E & _ & _ & H);
    [reflexivity|reflexivity|done|].
  exists o, s'. split; [exact E|]. vm_compute in E. injection E as <- <-. split; [reflexivity|exact H].
Defined.

(** Dropping the last hold deletes the reference. *)
Lemma binder_dec_ref_correct_witness : exists s',
  binder_dec_ref 4 true ex_state = Ok (0, s') /\ objects_inv s' /\ refs s' = ∅.
Proof.
  destruct (binder_dec_ref_correct 4 true ex_state ex_ref ex_state_inv) as (ret & s' & E & Hi & _ & H); [done|reflexivity|].
  cbn in H. destruct H as [-> H]. change (gone 4 ex_ref ex_state s') in H. exists s'. split_and!; [exact E|exact Hi|apply H].
Defined.

Lemma binder_inc_ref_correct_witness : exists s',
  binder_inc_ref 4 true None ex_state = Ok (0, s') /\ objects_inv s' /\ refs s' = <[4 := MkRef 2 3 2 1 2 0 None]> (refs ex_state).
Proof.
  destruct (binder_inc_ref_correct 4 true None ex_state ex_ref ex_state_inv) as (ret & s' & E & Hi & _ & H); [done|reflexivity|done|].
  destruct H as [[-> H]|(_ & _ & H & _)]; [|done]. exists s'. split_and!; [exact E|exact Hi|exact H].
Defined.
End Witnesses.
