(* ===== verification/Keeps.v ===== *)
(** * What an operation leaves alone

    [keeps rel m]: whenever [m] returns, the states before and after are related by
    [rel], a preorder.  The tactic [keep] goes through the code of [m] and leaves the
    updates that are not known to respect [rel].  [no_hang m]: [m] never runs into a
    loop without end. *)
From S2P Require Import Prelude UserMem RbTree Alloc Protocol Kernel Refs Transact Send KernelWp.

Definition keeps {A} (rel : kstate -> kstate -> Prop) (m : K A) : Prop :=
  forall s a s', m s = Ok (a, s') -> rel s s'.

Create HintDb keeps.

Section Keeps.
Context (rel : kstate -> kstate -> Prop) `{!PreOrder rel}.

Lemma keeps_ret {A} (a : A) : keeps rel (mret a).
Proof. by intros s x s' [= _ <-]. Qed.
Lemma keeps_bind {A B} (m : K A) (f : A -> K B) : keeps rel m -> (forall a, keeps rel (f a)) -> keeps rel (m ≫= f).
Proof.
  intros Hm Hf s b s'. unfold mbind, K_bind. destruct (m s) as [[a s1]|] eqn:E; [|done]. intros E2.
  transitivity s1; [by eapply Hm|by eapply Hf].
Qed.
Lemma keeps_get {A} (f : kstate -> A) : keeps rel (get f).
Proof. by intros s x s' [= _ <-]. Qed.
Lemma keeps_get_obj {A} (m : kstate -> gmap Z A) p : keeps rel (get_obj m p).
Proof. intros s a s'. unfold get_obj. by destruct (m s !! p); [intros [= _ <-]|]. Qed.
Lemma keeps_klift {A} (m : res A) : keeps rel (klift m).
Proof. intros s a s'. unfold klift. by destruct m; [intros [= _ <-]|]. Qed.
Lemma keeps_BUG_ON c : keeps rel (BUG_ON c).
Proof. apply keeps_klift. Qed.
Lemma keeps_modify (f : kstate -> kstate) : (forall s, rel s (f s)) -> keeps rel (modify f).
Proof. by intros H s a s' [= _ <-]. Qed.
Lemma keeps_when c (m : K unit) : keeps rel m -> keeps rel (when c m).
Proof. destruct c; [done|intros _; apply keeps_ret]. Qed.

Lemma keeps_and_then {E A B} (m : stage E A) (f : A -> stage E B) :
  keeps rel m -> (forall a, keeps rel (f a)) -> keeps rel (and_then m f).
Proof. intros Hm Hf. apply keeps_bind; [done|]. intros [e|a]; [apply keeps_ret|apply Hf]. Qed.
Lemma keeps_does {E A} (m : K A) : keeps rel m -> keeps rel (does (E := E) m).
Proof. intros Hm. apply keeps_bind; [done|]. intros a. apply keeps_ret. Qed.
Lemma keeps_goes {E A} (a : A) : keeps rel (goes (E := E) a).
Proof. apply keeps_ret. Qed.
Lemma keeps_exits {E A} (e : E) : keeps rel (exits (A := A) e).
Proof. apply keeps_ret. Qed.
End Keeps.

(** One step through the code. *)
Ltac keep1 :=
  lazymatch goal with
  | |- forall _, _ => intros ?
  | |- keeps _ (mret _) => apply keeps_ret; apply _
  | |- keeps _ (_ ≫= _) => apply keeps_bind; [apply _| |]
  | |- keeps _ (get _) => apply keeps_get; apply _
  | |- keeps _ (get_obj _ _) => apply keeps_get_obj; apply _
  | |- keeps _ (klift _) => apply keeps_klift; apply _
  | |- keeps _ (BUG_ON _) => apply keeps_BUG_ON; apply _
  | |- keeps _ (when _ _) => apply keeps_when; [apply _|]
  | |- keeps _ (and_then _ _) => apply keeps_and_then; [apply _| |]
  | |- keeps _ (does _) => apply keeps_does; [apply _|]
  | |- keeps _ (goes _) => apply keeps_goes; apply _
  | |- keeps _ (exits _) => apply keeps_exits; apply _
  | |- keeps _ (if ?c then _ else _) => destruct c
  | |- keeps _ (match ?x with _ => _ end) => destruct x
  | |- keeps _ (let '(_, _) := ?x in _) => destruct x
  | |- keeps _ (get_node _) => apply keeps_get_obj; apply _
  | |- keeps _ (get_ref _) => apply keeps_get_obj; apply _
  | |- keeps _ (get_death _) => apply keeps_get_obj; apply _
  | |- keeps _ (get_proc _) => apply keeps_get_obj; apply _
  | |- keeps _ (get_thread _) => apply keeps_get_obj; apply _
  | |- keeps _ (get_txn _) => apply keeps_get_obj; apply _
  | |- keeps _ (mod_node _ _) => unfold mod_node
  | |- keeps _ (mod_ref _ _) => unfold mod_ref
  | |- keeps _ (mod_death _ _) => unfold mod_death
  | |- keeps _ (mod_proc _ _) => unfold mod_proc
  | |- keeps _ (mod_txn _ _) => unfold mod_txn
  | |- keeps _ (modify _) => apply keeps_modify; intros ?; try reflexivity
  end.
(** Through the code, with the lemmas of the database at the leaves. *)
Ltac keep := repeat first [solve [eauto with keeps nocore]|keep1; cbn beta zeta].
(** The goal [rel s s'] for a run [E] from [s] to [s']. *)
Ltac by_keep rel E :=
  match type of E with ?m _ = _ => let K := fresh in assert (keeps rel m) as K by keep; exact (K _ _ _ E) end.

(** What a run respects, from its equation. *)
Lemma keeps_run {A} rel (m : K A) (s s' : kstate) a : m s = Ok (a, s') -> keeps rel m -> rel s s'.
Proof. intros E H. by eapply H. Qed.
Ltac kept rel E H :=
  pose proof (keeps_run rel _ _ _ _ E) as H;
  let G := fresh in lazymatch type of H with ?P -> _ => assert P as G by keep end; specialize (H G); clear G.

(** ** Runs of stages *)
Lemma and_then_ok {E A B} (m : stage E A) (f : A -> stage E B) (s s' : kstate) x : and_then m f s = Ok (x, s') ->
  (exists e, m s = Ok (inl e, s') /\ x = inl e) \/ exists a s1, m s = Ok (inr a, s1) /\ f a s1 = Ok (x, s').
Proof.
  intros H. apply bind_ok in H as ([e|a] & s1 & Em & H); [|eauto]. apply ret_ok in H as [-> ->]. eauto.
Qed.
Lemma does_ok {E A} (m : K A) (s s' : kstate) (x : E + A) : does m s = Ok (x, s') -> exists a, x = inr a /\ m s = Ok (a, s').
Proof. intros H. apply bind_ok in H as (a & s1 & Em & H). apply ret_ok in H as [-> ->]. eauto. Qed.
Lemma does_then_ok {E A B} (m : K A) (f : A -> stage E B) (s s' : kstate) x : and_then (does m) f s = Ok (x, s') ->
  exists a s1, m s = Ok (a, s1) /\ f a s1 = Ok (x, s').
Proof.
  intros H. apply and_then_ok in H as [(e & H & _)|(a & s1 & H & H2)]; apply does_ok in H as (a' & [= ->] & H). eauto.
Qed.
(** One [does] of a run. *)
Ltac stage_inv H :=
  let a := fresh "a" in let s := fresh "s" in let E := fresh "E" in
  apply does_then_ok in H as (a & s & E & H); cbn beta zeta in H.

(** ** Loops that end *)
Definition no_hang {A} (m : K A) : Prop := forall s, m s ≠ Fault HANG.

Section NoHang.
Lemma no_hang_ret {A} (a : A) : no_hang (mret a).
Proof. done. Qed.
Lemma no_hang_bind {A B} (m : K A) (f : A -> K B) : no_hang m -> (forall a, no_hang (f a)) -> no_hang (m ≫= f).
Proof.
  intros Hm Hf s. unfold mbind, K_bind. destruct (m s) as [[a s']|e] eqn:E; [apply Hf|]. intros [= ->]. by apply (Hm s).
Qed.
Lemma no_hang_get {A} (f : kstate -> A) : no_hang (get f).
Proof. done. Qed.
Lemma no_hang_modify f : no_hang (modify f).
Proof. done. Qed.
Lemma no_hang_get_obj {A} (m : kstate -> gmap Z A) p : no_hang (get_obj m p).
Proof. intros s. unfold get_obj. by destruct (m s !! p). Qed.
Lemma no_hang_klift {A} (m : res A) : m ≠ Fault HANG -> no_hang (klift m).
Proof. intros H s. unfold klift. destruct m; [done|]. intros [= ->]. done. Qed.
Lemma no_hang_BUG_ON c : no_hang (BUG_ON c).
Proof. by destruct c. Qed.
Lemma no_hang_when c (m : K unit) : no_hang m -> no_hang (when c m).
Proof. by destruct c. Qed.
Lemma no_hang_and_then {E A B} (m : stage E A) (f : A -> stage E B) :
  no_hang m -> (forall a, no_hang (f a)) -> no_hang (and_then m f).
Proof. intros Hm Hf. apply no_hang_bind; [done|]. by intros [e|a]. Qed.
Lemma no_hang_does {E A} (m : K A) : no_hang m -> no_hang (does (E := E) m).
Proof. intros Hm. by apply no_hang_bind. Qed.
End NoHang.

Create HintDb no_hang.
(** Computations on the data of one process. *)
Lemma res_bind_no_hang {A B} (m : res A) (f : A -> res B) :
  m ≠ Fault HANG -> (forall a, f a ≠ Fault HANG) -> (m ≫= f) ≠ Fault HANG.
Proof. intros Hm Hf. destruct m as [a|e]; [apply Hf|]. intros [= ->]. done. Qed.
Lemma deref_no_hang {A} (o : option A) : deref o ≠ Fault HANG.
Proof. by destruct o. Qed.
Lemma bug_on_no_hang c : bug_on c ≠ Fault HANG.
Proof. by destruct c. Qed.
#[export] Hint Resolve deref_no_hang bug_on_no_hang : no_hang.
Ltac res_ends :=
  repeat first [solve [eauto with no_hang nocore]|apply res_bind_no_hang; [|intros ?]|discriminate|case_match].

Ltac no_hang1 :=
  lazymatch goal with
  | |- forall _, _ => intros ?
  | |- no_hang (_ ≫= _) => apply no_hang_bind
  | |- no_hang (get_obj _ _) => apply no_hang_get_obj
  | |- no_hang (klift (Fault _)) => apply no_hang_klift; discriminate
  | |- no_hang (klift (deref _)) => apply no_hang_klift; by destruct (_ : option _)
  | |- no_hang (BUG_ON _) => apply no_hang_BUG_ON
  | |- no_hang (when _ _) => apply no_hang_when
  | |- no_hang (and_then _ _) => apply no_hang_and_then
  | |- no_hang (does _) => apply no_hang_does
  | |- no_hang (if ?c then _ else _) => destruct c
  | |- no_hang (match ?x with _ => _ end) => destruct x
  | |- no_hang (let '(_, _) := ?x in _) => destruct x
  | |- no_hang (get_node _) => apply no_hang_get_obj
  | |- no_hang (get_ref _) => apply no_hang_get_obj
  | |- no_hang (get_death _) => apply no_hang_get_obj
  | |- no_hang (get_proc _) => apply no_hang_get_obj
  | |- no_hang (get_thread _) => apply no_hang_get_obj
  | |- no_hang (get_txn _) => apply no_hang_get_obj
  | |- no_hang (mod_node _ _) => unfold mod_node
  | |- no_hang (mod_ref _ _) => unfold mod_ref
  | |- no_hang (mod_death _ _) => unfold mod_death
  | |- no_hang (mod_proc _ _) => unfold mod_proc
  | |- no_hang (mod_thread _ _) => unfold mod_thread
  | |- no_hang (mod_txn _ _) => unfold mod_txn
  | |- no_hang _ => intros ?; discriminate
  end.
Ltac ends_here := repeat first [solve [eauto with no_hang nocore]|no_hang1; cbn beta zeta].

(** In a program that may fault, a bind hangs only where a part does. *)
Lemma bind_no_hang {A B} (m : K A) (f : A -> K B) s :
  no_hang m -> (forall a s1, m s = Ok (a, s1) -> f a s1 ≠ Fault HANG) -> (m ≫= f) s ≠ Fault HANG.
Proof.
  intros Hm Hf. unfold mbind, K_bind. destruct (m s) as [[a s1]|e] eqn:E; [by apply Hf|]. intros [= ->]. by apply (Hm s).
Qed.

Lemma bind_no_hang_at {A B} (m : K A) (f : A -> K B) s :
  m s ≠ Fault HANG -> (forall a s1, m s = Ok (a, s1) -> f a s1 ≠ Fault HANG) -> (m ≫= f) s ≠ Fault HANG.
Proof.
  intros Hm Hf. unfold mbind, K_bind. destruct (m s) as [[a s1]|e] eqn:E; [by apply Hf|]. intros [= ->]. done.
Qed.
