(* ===== verification/SendSpec.v ===== *)
(** * What a transaction does to threads and queues

    [LocalRel]: a relation on states that looks at nothing but the threads, the
    transactions, the buffer areas, the deferred list and the places of transactions
    and completions in the work lists.  Operations on nodes, references and files
    respect every such relation, those on buffers too if it does not look at areas
    ([NoAreas]).
    [quiet] is one: no transaction or completion is queued or taken from a queue, and
    no thread gets an error.  All of [binder_transaction] is quiet but its last steps. *)
From S2P Require Import Prelude UserMem RbTree Alloc Protocol Kernel Refs Transact Send KernelWp Keeps.

Implicit Types (p n r d t th b : Z) (s : kstate).

(** The transactions and completions of a list. *)
Definition is_send (w : work) : Prop := match w with WTransaction _ | WComplete _ => True | _ => False end.
#[export] Instance is_send_dec w : Decision (is_send w).
Proof. destruct w; cbn; apply _. Defined.
Definition sends h s : list work := filter is_send (list_of h s).
Definition error_of th s : option Z := th_return_error <$> threads s !! th.

Lemma list_of_del w h s : list_of h (set_lists s (list_del w <$> lists s)) = list_del w (list_of h s).
Proof. unfold list_of. cbn. rewrite lookup_fmap. by destruct (lists s !! h). Qed.
Lemma list_of_insert h' l h s : list_of h (set_lists s (<[h' := l]> (lists s))) = if decide (h = h') then l else list_of h s.
Proof. unfold list_of. cbn. case_decide as E; [subst; by rewrite lookup_insert_eq|by rewrite lookup_insert_ne by done]. Qed.

Lemma sends_list_del w (l : list work) : ~ is_send w -> filter is_send (list_del w l) = filter is_send l.
Proof.
  intros Hw. unfold list_del. induction l as [|x l IH]; [done|]. rewrite filter_cons. case_decide as E.
  - rewrite !filter_cons. by rewrite IH.
  - rewrite IH, filter_cons. subst x. by rewrite decide_False.
Qed.

(** The states agree on threads, transactions, work lists, areas and the deferred
    list; addresses are not given out again. *)
Record agree s s' : Prop := {
  agree_threads : threads s' = threads s;
  agree_txns : txns s' = txns s;
  agree_lists : lists s' = lists s;
  agree_areas : p_alloc <$> procs s' = p_alloc <$> procs s;
  agree_deferred : deferred_list s' = deferred_list s;
  agree_ticket : ticket s <= ticket s'
}.

Class LocalRel (rel : kstate -> kstate -> Prop) : Prop := {
  local_preorder :: PreOrder rel;
  local_agree s s' : agree s s' -> rel s s';
  local_del w s : ~ is_send w -> rel s (set_lists s (list_del w <$> lists s));
  local_add w h s : ~ is_send w -> rel s (set_lists s (<[h := list_of h s ++ [w]]> (lists s)))
}.
(** A relation that does not look at the processes at all. *)
Class NoAreas (rel : kstate -> kstate -> Prop) : Prop := {
  areas_local :: LocalRel rel;
  areas_procs s ps : rel s (set_procs s ps)
}.
#[export] Hint Extern 0 (LocalRel _) => typeclasses eauto : keeps.
#[export] Hint Extern 0 (NoAreas _) => typeclasses eauto : keeps.
#[export] Hint Extern 0 (~ is_send _) => cbn; tauto : keeps.

Section Local.
Context (rel : kstate -> kstate -> Prop) `{!LocalRel rel}.

Lemma keeps_list_del_work w : ~ is_send w -> keeps rel (list_del_work w).
Proof. intros Hw. apply keeps_modify. intros s. by apply local_del. Qed.
Lemma keeps_list_add_tail w h : ~ is_send w -> keeps rel (list_add_tail w h).
Proof. intros Hw. apply keeps_modify. intros s. by apply local_add. Qed.
Hint Resolve keeps_list_del_work keeps_list_add_tail : keeps.
(** Updates of other parts of the state. *)
Ltac elsewhere := apply local_agree; split; first [reflexivity|cbn; lia].
Hint Extern 1 (rel _ _) => elsewhere : keeps.

Lemma keeps_other (f : kstate -> kstate) : (forall s, agree s (f s)) -> keeps rel (modify f).
Proof. intros H. apply keeps_modify. intros s. by apply local_agree. Qed.
Ltac other_part := apply keeps_other; intros ?; split; first [reflexivity|cbn; lia].

Lemma keeps_put_node n v : keeps rel (put_node n v).
Proof. other_part. Qed.
Lemma keeps_put_ref r v : keeps rel (put_ref r v).
Proof. other_part. Qed.
Lemma keeps_put_death d v : keeps rel (put_death d v).
Proof. other_part. Qed.
(** A change of a process that leaves its area alone. *)
Lemma keeps_mod_proc p f : (forall P, p_alloc (f P) = p_alloc P) -> keeps rel (mod_proc p f).
Proof.
  intros H s x s' E. run_inv. apply local_agree. split; try done; cbn; try lia. rewrite fmap_insert, H.
  apply insert_id. rewrite lookup_fmap. match goal with H1 : procs s !! p = Some _ |- _ => by rewrite H1 end.
Qed.
Lemma keeps_bump c : keeps rel (bump c).
Proof. other_part. Qed.
Lemma keeps_put_content b c : keeps rel (put_content b c).
Proof. other_part. Qed.
Lemma keeps_new_ticket : keeps rel new_ticket.
Proof. apply keeps_bind; [apply _|other_part|]. intros _. apply keeps_get, _. Qed.
Lemma keeps_next_id : keeps rel next_id.
Proof. apply keeps_bind; [apply _|other_part|]. intros _. apply keeps_get, _. Qed.
Hint Resolve keeps_put_node keeps_put_ref keeps_put_death keeps_bump keeps_put_content
  keeps_new_ticket keeps_next_id : keeps.
Hint Extern 2 (keeps rel (mod_proc _ _)) => apply keeps_mod_proc; intros ?; repeat case_match; reflexivity : keeps.

Context {M : Type} `{uops : UserOps M}.
Context `{env : KernelEnv} `{rb : RbOps} `{jk : Junk}.

Ltac quietly := keep; try elsewhere.

Lemma keeps_stats ty : keeps rel (binder_stats_created ty) /\ keeps rel (binder_stats_deleted ty).
Proof. split; apply keeps_bump. Qed.
Lemma keeps_stats_created ty : keeps rel (binder_stats_created ty).
Proof. apply keeps_stats. Qed.
Lemma keeps_stats_deleted ty : keeps rel (binder_stats_deleted ty).
Proof. apply keeps_stats. Qed.
Lemma keeps_kzalloc : keeps rel kzalloc.
Proof. unfold kzalloc. quietly. Qed.
Hint Resolve keeps_stats_created keeps_stats_deleted keeps_kzalloc : keeps.

Lemma keeps_free_node n : keeps rel (free_node n).
Proof. unfold free_node. quietly. Qed.
Lemma keeps_free_ref r : keeps rel (free_ref r).
Proof. unfold free_ref. quietly. Qed.
Lemma keeps_free_death d : keeps rel (free_death d).
Proof. unfold free_death. quietly. Qed.
Hint Resolve keeps_free_node keeps_free_ref keeps_free_death : keeps.

Lemma keeps_set_nice cur nice : keeps rel (binder_set_nice cur nice).
Proof. unfold binder_set_nice, set_user_nice. quietly; case_match; elsewhere. Qed.
Lemma keeps_task_nice pid : keeps rel (task_nice pid).
Proof. unfold task_nice. quietly. Qed.
Lemma keeps_fget cur fd : keeps rel (fget cur fd).
Proof. unfold fget. quietly. Qed.
Lemma keeps_get_unused_fd P : keeps rel (task_get_unused_fd_flags P).
Proof. unfold task_get_unused_fd_flags. quietly. Qed.
Lemma keeps_fd_install P fd file : keeps rel (task_fd_install P fd file).
Proof. unfold task_fd_install. quietly. Qed.
Lemma keeps_close_fd P fd : keeps rel (task_close_fd P fd).
Proof. unfold task_close_fd. quietly. Qed.
Hint Resolve keeps_set_nice keeps_task_nice keeps_fget keeps_get_unused_fd keeps_fd_install keeps_close_fd : keeps.

(** *** Nodes and references *)
Lemma keeps_get_node p ptr : keeps rel (binder_get_node p ptr).
Proof. unfold binder_get_node. quietly. Qed.
Lemma keeps_new_node p ptr ck : keeps rel (binder_new_node p ptr ck).
Proof. unfold binder_new_node. quietly. Qed.
Lemma keeps_inc_node n st i tl : keeps rel (binder_inc_node n st i tl).
Proof. unfold binder_inc_node. quietly. Qed.
Lemma keeps_dec_node n st i : keeps rel (binder_dec_node n st i).
Proof. unfold binder_dec_node, unused_node. quietly. Qed.
Hint Resolve keeps_get_node keeps_new_node keeps_inc_node keeps_dec_node : keeps.
Lemma keeps_get_ref p d : keeps rel (binder_get_ref p d).
Proof. unfold binder_get_ref. quietly. Qed.
Lemma keeps_get_ref_for_node p n : keeps rel (binder_get_ref_for_node p n).
Proof. unfold binder_get_ref_for_node. quietly. Qed.
Lemma keeps_delete_ref r : keeps rel (binder_delete_ref r).
Proof. unfold binder_delete_ref. quietly. Qed.
Hint Resolve keeps_get_ref keeps_get_ref_for_node keeps_delete_ref : keeps.
Lemma keeps_inc_ref r st tl : keeps rel (binder_inc_ref r st tl).
Proof. unfold binder_inc_ref. quietly. Qed.
Lemma keeps_dec_ref r st : keeps rel (binder_dec_ref r st).
Proof. unfold binder_dec_ref. quietly. Qed.
Hint Resolve keeps_inc_ref keeps_dec_ref : keeps.

(** *** Buffers *)
Lemma keeps_get_buf pb : keeps rel (get_buf pb).
Proof. unfold get_buf. quietly. Qed.
Lemma keeps_get_content b : keeps rel (get_content b).
Proof. unfold get_content. quietly. Qed.
Lemma keeps_offset_at c i : keeps rel (offset_at c i).
Proof. unfold offset_at. quietly. Qed.
Hint Resolve keeps_get_buf keeps_get_content keeps_offset_at : keeps.
Lemma keeps_mod_content b f : keeps rel (mod_content b f).
Proof. unfold mod_content. quietly. Qed.
Hint Resolve keeps_mod_content : keeps.

Lemma keeps_release_object p failed fp : keeps rel (release_object p failed fp).
Proof. unfold release_object. quietly. Qed.
Hint Resolve keeps_release_object : keeps.
Lemma keeps_release_objects k i p b ds failed : keeps rel (release_objects k i p b ds failed).
Proof. revert i. induction k as [|k IH]; intros i; cbn [release_objects]; quietly. Qed.
Hint Resolve keeps_release_objects : keeps.
Lemma keeps_buffer_release p b f : keeps rel (binder_transaction_buffer_release p b f).
Proof. unfold binder_transaction_buffer_release. quietly. Qed.
Hint Resolve keeps_buffer_release : keeps.

(** *** The stages of [binder_transaction] *)
Lemma keeps_log e f : keeps rel (log_update e f).
Proof. other_part. Qed.
Hint Resolve keeps_log : keeps.
Lemma keeps_caller_in k tp (t found : option Z) : keeps rel (caller_in k tp t found).
Proof. revert t found. induction k as [|k IH]; intros t found; cbn [caller_in]; quietly. Qed.
Hint Resolve keeps_caller_in : keeps.
Lemma keeps_call_target p th tr e : keeps rel (call_target p th tr e).
Proof. unfold call_target. quietly. Qed.
Lemma keeps_translate_binder p th tp b off fp : keeps rel (translate_binder p th tp b off fp).
Proof. unfold translate_binder. quietly. Qed.
Lemma keeps_translate_handle p tp b off fp : keeps rel (translate_handle p tp b off fp).
Proof. unfold translate_handle. quietly. Qed.
Lemma keeps_translate_fd cur p tg b off fp : keeps rel (translate_fd cur p tg b off fp).
Proof. unfold translate_fd. quietly. Qed.
Hint Resolve keeps_translate_binder keeps_translate_handle keeps_translate_fd : keeps.
Lemma keeps_translate_objects k i cur p th tg b ds : keeps rel (translate_objects k i cur p th tg b ds).
Proof. revert i. induction k as [|k IH]; intros i; cbn [translate_objects]; unfold translate_object; quietly. Qed.
Hint Resolve keeps_translate_objects : keeps.
Lemma keeps_fill_buffer u cur p th tr tg b : keeps rel (fill_buffer u cur p th tr tg b).
Proof. unfold fill_buffer. quietly. Qed.
End Local.
#[export] Hint Resolve keeps_list_del_work keeps_list_add_tail keeps_put_node keeps_put_ref keeps_put_death keeps_bump keeps_put_content : keeps.
#[export] Hint Resolve keeps_new_ticket keeps_next_id keeps_stats_created keeps_stats_deleted keeps_kzalloc keeps_free_node keeps_free_ref keeps_free_death : keeps.
#[export] Hint Resolve keeps_set_nice keeps_task_nice keeps_fget keeps_get_unused_fd keeps_fd_install keeps_close_fd keeps_get_node keeps_new_node : keeps.
#[export] Hint Resolve keeps_inc_node keeps_dec_node keeps_get_ref keeps_get_ref_for_node keeps_delete_ref keeps_inc_ref keeps_dec_ref keeps_get_buf : keeps.
#[export] Hint Resolve keeps_get_content keeps_offset_at keeps_mod_content keeps_release_object : keeps.
#[export] Hint Resolve keeps_release_objects keeps_buffer_release keeps_log keeps_caller_in keeps_call_target keeps_translate_binder keeps_translate_handle keeps_translate_fd : keeps.
#[export] Hint Resolve keeps_translate_objects keeps_fill_buffer : keeps.
#[export] Hint Extern 2 (keeps _ (mod_proc _ _)) => apply keeps_mod_proc; [typeclasses eauto|intros ?; repeat case_match; reflexivity] : keeps.

(** ** Buffers, for relations that do not look at areas *)
Section NoAreas.
Context (rel : kstate -> kstate -> Prop) `{!NoAreas rel}.
Context `{env : KernelEnv} `{rb : RbOps} `{jk : Junk}.

Lemma keeps_put_proc p v : keeps rel (put_proc p v).
Proof. apply keeps_modify. intros s. apply areas_procs. Qed.
Hint Resolve keeps_put_proc : keeps.
Lemma keeps_put_buf pb v : keeps rel (put_buf pb v).
Proof. unfold put_buf. keep. Qed.
Hint Resolve keeps_put_buf : keeps.
Lemma keeps_mod_buf pb f : keeps rel (mod_buf pb f).
Proof. unfold mod_buf. keep. Qed.
Lemma keeps_alloc_buf p ds os a : keeps rel (alloc_buf p ds os a).
Proof. unfold alloc_buf. keep. Qed.
Lemma keeps_free_buf pb : keeps rel (free_buf pb).
Proof. unfold free_buf. keep. apply local_agree. split; first [reflexivity|cbn; lia]. Qed.
Hint Resolve keeps_mod_buf keeps_alloc_buf keeps_free_buf : keeps.
Lemma keeps_release_buffer tg b i : keeps rel (release_buffer tg b i).
Proof. unfold release_buffer. keep. Qed.
End NoAreas.
#[export] Hint Resolve keeps_put_proc keeps_put_buf keeps_mod_buf keeps_alloc_buf keeps_free_buf keeps_release_buffer : keeps.

(** ** Quiet operations *)
Definition quiet s s' : Prop := (forall h, sends h s' = sends h s) /\ (forall th, error_of th s' = error_of th s).
#[export] Instance quiet_preorder : PreOrder quiet.
Proof.
  split; [done|]. intros s1 s2 s3 [A1 A2] [B1 B2]. split; intros x; [by rewrite B1, A1|by rewrite B2, A2].
Qed.

Lemma quiet_same s s' : lists s' = lists s -> threads s' = threads s -> quiet s s'.
Proof. intros E1 E2. split; intros x; unfold sends, list_of, error_of; by rewrite ?E1, ?E2. Qed.

Lemma quiet_put_thread s th T T' : threads s !! th = Some T -> th_return_error T' = th_return_error T ->
  quiet s (set_threads s (<[th := T']> (threads s))).
Proof.
  intros E H. split; [done|]. intros x. unfold error_of. cbn. destruct (decide (x = th)) as [->|].
  - rewrite lookup_insert_eq, E. cbn. by rewrite H.
  - by rewrite lookup_insert_ne.
Qed.

#[export] Instance quiet_local : LocalRel quiet.
Proof.
  split; [apply _| | |].
  - intros s s' []. by apply quiet_same.
  - intros w s Hw. split; [|done]. intros h. unfold sends. rewrite list_of_del. by apply sends_list_del.
  - intros w h s Hw. split; [|done]. intros h'. unfold sends. rewrite list_of_insert.
    case_decide as E; [subst|done]. rewrite filter_app, filter_cons, decide_False by done. cbn. by rewrite app_nil_r.
Qed.

#[export] Instance quiet_no_areas : NoAreas quiet.
Proof. split; [apply _|]. intros s ps. by apply quiet_same. Qed.

(** The transactions and threads stay as they are. *)
Definition same_txns s s' : Prop := txns s' = txns s /\ threads s' = threads s.
#[export] Instance same_txns_local : NoAreas same_txns.
Proof.
  split; [|done]. split; [|by intros s s' []|done..]. split; [done|]. intros s1 s2 s3 [A1 A2] [B1 B2]. split; congruence.
Qed.

Section Quiet.
Context {M : Type} `{uops : UserOps M}.
Context `{env : KernelEnv} `{rb : RbOps} `{jk : Junk}.
Ltac quietly := keep; try (apply quiet_same; reflexivity).

Lemma quiet_put_txn t v : keeps quiet (put_txn t v).
Proof. apply keeps_modify. intros s. by apply quiet_same. Qed.
Hint Resolve quiet_put_txn : keeps.
Lemma quiet_free_txn t : keeps quiet (free_txn t).
Proof. unfold free_txn. quietly. Qed.
Hint Resolve quiet_free_txn : keeps.

(** A thread keeps its error through a change of its stack. *)
Lemma quiet_mod_thread th f : (forall T, th_return_error (f T) = th_return_error T) -> keeps quiet (mod_thread th f).
Proof.
  intros H s a s'. unfold mod_thread, get_thread, get_obj, mbind, K_bind. destruct (threads s !! th) as [T|] eqn:E; [|done].
  intros [= _ <-]. apply (quiet_put_thread s th T (f T)); auto.
Qed.

Lemma quiet_pop o t : keeps quiet (binder_pop_transaction o t).
Proof.
  unfold binder_pop_transaction. apply keeps_bind; [apply _| |intros _; quietly]. destruct o as [th|]; [|quietly].
  intros s a s2 E. run_inv. match goal with |- quiet _ (set_txns ?x _) => transitivity x end;
    [by eapply quiet_put_thread|by apply quiet_same].
Qed.
Hint Resolve quiet_pop : keeps.

Hint Extern 2 (keeps quiet (mod_thread _ _)) => apply quiet_mod_thread; reflexivity : keeps.
Lemma quiet_reply_target cur th : keeps quiet (reply_target cur th).
Proof. unfold reply_target. quietly. Qed.
Lemma quiet_new_transaction cur p th tr tg t id : keeps quiet (new_transaction cur p th tr tg t id).
Proof. unfold new_transaction. quietly. Qed.
End Quiet.
#[export] Hint Resolve quiet_put_txn quiet_free_txn quiet_mod_thread quiet_pop quiet_reply_target quiet_new_transaction : keeps.
