(* ===== verification/FailedReply.v ===== *)
(** * Failed replies

    [binder_send_failed_reply] walks up the chain of callers to the first that still
    runs and leaves an error for it.  A thread has room for two errors. *)
From S2P Require Import Prelude UserMem RbTree Alloc Protocol Kernel Refs Transact Send Scenario KernelWp Keeps SendSpec.

Implicit Types (p n r d t th b : Z) (s : kstate) (h : lhead).

(** [caller_chain s t o]: [o] is the first thread that waits for [t] or for a
    transaction it was made in; [None]: nobody waits any more. *)
Inductive caller_chain s : Z -> option Z -> Prop :=
| chain_live t T th : txns s !! t = Some T -> t_from T = Some th -> caller_chain s t (Some th)
| chain_end t T : txns s !! t = Some T -> t_from T = None -> t_from_parent T = None -> caller_chain s t None
| chain_up t T t' o : txns s !! t = Some T -> t_from T = None -> t_from_parent T = Some t' ->
    caller_chain s t' o -> caller_chain s t o.

Definition errors (T : binder_thread) : Z * Z := (th_return_error T, th_return_error2 T).
Definition errors_of th s : option (Z * Z) := errors <$> threads s !! th.
(** A new error moves the old one aside; a third one is lost. *)
Definition tell (code : Z) (e : Z * Z) : Z * Z :=
  if e.1 =? BR_OK then (code, e.2) else if e.2 =? BR_OK then (code, e.1) else e.

Lemma tell_not_ok code e : code ≠ BR_OK -> (tell code e).1 ≠ BR_OK.
Proof. intros H. unfold tell. destruct (e.1 =? BR_OK) eqn:E; [done|]. destruct (e.2 =? BR_OK); [done|]. by apply Z.eqb_neq. Qed.

(** No work is queued, errors appear only at [th]. *)
Definition told (code : Z) (o : option Z) s s' : Prop :=
  (forall h, sends h s' = sends h s) /\
  (forall th, errors_of th s' = (if decide (o = Some th) then tell code else id) <$> errors_of th s).

Section FailedReply.
Context `{env : KernelEnv} `{rb : RbOps} `{jk : Junk}.

(** *** One round *)
Lemma chain_caller s t o th : caller_chain s t o -> t_from <$> txns s !! t = Some (Some th) -> o = Some th.
Proof. destruct 1 as [t T th' HT Hf|t T HT Hf|t T t' o HT Hf]; rewrite HT; cbn; congruence. Qed.
Lemma chain_sub s s' t o : txns s' ⊆ txns s -> caller_chain s' t o -> caller_chain s t o.
Proof. intros Hs. induction 1; [eapply chain_live|eapply chain_end|eapply chain_up]; eauto using lookup_weaken. Qed.

(** Popping a transaction frees it and changes no error. *)
Definition popped t s s' : Prop :=
  txns s' = delete t (txns s) /\ lists s' = lists s /\ (forall th, errors_of th s' = errors_of th s).

Lemma errors_of_put th T T' s : threads s !! th = Some T -> errors T' = errors T ->
  forall th', errors_of th' (set_threads s (<[th := T']> (threads s))) = errors_of th' s.
Proof.
  intros E H th'. unfold errors_of. cbn. destruct (decide (th' = th)) as [->|].
  - rewrite lookup_insert_eq, E. cbn. by rewrite H.
  - by rewrite lookup_insert_ne.
Qed.

Lemma mod_buf_ok pb f s x s' : mod_buf pb f s = Ok (x, s') -> exists ps, s' = set_procs s ps.
Proof. unfold mod_buf, put_buf, get_buf. intros E. run_inv. by eexists. Qed.

(** The part after the caller's stack was popped. *)
Lemma pop_rest_ok t s x s' :
  (tr ← get_txn t;
   _ ← put_txn t (set_t_need_reply tr false);
   _ ← (match t_buffer tr with Some pb => mod_buf pb (with_transaction None) | None => mret tt end);
   _ ← free_txn t;
   binder_stats_deleted BINDER_STAT_TRANSACTION) s = Ok (x, s') ->
  is_Some (txns s !! t) /\ txns s' = delete t (txns s) /\ lists s' = lists s /\ threads s' = threads s.
Proof.
  intros E. apply bind_ok in E as (T & s1 & HT & E). apply get_obj_ok in HT as [HT ->].
  apply bind_ok in E as ([] & s1 & E1 & E). apply modify_ok in E1 as ->. apply bind_ok in E as ([] & s1 & E1 & E).
  assert (exists ps, s1 = set_procs (set_txns s (<[t := set_t_need_reply T false]> (txns s))) ps) as [ps ->].
  { destruct (t_buffer T) as [pb|]; [by apply mod_buf_ok in E1|]. run_inv. by exists (procs s). }
  unfold free_txn, binder_stats_deleted, bump in E. run_inv. cbn. split; [by eexists|]. by rewrite delete_insert_eq.
Qed.

Lemma pop_ok o t s x s' : binder_pop_transaction o t s = Ok (x, s') -> is_Some (txns s !! t) /\ popped t s s'.
Proof.
  intros E. unfold binder_pop_transaction in E. apply bind_ok in E as ([] & s1 & E1 & E).
  apply pop_rest_ok in E as (Ht & E2 & E3 & E4). destruct o as [th|]; run_inv.
  - split; [by eexists|]. split; [rewrite E2; cbn; by rewrite delete_insert_eq|]. split; [done|].
    intros th'. unfold errors_of at 1. rewrite E4. by apply (errors_of_put th a).
  - split; [done|]. split; [done|]. split; [done|]. intros th'. unfold errors_of. by rewrite E4.
Qed.

(** *** The walk *)
Lemma errors_shift T : (th_return_error (shift_error T) =? BR_OK) = true ->
  forall code, tell code (errors T) = (code, th_return_error2 (shift_error T)).
Proof.
  intros H code. unfold tell, shift_error in *. cbn.
  destruct (th_return_error T =? BR_OK) eqn:E1; cbn in *; [done|]. destruct (th_return_error2 T =? BR_OK); [done|].
  congruence.
Qed.
Lemma errors_shift_full T code : (th_return_error (shift_error T) =? BR_OK) = false ->
  shift_error T = T /\ tell code (errors T) = errors T.
Proof.
  unfold tell, shift_error. cbn. destruct (th_return_error T =? BR_OK) eqn:E1; cbn; [intros ?; congruence|].
  by destruct (th_return_error2 T =? BR_OK).
Qed.

Lemma sends_lists s s' : lists s' = lists s -> forall h, sends h s' = sends h s.
Proof. intros E h. unfold sends, list_of. by rewrite E. Qed.

Lemma tell_caller_ok th t code s x s' :
  (_ ← mod_thread th shift_error;
   thread ← get_thread th;
   if th_return_error thread =? BR_OK then
     _ ← binder_pop_transaction (Some th) t;
     mod_thread th (fun thread => set_th_return_error thread code)
   else mret tt) s = Ok (x, s') -> told code (Some th) s s'.
Proof.
  intros E. apply bind_ok in E as ([] & s1 & E1 & E). unfold mod_thread in E1. apply bind_ok in E1 as (T & s2 & HT & E1).
  apply get_obj_ok in HT as [HT ->]. apply modify_ok in E1 as ->. apply bind_ok in E as (T' & s1 & HT' & E).
  apply get_obj_ok in HT' as [HT' ->]. cbn [threads set_threads] in HT'. rewrite lookup_insert_eq in HT'. injection HT' as <-.
  destruct (th_return_error (shift_error T) =? BR_OK) eqn:Eo.
  - apply bind_ok in E as ([] & s1 & E1 & E). apply pop_ok in E1 as (_ & _ & El & Ee). run_inv.
    split; [by apply sends_lists|]. intros th'. unfold errors_of at 1. cbn. specialize (Ee th').
    unfold errors_of in Ee. cbn in Ee. destruct (decide (Some th = Some th')) as [[= <-]|Hne].
    + match goal with H : threads s1 !! th = Some ?T1 |- _ => rewrite H in Ee end.
      rewrite lookup_insert_eq in *. unfold errors_of. injection Ee as E1 E2.
      match goal with H : threads s !! th = _ |- _ => rewrite H end. cbn. rewrite (errors_shift T Eo). unfold errors. cbn. by rewrite E2.
    + rewrite lookup_insert_ne in * by congruence. rewrite Ee. unfold errors_of. by rewrite option_fmap_id.
  - run_inv. split; [by apply sends_lists|]. destruct (errors_shift_full T code Eo) as [Es Et]. intros th'.
    destruct (decide (Some th = Some th')) as [[= <-]|Hne]; unfold errors_of; cbn.
    + rewrite lookup_insert_eq, Es. match goal with H : threads s !! th = _ |- _ => rewrite H end. cbn. by rewrite Et.
    + rewrite lookup_insert_ne by congruence. by rewrite option_fmap_id.
Qed.

Lemma send_failed_reply_loop_ok k t code s x s' : send_failed_reply_loop k t code s = Ok (x, s') ->
  exists o, caller_chain s t o /\ told code o s s'.
Proof.
  revert t s. induction k as [|k IH]; intros t s; cbn [send_failed_reply_loop]; [done|]. intros E.
  apply bind_ok in E as (T & s1 & HT & E). apply get_obj_ok in HT as [HT ->]. destruct (t_from T) as [th|] eqn:Ef.
  - exists (Some th). split; [by eapply chain_live|]. by apply tell_caller_ok in E.
  - apply bind_ok in E as ([] & s1 & E1 & E). apply pop_ok in E1 as (_ & Et & El & Ee).
    destruct (t_from_parent T) as [t'|] eqn:Ep.
    + apply IH in E as (o & Hc & Hs & He). exists o. split.
      * eapply chain_up; eauto. eapply chain_sub; [|done]. rewrite Et. apply delete_subseteq.
      * split; intros y; [rewrite Hs; by apply sends_lists|by rewrite He, Ee].
    + run_inv. exists None. split; [by eapply chain_end|]. split; [by apply sends_lists|].
      intros th'. by rewrite Ee, decide_False, option_fmap_id.
Qed.

Lemma send_failed_reply_ok t code s x s' : binder_send_failed_reply t code s = Ok (x, s') ->
  exists o, caller_chain s t o /\ told code o s s'.
Proof. unfold binder_send_failed_reply. intros E. run_inv. by eapply send_failed_reply_loop_ok. Qed.

(** The walk ends: each round frees a transaction. *)
Lemma header_mapped_ends a b : header_mapped a b ≠ Fault HANG.
Proof. unfold header_mapped, page_at, page_slot. res_ends. Qed.
Lemma get_buffer_ends a b : get_buffer a b ≠ Fault HANG.
Proof. apply res_bind_no_hang; [apply header_mapped_ends|]. intros m. res_ends. Qed.
Lemma put_buffer_ends a b v : put_buffer a b v ≠ Fault HANG.
Proof. apply res_bind_no_hang; [apply header_mapped_ends|]. intros m. res_ends. Qed.
Lemma no_hang_mod_buf pb f : no_hang (mod_buf pb f).
Proof.
  unfold mod_buf, get_buf, put_buf. ends_here; apply no_hang_klift; auto using get_buffer_ends, put_buffer_ends.
Qed.
Hint Resolve no_hang_mod_buf : no_hang.
Lemma no_hang_pop o t : no_hang (binder_pop_transaction o t).
Proof. unfold binder_pop_transaction, free_txn. ends_here. Qed.
Hint Resolve no_hang_pop : no_hang.

Lemma send_failed_reply_loop_ends k t code s : (size (txns s) < k)%nat -> send_failed_reply_loop k t code s ≠ Fault HANG.
Proof.
  revert t s. induction k as [|k IH]; intros t s Hk; [lia|]. cbn [send_failed_reply_loop].
  apply bind_no_hang; [ends_here|]. intros T s1 HT. apply get_obj_ok in HT as [HT ->]. destruct (t_from T) as [th|].
  - enough (H : no_hang _) by apply H. ends_here.
  - apply bind_no_hang; [ends_here|]. intros [] s1 E1. apply pop_ok in E1 as (Ht & Et & _).
    destruct (t_from_parent T); [|done]. apply IH. rewrite Et, map_size_delete_Some by done.
    assert (size (txns s) ≠ 0%nat) by (rewrite map_size_empty_iff; intros E; rewrite E in Ht; by destruct Ht). lia.
Qed.
Lemma send_failed_reply_ends t code : no_hang (binder_send_failed_reply t code).
Proof.
  unfold binder_send_failed_reply. apply no_hang_bind; [ends_here|]. intros T. apply no_hang_bind; [ends_here|]. intros [] s.
  apply bind_no_hang; [ends_here|]. intros k s1 E. apply get_ok in E as [-> ->]. apply send_failed_reply_loop_ends. lia.
Qed.

(** ** The property *)

(** C10: [binder_send_failed_reply] ends, however the transactions hang together.  When
    it returns it has gone up the chain of callers to the first that still runs, and
    left the error for that thread alone, ahead of one that was there (a thread that
    has two errors to read keeps them); no work is queued for anybody. *)
Theorem failed_reply_told t code s : code ≠ BR_OK ->
  binder_send_failed_reply t code s ≠ Fault HANG /\
  forall x s', binder_send_failed_reply t code s = Ok (x, s') ->
    exists o, caller_chain s t o /\ (forall h, sends h s' = sends h s) /\
      forall th, match errors_of th s with
                 | None => errors_of th s' = None
                 | Some e => errors_of th s' = Some (if decide (o = Some th) then tell code e else e)
                 end /\ (o = Some th -> error_of th s' ≠ Some BR_OK).
Proof.
  intros Hc. split; [apply send_failed_reply_ends|]. intros x s' E. apply send_failed_reply_ok in E as (o & Ho & Hs & He).
  exists o. split_and!; [done..|]. intros th. specialize (He th). split.
  - destruct (errors_of th s); rewrite He; by destruct (decide _).
  - intros ->. rewrite decide_True in He by done. unfold errors_of, error_of in *. destruct (threads s' !! th) as [T|]; [|done].
    destruct (threads s !! th) as [T0|]; [|done]. injection He as He. cbn. intros [= E]. apply (tell_not_ok code (errors T0) Hc).
    rewrite <- He. exact E.
Qed.
End FailedReply.

(** The call of the client in [called] has failed. *)
Section Witness.
#[local] Existing Instance kind_env.
#[local] Existing Instance no_junk.
#[local] Abbreviation fail_call := (binder_send_failed_reply 12 BR_DEAD_REPLY).
Lemma called_caller : t_from <$> txns called !! 12 = Some (Some ct).
Proof. vm_compute. reflexivity. Qed.
Lemma fail_call_ok : fail_call called = Ok (tt, final fail_call called).
Proof. apply final_ok. vm_compute. reflexivity. Qed.
Lemma failed_reply_told_witness :
  fail_call called ≠ Fault HANG /\
  exists o, caller_chain called 12 o /\ o = Some ct /\ error_of ct (final fail_call called) ≠ Some BR_OK.
Proof.
  destruct (failed_reply_told 12 BR_DEAD_REPLY called) as [Hh Hok]; [done|]. split; [exact Hh|].
  destruct (Hok tt (final fail_call called) fail_call_ok) as (o & Ho & _ & He). exists o. split; [exact Ho|].
  assert (o = Some ct) as ->; [exact (chain_caller _ _ _ _ Ho called_caller)|]. split; [reflexivity|]. by apply He.
Defined.
End Witness.
#[export] Hint Resolve get_buffer_ends put_buffer_ends no_hang_mod_buf no_hang_pop send_failed_reply_ends : no_hang.
