(* ===== verification/SendProps.v ===== *)
(** * What becomes of a transaction

    [binder_transaction] either queues one transaction and tells its sender that it is
    complete, or queues nothing and leaves an error for the sender. *)
From S2P Require Import Prelude UserMem RbTree Alloc Protocol Kernel Refs Transact Send Scenario KernelWp RefsInv Keeps SendSpec FailedReply.

Implicit Types (p n r d t th b : Z) (s : kstate) (h : lhead).

(** One transaction is queued on [h] and its completion on the list of [th]. *)
Definition delivered th h t c s s' : Prop :=
  (forall h', sends h' s' = sends h' s ++ (if decide (h' = h) then [WTransaction t] else [])
                ++ (if decide (h' = TodoThread th) then [WComplete c] else [])) /\
  (forall th', error_of th' s' = error_of th' s).

(** The node a handle of the process stands for. *)
Definition names_node s p (handle n : Z) : Prop :=
  if handle =? 0 then context_mgr_node s = Some n
  else exists P r R, procs s !! p = Some P /\ p_refs_by_desc P !! handle = Some r /\ refs s !! r = Some R /\ r_node R = n.

(** Where a reply goes: to the thread that made the call. *)
Definition reply_list s th h : Prop :=
  exists T irt C tth, threads s !! th = Some T /\ th_transaction_stack T = Some irt /\ txns s !! irt = Some C /\
    t_to_thread C = Some th /\ t_from C = Some tth /\ h = TodoThread tth.
(** The threads that made the calls of a stack, the newest first: the thread of a call
    waits for the one above it, and the caller of the newest for the stack's owner. *)
Inductive callers (ts : gmap Z Kernel.binder_transaction) : option Z -> list Z -> Prop :=
| callers_end : callers ts None []
| callers_call t T l : ts !! t = Some T -> callers ts (t_from_parent T) l ->
    callers ts (Some t) (match t_from T with Some th => th :: l | None => l end).
Definition runs_in (ths : gmap Z binder_thread) tp th : bool := bool_decide (th_proc <$> ths !! th = Some tp).
(** The first of them that runs in the process. *)
Definition oldest_caller ths tp (l : list Z) : option Z := last (filter (fun th => runs_in ths tp th) l).
Definition list_for tp (o : option Z) : lhead := match o with Some tth => TodoThread tth | None => TodoProc tp end.
(** Where a call goes.  A one-way call: behind the node's other one-way transactions
    when one of them is under way, and else to the process of the node.  Any other
    call: to the thread of that process that has waited longest for the sender, and
    when none waits to the process. *)
Definition call_list s p th (tr : binder_transaction_data) h : Prop :=
  exists n N tp, names_node s p (td_handle tr) n /\ nodes s !! n = Some N /\ n_proc N = Some tp /\
    if one_way (td_flags tr) then h = (if n_has_async_transaction N then AsyncTodo n else TodoProc tp)
    else exists T l, threads s !! th = Some T /\ callers (txns s) (th_transaction_stack T) l /\
           h = list_for tp (oldest_caller (threads s) tp l).

(** ** The flags of the nodes

    Nothing before the delivery touches [has_async_transaction] of a node that is there. *)
Definition async_flag s n : option bool := n_has_async_transaction <$> nodes s !! n.
Definition steady s s' : Prop := fresh_after (ticket s) (nodes s) ->
  fresh_after (ticket s') (nodes s') /\ forall n f, async_flag s n = Some f -> async_flag s' n = Some f.
#[export] Instance steady_preorder : PreOrder steady.
Proof.
  split; [by intros s H|]. intros s1 s2 s3 H12 H23 H. destruct (H12 H) as [F K]. destruct (H23 F) as [F' K']. split; [done|].
  intros n f E. by apply K', K.
Qed.
Lemma steady_same s s' : nodes s' = nodes s -> ticket s <= ticket s' -> steady s s'.
Proof. intros E L H. unfold async_flag. rewrite E. split; [|done]. intros x Hx. apply H. lia. Qed.
Lemma steady_put_node s n N N' : nodes s !! n = Some N -> n_has_async_transaction N' = n_has_async_transaction N ->
  steady s (set_nodes s (<[n := N']> (nodes s))).
Proof.
  intros E HN H. split.
  - intros x Hx. cbn. rewrite lookup_insert_ne; [by apply H|]. intros ->. cbn in Hx. by rewrite (H x) in E.
  - intros m f. unfold async_flag. cbn. destruct (decide (m = n)) as [->|]; [|by rewrite lookup_insert_ne].
    rewrite lookup_insert_eq, E. cbn. by rewrite HN.
Qed.
Lemma steady_fresh s n N : ticket s < n -> forall s', nodes s' = <[n := N]> (nodes s) -> n <= ticket s' -> steady s s'.
Proof.
  intros Hn s' E L H. split.
  - intros x Hx. rewrite E, lookup_insert_ne by lia. apply H. lia.
  - intros m f. unfold async_flag. rewrite E. destruct (decide (m = n)) as [->|]; [by rewrite H|by rewrite lookup_insert_ne].
Qed.

Section Steady.
Context {M : Type} `{uops : UserOps M}.
Context `{env : KernelEnv} `{rb : RbOps} `{jk : Junk}.
Hint Extern 1 (steady _ _) => apply steady_same; [reflexivity|cbn; lia] : keeps.
Hint Extern 3 (keeps steady _) => apply keeps_modify; intros ?; apply steady_same; [reflexivity|cbn; lia] : keeps.
Lemma steady_mod_node n f : (forall N, n_has_async_transaction (f N) = n_has_async_transaction N) -> keeps steady (mod_node n f).
Proof. intros H s a s' E. run_inv. by eapply steady_put_node. Qed.
Hint Extern 2 (keeps steady (mod_node _ _)) => apply steady_mod_node; intros ?; repeat case_match; reflexivity : keeps.

Lemma steady_kzalloc : keeps steady kzalloc.
Proof. unfold kzalloc, new_ticket. keep. Qed.
Hint Resolve steady_kzalloc : keeps.
Lemma steady_add_tail w h : keeps steady (list_add_tail w h).
Proof. unfold list_add_tail. keep. Qed.
Lemma steady_del_work w : keeps steady (list_del_work w).
Proof. unfold list_del_work. keep. Qed.
Hint Resolve steady_add_tail steady_del_work : keeps.
Lemma steady_new_node p ptr ck : keeps steady (binder_new_node p ptr ck).
Proof.
  intros s a s' E. unfold binder_new_node, kzalloc, new_ticket, next_id, binder_stats_created, bump in E. run_inv.
  destruct (p_nodes _ !! ptr); [by run_inv|]. run_inv. destruct (kzalloc_ok _); run_inv; cbn in *.
  - eapply (steady_fresh _ (ticket s + 1)); [lia|reflexivity|cbn; lia].
  - by apply steady_same; [|cbn; lia].
Qed.
Lemma steady_inc_node n st i tl : keeps steady (binder_inc_node n st i tl).
Proof.
  intros s a s' E. unfold binder_inc_node in E. apply bind_ok in E as (N & s1 & HN & E). apply get_obj_ok in HN as [HN ->].
  destruct st.
  - apply bind_ok in E as (mgr & s1 & E1 & E). apply get_ok in E1 as [_ ->].
    destruct (i && _); [by apply ret_ok in E as [_ ->]|]. apply bind_ok in E as ([] & s1 & E1 & E). apply modify_ok in E1 as ->.
    kept steady E Hs. etransitivity; [|exact Hs]. eapply steady_put_node; [done|by destruct i].
  - apply bind_ok in E as ([] & s1 & E1 & E). apply modify_ok in E1 as ->.
    kept steady E Hs. etransitivity; [|exact Hs]. eapply steady_put_node; [done|by destruct i].
Qed.
Hint Resolve steady_new_node steady_inc_node : keeps.
Lemma steady_get_ref_for_node p n : keeps steady (binder_get_ref_for_node p n).
Proof. unfold binder_get_ref_for_node, next_id, binder_stats_created, bump. keep. Qed.
Lemma steady_inc_ref r st tl : keeps steady (binder_inc_ref r st tl).
Proof. unfold binder_inc_ref. keep. Qed.
Hint Resolve steady_get_ref_for_node steady_inc_ref : keeps.
Lemma steady_translate cur p th tg b off fp : keeps steady (translate_object cur p th tg b off fp).
Proof.
  unfold translate_object, translate_binder, translate_handle, translate_fd, binder_get_node, binder_get_ref, mod_content, get_content,
    fget, task_get_unused_fd_flags, task_fd_install, new_ticket. keep.
Qed.
Hint Resolve steady_translate : keeps.
Lemma steady_translate_objects k i cur p th tg b ds : keeps steady (translate_objects k i cur p th tg b ds).
Proof. revert i. induction k as [|k IH]; intros i; cbn [translate_objects]; unfold get_content, offset_at; keep. Qed.
Hint Resolve steady_translate_objects : keeps.
Lemma steady_fill_buffer u cur p th tr tg b : keeps steady (fill_buffer u cur p th tr tg b).
Proof. unfold fill_buffer, put_content. keep. Qed.
Lemma steady_bump ty : keeps steady (binder_stats_created ty) /\ keeps steady (binder_stats_deleted ty).
Proof. unfold binder_stats_created, binder_stats_deleted, bump. split; keep. Qed.
Lemma steady_created ty : keeps steady (binder_stats_created ty).
Proof. apply steady_bump. Qed.
Lemma steady_deleted ty : keeps steady (binder_stats_deleted ty).
Proof. apply steady_bump. Qed.
Lemma steady_next_id : keeps steady next_id.
Proof. unfold next_id. keep. Qed.
Lemma steady_log e f : keeps steady (log_update e f).
Proof. unfold log_update. keep. Qed.
Lemma steady_new_transaction cur p th tr tg t id : keeps steady (new_transaction cur p th tr tg t id).
Proof. unfold new_transaction, task_nice. keep. Qed.
Lemma steady_alloc_buf p ds os a : keeps steady (alloc_buf p ds os a).
Proof. unfold alloc_buf, new_ticket. keep. Qed.
Lemma steady_mod_buf pb f : keeps steady (mod_buf pb f).
Proof. unfold mod_buf, get_buf, put_buf. keep. Qed.
Lemma steady_put_txn t v : keeps steady (put_txn t v).
Proof. unfold put_txn. keep. Qed.
Lemma steady_free_txn t : keeps steady (free_txn t).
Proof. unfold free_txn. keep. Qed.
Lemma steady_reply_target cur th : keeps steady (reply_target cur th).
Proof. unfold reply_target, binder_set_nice, set_user_nice, new_ticket, mod_thread. keep; case_match; apply steady_same; done. Qed.
Lemma steady_caller_in k tp (t found : option Z) : keeps steady (caller_in k tp t found).
Proof. revert t found. induction k as [|k IH]; intros t found; cbn [caller_in]; keep. Qed.
Hint Resolve steady_log steady_caller_in : keeps.
Lemma steady_call_target p th tr e : keeps steady (call_target p th tr e).
Proof. unfold call_target, binder_get_ref, new_ticket. keep. Qed.
End Steady.
#[export] Hint Resolve steady_kzalloc steady_created steady_deleted steady_next_id steady_log steady_new_transaction steady_alloc_buf
  steady_mod_buf steady_put_txn steady_free_txn steady_inc_node steady_fill_buffer steady_reply_target steady_call_target : keeps.

(** ** Stages *)
Section Outcome.
Context (th : Z).

Definition ends {E A} (P : kstate -> lhead -> Prop) s (x : E + A) s' : Prop :=
  match x with inl _ => quiet s s' | inr _ => exists h t c, P s h /\ delivered th h t c s s' end.
Definition outcome {E A} (P : kstate -> lhead -> Prop) (m : stage E A) : Prop :=
  forall s x s', fresh_after (ticket s) (nodes s) -> m s = Ok (x, s') -> ends P s x s'.
(** What holds of a list behind steady steps holds of it before them. *)
Definition settled (P : kstate -> lhead -> Prop) : Prop :=
  forall s s' h, fresh_after (ticket s) (nodes s) -> steady s s' -> P s' h -> P s h.

Lemma ends_after {E A} (P : kstate -> lhead -> Prop) s s1 (x : E + A) s' :
  quiet s s1 -> (forall h, P s1 h -> P s h) -> ends P s1 x s' -> ends P s x s'.
Proof.
  intros [Q1 Q2] HP. destruct x; cbn.
  - intros H. etransitivity; [|exact H]. done.
  - intros (h & t & c & Ph & D1 & D2). exists h, t, c. split; [by apply HP|].
    split; intros x; [by rewrite D1, Q1|by rewrite D2, Q2].
Qed.

Lemma outcome_bind {E A B} P (m : K A) (f : A -> stage E B) :
  settled P -> keeps quiet m -> keeps steady m -> (forall a, outcome P (f a)) -> outcome (E := E) (A := B) P (mbind (M := K) f m).
Proof.
  intros HP Hm Hs Hf s x s' F H. apply bind_ok in H as (a & s1 & Em & H). pose proof (Hs _ _ _ Em) as S.
  eapply ends_after; [by eapply Hm|by intros h; apply HP|]. eapply Hf; [apply S, F|done].
Qed.
Lemma outcome_exits {E A} P (e : E) : outcome P (exits (A := A) e).
Proof. by intros s x s' _ [= <- <-]. Qed.
Lemma outcome_and_then {E A B} P (m : stage E A) (f : A -> stage E B) :
  settled P -> keeps quiet m -> keeps steady m -> (forall a, outcome P (f a)) -> outcome P (and_then m f).
Proof. intros HP Hm Hs Hf. apply outcome_bind; [done..|]. intros [e|a]; [apply outcome_exits|apply Hf]. Qed.
End Outcome.

(** ** The last step *)
Section Deliver.
Context {M : Type} `{uops : UserOps M}.
Context `{env : KernelEnv} `{rb : RbOps} `{jk : Junk}.

(** The list for a target: the node's flag says where a one-way call goes. *)
Definition target_list (tg : target) (flags : Z) s h : Prop :=
  let queue := list_for (tg_proc tg) (tg_thread tg) in
  match tg_in_reply_to tg with
  | Some _ => h = queue
  | None =>
      if one_way flags then exists n, tg_node tg = Some n /\ forall f, async_flag s n = Some f -> h = if f then AsyncTodo n else queue
      else h = queue
  end.
Lemma settled_target tg flags : settled (target_list tg flags).
Proof.
  intros s s' h F S H. unfold target_list in *. destruct (tg_in_reply_to tg); [done|]. destruct (one_way flags); [|done].
  destruct H as (n & Hn & H). exists n. split; [done|]. intros f Hf. apply H. by apply (proj2 (S F)).
Qed.

Lemma sends_add w h s h' :
  sends h' (set_lists s (<[h := list_of h s ++ [w]]> (lists s))) =
  sends h' s ++ (if decide (h' = h) then if decide (is_send w) then [w] else [] else []).
Proof.
  unfold sends. rewrite list_of_insert. destruct (decide (h' = h)) as [->|]; [|by rewrite app_nil_r].
  by rewrite filter_app, filter_cons, filter_nil.
Qed.

(** The two entries of a delivery, after a quiet start. *)
Lemma delivered_add th h t c s0 s : quiet s0 s ->
  delivered th h t c s0 (let s1 := set_lists s (<[h := list_of h s ++ [WTransaction t]]> (lists s)) in
    set_lists s1 (<[TodoThread th := list_of (TodoThread th) s1 ++ [WComplete c]]> (lists s1))).
Proof.
  intros [Q1 Q2]. cbv zeta. split; [|done]. intros h'.
  rewrite !sends_add, !(decide_True (P := is_send _)), Q1 by done. by rewrite <- app_assoc.
Qed.

(** [deliver] of a transaction with these flags. *)
Lemma deliver_outcome th (tg : target) t complete b flags s x s' T :
  txns s !! t = Some T -> t_flags T = flags -> deliver th tg t complete b s = Ok (x, s') ->
  exists h, target_list tg flags s h /\ delivered th h t complete s s'.
Proof.
  intros HT <- E. unfold deliver in E. fold (list_for (tg_proc tg) (tg_thread tg)) in E. run_inv. unfold get_buf in *. run_inv.
  match goal with H : txns _ !! t = Some _ |- _ => rewrite HT in H; injection H as <- end.
  unfold target_list. destruct (tg_in_reply_to tg) as [irt|]; [|destruct (one_way (t_flags T)) eqn:Ef; cbn [negb] in *].
  - run_inv. eexists. split; [done|]. apply delivered_add. by eapply quiet_pop.
  - destruct (tg_node tg) as [n|]; [|by run_inv]. run_inv.
    match goal with H : nodes s !! n = Some ?N |- _ => assert (async_flag s n = Some (n_has_async_transaction N)) as HN by (unfold async_flag; by rewrite H) end.
    match goal with H : (if n_has_async_transaction ?N then _ else _) _ = _ |- _ => destruct (n_has_async_transaction N); run_inv end.
    + eexists. split; [|by apply delivered_add]. exists n. split; [done|]. rewrite HN. by intros f [= <-].
    + eexists. split; [|apply delivered_add, quiet_same; reflexivity]. exists n. split; [done|]. rewrite HN. by intros f [= <-].
  - run_inv. eexists. split; [done|]. apply delivered_add. etransitivity; [|by eapply quiet_put_thread]. by apply quiet_same.
Qed.

Lemma mod_txn_ok t f s a s' T : txns s !! t = Some T -> mod_txn t f s = Ok (a, s') -> txns s' !! t = Some (f T).
Proof. intros E H. run_inv. cbn. rewrite lookup_insert_eq. congruence. Qed.

(** A quiet step behind which the transaction is as it was. *)
Ltac quiet_step E F :=
  stage_inv E; let Q := fresh "Q" in let T := fresh "T" in let S := fresh "S" in
  lazymatch goal with ET : txns ?s !! _ = Some _, E1 : _ ?s = Ok (_, ?s1) |- _ =>
    kept quiet E1 Q; kept same_txns E1 T; kept steady E1 S;
    apply (ends_after _ _ _ s1); [done|by intros h; apply settled_target|];
    apply S in F as [F _]; rewrite <- (proj1 T) in ET; clear E1 Q T S
  end.

(** The next stage of [send_to]. *)
Ltac go := apply outcome_and_then; [apply settled_target|solve [keep]..|].
Lemma send_to_outcome u cur p th tr tg e : outcome th (target_list tg (td_flags tr)) (send_to u cur p th tr tg e).
Proof.
  unfold send_to. go. intros [t|]; [|apply outcome_exits]. go. intros _. go. intros [c|]; [|go; intros ?; apply outcome_exits].
  go. intros _. go. intros id. go. intros _.
  intros s x s' F E. stage_inv E. rename E0 into En.
  assert (exists T, txns s0 !! t = Some T /\ t_flags T = td_flags tr) as (T & ET & EF).
  { unfold new_transaction, task_nice in En. run_inv. cbn. rewrite lookup_insert_eq. eauto. }
  assert (steady s s0) as S by (eapply (keeps_run steady); [exact En|keep]).
  apply quiet_new_transaction in En. apply (ends_after _ _ _ s0); [done|by intros h; apply settled_target|].
  apply S in F as [F _]. clear En S s. rename s0 into s.
  quiet_step E F. destruct a0 as [b|].
  - quiet_step E F. stage_inv E. kept quiet E0 Q. kept steady E0 Sd.
    apply (ends_after _ _ _ s2); [done|by intros h; apply settled_target|]. apply Sd in F as [F _]. clear Q Sd.
    eapply mod_txn_ok in E0; [|done]. clear ET. rename E0 into ET.
    do 2 quiet_step E F. destruct a3 as [i|[]].
    + stage_inv E. stage_inv E. apply ret_ok in E as [-> ->]. cbn [ends].
      etransitivity; [by eapply keeps_release_buffer; [apply _|]|]. eapply (keeps_run quiet); [exact E1|keep].
    + apply does_ok in E as ([] & -> & E). eapply deliver_outcome in E as (h & Hh & D); [|done..]. exists h, t, c. done.
  - stage_inv E. apply ret_ok in E as [-> ->]. eapply (keeps_run quiet); [exact E0|keep].
Qed.
End Deliver.

(** ** The target *)
Section Target.
Context {M : Type} `{uops : UserOps M}.
Context `{env : KernelEnv} `{rb : RbOps} `{jk : Junk}.

Lemma reply_target_ok cur th s tg s' flags h : reply_target cur th s = Ok (inr tg, s') ->
  target_list tg flags s' h -> reply_list s th h.
Proof.
  unfold reply_target. intros E Hh. stage_inv E. run_inv.
  destruct (th_transaction_stack a) as [irt|] eqn:Es; [|done]. stage_inv E. run_inv. stage_inv E.
  kept same_txns E0 Sm. destruct (negb _) eqn:Et; [done|]. stage_inv E. run_inv.
  destruct (t_from a0) as [tth|] eqn:Ef; [|done]. stage_inv E. run_inv.
  destruct (negb (is_some_eq (th_transaction_stack _) irt)); [done|]. apply ret_ok in E as [[= ->] ->].
  cbn in Hh. subst h. exists a, irt, a0, tth. cbn. unfold is_some_eq in Et.
  apply negb_false_iff, bool_decide_eq_true in Et. done.
Qed.

Lemma oldest_caller_cons ths tp th T l : ths !! th = Some T ->
  oldest_caller ths tp (th :: l) =
  match oldest_caller ths tp l with Some x => Some x | None => if th_proc T =? tp then Some th else None end.
Proof.
  intros H. unfold oldest_caller. rewrite filter_cons.
  assert (runs_in ths tp th = (th_proc T =? tp)) as ->.
  { unfold runs_in. rewrite H. cbn. apply eq_true_iff_eq. rewrite bool_decide_eq_true, Z.eqb_eq. split; [by intros [= ->]|by intros ->]. }
  destruct (th_proc T =? tp).
  - rewrite decide_True by done. by rewrite last_cons.
  - rewrite decide_False by auto. by destruct (last _).
Qed.
(** The loop finds the oldest caller. *)
Lemma caller_in_ok k tp (t found r : option Z) s s' : caller_in k tp t found s = Ok (r, s') ->
  s' = s /\ exists l, callers (txns s) t l /\ r = match oldest_caller (threads s) tp l with Some th => Some th | None => found end.
Proof.
  revert t found. induction k as [|k IH]; intros t found; [done|]. cbn [caller_in]. destruct t as [t|].
  - intros H. run_inv. destruct (t_from a) as [th|] eqn:Ef.
    + run_inv. apply IH in H as [-> (l & Hl & ->)]. split; [done|]. exists (th :: l). split.
      { replace (th :: l) with (match t_from a with Some th => th :: l | None => l end) by (by rewrite Ef). by econstructor. }
      rewrite (oldest_caller_cons _ _ _ a1) by done. destruct (oldest_caller _ tp l); [done|]. by destruct (_ =? _).
    + run_inv. apply IH in H as [-> (l & Hl & ->)]. split; [done|]. exists l. split; [|done].
      replace l with (match t_from a with Some th => th :: l | None => l end) by (by rewrite Ef). by econstructor.
  - intros H. run_inv. split; [done|]. exists []. split; [constructor|done].
Qed.

#[local] Arguments caller_in : simpl never.
(** The target of a call. *)
Lemma call_target_ok p th tr e s tg s' h : call_target p th tr e s = Ok (inr tg, s') ->
  target_list tg (td_flags tr) s' h -> call_list s p th tr h.
Proof.
  unfold call_target. intros E Hh. stage_inv E. run_inv. apply and_then_ok in E as [(? & _ & ?)|(n & s1 & En & E)]; [done|].
  assert (s1 = s /\ names_node s p (td_handle tr) n) as [-> Hn].
  { unfold names_node. destruct (td_handle tr =? 0); cbn [negb] in En; stage_inv En.
    - run_inv. destruct (context_mgr_node s) as [m|]; [|done]. by apply ret_ok in En as [[= ->] ->].
    - unfold binder_get_ref in *. run_inv. destruct (p_refs_by_desc _ !! _) as [r|] eqn:Er; [|done].
      stage_inv En. run_inv. apply ret_ok in En as [[= ->] ->]. split; [done|]. eauto 10. }
  clear En. do 2 stage_inv E. unfold log_update in *. run_inv. destruct (n_proc _) as [tp|] eqn:Ep; [|done].
  do 2 stage_inv E. unfold new_ticket in *. run_inv. destruct (_ <? 0); [done|]. stage_inv E. run_inv. cbn in *.
  eexists n, _, tp. split; [done|]. split; [eassumption|]. split; [done|]. unfold target_list in Hh.
  destruct (one_way (td_flags tr)) eqn:Eo.
  - apply ret_ok in E as [[= ->] ->]. cbn in Hh. destruct Hh as (? & [= <-] & Hh). unfold async_flag in Hh. cbn in Hh.
    match goal with H : nodes s !! n = Some _ |- _ => rewrite H in Hh end. by apply Hh.
  - eexists _. destruct (th_transaction_stack _) as [top|] eqn:Et.
    + stage_inv E. run_inv. destruct (negb _); [done|]. do 2 stage_inv E. apply caller_in_ok in E1 as [-> (l & Hl & ->)].
      run_inv. apply ret_ok in E as [[= ->] ->]. cbn in *. exists l. rewrite Et. split; [eassumption|]. split; [done|].
      by destruct (oldest_caller _ tp l).
    + apply ret_ok in E as [[= ->] ->]. cbn in *. exists []. rewrite Et. split; [eassumption|]. split; [constructor|done].
Qed.
End Target.

(** ** The error exits *)
Section Errors.
Context {M : Type} `{uops : UserOps M}.
Context `{env : KernelEnv} `{rb : RbOps} `{jk : Junk}.

(** The stage leaves with an error of the sender. *)
Definition error_exit (e : exit_) : Prop := e.1 = BR_FAILED_REPLY \/ e.1 = BR_DEAD_REPLY.
Definition bad_exits {A} (m : stage exit_ A) : Prop := forall s e s', m s = Ok (inl e, s') -> error_exit e.
Lemma bad_and_then {A B} (m : stage exit_ A) (f : A -> stage exit_ B) :
  bad_exits m -> (forall a, bad_exits (f a)) -> bad_exits (and_then m f).
Proof.
  intros Hm Hf s e s' E. apply and_then_ok in E as [(e' & E & [= ->])|(a & s1 & _ & E)]; [by eapply Hm|by eapply Hf].
Qed.
Lemma bad_does {A} (m : K A) : bad_exits (does m).
Proof. intros s e s' E. by apply does_ok in E as (a & ? & _). Qed.
Lemma bad_goes {A} (a : A) : bad_exits (goes a).
Proof. done. Qed.
Lemma bad_exit {A} (e : exit_) : error_exit e -> bad_exits (exits (A := A) e).
Proof. by intros H s e' s' [= <- _]. Qed.
Ltac bad := repeat first
  [apply bad_and_then; [|intros ?]|apply bad_does|apply bad_goes|apply bad_exit; first [by left|by right]|case_match].

Lemma bad_target cur p th tr (reply : bool) e : bad_exits (if reply then reply_target cur th else call_target p th tr e).
Proof. unfold reply_target, call_target. bad. Qed.
Lemma bad_send_to u cur p th tr tg e : bad_exits (send_to u cur p th tr tg e).
Proof. unfold send_to. bad. Qed.

(** The sender is told. *)
Lemma fail_transaction_ok th e err irt s x s' : err ≠ BR_OK -> fail_transaction th e err irt s = Ok (x, s') ->
  (forall h, sends h s' = sends h s) /\ exists e, error_of th s' = Some e /\ e ≠ BR_OK.
Proof.
  intros He E. unfold fail_transaction in E. apply bind_ok in E as ([] & s1 & E1 & E).
  assert (lists s1 = lists s) as Hl. { apply modify_ok in E1. subst s1. by destruct (binder_transaction_log_add _). }
  clear E1. apply bind_ok in E as (T & s2 & HT & E). apply get_obj_ok in HT as [HT ->].
  apply bind_ok in E as ([] & s2 & E1 & E). apply BUG_ON_ok in E1 as [_ ->]. destruct irt as [irt|].
  - apply bind_ok in E as ([] & s2 & E1 & E). apply modify_ok in E1 as ->.
    apply send_failed_reply_ok in E as (o & _ & Hs & Hw). split; [intros h; rewrite Hs; by apply sends_lists|].
    specialize (Hw th). unfold errors_of in Hw. cbn in Hw. rewrite lookup_insert_eq in Hw. unfold error_of.
    destruct (threads s' !! th) as [T'|]; [|done]. cbn in *. eexists; split; [done|]. injection Hw as Hw. apply (f_equal fst) in Hw.
    cbn in Hw. rewrite Hw. case_decide; [by apply tell_not_ok|done].
  - apply modify_ok in E as ->. split; [by apply sends_lists|]. unfold error_of. cbn. rewrite lookup_insert_eq. eauto.
Qed.

(** The stages together, from the target on. *)
Definition right_list s p th (tr : binder_transaction_data) (reply : bool) h : Prop :=
  if reply then reply_list s th h else call_list s p th tr h.

Lemma target_ok cur p th tr (reply : bool) e s tg s' h :
  (if reply then reply_target cur th else call_target p th tr e) s = Ok (inr tg, s') ->
  target_list tg (td_flags tr) s' h -> right_list s p th tr reply h.
Proof. destruct reply; [apply reply_target_ok|apply call_target_ok]. Qed.

Lemma stages_outcome u cur p th tr (reply : bool) e s (x : exit_ + unit) s' :
  (tg <~ (if reply then reply_target cur th else call_target p th tr e);
   _ <~ does (match tg_thread tg with
              | Some tth => tthread ← get_thread tth; log_update e (with_to_thread (th_pid tthread))
              | None => mret tt
              end);
   tproc <~ does (get_proc (tg_proc tg));
   _ <~ does (log_update e (with_to_proc (p_pid tproc)));
   send_to u cur p th tr tg e) s = Ok (x, s') -> fresh_after (ticket s) (nodes s) ->
  ends th (fun s => right_list s p th tr reply) s x s'.
Proof.
  intros E F. apply and_then_ok in E as [(y & E & ->)|(tg & s1 & E1 & E)].
  - cbn. eapply (keeps_run quiet); [exact E|]. destruct reply; keep.
  - assert (quiet s s1) as Q by (eapply (keeps_run quiet); [exact E1|]; destruct reply; keep).
    assert (steady s s1) as Sd by (eapply (keeps_run steady); [exact E1|]; destruct reply; keep).
    apply Sd in F as [F _].
    assert (outcome th (target_list tg (td_flags tr)) (_ <~ does (match tg_thread tg with
              | Some tth => tthread ← get_thread tth; log_update e (with_to_thread (th_pid tthread))
              | None => mret tt
              end);
       tproc <~ does (get_proc (tg_proc tg));
       _ <~ does (log_update e (with_to_proc (p_pid tproc)));
       send_to u cur p th tr tg e)) as O.
    { do 3 (apply outcome_and_then; [apply settled_target|solve [keep]..|]; intros ?). apply send_to_outcome. }
    apply O in E; [|done]. destruct x; cbn in E |- *; [by etransitivity|].
    destruct E as (h & t & c & Hh & D1 & D2). exists h, t, c. split; [by eapply target_ok|]. destruct Q as [Q1 Q2].
    split; intros y; [by rewrite D1, Q1|by rewrite D2, Q2].
Qed.
Lemma stages_bad u cur p th tr (reply : bool) e :
  bad_exits (tg <~ (if reply then reply_target cur th else call_target p th tr e);
   _ <~ does (match tg_thread tg with
              | Some tth => tthread ← get_thread tth; log_update e (with_to_thread (th_pid tthread))
              | None => mret tt
              end);
   tproc <~ does (get_proc (tg_proc tg));
   _ <~ does (log_update e (with_to_proc (p_pid tproc)));
   send_to u cur p th tr tg e).
Proof. apply bad_and_then; [apply bad_target|]. intros tg. do 3 (apply bad_and_then; [apply bad_does|]; intros ?). apply bad_send_to. Qed.

(** ** The property *)

(** C9: a command [BC_TRANSACTION] or [BC_REPLY] that the driver gets through is
    answered: either one transaction is queued, on the list where it belongs, with one
    [BR_TRANSACTION_COMPLETE] for the sender, and no thread has a new error; or no
    transaction is queued and the sender has an error to read.  A reply belongs to the
    thread that made the call; a one-way call to the process of the node, or behind
    the node's one-way transactions while one of them is under way; any other call to
    the thread of that process that has waited longest for the sender, or, when none
    does, to the process.  The nodes are supposed to have addresses that were given out,
    as they have in every reachable state ([ho_fresh]). *)
Theorem transaction_answered u cur p th tr (reply : bool) s x s' : fresh_after (ticket s) (nodes s) ->
  binder_transaction u cur p th tr reply s = Ok (x, s') ->
  (exists h t c, right_list s p th tr reply h /\ delivered th h t c s s') \/
  ((forall h, sends h s' = sends h s) /\ exists e, error_of th s' = Some e /\ e ≠ BR_OK).
Proof.
  intros F E. unfold binder_transaction in E. do 2 (apply bind_ok in E as (? & s1 & E1 & E); apply get_obj_ok in E1 as [_ ->]).
  apply bind_ok in E as (e & s1 & E1 & E). apply bind_ok in E as (y & s2 & E2 & E).
  assert (exists l, s2 = set_tlog s l) as [l ->].
  { apply modify_ok in E2 as ->. destruct (binder_transaction_log_add (tlog s)). injection E1 as _ <-. by eexists. }
  clear E1 E2. apply bind_ok in E as (z & s3 & E1 & E). destruct z as [[err irt]|[]].
  - assert (Hb := stages_bad _ _ _ _ _ _ _ _ _ _ E1). apply stages_outcome in E1 as [Q1 _]; [|done]. right.
    apply fail_transaction_ok in E as [Hs He]; [|by destruct Hb as [Hb|Hb]; cbn in Hb; rewrite Hb]. split; [|done]. intros h. rewrite Hs. apply Q1.
  - apply stages_outcome in E1 as (h & t & c & Hh & D); [|done]. apply ret_ok in E as [_ ->]. left. exists h, t, c. split; [|done].
    by destruct reply.
Qed.
End Errors.

(** The client's call in [booted] is answered. *)
Section Witness.
#[local] Existing Instance flat_user.
#[local] Existing Instance plain_ops.
#[local] Existing Instance kind_env.
#[local] Existing Instance no_junk.
Lemma booted_fresh : fresh_after (ticket booted) (nodes booted).
Proof.
  intros x Hx. apply eq_None_not_Some. intros [N HN].
  assert (map_Forall (fun y _ => y <= ticket booted) (nodes booted)) as H by (refine (bool_decide_unpack _ _); vm_compute; reflexivity).
  specialize (H x N HN). cbn in H. lia.
Qed.
Lemma transaction_answered_witness : binder_transaction client_mem client cp ct call_data false booted = Ok (tt, called) /\
  ((exists h t c, right_list booted cp ct call_data false h /\ delivered ct h t c booted called) \/
   ((forall h, sends h called = sends h booted) /\ exists e, error_of ct called = Some e /\ e ≠ BR_OK)).
Proof.
  split; [exact call_done|].
  apply (transaction_answered client_mem client cp ct call_data false booted tt called booted_fresh). exact call_done.
Defined.
End Witness.
