(* ===== verification/Ends.v ===== *)
(** * Loops that end

    The operations of the driver come back, whatever state they start in; the loops
    over lists by a measure that each round decreases.  The operations whose end
    depends on the state are in [EndsOps] and [EndsFiles]. *)
From S2P Require Import Prelude UserMem RbTree Alloc Protocol Kernel Refs Transact Send Write Read Driver KernelWp Keeps SendSpec FailedReply.

Implicit Types (p n r d t th b : Z) (s : kstate).

(** ** The allocator *)
Section Alloc.
Context `{ops : RbOps} `{jk : Junk}.
Implicit Types (a : balloc) (e : page_env).

Lemma page_at_ends a x : page_at a x ≠ Fault HANG.
Proof. unfold page_at, page_slot. res_ends. Qed.
Lemma set_page_ends v x a : set_page v x a ≠ Fault HANG.
Proof. unfold set_page, page_slot. res_ends. Qed.
Hint Resolve page_at_ends set_page_ends : no_hang.
Lemma free_page_ends x a : free_page x a ≠ Fault HANG.
Proof. unfold free_page. res_ends. Qed.
Hint Resolve free_page_ends : no_hang.
Lemma free_pages_ends l a : free_pages l a ≠ Fault HANG.
Proof. revert a. induction l as [|x l IH]; intros a; cbn [free_pages]; res_ends. Qed.
Hint Resolve free_pages_ends : no_hang.
Lemma allocate_pages_ends e x l a : allocate_pages e x l a ≠ Fault HANG.
Proof. revert a. induction l as [|y l IH]; intros a; cbn [allocate_pages]; res_ends. Qed.
Hint Resolve allocate_pages_ends : no_hang.
Lemma update_page_range_ends e a al x y v : binder_update_page_range e a al x y v ≠ Fault HANG.
Proof. unfold binder_update_page_range. res_ends. Qed.
Hint Resolve update_page_range_ends : no_hang.

(** The walks go down a tree. *)
Lemma walk_find_ends cmp (t : tree) : (forall y, cmp y ≠ Fault HANG) -> walk_find cmp t ≠ Fault HANG.
Proof. intros H. induction t; cbn [walk_find]; res_ends. Qed.
Lemma walk_link_ends cmp x (t : tree) : (forall y, cmp y ≠ Fault HANG) -> walk_link cmp x t ≠ Fault HANG.
Proof. intros H. induction t; cbn [walk_link]; res_ends. Qed.
Lemma walk_best_ends cmp (t : tree) o : (forall y, cmp y ≠ Fault HANG) -> walk_best cmp t o ≠ Fault HANG.
Proof. intros H. revert o. induction t; intros o; cbn [walk_best]; res_ends. Qed.
Hint Resolve walk_find_ends walk_link_ends walk_best_ends : no_hang.
Ltac walking := repeat first [solve [eauto with no_hang nocore]|apply res_bind_no_hang; [|intros ?]
  |first [apply walk_find_ends|apply walk_link_ends|apply walk_best_ends]; intros ?|discriminate|case_match].

Lemma insert_free_ends a x : binder_insert_free_buffer a x ≠ Fault HANG.
Proof. unfold binder_insert_free_buffer. walking. Qed.
Lemma insert_allocated_ends a x : binder_insert_allocated_buffer a x ≠ Fault HANG.
Proof. unfold binder_insert_allocated_buffer. walking. Qed.
Hint Resolve insert_free_ends insert_allocated_ends : no_hang.
Lemma buffer_lookup_ends a x : binder_buffer_lookup a x ≠ Fault HANG.
Proof. unfold binder_buffer_lookup. walking. Qed.
Lemma take_buffer_ends a b x y ds os async : take_buffer a b x y ds os async ≠ Fault HANG.
Proof. unfold take_buffer. walking. Qed.
Hint Resolve take_buffer_ends : no_hang.
Lemma alloc_ends e a ds os async : binder_alloc_buf e a ds os async ≠ Fault HANG.
Proof. unfold binder_alloc_buf. walking. Qed.
Lemma delete_free_ends e a b : binder_delete_free_buffer e a b ≠ Fault HANG.
Proof. unfold binder_delete_free_buffer. walking. Qed.
Hint Resolve delete_free_ends : no_hang.
Lemma free_ends e a b : binder_free_buf e a b ≠ Fault HANG.
Proof. unfold binder_free_buf. walking. Qed.
Lemma mmap_ends e base size offset v m : mmap_buffers e base size offset v m ≠ Fault HANG.
Proof. unfold mmap_buffers. walking. Qed.
End Alloc.
#[export] Hint Resolve buffer_lookup_ends alloc_ends free_ends mmap_ends : no_hang.

(** ** Nodes, references, buffers *)
Section Ops.
Context {M : Type} `{uops : UserOps M}.
Context `{env : KernelEnv} `{rb : RbOps} `{jk : Junk}.

Lemma no_hang_new_ticket : no_hang new_ticket.
Proof. done. Qed.
Lemma no_hang_kzalloc : no_hang kzalloc.
Proof. unfold kzalloc. ends_here. Qed.
Hint Resolve no_hang_new_ticket no_hang_kzalloc : no_hang.
Lemma no_hang_set_nice cur nice : no_hang (binder_set_nice cur nice).
Proof. unfold binder_set_nice. ends_here. Qed.
Lemma no_hang_get_unused_fd P : no_hang (task_get_unused_fd_flags P).
Proof. unfold task_get_unused_fd_flags. ends_here. Qed.
Lemma no_hang_fd_install P fd file : no_hang (task_fd_install P fd file).
Proof. unfold task_fd_install. ends_here. Qed.
Lemma no_hang_close_fd P fd : no_hang (task_close_fd P fd).
Proof. unfold task_close_fd. ends_here. Qed.
Lemma no_hang_get_node p ptr : no_hang (binder_get_node p ptr).
Proof. unfold binder_get_node. ends_here. Qed.
Lemma no_hang_new_node p ptr ck : no_hang (binder_new_node p ptr ck).
Proof. unfold binder_new_node. ends_here. Qed.
Lemma no_hang_inc_node n st i tl : no_hang (binder_inc_node n st i tl).
Proof. unfold binder_inc_node. ends_here. Qed.
Lemma no_hang_free_node n : no_hang (free_node n).
Proof. unfold free_node. ends_here. Qed.
Lemma no_hang_free_ref r : no_hang (free_ref r).
Proof. unfold free_ref. ends_here. Qed.
Lemma no_hang_free_death d : no_hang (free_death d).
Proof. unfold free_death. ends_here. Qed.
Lemma no_hang_free_txn t : no_hang (free_txn t).
Proof. unfold free_txn. ends_here. Qed.
Hint Resolve no_hang_set_nice no_hang_get_unused_fd no_hang_fd_install no_hang_close_fd no_hang_get_node no_hang_new_node
  no_hang_inc_node no_hang_free_node no_hang_free_ref no_hang_free_death no_hang_free_txn : no_hang.
Lemma no_hang_dec_node n st i : no_hang (binder_dec_node n st i).
Proof. unfold binder_dec_node, unused_node. ends_here. Qed.
Hint Resolve no_hang_dec_node : no_hang.
Lemma no_hang_get_ref p d : no_hang (binder_get_ref p d).
Proof. unfold binder_get_ref. ends_here. Qed.
Lemma no_hang_get_ref_for_node p n : no_hang (binder_get_ref_for_node p n).
Proof. unfold binder_get_ref_for_node. ends_here. Qed.
Lemma no_hang_delete_ref r : no_hang (binder_delete_ref r).
Proof. unfold binder_delete_ref. ends_here. Qed.
Hint Resolve no_hang_get_ref no_hang_get_ref_for_node no_hang_delete_ref : no_hang.
Lemma no_hang_inc_ref r st tl : no_hang (binder_inc_ref r st tl).
Proof. unfold binder_inc_ref. ends_here. Qed.
Lemma no_hang_dec_ref r st : no_hang (binder_dec_ref r st).
Proof. unfold binder_dec_ref. ends_here. Qed.
Hint Resolve no_hang_inc_ref no_hang_dec_ref : no_hang.

Lemma no_hang_get_buf pb : no_hang (get_buf pb).
Proof. unfold get_buf. ends_here. apply no_hang_klift; auto with no_hang. Qed.
Lemma no_hang_put_buf pb v : no_hang (put_buf pb v).
Proof. unfold put_buf. ends_here. apply no_hang_klift; auto with no_hang. Qed.
Lemma no_hang_alloc_buf p ds os a : no_hang (alloc_buf p ds os a).
Proof. unfold alloc_buf. ends_here. apply no_hang_klift; auto with no_hang. Qed.
Lemma no_hang_free_buf pb : no_hang (free_buf pb).
Proof. unfold free_buf. ends_here. apply no_hang_klift; auto with no_hang. Qed.
Hint Resolve no_hang_get_buf no_hang_put_buf no_hang_alloc_buf no_hang_free_buf : no_hang.
Lemma no_hang_offset_at c i : no_hang (offset_at c i).
Proof. unfold offset_at. ends_here. Qed.
Lemma no_hang_get_content b : no_hang (get_content b).
Proof. unfold get_content. ends_here. Qed.
Hint Resolve no_hang_offset_at no_hang_get_content : no_hang.
Lemma no_hang_mod_content b f : no_hang (mod_content b f).
Proof. unfold mod_content. ends_here. Qed.
Hint Resolve no_hang_mod_content : no_hang.
Lemma no_hang_release_object p failed fp : no_hang (release_object p failed fp).
Proof. unfold release_object. ends_here. Qed.
Hint Resolve no_hang_release_object : no_hang.
Lemma no_hang_release_objects k i p b ds failed : no_hang (release_objects k i p b ds failed).
Proof. revert i. induction k as [|k IH]; intros i; cbn [release_objects]; ends_here. Qed.
Hint Resolve no_hang_release_objects : no_hang.
Lemma no_hang_buffer_release p b f : no_hang (binder_transaction_buffer_release p b f).
Proof. unfold binder_transaction_buffer_release. ends_here. Qed.
Hint Resolve no_hang_buffer_release : no_hang.

(** ** Transactions *)
Lemma no_hang_log e f : no_hang (log_update e f).
Proof. done. Qed.
Hint Resolve no_hang_log : no_hang.
Lemma no_hang_reply_target cur th : no_hang (reply_target cur th).
Proof. unfold reply_target. ends_here. Qed.
Lemma no_hang_translate_binder p th tp b off fp : no_hang (translate_binder p th tp b off fp).
Proof. unfold translate_binder. ends_here. Qed.
Lemma no_hang_translate_handle p tp b off fp : no_hang (translate_handle p tp b off fp).
Proof. unfold translate_handle. ends_here. Qed.
Lemma no_hang_translate_fd cur p tg b off fp : no_hang (translate_fd cur p tg b off fp).
Proof. unfold translate_fd. ends_here. Qed.
Hint Resolve no_hang_translate_binder no_hang_translate_handle no_hang_translate_fd : no_hang.
Lemma no_hang_translate_objects k i cur p th tg b ds : no_hang (translate_objects k i cur p th tg b ds).
Proof. revert i. induction k as [|k IH]; intros i; cbn [translate_objects]; unfold translate_object; ends_here. Qed.
Hint Resolve no_hang_translate_objects : no_hang.
Lemma no_hang_fill_buffer u cur p th tr tg b : no_hang (fill_buffer u cur p th tr tg b).
Proof. unfold fill_buffer. ends_here. Qed.
Lemma no_hang_new_transaction cur p th tr tg t id : no_hang (new_transaction cur p th tr tg t id).
Proof. unfold new_transaction. ends_here. Qed.
Lemma no_hang_release_buffer tg b i : no_hang (release_buffer tg b i).
Proof. unfold release_buffer. ends_here. Qed.
Lemma no_hang_deliver th tg t c b : no_hang (deliver th tg t c b).
Proof. unfold deliver. ends_here. Qed.
Hint Resolve no_hang_reply_target no_hang_fill_buffer no_hang_new_transaction no_hang_release_buffer no_hang_deliver : no_hang.
Lemma no_hang_send_to u cur p th tr tg e : no_hang (send_to u cur p th tr tg e).
Proof. unfold send_to. ends_here. Qed.
Lemma no_hang_fail_transaction th e err irt : no_hang (fail_transaction th e err irt).
Proof. unfold fail_transaction. ends_here. Qed.
Hint Resolve no_hang_send_to no_hang_fail_transaction : no_hang.

(** ** Commands *)
Lemma no_hang_stat_bc p th cmd : no_hang (binder_stat_bc p th cmd).
Proof. unfold binder_stat_bc. ends_here. Qed.
Lemma no_hang_write_refs p cmd target : no_hang (write_refs p cmd target).
Proof. unfold write_refs. ends_here. Qed.
Lemma no_hang_write_refs_done p cmd ptr ck : no_hang (write_refs_done p cmd ptr ck).
Proof. unfold write_refs_done. ends_here. Qed.
Lemma no_hang_next_async th n : no_hang (next_async th n).
Proof. unfold next_async, list_head. ends_here. Qed.
Hint Resolve no_hang_stat_bc no_hang_write_refs no_hang_write_refs_done no_hang_next_async : no_hang.
Lemma no_hang_write_free_buffer p th ptr : no_hang (write_free_buffer p th ptr).
Proof. unfold write_free_buffer. ends_here. apply no_hang_klift; auto with no_hang. Qed.
Lemma no_hang_register_looper p th : no_hang (write_register_looper p th).
Proof. unfold write_register_looper. ends_here. Qed.
Lemma no_hang_enter_looper th : no_hang (write_enter_looper th).
Proof. unfold write_enter_looper. ends_here. Qed.
Lemma no_hang_exit_looper th : no_hang (write_exit_looper th).
Proof. unfold write_exit_looper. ends_here. Qed.
Lemma no_hang_queue_death p th d : no_hang (queue_death p th d).
Proof. unfold queue_death. ends_here. Qed.
Hint Resolve no_hang_queue_death : no_hang.
Lemma no_hang_request_death p th target ck : no_hang (write_request_death p th target ck).
Proof. unfold write_request_death. ends_here. Qed.
Lemma no_hang_clear_death p th target ck : no_hang (write_clear_death p th target ck).
Proof. unfold write_clear_death. ends_here. Qed.
Lemma no_hang_find_death (l : list work) cookie : no_hang (find_death l cookie).
Proof. induction l as [|[]]; cbn [find_death]; ends_here. Qed.
Hint Resolve no_hang_find_death : no_hang.
Lemma no_hang_dead_binder_done p th ck : no_hang (write_dead_binder_done p th ck).
Proof. unfold write_dead_binder_done. ends_here. Qed.
Lemma no_hang_fetch u ptr w : no_hang (fetch u ptr w).
Proof. unfold fetch. ends_here. Qed.
Hint Resolve no_hang_write_free_buffer no_hang_register_looper no_hang_enter_looper no_hang_exit_looper no_hang_request_death
  no_hang_clear_death no_hang_dead_binder_done no_hang_fetch : no_hang.

(** ** Work that nobody will read *)
Lemma no_hang_release_one w : no_hang (release_one w).
Proof. destruct w; cbn [release_one]; ends_here. Qed.

(** Releasing an entry changes no list. *)
Definition same_lists s s' : Prop := lists s' = lists s.
#[local] Instance same_lists_preorder : PreOrder same_lists.
Proof. split; [done|]. intros s1 s2 s3 E1 E2. unfold same_lists in *. congruence. Qed.
Lemma lists_mod_buf pb f : keeps same_lists (mod_buf pb f).
Proof. unfold mod_buf, get_buf, put_buf. keep. by intros s x s' [= _ <-]. Qed.
Hint Resolve lists_mod_buf : keeps.
Lemma lists_pop o t : keeps same_lists (binder_pop_transaction o t).
Proof. intros s x s' E. by apply pop_ok in E as (_ & _ & E & _). Qed.
Hint Resolve lists_pop : keeps.
Ltac still := keep; try (by intros ? ? ? [= _ <-]).
Lemma lists_send_failed_reply_loop k t code : keeps same_lists (send_failed_reply_loop k t code).
Proof. revert t. induction k as [|k IH]; intros t; cbn [send_failed_reply_loop]; unfold mod_thread; still. Qed.
Hint Resolve lists_send_failed_reply_loop : keeps.
Lemma lists_send_failed_reply t code : keeps same_lists (binder_send_failed_reply t code).
Proof. unfold binder_send_failed_reply. still. Qed.
Hint Resolve lists_send_failed_reply : keeps.
Lemma lists_release_one w : keeps same_lists (release_one w).
Proof. destruct w; cbn [release_one]; unfold get_buf, free_txn, free_death; still. Qed.

Lemma list_del_shorter (w : work) l : w ∈ l -> (length (list_del w l) < length l)%nat.
Proof.
  intros H. unfold list_del. induction l as [|x l IH]; [by apply elem_of_nil in H|]. rewrite filter_cons.
  assert (length (filter (.≠ w) l) <= length l)%nat by apply length_filter.
  case_decide as E; cbn; [|lia]. apply elem_of_cons in H as [->|H]; [done|]. apply IH in H. lia.
Qed.
Lemma release_work_loop_ends k h s : (length (list_of h s) <= k)%nat -> release_work_loop k h s ≠ Fault HANG.
Proof.
  revert s. induction k as [|k IH]; intros s Hk; cbn [release_work_loop]; (apply bind_no_hang; [ends_here|]);
    intros o s1 E; apply get_ok in E as [-> ->]; destruct (list_of h s) as [|w l] eqn:El; cbn in *; try done; [lia|].
  apply bind_no_hang; [ends_here|]. intros [] s1 E. apply modify_ok in E as ->.
  apply bind_no_hang; [apply no_hang_release_one|]. intros [] s2 E. apply lists_release_one in E. apply IH.
  assert (list_of h s2 = list_del w (w :: l)) as -> by (rewrite <- El, <- list_of_del; unfold list_of; by rewrite E).
  assert (length (list_del w (w :: l)) < length (w :: l))%nat by (apply list_del_shorter; left). cbn [length] in *. lia.
Qed.
Lemma no_hang_release_work h : no_hang (binder_release_work h).
Proof. unfold binder_release_work. intros s. apply bind_no_hang; [ends_here|]. intros k s1 E. apply get_ok in E as [-> ->]. by apply release_work_loop_ends. Qed.
Hint Resolve no_hang_release_work : no_hang.

(** ** The stack of a thread that goes *)

(** The roles that a thread has in the transactions there are. *)
Definition roles th (T : Kernel.binder_transaction) : nat :=
  (if is_some_eq (t_to_thread T) th then 1 else 0) + (if is_some_eq (t_from T) th then 1 else 0).
Definition role_count th (ts : gmap Z Kernel.binder_transaction) : nat := map_fold (fun _ T k => roles th T + k)%nat O ts.
Lemma role_count_at th ts t T : ts !! t = Some T -> role_count th ts = (roles th T + role_count th (delete t ts))%nat.
Proof. intros H. unfold role_count. rewrite (map_fold_delete_L _ _ t T); [done| |done]. intros. lia. Qed.
Lemma role_count_put th (ts : gmap Z Kernel.binder_transaction) t T' : role_count th (<[t := T']> ts) = (roles th T' + role_count th (delete t ts))%nat.
Proof. rewrite (role_count_at th _ t T') by apply lookup_insert_eq. by rewrite delete_insert_eq. Qed.
Lemma role_count_bound th ts : (role_count th ts <= 2 * size ts)%nat.
Proof.
  induction ts as [|t T ts Ht IH] using map_ind; [done|]. rewrite role_count_put, delete_id, map_size_insert_None by done.
  unfold roles. repeat case_match; lia.
Qed.
Lemma txns_mod_buf pb f s x s' : mod_buf pb f s = Ok (x, s') -> txns s' = txns s.
Proof. intros E. by apply mod_buf_ok in E as [ps ->]. Qed.
Lemma unlink_stack_ends k th (t : option Z) act s : (role_count th (txns s) < k)%nat -> unlink_stack k th t act s ≠ Fault HANG.
Proof.
  revert t act s. induction k as [|k IH]; intros t act s Hk; [lia|]. destruct t as [t|]; cbn [unlink_stack]; [|done].
  apply bind_no_hang; [ends_here|]. intros T s1 HT. apply get_obj_ok in HT as [HT ->].
  rewrite (role_count_at th _ _ _ HT) in Hk. destruct (is_some_eq (t_to_thread T) th) eqn:Er; [|destruct (is_some_eq (t_from T) th) eqn:Ef; [|done]].
  - apply bind_no_hang; [ends_here|]. intros [] s1 E. apply modify_ok in E as ->. apply bind_no_hang; [ends_here|]. intros [] s2 E. apply IH.
    assert (txns s2 = <[t := set_t_buffer (set_t_to_thread (set_t_to_proc T None) None) None]> (txns s)) as ->.
    { destruct (t_buffer T); [by apply txns_mod_buf in E|by apply ret_ok in E as [_ ->]]. }
    rewrite role_count_put. unfold roles in *. rewrite Er in Hk. cbn -[is_some_eq]. change (is_some_eq None th) with false. cbn. lia.
  - apply bind_no_hang; [ends_here|]. intros [] s1 E. apply modify_ok in E as ->. apply IH. cbn [txns set_txns].
    rewrite role_count_put. unfold roles in *. rewrite Er, Ef in Hk. cbn -[is_some_eq]. rewrite Er. change (is_some_eq None th) with false. cbn. lia.
Qed.
Lemma no_hang_free_thread_obj th : no_hang (free_thread th).
Proof. unfold free_thread. ends_here. Qed.
Hint Resolve no_hang_free_thread_obj : no_hang.
Lemma no_hang_free_thread p th : no_hang (binder_free_thread p th).
Proof.
  unfold binder_free_thread. do 3 (apply no_hang_bind; [ends_here|]; intros ?). intros s.
  apply bind_no_hang; [ends_here|]. intros k s1 E. apply get_ok in E as [-> ->].
  apply bind_no_hang_at; [apply unlink_stack_ends; pose proof (role_count_bound th (txns s)); lia|]. intros act s1 _.
  enough (H : no_hang _) by apply H. ends_here.
Qed.
End Ops.
