(* ===== verification/Typed.v ===== *)
(** * The widths of the fields

    The records keep machine words as integers; [typed] says that every integer field
    of the driver's state is in the range of its C type (bit fields in that of their
    bits, the flags of a thread among those there are).  [yields m Q] is a typing
    judgement: [m] keeps a typed state typed and its result satisfies [Q]; [gives] is
    the same for the allocator's computations on an area. *)
From S2P Require Import Prelude UserMem RbTree Alloc Protocol Kernel Refs Transact Send Write KernelWp SendProps.

Implicit Types (p n r d t th b : Z) (s : kstate).

(** ** The types *)
Definition int (x : Z) : Prop := - 2 ^ 31 <= x < 2 ^ 31.
Definition long (x : Z) : Prop := - 2 ^ 63 <= x < 2 ^ 63.
Definition uint32 (x : Z) : Prop := 0 <= x < 2 ^ 32.
Definition uint64 (x : Z) : Prop := 0 <= x < 2 ^ 64.
(** An unsigned bit field. *)
Definition bits (w x : Z) : Prop := 0 <= x < 2 ^ w.
Definition nice_value (x : Z) : Prop := MIN_NICE <= x <= MAX_NICE.

Record node_typed (N : binder_node) : Prop := {
  nt_debug : int (n_debug_id N);
  nt_ptr : uint64 (n_ptr N);
  nt_cookie : uint64 (n_cookie N);
  nt_internal : int (n_internal_strong_refs N);
  nt_weak : int (n_local_weak_refs N);
  nt_strong : int (n_local_strong_refs N);
  nt_priority : bits 8 (n_min_priority N)
}.
Record ref_typed (R : binder_ref) : Prop := {
  rt_debug : int (r_debug_id R);
  rt_desc : uint32 (r_desc R);
  rt_strong : int (r_strong R);
  rt_weak : int (r_weak R)
}.
Definition death_typed (D : binder_ref_death) : Prop := uint64 (d_cookie D).
Record txn_typed (T : Kernel.binder_transaction) : Prop := {
  tt_debug : int (t_debug_id T);
  tt_code : uint32 (t_code T);
  tt_flags : uint32 (t_flags T);
  tt_priority : long (t_priority T);
  tt_saved : long (t_saved_priority T);
  tt_euid : uint32 (t_sender_euid T)
}.
(** The header of a buffer. *)
Record buffer_typed (v : binder_buffer) : Prop := {
  bt_debug : bits 29 (b_debug_id v);
  bt_data : uint64 (b_data_size v);
  bt_offsets : uint64 (b_offsets_size v)
}.
Definition all {A} (P : A -> Prop) (m : gmap Z A) : Prop := forall k a, m !! k = Some a -> P a.
Record area_typed (a : balloc) : Prop := {
  at_heap : all buffer_typed (heap a);
  at_size : uint64 (buffer_size a);
  at_offset : uint64 (user_buffer_offset a)
}.
Record proc_typed (P : binder_proc) : Prop := {
  pt_pid : int (p_pid P);
  pt_deferred : bits 3 (p_deferred_work P);
  pt_area : area_typed (p_alloc P);
  pt_max : int (p_max_threads P);
  pt_requested : int (p_requested_threads P);
  pt_started : int (p_requested_threads_started P);
  pt_ready : int (p_ready_threads P);
  pt_priority : long (p_default_priority P)
}.
Record thread_typed (T : binder_thread) : Prop := {
  ht_pid : int (th_pid T);
  ht_looper : bits 6 (th_looper T);
  ht_error : uint32 (th_return_error T);
  ht_error2 : uint32 (th_return_error2 T)
}.
(** The payload of a buffer consists of bytes. *)
Record content_typed (c : content) : Prop := {
  ct_data : Forall is_byte (c_data c);
  ct_offsets : Forall is_byte (c_offsets c)
}.
Record entry_typed (e : log_entry) : Prop := {
  et_debug : int (e_debug_id e);
  et_type : int (e_call_type e);
  et_from_proc : int (e_from_proc e);
  et_from_thread : int (e_from_thread e);
  et_handle : int (e_target_handle e);
  et_to_proc : int (e_to_proc e);
  et_to_thread : int (e_to_thread e);
  et_to_node : int (e_to_node e);
  et_data : int (e_data_size e);
  et_offsets : int (e_offsets_size e)
}.
(** The next entry of a log is one of those there are. *)
Record log_typed (l : transaction_log) : Prop := {
  lt_next : 0 <= log_next l < LOG_SIZE;
  lt_length : Z.of_nat (length (log_entries l)) = LOG_SIZE;
  lt_entries : Forall entry_typed (log_entries l)
}.
Record typed s : Prop := {
  ty_procs : all proc_typed (procs s);
  ty_threads : all thread_typed (threads s);
  ty_nodes : all node_typed (nodes s);
  ty_refs : all ref_typed (refs s);
  ty_deaths : all death_typed (deaths s);
  ty_txns : all txn_typed (txns s);
  ty_contents : all content_typed (contents s);
  ty_mgr : forall u, context_mgr_uid s = Some u -> uint32 u;
  ty_last_id : int (last_id s);
  ty_nices : all nice_value (nices s);
  ty_counters : forall c, int (counters s c);
  ty_tlog : log_typed (tlog s);
  ty_failed : log_typed (tlog_failed s)
}.
(** The calling task: its ids are [pid_t]s, its user id is a [uid_t]. *)
Record task_typed (cur : task) : Prop := {
  kt_pid : int (tk_pid cur);
  kt_tgid : int (tk_tgid cur);
  kt_euid : uint32 (tk_euid cur)
}.

(** What the rest of the kernel hands out has its type, too: user ids, and the memory
    in which a header is made. *)
Class EnvTyped (env : KernelEnv) : Prop := euid_typed : forall t, uint32 (task_euid t).
Class JunkTyped (jk : Junk) : Prop := junk_typed : forall b, buffer_typed (junk b).

Section All.
Context {A : Type} (P : A -> Prop).
Lemma all_empty : all P ∅.
Proof. intros k a. by rewrite lookup_empty. Qed.
Lemma all_insert m k a : P a -> all P m -> all P (<[k := a]> m).
Proof. intros Ha Hm j b. rewrite lookup_insert_Some. intros [[_ <-]|[_ H]]; [done|by eapply Hm]. Qed.
Lemma all_delete m k : all P m -> all P (delete k m).
Proof. intros Hm j b [_ H]%lookup_delete_Some. by eapply Hm. Qed.
End All.
Lemma s32_int x : int (s32 x).
Proof. unfold int, s32. pose proof (u32_range x). destruct (Z.ltb_spec (u32 x) (2 ^ 31)); lia. Qed.
Lemma int_incr x : int (incr x).
Proof. apply s32_int. Qed.
Lemma int_decr x : int (decr x).
Proof. apply s32_int. Qed.
Lemma bits_testbit w x : 0 <= w -> bits w x <-> 0 <= x /\ forall i, w <= i -> Z.testbit x i = false.
Proof.
  intros Hw. unfold bits. split.
  - intros [H0 H]. split; [done|]. intros i Hi. destruct (Z.eq_dec x 0) as [->|Hx]; [apply Z.bits_0|].
    apply Z.bits_above_log2; [done|]. apply Z.log2_lt_pow2 in H; lia.
  - intros [H0 H]. split; [done|]. destruct (Z.eq_dec x 0) as [->|Hx]; [apply Z.pow_pos_nonneg; lia|].
    apply Z.log2_lt_pow2; [lia|]. destruct (Z.lt_ge_cases (Z.log2 x) w) as [|Hl]; [done|].
    specialize (H _ Hl). rewrite Z.bit_log2 in H by lia. done.
Qed.
Lemma bits_lor w x y : 0 <= w -> bits w x -> bits w y -> bits w (Z.lor x y).
Proof.
  intros Hw. rewrite !bits_testbit by done. intros [Hx Bx] [Hy By]. split; [by apply Z.lor_nonneg|]. intros i Hi.
  by rewrite Z.lor_spec, Bx, By.
Qed.
Lemma bits_ldiff w x y : 0 <= w -> bits w x -> bits w (Z.ldiff x y).
Proof.
  intros Hw. rewrite !bits_testbit by done. intros [Hx Bx]. split; [apply Z.ldiff_nonneg; auto|]. intros i Hi.
  by rewrite Z.ldiff_spec, Bx.
Qed.

Lemma land_priority x : bits 8 (Z.land x FLAT_BINDER_FLAG_PRIORITY_MASK).
Proof. change FLAT_BINDER_FLAG_PRIORITY_MASK with (Z.ones 8). rewrite Z.land_ones by lia. by apply Z.mod_pos_bound. Qed.
Lemma long_nice x : nice_value x -> long x.
Proof. unfold nice_value, long, MIN_NICE, MAX_NICE. lia. Qed.

Create HintDb typed.
#[export] Hint Resolve s32_int land_priority long_nice euid_typed : typed.
#[export] Hint Resolve int_incr int_decr : typed.
#[export] Hint Extern 2 (int _) => unfold int; lia : typed.
#[export] Hint Extern 2 (uint64 _) => unfold uint64; lia : typed.
#[export] Hint Extern 2 (uint32 _) => unfold uint32; lia : typed.
#[export] Hint Extern 3 (uint32 _) => solve [split; [apply Z.leb_le|apply Z.ltb_lt]; reflexivity] : typed.
#[export] Hint Extern 3 (bits _ _) => solve [split; [apply Z.leb_le|apply Z.ltb_lt]; reflexivity] : typed.
#[export] Hint Extern 2 (bits _ _) => unfold bits; lia : typed.
#[export] Hint Extern 2 (long _) => unfold long; lia : typed.
#[export] Hint Extern 1 (bits _ (_ mod _)) => apply Z.mod_pos_bound; lia : typed.
#[export] Hint Extern 1 (bits _ (Z.lor _ _)) => apply bits_lor; [lia|..] : typed.
#[export] Hint Extern 1 (bits _ (Z.ldiff _ _)) => apply bits_ldiff; [lia|] : typed.

Definition any {A} (_ : A) : Prop := True.

(** ** Updates of typed objects *)
Ltac typed_obj :=
  unfold dec_counts, shift_error, looper_or, looper_clear; repeat case_match; simplify_eq;
  repeat match goal with
    | H : node_typed _ |- _ => destruct H
    | H : ref_typed _ |- _ => destruct H
    | H : txn_typed _ |- _ => destruct H
    | H : proc_typed _ |- _ => destruct H
    | H : thread_typed _ |- _ => destruct H
    | H : area_typed _ |- _ => destruct H
    | H : buffer_typed _ |- _ => destruct H
    | H : task_typed _ |- _ => destruct H
    | H : entry_typed _ |- _ => destruct H
    end;
  first [split|unfold death_typed in *]; cbn in *; auto with typed.
#[export] Hint Extern 1 (node_typed _) => solve [assumption|typed_obj] : typed.
#[export] Hint Extern 1 (ref_typed _) => solve [assumption|typed_obj] : typed.
#[export] Hint Extern 1 (death_typed _) => solve [assumption|typed_obj] : typed.
#[export] Hint Extern 1 (txn_typed _) => solve [assumption|typed_obj] : typed.
#[export] Hint Extern 1 (proc_typed _) => solve [assumption|typed_obj] : typed.
#[export] Hint Extern 1 (entry_typed _) => solve [assumption|typed_obj] : typed.
#[export] Hint Extern 1 (thread_typed _) => solve [assumption|typed_obj] : typed.
#[export] Hint Extern 1 (area_typed _) => solve [assumption|typed_obj] : typed.
#[export] Hint Extern 1 (buffer_typed _) => solve [assumption|typed_obj] : typed.

(** ** The allocator *)

(** [gives m Q]: what [m] computes, if it does, satisfies [Q]. *)
Definition gives {A} (m : res A) (Q : A -> Prop) : Prop := forall a, m = Ok a -> Q a.
Section Allocator.
Context `{rb : RbOps} `{jk : Junk} `{!JunkTyped jk}.
Implicit Types (a : balloc) (v : binder_buffer).

Lemma gives_ok {A} (x : A) (Q : A -> Prop) : Q x -> gives (Ok x) Q.
Proof. by intros H y [= <-]. Qed.
Lemma gives_fault {A} e (Q : A -> Prop) : gives (Fault e) Q.
Proof. done. Qed.
Lemma gives_any {A} (m : res A) : gives m any.
Proof. done. Qed.
Lemma gives_bind {A B} (m : res A) (f : A -> res B) P Q : gives m P -> (forall x, P x -> gives (f x) Q) -> gives (m ≫= f) Q.
Proof. intros Hm Hf y E. apply bind_Ok_inv in E as (x & E1 & E). exact (Hf x (Hm x E1) y E). Qed.
Lemma gives_get a b : area_typed a -> gives (get_buffer a b) buffer_typed.
Proof.
  intros Ha. unfold get_buffer. eapply gives_bind; [apply gives_any|]. intros [] _; [|apply gives_fault]. intros v E.
  destruct (heap a !! b) as [w|] eqn:Eb; [|done]. injection E as <-. exact (at_heap a Ha b w Eb).
Qed.
Lemma gives_put a b v : area_typed a -> buffer_typed v -> gives (put_buffer a b v) area_typed.
Proof.
  intros [] Hv. unfold put_buffer. eapply gives_bind; [apply gives_any|]. intros [] _; [|apply gives_fault].
  apply gives_ok. split; cbn; [by apply all_insert|done..].
Qed.
Lemma gives_page x addr a : area_typed a -> gives (set_page x addr a) area_typed.
Proof. intros []. unfold set_page. eapply gives_bind; [apply gives_any|]. intros i _. apply gives_ok. by split. Qed.
Lemma gives_free_page addr a : area_typed a -> gives (free_page addr a) area_typed.
Proof. intros Ha. unfold free_page. eapply gives_bind; [apply gives_any|]. intros [] _; [by apply gives_page|apply gives_fault]. Qed.
Lemma gives_free_pages l a : area_typed a -> gives (free_pages l a) area_typed.
Proof.
  revert a. induction l as [|x l IH]; intros a Ha; cbn [free_pages]; [by apply gives_ok|].
  eapply gives_bind; [by apply gives_free_page|exact IH].
Qed.
Definition fst_any {A} (x : A * balloc) : Prop := area_typed x.2.
Lemma gives_failed l a : area_typed a -> gives (a' ← free_pages l a; Ok (- ENOMEM, a')) fst_any.
Proof. intros Ha. eapply gives_bind; [by apply gives_free_pages|]. intros a' Ha'. by apply gives_ok. Qed.
Lemma gives_allocate e start l a : area_typed a -> gives (allocate_pages e start l a) fst_any.
Proof.
  revert a. induction l as [|x l IH]; intros a Ha; cbn [allocate_pages]; [by apply gives_ok|].
  eapply gives_bind; [apply gives_any|]. intros p _. eapply gives_bind; [apply gives_any|]. intros _ _.
  destruct (negb (alloc_page e x)); [by apply gives_failed|]. eapply gives_bind; [by apply gives_page|]. intros a1 H1.
  destruct (_ || _); [|by apply IH]. eapply gives_bind; [by apply gives_free_page|]. intros a2 H2. by apply gives_failed.
Qed.
Lemma gives_range e a al start end_ vma : area_typed a -> gives (binder_update_page_range e a al start end_ vma) fst_any.
Proof.
  intros Ha. unfold binder_update_page_range. destruct (end_ <=? start); [by apply gives_ok|]. cbn zeta.
  destruct (negb al); [by apply gives_failed|]. repeat case_match; first [by apply gives_ok|by apply gives_allocate].
Qed.

Ltac area := unfold fst_any in *; cbn in *; auto with typed; match goal with H : area_typed _ |- area_typed _ => destruct H; by split end.
Lemma gives_insert_free a b : area_typed a -> gives (binder_insert_free_buffer a b) area_typed.
Proof. intros Ha. unfold binder_insert_free_buffer. do 3 (eapply gives_bind; [apply gives_any|]; intros ? _). apply gives_ok. area. Qed.
Lemma gives_insert_allocated a b : area_typed a -> gives (binder_insert_allocated_buffer a b) area_typed.
Proof. intros Ha. unfold binder_insert_allocated_buffer. do 3 (eapply gives_bind; [apply gives_any|]; intros ? _). apply gives_ok. area. Qed.
Lemma gives_take a b size new ds os async : area_typed a -> uint64 ds -> uint64 os ->
  gives (take_buffer a b size new ds os async) area_typed.
Proof.
  intros Ha Hd Ho. unfold take_buffer. assert (area_typed (set_free_buffers a (rb_erase b (free_buffers a)))) as H0 by area.
  revert H0. generalize (set_free_buffers a (rb_erase b (free_buffers a))) as a0. intros a0 H0. cbn zeta.
  eapply gives_bind; [by apply gives_get|]. intros v Hv. eapply gives_bind; [apply gives_put; auto with typed|]. intros a1 H1.
  eapply gives_bind; [by apply gives_insert_allocated|]. intros a2 H2. eapply (gives_bind _ _ area_typed).
  - destruct (new =? size); [by apply gives_ok|]. eapply gives_bind; [|intros a3 H3; by apply gives_insert_free].
    pose proof (junk_typed (data b + size)). apply gives_put; [area|auto with typed].
  - intros a3 H3. eapply gives_bind; [by apply gives_get|]. intros w Hw. eapply gives_bind; [apply gives_put; auto with typed|].
    intros a4 H4. apply gives_ok. destruct async; [area|done].
Qed.
Lemma gives_alloc e a ds os async : area_typed a -> uint64 ds -> uint64 os -> gives (binder_alloc_buf e a ds os async) fst_any.
Proof.
  intros Ha Hd Ho. unfold binder_alloc_buf. destruct (vma a); [|by apply gives_ok]. cbn zeta.
  destruct (_ || _); [by apply gives_ok|]. destruct (_ && _); [by apply gives_ok|].
  eapply gives_bind; [apply gives_any|]. intros [[b|] n] _; [|by apply gives_ok].
  eapply gives_bind; [by apply gives_range|]. intros [ret a1] H1. destruct (negb _); [by apply gives_ok|].
  eapply gives_bind; [by apply gives_take|]. intros a2 H2. by apply gives_ok.
Qed.
Lemma gives_delete_free e a b : area_typed a -> gives (binder_delete_free_buffer e a b) area_typed.
Proof.
  intros Ha. unfold binder_delete_free_buffer. do 4 (eapply gives_bind; [apply gives_any|]; intros ? _).
  assert (area_typed (list_del_buffer a b)) as H1. { destruct Ha. split; cbn; [by apply all_delete|done..]. }
  repeat case_match; try by apply gives_ok. all: eapply gives_bind; [by apply gives_range|]; intros [r a1] G; by apply gives_ok.
Qed.
Lemma gives_free e a b : area_typed a -> gives (binder_free_buf e a b) area_typed.
Proof.
  intros Ha. unfold binder_free_buf. eapply gives_bind; [by apply gives_get|]. intros v Hv. cbn zeta.
  do 5 (eapply gives_bind; [apply gives_any|]; intros ? _).
  eapply gives_bind; [apply gives_range; destruct (b_async_transaction v); [area|done]|]. intros [r a1] H1.
  eapply gives_bind; [apply gives_put; [area|auto with typed]|]. intros a2 H2.
  eapply (gives_bind _ _ area_typed).
  - destruct (list_next _ _) as [nx|]; [|by apply gives_ok]. eapply gives_bind; [by apply gives_get|]. intros w _.
    destruct (b_free w); [|by apply gives_ok]. apply gives_delete_free. area.
  - intros a3 H3. eapply (gives_bind _ _ fst_any); [|intros [c a4] H4; by apply gives_insert_free].
    case_bool_decide; [by apply gives_ok|]. eapply gives_bind; [apply gives_any|]. intros prev _.
    eapply gives_bind; [by apply gives_get|]. intros w _. destruct (b_free w); [|by apply gives_ok].
    eapply gives_bind; [by apply gives_delete_free|]. intros a4 H4. apply gives_ok. cbn. area.
Qed.
Lemma gives_mmap e base size offset vm mm : uint64 size -> uint64 offset ->
  gives (mmap_buffers e base size offset vm mm) (fun o => forall a, o = Some a -> area_typed a).
Proof.
  intros Hs Ho. unfold mmap_buffers. cbn zeta. eapply gives_bind; [apply gives_range; split; [apply all_empty|done..]|].
  intros [ret a1] H1. destruct (negb _); [by apply gives_ok|]. pose proof (junk_typed base).
  eapply gives_bind; [apply gives_put; [area|auto with typed]|]. intros a2 H2.
  eapply gives_bind; [by apply gives_insert_free|]. intros a3 H3. apply gives_ok. intros a [= <-]. area.
Qed.
End Allocator.

(** ** The judgement *)
Definition yields {A} (m : K A) (Q : A -> Prop) : Prop := forall s a s', typed s -> m s = Ok (a, s') -> typed s' /\ Q a.

Section Rules.
Lemma yields_ret {A} (a : A) (Q : A -> Prop) : Q a -> yields (mret a) Q.
Proof. intros Ha s b s' Hs [= <- <-]. by split. Qed.
Lemma yields_bind {A B} (m : K A) (f : A -> K B) P Q : yields m P -> (forall a, P a -> yields (f a) Q) -> yields (m ≫= f) Q.
Proof. intros Hm Hf s b s' Hs E. apply bind_ok in E as (a & s1 & E1 & E). destruct (Hm _ _ _ Hs E1) as [H1 HP]. exact (Hf a HP _ _ _ H1 E). Qed.
Lemma yields_does {E A B} (m : K A) (f : A -> stage E B) P Q : yields m P -> (forall a, P a -> yields (f a) Q) -> yields (and_then (does m) f) Q.
Proof.
  intros Hm Hf. unfold and_then, does. apply yields_bind with (fun x => match x with inr a => P a | inl _ => False end).
  - eapply yields_bind; [exact Hm|]. intros a Ha. by apply yields_ret.
  - intros [e|a]; [done|apply Hf].
Qed.
Lemma yields_and_then {E A B} (m : stage E A) (f : A -> stage E B) Q :
  yields m any -> (forall e, Q (inl e)) -> (forall a, yields (f a) Q) -> yields (and_then m f) Q.
Proof. intros Hm He Hf. eapply yields_bind; [exact Hm|]. intros [e|a] _; [by apply yields_ret|apply Hf]. Qed.
Lemma yields_any {A} (m : K A) Q : yields m Q -> yields m any.
Proof. intros H s a s' Hs E. split; [by eapply H|done]. Qed.
Lemma yields_get_in {A} (f : kstate -> A) (Q : A -> Prop) : (forall s, typed s -> Q (f s)) -> yields (get f) Q.
Proof. intros H s a s' Hs [= <- <-]. auto. Qed.
Lemma yields_get {A} (f : kstate -> A) : yields (get f) any.
Proof. by intros s a s' Hs [= <- <-]. Qed.
Lemma yields_klift {A} (m : res A) : yields (klift m) any.
Proof. intros s a s' Hs E. apply klift_ok in E as [_ ->]. done. Qed.
Lemma yields_gives {A} (m : res A) Q : gives m Q -> yields (klift m) Q.
Proof. intros H s a s' Hs E. apply klift_ok in E as [E ->]. split; [done|by apply H]. Qed.
Lemma yields_obj {A} (m : kstate -> gmap Z A) k (P : A -> Prop) : (forall s, typed s -> all P (m s)) -> yields (get_obj m k) P.
Proof. intros H s a s' Hs E. apply get_obj_ok in E as [E ->]. split; [done|]. by eapply H. Qed.
Lemma yields_modify f : (forall s, typed s -> typed (f s)) -> yields (modify f) any.
Proof. intros H s a s' Hs [= _ <-]. split; [by apply H|done]. Qed.
Lemma yields_when c (m : K unit) : yields m any -> yields (when c m) any.
Proof. destruct c; [done|]. intros _. by apply yields_ret. Qed.
Lemma yields_node n : yields (get_node n) node_typed.
Proof. apply yields_obj. by intros s []. Qed.
Lemma yields_ref r : yields (get_ref r) ref_typed.
Proof. apply yields_obj. by intros s []. Qed.
Lemma yields_death d : yields (get_death d) death_typed.
Proof. apply yields_obj. by intros s []. Qed.
Lemma yields_txn t : yields (get_txn t) txn_typed.
Proof. apply yields_obj. by intros s []. Qed.
Lemma yields_proc p : yields (get_proc p) proc_typed.
Proof. apply yields_obj. by intros s []. Qed.
Lemma yields_content b : yields (get_content b) content_typed.
Proof. apply yields_obj. by intros s []. Qed.
Lemma yields_thread th : yields (get_thread th) thread_typed.
Proof. apply yields_obj. by intros s []. Qed.
Lemma yields_put_thread th T : thread_typed T -> yields (put_thread th T) any.
Proof. intros HN. apply yields_modify. intros s []. split; try done. by apply all_insert. Qed.
Lemma yields_put_node n N : node_typed N -> yields (put_node n N) any.
Proof. intros HN. apply yields_modify. intros s []. split; try done. by apply all_insert. Qed.
Lemma yields_put_ref r R : ref_typed R -> yields (put_ref r R) any.
Proof. intros HN. apply yields_modify. intros s []. split; try done. by apply all_insert. Qed.
Lemma yields_put_death d D : death_typed D -> yields (put_death d D) any.
Proof. intros HN. apply yields_modify. intros s []. split; try done. by apply all_insert. Qed.
Lemma yields_put_txn t T : txn_typed T -> yields (put_txn t T) any.
Proof. intros HN. apply yields_modify. intros s []. split; try done. by apply all_insert. Qed.
Lemma yields_put_proc p P : proc_typed P -> yields (put_proc p P) any.
Proof. intros HN. apply yields_modify. intros s []. split; try done. by apply all_insert. Qed.
Lemma yields_put_content b c : content_typed c -> yields (put_content b c) any.
Proof. intros HN. apply yields_modify. intros s []. split; try done. by apply all_insert. Qed.
End Rules.

(** ** Through the code *)
Create HintDb yields.
(** The result of a step, as far as something is known of it. *)
Ltac yields_leaf :=
  lazymatch goal with
  | |- yields (get_node _) _ => apply yields_node
  | |- yields (get_ref _) _ => apply yields_ref
  | |- yields (get_death _) _ => apply yields_death
  | |- yields (get_txn _) _ => apply yields_txn
  | |- yields (get_proc _) _ => apply yields_proc
  | |- yields (get_content _) _ => apply yields_content
  | |- yields (get_thread _) _ => apply yields_thread
  | |- yields (get _) _ => apply yields_get
  | |- yields (klift _) _ => apply yields_klift
  | |- yields (BUG_ON _) _ => apply yields_klift
  | |- yields _ _ => solve [eauto with yields nocore]
  end.
Ltac yields1 :=
  lazymatch goal with
  | |- forall _, _ => intros ?
  | |- any _ -> _ => intros _
  | |- _ -> _ => intros ?
  | |- yields (mret _) _ => apply yields_ret; try done
  | |- yields (_ ≫= _) _ => first [eapply yields_bind; [yields_leaf|]|eapply (yields_bind _ _ any)]
  | |- yields (and_then (does _) _) _ => first [eapply yields_does; [yields_leaf|]|eapply (yields_does _ _ any)]
  | |- yields (and_then _ _) _ => apply yields_and_then; [|try done|]
  | |- yields (does _) _ => unfold does
  | |- yields (goes _) _ => unfold goes
  | |- yields (exits _) _ => unfold exits
  | |- yields (when _ _) _ => apply yields_when
  | |- yields (if ?c then _ else _) _ => destruct c
  | |- yields (match ?x with _ => _ end) _ => destruct x
  | |- yields (put_node _ _) _ => apply yields_put_node; auto with typed
  | |- yields (put_ref _ _) _ => apply yields_put_ref; auto with typed
  | |- yields (put_death _ _) _ => apply yields_put_death; auto with typed
  | |- yields (put_txn _ _) _ => apply yields_put_txn; auto with typed
  | |- yields (put_proc _ _) _ => apply yields_put_proc; auto with typed
  | |- yields (put_content _ _) _ => apply yields_put_content; auto with typed
  | |- yields (mod_node _ _) _ => unfold mod_node
  | |- yields (mod_ref _ _) _ => unfold mod_ref
  | |- yields (mod_death _ _) _ => unfold mod_death
  | |- yields (mod_txn _ _) _ => unfold mod_txn
  | |- yields (mod_proc _ _) _ => unfold mod_proc
  | |- yields (mod_thread _ _) _ => unfold mod_thread
  | |- yields (put_thread _ _) _ => apply yields_put_thread; auto with typed
  | |- yields (modify _) _ => apply yields_modify; let s := fresh in intros s []; split; first [assumption|by apply all_delete|solve [auto with typed]]
  end.
Ltac yield := repeat first [yields_leaf|apply yields_any with any; yields_leaf|yields1; cbn beta zeta].

(** ** Operations keep the fields in their types

    The judgement for the operations on nodes, references and buffers, for
    transactions and for the commands. *)


Section Ops.
Context {M : Type} `{uops : UserOps M} {ulaws : UserLaws uops}.
Context `{env : KernelEnv} `{rb : RbOps} `{jk : Junk} `{!EnvTyped env} `{!JunkTyped jk}.

(** ** Leaves *)
Lemma yields_list_del w : yields (list_del_work w) any.
Proof. unfold list_del_work. yield. Qed.
Lemma yields_list_add w h : yields (list_add_tail w h) any.
Proof. unfold list_add_tail. yield. Qed.
Lemma yields_list_head_add w h : yields (list_add_head w h) any.
Proof. unfold list_add_head. yield. Qed.
Lemma yields_bump c : yields (bump c) any.
Proof. apply yields_modify. intros s []. split; try done. cbn. intros c'. case_decide; auto with typed. Qed.
Lemma yields_created ty : yields (binder_stats_created ty) any.
Proof. apply yields_bump. Qed.
Lemma yields_deleted ty : yields (binder_stats_deleted ty) any.
Proof. apply yields_bump. Qed.
Lemma yields_next_id : yields next_id int.
Proof.
  unfold next_id. eapply yields_bind; [apply yields_modify; intros s []; split; try done; apply s32_int|].
  intros _ _. apply yields_get_in. by intros s [].
Qed.
Lemma yields_new_ticket : yields new_ticket any.
Proof. unfold new_ticket. yield. Qed.
Hint Resolve yields_list_del yields_list_add yields_list_head_add yields_bump yields_created yields_deleted yields_next_id yields_new_ticket : yields.
Lemma yields_kzalloc : yields kzalloc any.
Proof. unfold kzalloc. yield. Qed.
Lemma yields_free_node n : yields (free_node n) any.
Proof. unfold free_node. yield. Qed.
Lemma yields_free_ref r : yields (free_ref r) any.
Proof. unfold free_ref. yield. Qed.
Lemma yields_free_death d : yields (free_death d) any.
Proof. unfold free_death. yield. Qed.
Lemma yields_free_txn t : yields (free_txn t) any.
Proof. unfold free_txn. yield. Qed.
Lemma yields_free_proc p : yields (free_proc p) any.
Proof. unfold free_proc. yield. Qed.
Lemma yields_free_thread th : yields (free_thread th) any.
Proof. unfold free_thread. yield. Qed.
Lemma yields_user_nice pid nice : yields (set_user_nice pid nice) any.
Proof.
  unfold set_user_nice. apply yields_modify. intros s Hs. destruct (_ && _) eqn:E; [|done]. destruct Hs. split; try done.
  apply all_insert; [|done]. unfold nice_value. lia.
Qed.
Hint Resolve yields_user_nice : yields.
Lemma yields_set_nice cur nice : yields (binder_set_nice cur nice) any.
Proof. unfold binder_set_nice. yield. Qed.
Lemma yields_task_nice pid : yields (task_nice pid) nice_value.
Proof.
  unfold task_nice. apply yields_get_in. intros s []. destruct (nices s !! pid) as [x|] eqn:E; [by apply (ty_nices0 pid)|done].
Qed.
Lemma yields_fget cur fd : yields (fget cur fd) any.
Proof. unfold fget. yield. Qed.
Lemma yields_unused_fd P : yields (task_get_unused_fd_flags P) any.
Proof. unfold task_get_unused_fd_flags. yield. Qed.
Lemma yields_fd_install P fd file : yields (task_fd_install P fd file) any.
Proof. unfold task_fd_install. yield. Qed.
Lemma yields_close_fd P fd : yields (task_close_fd P fd) any.
Proof. unfold task_close_fd. yield. Qed.
Hint Resolve yields_kzalloc yields_free_node yields_free_ref yields_free_death yields_free_txn yields_free_proc yields_free_thread : yields.
Hint Resolve yields_set_nice yields_task_nice yields_fget yields_unused_fd yields_fd_install yields_close_fd : yields.

(** ** Nodes and references *)
Lemma yields_get_node_at p ptr : yields (binder_get_node p ptr) any.
Proof. unfold binder_get_node. yield. Qed.
Lemma yields_new_node p ptr ck : uint64 ptr -> uint64 ck -> yields (binder_new_node p ptr ck) any.
Proof. intros H1 H2. unfold binder_new_node. yield. Qed.
Lemma yields_inc_node n st i tl : yields (binder_inc_node n st i tl) any.
Proof. unfold binder_inc_node. yield. Qed.
Lemma yields_dec_node n st i : yields (binder_dec_node n st i) any.
Proof. unfold binder_dec_node, unused_node. yield. Qed.
Hint Resolve yields_get_node_at yields_inc_node yields_dec_node : yields.
Lemma pick_desc_typed l x : uint32 x -> uint32 (pick_desc l x).
Proof. revert x. induction l as [|d l IH]; intros x Hx; cbn; [done|]. destruct (x <? d); [done|]. apply IH, u32_range. Qed.
Lemma yields_get_ref_at p d : yields (binder_get_ref p d) any.
Proof. unfold binder_get_ref. yield. Qed.
Lemma yields_get_ref_for_node p n : yields (binder_get_ref_for_node p n) any.
Proof.
  unfold binder_get_ref_for_node. yield. split; cbn; auto with typed. apply pick_desc_typed. case_decide; auto with typed.
Qed.
Lemma yields_delete_ref r : yields (binder_delete_ref r) any.
Proof. unfold binder_delete_ref. yield. Qed.
Lemma yields_inc_ref r st tl : yields (binder_inc_ref r st tl) any.
Proof. unfold binder_inc_ref. yield. Qed.
Hint Resolve yields_get_ref_at yields_get_ref_for_node yields_delete_ref yields_inc_ref : yields.
Lemma yields_dec_ref r st : yields (binder_dec_ref r st) any.
Proof. unfold binder_dec_ref. yield. Qed.
Hint Resolve yields_dec_ref : yields.

(** ** Buffers *)
Lemma yields_get_buf pb : yields (get_buf pb) buffer_typed.
Proof.
  unfold get_buf. eapply yields_bind; [apply yields_proc|]. intros P HP. apply yields_gives, gives_get. by destruct HP.
Qed.
Lemma yields_put_buf pb v : buffer_typed v -> yields (put_buf pb v) any.
Proof.
  intros Hv. unfold put_buf. eapply yields_bind; [apply yields_proc|]. intros P HP.
  eapply yields_bind; [apply yields_gives, gives_put; [by destruct HP|done]|]. yield.
Qed.
Hint Resolve yields_get_buf : yields.
Hint Extern 2 (yields (put_buf _ _) _) => apply yields_put_buf; auto with typed : yields.
Lemma yields_mod_buf pb f : (forall v, buffer_typed v -> buffer_typed (f v)) -> yields (mod_buf pb f) any.
Proof.
  intros Hf. unfold mod_buf. eapply yields_bind; [apply yields_get_buf|]. intros v Hv. by apply yields_put_buf, Hf.
Qed.
Hint Extern 2 (yields (mod_buf _ _) _) => apply yields_mod_buf; intros ? ?; auto with typed : yields.
Lemma yields_alloc_buf p ds os a : uint64 ds -> uint64 os -> yields (alloc_buf p ds os a) any.
Proof.
  intros Hd Ho. unfold alloc_buf. eapply yields_bind; [apply yields_proc|]. intros P HP.
  eapply yields_bind; [apply yields_new_ticket|]. intros tk _.
  eapply yields_bind; [apply yields_gives, gives_alloc; [by destruct HP|done..]|]. intros [o b] Hb. unfold fst_any in Hb. cbn in Hb. yield.
Qed.
Lemma yields_free_buf pb : yields (free_buf pb) any.
Proof.
  unfold free_buf. eapply yields_bind; [apply yields_proc|]. intros P HP. eapply yields_bind; [apply yields_new_ticket|]. intros tk _.
  eapply yields_bind; [apply yields_gives, gives_free; by destruct HP|]. yield.
Qed.
Hint Resolve yields_free_buf : yields.

(** ** Payloads *)
Record obj_typed (fp : flat_binder_object) : Prop := { ot_binder : uint64 (fo_binder fp); ot_cookie : uint64 (fo_cookie fp) }.
Lemma obj_at_typed c off : content_typed c -> obj_typed (obj_at c off).
Proof.
  intros [Hd _]. unfold obj_at. set (l := take _ _). assert (Forall is_byte l) as Hl by by apply Forall_take, Forall_drop.
  unfold obj_of_bytes. pose proof (words_of_range obj_widths l Hl) as H.
  destruct (words_of obj_widths l) as [|? [|? [|? [|? [|]]]]] eqn:E; try by split; cbn; auto with typed.
  unfold obj_widths in H. repeat match goal with H : Forall2 _ (_ :: _) _ |- _ => apply Forall2_cons_1 in H as [? H] end. by split.
Qed.
Lemma overwrite_bytes off l data : Forall is_byte l -> Forall is_byte data -> Forall is_byte (overwrite off l data).
Proof. intros H1 H2. unfold overwrite. rewrite !Forall_app. split_and!; [by apply Forall_take|done|by apply Forall_drop]. Qed.
Lemma store_typed k w x off c : content_typed c -> content_typed (store_field k w x off c).
Proof. intros [H1 H2]. split; [|done]. cbn. apply overwrite_bytes; [apply le_bytes_byte|done]. Qed.
Hint Resolve store_typed : typed.
Hint Extern 1 (content_typed (store_type _ _ _)) => apply store_typed : typed.
Hint Extern 1 (content_typed (store_handle _ _ _)) => apply store_typed : typed.
Hint Extern 1 (content_typed (store_binder _ _ _)) => apply store_typed : typed.
Hint Extern 1 (content_typed (store_cookie _ _ _)) => apply store_typed : typed.
Lemma yields_mod_content b f : (forall c, content_typed c -> content_typed (f c)) -> yields (mod_content b f) any.
Proof. intros Hf. unfold mod_content. yield. Qed.
Hint Extern 2 (yields (mod_content _ _) _) => apply yields_mod_content; intros ? ?; auto with typed : yields.
Lemma yields_offset_at c i : yields (offset_at c i) any.
Proof. unfold offset_at. yield. Qed.
Lemma yields_release_object p failed fp : yields (release_object p failed fp) any.
Proof. unfold release_object. yield. Qed.
Hint Resolve yields_offset_at yields_release_object : yields.
Lemma yields_release_objects k i p b ds failed : yields (release_objects k i p b ds failed) any.
Proof. revert i. induction k as [|k IH]; intros i; cbn [release_objects]; yield. Qed.
Hint Resolve yields_release_objects : yields.
Lemma yields_buffer_release p b f : yields (binder_transaction_buffer_release p b f) any.
Proof. unfold binder_transaction_buffer_release. yield. Qed.
Lemma yields_pop o t : yields (binder_pop_transaction o t) any.
Proof. unfold binder_pop_transaction. yield. Qed.
Hint Resolve yields_buffer_release yields_pop : yields.
Lemma yields_failed_reply_loop k t code : uint32 code -> yields (send_failed_reply_loop k t code) any.
Proof. intros Hc. revert t. induction k as [|k IH]; intros t; cbn [send_failed_reply_loop]; yield. Qed.
Hint Resolve yields_failed_reply_loop : yields.
Lemma yields_failed_reply t code : uint32 code -> yields (binder_send_failed_reply t code) any.
Proof. intros Hc. unfold binder_send_failed_reply. yield. Qed.
Hint Resolve yields_failed_reply : yields.

(** ** Transactions *)
Lemma log_at_typed e f l : (forall x, entry_typed x -> entry_typed (f x)) -> log_typed l -> log_typed (log_at e f l).
Proof.
  intros Hf []. split; cbn; [done|by rewrite length_alter|]. apply Forall_lookup. intros i x H.
  rewrite Forall_lookup in lt_entries0. destruct (decide (i = e)) as [->|Hi].
  - rewrite list_lookup_alter_eq in H. destruct (log_entries l !! e) as [y|] eqn:E; [|done]. injection H as <-. eauto.
  - rewrite list_lookup_alter_ne in H by done. eauto.
Qed.
Lemma zero_typed : entry_typed log_zero.
Proof. split; cbn; auto with typed. Qed.
Lemma log_add_typed l : log_typed l -> log_typed (binder_transaction_log_add l).2.
Proof.
  intros []. unfold binder_transaction_log_add, LOG_SIZE in *.
  assert (Forall entry_typed (<[Z.to_nat (log_next l) := log_zero]> (log_entries l))) by (apply Forall_insert; [done|apply zero_typed]).
  destruct (Z.eqb_spec (log_next l + 1) 32); split; cbn; unfold LOG_SIZE; rewrite ?length_insert; done || lia.
Qed.
Lemma yields_log e f : (forall x, entry_typed x -> entry_typed (f x)) -> yields (log_update e f) any.
Proof. intros Hf. apply yields_modify. intros s []. split; try done. by apply log_at_typed. Qed.
Hint Extern 2 (yields (log_update _ _) _) => apply yields_log; intros ? ?; auto with typed : yields.
Lemma yields_reply_target cur th : yields (reply_target cur th) any.
Proof. unfold reply_target. yield. Qed.
Lemma yields_caller_in k tp (t found : option Z) : yields (caller_in k tp t found) any.
Proof. revert t found. induction k as [|k IH]; intros t found; cbn [caller_in]; yield. Qed.
Hint Resolve yields_reply_target yields_caller_in : yields.
Lemma yields_call_target p th tr e : yields (call_target p th tr e) any.
Proof. unfold call_target. yield. Qed.
Lemma yields_translate_binder p th tp b off fp : obj_typed fp -> yields (translate_binder p th tp b off fp) any.
Proof. intros [H1 H2]. pose proof (yields_new_node p _ _ H1 H2). unfold translate_binder. yield. Qed.
Lemma yields_translate_handle p tp b off fp : yields (translate_handle p tp b off fp) any.
Proof. unfold translate_handle. yield. Qed.
Lemma yields_translate_fd cur p tg b off fp : yields (translate_fd cur p tg b off fp) any.
Proof. unfold translate_fd. yield. Qed.
Hint Resolve yields_call_target yields_translate_binder yields_translate_handle yields_translate_fd obj_at_typed : yields.
Lemma yields_translate_objects k i cur p th tg b ds : yields (translate_objects k i cur p th tg b ds) any.
Proof. revert i. induction k as [|k IH]; intros i; cbn [translate_objects]; unfold translate_object; yield. Qed.
Hint Resolve yields_translate_objects : yields.
Lemma yields_fill_buffer u cur p th tr tg b : yields (fill_buffer u cur p th tr tg b) any.
Proof.
  unfold fill_buffer. destruct (copy_from_user u (td_buffer tr) _) as [l1|] eqn:E1; [|yield].
  destruct (copy_from_user u (td_offsets tr) _) as [l2|] eqn:E2; [|yield].
  apply copy_from_user_bytes in E1, E2. assert (content_typed (MkContent l1 l2)) by by split. yield.
Qed.
Hint Resolve yields_fill_buffer : yields.
Lemma yields_deliver th tg t c b : yields (deliver th tg t c b) any.
Proof. unfold deliver. yield. Qed.
Lemma yields_release_buffer tg b i : yields (release_buffer tg b i) any.
Proof. unfold release_buffer. yield. Qed.
Record data_typed (tr : binder_transaction_data) : Prop := {
  dt_code : uint32 (td_code tr);
  dt_flags : uint32 (td_flags tr);
  dt_data : uint64 (td_data_size tr);
  dt_offsets : uint64 (td_offsets_size tr)
}.
Lemma yields_new_transaction cur p th tr tg t id : data_typed tr -> int id -> yields (new_transaction cur p th tr tg t id) any.
Proof. intros [] Hid. pose proof euid_typed. unfold new_transaction. yield. Qed.
Hint Resolve yields_deliver yields_release_buffer yields_new_transaction : yields.
Lemma yields_send_to u cur p th tr tg e : data_typed tr -> yields (send_to u cur p th tr tg e) any.
Proof.
  intros Ht. pose proof (yields_alloc_buf (tg_proc tg) _ _ (negb (bool_decide (is_Some (tg_in_reply_to tg))) && one_way (td_flags tr)) (dt_data _ Ht) (dt_offsets _ Ht)).
  unfold send_to. yield.
Qed.
Lemma yields_fail th e ret irt : uint32 ret -> yields (fail_transaction th e ret irt) any.
Proof.
  intros Hr. unfold fail_transaction. eapply yields_bind with any; [|intros _ _; yield]. apply yields_modify. intros s Hs.
  pose proof (log_add_typed (tlog_failed s)) as Hl. destruct (binder_transaction_log_add (tlog_failed s)) as [fe l]. destruct Hs. split; try done.
  apply log_at_typed; [|by apply Hl]. intros _ _. destruct ty_tlog0. destruct (log_entries (tlog s) !! e) as [x|] eqn:E; [|apply zero_typed].
  by eapply Forall_lookup.
Qed.
Hint Resolve yields_send_to yields_fail : yields.
Lemma yields_bad {A} (m : stage exit_ A) : yields m any -> bad_exits m ->
  yields m (fun x => match x with inl (ret, _) => uint32 ret | inr _ => True end).
Proof.
  intros Hm Hb s x s' Hs E. split; [by eapply Hm|]. destruct x as [[ret o]|]; [|done].
  destruct (Hb _ _ _ E) as [H|H]; cbn in H; rewrite H; auto with typed.
Qed.
Lemma yields_transaction u cur p th tr reply : data_typed tr -> yields (binder_transaction u cur p th tr reply) any.
Proof.
  intros Ht. unfold binder_transaction.
  assert (yields (fun s => let '(e, l) := binder_transaction_log_add (tlog s) in Ok (e, set_tlog s l)) any).
  { intros s e s' Hs E. pose proof (log_add_typed (tlog s)) as Hl. destruct (binder_transaction_log_add (tlog s)) as [e' l].
    injection E as _ <-. split; [|done]. destruct Hs. split; try done. by apply Hl. }
  eapply yields_bind; [apply yields_proc|]. intros P HP. eapply yields_bind; [apply yields_thread|]. intros T HT.
  eapply yields_bind; [done|]. intros e _. eapply yields_bind; [apply yields_log|].
  { intros _ _. destruct HP, HT. split; cbn; repeat case_match; auto with typed. }
  intros [] _. eapply (yields_bind _ _ (fun x => match x with inl (ret, _) => uint32 ret | inr _ => True end)).
  - eapply yields_bad; [|apply stages_bad]. yield.
  - intros [[ret irt]|[]] Hx; yield.
Qed.
Hint Resolve yields_transaction : yields.

(** ** Commands *)
Lemma yields_stat_bc p th cmd : yields (binder_stat_bc p th cmd) any.
Proof. unfold binder_stat_bc. yield. Qed.
Lemma yields_write_refs p cmd target : yields (write_refs p cmd target) any.
Proof. unfold write_refs. yield. Qed.
Lemma yields_write_refs_done p cmd ptr ck : yields (write_refs_done p cmd ptr ck) any.
Proof. unfold write_refs_done. yield. Qed.
Lemma yields_next_async th n : yields (next_async th n) any.
Proof. unfold next_async, list_head. yield. Qed.
Hint Resolve yields_stat_bc yields_write_refs yields_write_refs_done yields_next_async : yields.
Lemma yields_write_free p th ptr : yields (write_free_buffer p th ptr) any.
Proof. unfold write_free_buffer. yield. Qed.
Lemma yields_register p th : yields (write_register_looper p th) any.
Proof. unfold write_register_looper. yield. Qed.
Lemma yields_enter th : yields (write_enter_looper th) any.
Proof. unfold write_enter_looper. yield. Qed.
Lemma yields_exit th : yields (write_exit_looper th) any.
Proof. unfold write_exit_looper. yield. Qed.
Lemma yields_queue_death p th d : yields (queue_death p th d) any.
Proof. unfold queue_death. yield. Qed.
Hint Resolve yields_write_free yields_register yields_enter yields_exit yields_queue_death : yields.
Lemma yields_request_death p th tg ck : uint64 ck -> yields (write_request_death p th tg ck) any.
Proof. intros Hc. unfold write_request_death. yield. Qed.
Lemma yields_clear_death p th tg ck : yields (write_clear_death p th tg ck) any.
Proof. unfold write_clear_death. yield. Qed.
Lemma yields_find_death l ck : yields (find_death l ck) any.
Proof. induction l as [|w l IH]; cbn [find_death]; [yield|]. destruct w; yield. Qed.
Hint Resolve yields_request_death yields_clear_death yields_find_death : yields.
Lemma yields_dead_done p th ck : yields (write_dead_binder_done p th ck) any.
Proof. unfold write_dead_binder_done. yield. Qed.
Hint Resolve yields_dead_done : yields.
(** A word that was fetched fits. *)
Lemma yields_fetch {A} u ptr w (f : Z -> stage Z A) Q : (forall x, word w x -> yields (f x) Q) -> (forall e, Q (inl e)) -> yields (and_then (fetch u ptr w) f) Q.
Proof.
  intros Hf Hq. unfold and_then. eapply yields_bind with (fun x => match x with inr a => word w a | inl _ => True end).
  - unfold fetch, get_user. destruct (copy_from_user u ptr w) as [l|] eqn:E; cbn; [|by apply yields_ret]. apply yields_ret.
    pose proof (le_val_range l (copy_from_user_bytes _ _ _ _ E)) as H. by rewrite (copy_from_user_length _ _ _ _ E) in H.
  - intros [e|a] Ha; [by apply yields_ret|by apply Hf].
Qed.
Lemma txn_data_typed u ptr l : copy_from_user u ptr sizeof_binder_transaction_data = Some l -> data_typed (txn_of_bytes l).
Proof.
  intros E. pose proof (txn_range l (copy_from_user_bytes _ _ _ _ E) (copy_from_user_length _ _ _ _ E)) as H. unfold txn_widths, txn_fields in H.
  repeat match goal with H : Forall2 _ (_ :: _) _ |- _ => apply Forall2_cons_1 in H as [? H] end. by split.
Qed.
Lemma yields_write_command u cur p th cmd ptr : yields (write_command u cur p th cmd ptr) any.
Proof.
  pose proof (txn_data_typed u ptr) as Ht. unfold write_command.
  destruct (copy_from_user u ptr sizeof_binder_transaction_data) as [l|]; [specialize (Ht l eq_refl)|clear Ht];
    repeat first [apply yields_fetch; [intros ? ?|done]|yields_leaf|yields1; cbn beta zeta].
Qed.
Hint Resolve yields_write_command : yields.
Lemma yields_write_loop k u cur p th buf ptr e c : yields (write_loop k u cur p th buf ptr e c) any.
Proof. revert ptr c. induction k as [|k IH]; intros ptr c; cbn [write_loop]; yield. Qed.
Hint Resolve yields_write_loop : yields.
Lemma yields_thread_write u cur p th buf size c : yields (binder_thread_write u cur p th buf size c) any.
Proof. unfold binder_thread_write. yield. Qed.
End Ops.
#[export] Hint Resolve yields_list_del yields_list_add yields_list_head_add yields_bump yields_created yields_deleted yields_next_id yields_new_ticket : yields.
#[export] Hint Resolve yields_kzalloc yields_free_node yields_free_ref yields_free_death yields_free_txn yields_free_proc yields_free_thread : yields.
#[export] Hint Resolve yields_set_nice yields_task_nice yields_get_node_at yields_new_node yields_inc_node yields_dec_node yields_delete_ref : yields.
#[export] Hint Resolve yields_get_buf yields_free_buf yields_failed_reply yields_thread_write : yields.
#[export] Hint Extern 2 (yields (put_buf _ _) _) => apply yields_put_buf; auto with typed : yields.
#[export] Hint Extern 2 (yields (mod_buf _ _) _) => apply yields_mod_buf; intros ? ?; auto with typed : yields.
#[export] Hint Extern 2 (yields (binder_send_failed_reply _ _) _) => apply yields_failed_reply; auto with typed : yields.
