(* ===== verification/Sound.v ===== *)
(** * Soundness of areas and transaction stacks

    [sound]: every process has a well-formed buffer area or none, and transactions
    point to older ones only.  The file has the rules for operations that keep it, and
    the operations on buffers and transactions; the others respect it as they respect
    every relation that looks at areas, threads and transactions alone ([LocalRel]). *)
From S2P Require Import Prelude UserMem RbTree Alloc AllocInv AllocSpec AllocFree AllocMap Protocol Kernel Refs Transact Send Write Read Driver KernelWp Keeps SendSpec FailedReply.

Implicit Types (p n r d t th b : Z) (s : kstate) (o : option (Z * Z)).

(** A transaction was made in an older one; what it was read into was there before. *)
Record ordered s : Prop := {
  or_known t T : txns s !! t = Some T -> t <= ticket s;
  or_from t T t' : txns s !! t = Some T -> t_from_parent T = Some t' -> t' < t;
  or_to t T t' : txns s !! t = Some T -> t_to_parent T = Some t' -> t' <= ticket s;
  or_stack th T t : threads s !! th = Some T -> th_transaction_stack T = Some t -> t <= ticket s
}.
Record sound s : Prop := {
  so_areas p P : procs s !! p = Some P -> area_ok (p_alloc P);
  so_order : ordered s
}.

(** With [Some (t, th)]: the transaction [t] that the thread [th] makes is newer than
    all it has on its stack. *)
Definition newest o s : Prop :=
  match o with
  | None => True
  | Some (t, th) => t <= ticket s /\ forall T t', threads s !! th = Some T -> th_transaction_stack T = Some t' -> t' < t
  end.
Definition keeps_sound o s s' : Prop := sound s /\ newest o s -> sound s' /\ newest o s'.
#[export] Instance keeps_sound_preorder o : PreOrder (keeps_sound o).
Proof. split; [by intros s H|]. intros s1 s2 s3 H1 H2 H. by apply H2, H1. Qed.

(** The whole of a state that the conditions look at. *)
Lemma sound_frame s s' : p_alloc <$> procs s' = p_alloc <$> procs s -> txns s' = txns s ->
  th_transaction_stack <$> threads s' = th_transaction_stack <$> threads s -> ticket s <= ticket s' ->
  forall o, keeps_sound o s s'.
Proof.
  intros E1 E2 E3 E4 o [[Ha [O1 O2 O3 O4]] Hn].
  assert (Ht : forall th T, threads s' !! th = Some T -> exists T0, threads s !! th = Some T0 /\ th_transaction_stack T0 = th_transaction_stack T).
  { intros th T HT. assert (H : (th_transaction_stack <$> threads s') !! th = Some (th_transaction_stack T)) by by rewrite lookup_fmap, HT.
    rewrite E3, lookup_fmap in H. destruct (threads s !! th) as [T0|]; [|done]. injection H as H. eauto. }
  split; [split|].
  - intros p P HP. assert (H : (p_alloc <$> procs s') !! p = Some (p_alloc P)) by by rewrite lookup_fmap, HP.
    rewrite E1, lookup_fmap in H. destruct (procs s !! p) as [P0|] eqn:HP0; [|done]. injection H as <-. eauto.
  - split; rewrite ?E2.
    + intros t T HT. specialize (O1 t T HT). lia.
    + exact O2.
    + intros t T t' HT Hp. specialize (O3 t T t' HT Hp). lia.
    + intros th T t HT Hs. destruct (Ht th T HT) as (T0 & HT0 & E). rewrite <- E in Hs. specialize (O4 th T0 t HT0 Hs). lia.
  - destruct o as [[t th]|]; [|done]. destruct Hn as [Hn1 Hn2]. split; [lia|]. intros T t' HT Hs.
    destruct (Ht th T HT) as (T0 & HT0 & E). rewrite <- E in Hs. eauto.
Qed.
#[export] Instance sound_local o : LocalRel (keeps_sound o).
Proof.
  split; [apply _| | |].
  - intros s s' [E1 E2 E3 E4 E5 E6]. apply sound_frame; try done. by rewrite E1.
  - intros w s _. by apply sound_frame.
  - intros w h s _. by apply sound_frame.
Qed.

(** ** Rules *)
Section Rules.
Context (o : option (Z * Z)).

Lemma sound_same s s' : p_alloc <$> procs s' = p_alloc <$> procs s -> txns s' = txns s -> threads s' = threads s ->
  ticket s <= ticket s' -> keeps_sound o s s'.
Proof. intros E1 E2 E3 E4. apply sound_frame; try done. by rewrite E3. Qed.

(** Changes of one object. *)
Lemma sound_put_thread th T T' s : threads s !! th = Some T -> th_transaction_stack T' = th_transaction_stack T ->
  keeps_sound o s (set_threads s (<[th := T']> (threads s))).
Proof.
  intros HT E. apply sound_frame; try done. cbn. rewrite fmap_insert, E. apply insert_id. by rewrite lookup_fmap, HT.
Qed.
Lemma sound_put_proc p P P' s : procs s !! p = Some P -> (area_ok (p_alloc P) -> area_ok (p_alloc P')) ->
  keeps_sound o s (set_procs s (<[p := P']> (procs s))).
Proof.
  intros HP Ha [[Hs [O1 O2 O3 O4]] Hn]. split; [|exact Hn]. split; [|done]. intros q Q. cbn. destruct (decide (q = p)) as [->|].
  - rewrite lookup_insert_eq. intros [= <-]. eauto.
  - rewrite lookup_insert_ne by done. eauto.
Qed.
Lemma sound_put_txn t T T' s : txns s !! t = Some T -> (t_from_parent T' = t_from_parent T) ->
  (t_to_parent T' = t_to_parent T) -> keeps_sound o s (set_txns s (<[t := T']> (txns s))).
Proof.
  intros HT E1 E2 [[Hs [O1 O2 O3 O4]] Hn]. split; [|exact Hn]. split; [done|].
  split; [|intros u U t'|intros u U t'|done]; [intros u U|..]; cbn; (destruct (decide (u = t)) as [->|];
    [rewrite lookup_insert_eq; intros [= <-]; rewrite ?E1, ?E2; eauto|rewrite lookup_insert_ne by done; eauto]).
Qed.
Lemma sound_del_txn t s : keeps_sound o s (set_txns s (delete t (txns s))).
Proof.
  intros [[Hs [O1 O2 O3 O4]] Hn]. split; [|exact Hn]. split; [done|].
  split; [|intros u U t'|intros u U t'|done]; [intros u U|..]; cbn; intros [_ HU]%lookup_delete_Some; eauto.
Qed.
Lemma sound_del_thread th s : keeps_sound o s (set_threads s (delete th (threads s))).
Proof.
  intros [[Hs [O1 O2 O3 O4]] Hn]. split; [split; [done|split; try done]|].
  - intros u U t. cbn. intros [_ HU]%lookup_delete_Some. eauto.
  - destruct o as [[t th']|]; [|done]. destruct Hn as [Hn1 Hn2]. split; [done|]. intros T t'. cbn. intros [_ HT]%lookup_delete_Some. eauto.
Qed.

Lemma sound_mod_thread th f : (forall T, th_transaction_stack (f T) = th_transaction_stack T) -> keeps (keeps_sound o) (mod_thread th f).
Proof. intros H s x s' E. run_inv. by eapply sound_put_thread. Qed.
Lemma sound_mod_txn t f : (forall T, t_from_parent (f T) = t_from_parent T /\ t_to_parent (f T) = t_to_parent T) ->
  keeps (keeps_sound o) (mod_txn t f).
Proof. intros H s x s' E. unfold mod_txn in E. run_inv. eapply sound_put_txn; [done|apply H..]. Qed.
Lemma sound_free_txn t : keeps (keeps_sound o) (free_txn t).
Proof. unfold free_txn. intros s x s' E. run_inv. apply sound_del_txn. Qed.
Lemma sound_free_thread th : keeps (keeps_sound o) (free_thread th).
Proof. unfold free_thread. intros s x s' E. run_inv. apply sound_del_thread. Qed.
Lemma sound_mod_area p f : (forall a, area_ok a -> area_ok (f a)) -> keeps (keeps_sound o) (mod_proc p (fun P => set_p_alloc P (f (p_alloc P)))).
Proof. intros H s x s' E. run_inv. eapply sound_put_proc; [done|]. cbn. auto. Qed.
End Rules.
#[export] Hint Resolve sound_free_txn sound_free_thread : keeps.
#[export] Hint Extern 2 (keeps (keeps_sound _) (mod_thread _ _)) => apply sound_mod_thread; intros ?; repeat case_match; reflexivity : keeps.
#[export] Hint Extern 2 (keeps (keeps_sound _) (mod_txn _ _)) => apply sound_mod_txn; intros ?; split; reflexivity : keeps.
#[export] Hint Extern 1 (keeps_sound _ _ _) => (apply sound_same; first [reflexivity|cbn; lia]) : keeps.

(** ** Buffers *)
Section Buffers.
Context (o : option (Z * Z)).
Context `{env : KernelEnv} `{rb : RbOps} {laws : RbLaws rb} `{jk : Junk}.

(** A change by the owner. *)
Lemma sound_mod_buf pb f : (forall v, extent (f v) = extent v) -> keeps (keeps_sound o) (mod_buf pb f).
Proof.
  intros H s x s' E. unfold mod_buf, get_buf, put_buf in E. run_inv.
  match goal with H1 : procs s !! _ = Some ?P, H2 : procs s !! _ = Some ?Q |- _ => assert (P = Q) by congruence; subst Q end.
  eapply sound_put_proc; [done|]. intros Ha. cbn. eapply area_put; [exact Ha|eassumption|apply H|eassumption].
Qed.
Lemma sound_alloc_buf p ds os a : 0 <= ds < 2 ^ 64 -> 0 <= os < 2 ^ 64 -> keeps (keeps_sound o) (alloc_buf p ds os a).
Proof.
  intros Hds Hos s x s' E. unfold alloc_buf in E. apply bind_ok in E as (P & s1 & HP & E). apply get_obj_ok in HP as [HP ->].
  apply bind_ok in E as (tk & s1 & E1 & E). kept (keeps_sound o) E1 S1. etransitivity; [exact S1|].
  assert (HP1 : procs s1 !! p = Some P) by (unfold new_ticket in E1; run_inv; done).
  apply bind_ok in E as ([r a'] & s2 & E2 & E). apply klift_ok in E2 as [E2 ->]. apply bind_ok in E as ([] & s2 & E3 & E). apply modify_ok in E3 as ->.
  apply ret_ok in E as [_ ->]. eapply sound_put_proc; [done|]. intros Ha. cbn. eapply area_alloc; [exact Ha|exact Hds|exact Hos|exact E2].
Qed.
Lemma sound_free_buf pb : keeps (keeps_sound o) (free_buf pb).
Proof.
  intros s x s' E. unfold free_buf in E. apply bind_ok in E as (P & s1 & HP & E). apply get_obj_ok in HP as [HP ->].
  apply bind_ok in E as (tk & s1 & E1 & E). kept (keeps_sound o) E1 S1. etransitivity; [exact S1|].
  assert (HP1 : procs s1 !! pb.1 = Some P) by (unfold new_ticket in E1; run_inv; done).
  apply bind_ok in E as (a' & s2 & E2 & E). apply klift_ok in E2 as [E2 ->]. apply bind_ok in E as ([] & s2 & E3 & E). apply modify_ok in E3 as ->.
  apply modify_ok in E as ->. etransitivity; [eapply sound_put_proc; [exact HP1|]|by apply sound_same].
  intros Ha. cbn. eapply area_free; [exact Ha|exact E2].
Qed.
End Buffers.
#[export] Hint Resolve sound_free_buf : keeps.
#[export] Hint Extern 2 (keeps (keeps_sound _) (mod_buf _ _)) => apply sound_mod_buf; intros ?; reflexivity : keeps.

(** ** Commands and returns keep areas and stacks sound *)


Section Ops.
Context {M : Type} `{uops : UserOps M} {ulaws : UserLaws uops}.
Context `{env : KernelEnv} `{rb : RbOps} {laws : RbLaws rb} `{jk : Junk}.

(** ** Queues *)
Ltac elsewhere := apply keeps_modify; intros s; apply sound_same; first [reflexivity|cbn; lia].
Lemma sound_list_add_tail o w h : keeps (keeps_sound o) (list_add_tail w h).
Proof. elsewhere. Qed.
Lemma sound_list_add_head o w h : keeps (keeps_sound o) (list_add_head w h).
Proof. elsewhere. Qed.
Lemma sound_list_del o w : keeps (keeps_sound o) (list_del_work w).
Proof. elsewhere. Qed.
Hint Resolve sound_list_add_tail sound_list_add_head sound_list_del : keeps.

(** ** Transactions *)
Lemma sound_pop oth t : keeps (keeps_sound None) (binder_pop_transaction oth t).
Proof.
  unfold binder_pop_transaction. apply keeps_bind; [apply _| |].
  - destruct oth as [th|]; [|keep]. intros s x s' E. run_inv. intros [[Ha [O1 O2 O3 O4]] _]. split; [|done].
    split; [done|]. match goal with H : txns s !! t = Some ?U |- _ => rename U into U0, H into HU0 end. split; cbn.
    + intros u U. destruct (decide (u = t)) as [->|]; [rewrite lookup_insert_eq; intros [= <-]; eauto|rewrite lookup_insert_ne by done; eauto].
    + intros u U t'. destruct (decide (u = t)) as [->|]; [rewrite lookup_insert_eq; intros [= <-]; cbn; eauto|rewrite lookup_insert_ne by done; eauto].
    + intros u U t'. destruct (decide (u = t)) as [->|]; [rewrite lookup_insert_eq; intros [= <-]; cbn; eauto|rewrite lookup_insert_ne by done; eauto].
    + intros u U t'. destruct (decide (u = th)) as [->|]; [|rewrite lookup_insert_ne by done; eauto].
      rewrite lookup_insert_eq. intros [= <-]. cbn. intros Hf. specialize (O2 t U0 t' HU0 Hf). specialize (O1 t U0 HU0). lia.
  - intros _. unfold put_txn. intros s x s' E. apply bind_ok in E as (T & s1 & HT & E). apply get_obj_ok in HT as [HT ->].
    apply bind_ok in E as ([] & s1 & E1 & E). apply modify_ok in E1 as ->. etransitivity; [by apply (sound_put_txn None t T (set_t_need_reply T false))|].
    by_keep (keeps_sound None) E.
Qed.
Hint Resolve sound_pop : keeps.
Lemma sound_mod_shift o th : keeps (keeps_sound o) (mod_thread th shift_error).
Proof. apply sound_mod_thread. intros T. unfold shift_error. by case_match. Qed.
Hint Resolve sound_mod_shift : keeps.
Lemma sound_send_failed_reply_loop k t code : keeps (keeps_sound None) (send_failed_reply_loop k t code).
Proof. revert t. induction k as [|k IH]; intros t; cbn [send_failed_reply_loop]; keep. Qed.
Hint Resolve sound_send_failed_reply_loop : keeps.
Lemma sound_send_failed_reply t code : keeps (keeps_sound None) (binder_send_failed_reply t code).
Proof. unfold binder_send_failed_reply. keep. Qed.
Hint Resolve sound_send_failed_reply : keeps.
Lemma sound_release_buffer o tg b i : keeps (keeps_sound o) (release_buffer tg b i).
Proof. unfold release_buffer. keep. Qed.
Hint Resolve sound_release_buffer : keeps.

(** A reply takes its transaction off the stack of the sender. *)
Lemma sound_reply_target cur th : keeps (keeps_sound None) (reply_target cur th).
Proof.
  unfold reply_target. intros s x s' E. apply does_then_ok in E as (T & s1 & HT & E). apply get_obj_ok in HT as [HT ->].
  destruct (th_transaction_stack T) as [irt|]; [|by apply ret_ok in E as [_ ->]].
  apply does_then_ok in E as (C & s1 & HC & E). apply get_obj_ok in HC as [HC ->].
  apply does_then_ok in E as ([] & s1 & E1 & E). kept same_txns E1 Q1. destruct Q1 as [Et _].
  kept (keeps_sound None) E1 S1. etransitivity; [exact S1|]. clear S1.
  destruct (negb _); [by apply ret_ok in E as [_ ->]|]. apply does_then_ok in E as ([] & s2 & E2 & E).
  assert (keeps_sound None s1 s2) as S2.
  { run_inv. intros [[Ha [O1 O2 O3 O4]] _]. split; [|done]. split; [done|]. split; [done..|]. cbn. intros u U t'.
    destruct (decide (u = th)) as [->|]; [|rewrite lookup_insert_ne by done; eauto].
    rewrite lookup_insert_eq. intros [= <-]. cbn. intros Hf. rewrite Et in O3. eauto. }
  etransitivity; [exact S2|]. by_keep (keeps_sound None) E.
Qed.

(** The new transaction is in no stack yet, and older ones are below it. *)
Lemma sound_new_transaction th cur p tr tg t id : keeps (keeps_sound (Some (t, th))) (new_transaction cur p th tr tg t id).
Proof.
  unfold new_transaction. do 2 (apply keeps_bind; [apply _|keep|]; intros ?). cbn zeta. apply keeps_modify.
  intros s [[Ha [O1 O2 O3 O4]] [Hn1 Hn2]]. split; [split; [done|]|done]. split; cbn; [| | |done].
  - intros u U. destruct (decide (u = t)) as [->|]; [done|rewrite lookup_insert_ne by done; eauto].
  - intros u U t'. destruct (decide (u = t)) as [->|]; [rewrite lookup_insert_eq; by intros [= <-]|rewrite lookup_insert_ne by done; eauto].
  - intros u U t'. destruct (decide (u = t)) as [->|]; [rewrite lookup_insert_eq; by intros [= <-]|rewrite lookup_insert_ne by done; eauto].
Qed.

(** It goes on the stack with its delivery. *)
Lemma sound_deliver th tg t c b s x s' : sound s -> newest (Some (t, th)) s -> deliver th tg t c b s = Ok (x, s') -> sound s'.
Proof.
  intros Hs Hn E. cut (keeps_sound None s s'); [by intros H; apply H|]. unfold deliver in E.
  apply bind_ok in E as (T & s1 & HT & E). apply get_obj_ok in HT as [HT ->].
  apply bind_ok in E as (v & s1 & Ev & E). assert (s1 = s) as -> by (unfold get_buf in Ev; run_inv; done). cbn zeta in E.
  apply bind_ok in E as (q & s1 & E1 & E). transitivity s1; [|by_keep (keeps_sound None) E]. clear E.
  destruct (tg_in_reply_to tg) as [irt|]; [by_keep (keeps_sound None) E1|]. destruct (negb _).
  - apply bind_ok in E1 as ([] & s2 & E2 & E1). apply BUG_ON_ok in E2 as [_ ->].
    apply bind_ok in E1 as (U & s2 & HU & E1). apply get_obj_ok in HU as [HU ->]. run_inv. intros _. split; [|done].
    destruct Hs as [Ha [O1 O2 O3 O4]], Hn as [Hn1 Hn2]. split; [done|]. split; cbn.
    + intros u V. destruct (decide (u = t)) as [->|]; [done|rewrite lookup_insert_ne by done; eauto].
    + intros u V t'. destruct (decide (u = t)) as [->|]; [rewrite lookup_insert_eq; intros [= <-]; cbn; eauto|rewrite lookup_insert_ne by done; eauto].
    + intros u V t'. destruct (decide (u = t)) as [->|]; [rewrite lookup_insert_eq; intros [= <-]; cbn; eauto|rewrite lookup_insert_ne by done; eauto].
    + intros u V t'. destruct (decide (u = th)) as [->|]; [rewrite lookup_insert_eq; intros [= <-]; cbn; by intros [= <-]|rewrite lookup_insert_ne by done; eauto].
  - by_keep (keeps_sound None) E1.
Qed.
Lemma sound_log o e f : keeps (keeps_sound o) (log_update e f).
Proof. unfold log_update. keep. Qed.
Hint Resolve sound_log : keeps.

(** From the allocation of the new transaction on. *)
Lemma sound_start s t th s' : sound s -> kzalloc s = Ok (Some t, s') -> sound s' /\ newest (Some (t, th)) s'.
Proof.
  intros Hs E. unfold kzalloc, new_ticket in E. run_inv. destruct (kzalloc_ok _); [|done].
  match goal with H : Some _ = Some _ |- _ => injection H as -> end.
  split; [apply (sound_same None s); try done; cbn; lia|]. split; [done|]. intros T t' HT Hst.
  pose proof (or_stack _ (so_order _ Hs) th T t' HT Hst). cbn. lia.
Qed.
(** Steps that keep [newest], and an end that need not. *)
Definition sound_end {A} o (m : K A) : Prop := forall s x s', sound s /\ newest o s -> m s = Ok (x, s') -> sound s'.
Lemma sound_end_keep {A} o (m : K A) : keeps (keeps_sound o) m -> sound_end o m.
Proof. intros H s x s' Hs E. by eapply H. Qed.
Lemma sound_end_bind {A B} o (m : K A) (f : A -> K B) : keeps (keeps_sound o) m -> (forall a, sound_end o (f a)) -> sound_end o (m ≫= f).
Proof. intros Hm Hf s x s' Hs E. apply bind_ok in E as (a & s1 & E1 & E). eapply Hf; [|exact E]. by eapply Hm. Qed.
Lemma sound_end_then {E A B} o (m : stage E A) (f : A -> stage E B) :
  keeps (keeps_sound o) m -> (forall a, sound_end o (f a)) -> sound_end o (and_then m f).
Proof. intros Hm Hf. apply sound_end_bind; [done|]. intros [e|a]; [apply sound_end_keep; keep|apply Hf]. Qed.
Lemma sound_end_deliver th tg t c b : sound_end (Some (t, th)) (does (E := exit_) (deliver th tg t c b)).
Proof. intros s x s' [Hs Hn] E. apply does_ok in E as (y & -> & E). by eapply sound_deliver. Qed.
Ltac ending := repeat first [apply sound_end_then; [solve [keep]|intros ?]|apply sound_end_keep; solve [keep]|case_match|cbn zeta].

Lemma sound_send_to u cur p th tr tg e :
  0 <= td_data_size tr < 2 ^ 64 -> 0 <= td_offsets_size tr < 2 ^ 64 ->
  keeps (keeps_sound None) (send_to u cur p th tr tg e).
Proof.
  intros Hds Hos s x s' E [Hs _]. split; [|done]. unfold send_to in E. apply does_then_ok in E as (o & s1 & E1 & E).
  destruct o as [t|]; [|apply ret_ok in E as [_ ->]; kept (keeps_sound None) E1 S1; by apply S1].
  pose proof (sound_start s t th s1 Hs E1) as H1. clear E1 Hs.
  match type of E with ?m _ = _ => assert (sound_end (Some (t, th)) m) as K end; [|by eapply K].
  pose proof (fun a => sound_alloc_buf (Some (t, th)) (tg_proc tg) _ _ a Hds Hos). pose proof (sound_new_transaction th cur p tr tg t).
  ending; apply sound_end_deliver.
Qed.
Hint Resolve sound_reply_target : keeps.
Lemma sound_fail_transaction th e err irt : keeps (keeps_sound None) (fail_transaction th e err irt).
Proof.
  unfold fail_transaction. intros s x s' E. apply bind_ok in E as ([] & s1 & E1 & E).
  assert (keeps_sound None s s1 /\ threads s1 = threads s) as [S1 _].
  { apply modify_ok in E1 as ->. destruct (binder_transaction_log_add _). split; [by apply sound_same|done]. }
  etransitivity; [exact S1|]. apply bind_ok in E as (T & s2 & HT & E). apply get_obj_ok in HT as [HT ->].
  apply bind_ok in E as ([] & s2 & E2 & E). apply BUG_ON_ok in E2 as [_ ->]. destruct irt as [irt|].
  - apply bind_ok in E as ([] & s2 & E2 & E). apply modify_ok in E2 as ->.
    etransitivity; [by apply (sound_put_thread None th T (set_th_return_error T BR_TRANSACTION_COMPLETE))|]. by_keep (keeps_sound None) E.
  - apply modify_ok in E as ->. by eapply sound_put_thread.
Qed.
Hint Resolve sound_fail_transaction : keeps.
Lemma sound_transaction u cur p th tr reply : 0 <= td_data_size tr < 2 ^ 64 -> 0 <= td_offsets_size tr < 2 ^ 64 ->
  keeps (keeps_sound None) (binder_transaction u cur p th tr reply).
Proof.
  intros Hds Hos. pose proof (fun tg e => sound_send_to u cur p th tr tg e Hds Hos). unfold binder_transaction. keep.
  intros s x s' E. destruct (binder_transaction_log_add _). injection E as _ <-. by apply sound_same.
Qed.
Hint Resolve sound_transaction : keeps.

(** ** Commands *)
Lemma sound_stat_bc o p th cmd : keeps (keeps_sound o) (binder_stat_bc p th cmd).
Proof. unfold binder_stat_bc. keep. Qed.
Lemma sound_write_refs o p cmd target : keeps (keeps_sound o) (write_refs p cmd target).
Proof. unfold write_refs. keep. Qed.
Lemma sound_write_refs_done o p cmd ptr ck : keeps (keeps_sound o) (write_refs_done p cmd ptr ck).
Proof. unfold write_refs_done. keep. Qed.
Lemma sound_next_async o th n : keeps (keeps_sound o) (next_async th n).
Proof. unfold next_async, list_head. keep. Qed.
Hint Resolve sound_stat_bc sound_write_refs sound_write_refs_done sound_next_async : keeps.

(** A buffer that was read is put back without its transaction. *)
Lemma get_buf_ok pb v s s' : get_buf pb s = Ok (v, s') ->
  s' = s /\ exists P, procs s !! pb.1 = Some P /\ get_buffer (p_alloc P) pb.2 = Ok v.
Proof. unfold get_buf. intros E. run_inv. eauto. Qed.
Lemma sound_unlink_buf o pb v s s' t P x : procs s !! pb.1 = Some P -> get_buffer (p_alloc P) pb.2 = Ok v ->
  (_ ← mod_txn t (fun tr => set_t_buffer tr None); put_buf pb (with_transaction None v)) s = Ok (x, s') -> keeps_sound o s s'.
Proof.
  intros HP Hv E. apply bind_ok in E as ([] & s1 & E1 & E). kept (keeps_sound o) E1 S1. etransitivity; [exact S1|].
  assert (procs s1 !! pb.1 = Some P) as HP1 by (unfold mod_txn, put_txn in E1; run_inv; done).
  unfold put_buf in E. apply bind_ok in E as (P1 & s2 & HP2 & E). apply get_obj_ok in HP2 as [HP2 ->].
  assert (P1 = P) as -> by congruence. run_inv. eapply sound_put_proc; [exact HP1|]. intros Ha. cbn.
  eapply area_put; [exact Ha|exact Hv| |eassumption]. done.
Qed.
Lemma sound_write_free_buffer o p th ptr : keeps (keeps_sound o) (write_free_buffer p th ptr).
Proof.
  unfold write_free_buffer. apply keeps_bind; [apply _|keep|]. intros P. apply keeps_bind; [apply _|keep|]. intros [b|]; [|keep].
  intros s x s' E. apply bind_ok in E as (v & s1 & Ev & E). apply get_buf_ok in Ev as (-> & Q & HQ & Ev).
  destruct (negb _); [by apply ret_ok in E as [_ ->]|]. apply bind_ok in E as ([] & s1 & E1 & E).
  transitivity s1; [|by_keep (keeps_sound o) E]. destruct (b_transaction v); [|by apply ret_ok in E1 as [_ ->]].
  by eapply sound_unlink_buf.
Qed.
Lemma sound_register_looper o p th : keeps (keeps_sound o) (write_register_looper p th).
Proof.
  unfold write_register_looper. intros s x s' E. apply bind_ok in E as (T & s1 & HT & E). apply get_obj_ok in HT as [HT ->].
  apply bind_ok in E as (P & s1 & HP & E). apply get_obj_ok in HP as [HP ->]. apply bind_ok in E as ([] & s1 & E1 & E).
  transitivity s1; [|by_keep (keeps_sound o) E].
  destruct (has_bits _ _); [|destruct (_ =? 0)]; apply modify_ok in E1 as ->;
    [by eapply sound_put_thread|by eapply sound_put_thread|by eapply sound_put_proc].
Qed.
Lemma sound_enter_looper o th : keeps (keeps_sound o) (write_enter_looper th).
Proof. unfold write_enter_looper. keep. Qed.
Lemma sound_exit_looper o th : keeps (keeps_sound o) (write_exit_looper th).
Proof. unfold write_exit_looper. keep. Qed.
Lemma sound_queue_death o p th d : keeps (keeps_sound o) (queue_death p th d).
Proof. unfold queue_death. keep. Qed.
Hint Resolve sound_queue_death : keeps.
Lemma sound_request_death o p th target ck : keeps (keeps_sound o) (write_request_death p th target ck).
Proof. unfold write_request_death. keep. Qed.
Lemma sound_clear_death o p th target ck : keeps (keeps_sound o) (write_clear_death p th target ck).
Proof. unfold write_clear_death. keep. Qed.
Lemma sound_find_death o l cookie : keeps (keeps_sound o) (find_death l cookie).
Proof. induction l as [|[]]; cbn [find_death]; keep. Qed.
Hint Resolve sound_find_death : keeps.
Lemma sound_dead_binder_done o p th ck : keeps (keeps_sound o) (write_dead_binder_done p th ck).
Proof. unfold write_dead_binder_done. keep. Qed.
Lemma sound_fetch o u ptr w : keeps (keeps_sound o) (fetch u ptr w).
Proof. unfold fetch. keep. Qed.
Hint Resolve sound_write_free_buffer sound_register_looper sound_enter_looper sound_exit_looper sound_request_death
  sound_clear_death sound_dead_binder_done sound_fetch : keeps.
Lemma sound_write_command u cur p th cmd ptr : keeps (keeps_sound None) (write_command u cur p th cmd ptr).
Proof.
  unfold write_command. do 4 (case_match; [solve [keep]|]). case_match; [|solve [keep]].
  destruct (copy_from_user u ptr _) as [l|] eqn:El; [|keep].
  destruct (txn_sizes l (copy_from_user_bytes _ _ _ _ El) (copy_from_user_length _ _ _ _ El)) as [Hds Hos]. keep.
Qed.
Hint Resolve sound_write_command : keeps.
Lemma sound_write_loop k u cur p th buf ptr e c : keeps (keeps_sound None) (write_loop k u cur p th buf ptr e c).
Proof. revert ptr c. induction k as [|k IH]; intros ptr c; cbn [write_loop]; keep. Qed.
Hint Resolve sound_write_loop : keeps.
Lemma sound_thread_write u cur p th buf size c : keeps (keeps_sound None) (binder_thread_write u cur p th buf size c).
Proof. unfold binder_thread_write. keep. Qed.
End Ops.
