(* ===== verification/NodeCommands.v ===== *)
(** * What the owner of a node is told

    A node on a work list yields one command in each round of [binder_thread_read],
    until what its owner knows agrees with the counts. *)
From S2P Require Import Prelude UserMem RbTree Alloc Protocol Kernel Refs Transact Send Write Read.

Implicit Types (N : binder_node).

(** Somebody holds the node strongly; somebody holds it at all. *)
Definition held_strong N : bool := negb (n_internal_strong_refs N =? 0) || negb (n_local_strong_refs N =? 0).
Definition held N : bool := negb (bool_decide (n_refs N = [])) || negb (n_local_weak_refs N =? 0) || held_strong N.

(** *** The rounds *)
Definition rounds_left N : nat :=
  if held N && negb (n_has_weak_ref N) then 4
  else if held_strong N && negb (n_has_strong_ref N) then 3
  else if negb (held_strong N) && n_has_strong_ref N then 2
  else if negb (held N) && n_has_weak_ref N then 1
  else 0.
Lemma rounds_left_bound N : (rounds_left N <= 4)%nat.
Proof. unfold rounds_left. repeat case_match; lia. Qed.

Lemma held_of_strong N : held_strong N = true -> held N = true.
Proof. unfold held. intros ->. by rewrite orb_true_r. Qed.

(** Whatever the counts become, the next command is a later one. *)
Lemma node_command_less N cmd N' : node_command N = Some (cmd, N') -> (rounds_left N' < rounds_left N)%nat.
Proof.
  unfold node_command. fold (held_strong N). fold (held N). pose proof (held_of_strong N) as Hh. unfold rounds_left at 2.
  destruct (held N) eqn:Ew, (n_has_weak_ref N) eqn:Ehw, (held_strong N) eqn:Es, (n_has_strong_ref N) eqn:Ehs; cbn; try discriminate;
    try (by specialize (Hh eq_refl)); intros [= <- <-]; unfold rounds_left; cbn; rewrite ?Ehw, ?Ehs; cbn.
  all: rewrite ?andb_false_r; change (held (set_n_has_strong_ref N false)) with (held N); change (held (set_n_has_weak_ref N false)) with (held N);
    change (held_strong (set_n_has_strong_ref N false)) with (held_strong N); change (held_strong (set_n_has_weak_ref N false)) with (held_strong N);
    rewrite ?Ew, ?Es; cbn; repeat case_match; lia.
Qed.

(** ** The protocol *)

(** All commands for the node, and the node after them. *)
Fixpoint told_of (k : nat) N : list Z * binder_node :=
  match k with
  | O => ([], N)
  | S k => match node_command N with
           | None => ([], N)
           | Some (cmd, N') => let '(l, N'') := told_of k N' in (cmd :: l, N'')
           end
  end.
(** What its owner must be told: that the node is held, weakly and then strongly, or
    no longer held, strongly and then weakly. *)
Definition due N : list Z :=
  (if held N && negb (n_has_weak_ref N) then [BR_INCREFS] else []) ++
  (if held_strong N && negb (n_has_strong_ref N) then [BR_ACQUIRE] else []) ++
  (if negb (held_strong N) && n_has_strong_ref N then [BR_RELEASE] else []) ++
  (if negb (held N) && n_has_weak_ref N then [BR_DECREFS] else []).

(** Whatever the counts, nothing is left after enough rounds. *)
Lemma told_ends k N : (rounds_left N <= k)%nat -> node_command (told_of k N).2 = None.
Proof.
  revert N. induction k as [|k IH]; intros N Hk; cbn [told_of]; destruct (node_command N) as [[cmd N']|] eqn:E; try done;
    apply node_command_less in E as Hl; [lia|]. specialize (IH N' ltac:(lia)). by destruct (told_of k N').
Qed.

Section Protocol.
(** The counts of a node are below their limit. *)
Definition counts_small N : Prop := 0 <= n_local_weak_refs N < 2 ^ 31 - 1 /\ 0 <= n_local_strong_refs N < 2 ^ 31 - 1.
Definition increfs N : binder_node := set_n_local_weak_refs (set_n_pending_weak_ref (set_n_has_weak_ref N true) true) (incr (n_local_weak_refs N)).
Definition acquire N : binder_node := set_n_local_strong_refs (set_n_pending_strong_ref (set_n_has_strong_ref N true) true) (incr (n_local_strong_refs N)).

Lemma incr_small x : 0 <= x < 2 ^ 31 - 1 -> incr x = x + 1.
Proof. intros H. unfold incr. apply s32_small. lia. Qed.
Lemma held_increfs N : counts_small N -> held (increfs N) = true /\ held_strong (increfs N) = held_strong N.
Proof.
  intros [H1 H2]. split; [|done]. unfold held, held_strong, increfs. cbn -[incr Z.eqb]. rewrite incr_small by done.
  destruct (Z.eqb_spec (n_local_weak_refs N + 1) 0); [lia|]. cbn. by rewrite orb_true_r.
Qed.
Lemma held_acquire N : 0 <= n_local_strong_refs N < 2 ^ 31 - 1 -> held (acquire N) = true /\ held_strong (acquire N) = true.
Proof.
  intros H2. assert (held_strong (acquire N) = true) as Hs; [|split; [by apply held_of_strong|done]].
  unfold held_strong, acquire. cbn -[incr Z.eqb]. rewrite incr_small by done.
  destruct (Z.eqb_spec (n_local_strong_refs N + 1) 0); [lia|]. by rewrite orb_true_r.
Qed.
Lemma node_command_eq N : node_command N =
  if held N && negb (n_has_weak_ref N) then Some (BR_INCREFS, increfs N)
  else if held_strong N && negb (n_has_strong_ref N) then Some (BR_ACQUIRE, acquire N)
  else if negb (held_strong N) && n_has_strong_ref N then Some (BR_RELEASE, set_n_has_strong_ref N false)
  else if negb (held N) && n_has_weak_ref N then Some (BR_DECREFS, set_n_has_weak_ref N false)
  else None.
Proof. done. Qed.

(** The four conditions, and how a round changes them. *)
Definition flags N (w hw st hs : bool) : Prop :=
  held N = w /\ n_has_weak_ref N = hw /\ held_strong N = st /\ n_has_strong_ref N = hs.
Lemma told_nothing k N w st : flags N w w st st -> told_of k N = ([], N) /\ node_command N = None.
Proof.
  intros (H1 & H2 & H3 & H4). assert (node_command N = None) as E by (rewrite node_command_eq, H1, H2, H3, H4; by destruct w, st).
  split; [|done]. destruct k; [done|]. cbn [told_of]. by rewrite E.
Qed.
Lemma told_increfs k N st hs : counts_small N -> flags N true false st hs ->
  told_of (S k) N = (let '(l, N') := told_of k (increfs N) in (BR_INCREFS :: l, N')) /\ flags (increfs N) true true st hs.
Proof.
  intros Hc (H1 & H2 & H3 & H4). destruct (held_increfs N Hc) as [E1 E2]. split; [|split_and!; [done|done|by rewrite E2|exact H4]].
  cbn [told_of]. by rewrite node_command_eq, H1, H2.
Qed.
Lemma told_acquire k N : 0 <= n_local_strong_refs N < 2 ^ 31 - 1 -> flags N true true true false ->
  told_of (S k) N = (let '(l, N') := told_of k (acquire N) in (BR_ACQUIRE :: l, N')) /\ flags (acquire N) true true true true.
Proof.
  intros Hc (H1 & H2 & H3 & H4). destruct (held_acquire N Hc) as [E1 E2]. split; [|by split_and!].
  cbn [told_of]. by rewrite node_command_eq, H1, H2, H3, H4.
Qed.
Lemma told_release k N w : flags N w w false true \/ flags N false true false true ->
  told_of (S k) N = (let '(l, N') := told_of k (set_n_has_strong_ref N false) in (BR_RELEASE :: l, N')).
Proof. intros [(H1 & H2 & H3 & H4)|(H1 & H2 & H3 & H4)]; cbn [told_of]; rewrite node_command_eq, H1, H2, H3, H4; by destruct w. Qed.
Lemma told_decrefs k N : flags N false true false false ->
  told_of (S k) N = (let '(l, N') := told_of k (set_n_has_weak_ref N false) in (BR_DECREFS :: l, N')).
Proof. intros (H1 & H2 & H3 & H4). cbn [told_of]. by rewrite node_command_eq, H1, H2, H3, H4. Qed.

(** With the weak flag in agreement, only the strong commands are due. *)
Lemma told_strong k N st hs : 0 <= n_local_strong_refs N < 2 ^ 31 - 1 -> flags N true true st hs ->
  exists N', told_of (S k) N = ((if st && negb hs then [BR_ACQUIRE] else []) ++ (if negb st && hs then [BR_RELEASE] else []), N') /\
    node_command N' = None /\ flags N' true true st st /\ n_local_weak_refs N' = n_local_weak_refs N /\
    n_local_strong_refs N' = n_local_strong_refs N + (if st && negb hs then 1 else 0).
Proof.
  intros Hc Hf. destruct st, hs; cbn [andb negb app].
  - exists N. destruct (told_nothing (S k) N true true Hf). split_and!; try done. lia.
  - destruct (told_acquire k N Hc Hf) as [E Hf']. destruct (told_nothing k _ true true Hf') as [E' En].
    exists (acquire N). rewrite E, E'. split_and!; try done. unfold acquire. cbn -[incr]. by rewrite incr_small.
  - assert (flags (set_n_has_strong_ref N false) true true false false) as Hf' by (destruct Hf as (? & ? & ? & ?); by split_and!).
    destruct (told_nothing k _ true false Hf') as [E' En]. exists (set_n_has_strong_ref N false).
    rewrite (told_release k N true), E' by by left. split_and!; try done. cbn. lia.
  - exists N. destruct (told_nothing (S k) N true false Hf). split_and!; try done. lia.
Qed.
End Protocol.

(** C4: the commands that a node yields, one a round, are what its owner must be told
    and no more: [BR_INCREFS] before [BR_ACQUIRE] when it has become held, [BR_RELEASE]
    before [BR_DECREFS] when it is held no longer, each at most once; afterwards what
    the owner knows is what is so.  Nothing is left to say after four rounds, even
    when a counter is at its limit. *)
Theorem node_told N : node_command (told_of 4 N).2 = None /\ (counts_small N ->
  exists N', told_of 4 N = (due N, N') /\
    n_has_weak_ref N' = held N /\ n_has_strong_ref N' = held_strong N /\
    held N' = held N /\ held_strong N' = held_strong N /\
    n_local_weak_refs N' = n_local_weak_refs N + (if held N && negb (n_has_weak_ref N) then 1 else 0) /\
    n_local_strong_refs N' = n_local_strong_refs N + (if held_strong N && negb (n_has_strong_ref N) then 1 else 0)).
Proof.
  split; [apply told_ends, rounds_left_bound|]. intros H. pose proof (held_of_strong N) as Hh. assert (Hf : flags N (held N) (n_has_weak_ref N) (held_strong N) (n_has_strong_ref N)) by done.
  unfold due. revert Hf Hh. destruct (held N), (n_has_weak_ref N); intros Hf Hh.
  - destruct (told_strong 3 N _ _ (proj2 H) Hf) as (N' & E & En & (F1 & F2 & F3 & F4) & C1 & C2).
    exists N'. rewrite E, app_nil_r. split_and!; try done. cbn. lia.
  - destruct (told_increfs 3 N _ _ H Hf) as [E1 Hf']. destruct (told_strong 2 (increfs N) _ _ (proj2 H) Hf') as (N' & E & En & (F1 & F2 & F3 & F4) & C1 & C2).
    exists N'. rewrite E1, E. cbn [andb negb]. rewrite app_nil_r. split_and!; try done. rewrite C1. unfold increfs. cbn -[incr]. by rewrite incr_small by apply H.
  - destruct (held_strong N); [by specialize (Hh eq_refl)|]. cbn [andb negb app].
    assert (forall k N1, flags N1 false true false false -> told_of (S k) N1 = ([BR_DECREFS], set_n_has_weak_ref N1 false) /\
      node_command (set_n_has_weak_ref N1 false) = None /\ flags (set_n_has_weak_ref N1 false) false false false false) as Hd.
    { intros k N1 H1. assert (flags (set_n_has_weak_ref N1 false) false false false false) as H2 by (destruct H1 as (? & ? & ? & ?); by split_and!).
      destruct (told_nothing k _ false false H2) as [E2 E3]. by rewrite (told_decrefs k N1 H1), E2. }
    destruct (n_has_strong_ref N).
    + destruct (Hd 2%nat (set_n_has_strong_ref N false)) as (E1 & En & F1 & F2 & F3 & F4); [destruct Hf as (? & ? & ? & ?); by split_and!|].
      eexists. rewrite (told_release 3 N false), E1 by by right. split_and!; try done; cbn; lia.
    + destruct (Hd 3%nat N Hf) as (E1 & En & F1 & F2 & F3 & F4). eexists. rewrite E1. split_and!; try done; cbn; lia.
  - destruct (held_strong N); [by specialize (Hh eq_refl)|]. cbn [andb negb app]. destruct (n_has_strong_ref N).
    + assert (flags (set_n_has_strong_ref N false) false false false false) as Hf' by (destruct Hf as (? & ? & ? & ?); by split_and!).
      destruct (told_nothing 3 _ false false Hf') as [E' En]. eexists. rewrite (told_release 3 N false), E' by by left.
      destruct Hf' as (F1 & F2 & F3 & F4). split_and!; try done; cbn; lia.
    + destruct (told_nothing 4 N false false Hf) as [E' En]. exists N. destruct Hf as (F1 & F2 & F3 & F4). split_and!; try done; lia.
Qed.

(** A new node that another process holds strongly. *)
Definition new_node : binder_node := MkNode 1 (Some 1) [5] 1 0 0 4096 0 false false false false false false 0.
Lemma node_told_witness : due new_node = [BR_INCREFS; BR_ACQUIRE] /\
  exists N', told_of 4 new_node = ([BR_INCREFS; BR_ACQUIRE], N') /\ n_local_weak_refs N' = 1.
Proof.
  split; [reflexivity|]. destruct (proj2 (node_told new_node)) as (N' & E & _ & _ & _ & _ & Ew & _); [vm_compute; intuition congruence|].
  exists N'. split; [exact E|exact Ew].
Defined.
