(* ===== verification/Tables.v ===== *)
(** * The tables of the driver

    [handles_ok]: the search trees of every process (threads, nodes, references by
    descriptor and by node), the list of references of every node and the death
    notifications of references agree with the objects there are; a node that is
    queued is there, in a list that its own process reads; no address is given out
    twice.  The tables of a state are its objects without the counts and
    flags ([bare_proc], ...); [same_tables] relates states that agree on them. *)
From S2P Require Import Prelude UserMem RbTree Alloc Protocol Kernel Refs Transact Send Write Read Driver KernelWp RefsInv Keeps.

Implicit Types (p n r d th ptr desc : Z) (P : binder_proc) (N : binder_node) (R : binder_ref) (T : binder_thread) (D : binder_ref_death) (s : kstate) (ps : gmap Z binder_proc) (ns : gmap Z binder_node) (rs : gmap Z binder_ref) (ts : gmap Z binder_thread) (ds : gmap Z binder_ref_death).

Record handles_ok s : Prop := {
  ho_desc p P desc r : procs s !! p = Some P -> p_refs_by_desc P !! desc = Some r ->
    exists R, refs s !! r = Some R /\ r_proc R = p /\ r_desc R = desc;
  ho_by_node p P n r : procs s !! p = Some P -> p_refs_by_node P !! n = Some r ->
    exists R, refs s !! r = Some R /\ r_proc R = p /\ r_node R = n;
  ho_ref r R : refs s !! r = Some R -> is_Some (nodes s !! r_node R) /\
    exists P, procs s !! r_proc R = Some P /\ p_refs_by_desc P !! r_desc R = Some r /\ p_refs_by_node P !! r_node R = Some r;
  ho_node_refs n N : nodes s !! n = Some N -> NoDup (n_refs N) /\
    forall r, r ∈ n_refs N <-> exists R, refs s !! r = Some R /\ r_node R = n;
  ho_nodes p P ptr n : procs s !! p = Some P -> p_nodes P !! ptr = Some n ->
    exists N, nodes s !! n = Some N /\ n_proc N = Some p /\ n_ptr N = ptr;
  ho_owner n N p : nodes s !! n = Some N -> n_proc N = Some p ->
    exists P, procs s !! p = Some P /\ p_nodes P !! n_ptr N = Some n;
  ho_threads p P pid th : procs s !! p = Some P -> p_threads P !! pid = Some th ->
    exists T, threads s !! th = Some T /\ th_proc T = p /\ th_pid T = pid;
  ho_thread th T : threads s !! th = Some T ->
    exists P, procs s !! th_proc T = Some P /\ p_threads P !! th_pid T = Some th;
  ho_death r R d : refs s !! r = Some R -> r_death R = Some d ->
    exists D, deaths s !! d = Some D /\ d_type D = DEAD_BINDER;
  ho_death_one r1 r2 R1 R2 d : refs s !! r1 = Some R1 -> refs s !! r2 = Some R2 ->
    r_death R1 = Some d -> r_death R2 = Some d -> r1 = r2;
  ho_work h n : WNode n ∈ list_of h s -> exists N p, nodes s !! n = Some N /\ n_proc N = Some p /\
    (h = TodoProc p \/ exists th T, h = TodoThread th /\ threads s !! th = Some T /\ th_proc T = p);
  ho_fresh x : ticket s < x ->
    procs s !! x = None /\ threads s !! x = None /\ nodes s !! x = None /\ refs s !! x = None /\ deaths s !! x = None
}.

(** ** Bare objects *)
Definition bare_area : balloc := MkAlloc 0 0 0 None None [] ∅ Leaf Leaf 0 [].
Definition bare_proc P : binder_proc :=
  MkProc (p_threads P) (p_nodes P) (p_refs_by_desc P) (p_refs_by_node P) 0 0 None 0 bare_area 0 0 0 0 0.
Definition bare_node N : binder_node :=
  MkNode 0 (n_proc N) (n_refs N) 0 0 0 (n_ptr N) 0 false false false false false false 0.
Definition bare_ref R : binder_ref := MkRef 0 (r_proc R) (r_node R) (r_desc R) 0 0 (r_death R).
Definition bare_thread T : binder_thread := MkThread (th_proc T) (th_pid T) 0 None 0 0.
Definition bare_death D : binder_ref_death := MkDeath (d_type D) 0.

(** The conditions on bare objects. *)
Definition threads_ok ps ts : Prop :=
  (forall p P pid th, ps !! p = Some P -> p_threads P !! pid = Some th ->
    exists T, ts !! th = Some T /\ th_proc T = p /\ th_pid T = pid) /\
  (forall th T, ts !! th = Some T -> exists P, ps !! th_proc T = Some P /\ p_threads P !! th_pid T = Some th).
Definition deaths_ok rs ds : Prop :=
  (forall r R d, rs !! r = Some R -> r_death R = Some d -> exists D, ds !! d = Some D /\ d_type D = DEAD_BINDER) /\
  (forall r1 r2 R1 R2 d, rs !! r1 = Some R1 -> rs !! r2 = Some R2 ->
    r_death R1 = Some d -> r_death R2 = Some d -> r1 = r2).
Definition queued (ls : gmap lhead (list work)) (h : lhead) (w : work) : Prop := w ∈ default [] (ls !! h).
Definition work_ok ns ts (ls : gmap lhead (list work)) : Prop :=
  forall h n, queued ls h (WNode n) -> exists N p, ns !! n = Some N /\ n_proc N = Some p /\
    (h = TodoProc p \/ exists th T, h = TodoThread th /\ ts !! th = Some T /\ th_proc T = p).
Record tables ps ns rs ts ds (ls : gmap lhead (list work)) (k : Z) : Prop := {
  tb_refs : refs_inv ps ns rs;
  tb_threads : threads_ok ps ts;
  tb_deaths : deaths_ok rs ds;
  tb_work : work_ok ns ts ls;
  tb_fresh x : k < x -> ps !! x = None /\ ts !! x = None /\ ns !! x = None /\ rs !! x = None /\ ds !! x = None
}.

Definition bare_tables s : Prop :=
  tables (bare_proc <$> procs s) (bare_node <$> nodes s) (bare_ref <$> refs s) (bare_thread <$> threads s)
    (bare_death <$> deaths s) (lists s) (ticket s).

Section Bare.
Lemma fmap_some {A B} (f : A -> B) (m : gmap Z A) k a : m !! k = Some a -> (f <$> m) !! k = Some (f a).
Proof. intros E. by rewrite lookup_fmap, E. Qed.
Lemma fmap_none {A B} (f : A -> B) (m : gmap Z A) k : (f <$> m) !! k = None -> m !! k = None.
Proof. rewrite lookup_fmap. by destruct (m !! k). Qed.
Lemma fmap_insert_same {A B} (f : A -> B) (m : gmap Z A) k a a' : m !! k = Some a -> f a' = f a -> f <$> <[k := a']> m = f <$> m.
Proof. intros E H. rewrite fmap_insert, H. apply insert_id. by apply fmap_some. Qed.

(** The object behind a bare one. *)
Ltac unbare H := apply lookup_fmap_Some in H as (? & <- & H).

Lemma tables_handles s : bare_tables s -> handles_ok s.
Proof.
  intros [[H1 H2 H3 H4 _ H6 H7] [Ht1 Ht2] [Hd1 Hd2] Hw Hf]. split.
  - intros p P d r HP Hd. destruct (H1 p (bare_proc P) d r) as (R & HR & E1 & E2); [by apply fmap_some|done|].
    unbare HR. eauto.
  - intros p P n r HP Hn. destruct (H2 p (bare_proc P) n r) as (R & HR & E1 & E2); [by apply fmap_some|done|].
    unbare HR. eauto.
  - intros r R HR. destruct (H3 r (bare_ref R)) as (_ & [N HN] & P & HP & E1 & E2); [by apply fmap_some|].
    unbare HN. unbare HP. split; [by eexists|]. eexists. split; [exact HP|]. by split.
  - intros n N HN. destruct (H4 n (bare_node N)) as [Hnd Hin]; [by apply fmap_some|]. split; [done|]. intros r. split.
    + intros Hr. apply Hin in Hr as (R & HR & E). unbare HR. eauto.
    + intros (R & HR & E). apply Hin. exists (bare_ref R). split; [by apply fmap_some|done].
  - intros p P ptr n HP Hn. destruct (H6 p (bare_proc P) ptr n) as (N & HN & E1 & E2); [by apply fmap_some|done|].
    unbare HN. eauto.
  - intros n N p HN Hp. destruct (H7 n (bare_node N) p) as (P & HP & E); [by apply fmap_some|done|]. unbare HP. eauto.
  - intros p P pid th HP Hth. destruct (Ht1 p (bare_proc P) pid th) as (T & HT & E1 & E2); [by apply fmap_some|done|].
    unbare HT. eauto.
  - intros th T HT. destruct (Ht2 th (bare_thread T)) as (P & HP & E); [by apply fmap_some|]. unbare HP. eauto.
  - intros r R d HR Hd. destruct (Hd1 r (bare_ref R) d) as (D & HD & E); [by apply fmap_some|done|]. unbare HD. eauto.
  - intros r1 r2 R1 R2 d HR1 HR2 E1 E2. apply (Hd2 r1 r2 (bare_ref R1) (bare_ref R2) d); by try apply fmap_some.
  - intros h n Hn. destruct (Hw h n Hn) as (N & p & HN & Ep & Hh). unbare HN. eexists _, p. split; [exact HN|]. split; [done|].
    destruct Hh as [|(th & T & Eh & HT & Et)]; [by left|]. unbare HT. right. eauto.
  - intros x Hx. destruct (Hf x Hx) as (F1 & F2 & F3 & F4 & F5). eauto 10 using fmap_none.
Qed.
End Bare.

(** ** Operations that leave the tables alone *)

(** Death notifications that a reference may have; others may be freed. *)
Definition live_death s d : Prop := d_type <$> deaths s !! d = Some DEAD_BINDER.
Definition fewer_deaths s s' : Prop :=
  (forall d, live_death s d -> live_death s' d) /\ (forall d, deaths s !! d = None -> deaths s' !! d = None).
Definition same_tables s s' : Prop :=
  bare_proc <$> procs s' = bare_proc <$> procs s /\ bare_node <$> nodes s' = bare_node <$> nodes s /\
  bare_ref <$> refs s' = bare_ref <$> refs s /\ bare_thread <$> threads s' = bare_thread <$> threads s /\
  fewer_deaths s s' /\ ticket s <= ticket s' /\
  (forall h n, queued (lists s') h (WNode n) -> queued (lists s) h (WNode n)).
#[export] Instance same_tables_preorder : PreOrder same_tables.
Proof.
  split; [intros s; unfold same_tables, fewer_deaths; split_and!; first [done|lia]|].
  intros s1 s2 s3 (A1 & A2 & A3 & A4 & [A5 A5'] & A6 & A7) (B1 & B2 & B3 & B4 & [B5 B5'] & B6 & B7).
  unfold same_tables, fewer_deaths. split_and!; [congruence..|auto|auto|lia|auto].
Qed.

(** The invariant is handed on; no thread comes or goes. *)
Definition keeps_tables s s' : Prop :=
  bare_tables s -> bare_tables s' /\ bare_thread <$> threads s' = bare_thread <$> threads s.
#[export] Instance keeps_tables_preorder : PreOrder keeps_tables.
Proof.
  split; [by intros s H|]. intros s1 s2 s3 H1 H2 H. destruct (H1 H) as [K1 E1]. destruct (H2 K1) as [K2 E2]. split; [done|congruence].
Qed.

Lemma tables_weaken ps ns rs ts ds ls k k' : tables ps ns rs ts ds ls k -> k <= k' -> tables ps ns rs ts ds ls k'.
Proof. intros [H1 H2 H3 H4 H5] Hk. split; try done. intros x Hx. apply H5. lia. Qed.
Lemma same_keeps s s' : same_tables s s' -> keeps_tables s s'.
Proof.
  intros (E1 & E2 & E3 & E4 & [E5 E5'] & E6 & E7) [H1 H2 [H4 H5] Hw H6]. split; [|done].
  unfold bare_tables. rewrite E1, E2, E3, E4. split; try done.
  - split; [|done]. intros r R d HR Hd. destruct (H4 r R d HR Hd) as (D & HD & Et). apply lookup_fmap_Some in HD as (D0 & <- & HD).
    specialize (E5 d). unfold live_death in E5. rewrite HD in E5. cbn in *. rewrite Et in E5. specialize (E5 eq_refl).
    destruct (deaths s' !! d) as [D'|] eqn:ED'; [|done]. exists (bare_death D'). split; [by apply fmap_some|].
    by injection E5.
  - intros h n Hn. by apply Hw, E7.
  - intros x Hx. destruct (H6 x) as (F1 & F2 & F3 & F4 & F5); [lia|]. split_and!; try done.
    rewrite lookup_fmap, E5'; [done|by apply fmap_none in F5].
Qed.
Lemma keeps_same {A} (m : K A) : keeps same_tables m -> keeps keeps_tables m.
Proof. intros H s a s' E. apply same_keeps. by eapply H. Qed.
#[export] Hint Extern 3 (keeps keeps_tables _) => apply keeps_same : keeps.

(** What a change of the lists does to the nodes on them. *)
Definition is_node_work (w : work) : Prop := match w with WNode _ => True | _ => False end.
Lemma queued_put ls h l h' w : queued (<[h := l]> ls) h' w -> h' = h /\ w ∈ l \/ h' ≠ h /\ queued ls h' w.
Proof. unfold queued. destruct (decide (h' = h)) as [->|]; [rewrite lookup_insert_eq; auto|rewrite lookup_insert_ne by done; auto]. Qed.
Lemma queued_del ls w h w' : queued (list_del w <$> ls) h w' -> queued ls h w' /\ w' ≠ w.
Proof.
  unfold queued. rewrite lookup_fmap. destruct (ls !! h) as [l|]; cbn; [|by intros ?%elem_of_nil].
  unfold list_del. rewrite list_elem_of_filter. tauto.
Qed.
Lemma queued_add ls h l w h' w' : l = default [] (ls !! h) -> queued (<[h := l ++ [w]]> ls) h' w' ->
  queued ls h' w' \/ h' = h /\ w' = w.
Proof.
  intros -> [[-> H]|[_ H]]%queued_put; [|by left]. apply elem_of_app in H as [H|H]; [by left|].
  apply list_elem_of_singleton in H. by right.
Qed.

(** Updates by which no bare object changes. *)
Ltac same_bare :=
  unfold same_tables, fewer_deaths, live_death; split_and!; cbn;
  first [reflexivity|lia|done|eapply fmap_insert_same; [eassumption|reflexivity]|idtac].

Section Same.
Context {M : Type} `{uops : UserOps M}.
Context `{env : KernelEnv} `{rb : RbOps} `{jk : Junk}.

Lemma same_modify f : (forall s, same_tables s (f s)) -> keeps same_tables (modify f).
Proof. intros H. by apply keeps_modify. Qed.
Ltac elsewhere := apply same_modify; intros s; same_bare.

Lemma same_list_add_tail w h : ~ is_node_work w -> keeps same_tables (list_add_tail w h).
Proof.
  intros Hw. apply same_modify. intros s. same_bare. intros h' n Hn. apply queued_add in Hn as [|[_ <-]]; done.
Qed.
Lemma same_list_add_head w h : ~ is_node_work w -> keeps same_tables (list_add_head w h).
Proof.
  intros Hw. apply same_modify. intros s. same_bare. intros h' n [[-> [<-|Hn]%elem_of_cons]|[_ Hn]]%queued_put; done.
Qed.
Lemma same_list_del w : keeps same_tables (list_del_work w).
Proof. apply same_modify. intros s. same_bare. by intros h' n [Hn _]%queued_del. Qed.
Lemma same_put_txn t v : keeps same_tables (put_txn t v).
Proof. elsewhere. Qed.
Lemma same_bump c : keeps same_tables (bump c).
Proof. elsewhere. Qed.
Lemma same_created ty : keeps same_tables (binder_stats_created ty).
Proof. elsewhere. Qed.
Lemma same_deleted ty : keeps same_tables (binder_stats_deleted ty).
Proof. elsewhere. Qed.
Lemma same_new_ticket : keeps same_tables new_ticket.
Proof. apply keeps_bind; [apply _|elsewhere|]. intros _. apply keeps_get, _. Qed.
Lemma same_next_id : keeps same_tables next_id.
Proof. apply keeps_bind; [apply _|elsewhere|]. intros _. apply keeps_get, _. Qed.
Lemma same_put_content b c : keeps same_tables (put_content b c).
Proof. elsewhere. Qed.
Hint Resolve same_list_add_tail same_list_add_head same_list_del same_put_txn same_bump same_created same_deleted
  same_new_ticket same_next_id same_put_content : keeps.
Hint Extern 0 (~ is_node_work _) => cbn; tauto : keeps.
Hint Extern 1 (same_tables _ _) => same_bare : keeps.

(** Changes of fields that are not in the tables. *)
Lemma same_mod_node n f : (forall N, bare_node (f N) = bare_node N) -> keeps same_tables (mod_node n f).
Proof. intros H s a s' E. run_inv. same_bare. by eapply fmap_insert_same. Qed.
Lemma same_mod_ref r f : (forall R, bare_ref (f R) = bare_ref R) -> keeps same_tables (mod_ref r f).
Proof. intros H s a s' E. unfold mod_ref, put_ref in E. run_inv. same_bare. by eapply fmap_insert_same. Qed.
Lemma same_mod_thread th f : (forall T, bare_thread (f T) = bare_thread T) -> keeps same_tables (mod_thread th f).
Proof. intros H s a s' E. run_inv. same_bare. by eapply fmap_insert_same. Qed.
Lemma same_mod_proc p f : (forall P, bare_proc (f P) = bare_proc P) -> keeps same_tables (mod_proc p f).
Proof. intros H s a s' E. run_inv. same_bare. by eapply fmap_insert_same. Qed.
Hint Extern 2 (keeps same_tables (mod_node _ _)) => apply same_mod_node; intros ?; repeat case_match; reflexivity : keeps.
Hint Extern 2 (keeps same_tables (mod_ref _ _)) => apply same_mod_ref; intros ?; repeat case_match; reflexivity : keeps.
Hint Extern 2 (keeps same_tables (mod_thread _ _)) => apply same_mod_thread; intros ?; repeat case_match; reflexivity : keeps.
Hint Extern 2 (keeps same_tables (mod_proc _ _)) => apply same_mod_proc; intros ?; repeat case_match; reflexivity : keeps.
Ltac samely := keep; try same_bare.

Lemma same_kzalloc : keeps same_tables kzalloc.
Proof. unfold kzalloc. samely. Qed.
Lemma same_free_txn t : keeps same_tables (free_txn t).
Proof. unfold free_txn. samely. Qed.
Hint Resolve same_kzalloc same_free_txn : keeps.
Lemma same_set_nice cur nice : keeps same_tables (binder_set_nice cur nice).
Proof. unfold binder_set_nice, set_user_nice. keep; case_match; same_bare. Qed.
Lemma same_task_nice pid : keeps same_tables (task_nice pid).
Proof. unfold task_nice. samely. Qed.
Lemma same_fget cur fd : keeps same_tables (fget cur fd).
Proof. unfold fget. samely. Qed.
Lemma same_get_unused_fd P : keeps same_tables (task_get_unused_fd_flags P).
Proof. unfold task_get_unused_fd_flags. samely. Qed.
Lemma same_fd_install P fd file : keeps same_tables (task_fd_install P fd file).
Proof. unfold task_fd_install. samely. Qed.
Lemma same_close_fd P fd : keeps same_tables (task_close_fd P fd).
Proof. unfold task_close_fd. samely. Qed.
Hint Resolve same_set_nice same_task_nice same_fget same_get_unused_fd same_fd_install same_close_fd : keeps.

(** *** Counts of nodes and references *)
Lemma same_get_node p ptr : keeps same_tables (binder_get_node p ptr).
Proof. unfold binder_get_node. samely. Qed.
Lemma same_get_ref p d : keeps same_tables (binder_get_ref p d).
Proof. unfold binder_get_ref. samely. Qed.
Lemma same_inc_node n st i : keeps same_tables (binder_inc_node n st i None).
Proof.
  unfold binder_inc_node. intros s a s' E. apply bind_ok in E as (N & s1 & HN & E). apply get_obj_ok in HN as [HN ->].
  assert (Hp : forall N', bare_node N' = bare_node N -> same_tables s (set_nodes s (<[n := N']> (nodes s)))).
  { intros N' HN'. same_bare. by eapply fmap_insert_same. }
  destruct st.
  - apply bind_ok in E as (mgr & s1 & E1 & E). apply get_ok in E1 as [_ ->].
    destruct (i && _); [by apply ret_ok in E as [_ ->]|]. apply bind_ok in E as ([] & s1 & E1 & E). apply modify_ok in E1 as ->.
    kept same_tables E Hs. etransitivity; [|exact Hs]. apply Hp. by destruct i.
  - apply bind_ok in E as ([] & s1 & E1 & E). apply modify_ok in E1 as ->.
    kept same_tables E Hs. etransitivity; [|exact Hs]. apply Hp. by destruct i.
Qed.
Hint Resolve same_get_node same_get_ref same_inc_node : keeps.
Lemma same_inc_ref r st : keeps same_tables (binder_inc_ref r st None).
Proof. unfold binder_inc_ref. samely. Qed.
Hint Resolve same_inc_ref : keeps.
End Same.
#[export] Hint Resolve same_list_add_tail same_list_add_head same_list_del same_put_txn same_bump same_created same_deleted
  same_new_ticket same_next_id same_put_content same_kzalloc same_free_txn same_set_nice same_task_nice same_fget
  same_get_unused_fd same_fd_install same_close_fd same_get_node same_get_ref same_inc_node same_inc_ref : keeps.
#[export] Hint Extern 0 (~ is_node_work _) => cbn; tauto : keeps.
#[export] Hint Extern 1 (same_tables _ _) => same_bare : keeps.
#[export] Hint Extern 2 (keeps same_tables (mod_node _ _)) => apply same_mod_node; intros ?; repeat case_match; reflexivity : keeps.
#[export] Hint Extern 2 (keeps same_tables (mod_ref _ _)) => apply same_mod_ref; intros ?; repeat case_match; reflexivity : keeps.
#[export] Hint Extern 2 (keeps same_tables (mod_thread _ _)) => apply same_mod_thread; intros ?; repeat case_match; reflexivity : keeps.
#[export] Hint Extern 2 (keeps same_tables (mod_proc _ _)) => apply same_mod_proc; intros ?; repeat case_match; reflexivity : keeps.
Ltac samely := keep; try same_bare.

(** ** Operations on transactions, buffers and threads leave the tables alone *)

Implicit Types (t b : Z).

Section Same.
Context {M : Type} `{uops : UserOps M}.
Context `{env : KernelEnv} `{rb : RbOps} `{jk : Junk}.

(** ** Buffers *)
Lemma same_get_buf pb : keeps same_tables (get_buf pb).
Proof. unfold get_buf. samely. Qed.
(** An update of a process that was just read. *)
Lemma same_put_proc p s P P' : procs s !! p = Some P -> bare_proc P' = bare_proc P ->
  same_tables s (set_procs s (<[p := P']> (procs s))).
Proof. intros E H. same_bare. by eapply fmap_insert_same. Qed.
Lemma same_put_thread th s T T' : threads s !! th = Some T -> bare_thread T' = bare_thread T ->
  same_tables s (set_threads s (<[th := T']> (threads s))).
Proof. intros E H. same_bare. by eapply fmap_insert_same. Qed.
Lemma same_put_node n s N N' : nodes s !! n = Some N -> bare_node N' = bare_node N ->
  same_tables s (set_nodes s (<[n := N']> (nodes s))).
Proof. intros E H. same_bare. by eapply fmap_insert_same. Qed.
Lemma same_put_ref r s R R' : refs s !! r = Some R -> bare_ref R' = bare_ref R ->
  same_tables s (set_refs s (<[r := R']> (refs s))).
Proof. intros E H. same_bare. by eapply fmap_insert_same. Qed.

(** The same some steps later. *)
Lemma same_put_proc_later p s s1 P P' : procs s !! p = Some P -> same_tables s s1 -> bare_proc P' = bare_proc P ->
  same_tables s (set_procs s1 (<[p := P']> (procs s1))).
Proof.
  intros E Hs H. etransitivity; [exact Hs|]. destruct Hs as (Hp & _). pose proof (fmap_some bare_proc _ _ _ E) as E1.
  rewrite <- Hp in E1. apply lookup_fmap_Some in E1 as (P1 & H1 & E1). eapply same_put_proc; [exact E1|congruence].
Qed.

Lemma same_put_buf pb v : keeps same_tables (put_buf pb v).
Proof. intros s x s' E. unfold put_buf in E. run_inv. by eapply same_put_proc. Qed.
Hint Resolve same_get_buf same_put_buf : keeps.
Lemma same_mod_buf pb f : keeps same_tables (mod_buf pb f).
Proof. unfold mod_buf. samely. Qed.
Lemma same_alloc_buf p (ds os : Z) a : keeps same_tables (alloc_buf p ds os a).
Proof.
  intros s x s' E. unfold alloc_buf in E. apply bind_ok in E as (P & s1 & HP & E). apply get_obj_ok in HP as [HP ->].
  apply bind_ok in E as (tk & s1 & E1 & E). unfold new_ticket in E1. run_inv. destruct a0 as [o al]. run_inv.
  etransitivity; [|by eapply same_put_proc]. same_bare.
Qed.
Lemma same_free_buf pb : keeps same_tables (free_buf pb).
Proof.
  intros s x s2 E. unfold free_buf, new_ticket in E. run_inv. same_bare.
Qed.
Lemma same_get_content b : keeps same_tables (get_content b).
Proof. unfold get_content. samely. Qed.
Lemma same_offset_at c i : keeps same_tables (offset_at c i).
Proof. unfold offset_at. samely. Qed.
Hint Resolve same_mod_buf same_alloc_buf same_free_buf same_get_content same_offset_at : keeps.
Lemma same_mod_content b f : keeps same_tables (mod_content b f).
Proof. unfold mod_content. samely. Qed.
Hint Resolve same_mod_content : keeps.

(** ** Transactions *)
Lemma same_pop o t : keeps same_tables (binder_pop_transaction o t).
Proof.
  unfold binder_pop_transaction. apply keeps_bind; [apply _| |intros _; samely]. destruct o as [th|]; [|samely].
  intros s a s' E. run_inv. same_bare.
Qed.
Hint Resolve same_pop : keeps.
Lemma same_shift : forall T, bare_thread (shift_error T) = bare_thread T.
Proof. intros T. unfold shift_error. by case_match. Qed.
Lemma same_mod_shift th : keeps same_tables (mod_thread th shift_error).
Proof. apply same_mod_thread, same_shift. Qed.
Hint Resolve same_mod_shift : keeps.
Lemma same_send_failed_reply_loop k t code : keeps same_tables (send_failed_reply_loop k t code).
Proof. revert t. induction k as [|k IH]; intros t; cbn [send_failed_reply_loop]; samely. Qed.
Hint Resolve same_send_failed_reply_loop : keeps.
Lemma same_send_failed_reply t code : keeps same_tables (binder_send_failed_reply t code).
Proof. unfold binder_send_failed_reply. samely. Qed.
Hint Resolve same_send_failed_reply : keeps.

Lemma same_log e f : keeps same_tables (log_update e f).
Proof. unfold log_update. samely. Qed.
Hint Resolve same_log : keeps.
Lemma same_reply_target cur th : keeps same_tables (reply_target cur th).
Proof. unfold reply_target. samely. Qed.
Lemma same_caller_in k tp (t found : option Z) : keeps same_tables (caller_in k tp t found).
Proof. revert t found. induction k as [|k IH]; intros t found; cbn [caller_in]; samely. Qed.
Hint Resolve same_caller_in : keeps.
Lemma same_call_target p th tr e : keeps same_tables (call_target p th tr e).
Proof. unfold call_target. samely. Qed.
Lemma same_translate_fd cur p tg b off fp : keeps same_tables (translate_fd cur p tg b off fp).
Proof. unfold translate_fd. samely. Qed.
Lemma same_new_transaction cur p th tr tg t id : keeps same_tables (new_transaction cur p th tr tg t id).
Proof. unfold new_transaction. samely. Qed.
Lemma same_deliver th tg t c b : keeps same_tables (deliver th tg t c b).
Proof.
  unfold deliver. apply keeps_bind; [apply _|samely|]. intros T. apply keeps_bind; [apply _|samely|]. intros v. cbn zeta.
  apply keeps_bind; [apply _| |samely]. destruct (tg_in_reply_to tg); [samely|]. destruct (negb _).
  - intros s x s' E. run_inv. same_bare.
  - destruct (tg_node tg); [|samely]. intros s x s' E. run_inv.
    match goal with H : (if ?c then _ else _) _ = _ |- _ => destruct c end; run_inv; same_bare.
Qed.
Hint Resolve same_deliver : keeps.
Lemma same_fail_transaction th e err irt : keeps same_tables (fail_transaction th e err irt).
Proof.
  unfold fail_transaction. apply keeps_bind; [apply _| |].
  { apply keeps_modify. intros s. destruct (binder_transaction_log_add _). same_bare. }
  intros []. destruct irt; intros s x s' E.
  - apply bind_ok in E as (T & s1 & HT & E). apply get_obj_ok in HT as [HT ->].
    apply bind_ok in E as ([] & s1 & E1 & E). apply BUG_ON_ok in E1 as [_ ->].
    apply bind_ok in E as ([] & s1 & E1 & E). apply modify_ok in E1 as ->. kept same_tables E Hs.
    etransitivity; [|exact Hs]. by eapply same_put_thread.
  - run_inv. same_bare.
Qed.

(** ** Commands *)
Lemma same_stat_bc p th cmd : keeps same_tables (binder_stat_bc p th cmd).
Proof. unfold binder_stat_bc. samely. Qed.
Lemma same_stat_br p th cmd : keeps same_tables (binder_stat_br p th cmd).
Proof. unfold binder_stat_br. samely. Qed.
Lemma same_register_looper p th : keeps same_tables (write_register_looper p th).
Proof.
  unfold write_register_looper. intros s x s' E. apply bind_ok in E as (T & s1 & HT & E). apply get_obj_ok in HT as [HT ->].
  apply bind_ok in E as (P & s1 & HP & E). apply get_obj_ok in HP as [HP ->]. apply bind_ok in E as ([] & s1 & E1 & E).
  kept same_tables E Hs. etransitivity; [|exact Hs].
  destruct (has_bits _ _); [|destruct (_ =? 0)]; apply modify_ok in E1 as ->;
    [by eapply same_put_thread|by eapply same_put_thread|by eapply same_put_proc].
Qed.
Lemma same_enter_looper th : keeps same_tables (write_enter_looper th).
Proof. unfold write_enter_looper. samely. Qed.
Lemma same_exit_looper th : keeps same_tables (write_exit_looper th).
Proof. unfold write_exit_looper. samely. Qed.
Lemma same_queue_death p th d : keeps same_tables (queue_death p th d).
Proof. unfold queue_death. samely. Qed.
Lemma same_find_death l cookie : keeps same_tables (find_death l cookie).
Proof. induction l as [|[]]; cbn [find_death]; samely. Qed.
Hint Resolve same_queue_death same_find_death : keeps.

(** ** Threads and processes *)
Lemma same_has_proc_work p th : keeps same_tables (binder_has_proc_work p th).
Proof. unfold binder_has_proc_work, list_empty. samely. Qed.
Lemma same_has_thread_work th : keeps same_tables (binder_has_thread_work th).
Proof. unfold binder_has_thread_work, list_empty. samely. Qed.
Lemma same_take_priority cur t N : keeps same_tables (take_priority cur t N).
Proof. unfold take_priority. samely. Qed.
Lemma same_next_work p th w : keeps same_tables (next_work p th w).
Proof. unfold next_work, list_head. samely. Qed.
Lemma same_unlink_stack k th (t : option Z) act : keeps same_tables (unlink_stack k th t act).
Proof. revert t act. induction k as [|k IH]; intros t act; cbn [unlink_stack]; samely. Qed.
Lemma same_defer_work p x : keeps same_tables (binder_defer_work p x).
Proof.
  unfold binder_defer_work. apply keeps_bind; [apply _|samely|]. intros _. apply keeps_modify. intros s.
  case_bool_decide; same_bare.
Qed.
Hint Resolve same_defer_work : keeps.
Lemma same_vma_close p : keeps same_tables (binder_vma_close p).
Proof. unfold binder_vma_close. samely. Qed.
Lemma same_need_return (l : list Z) : keeps same_tables (need_return l).
Proof. induction l as [|th l IH]; cbn [need_return]; samely. Qed.
Hint Resolve same_need_return : keeps.
Lemma same_deferred_flush p : keeps same_tables (binder_deferred_flush p).
Proof. unfold binder_deferred_flush. samely. Qed.
Lemma same_mmap cur p area v : keeps same_tables (binder_mmap cur p area v).
Proof.
  unfold binder_mmap. intros s x s' E. apply bind_ok in E as (P & s1 & HP & E). apply get_obj_ok in HP as [HP ->]. cbn zeta in E.
  do 3 (match type of E with (if ?c then _ else _) _ = _ => destruct c; [by apply ret_ok in E as [_ ->]|] end).
  destruct (area _) as [base|]; [|by apply ret_ok in E as [_ ->]].
  apply bind_ok in E as (o & s1 & E1 & E). kept same_tables E1 Hs. destruct o as [pages|].
  - apply bind_ok in E as (tk & s2 & E2 & E). kept same_tables E2 Hs2. apply bind_ok in E as (o & s3 & E3 & E).
    apply klift_ok in E3 as [_ ->]. assert (same_tables s s2) by (by etransitivity).
    destruct o as [al|]; run_inv; by eapply same_put_proc_later.
  - run_inv. by eapply same_put_proc_later.
Qed.
End Same.
#[export] Hint Resolve same_get_buf same_put_buf same_mod_buf same_alloc_buf same_free_buf same_get_content same_offset_at
  same_mod_content same_pop same_send_failed_reply same_log same_reply_target same_call_target same_translate_fd
  same_new_transaction same_deliver same_fail_transaction : keeps.
#[export] Hint Resolve same_stat_bc same_stat_br same_register_looper same_enter_looper same_exit_looper
  same_queue_death same_find_death same_has_proc_work same_has_thread_work same_take_priority same_next_work
  same_unlink_stack same_defer_work same_vma_close same_need_return same_deferred_flush same_mmap : keeps.
