(* ===== verification/TablesStep.v ===== *)
(** * Operations that change the tables keep them consistent *)
From S2P Require Import Prelude UserMem RbTree Alloc Protocol Kernel Refs Transact Send Write Read Driver KernelWp RefsInv RefsProps Keeps Tables.

Implicit Types (p n r d t th ptr : Z) (P : binder_proc) (N : binder_node) (R : binder_ref)
  (T : binder_thread) (D : binder_ref_death) (s : kstate)
  (ps : gmap Z binder_proc) (ns : gmap Z binder_node) (rs : gmap Z binder_ref)
  (ts : gmap Z binder_thread) (ds : gmap Z binder_ref_death).

Section Changes.
(** *** Threads *)
Lemma threads_ok_put ps ts p P P' : threads_ok ps ts -> ps !! p = Some P -> p_threads P' = p_threads P ->
  threads_ok (<[p := P']> ps) ts.
Proof.
  intros [H1 H2] E Ep. split.
  - intros q Q pid th. destruct (decide (q = p)) as [->|]; [rewrite lookup_insert_eq; intros [= <-]; rewrite Ep; eauto|].
    rewrite lookup_insert_ne by done. eauto.
  - intros th T HT. destruct (H2 th T HT) as (Q & HQ & Hth). destruct (decide (th_proc T = p)) as [<-|].
    + exists P'. rewrite lookup_insert_eq, Ep. split; [done|]. congruence.
    + exists Q. by rewrite lookup_insert_ne.
Qed.
Lemma threads_ok_new ps ts p P P' th T : threads_ok ps ts -> ps !! p = Some P -> ts !! th = None ->
  th_proc T = p -> p_threads P !! th_pid T = None -> p_threads P' = <[th_pid T := th]> (p_threads P) ->
  threads_ok (<[p := P']> ps) (<[th := T]> ts).
Proof.
  intros [H1 H2] E Et <- En Ep. split.
  - intros q Q pid th' HQ Hth. assert (Hold : forall Q0, ps !! q = Some Q0 -> p_threads Q0 !! pid = Some th' ->
      exists T', <[th := T]> ts !! th' = Some T' /\ th_proc T' = q /\ th_pid T' = pid).
    { intros Q0 HQ0 H0. destruct (H1 q Q0 pid th' HQ0 H0) as (T' & HT' & X). exists T'. rewrite lookup_insert_ne; [done|]. congruence. }
    destruct (decide (q = th_proc T)) as [->|]; [rewrite lookup_insert_eq in HQ; injection HQ as <-|rewrite lookup_insert_ne in HQ by done; eauto].
    rewrite Ep in Hth. destruct (decide (pid = th_pid T)) as [->|].
    + rewrite lookup_insert_eq in Hth. injection Hth as <-. exists T. by rewrite lookup_insert_eq.
    + rewrite lookup_insert_ne in Hth by done. eauto.
  - intros th' T' HT'. destruct (decide (th' = th)) as [->|].
    + rewrite lookup_insert_eq in HT'. injection HT' as <-. exists P'. rewrite lookup_insert_eq, Ep, lookup_insert_eq. done.
    + rewrite lookup_insert_ne in HT' by done. destruct (H2 th' T' HT') as (Q & HQ & Hth).
      destruct (decide (th_proc T' = th_proc T)) as [Epr|]; [|exists Q; by rewrite lookup_insert_ne].
      exists P'. rewrite Epr, lookup_insert_eq, Ep. split; [done|]. rewrite Epr, E in HQ. injection HQ as <-.
      rewrite lookup_insert_ne; [done|]. intros Epid. congruence.
Qed.
Lemma threads_ok_del ps ts p P P' th T : threads_ok ps ts -> ps !! p = Some P -> ts !! th = Some T ->
  th_proc T = p -> p_threads P' = delete (th_pid T) (p_threads P) ->
  threads_ok (<[p := P']> ps) (delete th ts).
Proof.
  intros [H1 H2] E Et <- Ep.
  assert (Hth0 : p_threads P !! th_pid T = Some th) by (destruct (H2 th T Et) as (Q & HQ & ?); congruence). split.
  - intros q Q pid th' HQ Hth. assert (exists Q0, ps !! q = Some Q0 /\ p_threads Q0 !! pid = Some th' /\ th' ≠ th) as (Q0 & HQ0 & H0 & Hne).
    { destruct (decide (q = th_proc T)) as [->|Hq].
      - rewrite lookup_insert_eq in HQ. injection HQ as <-. rewrite Ep in Hth. apply lookup_delete_Some in Hth as [Hn Hth].
        exists P. split_and!; [done..|]. intros ->. destruct (H1 _ P pid th E Hth) as (T' & HT' & _ & E2). congruence.
      - rewrite lookup_insert_ne in HQ by done. exists Q. split_and!; [done..|]. intros ->.
        destruct (H1 q Q pid th HQ Hth) as (T' & HT' & E2 & _). congruence. }
    destruct (H1 q Q0 pid th' HQ0 H0) as (T' & HT' & X). exists T'. rewrite lookup_delete_ne by done. done.
  - intros th' T' [Hne HT']%lookup_delete_Some. destruct (H2 th' T' HT') as (Q & HQ & Hth).
    destruct (decide (th_proc T' = th_proc T)) as [Epr|]; [|exists Q; by rewrite lookup_insert_ne].
    exists P'. rewrite Epr, lookup_insert_eq, Ep. split; [done|]. rewrite Epr, E in HQ. injection HQ as <-.
    rewrite lookup_delete_ne; [done|]. intros Epid. congruence.
Qed.

(** *** Death notifications *)
Lemma deaths_ok_del rs ds r : deaths_ok rs ds -> deaths_ok (delete r rs) ds.
Proof. intros [H1 H2]. split; [intros ? ? ? [_ ?]%lookup_delete_Some|intros ? ? ? ? ? [_ ?]%lookup_delete_Some [_ ?]%lookup_delete_Some]; eauto. Qed.
Lemma deaths_ok_put rs ds r R' : deaths_ok rs ds -> r_death R' = None -> deaths_ok (<[r := R']> rs) ds.
Proof.
  intros [H1 H2] Hn. split.
  - intros q Q d. destruct (decide (q = r)) as [->|]; [rewrite lookup_insert_eq; congruence|rewrite lookup_insert_ne by done; eauto].
  - intros r1 r2 R1 R2 d. destruct (decide (r1 = r)) as [->|]; [rewrite lookup_insert_eq; congruence|].
    destruct (decide (r2 = r)) as [->|]; [rewrite (lookup_insert_eq _ r); congruence|]. rewrite !lookup_insert_ne by done. eauto.
Qed.

(** *** Queued nodes *)
Implicit Types (ls : gmap lhead (list work)).
Lemma work_ok_mono ns ns' ts ts' ls ls' : work_ok ns ts ls ->
  (forall h n, queued ls' h (WNode n) -> queued ls h (WNode n)) ->
  (forall h n N, queued ls' h (WNode n) -> ns !! n = Some N -> exists N', ns' !! n = Some N' /\ n_proc N' = n_proc N) ->
  (forall th n T, queued ls' (TodoThread th) (WNode n) -> ts !! th = Some T -> exists T', ts' !! th = Some T' /\ th_proc T' = th_proc T) ->
  work_ok ns' ts' ls'.
Proof.
  intros H H1 H2 H3 h n Hn. destruct (H h n (H1 h n Hn)) as (N & p & HN & Ep & Hh). destruct (H2 h n N Hn HN) as (N' & HN' & En).
  exists N', p. split; [done|]. split; [congruence|]. destruct Hh as [|(th & T & -> & HT & Et)]; [by left|].
  destruct (H3 th n T Hn HT) as (T' & HT' & Et'). right. exists th, T'. split_and!; [done..|congruence].
Qed.
Lemma work_ok_put ns ts ls n N N' : work_ok ns ts ls -> ns !! n = Some N -> n_proc N' = n_proc N -> work_ok (<[n := N']> ns) ts ls.
Proof.
  intros H HN Ep. eapply work_ok_mono; [exact H|done| |eauto]. intros h m M _ HM. destruct (decide (m = n)) as [->|].
  - exists N'. rewrite lookup_insert_eq. split; [done|congruence].
  - exists M. by rewrite lookup_insert_ne.
Qed.
Lemma work_ok_new ns ts ls n N : work_ok ns ts ls -> ns !! n = None -> work_ok (<[n := N]> ns) ts ls.
Proof.
  intros H Hn. eapply work_ok_mono; [exact H|done| |eauto]. intros h m M _ HM. exists M. rewrite lookup_insert_ne; [done|congruence].
Qed.
Lemma work_ok_new_thread ns ts ls th T : work_ok ns ts ls -> ts !! th = None -> work_ok ns (<[th := T]> ts) ls.
Proof.
  intros H Hn. eapply work_ok_mono; [exact H|done|eauto|]. intros h m M _ HM. exists M. rewrite lookup_insert_ne; [done|congruence].
Qed.
Lemma work_ok_del ns ts ls ls' n : work_ok ns ts ls ->
  (forall h m, queued ls' h (WNode m) -> queued ls h (WNode m) /\ m ≠ n) -> work_ok (delete n ns) ts ls'.
Proof.
  intros H Hq. eapply work_ok_mono; [exact H|by intros h m [? _]%Hq| |eauto]. intros h m M [_ Hm]%Hq HM. exists M.
  by rewrite lookup_delete_ne.
Qed.
End Changes.

Section Nodes.
(** *** Nodes that go *)
Lemma unlink_none N ps p : unlink_proc N ps !! p = None <-> ps !! p = None.
Proof.
  unfold unlink_proc. destruct (n_proc N) as [q|]; [|done]. destruct (decide (p = q)) as [->|]; [|by rewrite lookup_alter_ne].
  rewrite lookup_alter_eq. by destruct (ps !! q).
Qed.
Lemma unlink_bare N ps : bare_proc <$> unlink_proc N ps = unlink_proc (bare_node N) (bare_proc <$> ps).
Proof.
  unfold unlink_proc. cbn. destruct (n_proc N) as [q|]; [|done]. apply map_eq. intros p.
  destruct (decide (p = q)) as [->|]; [rewrite lookup_fmap, !lookup_alter_eq, lookup_fmap; by destruct (ps !! q)|].
  by rewrite lookup_fmap, !lookup_alter_ne, lookup_fmap.
Qed.
Lemma threads_ok_unlink ps ts N : threads_ok ps ts -> threads_ok (unlink_proc N ps) ts.
Proof.
  intros H. unfold unlink_proc. destruct (n_proc N) as [p|]; [|done]. destruct (ps !! p) as [P|] eqn:EP.
  - assert (alter (fun P => set_p_nodes P (delete (n_ptr N) (p_nodes P))) p ps =
      <[p := set_p_nodes P (delete (n_ptr N) (p_nodes P))]> ps) as ->.
    { apply map_eq. intros q. destruct (decide (q = p)) as [->|]; [by rewrite lookup_alter_eq, lookup_insert_eq, EP|].
      by rewrite lookup_alter_ne, lookup_insert_ne. }
    by eapply threads_ok_put.
  - by rewrite alter_id by congruence.
Qed.
Lemma tables_del_node ps ns rs ts ds (ls ls' : gmap lhead (list work)) (k : Z) n N : tables ps ns rs ts ds ls k ->
  ns !! n = Some N -> dies N true = true -> (forall h m, queued ls' h (WNode m) -> queued ls h (WNode m) /\ m ≠ n) ->
  tables (unlink_proc N ps) (delete n ns) rs ts ds ls' k.
Proof.
  intros [Hr Ht Hd Hw Hf] EN Hdies Hq. split; [|by apply threads_ok_unlink|done|by eapply work_ok_del|].
  - apply (dies_refs_inv _ _ _ n N N true); try done. by rewrite insert_id.
  - intros x Hx. destruct (Hf x Hx) as (F1 & F2 & F3 & F4 & F5). split_and!; [by apply unlink_none|done| |done..].
    rewrite lookup_delete_None. by right.
Qed.
Lemma dies_bare N : n_refs N = [] -> dies (bare_node N) true = true.
Proof. intros E. unfold dies. cbn. rewrite E. by rewrite andb_false_r. Qed.
Lemma dies_refs N st : dies N st = true -> n_refs N = [].
Proof.
  unfold dies. intros [_ H]%andb_true_iff. apply andb_true_iff in H as [H _]. apply andb_true_iff in H as [H _].
  by apply bool_decide_eq_true in H.
Qed.
End Nodes.

(** A lookup among the bare objects. *)
Ltac bare := first [by apply fmap_some|by rewrite ?lookup_fmap; match goal with H : _ !! _ = None |- _ => rewrite H end|done].

Section Ops.
Context {M : Type} `{uops : UserOps M}.
Context `{env : KernelEnv} `{rb : RbOps} `{jk : Junk}.

(** ** Nodes *)
Lemma tables_new_node p ptr ck : keeps keeps_tables (binder_new_node p ptr ck).
Proof.
  intros s o s' E H. unfold binder_new_node in E. apply bind_ok in E as (P & s1 & HP & E). apply get_obj_ok in HP as [HP ->].
  destruct (p_nodes P !! ptr) eqn:Eptr; [by apply ret_ok in E as [_ ->]|].
  apply bind_ok in E as (o' & s1 & Ek & E). unfold kzalloc, new_ticket in Ek. run_inv. destruct (kzalloc_ok _).
  2: { run_inv. split; [by eapply tables_weaken; [exact H|cbn; lia]|done]. }
  unfold binder_stats_created, bump, next_id in E. run_inv. cbn in *.
  match goal with H1 : procs s !! p = Some ?Q |- _ => rewrite HP in H1; injection H1 as <- end.
  destruct H as [Hr Ht Hd Hw Hf]. destruct (Hf (ticket s + 1)) as (F1 & F2 & F3 & F4 & F5); [lia|].
  split; [|done]. unfold bare_tables. cbn. rewrite !fmap_insert. split.
  - by eapply (refs_inv_new_node _ _ _ p (bare_proc P)); try bare.
  - by eapply threads_ok_put; try bare.
  - done.
  - by apply work_ok_new.
  - intros x Hx. destruct (Hf x) as (G1 & G2 & G3 & G4 & G5); [lia|]. rewrite !lookup_insert_ne; [done|lia|].
    intros <-. by apply fmap_none in G1; congruence.
Qed.

Lemma mod_proc_ok p f s x s' : mod_proc p f s = Ok (x, s') ->
  exists P, procs s !! p = Some P /\ s' = set_procs s (<[p := f P]> (procs s)).
Proof. intros E. run_inv. eauto. Qed.
Lemma mod_node_ok n f s x s' : mod_node n f s = Ok (x, s') ->
  exists N, nodes s !! n = Some N /\ s' = set_nodes s (<[n := f N]> (nodes s)).
Proof. intros E. run_inv. eauto. Qed.

(** The outcome of an operation known from its specification. *)
Lemma wp_ok {A} (m : K A) Q s a s' : wp m Q s -> m s = Ok (a, s') -> Q a s'.
Proof. intros (b & s2 & E & H)%wp_run E2. congruence. Qed.

Lemma node_owner s n N p : bare_tables s -> nodes s !! n = Some N -> n_proc N = Some p -> is_Some (procs s !! p).
Proof.
  intros H EN Ep. destruct (ri_owner _ _ _ (tb_refs _ _ _ _ _ _ _ H) n (bare_node N) p) as (P & HP & _); [bare..|].
  apply lookup_fmap_Some in HP as (P0 & _ & HP). by eexists.
Qed.

(** A node whose list is empty goes. *)
Lemma bare_del_node s s' n N : bare_tables s -> nodes s !! n = Some N -> n_refs N = [] ->
  procs s' = unlink_proc N (procs s) -> nodes s' = delete n (nodes s) -> refs s' = refs s -> threads s' = threads s ->
  deaths s' = deaths s -> ticket s' = ticket s ->
  (forall h m, queued (lists s') h (WNode m) -> queued (lists s) h (WNode m) /\ m ≠ n) -> bare_tables s'.
Proof.
  intros H EN Er E1 E2 E3 E4 E5 E6 Hq. unfold bare_tables. rewrite E1, E2, E3, E4, E5, E6, unlink_bare, fmap_delete.
  eapply tables_del_node; [done|bare|by apply dies_bare|done].
Qed.
(** A node that is queued for its process. *)
Lemma bare_queue_node s s' n N p : bare_tables s -> nodes s !! n = Some N -> n_proc N = Some p ->
  bare_proc <$> procs s' = bare_proc <$> procs s -> bare_node <$> nodes s' = bare_node <$> nodes s -> refs s' = refs s ->
  threads s' = threads s -> deaths s' = deaths s -> ticket s' = ticket s ->
  (forall h m, queued (lists s') h (WNode m) -> queued (lists s) h (WNode m) \/ m = n /\
    (h = TodoProc p \/ exists th T, h = TodoThread th /\ threads s !! th = Some T /\ th_proc T = p)) ->
  bare_tables s'.
Proof.
  intros [Hr Ht Hd Hw Hf] EN Ep E1 E2 E3 E4 E5 E6 Hq. unfold bare_tables. rewrite E1, E2, E3, E4, E5, E6. split; try done.
  intros h m [Hm|[-> Hh]]%Hq; [by apply Hw|]. exists (bare_node N), p. split; [bare|]. split; [done|].
  destruct Hh as [|(th & T & Eh & HT & Et)]; [by left|]. right. exists th, (bare_thread T). split; [done|]. split; [bare|done].
Qed.

(** What [binder_dec_node] does to the lists. *)
Lemma dec_node_lists n st i s x s' : binder_dec_node n st i s = Ok (x, s') -> exists N, nodes s !! n = Some N /\
  (forall h m, queued (lists s') h (WNode m) -> queued (lists s) h (WNode m) \/ m = n /\ exists p, n_proc N = Some p /\ h = TodoProc p) /\
  (nodes s' !! n = None -> forall h m, queued (lists s') h (WNode m) -> queued (lists s) h (WNode m) /\ m ≠ n).
Proof.
  intros E. unfold binder_dec_node in E. apply bind_ok in E as (N & s1 & HN & E). apply get_obj_ok in HN as [HN ->].
  apply bind_ok in E as ([] & s1 & E1 & E). apply modify_ok in E1 as ->. exists N. split; [done|].
  destruct (dec_counts_same N st i) as (_ & C2 & _). set (N' := dec_counts N st i) in *.
  assert (Hsame : forall s', lists s' = lists s -> nodes s' !! n ≠ None ->
    (forall h m, queued (lists s') h (WNode m) -> queued (lists s) h (WNode m) \/ m = n /\ exists p, n_proc N = Some p /\ h = TodoProc p) /\
    (nodes s' !! n = None -> forall h m, queued (lists s') h (WNode m) -> queued (lists s) h (WNode m) /\ m ≠ n)).
  { intros s2 El Hn. rewrite El. split; [by left|done]. }
  assert (Hdel : forall s', lists s' = list_del (WNode n) <$> lists s ->
    (forall h m, queued (lists s') h (WNode m) -> queued (lists s) h (WNode m) \/ m = n /\ exists p, n_proc N = Some p /\ h = TodoProc p) /\
    (nodes s' !! n = None -> forall h m, queued (lists s') h (WNode m) -> queued (lists s) h (WNode m) /\ m ≠ n)).
  { intros s2 El. rewrite El. split; [by intros h m [? _]%queued_del; left|]. intros _ h m [Hm Hne]%queued_del. split; [done|congruence]. }
  destruct (still_held N' st); [run_inv; apply Hsame; [done|cbn; by rewrite lookup_insert_eq]|].
  unfold unused_node in E. rewrite C2 in E. destruct (n_proc N) as [p|] eqn:Ep.
  - destruct (_ || _).
    + run_inv. apply when_ok in E as [[_ E]|[_ ->]]; run_inv; [|by apply Hsame; [done|cbn; rewrite lookup_insert_eq]].
      split; [|cbn; by rewrite lookup_insert_eq]. cbn. intros h m [|[-> [= <-]]]%queued_add; [by left| |done]. right. eauto.
    + apply when_ok in E as [[_ E]|[_ ->]]; [|apply Hsame; [done|cbn; by rewrite lookup_insert_eq]].
      unfold free_node, binder_stats_deleted, bump in E. run_inv. by apply Hdel.
  - apply when_ok in E as [[_ E]|[_ ->]]; [|apply Hsame; [done|cbn; by rewrite lookup_insert_eq]].
    unfold free_node, binder_stats_deleted, bump in E. run_inv. by apply Hdel.
Qed.

(** The outcome of [binder_dec_node]. *)
Lemma dec_node_facts n st i s N x s' : nodes s !! n = Some N -> (forall p, n_proc N = Some p -> is_Some (procs s !! p)) ->
  binder_dec_node n st i s = Ok (x, s') ->
  threads s' = threads s /\ refs s' = refs s /\ deaths s' = deaths s /\ ticket s' = ticket s /\
  if dies (dec_counts N st i) st then nodes s' = delete n (nodes s) /\ procs s' = unlink_proc N (procs s)
  else nodes s' = <[n := dec_counts N st i]> (nodes s) /\ procs s' = procs s.
Proof.
  intros EN Hp E. revert x s' E.
  enough (W : wp (binder_dec_node n st i) (fun _ s' => threads s' = threads s /\ refs s' = refs s /\ deaths s' = deaths s /\ ticket s' = ticket s /\
    if dies (dec_counts N st i) st then nodes s' = delete n (nodes s) /\ procs s' = unlink_proc N (procs s)
    else nodes s' = <[n := dec_counts N st i]> (nodes s) /\ procs s' = procs s) s) by (intros x s' E; by eapply wp_ok in W).
  apply (dec_node_wp n st i s N); [done..|]. by intros s' [_ Ft _ _ _ _ _ _] Er Ed Et Hc.
Qed.

(** [binder_dec_node] where the tables are right but for the references [rs], which
    are about to be put in place. *)
Lemma dec_node_at n st i s rs x s' : binder_dec_node n st i s = Ok (x, s') -> bare_tables (set_refs s rs) ->
  bare_tables (set_refs s' rs) /\ refs s' = refs s /\ deaths s' = deaths s /\ threads s' = threads s.
Proof.
  intros E H. destruct (dec_node_lists _ _ _ _ _ _ E) as (N & HN & Hq & Hq').
  apply (dec_node_facts _ _ _ _ N) in E as (Ft & Er & Ed & Et & Hc);
    [|done|by intros p; apply (node_owner (set_refs s rs) n N p)].
  split; [|done]. destruct (dec_counts_same N st i) as (C1 & C2 & C3 & _).
  destruct (dies _ st) eqn:Ei; destruct Hc as [En Ep].
  - apply (bare_del_node (set_refs s rs) _ n N); try done; [rewrite <- C1; by eapply dies_refs|].
    apply Hq'. by rewrite En, lookup_delete_eq.
  - assert (Hb : bare_node <$> nodes s' = bare_node <$> nodes s)
      by (rewrite En; eapply fmap_insert_same; [done|]; unfold bare_node; by rewrite C1, C2, C3).
    destruct (n_proc N) as [p|] eqn:Enp.
    + apply (bare_queue_node (set_refs s rs) _ n N p); try done; [cbn; by rewrite Ep|].
      intros h m [|[-> (q & [= <-] & ->)]]%Hq; auto.
    + apply (same_keeps (set_refs s rs)); [|done]. unfold same_tables, fewer_deaths, live_death. cbn.
      rewrite Hb, Ep, Ft, Et, Ed. split_and!; try done. intros h m [|[_ (q & ? & _)]]%Hq; done.
Qed.
Lemma tables_dec_node n st i : keeps keeps_tables (binder_dec_node n st i).
Proof.
  intros s x s' E H. apply (dec_node_at _ _ _ _ (refs s)) in E as (H2 & Er & _ & Et); [|done]. rewrite <- Er in H2. by rewrite Et.
Qed.
Hint Resolve tables_new_node tables_dec_node : keeps.

(** ** References *)
Lemma pick_desc_range (l : list Z) x : 0 <= x < 2 ^ 32 -> 0 <= pick_desc l x < 2 ^ 32.
Proof.
  revert x. induction l as [|d l IH]; intros x Hx; cbn [pick_desc]; [done|]. destruct (x <? d); [done|].
  apply IH. unfold u32. apply Z.mod_pos_bound. lia.
Qed.

Lemma tables_get_ref_for_node p n : keeps keeps_tables (binder_get_ref_for_node p n).
Proof.
  intros s o s' E H. unfold binder_get_ref_for_node in E. apply bind_ok in E as (P & s1 & HP & E). apply get_obj_ok in HP as [HP ->].
  destruct (p_refs_by_node P !! n) eqn:En; [by apply ret_ok in E as [_ ->]|].
  apply bind_ok in E as (o' & s1 & Ek & E). unfold kzalloc, new_ticket in Ek. run_inv. destruct (kzalloc_ok _).
  2: { run_inv. split; [by eapply tables_weaken; [exact H|cbn; lia]|done]. }
  unfold binder_stats_created, bump, next_id, put_ref in E. run_inv. cbn in *.
  repeat match goal with
  | H1 : procs s !! p = Some ?Q |- _ => first [constr_eq Q P; fail 1|rewrite HP in H1; injection H1 as <-]
  | H1 : <[p := _]> (procs s) !! p = Some _ |- _ => rewrite lookup_insert_eq in H1; injection H1 as <-
  | H1 : bool_decide _ = false |- _ => apply bool_decide_eq_false, eq_None_not_Some in H1; rename H1 into Edesc
  end.
  set (desc := pick_desc _ _) in *. assert (0 <= desc < 2 ^ 32) by (apply pick_desc_range; case_decide; lia).
  match goal with H1 : nodes s !! n = Some ?Q |- _ => rename Q into N, H1 into EN end.
  destruct H as [Hr Ht Hd Hw Hf]. destruct (Hf (ticket s + 1)) as (F1 & F2 & F3 & F4 & F5); [lia|].
  split; [|done]. unfold bare_tables. cbn. rewrite insert_insert_eq, !fmap_insert. split.
  - by apply (refs_inv_new_ref _ _ _ p (bare_proc P) _ n (bare_node N) (ticket s + 1) desc 0); try bare.
  - by eapply threads_ok_put; try bare.
  - by apply deaths_ok_put.
  - by eapply work_ok_put; try bare.
  - intros x Hx. destruct (Hf x) as (G1 & G2 & G3 & G4 & G5); [lia|].
    rewrite !lookup_insert_ne; [done|lia|intros <-; apply fmap_none in G3; congruence|intros <-; apply fmap_none in G1; congruence].
Qed.

(** The first decrement of [binder_delete_ref]: the reference is still on the list of
    the node, so the node stays. *)
Record node_only n N1 s s' : Prop := {
  no_nodes : nodes s' = <[n := N1]> (nodes s);
  no_rest : procs s' = procs s /\ refs s' = refs s /\ threads s' = threads s /\ deaths s' = deaths s /\ ticket s' = ticket s;
  no_lists h m : queued (lists s') h (WNode m) -> queued (lists s) h (WNode m) \/
    m = n /\ exists p, n_proc N1 = Some p /\ h = TodoProc p
}.
Lemma drop_strong_at n s N (c : bool) x s' : nodes s !! n = Some N -> n_refs N ≠ [] ->
  (forall p, n_proc N = Some p -> is_Some (procs s !! p)) ->
  when c (binder_dec_node n true true) s = Ok (x, s') -> exists N1, bare_node N1 = bare_node N /\ node_only n N1 s s'.
Proof.
  intros EN Er Hp E. destruct c; [|apply ret_ok in E as [_ ->]; exists N; split; [done|split; [by rewrite insert_id|done|auto]]].
  cbn [when] in E. destruct (dec_node_lists _ _ _ _ _ _ E) as (N' & HN' & Hq & _). assert (N' = N) as -> by congruence.
  apply (dec_node_facts _ _ _ _ N) in E as (Ft & E1 & Ed & Et & Hc); [|done..].
  destruct (dies _ true) eqn:Ei; [apply dies_refs in Ei; done|]. destruct Hc as [En Ep].
  exists (dec_counts N true true). split; [done|]. by split.
Qed.

(** The reference and its death notification, out of all tables. *)
Lemma deaths_ok_del_death rs ds r R d : deaths_ok rs ds -> rs !! r = Some R -> r_death R = Some d ->
  deaths_ok (delete r rs) (delete d ds).
Proof.
  intros [H1 H2] HR Hd. split.
  - intros q Q e [Hq HQ]%lookup_delete_Some He. destruct (H1 q Q e HQ He) as (D & HD & X). exists D. split; [|done].
    rewrite lookup_delete_ne; [done|]. intros ->. apply Hq. by eapply H2.
  - intros ? ? ? ? ? [_ ?]%lookup_delete_Some [_ ?]%lookup_delete_Some. eauto.
Qed.
Lemma delete_ref_tail_at r R s x s' : 
  (_ ← match r_death R with
       | None => mret tt
       | Some d => _ ← list_del_work (WDeath d); _ ← free_death d; binder_stats_deleted BINDER_STAT_DEATH
       end;
   _ ← free_ref r; binder_stats_deleted BINDER_STAT_REF) s = Ok (x, s') ->
  refs s !! r = Some R -> deaths_ok (bare_ref <$> refs s) (bare_death <$> deaths s) ->
  bare_tables (set_refs s (delete r (refs s))) -> bare_tables s' /\ threads s' = threads s.
Proof.
  intros E HR Hdo H. unfold free_ref, free_death, binder_stats_deleted, bump in E. destruct (r_death R) as [d|] eqn:Ed.
  - run_inv. destruct H as [G1 G2 _ G3 G4]. split; [|done]. unfold bare_tables. cbn in *. rewrite fmap_delete in *. split; try done.
    + rewrite fmap_delete. by eapply deaths_ok_del_death; [done|by apply fmap_some|].
    + eapply work_ok_mono; [exact G3|by intros h m [? _]%queued_del|eauto..].
    + intros y Hy. destruct (G4 y Hy) as (? & ? & ? & ? & F). split_and!; try done. rewrite fmap_delete, lookup_delete_None. by right.
  - run_inv. by split.
Qed.

Lemma tables_delete_ref r : keeps keeps_tables (binder_delete_ref r).
Proof.
  intros s x s' E H. unfold binder_delete_ref in E. apply bind_ok in E as (R & s1 & HR & E). apply get_obj_ok in HR as [HR ->].
  pose proof (tables_handles s H) as HO. destruct (ho_ref _ HO r R HR) as ([N EN] & P & EP & _ & _).
  destruct (ho_node_refs _ HO _ N EN) as [_ Hin]. assert (Hr : r ∈ n_refs N) by (apply Hin; eauto).
  apply bind_ok in E as ([] & s1 & E1 & E). apply mod_proc_ok in E1 as (P0 & EP0 & ->). rewrite EP in EP0. injection EP0 as <-.
  apply bind_ok in E as ([] & s1 & E1 & E). apply mod_proc_ok in E1 as (P0 & EP0 & E1). cbn in EP0. rewrite lookup_insert_eq in EP0.
  injection EP0 as <-. set (P' := set_p_refs_by_node _ _) in E1.
  assert (Hps : procs s1 = <[r_proc R := P']> (procs s)) by (rewrite E1; cbn; by rewrite insert_insert_eq).
  apply bind_ok in E as ([] & s2 & E2 & E).
  apply (drop_strong_at _ _ N) in E2 as (N1 & EN1 & [Hn2 (Hp2 & Hr2 & Ht2 & Hd2 & Hk2) Hq2]);
    [|by rewrite E1|by intros El; rewrite El in Hr; apply elem_of_nil in Hr|].
  2: { intros q Hq. rewrite Hps, lookup_insert_is_Some'. right. by eapply node_owner. }
  apply bind_ok in E as ([] & s3 & E3 & E). apply mod_node_ok in E3 as (N2 & EN2 & ->).
  rewrite Hn2, lookup_insert_eq in EN2. injection EN2 as <-. rewrite E1 in Hn2, Hr2, Ht2, Hd2, Hk2, Hq2. cbn in Hn2, Hr2, Ht2, Hd2, Hk2, Hq2.
  clear E1. rewrite Hps in Hp2. clear Hps. apply bind_ok in E as ([] & s4 & E4 & E).
  apply (dec_node_at _ _ _ _ (delete r (refs s))) in E4 as (H4 & Hr4 & Hd4 & Ht4).
  - cbn in Hr4, Hd4, Ht4. apply (delete_ref_tail_at r R) in E as [G Et]; [|by rewrite Hr4, Hr2|rewrite Hr4, Hr2, Hd4, Hd2; apply H|by rewrite Hr4, Hr2].
    split; [done|]. by rewrite Et, Ht4, Ht2.
  - injection EN1 as F1 F2 F3. destruct H as [Gr Gt Gd Gw Gf]. unfold bare_tables. cbn.
    rewrite Hn2, Hp2, Ht2, Hd2, Hk2, insert_insert_eq, !fmap_insert, fmap_delete. split.
    + apply (refs_inv_del_ref _ _ _ r (bare_ref R) (bare_proc P) _ (bare_node N)); try bare; cbn; [by rewrite F2|].
      rewrite (strong1_eq _ r (bare_ref R)) by bare. done.
    + by eapply threads_ok_put; try bare.
    + by apply deaths_ok_del.
    + intros h m [Hm|[-> (q & Eq & ->)]]%Hq2.
      * by apply (work_ok_put _ _ _ (r_node R) (bare_node N) _ Gw); [bare|cbn; by rewrite F1|].
      * eexists _, q. rewrite lookup_insert_eq. split; [done|]. split; [done|by left].
    + intros y Hy. destruct (Gf y Hy) as (K1 & K2 & K3 & K4 & K5). rewrite lookup_delete_None.
      rewrite !lookup_insert_ne; [by split_and!; auto|intros <-; apply fmap_none in K3; congruence|intros <-; apply fmap_none in K1; congruence].
Qed.
Hint Resolve tables_get_ref_for_node tables_delete_ref : keeps.

Lemma tables_dec_ref r st : keeps keeps_tables (binder_dec_ref r st).
Proof.
  intros s x s' E. unfold binder_dec_ref in E. apply bind_ok in E as (R & s1 & HR & E). apply get_obj_ok in HR as [HR ->].
  destruct (_ =? 0); [by apply ret_ok in E as [_ ->]|]. apply bind_ok in E as ([] & s1 & E1 & E).
  kept keeps_tables E H2. etransitivity; [|exact H2]. destruct st.
  - apply bind_ok in E1 as ([] & s2 & E2 & E1). apply modify_ok in E2 as ->. kept keeps_tables E1 H3.
    etransitivity; [|exact H3]. apply same_keeps. by eapply same_put_ref.
  - apply modify_ok in E1 as ->. apply same_keeps. by eapply same_put_ref.
Qed.
Hint Resolve tables_dec_ref : keeps.
End Ops.
#[export] Hint Resolve tables_new_node tables_dec_node tables_get_ref_for_node tables_delete_ref tables_dec_ref : keeps.
