(* ===== verification/TablesOps.v ===== *)
(** * Every command and every file operation keeps the tables consistent *)
From S2P Require Import Prelude UserMem RbTree Alloc Protocol Kernel Refs Transact Send Write Read Driver KernelWp RefsInv RefsProps Keeps Tables TablesStep.

Implicit Types (p n r d t th b ptr : Z) (P : binder_proc) (N : binder_node) (R : binder_ref)
  (T : binder_thread) (D : binder_ref_death) (s : kstate).

Section Ops.
Context {M : Type} `{uops : UserOps M}.
Context `{env : KernelEnv} `{rb : RbOps} `{jk : Junk}.
Ltac tabled := keep; try (apply same_keeps; same_bare).

(** Past a step of a run. *)
Lemma keeps_after s s1 s' : bare_tables s -> keeps_tables s s1 -> keeps_tables s1 s' ->
  bare_tables s' /\ bare_thread <$> threads s' = bare_thread <$> threads s.
Proof. intros H K1 K2. by apply (transitivity (R := keeps_tables) K1 K2). Qed.
Ltac after E H :=
  let K := fresh "K" in
  lazymatch type of E with _ ?s0 = Ok (_, ?s1) =>
    kept keeps_tables E K; apply (keeps_after s0 s1 _ H K); clear E K H; try clear s0; intros H
  end.

(** ** Transactions *)
Lemma tables_release_object p f fp : keeps keeps_tables (release_object p f fp).
Proof. unfold release_object. tabled. Qed.
Hint Resolve tables_release_object : keeps.
Lemma tables_release_objects k i p b ds f : keeps keeps_tables (release_objects k i p b ds f).
Proof. revert i. induction k as [|k IH]; intros i; cbn [release_objects]; tabled. Qed.
Hint Resolve tables_release_objects : keeps.
Lemma tables_buffer_release p b f : keeps keeps_tables (binder_transaction_buffer_release p b f).
Proof. unfold binder_transaction_buffer_release. tabled. Qed.
Hint Resolve tables_buffer_release : keeps.

(** *** A node of the sender *)

(** The thread runs for the process. *)
Definition belongs p th s : Prop := exists T, threads s !! th = Some T /\ th_proc T = p.
Definition keeps_for p th s s' : Prop := belongs p th s -> keeps_tables s s'.
Lemma belongs_bare p th s s' : bare_thread <$> threads s' = bare_thread <$> threads s -> belongs p th s -> belongs p th s'.
Proof.
  intros E (T & HT & Ep). pose proof (fmap_some bare_thread _ _ _ HT) as H. rewrite <- E in H.
  apply lookup_fmap_Some in H as (T' & E' & HT'). exists T'. split; [done|]. injection E'. congruence.
Qed.
#[local] Instance keeps_for_preorder p th : PreOrder (keeps_for p th).
Proof.
  split; [by intros s _|]. intros s1 s2 s3 H1 H2 Hb H. destruct (H1 Hb H) as [K1 E1].
  destruct (H2 (belongs_bare _ _ _ _ E1 Hb) K1) as [K2 E2]. split; [done|congruence].
Qed.
Lemma keeps_for_any {A} p th (m : K A) : keeps keeps_tables m -> keeps (keeps_for p th) m.
Proof. intros H s a s' E _. by eapply H. Qed.
Hint Extern 4 (keeps (keeps_for _ _) _) => apply keeps_for_any : keeps.

Lemma inc_node_at n st i h s N x s' p : binder_inc_node n st i (Some h) s = Ok (x, s') -> nodes s !! n = Some N ->
  n_proc N = Some p -> (h = TodoProc p \/ exists th, h = TodoThread th /\ belongs p th s) -> keeps_tables s s'.
Proof.
  intros E HN Ep Hh H.
  assert (exists N', bare_node N' = bare_node N /\ nodes s' = <[n := N']> (nodes s) /\ procs s' = procs s /\ refs s' = refs s /\
    threads s' = threads s /\ deaths s' = deaths s /\ ticket s' = ticket s /\
    forall h' m, queued (lists s') h' (WNode m) -> queued (lists s) h' (WNode m) \/ m = n /\ h' = h) as
    (N' & Eb & En & E1 & E2 & E3 & E4 & E5 & Hq).
  { unfold binder_inc_node in E. apply bind_ok in E as (N0 & s1 & HN0 & E). apply get_obj_ok in HN0 as [HN0 ->].
    assert (N0 = N) as -> by congruence. destruct st.
    - apply bind_ok in E as (mgr & s1 & E1 & E). apply get_ok in E1 as [_ ->].
      destruct (i && _); [apply ret_ok in E as [_ ->]; exists N; rewrite insert_id by done; split_and!; auto|].
      apply bind_ok in E as ([] & s1 & E1 & E). apply modify_ok in E1 as ->. apply bind_ok in E as ([] & s1 & E1 & E).
      apply ret_ok in E as [_ ->]. apply when_ok in E1 as [[_ E1]|[_ ->]]; run_inv; cbn; eexists;
        (split; [|split_and!; [reflexivity..|]]); [by destruct i| |by destruct i|by left].
      intros h' m Hm. apply queued_add in Hm as [[Hm _]%queued_del|[-> [= ->]]]; [by left|by right|done].
    - apply bind_ok in E as ([] & s1 & E1 & E). apply modify_ok in E1 as ->. apply bind_ok in E as (on & s1 & E1 & E).
      apply get_ok in E1 as [_ ->]. destruct (negb _ && _); run_inv; cbn; eexists;
        (split; [|split_and!; [reflexivity..|]]); [by destruct i| |by destruct i|by left].
      intros h' m Hm. apply queued_add in Hm as [Hm|[-> [= ->]]]; [by left|by right|done]. }
  split; [|by rewrite E3]. apply (bare_queue_node s s' n N p); try done; [by rewrite E1|by rewrite En; eapply fmap_insert_same|].
  intros h' m [|[-> ->]]%Hq; [by left|right]. split; [done|]. destruct Hh as [|(th & -> & T & HT & Et)]; [by left|]. right. eauto.
Qed.

Lemma inc_ref_at r st h s R N x s' p : binder_inc_ref r st (Some h) s = Ok (x, s') -> refs s !! r = Some R ->
  nodes s !! r_node R = Some N -> n_proc N = Some p -> (h = TodoProc p \/ exists th, h = TodoThread th /\ belongs p th s) ->
  keeps_tables s s'.
Proof.
  intros E HR HN Ep Hh. unfold binder_inc_ref in E. apply bind_ok in E as (R0 & s1 & HR0 & E). apply get_obj_ok in HR0 as [HR0 ->].
  assert (R0 = R) as -> by congruence. destruct st; apply bind_ok in E as (ret & s1 & E1 & E); kept keeps_tables E H2;
    (etransitivity; [|exact H2]); (destruct (_ =? 0); [by eapply inc_node_at|by apply ret_ok in E1 as [_ ->]]).
Qed.

Lemma get_ref_for_node_ok p n s r s' N : bare_tables s -> binder_get_ref_for_node p n s = Ok (Some r, s') ->
  nodes s !! n = Some N -> (exists R, refs s' !! r = Some R /\ r_node R = n) /\
    exists N', nodes s' !! n = Some N' /\ n_proc N' = n_proc N.
Proof.
  intros H E HN. unfold binder_get_ref_for_node in E. apply bind_ok in E as (P & s1 & HP & E). apply get_obj_ok in HP as [HP ->].
  destruct (p_refs_by_node P !! n) eqn:En.
  - apply ret_ok in E as [[= <-] ->]. split; [|eauto]. destruct (ho_by_node _ (tables_handles s H) p P n r HP En) as (R & HR & _ & X). eauto.
  - apply bind_ok in E as (o' & s1 & Ek & E). unfold kzalloc, new_ticket in Ek. run_inv. destruct (kzalloc_ok _); [|by run_inv].
    unfold binder_stats_created, bump, next_id, put_ref in E. run_inv.
    match goal with H1 : Some _ = Some _ |- _ => injection H1 as -> end. cbn in *. rewrite !lookup_insert_eq.
    split; [by eexists|]. eexists. split; [done|]. cbn. congruence.
Qed.

Definition owned n p s : Prop := exists N, nodes s !! n = Some N /\ n_proc N = Some p.
Lemma new_node_owned p ptr ck s n s' : binder_new_node p ptr ck s = Ok (Some n, s') -> owned n p s'.
Proof.
  intros E. unfold binder_new_node in E. apply bind_ok in E as (P & s1 & HP & E). destruct (p_nodes P !! ptr); [by run_inv|].
  apply bind_ok in E as (o & s2 & E1 & E). destruct o as [n'|]; [|by run_inv].
  unfold binder_stats_created, bump, next_id in E. run_inv. match goal with H : Some _ = Some _ |- _ => injection H as -> end.
  eexists. cbn. by rewrite lookup_insert_eq.
Qed.
Lemma owned_bare n p s s' : bare_node <$> nodes s' = bare_node <$> nodes s -> owned n p s -> owned n p s'.
Proof.
  intros E (N & HN & Ep). pose proof (fmap_some bare_node _ _ _ HN) as H. rewrite <- E in H.
  apply lookup_fmap_Some in H as (N' & E' & HN'). exists N'. split; [done|]. injection E'. congruence.
Qed.
Lemma owned_same n p s s' : same_tables s s' -> owned n p s -> owned n p s'.
Proof. intros (_ & E & _). by apply owned_bare. Qed.

(** The sender's node for an object. *)
Lemma own_node_ok p (ptr ck : Z) (f : binder_node -> binder_node) s o s' : (forall N, bare_node (f N) = bare_node N) ->
  bare_tables s ->
  (o ← binder_get_node p ptr;
   match o with
   | Some n => mret (Some n)
   | None => o ← binder_new_node p ptr ck;
       match o with None => mret None | Some n => _ ← mod_node n f; mret (Some n) end
   end) s = Ok (o, s') ->
  bare_tables s' /\ bare_thread <$> threads s' = bare_thread <$> threads s /\ forall n, o = Some n -> owned n p s'.
Proof.
  intros Hf H E. unfold binder_get_node in E. apply bind_ok in E as (o1 & s1 & E1 & E). run_inv.
  destruct (p_nodes _ !! ptr) as [n|] eqn:En.
  - run_inv. split_and!; try done. intros n' [= <-]. by destruct (ho_nodes _ (tables_handles _ H) _ _ _ _ H0 En) as (N & HN & Ep & _); exists N.
  - apply bind_ok in E as (o2 & s2 & E2 & E). kept keeps_tables E2 K2. destruct (K2 H) as [H2 T2]. destruct o2 as [n|]; [|by run_inv].
    apply new_node_owned in E2. apply bind_ok in E as ([] & s3 & E3 & E). apply ret_ok in E as [-> ->].
    assert (same_tables s2 s3) as S3 by (eapply same_mod_node in E3; done).
    destruct (same_keeps _ _ S3 H2) as [H3 T3]. split_and!; [done|congruence|]. intros n' [= <-]. by eapply owned_same.
Qed.

Lemma tables_translate_binder p th tp b off fp : keeps (keeps_for p th) (translate_binder p th tp b off fp).
Proof.
  intros s x s' E Hb H. unfold translate_binder in E.
  set (f := fun node => set_n_accept_fds _ _) in E.
  apply bind_ok in E as (o1 & s1 & E1 & E). apply bind_ok in E as (o2 & s2 & E2 & E).
  destruct (own_node_ok p (fo_binder fp) (fo_cookie fp) f s o2 s2) as (H2 & T2 & Ho); [done|done| |].
  { unfold mbind at 1, K_bind at 1. by rewrite E1. }
  apply (belongs_bare _ _ _ _ T2) in Hb. enough (keeps_tables s2 s') as K. { destruct (K H2) as [K1 K2]. split; [done|congruence]. }
  clear E1 E2 T2 H s s1 o1 f. rename s2 into s, H2 into H. destruct o2 as [n|]; [|by apply ret_ok in E as [_ ->]].
  destruct (Ho n eq_refl) as (N & HN & Ep). clear Ho. apply bind_ok in E as (N0 & s1 & HN0 & E). apply get_obj_ok in HN0 as [HN0 ->].
  destruct (negb _); [by apply ret_ok in E as [_ ->]|]. do 2 (apply bind_ok in E as (? & s1 & HP & E); apply get_obj_ok in HP as [_ ->]).
  apply bind_ok in E as (tk & s1 & E1 & E). kept same_tables E1 S1. destruct (negb _); [by apply ret_ok in E as [_ ->]; apply same_keeps|].
  apply bind_ok in E as (o & s2 & E2 & E). kept keeps_tables E2 K2. destruct (same_keeps _ _ S1 H) as [H1 T1].
  destruct (K2 H1) as [H2 T2]. destruct o as [r|].
  2: { apply ret_ok in E as [_ ->]. intros _. split; [done|congruence]. }
  destruct (owned_same n p _ _ S1 (ex_intro _ N (conj HN Ep))) as (N1 & HN1 & Ep1).
  destruct (get_ref_for_node_ok _ _ _ _ _ N1 H1 E2 HN1) as [(R & HR & Er) (N2 & HN2 & Ep2)].
  apply bind_ok in E as ([] & s3 & E3 & E). kept same_tables E3 S3. apply bind_ok in E as (R3 & s4 & HR3 & E). apply get_obj_ok in HR3 as [HR3 ->].
  apply bind_ok in E as ([] & s4 & E4 & E). kept same_tables E4 S4. apply bind_ok in E as (ret & s5 & E5 & E). apply ret_ok in E as [_ ->].
  assert (S24 : same_tables s2 s4) by by etransitivity. destruct (same_keeps _ _ S24 H2) as [H4 T4].
  destruct (owned_same n p _ _ S24) as (N4 & HN4 & Ep4); [exists N2; split; [done|congruence]|].
  pose proof (fmap_some bare_ref _ _ _ HR) as HR4. rewrite <- (proj1 (proj2 (proj2 S24))) in HR4.
  apply lookup_fmap_Some in HR4 as (R4 & E4' & HR4). assert (En4 : r_node R4 = n) by (injection E4'; congruence).
  assert (T : bare_thread <$> threads s4 = bare_thread <$> threads s) by congruence.
  apply (belongs_bare _ _ _ _ T) in Hb.
  destruct (inc_ref_at _ _ _ _ R4 N4 _ _ p E5 HR4) as [H5 T5]; [by rewrite En4|done|right; eauto|done|]. intros _. split; [done|congruence].
Qed.
Lemma tables_translate_handle p tp b off fp : keeps keeps_tables (translate_handle p tp b off fp).
Proof. unfold translate_handle. tabled. Qed.
Hint Resolve tables_translate_binder tables_translate_handle : keeps.
Lemma tables_translate_objects k i cur p th tg b ds : keeps (keeps_for p th) (translate_objects k i cur p th tg b ds).
Proof. revert i. induction k as [|k IH]; intros i; cbn [translate_objects]; unfold translate_object; tabled. Qed.
Hint Resolve tables_translate_objects : keeps.
Lemma tables_fill_buffer u cur p th tr tg b : keeps (keeps_for p th) (fill_buffer u cur p th tr tg b).
Proof. unfold fill_buffer. tabled. Qed.
Lemma tables_release_buffer tg b i : keeps keeps_tables (release_buffer tg b i).
Proof. unfold release_buffer. tabled. Qed.
Hint Resolve tables_fill_buffer tables_release_buffer : keeps.
Lemma keeps_send_to u cur p th tr tg e : keeps (keeps_for p th) (send_to u cur p th tr tg e).
Proof. unfold send_to. tabled. Qed.
Hint Resolve keeps_send_to : keeps.
Lemma keeps_transaction u cur p th tr reply : keeps (keeps_for p th) (binder_transaction u cur p th tr reply).
Proof.
  unfold binder_transaction. do 2 (apply keeps_bind; [apply _|tabled|]; intros ?). apply keeps_bind; [apply _| |tabled].
  intros s x s' E. destruct (binder_transaction_log_add _). injection E as _ <-. intros _. apply same_keeps. same_bare.
Qed.
Hint Resolve keeps_transaction : keeps.

(** ** Commands *)
Lemma keeps_write_refs p cmd target : keeps keeps_tables (write_refs p cmd target).
Proof. unfold write_refs. tabled. Qed.
Lemma keeps_write_refs_done p cmd ptr ck : keeps keeps_tables (write_refs_done p cmd ptr ck).
Proof.
  unfold write_refs_done. apply keeps_bind; [apply _|tabled|]. intros [n|]; [|tabled].
  intros s x s' E. apply bind_ok in E as (N & s1 & HN & E). apply get_obj_ok in HN as [HN ->].
  destruct (negb _); [by apply ret_ok in E as [_ ->]|].
  destruct (cmd =? BC_ACQUIRE_DONE); (destruct (negb _); [by apply ret_ok in E as [_ ->]|]);
    apply bind_ok in E as ([] & s1 & E1 & E); apply modify_ok in E1 as ->; kept keeps_tables E H2;
    (etransitivity; [|exact H2]); apply same_keeps; by eapply same_put_node.
Qed.
(** The list of waiting one-way transactions holds no node. *)
Lemma async_no_node s m n : bare_tables s -> ~ queued (lists s) (AsyncTodo m) (WNode n).
Proof. intros H Hq. destruct (ho_work _ (tables_handles s H) _ _ Hq) as (N & p & _ & _ & [?|(th & T & ? & _)]); done. Qed.
Lemma keeps_next_async th n : keeps keeps_tables (next_async th n).
Proof.
  intros s x s' E H. unfold next_async, list_head in E. apply bind_ok in E as (N & s1 & HN & E). apply get_obj_ok in HN as [HN ->].
  apply bind_ok in E as ([] & s1 & E1 & E). apply BUG_ON_ok in E1 as [_ ->]. apply bind_ok in E as (o & s1 & E1 & E). apply get_ok in E1 as [-> ->].
  destruct (list_of (AsyncTodo n) s) as [|w l] eqn:El; cbn [head] in E.
  - apply modify_ok in E as ->. apply same_keeps; [|done]. by eapply same_put_node.
  - assert (Hw : ~ is_node_work w).
    { destruct w as [| |m|]; try by intros []. exfalso. apply (async_no_node s n m H). unfold queued, list_of in *. rewrite El. by left. }
    revert H. change (keeps_tables s s'). eapply (keeps_run keeps_tables); [exact E|]. apply keeps_bind; [apply _|tabled|]. intros []. apply keeps_same. by apply same_list_add_tail.
Qed.
Hint Resolve keeps_next_async : keeps.
Lemma keeps_write_free_buffer p th ptr : keeps keeps_tables (write_free_buffer p th ptr).
Proof. unfold write_free_buffer. tabled. Qed.
Hint Resolve keeps_write_refs keeps_write_refs_done keeps_write_free_buffer : keeps.

(** ** Death notifications *)

(** Another death for a reference, in the tables. *)
Lemma bare_put_death_ref s r R (d0 : option Z) (ds : gmap Z binder_ref_death) (k : Z) : bare_tables s -> refs s !! r = Some R ->
  deaths_ok (bare_ref <$> <[r := set_r_death R d0]> (refs s)) (bare_death <$> ds) ->
  ticket s <= k -> (forall x, k < x -> ds !! x = None) ->
  tables (bare_proc <$> procs s) (bare_node <$> nodes s) (bare_ref <$> <[r := set_r_death R d0]> (refs s))
    (bare_thread <$> threads s) (bare_death <$> ds) (lists s) k.
Proof.
  intros [Hr Ht Hd Hw Hf] HR Hdo Hk Hx. destruct (ri_ref _ _ _ Hr r (bare_ref R)) as (_ & [N HN] & _); [bare|]. split; try done.
  - rewrite fmap_insert. rewrite <- (insert_id _ _ _ HN) at 1.
    apply (refs_inv_ref _ _ _ r (bare_ref R) _ N); try bare.
    + by apply (ri_ref _ _ _ Hr r (bare_ref R)); bare.
    + rewrite (strong1_eq _ r (bare_ref (set_r_death R d0))) by by rewrite lookup_insert_eq.
      rewrite (strong1_eq _ r (bare_ref R)) by bare. cbn. lia.
  - intros x Hkx. destruct (Hf x) as (K1 & K2 & K3 & K4 & K5); [lia|]. split_and!; try done.
    + rewrite fmap_insert, lookup_insert_ne; [done|]. intros <-. apply fmap_none in K4. congruence.
    + rewrite lookup_fmap, Hx by done. done.
Qed.

(** A death that no reference has may change. *)
Definition unreferenced s d : Prop := forall r R, refs s !! r = Some R -> r_death R ≠ Some d.
Lemma bare_put_death s d D0 D : bare_tables s -> deaths s !! d = Some D0 -> unreferenced s d ->
  bare_tables (set_deaths s (<[d := D]> (deaths s))).
Proof.
  intros [Hr Ht [Hd1 Hd2] Hw Hf] HD Hu. split; try done.
  - split; [|done]. intros r R e HR He. destruct (Hd1 r R e HR He) as (E & HE & X). exists E. split; [|done].
    cbn. rewrite fmap_insert, lookup_insert_ne; [done|]. intros <-. apply lookup_fmap_Some in HR as (R0 & <- & HR). by apply (Hu r R0).
  - intros x Hx. destruct (Hf x Hx) as (K1 & K2 & K3 & K4 & K5). split_and!; try done. cbn.
    rewrite fmap_insert, lookup_insert_ne; [done|]. intros <-. apply fmap_none in K5. congruence.
Qed.
Lemma not_dead_unreferenced s d D : bare_tables s -> deaths s !! d = Some D -> d_type D ≠ DEAD_BINDER -> unreferenced s d.
Proof.
  intros H HD Hn r R HR Hd. destruct (ho_death _ (tables_handles s H) r R d HR Hd) as (D' & HD' & E). congruence.
Qed.

Lemma keeps_request_death p th target ck : keeps keeps_tables (write_request_death p th target ck).
Proof.
  intros s x s' E H. unfold write_request_death in E. apply bind_ok in E as (o & s1 & E1 & E).
  after E1 H. rename s1 into s. destruct o as [r|]; [|by apply ret_ok in E as [_ ->]].
  apply bind_ok in E as (R & s1 & HR & E). apply get_obj_ok in HR as [HR ->].
  case_bool_decide as Hn; [by apply ret_ok in E as [_ ->]|]. apply bind_ok in E as (o & s1 & E1 & E).
  unfold kzalloc, new_ticket in E1. run_inv. destruct (kzalloc_ok _).
  2: { kept keeps_tables E H2. apply H2. by eapply tables_weaken; [exact H|cbn; lia]. }
  apply bind_ok in E as ([] & s1 & E1 & E). unfold binder_stats_created, bump in E1. apply modify_ok in E1 as ->.
  apply bind_ok in E as (N & s1 & HN & E). apply get_obj_ok in HN as [HN ->].
  apply bind_ok in E as ([] & s1 & E1 & E). apply modify_ok in E1 as ->.
  apply bind_ok in E as ([] & s1 & E1 & E). apply modify_ok in E1 as ->. kept keeps_tables E H2. apply H2. clear H2 E.
  pose proof H as [_ _ [Hd1 Hd2] Hw Hf]. destruct (Hf (ticket s + 1)) as (_ & _ & _ & _ & F5); [lia|]. apply fmap_none in F5.
  assert (Hold : forall q Q, refs s !! q = Some Q -> r_death Q ≠ Some (ticket s + 1)).
  { intros q Q HQ Hq. destruct (ho_death _ (tables_handles s H) q Q _ HQ Hq) as (D & HD & _). congruence. }
  apply (bare_put_death_ref s r R); [done..| |cbn; lia|].
  - split; cbn.
    + intros q Q d HQ Hd. apply lookup_fmap_Some in HQ as (Q0 & <- & HQ). rewrite fmap_insert.
      destruct (decide (q = r)) as [->|Hq].
      * rewrite lookup_insert_eq in HQ. injection HQ as <-. injection Hd as <-. eexists. by rewrite lookup_insert_eq.
      * rewrite lookup_insert_ne in HQ by done. destruct (ho_death _ (tables_handles s H) q Q0 d HQ Hd) as (D & HD & X).
        exists (bare_death D). rewrite lookup_insert_ne; [by rewrite lookup_fmap, HD|congruence].
    + intros r1 r2 R1 R2 d G1 G2 G3 G4. apply lookup_fmap_Some in G1 as (Q1 & <- & G1). apply lookup_fmap_Some in G2 as (Q2 & <- & G2).
      cbn in G3, G4. destruct (decide (r1 = r)) as [->|], (decide (r2 = r)) as [->|]; [done| | |].
      * rewrite lookup_insert_eq in G1. injection G1 as <-. injection G3 as <-. rewrite lookup_insert_ne in G2 by done. by apply Hold in G2.
      * rewrite lookup_insert_eq in G2. injection G2 as <-. injection G4 as <-. rewrite lookup_insert_ne in G1 by done. by apply Hold in G1.
      * rewrite lookup_insert_ne in G1, G2 by done. by apply (ho_death_one _ (tables_handles s H) r1 r2 Q1 Q2 d).
  - cbn. intros y Hy. rewrite lookup_insert_ne by lia. destruct (Hf y) as (_ & _ & _ & _ & K); [lia|]. by apply fmap_none in K.
Qed.

(** Without its death, a reference leaves that death unreferenced. *)
Lemma bare_clear_death s r R d : bare_tables s -> refs s !! r = Some R -> r_death R = Some d ->
  let s' := set_refs s (<[r := set_r_death R None]> (refs s)) in bare_tables s' /\ unreferenced s' d.
Proof.
  intros H HR Hd. pose proof H as [_ _ Hdo _ Hf]. split.
  - apply (bare_put_death_ref s r R); [done..| |cbn; lia|].
    + rewrite fmap_insert. by apply deaths_ok_put.
    + intros x Hx. destruct (Hf x Hx) as (_ & _ & _ & _ & K). by apply fmap_none in K.
  - intros q Q HQ Hq. cbn in HQ. destruct (decide (q = r)) as [->|Hne]; [rewrite lookup_insert_eq in HQ; injection HQ as <-; done|].
    rewrite lookup_insert_ne in HQ by done. apply Hne. by eapply (ho_death_one _ (tables_handles s H)).
Qed.

Lemma keeps_clear_death p th target ck : keeps keeps_tables (write_clear_death p th target ck).
Proof.
  intros s x s' E H. unfold write_clear_death in E. apply bind_ok in E as (o & s1 & E1 & E).
  after E1 H. rename s1 into s. destruct o as [r|]; [|by apply ret_ok in E as [_ ->]].
  apply bind_ok in E as (R & s1 & HR & E). apply get_obj_ok in HR as [HR ->].
  destruct (r_death R) as [d|] eqn:Ed; [|by apply ret_ok in E as [_ ->]].
  apply bind_ok in E as (D & s1 & HD & E). apply get_obj_ok in HD as [HD ->].
  destruct (negb _); [by apply ret_ok in E as [_ ->]|]. apply bind_ok in E as ([] & s1 & E1 & E). apply modify_ok in E1 as ->.
  destruct (bare_clear_death s r R d H HR Ed) as [H1 Hu]. apply bind_ok in E as (on & s1 & E1 & E). apply get_ok in E1 as [-> ->].
  assert (Hput : forall D', bare_tables (set_deaths (set_refs s (<[r := set_r_death R None]> (refs s))) (<[d := D']> (deaths s))))
    by (intros D'; exact (bare_put_death _ d D D' H1 HD Hu)).
  destruct (negb _).
  - apply bind_ok in E as ([] & s1 & E1 & E). apply modify_ok in E1 as ->. kept keeps_tables E H2. apply H2, Hput.
  - apply bind_ok in E as ([] & s1 & E1 & E). apply BUG_ON_ok in E1 as [_ ->]. apply modify_ok in E as ->. split; [apply Hput|done].
Qed.

Lemma keeps_dead_binder_done p th ck : keeps keeps_tables (write_dead_binder_done p th ck).
Proof.
  intros s x s' E H. unfold write_dead_binder_done in E. apply bind_ok in E as (l & s1 & E1 & E). apply get_ok in E1 as [-> ->].
  apply bind_ok in E as (o & s1 & E1 & E). after E1 H. rename s1 into s.
  destruct o as [d|]; [|by apply ret_ok in E as [_ ->]].
  apply bind_ok in E as ([] & s1 & E1 & E). after E1 H. rename s1 into s.
  apply bind_ok in E as (D & s1 & HD & E). apply get_obj_ok in HD as [HD ->].
  destruct (decide _) as [Ed|]; [|by apply ret_ok in E as [_ ->]]. apply bind_ok in E as ([] & s1 & E1 & E). apply modify_ok in E1 as ->.
  kept keeps_tables E H2. apply H2. eapply bare_put_death; [done..|]. eapply not_dead_unreferenced; [done..|]. by rewrite Ed.
Qed.
Hint Resolve keeps_request_death keeps_clear_death keeps_dead_binder_done : keeps.

(** ** The write loop *)
Lemma keeps_fetch u ptr w : keeps keeps_tables (fetch u ptr w).
Proof. unfold fetch. tabled. Qed.
Hint Resolve keeps_fetch : keeps.
Lemma keeps_write_command u cur p th cmd ptr : keeps (keeps_for p th) (write_command u cur p th cmd ptr).
Proof. unfold write_command. tabled. Qed.
Hint Resolve keeps_write_command : keeps.
Lemma keeps_write_loop k u cur p th buf ptr e c : keeps (keeps_for p th) (write_loop k u cur p th buf ptr e c).
Proof. revert ptr c. induction k as [|k IH]; intros ptr c; cbn [write_loop]; tabled. Qed.
Hint Resolve keeps_write_loop : keeps.
Lemma keeps_thread_write u cur p th buf size c : keeps (keeps_for p th) (binder_thread_write u cur p th buf size c).
Proof. unfold binder_thread_write. tabled. Qed.

(** ** Threads *)
Lemma same_release_one w : keeps same_tables (release_one w).
Proof.
  destruct w; cbn [release_one]; [samely..|]. intros s x s' E. apply bind_ok in E as (D & s1 & HD & E). apply get_obj_ok in HD as [HD ->].
  destruct (decide _) as [|Hn]; [by apply ret_ok in E as [_ ->]|]. unfold free_death, binder_stats_deleted, bump in E. run_inv.
  same_bare; intros e; destruct (decide (e = d)) as [->|]; rewrite ?lookup_delete_eq, ?lookup_delete_ne by done; try done.
  rewrite HD. intros [= ?]. done.
Qed.
Hint Resolve same_release_one : keeps.
Lemma same_release_work_loop k h : keeps same_tables (release_work_loop k h).
Proof. induction k as [|k IH]; cbn [release_work_loop]; unfold list_head; samely. Qed.
Hint Resolve same_release_work_loop : keeps.
Lemma same_release_work h : keeps same_tables (binder_release_work h).
Proof. unfold binder_release_work. samely. Qed.
Hint Resolve same_release_work : keeps.

(** A thread that comes. *)
Lemma get_thread_tables cur p s o s' : bare_tables s -> binder_get_thread cur p s = Ok (o, s') ->
  bare_tables s' /\ forall th, o = Some th -> belongs p th s'.
Proof.
  intros H E. unfold binder_get_thread in E. apply bind_ok in E as (P & s1 & HP & E). apply get_obj_ok in HP as [HP ->].
  destruct (p_threads P !! tk_pid cur) as [th|] eqn:Eth.
  { apply ret_ok in E as [-> ->]. split; [done|]. intros th' [= <-].
    destruct (ho_threads _ (tables_handles s H) p P _ th HP Eth) as (T & HT & Ep & _). by exists T. }
  apply bind_ok in E as (k & s1 & E1 & E). unfold kzalloc, new_ticket in E1. run_inv. destruct (kzalloc_ok _).
  2: { run_inv. split; [by eapply tables_weaken; [exact H|cbn; lia]|done]. }
  unfold binder_stats_created, bump in E. apply bind_ok in E as ([] & s1 & E1 & E). apply modify_ok in E1 as ->.
  apply bind_ok in E as ([] & s1 & E1 & E). apply mod_proc_ok in E1 as (P1 & HP1 & ->). cbn in HP1.
  assert (P1 = P) as -> by congruence. run_inv. destruct H as [Hr Ht Hd Hw Hf].
  destruct (Hf (ticket s + 1)) as (F1 & F2 & F3 & F4 & F5); [lia|]. split.
  - unfold bare_tables. cbn. rewrite !fmap_insert. split; [|eapply threads_ok_new; try bare|done|by apply work_ok_new_thread|].
    + by apply (refs_inv_proc _ _ _ p (bare_proc P)); try bare.
    + intros y Hy. destruct (Hf y) as (K1 & K2 & K3 & K4 & K5); [lia|].
      rewrite !lookup_insert_ne; [done|lia|intros <-; apply fmap_none in K1; congruence].
  - intros th [= <-]. eexists. cbn. by rewrite lookup_insert_eq.
Qed.

(** A thread that goes: it is out of the tree of its process, nothing is queued for it. *)
Lemma bare_free_thread p th s T s1 s2 : bare_tables s -> threads s !! th = Some T -> th_proc T = p ->
  mod_proc p (fun P => set_p_threads P (delete (th_pid T) (p_threads P))) s = Ok (tt, s1) -> same_tables s1 s2 ->
  list_of (TodoThread th) s2 = [] -> bare_tables (set_threads s2 (delete th (threads s2))).
Proof.
  intros H HT Hp E1 (S1 & S2 & S3 & S4 & S5 & S6 & S7) Hl. apply mod_proc_ok in E1 as (P & HP & ->). cbn in *.
  assert (H1 : bare_tables (set_lists (set_threads (set_procs s (<[p := set_p_threads P (delete (th_pid T) (p_threads P))]> (procs s))) (delete th (threads s))) (lists s2))).
  { destruct H as [Hr Ht Hd Hw Hf]. unfold bare_tables. cbn. rewrite fmap_insert, fmap_delete.
    split; [|by eapply threads_ok_del; try bare|done| |].
    - by apply (refs_inv_proc _ _ _ p (bare_proc P)); try bare.
    - eapply work_ok_mono; [exact Hw|exact S7|eauto|]. intros th' n T' Hn HT'. exists T'. rewrite lookup_delete_ne; [done|].
      intros <-. unfold queued in Hn. change (WNode n ∈ list_of (TodoThread th) s2) in Hn. rewrite Hl in Hn. by apply elem_of_nil in Hn.
    - intros y Hy. destruct (Hf y Hy) as (K1 & K2 & K3 & K4 & K5).
      rewrite lookup_insert_ne by (intros <-; apply fmap_none in K1; congruence).
      split_and!; try done. rewrite lookup_delete_None. by right. }
  eapply same_keeps; [|exact H1]. unfold same_tables. cbn. rewrite S1, S2, S3. split_and!; try done.
  by rewrite !fmap_delete, S4.
Qed.

Lemma release_work_empties h s x s' : binder_release_work h s = Ok (x, s') -> list_of h s' = [].
Proof.
  unfold binder_release_work. intros E. apply bind_ok in E as (k & s1 & E1 & E). apply get_ok in E1 as [_ ->]. revert s E.
  induction k as [|k IH]; intros s E; cbn [release_work_loop] in E; apply bind_ok in E as (o & s1 & E1 & E); apply get_ok in E1 as [-> ->];
    destruct (list_of h s) as [|w l] eqn:El; cbn [head] in E; try (by run_inv).
  apply bind_ok in E as ([] & s1 & _ & E). apply bind_ok in E as ([] & s2 & _ & E). by eapply IH.
Qed.

Lemma free_thread_ok p th s x s' : bare_tables s -> belongs p th s ->
  binder_free_thread p th s = Ok (x, s') -> bare_tables s'.
Proof.
  intros H (T & HT & Hp) E. unfold binder_free_thread in E. apply bind_ok in E as (T' & s1 & HT' & E). apply get_obj_ok in HT' as [HT' ->].
  assert (T' = T) as -> by congruence. apply bind_ok in E as ([] & s1 & E1 & E).
  apply bind_ok in E as (sr & s2 & E2 & E). kept same_tables E2 S2.
  apply bind_ok in E as (cnt & s3 & E3 & E). apply get_ok in E3 as [-> ->].
  apply bind_ok in E as (act & s3 & E3 & E). kept same_tables E3 S3.
  apply bind_ok in E as ([] & s4 & E4 & E). kept same_tables E4 S4.
  apply bind_ok in E as ([] & s5 & E5 & E). kept same_tables E5 S5. apply release_work_empties in E5.
  apply bind_ok in E as ([] & s6 & E6 & E). kept same_tables E S6. clear E.
  apply bind_ok in E6 as (T' & s7 & HT7 & E6). apply get_obj_ok in HT7 as [_ ->]. apply modify_ok in E6 as ->.
  apply (same_keeps _ _ S6). apply (bare_free_thread p th s T s1); try done.
  etransitivity; [exact S2|]. etransitivity; [exact S3|]. by etransitivity.
Qed.
End Ops.
#[export] Hint Resolve tables_release_object tables_release_objects tables_buffer_release tables_translate_binder
  tables_translate_handle tables_translate_objects tables_fill_buffer tables_release_buffer keeps_send_to keeps_transaction : keeps.
#[export] Hint Resolve keeps_thread_write same_release_work : keeps.
#[export] Existing Instance keeps_for_preorder.
#[export] Hint Extern 4 (keeps (keeps_for _ _) _) => apply keeps_for_any : keeps.
