(* ===== verification/TablesFiles.v ===== *)
(** * Reads keep the tables consistent *)
From S2P Require Import Prelude UserMem RbTree Alloc Protocol Kernel Refs Transact Send Write Read Driver KernelWp RefsInv RefsProps Keeps Tables TablesStep TablesOps.

Implicit Types (p n d t th b ptr : Z) (P : binder_proc) (N : binder_node) (T : binder_thread) (D : binder_ref_death) (s : kstate).

(** ** Operations with memory *)
Definition keepsR {M A} (rel : kstate -> kstate -> Prop) (x : R M A) : Prop :=
  forall s m r s' m', x s m = Ok (r, s', m') -> rel s s'.

Section Rules.
Context {M : Type} `{uops : UserOps M}.
Context (rel : kstate -> kstate -> Prop) `{!PreOrder rel}.

Lemma R_bind_ok {A B} (x : R M A) (f : A -> R M B) s m r s' m' : (x ≫= f) s m = Ok (r, s', m') ->
  (exists e, x s m = Ok (inl e, s', m') /\ r = inl e) \/
  exists a s1 m1, x s m = Ok (inr a, s1, m1) /\ f a s1 m1 = Ok (r, s', m').
Proof.
  unfold mbind, R_bind. destruct (x s m) as [[[[e|a] s1] m1]|]; [|eauto 10|done]. intros [= <- <- <-]. eauto.
Qed.
Lemma in_driver_ok {A} (x : K A) s (m : M) r s' m' : in_driver x s m = Ok (r, s', m') ->
  exists a, r = inr a /\ x s = Ok (a, s') /\ m' = m.
Proof. unfold in_driver. destruct (x s) as [[a s1]|]; [|done]. intros [= <- <- <-]. eauto. Qed.
(** A step in the driver and what follows. *)
Lemma driver_step {A B} (x : K A) (f : A -> R M B) s m r s' m' : (in_driver x ≫= f) s m = Ok (r, s', m') ->
  exists a s1, x s = Ok (a, s1) /\ f a s1 m = Ok (r, s', m').
Proof.
  intros [(e & E & _)|(a & s1 & m1 & E & H)]%R_bind_ok; apply in_driver_ok in E as (a' & E1 & E2 & ->); [done|]. injection E1 as ->. eauto.
Qed.

Lemma keepsR_ret {A} (a : A) : keepsR (M := M) rel (mret a).
Proof. by intros s m r s' m' [= _ <- _]. Qed.
Lemma keepsR_bind {A B} (x : R M A) (f : A -> R M B) : keepsR rel x -> (forall a, keepsR rel (f a)) -> keepsR rel (x ≫= f).
Proof.
  intros Hx Hf s m r s' m' [(e & E & _)|(a & s1 & m1 & E & H)]%R_bind_ok; [by eapply Hx|].
  transitivity s1; [by eapply Hx|by eapply Hf].
Qed.
Lemma keepsR_driver {A} (x : K A) : keeps rel x -> keepsR (M := M) rel (in_driver x).
Proof. intros Hx s m r s' m' (a & _ & E & _)%in_driver_ok. by eapply Hx. Qed.
Lemma keepsR_catching {A} (x : R M A) f : keepsR rel x -> keepsR rel (catching x f).
Proof.
  intros Hx s m r s' m'. unfold catching. destruct (x s m) as [[[[e|a] s1] m1]|] eqn:E; [intros [= _ <- _]|intros [= _ <- _]|done]; by eapply Hx.
Qed.
Lemma keepsR_put_bytes ptr l : keepsR rel (put_bytes (M := M) ptr l).
Proof. intros s m r s' m'. unfold put_bytes. destruct (copy_to_user m ptr l). by intros [= _ <- _]. Qed.
End Rules.

Lemma keepsR_any {M A} p th (x : R M A) : keepsR keeps_tables x -> keepsR (keeps_for p th) x.
Proof. intros H s m r s' m' E _. by eapply H. Qed.

Create HintDb keepsR.
#[export] Hint Extern 4 (keepsR (keeps_for _ _) _) => apply keepsR_any : keepsR.
Ltac keepR1 :=
  lazymatch goal with
  | |- forall _, _ => intros ?
  | |- keepsR _ (mret _) => apply keepsR_ret; apply _
  | |- keepsR _ (_ ≫= _) => apply keepsR_bind; [apply _| |]
  | |- keepsR _ (in_driver _) => apply keepsR_driver; keep
  | |- keepsR _ (catching _ _) => apply keepsR_catching
  | |- keepsR _ (put_bytes _ _) => apply keepsR_put_bytes; apply _
  | |- keepsR _ (put_word _ _ _) => apply keepsR_put_bytes; apply _
  | |- keepsR _ (if ?c then _ else _) => destruct c
  | |- keepsR _ (match ?x with _ => _ end) => destruct x
  | |- keepsR _ (let '(_, _) := ?x in _) => destruct x
  end.
Ltac keepR := repeat first [solve [eauto with keepsR nocore]|keepR1; cbn beta zeta].

Section Reads.
Context {M : Type} `{uops : UserOps M}.
Context `{env : KernelEnv} `{rb : RbOps} `{jk : Junk}.

Lemma bare_command N cmd N' : node_command N = Some (cmd, N') -> bare_node N' = bare_node N.
Proof.
  unfold node_command. intros H. repeat (case_match; try done); injection H as <- <-; reflexivity.
Qed.

(** A node that its user knows all about, taken from the list, and perhaps freed. *)
Lemma drop_node_ok p n s N x s' : bare_tables s -> nodes s !! n = Some N -> n_proc N = Some p ->
  (_ ← list_del_work (WNode n);
   when (node_unused N)
     (_ ← mod_proc p (fun P => set_p_nodes P (delete (n_ptr N) (p_nodes P)));
      _ ← free_node n; binder_stats_deleted BINDER_STAT_NODE)) s = Ok (x, s') ->
  bare_tables s' /\ bare_thread <$> threads s' = bare_thread <$> threads s.
Proof.
  intros H HN Ep E. apply bind_ok in E as ([] & s1 & E1 & E). apply when_ok in E as [[Hu E]|[_ ->]].
  - unfold free_node, binder_stats_deleted, bump in E. run_inv. split; [|done]. apply (bare_del_node s _ n N); try done; cbn.
    + unfold node_unused in Hu. apply andb_true_iff in Hu as [Hu _]. apply andb_true_iff in Hu as [_ Hu]. by apply bool_decide_eq_true in Hu.
    + unfold unlink_proc. rewrite Ep. match goal with H1 : procs _ !! p = Some ?Q |- _ => rename Q into P, H1 into HP end. cbn in HP.
      apply map_eq. intros q. destruct (decide (q = p)) as [->|]; [by rewrite lookup_insert_eq, lookup_alter_eq, HP|].
      by rewrite lookup_insert_ne, lookup_alter_ne.
    + intros h m [Hm Hne]%queued_del. split; [done|congruence].
  - kept same_tables E1 S1. by apply (same_keeps _ _ S1).
Qed.

Lemma read_node_ok p th n ptr s m r s' m' : owned n p s -> read_node p th n ptr s m = Ok (r, s', m') -> keeps_tables s s'.
Proof.
  intros (N & HN & Ep) E H. unfold read_node in E. apply driver_step in E as (N0 & s1 & E0 & E). apply get_obj_ok in E0 as [E0 ->].
  assert (N0 = N) as -> by congruence. destruct (node_command N) as [[cmd N']|] eqn:Ec.
  - apply driver_step in E as ([] & s1 & E1 & E). apply modify_ok in E1 as ->.
    assert (same_tables s (set_nodes s (<[n := N']> (nodes s)))) as S1 by (eapply same_put_node; [done|by eapply bare_command]).
    revert H. change (keeps_tables s s'). etransitivity; [by apply same_keeps|].
    revert E. generalize (set_nodes s (<[n := N']> (nodes s))) as s1. intros s1 E.
    match type of E with ?x _ _ = _ => assert (keepsR keeps_tables x) as K by keepR end. by eapply K.
  - apply driver_step in E as ([] & s1 & E1 & E). apply driver_step in E as ([] & s2 & E2 & E).
    injection E as _ <- _. eapply drop_node_ok; [done..|]. unfold mbind at 1, K_bind at 1. by rewrite E1.
Qed.

(** *** The other entries *)
Lemma unreferenced_bare s s' d : bare_ref <$> refs s' = bare_ref <$> refs s -> unreferenced s d -> unreferenced s' d.
Proof.
  intros E Hu q Q HQ Hd. pose proof (fmap_some bare_ref _ _ _ HQ) as H. rewrite E in H.
  apply lookup_fmap_Some in H as (Q0 & E0 & HQ0). apply (Hu q Q0 HQ0). injection E0. congruence.
Qed.
Lemma bare_del_death s d : bare_tables s -> unreferenced s d -> bare_tables (set_deaths s (delete d (deaths s))).
Proof.
  intros [Hr Ht [Hd1 Hd2] Hw Hf] Hu. split; try done.
  - split; [|done]. intros q Q e HQ He. destruct (Hd1 q Q e HQ He) as (D & HD & X). exists D. split; [|done].
    cbn. rewrite fmap_delete, lookup_delete_ne; [done|]. intros <-. apply lookup_fmap_Some in HQ as (Q0 & <- & HQ). by apply (Hu q Q0).
  - intros x Hx. destruct (Hf x Hx) as (K1 & K2 & K3 & K4 & K5). split_and!; try done. cbn.
    rewrite fmap_delete, lookup_delete_None. by right.
Qed.
Lemma keepsR_read_death p th d ptr : keepsR keeps_tables (read_death (M := M) p th d ptr).
Proof.
  unfold read_death. intros s m x s' m' E. apply driver_step in E as (D & s1 & HD & E). apply get_obj_ok in HD as [HD ->].
  case_bool_decide as Ed; cbn [negb] in E.
  - intros H. assert (Hu : unreferenced s d) by (eapply not_dead_unreferenced; [done..|by rewrite Ed]). revert H. change (keeps_tables s s').
    apply R_bind_ok in E as [(e & E & _)|(p1 & s1 & m1 & E1 & E)];
      [assert (keepsR keeps_tables (put_word (M := M) ptr 4 BR_CLEAR_DEATH_NOTIFICATION_DONE)) as K by keepR; by eapply K|].
    assert (s1 = s) as -> by (revert E1; unfold put_word, put_bytes; destruct (copy_to_user _ _ _); by intros [= _ <- _]).
    apply R_bind_ok in E as [(e & E & _)|(p2 & s1 & m2 & E2 & E)];
      [assert (keepsR keeps_tables (put_word (M := M) p1 8 (d_cookie D))) as K by keepR; by eapply K|].
    assert (s1 = s) as -> by (revert E2; unfold put_word, put_bytes; destruct (copy_to_user _ _ _); by intros [= _ <- _]).
    apply driver_step in E as ([] & s1 & E3 & E). kept same_tables E3 S3. apply driver_step in E as ([] & s2 & E4 & E). kept same_tables E4 S4.
    apply driver_step in E as ([] & s3 & E5 & E). injection E as _ <- _. apply bind_ok in E5 as ([] & s4 & E5 & E6). kept same_tables E6 S6.
    unfold free_death in E5. apply bind_ok in E5 as (D' & s5 & HD' & E5). apply get_obj_ok in HD' as [HD' ->]. apply modify_ok in E5 as ->.
    assert (S24 : same_tables s s2) by by etransitivity. intros H. destruct (same_keeps _ _ S24 H) as [H2 T2].
    destruct (same_keeps _ _ S6) as [H6 T6]; [|split; [done|by rewrite T6]].
    apply bare_del_death; [done|]. eapply unreferenced_bare; [|done]. apply S24.
  - match type of E with ?x _ _ = _ => assert (keepsR keeps_tables x) as K by keepR end. by eapply K.
Qed.
Lemma keepsR_read_complete p th c ptr : keepsR keeps_tables (read_complete (M := M) p th c ptr).
Proof. unfold read_complete. keepR. Qed.
Lemma same_push_txn th t : keeps same_tables (thread ← get_thread th;
  _ ← mod_txn t (fun tr => set_t_to_thread (set_t_to_parent tr (th_transaction_stack thread)) (Some th));
  put_thread th (set_th_transaction_stack thread (Some t))).
Proof. intros s x s' E. run_inv. same_bare. Qed.
Hint Resolve same_push_txn : keeps.
Lemma keepsR_read_transaction cur p th t ptr : keepsR keeps_tables (read_transaction (M := M) cur p th t ptr).
Proof. unfold read_transaction. keepR. Qed.
Hint Resolve keepsR_read_death keepsR_read_complete keepsR_read_transaction : keepsR.

Lemma next_work_owned p th w s n : bare_tables s -> belongs p th s -> next_work p th w s = Ok (Some (WNode n), s) -> owned n p s.
Proof.
  intros H Hb E. unfold next_work, list_head in E. run_inv.
  assert (exists h, (h = TodoThread th \/ h = TodoProc p) /\ queued (lists s) h (WNode n)) as (h & Hh & Hq).
  { unfold queued. destruct (list_of (TodoThread th) s) as [|w' l] eqn:El; cbn in E.
    - destruct w; [|by run_inv]. exists (TodoProc p). split; [by right|]. run_inv.
      change (WNode n ∈ list_of (TodoProc p) s). destruct (list_of (TodoProc p) s); [done|]. cbn in *. 
      match goal with H1 : Some _ = Some _ |- _ => injection H1 as -> end. by left.
    - run_inv. match goal with H1 : Some _ = Some _ |- _ => injection H1 as <- end. exists (TodoThread th). split; [by left|].
      change (WNode n ∈ list_of (TodoThread th) s). rewrite El. by left. }
  destruct Hb as (T & HT & Et). destruct (ho_work _ (tables_handles s H) h n Hq) as (N & q & HN & Ep & Hc). exists N. split; [done|]. rewrite Ep. f_equal.
  destruct Hh as [->| ->]; destruct Hc as [Hc|(th' & T' & Hc & HT' & Et')]; try done; injection Hc; congruence.
Qed.

(** ** The loop and the function *)
Lemma next_work_same p th w s o s' : next_work p th w s = Ok (o, s') -> s' = s.
Proof. unfold next_work, list_head. intros E. run_inv. destruct (head _); [by run_inv|]. destruct w; by run_inv. Qed.

Lemma keepsR_read_loop k cur p th w buf ptr e : keepsR (keeps_for p th) (read_loop (M := M) k cur p th w buf ptr e).
Proof.
  revert ptr. induction k as [|k IH]; intros ptr; cbn [read_loop]; [keepR|].
  intros s m r s' m' E. apply driver_step in E as (o & s1 & E1 & E). pose proof (next_work_same _ _ _ _ _ _ E1) as ->.
  destruct o as [[t|c|n|d]|].
  1, 2, 4, 5: match type of E with ?x _ _ = _ => assert (keepsR (keeps_for p th) x) as K end;
    [keepR; by apply keepsR_any; auto with keepsR|by eapply K].
  destruct (_ <? READ_ROOM); [by injection E as _ <- _|]. intros Hb H. assert (Ho := next_work_owned _ _ _ _ _ H Hb E1).
  revert Hb H. change (keeps_for p th s s'). apply R_bind_ok in E as [(e' & E & _)|(a & s1 & m1 & E2 & E)].
  - intros _. by eapply read_node_ok.
  - transitivity s1; [intros _; by eapply read_node_ok|by eapply IH].
Qed.
Hint Resolve keepsR_read_loop : keepsR.

Lemma keepsR_read_done p th buf ptr : keepsR same_tables (read_done (M := M) p th buf ptr).
Proof.
  unfold read_done. intros s m r s' m' E. apply driver_step in E as (P & s1 & HP & E). apply get_obj_ok in HP as [HP ->].
  apply driver_step in E as (T & s1 & HT & E). apply get_obj_ok in HT as [HT ->]. destruct (_ && _).
  - apply driver_step in E as ([] & s1 & E1 & E). apply modify_ok in E1 as ->.
    etransitivity; [by eapply (same_put_proc p s P (set_p_requested_threads P (incr (p_requested_threads P))))|].
    revert E. generalize (set_procs s (<[p := set_p_requested_threads P (incr (p_requested_threads P))]> (procs s))) as s1. intros s1 E.
    match type of E with ?x _ _ = _ => assert (keepsR same_tables x) as K by keepR end. by eapply K.
  - by injection E as _ <- _.
Qed.
Hint Resolve keepsR_read_done : keepsR.

Lemma same_put_thread_later th s s1 T T' : threads s !! th = Some T -> same_tables s s1 -> bare_thread T' = bare_thread T ->
  same_tables s (set_threads s1 (<[th := T']> (threads s1))).
Proof.
  intros E Hs H. etransitivity; [exact Hs|]. pose proof (fmap_some bare_thread _ _ _ E) as E1.
  rewrite <- (proj1 (proj2 (proj2 (proj2 Hs)))) in E1. apply lookup_fmap_Some in E1 as (T1 & H1 & E1).
  eapply same_put_thread; [exact E1|congruence].
Qed.
Lemma keepsR_read_errors p th buf ptr e : keepsR same_tables (read_errors (M := M) p th buf ptr e).
Proof.
  unfold read_errors. intros s m r s' m' E. apply driver_step in E as (T & s1 & HT & E). apply get_obj_ok in HT as [HT ->].
  destruct (negb _); [|match type of E with ?x _ _ = _ => assert (keepsR same_tables x) as K by keepR end; by eapply K].
  apply R_bind_ok in E as [(x & E & _)|(p1 & s1 & m1 & E1 & E)]; [by eapply (keepsR_put_bytes same_tables)|].
  apply (keepsR_put_bytes same_tables) in E1. apply driver_step in E as ([] & s2 & E2 & E). kept same_tables E2 S2.
  assert (S12 : same_tables s s2) by by etransitivity. destruct (p1 =? e).
  - etransitivity; [exact S12|]. by eapply keepsR_read_done.
  - apply driver_step in E as ([] & s3 & E3 & E). apply modify_ok in E3 as ->.
    etransitivity; [by eapply (same_put_thread_later th s s2 T (set_th_return_error2 T BR_OK))|].
    revert E. generalize (set_threads s2 (<[th := set_th_return_error2 T BR_OK]> (threads s2))) as s3. intros s3 E.
    match type of E with ?x _ _ = _ => assert (keepsR same_tables x) as K by keepR end. by eapply K.
Qed.
Hint Resolve keepsR_read_errors : keepsR.
Lemma keepsR_read_retry cur p th buf ptr e : keepsR same_tables (read_retry (M := M) cur p th buf ptr e).
Proof.
  unfold read_retry. intros s m r s' m' E. apply driver_step in E as (T & s1 & HT & E). apply get_obj_ok in HT as [HT ->].
  apply driver_step in E as (em & s1 & E1 & E). apply get_ok in E1 as [_ ->].
  destruct (negb _ && _); [by eapply keepsR_read_errors|]. apply driver_step in E as ([] & s1 & E1 & E). apply modify_ok in E1 as ->.
  etransitivity; [by eapply (same_put_thread th s T (looper_or BINDER_LOOPER_STATE_WAITING T))|].
  revert E. generalize (set_threads s (<[th := looper_or BINDER_LOOPER_STATE_WAITING T]> (threads s))) as s1. intros s1 E.
  match type of E with ?x _ _ = _ => assert (keepsR same_tables x) as K by keepR end. by eapply K.
Qed.
Hint Resolve keepsR_read_retry : keepsR.
Lemma keepsR_thread_read cur p th buf size c : keepsR same_tables (binder_thread_read (M := M) cur p th buf size c).
Proof. unfold binder_thread_read. keepR. Qed.

Lemma keepsR_same {A} (x : R M A) : keepsR same_tables x -> keepsR keeps_tables x.
Proof. intros H s m r s' m' E. apply same_keeps. by eapply H. Qed.
Hint Extern 3 (keepsR keeps_tables _) => apply keepsR_same : keepsR.
Lemma keepsR_thread_resume cur p th buf size c w ptr ret :
  keepsR (keeps_for p th) (binder_thread_resume (M := M) cur p th buf size c w ptr ret).
Proof. unfold binder_thread_resume. keepR. Qed.
End Reads.
#[export] Hint Resolve keepsR_thread_read keepsR_thread_resume : keepsR.
#[export] Hint Extern 3 (keepsR keeps_tables _) => apply keepsR_same : keepsR.

(** ** Processes that come and go keep the tables consistent *)

Implicit Types (ps : gmap Z binder_proc) (ns : gmap Z binder_node) (rs : gmap Z binder_ref) (ts : gmap Z binder_thread).

Section Changes.
(** A node without a process stays for its references. *)
Lemma refs_inv_orphan ps ns rs n N N' p P P' : refs_inv ps ns rs -> ns !! n = Some N -> n_proc N = Some p -> ps !! p = Some P ->
  p_nodes P' = delete (n_ptr N) (p_nodes P) -> p_refs_by_desc P' = p_refs_by_desc P -> p_refs_by_node P' = p_refs_by_node P ->
  n_proc N' = None -> n_refs N' = n_refs N -> n_internal_strong_refs N' = n_internal_strong_refs N ->
  refs_inv (<[p := P']> ps) (<[n := N']> ns) rs.
Proof.
  intros H EN Ep EP F1 F2 F3 G1 G2 G3. pose proof (nodes_of_one ps ns rs n N) as Hone. pose proof H as [H1 H2 H3 H4 H5 H6 H7].
  assert (Hp : forall q Q, <[p := P']> ps !! q = Some Q -> exists Q0, ps !! q = Some Q0 /\
    p_refs_by_desc Q = p_refs_by_desc Q0 /\ p_refs_by_node Q = p_refs_by_node Q0 /\
    forall ptr m, p_nodes Q !! ptr = Some m -> p_nodes Q0 !! ptr = Some m /\ m ≠ n).
  { intros q Q. destruct (decide (q = p)) as [->|Hq]; [rewrite lookup_insert_eq; intros [= <-]|rewrite lookup_insert_ne by done].
    - exists P. split_and!; try done. intros ptr m. rewrite F1, lookup_delete_Some. intros [Hptr Hm]. split; [done|].
      intros ->. destruct (Hone p P ptr H EN EP Hm) as [_ ->]. done.
    - intros HQ. exists Q. split_and!; try done. intros ptr m Hm. split; [done|]. intros ->.
      destruct (Hone q Q ptr H EN HQ Hm). congruence. }
  split.
  - intros q Q d r HQ Hd. destruct (Hp q Q HQ) as (Q0 & HQ0 & E & _). rewrite E in Hd. eauto.
  - intros q Q m r HQ Hd. destruct (Hp q Q HQ) as (Q0 & HQ0 & _ & E & _). rewrite E in Hd. eauto.
  - intros r R HR. destruct (H3 r R HR) as (C & HM & Q & HQ & X & Y). split_and!; [done| |].
    + rewrite lookup_insert_is_Some'. by right.
    + destruct (decide (r_proc R = p)) as [Hrp|]; [|rewrite lookup_insert_ne by done; eauto].
      rewrite Hrp, lookup_insert_eq in *. rewrite EP in HQ. injection HQ as <-. exists P'. by rewrite F2, F3.
  - intros m M. destruct (decide (m = n)) as [->|]; [rewrite lookup_insert_eq; intros [= <-]; rewrite G2|rewrite lookup_insert_ne by done]; eauto.
  - intros m M. destruct (decide (m = n)) as [->|]; [rewrite lookup_insert_eq; intros [= <-]; rewrite G2, G3|rewrite lookup_insert_ne by done]; eauto.
  - intros q Q ptr m HQ Hm. destruct (Hp q Q HQ) as (Q0 & HQ0 & _ & _ & X). destruct (X ptr m Hm) as [Hm0 Hmn].
    destruct (H6 q Q0 ptr m HQ0 Hm0) as (M & HM & Y). exists M. by rewrite lookup_insert_ne.
  - intros m M q HM Hpr. destruct (decide (m = n)) as [->|Hmn]; [rewrite lookup_insert_eq in HM; congruence|].
    rewrite lookup_insert_ne in HM by done. destruct (H7 m M q HM Hpr) as (Q & HQ & X).
    destruct (decide (q = p)) as [->|]; [rewrite lookup_insert_eq|rewrite lookup_insert_ne by done; eauto].
    rewrite EP in HQ. injection HQ as <-. exists P'. split; [done|]. rewrite F1, lookup_delete_ne; [done|].
    intros Eptr. rewrite <- Eptr in X. destruct (H7 n N p EN Ep) as (P1 & HP1 & Y). congruence.
Qed.

(** *** Processes *)
Lemma refs_inv_new_proc ps ns rs p P : refs_inv ps ns rs -> ps !! p = None -> p_nodes P = ∅ -> p_refs_by_desc P = ∅ ->
  p_refs_by_node P = ∅ -> refs_inv (<[p := P]> ps) ns rs.
Proof.
  intros [H1 H2 H3 H4 H5 H6 H7] EP F1 F2 F3.
  assert (Hp : forall q Q, ps !! q = Some Q -> <[p := P]> ps !! q = Some Q) by (intros q Q HQ; rewrite lookup_insert_ne; congruence).
  split; try done.
  - intros q Q d r. destruct (decide (q = p)) as [->|]; [rewrite lookup_insert_eq; intros [= <-]; by rewrite F2|rewrite lookup_insert_ne by done; eauto].
  - intros q Q d r. destruct (decide (q = p)) as [->|]; [rewrite lookup_insert_eq; intros [= <-]; by rewrite F3|rewrite lookup_insert_ne by done; eauto].
  - intros r R HR. destruct (H3 r R HR) as (C & HM & Q & HQ & X & Y). eauto 10.
  - intros q Q ptr m. destruct (decide (q = p)) as [->|]; [rewrite lookup_insert_eq; intros [= <-]; by rewrite F1|rewrite lookup_insert_ne by done; eauto].
  - intros m M q HM Hpr. destruct (H7 m M q HM Hpr) as (Q & HQ & X). eauto.
Qed.
Lemma threads_ok_new_proc ps ts p P : threads_ok ps ts -> ps !! p = None -> p_threads P = ∅ -> threads_ok (<[p := P]> ps) ts.
Proof.
  intros [H1 H2] EP F. split.
  - intros q Q pid th. destruct (decide (q = p)) as [->|]; [rewrite lookup_insert_eq; intros [= <-]; by rewrite F|rewrite lookup_insert_ne by done; eauto].
  - intros th T HT. destruct (H2 th T HT) as (Q & HQ & X). exists Q. rewrite lookup_insert_ne; [done|congruence].
Qed.
Lemma refs_inv_del_proc ps ns rs p : refs_inv ps ns rs -> (forall r R, rs !! r = Some R -> r_proc R ≠ p) ->
  (forall n N, ns !! n = Some N -> n_proc N ≠ Some p) -> refs_inv (delete p ps) ns rs.
Proof.
  intros [H1 H2 H3 H4 H5 H6 H7] Hr Hn. split; try done.
  - intros q Q d r [_ HQ]%lookup_delete_Some. eauto.
  - intros q Q d r [_ HQ]%lookup_delete_Some. eauto.
  - intros r R HR. destruct (H3 r R HR) as (C & HM & Q & HQ & X). split_and!; [done..|]. exists Q.
    rewrite lookup_delete_ne; [done|]. intros E. by apply (Hr r R HR).
  - intros q Q ptr m [_ HQ]%lookup_delete_Some. eauto.
  - intros m M q HM Hpr. destruct (H7 m M q HM Hpr) as (Q & HQ & X). exists Q. rewrite lookup_delete_ne; [done|].
    intros E. apply (Hn m M HM). by rewrite Hpr, E.
Qed.
Lemma threads_ok_del_proc ps ts p : threads_ok ps ts -> (forall th T, ts !! th = Some T -> th_proc T ≠ p) -> threads_ok (delete p ps) ts.
Proof.
  intros [H1 H2] Ht. split.
  - intros q Q pid th [_ HQ]%lookup_delete_Some. eauto.
  - intros th T HT. destruct (H2 th T HT) as (Q & HQ & X). exists Q. rewrite lookup_delete_ne; [done|]. intros E. by apply (Ht th T HT).
Qed.
End Changes.

Section Ops.
Context {M : Type} `{uops : UserOps M}.
Context `{env : KernelEnv} `{rb : RbOps} `{jk : Junk}.

(** ** A process that comes *)
Lemma open_tables cur s x s' : bare_tables s -> binder_open cur s = Ok (x, s') -> bare_tables s'.
Proof.
  intros H E. unfold binder_open in E. apply bind_ok in E as (o & s1 & E1 & E). unfold kzalloc, new_ticket in E1. run_inv.
  destruct (kzalloc_ok _); [|run_inv; by eapply tables_weaken; [exact H|cbn; lia]].
  unfold task_nice, binder_stats_created, bump in E. run_inv. destruct H as [Hr Ht Hd Hw Hf].
  destruct (Hf (ticket s + 1)) as (F1 & _); [lia|]. unfold bare_tables. cbn. rewrite fmap_insert. split; try done.
  - by apply refs_inv_new_proc.
  - by apply threads_ok_new_proc.
  - intros y Hy. destruct (Hf y) as (K1 & K2 & K3 & K4 & K5); [lia|]. rewrite lookup_insert_ne by lia. done.
Qed.

(** ** A node whose process goes *)
Lemma same_mod_dead d : keeps same_tables (mod_death d (fun D => set_d_type D DEAD_BINDER)).
Proof.
  intros s x s' E. unfold mod_death in E. run_inv. same_bare; intros e; destruct (decide (e = d)) as [->|];
    rewrite ?lookup_insert_eq, ?lookup_insert_ne by done; try done. intros Hn. congruence.
Qed.
Lemma same_tell_refs (l : list Z) c : keeps same_tables (tell_refs l c).
Proof. revert c. induction l as [|r l IH]; intros c; cbn [tell_refs]; pose proof same_mod_dead; samely. Qed.

(** The tables with the node [n] taken from its process. *)
Definition orphan n s : kstate := set_nodes s (alter (fun N => set_n_proc N None) n (nodes s)).
Lemma orphan_same n s s' : same_tables s s' -> same_tables (orphan n s) (orphan n s').
Proof.
  intros (S1 & S2 & S3 & S4 & S5 & S6 & S7). split_and!; try done. cbn.
  assert (Ha : forall ns, bare_node <$> alter (fun N => set_n_proc N None) n ns = alter (fun N => set_n_proc N None) n (bare_node <$> ns)).
  { intros ns. apply map_eq. intros m. destruct (decide (m = n)) as [->|];
      [rewrite lookup_fmap, !lookup_alter_eq, lookup_fmap; by destruct (ns !! n)|by rewrite lookup_fmap, !lookup_alter_ne, lookup_fmap]. }
  by rewrite !Ha, S2.
Qed.
Lemma bare_orphan s n N p P : bare_tables s -> nodes s !! n = Some N -> n_proc N = Some p -> procs s !! p = Some P ->
  bare_tables (orphan n (set_lists (set_procs s (<[p := set_p_nodes P (delete (n_ptr N) (p_nodes P))]> (procs s))) (list_del (WNode n) <$> lists s))).
Proof.
  intros [Hr Ht Hd Hw Hf] HN Ep HP. unfold bare_tables. cbn.
  assert (alter (fun N => set_n_proc N None) n (nodes s) = <[n := set_n_proc N None]> (nodes s)) as ->.
  { apply map_eq. intros m. destruct (decide (m = n)) as [->|]; [by rewrite lookup_alter_eq, lookup_insert_eq, HN|].
    by rewrite lookup_alter_ne, lookup_insert_ne. }
  rewrite !fmap_insert. split; try done.
  - by apply (refs_inv_orphan _ _ _ n (bare_node N) _ p (bare_proc P)); try bare.
  - by eapply threads_ok_put; try bare.
  - eapply work_ok_mono; [exact Hw|by intros h m [? _]%queued_del| |eauto]. intros h m Q [_ Hm]%queued_del HQ. exists Q.
    rewrite lookup_insert_ne; [done|congruence].
  - intros x Hx. destruct (Hf x Hx) as (K1 & K2 & K3 & K4 & K5).
    rewrite !lookup_insert_ne; [done|intros <-; apply fmap_none in K3; congruence|intros <-; apply fmap_none in K1; congruence].
Qed.

Lemma release_node_ok p n s N P c x s' : bare_tables s -> nodes s !! n = Some N -> n_proc N = Some p -> procs s !! p = Some P ->
  binder_node_release n c (set_procs s (<[p := set_p_nodes P (delete (n_ptr N) (p_nodes P))]> (procs s))) = Ok (x, s') ->
  bare_tables s' /\ bare_thread <$> threads s' = bare_thread <$> threads s.
Proof.
  intros H HN Ep HP E. pose proof (bare_orphan s n N p P H HN Ep HP) as Ho. unfold binder_node_release in E.
  apply bind_ok in E as ([] & s1 & E1 & E). apply modify_ok in E1 as ->. cbn [lists set_procs] in E.
  set (s1 := set_lists _ _) in *. apply bind_ok in E as ([] & s2 & E2 & E). kept same_tables E2 S2. clear E2.
  destruct (same_keeps _ _ (orphan_same n _ _ S2) Ho) as [H2 _].
  assert (T2 : bare_thread <$> threads s2 = bare_thread <$> threads s) by apply S2.
  apply bind_ok in E as (N2 & s3 & HN2 & E). apply get_obj_ok in HN2 as [HN2 ->].
  assert (alter (fun N => set_n_proc N None) n (nodes s2) = <[n := set_n_proc N2 None]> (nodes s2)) as Ea.
  { apply map_eq. intros m. destruct (decide (m = n)) as [->|]; [by rewrite lookup_alter_eq, lookup_insert_eq, HN2|].
    by rewrite lookup_alter_ne, lookup_insert_ne. }
  assert (Hq : forall h m, queued (lists s2) h (WNode m) -> m ≠ n).
  { intros h m Hm ->. apply S2 in Hm. by apply queued_del in Hm as [_ ?]. }
  case_bool_decide as En.
  - unfold free_node, binder_stats_deleted, bump in E. run_inv. split; [|done].
    apply (bare_del_node (orphan n s2) _ n (set_n_proc N2 None)); try done; cbn.
    + rewrite Ea. by rewrite lookup_insert_eq.
    + by rewrite Ea, delete_insert_eq.
    + intros h m Hm. split; [done|by eapply Hq].
  - apply bind_ok in E as ([] & s3 & E3 & E). apply modify_ok in E3 as ->. apply bind_ok in E as ([] & s3 & E3 & E). apply modify_ok in E3 as ->.
    apply (keeps_run same_tables) in E as S3; [|apply same_tell_refs].
    apply same_keeps in S3. destruct S3 as [H3 T3]; [|split; [done|by rewrite T3]].
    revert H2. apply same_keeps. split_and!; try done; cbn; first [lia|by rewrite Ea, !fmap_insert].
Qed.

(** ** Draining the trees of a process *)
Lemma in_order_elem (m : gmap Z Z) x l : in_order m = x :: l -> exists k, m !! k = Some x.
Proof.
  intros E. assert (Hx : x ∈ in_order m) by (rewrite E; by left). apply list_elem_of_omap in Hx as (k & _ & Hk). eauto.
Qed.
Lemma in_order_nil (m : gmap Z Z) : in_order m = [] -> m = ∅.
Proof.
  intros E. apply map_empty. intros k. destruct (m !! k) as [x|] eqn:Ek; [|done]. exfalso.
  assert (Hx : x ∈ in_order m) by (apply list_elem_of_omap; exists k; split; [apply keys_elem; by eexists|done]).
  rewrite E in Hx. by apply elem_of_nil in Hx.
Qed.

Definition no_threads p s : Prop := forall th T, threads s !! th = Some T -> th_proc T ≠ p.
Definition no_nodes p s : Prop := forall n N, nodes s !! n = Some N -> n_proc N ≠ Some p.
Definition no_refs p s : Prop := forall r R, refs s !! r = Some R -> r_proc R ≠ p.

Lemma drain_threads_ok k p s x s' : bare_tables s -> drain_threads k p s = Ok (x, s') -> bare_tables s' /\ no_threads p s'.
Proof.
  revert s. induction k as [|k IH]; intros s H E; cbn [drain_threads] in E;
    apply bind_ok in E as (P & s1 & HP & E); apply get_obj_ok in HP as [HP ->];
    (destruct (in_order (p_threads P)) as [|th l] eqn:El;
      [apply in_order_nil in El; run_inv; split; [done|]; intros th T HT Ep;
       destruct (ho_thread _ (tables_handles s H) th T HT) as (Q & HQ & Hth); rewrite Ep, HP in HQ; injection HQ as <-; rewrite El in Hth; done|]);
    [done|]. apply bind_ok in E as (a & s1 & E1 & E). apply IH in E; [done|]. eapply free_thread_ok; [done| |done].
  apply in_order_elem in El as (pid & Hth). destruct (ho_threads _ (tables_handles s H) p P pid th HP Hth) as (T & HT & Et & _). by exists T.
Qed.
Lemma drain_nodes_ok k p c s x s' : bare_tables s -> drain_nodes k p c s = Ok (x, s') ->
  bare_tables s' /\ bare_thread <$> threads s' = bare_thread <$> threads s /\ no_nodes p s'.
Proof.
  revert s c. induction k as [|k IH]; intros s c H E; cbn [drain_nodes] in E;
    apply bind_ok in E as (P & s1 & HP & E); apply get_obj_ok in HP as [HP ->];
    (destruct (in_order (p_nodes P)) as [|n l] eqn:El;
      [apply in_order_nil in El; run_inv; split_and!; [done..|]; intros n N HN Ep;
       destruct (ho_owner _ (tables_handles s H) n N p HN Ep) as (Q & HQ & Hn); rewrite HP in HQ; injection HQ as <-; rewrite El in Hn; done|]);
    [done|]. apply in_order_elem in El as (ptr & Hn). destruct (ho_nodes _ (tables_handles s H) p P ptr n HP Hn) as (N & HN & Ep & _).
  apply bind_ok in E as (N0 & s1 & HN0 & E). apply get_obj_ok in HN0 as [HN0 ->]. assert (N0 = N) as -> by congruence.
  apply bind_ok in E as ([] & s1 & E1 & E). apply modify_ok in E1 as ->. apply bind_ok in E as (c' & s2 & E2 & E).
  destruct (release_node_ok p n s N P c c' s2 H HN Ep HP E2) as [H2 T2]. apply IH in E as (H3 & T3 & Hno); [|done].
  split_and!; [done|congruence|done].
Qed.

(** No operation on references gives a process nodes. *)
Definition still_no_nodes p s s' : Prop := no_nodes p s -> no_nodes p s'.
#[local] Instance still_no_nodes_preorder p : PreOrder (still_no_nodes p).
Proof. split; [by intros s H|]. intros s1 s2 s3 H1 H2 H. by apply H2, H1. Qed.
(** Through the code; what is left are updates of something else. *)
Ltac still := keep; first [intros H'; exact H'|intros ? ? ? [= _ <-] H'; exact H'].
Lemma nodes_put p n s N N' : nodes s !! n = Some N -> n_proc N' = n_proc N ->
  still_no_nodes p s (set_nodes s (<[n := N']> (nodes s))).
Proof.
  intros HN Ep H m Q HQ. cbn in HQ. destruct (decide (m = n)) as [->|]; [rewrite lookup_insert_eq in HQ; injection HQ as <-; rewrite Ep; eauto|].
  rewrite lookup_insert_ne in HQ by done. eauto.
Qed.
Lemma nodes_mod p n f : (forall N, n_proc (f N) = n_proc N) -> keeps (still_no_nodes p) (mod_node n f).
Proof. intros Hf s x s' E. run_inv. by eapply nodes_put. Qed.
Lemma nodes_free p n : keeps (still_no_nodes p) (free_node n).
Proof. intros s x s' E. unfold free_node in E. run_inv. intros K m Q HQ. cbn in HQ. apply lookup_delete_Some in HQ as [_ HQ]. eauto. Qed.
Lemma nodes_dec_node p n st i : keeps (still_no_nodes p) (binder_dec_node n st i).
Proof.
  unfold binder_dec_node. intros s x s' E. apply bind_ok in E as (N & s1 & HN & E). apply get_obj_ok in HN as [HN ->].
  apply bind_ok in E as ([] & s1 & E1 & E). apply modify_ok in E1 as ->.
  etransitivity; [apply (nodes_put p n s N (dec_counts N st i) HN); by destruct st, i|]. revert E.
  generalize (set_nodes s (<[n := dec_counts N st i]> (nodes s))) as s1. intros s1 E.
  eapply (keeps_run (still_no_nodes p)) in E; [exact E|]. unfold unused_node, list_add_tail, list_del_work, binder_stats_deleted, bump. pose proof (nodes_free p). still.
Qed.
Lemma nodes_delete_ref p r : keeps (still_no_nodes p) (binder_delete_ref r).
Proof.
  unfold binder_delete_ref, free_ref, free_death, list_del_work, binder_stats_deleted, bump. pose proof (nodes_dec_node p).
  assert (forall n, keeps (still_no_nodes p) (mod_node n (fun N => set_n_refs N (list_del r (n_refs N))))) by (intros n; by apply nodes_mod).
  still.
Qed.
Lemma drain_refs_ok k p s x s' : bare_tables s -> drain_refs k p s = Ok (x, s') ->
  bare_tables s' /\ bare_thread <$> threads s' = bare_thread <$> threads s /\ still_no_nodes p s s' /\ no_refs p s'.
Proof.
  revert s. induction k as [|k IH]; intros s H E; cbn [drain_refs] in E;
    apply bind_ok in E as (P & s1 & HP & E); apply get_obj_ok in HP as [HP ->];
    (destruct (in_order (p_refs_by_desc P)) as [|r l] eqn:El;
      [apply in_order_nil in El; run_inv; split_and!; [done..|]; intros r R HR Ep;
       destruct (ho_ref _ (tables_handles s H) r R HR) as (_ & Q & HQ & Hr & _); rewrite Ep, HP in HQ; injection HQ as <-; rewrite El in Hr; done|]);
    [done|]. apply bind_ok in E as ([] & s1 & E1 & E). destruct (tables_delete_ref _ _ _ _ E1 H) as [H1 T1].
  apply nodes_delete_ref with (p := p) in E1. apply IH in E as (H2 & T2 & N2 & R2); [|done].
  split_and!; [done|congruence|by transitivity s1|done].
Qed.
Lemma same_drain_buffers k p : keeps same_tables (drain_buffers k p).
Proof. induction k as [|k IH]; cbn [drain_buffers]; samely. Qed.
Hint Resolve same_drain_buffers : keeps.

(** ** A process that goes *)

(** What the tables say about owners depends on bare objects only. *)
Lemma bare_lookup {A} (f : A -> A) (m m' : gmap Z A) k a : f <$> m' = f <$> m -> m' !! k = Some a -> exists a0, m !! k = Some a0 /\ f a0 = f a.
Proof. intros E Ha. apply (fmap_some f) in Ha. rewrite E in Ha. by apply lookup_fmap_Some in Ha as (a0 & ? & ?); eauto. Qed.
Lemma no_threads_same p s s' : bare_thread <$> threads s' = bare_thread <$> threads s -> no_threads p s -> no_threads p s'.
Proof. intros E Hn th T HT. destruct (bare_lookup _ _ _ _ _ E HT) as (T0 & HT0 & [= <- _]). eauto. Qed.
Lemma no_nodes_same p s s' : same_tables s s' -> no_nodes p s -> no_nodes p s'.
Proof. intros (_ & E & _) Hn n N HN. destruct (bare_lookup _ _ _ _ _ E HN) as (N0 & HN0 & [= <- _]). eauto. Qed.
Lemma no_refs_same p s s' : same_tables s s' -> no_refs p s -> no_refs p s'.
Proof. intros (_ & _ & E & _) Hn r R HR. destruct (bare_lookup _ _ _ _ _ E HR) as (R0 & HR0 & [= <- _]). eauto. Qed.

Lemma free_proc_ok p s x s' : bare_tables s -> no_threads p s -> no_nodes p s -> no_refs p s -> free_proc p s = Ok (x, s') -> bare_tables s'.
Proof.
  intros [Hr Ht Hd Hw Hf] Nt Nn Nr E. unfold free_proc in E. run_inv. unfold bare_tables. cbn. rewrite fmap_delete. split; try done.
  - apply refs_inv_del_proc; [done| |]; [intros r R HR|intros n N HN]; [apply lookup_fmap_Some in HR as (R0 & <- & HR)|apply lookup_fmap_Some in HN as (N0 & <- & HN)]; cbn; eauto.
  - apply threads_ok_del_proc; [done|]. intros th T HT. apply lookup_fmap_Some in HT as (T0 & <- & HT). cbn. eauto.
  - intros y Hy. destruct (Hf y Hy) as (K1 & K2). split; [|done]. rewrite lookup_delete_None. by right.
Qed.

(** The steps before the trees are drained leave the tables alone. *)
Lemma same_leave_mgr p mgr : keeps same_tables (match mgr with
  | None => mret tt
  | Some n => node ← get_node n; when (is_some_eq (n_proc node) p) (modify (fun s => set_context_mgr_node s None))
  end).
Proof. samely. Qed.
Hint Resolve same_leave_mgr : keeps.

Lemma deferred_release_ok p : keeps (fun s s' => bare_tables s -> bare_tables s') (binder_deferred_release p).
Proof.
  intros s x s' E H. unfold binder_deferred_release in E. apply bind_ok in E as (P & s1 & HP & E). apply get_obj_ok in HP as [_ ->].
  do 2 (apply bind_ok in E as ([] & s1 & E1 & E); apply BUG_ON_ok in E1 as [_ ->]).
  apply bind_ok in E as ([] & s1 & E1 & E). apply modify_ok in E1 as ->.
  apply bind_ok in E as (mgr & s1 & E1 & E). apply get_ok in E1 as [-> ->].
  apply bind_ok in E as ([] & s1 & E1 & E). kept same_tables E1 S1.
  apply bind_ok in E as ([] & s2 & E2 & E). apply drain_threads_ok in E2 as [H2 Nt]; [|by apply (same_keeps _ _ S1)].
  apply bind_ok in E as (P2 & s3 & HP2 & E). apply get_obj_ok in HP2 as [_ ->].
  apply bind_ok in E as (c & s3 & E3 & E). apply drain_nodes_ok in E3 as (H3 & T3 & Nn); [|done].
  apply bind_ok in E as (P3 & s4 & HP3 & E). apply get_obj_ok in HP3 as [_ ->].
  apply bind_ok in E as ([] & s4 & E4 & E). apply drain_refs_ok in E4 as (H4 & T4 & Hnn & Nr); [|done]. apply Hnn in Nn.
  apply bind_ok in E as ([] & s5 & E5 & E). kept same_tables E5 S5. apply bind_ok in E as ([] & s6 & E6 & E). kept same_tables E6 S6.
  apply bind_ok in E as (P6 & s7 & HP6 & E). apply get_obj_ok in HP6 as [_ ->].
  apply bind_ok in E as ([] & s7 & E7 & E). kept same_tables E7 S7. apply bind_ok in E as ([] & s8 & E8 & E). kept same_tables E8 S8.
  assert (Hs : same_tables s4 s8) by (repeat (etransitivity; [eassumption|]); reflexivity).
  destruct (same_keeps _ _ Hs H4) as [H8 T8]. eapply free_proc_ok; [exact H8| | | |exact E].
  - apply (no_threads_same p s2); [congruence|done].
  - by apply (no_nodes_same p s4).
  - by apply (no_refs_same p s4).
Qed.

(** ** The workqueue *)
Definition keeps_bare s s' : Prop := bare_tables s -> bare_tables s'.
#[local] Instance keeps_bare_preorder : PreOrder keeps_bare.
Proof. split; [by intros s H|]. intros s1 s2 s3 H1 H2 H. by apply H2, H1. Qed.
Lemma keeps_bare_any {A} (m : K A) : keeps keeps_tables m -> keeps keeps_bare m.
Proof. intros Hm s x s' E H. by eapply Hm. Qed.

Lemma bare_deferred_round : keeps keeps_bare deferred_round.
Proof.
  intros s x s' E. unfold deferred_round in E. apply bind_ok in E as (l & s1 & E1 & E). apply get_ok in E1 as [-> ->].
  destruct (deferred_list s) as [|p l]; [by apply ret_ok in E as [_ ->]|].
  apply bind_ok in E as ([] & s1 & E1 & E). apply modify_ok in E1 as ->.
  apply bind_ok in E as (P & s1 & HP & E). apply get_obj_ok in HP as [HP ->]. cbn zeta in E.
  apply bind_ok in E as ([] & s1 & E1 & E). apply modify_ok in E1 as ->.
  apply bind_ok in E as ([] & s2 & E2 & E). kept same_tables E2 S2.
  assert (keeps_bare s s2) as K2.
  { intros H. apply (same_keeps s s2); [|done]. etransitivity; [|exact S2]. same_bare. }
  transitivity s2; [done|]. clear K2 S2. apply bind_ok in E as ([] & s3 & E3 & E). apply ret_ok in E as [_ ->].
  apply when_ok in E3 as [[_ E3]|[_ ->]]; [|done]. exact (deferred_release_ok _ _ _ _ E3).
Qed.
Lemma bare_deferred_func : keeps keeps_bare binder_deferred_func.
Proof.
  unfold binder_deferred_func. apply keeps_bind; [apply _|apply keeps_get, _|]. intros k. generalize (S k). clear k. intros k.
  induction k as [|k IH]; cbn [deferred_rounds]; [apply keeps_klift, _|]. apply keeps_bind; [apply _|apply bare_deferred_round|].
  intros []; [exact IH|apply keeps_ret, _].
Qed.
End Ops.
