(* ===== verification/SoundFiles.v ===== *)
(** * Reads, files and processes keep areas and stacks sound *)
From S2P Require Import Prelude UserMem RbTree Alloc AllocInv AllocMap Protocol Kernel Refs Transact Send Write Read Driver KernelWp Keeps SendSpec FailedReply Sound TablesFiles.

Implicit Types (p n r d t th b : Z) (s : kstate) (o : option (Z * Z)).

Section Files.
Context {M : Type} `{uops : UserOps M} {ulaws : UserLaws uops}.
Context `{env : KernelEnv} `{rb : RbOps} {laws : RbLaws rb} `{jk : Junk}.
Hint Resolve sound_list_add_tail sound_list_add_head sound_list_del sound_pop sound_send_failed_reply : keeps.

(** ** Reads *)
Lemma sound_stat_br o p th cmd : keeps (keeps_sound o) (binder_stat_br p th cmd).
Proof. unfold binder_stat_br. keep. Qed.
Lemma sound_take_priority o cur t N : keeps (keeps_sound o) (take_priority cur t N).
Proof. unfold take_priority. keep. Qed.
Lemma sound_next_work o p th w : keeps (keeps_sound o) (next_work p th w).
Proof. unfold next_work, list_head. keep. Qed.
Hint Resolve sound_stat_br sound_take_priority sound_next_work : keeps.

Lemma soundR_read_node p th n ptr : keepsR (M := M) (keeps_sound None) (read_node p th n ptr).
Proof. unfold read_node. keepR. Qed.
Lemma soundR_read_complete p th c ptr : keepsR (M := M) (keeps_sound None) (read_complete p th c ptr).
Proof. unfold read_complete. keepR. Qed.
Lemma soundR_read_death p th d ptr : keepsR (M := M) (keeps_sound None) (read_death p th d ptr).
Proof. unfold read_death. keepR. Qed.
(** The transaction that is delivered goes on the stack of its reader, above what is there. *)
Lemma sound_push_txn th t : keeps (keeps_sound None) (thread ← get_thread th;
  _ ← mod_txn t (fun tr => set_t_to_thread (set_t_to_parent tr (th_transaction_stack thread)) (Some th));
  put_thread th (set_th_transaction_stack thread (Some t))).
Proof.
  intros s x s' E. unfold mod_txn, put_txn in E. run_inv. intros [[Ha [O1 O2 O3 O4]] _]. split; [|done]. split; [done|].
  match goal with H : txns s !! t = Some ?U, H' : threads s !! th = Some ?V |- _ => rename U into U0, H into HU, V into T0, H' into HT end.
  split; cbn.
  - intros u U. destruct (decide (u = t)) as [->|]; [rewrite lookup_insert_eq; intros [= <-]; eauto|rewrite lookup_insert_ne by done; eauto].
  - intros u U t'. destruct (decide (u = t)) as [->|]; [rewrite lookup_insert_eq; intros [= <-]; cbn; eauto|rewrite lookup_insert_ne by done; eauto].
  - intros u U t'. destruct (decide (u = t)) as [->|]; [rewrite lookup_insert_eq; intros [= <-]; cbn; eauto|rewrite lookup_insert_ne by done; eauto].
  - intros u U t'. destruct (decide (u = th)) as [->|]; [rewrite lookup_insert_eq; intros [= <-]; cbn; intros [= <-]; eauto|rewrite lookup_insert_ne by done; eauto].
Qed.
Hint Resolve sound_push_txn : keeps.
Lemma soundR_read_transaction cur p th t ptr : keepsR (M := M) (keeps_sound None) (read_transaction cur p th t ptr).
Proof. unfold read_transaction. keepR. Qed.
Hint Resolve soundR_read_node soundR_read_complete soundR_read_death soundR_read_transaction : keepsR.
Lemma soundR_read_loop k cur p th w buf ptr e : keepsR (M := M) (keeps_sound None) (read_loop k cur p th w buf ptr e).
Proof. revert ptr. induction k as [|k IH]; intros ptr; cbn [read_loop]; keepR. Qed.
Hint Resolve soundR_read_loop : keepsR.
Ltac by_keepR E := match type of E with ?x _ _ = _ => let K := fresh in assert (keepsR (keeps_sound None) x) as K by keepR; exact (K _ _ _ _ _ E) end.
Lemma soundR_read_done p th buf ptr : keepsR (M := M) (keeps_sound None) (read_done p th buf ptr).
Proof.
  unfold read_done. intros s m r s' m' E. apply driver_step in E as (P & s1 & HP & E). apply get_obj_ok in HP as [HP ->].
  apply driver_step in E as (T & s1 & HT & E). apply get_obj_ok in HT as [HT ->]. destruct (_ && _).
  - apply driver_step in E as ([] & s1 & E1 & E). apply modify_ok in E1 as ->.
    etransitivity; [by apply (sound_put_proc None p P (set_p_requested_threads P (incr (p_requested_threads P))))|]. by_keepR E.
  - by injection E as _ <- _.
Qed.
Hint Resolve soundR_read_done : keepsR.
Lemma soundR_read_errors p th buf ptr e : keepsR (M := M) (keeps_sound None) (read_errors p th buf ptr e).
Proof.
  unfold read_errors. intros s m r s' m' E. apply driver_step in E as (T & s1 & HT & E). apply get_obj_ok in HT as [HT ->].
  destruct (negb _); [|by_keepR E].
  apply R_bind_ok in E as [(x & E & _)|(p1 & s1 & m1 & E1 & E)]; [by eapply (keepsR_put_bytes (keeps_sound None))|].
  assert (s1 = s) as -> by (revert E1; unfold put_word, put_bytes; destruct (copy_to_user _ _ _); by intros [= _ <- _]).
  apply driver_step in E as ([] & s2 & E2 & E). kept (keeps_sound None) E2 S2. etransitivity; [exact S2|]. destruct (p1 =? e); [by_keepR E|].
  assert (keeps same_txns (binder_stat_br p th (th_return_error2 T))) as Q by (unfold binder_stat_br; keep).
  destruct (Q _ _ _ E2) as [_ Et]. rewrite <- Et in HT.
  apply driver_step in E as ([] & s3 & E3 & E). apply modify_ok in E3 as ->.
  etransitivity; [by apply (sound_put_thread None th T (set_th_return_error2 T BR_OK))|]. by_keepR E.
Qed.
Hint Resolve soundR_read_errors : keepsR.
Lemma soundR_read_retry cur p th buf ptr e : keepsR (M := M) (keeps_sound None) (read_retry cur p th buf ptr e).
Proof.
  unfold read_retry. intros s m r s' m' E. apply driver_step in E as (T & s1 & HT & E). apply get_obj_ok in HT as [HT ->].
  apply driver_step in E as (em & s1 & E1 & E). apply get_ok in E1 as [_ ->].
  destruct (negb _ && _); [by eapply soundR_read_errors|]. apply driver_step in E as ([] & s1 & E1 & E). apply modify_ok in E1 as ->.
  etransitivity; [by apply (sound_put_thread None th T (looper_or BINDER_LOOPER_STATE_WAITING T))|]. by_keepR E.
Qed.
Hint Resolve soundR_read_retry : keepsR.
Lemma soundR_thread_read cur p th buf size c : keepsR (M := M) (keeps_sound None) (binder_thread_read cur p th buf size c).
Proof. unfold binder_thread_read. keepR. Qed.
Lemma soundR_thread_resume cur p th buf size c w ptr ret : keepsR (M := M) (keeps_sound None) (binder_thread_resume cur p th buf size c w ptr ret).
Proof. unfold binder_thread_resume. keepR. Qed.
Hint Resolve soundR_thread_read soundR_thread_resume : keepsR.

(** ** Threads *)
Lemma sound_release_one w : keeps (keeps_sound None) (release_one w).
Proof. destruct w; cbn [release_one]; keep. Qed.
Hint Resolve sound_release_one : keeps.
Lemma sound_release_work_loop k h : keeps (keeps_sound None) (release_work_loop k h).
Proof. induction k as [|k IH]; cbn [release_work_loop]; unfold list_head; keep. Qed.
Hint Resolve sound_release_work_loop : keeps.
Lemma sound_release_work h : keeps (keeps_sound None) (binder_release_work h).
Proof. unfold binder_release_work. keep. Qed.
Hint Resolve sound_release_work : keeps.
(** A thread without a stack. *)
Lemma sound_new_thread th T : th_transaction_stack T = None -> keeps (keeps_sound None) (put_thread th T).
Proof.
  intros HT. apply keeps_modify. intros s [[Ha [O1 O2 O3 O4]] _]. split; [|done]. split; [done|]. split; try done. cbn.
  intros u U t. destruct (decide (u = th)) as [->|]; [rewrite lookup_insert_eq; intros [= <-]; congruence|rewrite lookup_insert_ne by done; eauto].
Qed.
Lemma sound_get_thread cur p : keeps (keeps_sound None) (binder_get_thread cur p).
Proof.
  unfold binder_get_thread. pose proof (fun th => sound_new_thread th (MkThread p (tk_pid cur) BINDER_LOOPER_STATE_NEED_RETURN None BR_OK BR_OK) eq_refl).
  keep.
Qed.
Lemma sound_unlink_stack k th (t : option Z) act : keeps (keeps_sound None) (unlink_stack k th t act).
Proof.
  revert t act. induction k as [|k IH]; intros t act; cbn [unlink_stack]; destruct t as [t|]; try solve [keep].
  intros s x s' E. apply bind_ok in E as (T & s1 & HT & E). apply get_obj_ok in HT as [HT ->].
  destruct (is_some_eq _ _); [|destruct (is_some_eq _ _)].
  - apply bind_ok in E as ([] & s1 & E1 & E). apply modify_ok in E1 as ->. etransitivity; [|by_keep (keeps_sound None) E]. by eapply sound_put_txn.
  - apply bind_ok in E as ([] & s1 & E1 & E). apply modify_ok in E1 as ->. etransitivity; [|by_keep (keeps_sound None) E]. by eapply sound_put_txn.
  - by_keep (keeps_sound None) E.
Qed.
Hint Resolve sound_get_thread sound_unlink_stack : keeps.
Lemma sound_free_thread_op p th : keeps (keeps_sound None) (binder_free_thread p th).
Proof. unfold binder_free_thread. keep. Qed.
Hint Resolve sound_free_thread_op : keeps.
Lemma sound_poll cur p : keeps (keeps_sound None) (binder_poll cur p).
Proof. unfold binder_poll, binder_has_proc_work, binder_has_thread_work, list_empty. keep. Qed.

(** ** [ioctl] *)
Lemma soundR_write_read_out ubuf bwr ret : keepsR (M := M) (keeps_sound None) (write_read_out ubuf bwr ret).
Proof. intros s m x s' m' E. unfold write_read_out in E. destruct (copy_to_user _ _ _). by injection E as _ <- _. Qed.
Hint Resolve soundR_write_read_out : keepsR.
Hint Resolve sound_thread_write : keeps.
Lemma soundR_ioctl_write_read cur p th cmd ubuf : keepsR (M := M) (keeps_sound None) (binder_ioctl_write_read cur p th cmd ubuf).
Proof.
  intros s m x s' m' E. unfold binder_ioctl_write_read, after_read in E. destruct (negb _); [by injection E as _ <- _|].
  destruct (copy_from_user _ _ _) as [l|]; [|by injection E as _ <- _]. cbn zeta in E. by_keepR E.
Qed.
Lemma soundR_ioctl_resume cur p th arg bwr w ptr ret : keepsR (M := M) (keeps_sound None) (binder_ioctl_resume cur p th arg bwr w ptr ret).
Proof. unfold binder_ioctl_resume, write_read_resume, after_read, ioctl_done, clear_need_return. keepR. Qed.
Lemma sound_set_ctx_mgr cur p : keeps (keeps_sound None) (binder_ioctl_set_ctx_mgr cur p).
Proof. unfold binder_ioctl_set_ctx_mgr. keep. Qed.
Lemma soundR_ioctl_done th x : keepsR (M := M) (keeps_sound None) (ioctl_done th x).
Proof. unfold ioctl_done, clear_need_return. keepR. Qed.
Hint Resolve soundR_ioctl_write_read soundR_ioctl_done : keepsR.
Hint Resolve sound_set_ctx_mgr : keeps.
Lemma soundR_ioctl cur p cmd arg : keepsR (M := M) (keeps_sound None) (binder_ioctl cur p cmd arg).
Proof.
  unfold binder_ioctl. keepR.
  - intros s m x s' m' E. apply in_driver_ok in E as (y & _ & E & _). by_keep (keeps_sound None) E.
  - intros s m x s' m' E. destruct (put_user _ _ _ _). by injection E as _ <- _.
Qed.

(** ** Files *)
Lemma sound_defer_work p x : keeps (keeps_sound None) (binder_defer_work p x).
Proof. unfold binder_defer_work. keep. case_bool_decide; by apply sound_same. Qed.
Hint Resolve sound_defer_work : keeps.
Lemma sound_vma_close p : keeps (keeps_sound None) (binder_vma_close p).
Proof. unfold binder_vma_close. pose proof (sound_mod_area None p _ area_unmap). keep. Qed.
Lemma sound_flush p : keeps (keeps_sound None) (binder_flush p).
Proof. unfold binder_flush. keep. Qed.
Lemma sound_release p : keeps (keeps_sound None) (binder_release p).
Proof. unfold binder_release. keep. Qed.
Lemma sound_open cur : keeps (keeps_sound None) (binder_open cur).
Proof.
  unfold binder_open. keep. intros s x s' E. apply modify_ok in E as ->. intros [[Ha Ho] _]. split; [|done]. split; [|by destruct Ho].
  intros q Q. cbn. destruct (decide (q = z)) as [->|]; [rewrite lookup_insert_eq; intros [= <-]; right; done|rewrite lookup_insert_ne by done; eauto].
Qed.
(** The mapping, in a kernel that hands out areas of whole pages. *)
Lemma sound_put_proc_later o p s s1 P P' : procs s1 !! p = Some P -> keeps_sound o s s1 -> (area_ok (p_alloc P) -> area_ok (p_alloc P')) ->
  keeps_sound o s (set_procs s1 (<[p := P']> (procs s1))).
Proof. intros HP Hs Ha. etransitivity; [exact Hs|]. by eapply sound_put_proc. Qed.
Lemma kzalloc_procs s x s' : kzalloc s = Ok (x, s') -> procs s' = procs s.
Proof. unfold kzalloc, new_ticket. intros E. run_inv. done. Qed.
Lemma new_ticket_procs s x s' : new_ticket s = Ok (x, s') -> procs s' = procs s.
Proof. unfold new_ticket. intros E. run_inv. done. Qed.
Lemma sound_mmap cur p area v : (forall base, let size := Z.min (vm_end v - vm_start v) SZ_4M in area size = Some base -> good_area base size) ->
  keeps (keeps_sound None) (binder_mmap cur p area v).
Proof.
  intros Hg. unfold binder_mmap. intros s x s' E. apply bind_ok in E as (P & s1 & HP & E). apply get_obj_ok in HP as [HP ->]. cbn zeta in E.
  do 3 (match type of E with (if ?c then _ else _) _ = _ => destruct c; [by apply ret_ok in E as [_ ->]|] end).
  match type of E with context [area ?z] => assert (z = Z.min (vm_end v - vm_start v) SZ_4M) as Ez end.
  { destruct (Z.ltb_spec SZ_4M (vm_end v - vm_start v)); cbn; lia. }
  rewrite Ez in E. specialize (Hg). destruct (area _) as [base|] eqn:Ea; [|by apply ret_ok in E as [_ ->]]. specialize (Hg base Ea).
  apply bind_ok in E as (o & s1 & E1 & E). kept (keeps_sound None) E1 S1. apply kzalloc_procs in E1. rewrite <- E1 in HP.
  destruct o as [pages|].
  - apply bind_ok in E as (tk & s2 & E2 & E). kept (keeps_sound None) E2 S2. apply new_ticket_procs in E2. rewrite <- E2 in HP.
    assert (keeps_sound None s s2) as S12 by by etransitivity.
    apply bind_ok in E as (o & s3 & E3 & E). apply klift_ok in E3 as [E3 ->].
    destruct o as [al|]; run_inv; (eapply sound_put_proc_later; [exact HP|exact S12|]); intros _; cbn; [by eapply area_mmap|by right].
  - run_inv. eapply sound_put_proc_later; [exact HP|exact S1|]. intros _. by right.
Qed.

(** ** Deferred work *)
Lemma sound_need_return (l : list Z) : keeps (keeps_sound None) (need_return l).
Proof. induction l as [|th l IH]; cbn [need_return]; keep. Qed.
Hint Resolve sound_need_return : keeps.
Lemma sound_deferred_flush p : keeps (keeps_sound None) (binder_deferred_flush p).
Proof. unfold binder_deferred_flush. keep. Qed.
Lemma sound_tell_refs (l : list Z) c : keeps (keeps_sound None) (tell_refs l c).
Proof. revert c. induction l as [|r l IH]; intros c; cbn [tell_refs]; keep. Qed.
Hint Resolve sound_tell_refs sound_deferred_flush : keeps.
Lemma sound_node_release n c : keeps (keeps_sound None) (binder_node_release n c).
Proof. unfold binder_node_release. keep. Qed.
Hint Resolve sound_node_release : keeps.
Lemma sound_drain_threads k p : keeps (keeps_sound None) (drain_threads k p).
Proof. induction k as [|k IH]; cbn [drain_threads]; keep. Qed.
Lemma sound_drain_nodes k p c : keeps (keeps_sound None) (drain_nodes k p c).
Proof.
  revert c. induction k as [|k IH]; intros c; cbn [drain_nodes]; intros s x s' E; apply bind_ok in E as (P & s1 & HP & E);
    apply get_obj_ok in HP as [HP ->]; (destruct (in_order (p_nodes P)) as [|n l]; [by apply ret_ok in E as [_ ->]|]); [done|].
  apply bind_ok in E as (N & s1 & HN & E). apply get_obj_ok in HN as [_ ->]. apply bind_ok in E as ([] & s1 & E1 & E). apply modify_ok in E1 as ->.
  etransitivity; [|by_keep (keeps_sound None) E]. by eapply sound_put_proc.
Qed.
Lemma sound_drain_refs k p : keeps (keeps_sound None) (drain_refs k p).
Proof. induction k as [|k IH]; cbn [drain_refs]; keep. Qed.
Lemma sound_drain_buffers k p : keeps (keeps_sound None) (drain_buffers k p).
Proof.
  induction k as [|k IH]; cbn [drain_buffers]; intros s x s' E; apply bind_ok in E as (P & s1 & HP & E);
    apply get_obj_ok in HP as [HP ->]; (destruct (inorder _) as [|b l]; [by apply ret_ok in E as [_ ->]|]); [done|].
  apply bind_ok in E as (v & s1 & Ev & E). apply get_buf_ok in Ev as (-> & Q & HQ & Ev).
  apply bind_ok in E as ([] & s1 & E1 & E). transitivity s1; [|by_keep (keeps_sound None) E].
  destruct (b_transaction v); [|by apply ret_ok in E1 as [_ ->]]. by eapply sound_unlink_buf.
Qed.
Hint Resolve sound_drain_threads sound_drain_nodes sound_drain_refs sound_drain_buffers : keeps.
Lemma sound_free_proc p : keeps (keeps_sound None) (free_proc p).
Proof.
  unfold free_proc. keep. intros [[Ha Ho] _]. split; [|done]. split; [|by destruct Ho]. intros q Q. cbn. intros [_ HQ]%lookup_delete_Some. eauto.
Qed.
Hint Resolve sound_free_proc : keeps.
Lemma sound_deferred_release p : keeps (keeps_sound None) (binder_deferred_release p).
Proof. unfold binder_deferred_release. keep. Qed.
Hint Resolve sound_deferred_release : keeps.
Lemma sound_deferred_round : keeps (keeps_sound None) deferred_round.
Proof.
  unfold deferred_round. apply keeps_bind; [apply _|keep|]. intros [|p l]; [keep|]. apply keeps_bind; [apply _|keep|]. intros [].
  intros s x s' E. apply bind_ok in E as (P & s1 & HP & E). apply get_obj_ok in HP as [HP ->]. cbn zeta in E.
  apply bind_ok in E as ([] & s1 & E1 & E). apply modify_ok in E1 as ->. etransitivity; [|by_keep (keeps_sound None) E]. by eapply sound_put_proc.
Qed.
Hint Resolve sound_deferred_round : keeps.
Lemma sound_deferred_rounds k : keeps (keeps_sound None) (deferred_rounds k).
Proof. induction k as [|k IH]; cbn [deferred_rounds]; keep. Qed.
Hint Resolve sound_deferred_rounds : keeps.
Lemma sound_deferred_func : keeps (keeps_sound None) binder_deferred_func.
Proof. unfold binder_deferred_func. keep. Qed.
End Files.
