(* ===== verification/EndsOps.v ===== *)
(** * Commands and returns that end

    The search for a waiting caller ends because transactions point to older ones; the
    loop over the commands because each takes four bytes at least; the loop over the
    work because every entry is done with after five rounds. *)
From S2P Require Import Prelude UserMem RbTree Alloc Protocol Kernel Refs Transact Send Write Read Driver KernelWp Keeps SendSpec FailedReply Ends Sound NodeCommands TablesFiles.

Implicit Types (p n r d t th b ptr : Z) (s : kstate).
#[export] Hint Resolve no_hang_new_ticket no_hang_kzalloc no_hang_get_ref no_hang_log no_hang_reply_target no_hang_send_to
  no_hang_fail_transaction no_hang_stat_bc no_hang_write_refs no_hang_write_refs_done no_hang_write_free_buffer no_hang_register_looper
  no_hang_enter_looper no_hang_exit_looper no_hang_request_death no_hang_clear_death no_hang_dead_binder_done no_hang_fetch : no_hang.

(** An operation that ends in a sound state. *)
Definition ends_sound {A} (m : K A) : Prop := forall s, sound s -> m s ≠ Fault HANG.
Lemma ends_always {A} (m : K A) : no_hang m -> ends_sound m.
Proof. intros H s _. apply H. Qed.
Lemma ends_bind {A B} (m : K A) (f : A -> K B) : ends_sound m -> keeps (keeps_sound None) m -> (forall a, ends_sound (f a)) -> ends_sound (m ≫= f).
Proof.
  intros Hm Hk Hf s Hs. apply bind_no_hang_at; [by apply Hm|]. intros a s1 E. apply Hf. by apply (Hk s a s1 E).
Qed.
Lemma ends_then {E A B} (m : stage E A) (f : A -> stage E B) : ends_sound m -> keeps (keeps_sound None) m -> (forall a, ends_sound (f a)) -> ends_sound (and_then m f).
Proof. intros Hm Hk Hf. apply ends_bind; [done..|]. intros [e|a]; [by apply ends_always|apply Hf]. Qed.
Lemma ends_does {E A} (m : K A) : ends_sound m -> keeps (keeps_sound None) m -> ends_sound (does (E := E) m).
Proof. intros Hm Hk. apply ends_bind; [done..|]. intros a. by apply ends_always. Qed.

Section Ops.
Context {M : Type} `{uops : UserOps M} {ulaws : UserLaws uops} {urange : UserRange uops}.
Context `{env : KernelEnv} `{rb : RbOps} {laws : RbLaws rb} `{jk : Junk}.
Hint Resolve sound_log sound_transaction sound_stat_bc sound_write_command sound_reply_target : keeps.
Create HintDb ends.
Ltac ending := repeat first [solve [eauto with ends nocore]|apply ends_always; solve [ends_here]|apply ends_bind; [|solve [keep]|intros ?]
  |apply ends_then; [|solve [keep]|intros ?]|apply ends_does; [|solve [keep]]|case_match|cbn zeta].

(** ** The waiting caller *)
Definition older (ts : gmap Z Kernel.binder_transaction) t : nat := size (filter (fun kv => kv.1 <= t) ts).
Lemma older_less ts t t' T : ts !! t = Some T -> t' < t -> (older ts t' < older ts t)%nat.
Proof.
  intros HT Ht. apply map_subset_size. split.
  - apply map_subseteq_spec. intros k V. rewrite !map_lookup_filter_Some. cbn. intros [HV Hk]. split; [done|lia].
  - intros Hs. assert (filter (fun kv => kv.1 <= t) ts !! t = Some T) as HT' by (apply map_lookup_filter_Some; cbn; split; [done|lia]).
    eapply lookup_weaken in HT'; [|exact Hs]. apply map_lookup_filter_Some in HT' as [_ Hc]. cbn in Hc. lia.
Qed.
Lemma older_size ts t : (older ts t <= size ts)%nat.
Proof. apply map_subseteq_size, map_filter_subseteq. Qed.
Lemma caller_in_ends k tp t (found : option Z) s : ordered s -> (older (txns s) t < k)%nat -> caller_in (S k) tp (Some t) found s ≠ Fault HANG.
Proof.
  revert t found. induction k as [|k IH]; intros t found Ho Hk; [lia|]. cbn [caller_in].
  apply bind_no_hang; [ends_here|]. intros T s1 HT. apply get_obj_ok in HT as [HT ->].
  apply bind_no_hang; [ends_here|]. intros found' s1 E.
  assert (s1 = s) as -> by (destruct (t_from T); [apply bind_ok in E as (U & s2 & HU & E); apply get_obj_ok in HU as [_ ->]|]; by apply ret_ok in E as [_ ->]).
  destruct (t_from_parent T) as [t'|] eqn:Ep; [|done]. pose proof (or_from s Ho t T t' HT Ep).
  pose proof (older_less (txns s) t t' T HT ltac:(lia)). apply (IH t' found' Ho). lia.
Qed.
Lemma caller_search_ends tp t (f : option Z -> target) :
  ends_sound (count <~ does (get (fun s => size (txns s))); found <~ does (caller_in (S (S count)) tp (Some t) None); goes (E := exit_) (f found)).
Proof.
  intros s Hs. apply bind_no_hang; [ends_here|]. intros x s1 E. apply does_ok in E as (k & -> & E). apply get_ok in E as [-> ->].
  apply bind_no_hang_at; [|by intros [] ? _]. apply bind_no_hang_at; [|done].
  apply caller_in_ends; [apply Hs|]. pose proof (older_size (txns s) t). lia.
Qed.
Hint Resolve caller_search_ends : ends.
Lemma call_target_ends p th tr e : ends_sound (call_target p th tr e).
Proof. unfold call_target. ending. Qed.
Hint Resolve call_target_ends : ends.
Lemma transaction_ends u cur p th tr reply : 0 <= td_data_size tr < 2 ^ 64 -> 0 <= td_offsets_size tr < 2 ^ 64 ->
  ends_sound (binder_transaction u cur p th tr reply).
Proof.
  intros Hds Hos. pose proof (fun tg e => sound_send_to u cur p th tr tg e Hds Hos).
  assert (keeps (keeps_sound None) (fun s => let '(e, l) := binder_transaction_log_add (tlog s) in Ok (e, set_tlog s l))).
  { intros s x s' E. destruct (binder_transaction_log_add _). injection E as _ <-. by apply sound_same. }
  unfold binder_transaction. ending.
Qed.

(** ** The commands *)
Lemma write_command_ends u cur p th cmd ptr : ends_sound (write_command u cur p th cmd ptr).
Proof.
  unfold write_command. do 4 (case_match; [solve [ending]|]). case_match; [|solve [ending]].
  destruct (copy_from_user u ptr _) as [l|] eqn:El; [|ending].
  destruct (txn_sizes l (copy_from_user_bytes _ _ _ _ El) (copy_from_user_length _ _ _ _ El)) as [Hds Hos].
  pose proof (transaction_ends u cur p th (txn_of_bytes l) (cmd =? BC_REPLY) Hds Hos).
  pose proof (sound_transaction u cur p th (txn_of_bytes l) (cmd =? BC_REPLY) Hds Hos). ending; done.
Qed.
Hint Resolve write_command_ends : ends.

(** A command leaves the address behind its arguments. *)
Lemma fetch_ok u ptr w s x s' : (0 < w)%nat -> fetch u ptr w s = Ok (inr x, s') -> s' = s /\ 0 <= ptr /\ ptr + Z.of_nat w < 2 ^ 64.
Proof.
  unfold fetch, get_user. intros Hw E. destruct (copy_from_user u ptr w) as [l|] eqn:El; [|done]. cbn in E. injection E as _ <-.
  by destruct (copy_from_user_range _ _ _ _ Hw El).
Qed.
Lemma step_small ptr n : 0 <= ptr -> 0 <= n -> ptr + n < 2 ^ 64 -> step ptr n = ptr + n.
Proof. intros H1 H2 H3. unfold step. apply u64_small. lia. Qed.
Definition behind (ptr : Z) {E} (m : stage E Z) : Prop := forall s ptr' s', m s = Ok (inr ptr', s') -> ptr <= ptr' < 2 ^ 64.
Lemma behind_goes {E} ptr ptr' : ptr <= ptr' < 2 ^ 64 -> behind ptr (goes (E := E) ptr').
Proof. by intros H s q s' [= <- _]. Qed.
Lemma behind_exits {E} ptr (e : E) : behind ptr (exits e).
Proof. done. Qed.
Lemma behind_then {E A} ptr (m : stage E A) f : (forall a, behind ptr (f a)) -> behind ptr (and_then m f).
Proof. intros H s q s' E1. apply and_then_ok in E1 as [(e & _ & ?)|(a & s1 & _ & E1)]; [done|]. by eapply H. Qed.
Lemma behind_fetch ptr u q w f : (0 < w)%nat -> (forall a, 0 <= q -> q + Z.of_nat w < 2 ^ 64 -> behind ptr (f a)) -> behind ptr (and_then (fetch u q w) f).
Proof.
  intros Hw H s q' s' E1. apply and_then_ok in E1 as [(e & _ & ?)|(a & s1 & E0 & E1)]; [done|].
  apply fetch_ok in E0 as (-> & H0 & H1); [|done]. by eapply H.
Qed.
Lemma write_command_behind u cur p th cmd ptr : 0 <= ptr < 2 ^ 64 -> behind ptr (write_command u cur p th cmd ptr).
Proof.
  intros Hp. unfold write_command. repeat case_match; try apply behind_exits.
  all: repeat first [apply behind_fetch; [lia|intros ? ? ?]|apply behind_then; intros ?]; apply behind_goes; try lia.
  4: match goal with H : copy_from_user _ _ _ = Some _ |- _ => apply copy_from_user_range in H as [_ H]; [|unfold sizeof_binder_transaction_data; lia] end;
    rewrite step_small; unfold sizeof_binder_transaction_data in *; lia.
  all: repeat match goal with H : context [step ?q ?k] |- _ => rewrite (step_small q k) in H by lia end; rewrite step_small; lia.
Qed.

Lemma write_loop_ends k u cur p th buf ptr e c : 0 <= ptr < 2 ^ 64 -> 0 <= e < 2 ^ 64 -> (Z.to_nat ((e - ptr + 3) / 4) < k)%nat ->
  ends_sound (write_loop k u cur p th buf ptr e c).
Proof.
  revert ptr c. induction k as [|k IH]; intros ptr c Hp He Hk; [lia|]. cbn [write_loop].
  apply ends_bind; [apply ends_always; ends_here|keep|]. intros T. destruct (negb _) eqn:Eb; [by apply ends_always|].
  apply negb_false_iff, andb_true_iff in Eb as [Hlt _]. apply Z.ltb_lt in Hlt.
  unfold get_user. destruct (copy_from_user u ptr 4) as [l|] eqn:El; [|by apply ends_always]. cbn [fmap option_fmap option_map].
  apply copy_from_user_range in El as [_ Hr]; [|lia].
  apply ends_bind; [apply ends_always; ends_here|keep|]. intros [] s Hs.
  apply bind_no_hang_at; [by apply write_command_ends|]. intros [ret|ptr'] s1 E1; [done|].
  assert (ptr + 4 <= ptr' < 2 ^ 64) as Hb.
  { rewrite (step_small ptr 4) in E1 by lia. eapply write_command_behind; [|exact E1]. lia. }
  apply IH; [lia|lia| |by apply (sound_write_command _ _ _ _ _ _ _ _ _ E1)].
  assert (e - ptr' + 3 <= (e - ptr + 3) + (-1) * 4) as Hd by lia. apply (Z.div_le_mono _ _ 4) in Hd; [|lia]. rewrite Z.div_add in Hd by lia.
  assert (1 <= (e - ptr + 3) / 4) by (apply Z.div_le_lower_bound; lia). lia.
Qed.
Lemma thread_write_ends u cur p th buf size c : ends_sound (binder_thread_write u cur p th buf size c).
Proof. unfold binder_thread_write. apply write_loop_ends; [apply u64_range..|lia]. Qed.
End Ops.

(** ** Reads that end

    [read_loop] goes on until the lists are empty or the buffer is full; every round
    but the last makes the work that is left less. *)

Implicit Types (w : work).

(** ** Operations with memory *)
Definition no_hangR {M A} (x : R M A) : Prop := forall s m, x s m ≠ Fault HANG.

Section Rules.
Context {M : Type} `{uops : UserOps M}.
Lemma no_hangR_ret {A} (a : A) : no_hangR (M := M) (mret a).
Proof. done. Qed.
Lemma no_hangR_bind {A B} (x : R M A) (f : A -> R M B) : no_hangR x -> (forall a, no_hangR (f a)) -> no_hangR (x ≫= f).
Proof.
  intros Hx Hf s m. unfold mbind, R_bind. destruct (x s m) as [[[[e|a] s1] m1]|e] eqn:E; [done|apply Hf|].
  intros [= ->]. by apply (Hx s m).
Qed.
Lemma no_hangR_driver {A} (x : K A) : no_hang x -> no_hangR (M := M) (in_driver x).
Proof. intros Hx s m. unfold in_driver. destruct (x s) as [[a s1]|e] eqn:E; [done|]. intros [= ->]. by apply (Hx s). Qed.
Lemma no_hangR_put_bytes ptr l : no_hangR (M := M) (put_bytes ptr l).
Proof. intros s m. unfold put_bytes. by destruct (copy_to_user m ptr l). Qed.
Lemma no_hangR_catching {A} (x : R M A) f : no_hangR x -> no_hangR (catching x f).
Proof. intros Hx s m. unfold catching. specialize (Hx s m). by destruct (x s m) as [[[[e|a] s1] m1]|e]. Qed.
(** What follows may depend on the outcome. *)
Lemma bind_no_hangR {A B} (x : R M A) (f : A -> R M B) s m : x s m ≠ Fault HANG ->
  (forall a s1 m1, x s m = Ok (inr a, s1, m1) -> f a s1 m1 ≠ Fault HANG) -> (x ≫= f) s m ≠ Fault HANG.
Proof.
  intros Hx Hf. unfold mbind, R_bind. destruct (x s m) as [[[[e|a] s1] m1]|e] eqn:E; [done|by apply Hf|]. intros [= ->]. done.
Qed.
End Rules.
Create HintDb no_hangR.
Ltac no_hangR1 :=
  lazymatch goal with
  | |- forall _, _ => intros ?
  | |- no_hangR (mret _) => apply no_hangR_ret
  | |- no_hangR (_ ≫= _) => apply no_hangR_bind
  | |- no_hangR (in_driver _) => apply no_hangR_driver; ends_here
  | |- no_hangR (catching _ _) => apply no_hangR_catching
  | |- no_hangR (put_bytes _ _) => apply no_hangR_put_bytes
  | |- no_hangR (put_word _ _ _) => apply no_hangR_put_bytes
  | |- no_hangR (if ?c then _ else _) => destruct c
  | |- no_hangR (match ?x with _ => _ end) => destruct x
  | |- no_hangR (let '(_, _) := ?x in _) => destruct x
  end.
Ltac endsR := repeat first [solve [eauto with no_hangR nocore]|no_hangR1; cbn beta zeta].

Section Reads.
Context {M : Type} `{uops : UserOps M}.
Context `{env : KernelEnv} `{rb : RbOps} `{jk : Junk}.
Hint Resolve no_hang_set_nice no_hang_free_node no_hang_free_death no_hang_free_txn no_hang_get_buf no_hang_put_buf no_hang_mod_buf : no_hang.

Lemma no_hang_stat_br p th cmd : no_hang (binder_stat_br p th cmd).
Proof. unfold binder_stat_br. ends_here. Qed.
Lemma no_hang_take_priority cur t N : no_hang (take_priority cur t N).
Proof. unfold take_priority. ends_here. Qed.
Lemma no_hang_next_work p th (wp : bool) : no_hang (next_work p th wp).
Proof. unfold next_work, list_head. ends_here. Qed.
Hint Resolve no_hang_stat_br no_hang_take_priority no_hang_next_work : no_hang.
Lemma read_node_ends p th n ptr : no_hangR (M := M) (read_node p th n ptr).
Proof. unfold read_node. endsR. Qed.
Lemma read_complete_ends p th c ptr : no_hangR (M := M) (read_complete p th c ptr).
Proof. unfold read_complete. endsR. Qed.
Lemma read_death_ends p th d ptr : no_hangR (M := M) (read_death p th d ptr).
Proof. unfold read_death. endsR. Qed.
Lemma read_transaction_ends cur p th t ptr : no_hangR (M := M) (read_transaction cur p th t ptr).
Proof. unfold read_transaction. endsR. Qed.

(** ** The work that is left *)
Definition rank s w : nat := match w with WNode n => match nodes s !! n with Some N => S (rounds_left N) | None => 1 end | _ => 1 end.
Definition waiting p th s : list work := list_of (TodoThread th) s ++ list_of (TodoProc p) s.
Definition work_left p th s : nat := sum_list_with (rank s) (waiting p th s).

Lemma rank_pos s w : (1 <= rank s w <= 5)%nat.
Proof. destruct w; cbn; try lia. case_match; [|lia]. pose proof (rounds_left_bound b). lia. Qed.
Lemma work_left_bound p th s : (work_left p th s <= 5 * (length (list_of (TodoThread th) s) + length (list_of (TodoProc p) s)))%nat.
Proof.
  unfold work_left, waiting. rewrite <- length_app. generalize (list_of (TodoThread th) s ++ list_of (TodoProc p) s) as l.
  induction l as [|w l IH]; cbn; [lia|]. pose proof (rank_pos s w). lia.
Qed.
Lemma sum_less (f f' : work -> nat) w l : (forall w', w' ≠ w -> f' w' = f w') -> w ∈ l ->
  (f' w < f w)%nat -> (sum_list_with f' l < sum_list_with f l)%nat.
Proof.
  intros Hf Hw Hlt. assert (forall w', f' w' <= f w')%nat as Hle by (intros w'; destruct (decide (w' = w)) as [->|H]; [lia|by rewrite Hf]).
  induction l as [|x l IH]; [by apply elem_of_nil in Hw|]. cbn. apply elem_of_cons in Hw as [<-|Hw].
  - assert (sum_list_with f' l <= sum_list_with f l)%nat; [|lia]. clear IH. induction l as [|y l IH]; cbn; [lia|]. pose proof (Hle y). lia.
  - specialize (IH Hw). pose proof (Hle x). lia.
Qed.
Lemma sum_del (f : work -> nat) w l : w ∈ l -> (0 < f w)%nat -> (sum_list_with f (list_del w l) < sum_list_with f l)%nat.
Proof.
  intros Hw Hpos. assert (forall l, sum_list_with f (list_del w l) <= sum_list_with f l)%nat as Hle.
  { clear. intros l. unfold list_del. induction l as [|x l IH]; [done|]. rewrite filter_cons. case_decide; cbn; lia. }
  induction l as [|x l IH]; [by apply elem_of_nil in Hw|]. unfold list_del in *. rewrite filter_cons. apply elem_of_cons in Hw as [<-|Hw].
  - rewrite decide_False by tauto. cbn. specialize (Hle l). lia.
  - specialize (IH Hw). case_decide; cbn; lia.
Qed.

(** An entry that is taken off the lists; or a round of a node. *)
Lemma work_left_del p th s s' w : lists s' = list_del w <$> lists s -> (forall w', w' ≠ w -> rank s' w' = rank s w') -> w ∈ waiting p th s ->
  (work_left p th s' < work_left p th s)%nat.
Proof.
  intros El Hr Hw. unfold work_left. assert (waiting p th s' = list_del w (waiting p th s)) as ->.
  { unfold waiting, list_of. rewrite El, !lookup_fmap, list_del_app. by destruct (lists s !! TodoThread th), (lists s !! TodoProc p). }
  pose proof (sum_del (rank s) w _ Hw ltac:(pose proof (rank_pos s w); lia)) as H.
  enough (sum_list_with (rank s') (list_del w (waiting p th s)) = sum_list_with (rank s) (list_del w (waiting p th s))) by lia.
  unfold list_del. clear H Hw. induction (waiting p th s) as [|x l IH]; [done|]. rewrite filter_cons. case_decide; cbn; [|done]. by rewrite Hr, IH.
Qed.
Lemma work_left_node p th s n N N' : nodes s !! n = Some N -> (rounds_left N' < rounds_left N)%nat -> WNode n ∈ waiting p th s ->
  forall s', nodes s' = <[n := N']> (nodes s) -> lists s' = lists s -> (work_left p th s' < work_left p th s)%nat.
Proof.
  intros HN Hl Hw s' En El. unfold work_left. assert (waiting p th s' = waiting p th s) as -> by (unfold waiting, list_of; by rewrite El).
  apply (sum_less _ _ (WNode n)); [|done|].
  - intros [t|c|m|d]; try done. intros Hne. cbn. rewrite En, lookup_insert_ne by congruence. done.
  - cbn. rewrite En, lookup_insert_eq, HN. lia.
Qed.

(** ** What a round does to the lists *)
Definition same_work s s' : Prop := lists s' = lists s /\ nodes s' = nodes s.
#[local] Instance same_work_preorder : PreOrder same_work.
Proof. split; [done|]. intros s1 s2 s3 [A1 A2] [B1 B2]. split; congruence. Qed.
Lemma work_stats ty : keeps same_work (binder_stats_deleted ty).
Proof. by intros s x s' [= _ <-]. Qed.
Lemma work_stat_br p th cmd : keeps same_work (binder_stat_br p th cmd).
Proof. unfold binder_stat_br, bump. keep; done. Qed.
Lemma work_free_death d : keeps same_work (free_death d).
Proof. unfold free_death. keep; done. Qed.
Hint Resolve work_stats work_stat_br work_free_death : keeps.
Lemma put_bytes_ok ptr l s (m : M) x s' m' : put_bytes ptr l s m = Ok (x, s', m') -> s' = s.
Proof. unfold put_bytes. destruct (copy_to_user m ptr l). by intros [= _ <- _]. Qed.
(** Words written, then what follows. *)
Lemma put_word_step {B} ptr width v (f : Z -> R M B) s m (b : B) s' m' : (put_word ptr width v ≫= f) s m = Ok (inr b, s', m') ->
  exists q m1, f q s m1 = Ok (inr b, s', m').
Proof.
  intros [(e & _ & ?)|(q & s1 & m1 & E1 & E)]%R_bind_ok; [done|]. apply put_bytes_ok in E1 as ->. eauto.
Qed.

Definition taken w s s' : Prop := lists s' = list_del w <$> lists s /\ nodes s' = nodes s.
Lemma taken_after w s s1 s2 s' : same_work s s1 -> lists s2 = list_del w <$> lists s1 -> nodes s2 = nodes s1 -> same_work s2 s' -> taken w s s'.
Proof. intros [A1 A2] B1 B2 [C1 C2]. split; congruence. Qed.

Lemma read_complete_takes p th c ptr s (m : M) q s' m' : read_complete p th c ptr s m = Ok (inr q, s', m') -> taken (WComplete c) s s'.
Proof.
  intros E. unfold read_complete in E. apply put_word_step in E as (q1 & m1 & E). apply driver_step in E as ([] & s1 & E1 & E). kept same_work E1 S1.
  apply driver_step in E as ([] & s2 & E2 & E). apply modify_ok in E2 as ->. apply driver_step in E as ([] & s3 & E3 & E). kept same_work E3 S3.
  injection E as _ <- _. eapply taken_after; [exact S1| | |exact S3]; done.
Qed.
Lemma read_death_takes p th d ptr s (m : M) q s' m' : read_death p th d ptr s m = Ok (inr (false, q), s', m') -> taken (WDeath d) s s'.
Proof.
  intros E. unfold read_death in E. apply driver_step in E as (D & s1 & HD & E). apply get_obj_ok in HD as [_ ->]. cbn zeta in E.
  apply put_word_step in E as (q1 & m1 & E). apply put_word_step in E as (q2 & m2 & E).
  apply driver_step in E as ([] & s1 & E1 & E). kept same_work E1 S1. apply driver_step in E as ([] & s2 & E2 & E). apply modify_ok in E2 as ->.
  apply driver_step in E as ([] & s3 & E3 & E). injection E as Ec _ <- _. apply negb_false_iff in Ec. rewrite Ec in E3.
  kept same_work E3 S3. eapply taken_after; [exact S1| | |exact S3]; done.
Qed.

(** A node has one command less to come, or is off the lists. *)
Lemma read_node_less p0 th p n ptr s (m : M) q s' m' : WNode n ∈ waiting p0 th s -> read_node p th n ptr s m = Ok (inr q, s', m') ->
  (work_left p0 th s' < work_left p0 th s)%nat.
Proof.
  intros Hw E. unfold read_node in E. apply driver_step in E as (N & s1 & HN & E). apply get_obj_ok in HN as [HN ->].
  destruct (node_command N) as [[cmd N']|] eqn:Ec.
  - apply driver_step in E as ([] & s1 & E1 & E). apply modify_ok in E1 as ->. do 3 (apply put_word_step in E as (? & ? & E)).
    apply driver_step in E as ([] & s2 & E2 & E). kept same_work E2 S2. injection E as _ <- _. destruct S2 as [El En].
    eapply work_left_node; [exact HN|by eapply node_command_less|done|exact En|exact El].
  - apply driver_step in E as ([] & s1 & E1 & E). apply modify_ok in E1 as ->. apply driver_step in E as ([] & s2 & E2 & E). injection E as _ <- _.
    assert (lists s2 = list_del (WNode n) <$> lists s /\ forall k, k ≠ n -> nodes s2 !! k = nodes s !! k) as [El En].
    { apply when_ok in E2 as [[_ E2]|[_ ->]]; [|done]. unfold free_node, binder_stats_deleted, bump in E2. run_inv. split; [done|].
      intros k Hk. cbn. by rewrite lookup_delete_ne. }
    eapply work_left_del; [exact El| |exact Hw]. intros [t|c|k|d] Hk; try done. cbn. rewrite En; [done|congruence].
Qed.
Lemma taken_less p th w s s' : w ∈ waiting p th s -> taken w s s' -> (work_left p th s' < work_left p th s)%nat.
Proof. intros Hw [El En]. eapply work_left_del; [exact El| |exact Hw]. intros [] _; try done. cbn. by rewrite En. Qed.

Lemma next_work_waiting p th (wp : bool) s w s' : next_work p th wp s = Ok (Some w, s') -> s' = s /\ w ∈ waiting p th s.
Proof.
  intros E. unfold next_work, list_head in E. run_inv. unfold waiting.
  destruct (list_of (TodoThread th) s) as [|w' l] eqn:El; cbn in *.
  - destruct wp; run_inv; [|done]. destruct (list_of (TodoProc p) s); [done|]. cbn in *. split; [done|].
    match goal with H : Some _ = Some _ |- _ => injection H as -> end. left.
  - run_inv. split; [done|]. match goal with H : Some _ = Some _ |- _ => injection H as -> end. left.
Qed.
Lemma read_loop_ends k cur p th (wp : bool) buf ptr e s (m : M) : (work_left p th s < k)%nat -> read_loop k cur p th wp buf ptr e s m ≠ Fault HANG.
Proof.
  revert ptr s m. induction k as [|k IH]; intros ptr s m Hk; [lia|]. cbn [read_loop].
  apply bind_no_hangR; [apply no_hangR_driver; ends_here|]. intros o s1 m1 E. apply in_driver_ok in E as (o' & [= <-] & E & ->).
  destruct o as [w|]; [|enough (H : no_hangR (M := M) _) by apply H; endsR].
  apply next_work_waiting in E as [-> Hw]. destruct (_ <? READ_ROOM); [done|]. destruct w as [t|c|n|d].
  - enough (H : no_hangR (M := M) _) by apply H. apply no_hangR_bind; [apply read_transaction_ends|done].
  - apply bind_no_hangR; [apply read_complete_ends|]. intros q s2 m2 E. apply IH. apply read_complete_takes in E. apply (taken_less p th) in E; [lia|done].
  - apply bind_no_hangR; [apply read_node_ends|]. intros q s2 m2 E. apply IH. apply (read_node_less p) in E; [lia|done].
  - apply bind_no_hangR; [apply read_death_ends|]. intros [dead q] s2 m2 E. destruct dead; [done|].
    apply IH. apply read_death_takes in E. apply (taken_less p th) in E; [lia|done].
Qed.

(** ** The function *)
Lemma read_done_ends p th buf ptr : no_hangR (M := M) (read_done p th buf ptr).
Proof. unfold read_done. endsR. Qed.
Hint Resolve read_done_ends : no_hangR.
Lemma read_errors_ends p th buf ptr e : no_hangR (M := M) (read_errors p th buf ptr e).
Proof. unfold read_errors. endsR. Qed.
Hint Resolve read_errors_ends : no_hangR.
Lemma read_retry_ends cur p th buf ptr e : no_hangR (M := M) (read_retry cur p th buf ptr e).
Proof. unfold read_retry, list_empty. endsR. Qed.
Hint Resolve read_retry_ends : no_hangR.
Lemma thread_read_ends cur p th buf size c : no_hangR (M := M) (binder_thread_read cur p th buf size c).
Proof. unfold binder_thread_read. endsR. Qed.
Lemma thread_resume_ends cur p th buf size c (wp : bool) ptr ret : no_hangR (M := M) (binder_thread_resume cur p th buf size c wp ptr ret).
Proof.
  unfold binder_thread_resume. do 2 (apply no_hangR_bind; [apply no_hangR_driver; ends_here|]; intros ?). destruct (negb _); [done|].
  intros s m. apply bind_no_hangR; [done|]. intros k s1 m1 E. apply in_driver_ok in E as (k' & [= <-] & E & ->). apply get_ok in E as [-> ->].
  apply bind_no_hangR; [|intros y s2 m2 _; enough (H : no_hangR (M := M) _) by apply H; endsR].
  apply read_loop_ends. unfold read_fuel. pose proof (work_left_bound p th s). lia.
Qed.
End Reads.
