(* ===== verification/ReadBounds.v ===== *)
(** * A read stays in its buffer

    [binder_thread_read] and [binder_thread_resume] (driver/binder/binder.c) write to
    the buffer of the caller only, when the buffer is a whole number of words and not
    empty; what they report as consumed is what they filled. *)
From S2P Require Import Prelude UserMem RbTree Alloc Protocol Kernel Refs Transact Send Write Read Driver Scenario TablesFiles.

Implicit Types (p n d t th ptr q lo size : Z).

Section Confined.
Context {M : Type} `{uops : UserOps M} {ulaws : UserLaws uops}.

(** What user space sees outside [lo, lo + size) is the same in both memories. *)
Definition outside lo size (m m' : M) : Prop :=
  forall q k, q + Z.of_nat k <= lo \/ lo + size <= q -> copy_from_user m' q k = copy_from_user m q k.
#[local] Instance outside_preorder lo size : PreOrder (outside lo size).
Proof. split; [done|]. intros m1 m2 m3 H1 H2 q k Hq. by rewrite H2, H1. Qed.

(** [writes_in lo size x Q]: [x] writes inside only, and where it goes on its value
    satisfies [Q]. *)
Definition writes_in lo size {A} (x : R M A) (Q : A -> Prop) : Prop :=
  forall s m r s' m', x s m = Ok (r, s', m') -> outside lo size m m' /\ forall a, r = inr a -> Q a.

Context (lo size : Z) (Hlo : 0 <= lo) (Hsize : 4 <= size) (Htop : lo + size < 2 ^ 64).

Lemma writes_ret {A} (a : A) (Q : A -> Prop) : Q a -> writes_in lo size (mret a) Q.
Proof. intros HQ s m r s' m' [= <- _ <-]. split; [done|]. by intros a' [= <-]. Qed.
Lemma writes_bind {A B} (x : R M A) (f : A -> R M B) P Q :
  writes_in lo size x P -> (forall a, P a -> writes_in lo size (f a) Q) -> writes_in lo size (x ≫= f) Q.
Proof.
  intros Hx Hf s m r s' m' E. apply R_bind_ok in E as [(e & E & ->)|(a & s1 & m1 & E1 & E)].
  - destruct (Hx _ _ _ _ _ E) as [? _]. by split.
  - destruct (Hx _ _ _ _ _ E1) as [? HP]. destruct (Hf a (HP a eq_refl) _ _ _ _ _ E) as [? ?]. split; [by etransitivity|done].
Qed.
Lemma writes_driver {A} (x : K A) : writes_in lo size (in_driver x) (fun _ => True).
Proof. intros s m r s' m' E. apply in_driver_ok in E as (a & _ & _ & ->). by split. Qed.
Lemma writes_bytes ptr l : lo <= ptr -> ptr + Z.of_nat (length l) <= lo + size ->
  writes_in lo size (put_bytes ptr l) (fun q => q = ptr + Z.of_nat (length l)).
Proof.
  intros H1 H2 s m r s' m' E. unfold put_bytes in E. destruct (copy_to_user m ptr l) as [ok m1] eqn:Ec. injection E as <- <- <-. split.
  - intros q k Hq. apply (copy_to_frame _ _ _ _ _ _ _ Ec). lia.
  - intros a Ha. destruct ok; [|done]. injection Ha as <-. apply u64_small. lia.
Qed.
Lemma writes_word ptr w v : lo <= ptr -> ptr + Z.of_nat w <= lo + size -> writes_in lo size (put_word ptr w v) (fun q => q = ptr + Z.of_nat w).
Proof. unfold put_word. intros H1 H2. pose proof (writes_bytes ptr (le_bytes w v)) as H. rewrite length_le_bytes in H. by apply H. Qed.

Context `{env : KernelEnv} `{rb : RbOps} `{jk : Junk}.
(** Through what only the driver sees. *)
Ltac silent := eapply writes_bind; [apply writes_driver|intros ? _]; cbn beta zeta.
Ltac writing := eapply writes_bind; [first [apply writes_word|apply writes_bytes]; lia|intros ? ->].

(** [inside ptr]: a place in the buffer at which a command may start. *)
Definition inside ptr : Prop := lo <= ptr <= lo + size /\ (ptr - lo) mod 4 = 0.
Lemma inside_more ptr k : inside ptr -> 0 <= k -> k mod 4 = 0 -> ptr + k <= lo + size -> inside (ptr + k).
Proof.
  intros [H1 H2] Hk H4 H. split; [lia|]. replace (ptr + k - lo) with (ptr - lo + k) by lia. by rewrite Z.add_mod, H2, H4.
Qed.
Lemma room_68 : READ_ROOM = 68.
Proof. done. Qed.
Definition after ptr k q : Prop := q = ptr \/ q = ptr + k.
Lemma writes_catching {A} (x : R M A) f (Q : A -> Prop) :
  writes_in lo size x Q -> (forall e, Q (f e)) -> writes_in lo size (catching x f) Q.
Proof.
  intros Hx Hf s m r s' m' E. unfold catching in E. destruct (x s m) as [[[[e|a] s1] m1]|] eqn:Ex; [| |done];
    injection E as <- <- <-; destruct (Hx _ _ _ _ _ Ex) as [? HQ]; (split; [done|]); intros a' [= <-]; auto.
Qed.
Lemma writes_weaken {A} (x : R M A) (P Q : A -> Prop) : writes_in lo size x P -> (forall a, P a -> Q a) -> writes_in lo size x Q.
Proof. intros Hx HQ s m r s' m' E. destruct (Hx _ _ _ _ _ E). split; eauto. Qed.

Lemma writes_read_node p th n ptr : lo <= ptr -> ptr + READ_ROOM <= lo + size -> writes_in lo size (read_node p th n ptr) (after ptr 20).
Proof.
  rewrite room_68. intros H1 H2. unfold read_node. silent. destruct (node_command a) as [[cmd N]|].
  - silent. do 3 writing. silent. apply writes_ret. right. lia.
  - do 2 silent. apply writes_ret. by left.
Qed.
Lemma writes_read_complete p th c ptr : lo <= ptr -> ptr + READ_ROOM <= lo + size -> writes_in lo size (read_complete p th c ptr) (after ptr 4).
Proof. rewrite room_68. intros H1 H2. unfold read_complete. writing. do 3 silent. apply writes_ret. by right. Qed.
Lemma writes_read_death p th d ptr : lo <= ptr -> ptr + READ_ROOM <= lo + size -> writes_in lo size (read_death p th d ptr) (fun x => after ptr 12 x.2).
Proof. rewrite room_68. intros H1 H2. unfold read_death. silent. do 2 writing. do 3 silent. apply writes_ret. cbn. right. lia. Qed.
Lemma writes_read_transaction cur p th t ptr : lo <= ptr -> ptr + READ_ROOM <= lo + size -> writes_in lo size (read_transaction cur p th t ptr) (after ptr 68).
Proof.
  rewrite room_68. intros H1 H2. unfold read_transaction. do 3 silent. silent. destruct a2 as [[cmd tgt] cookie]. do 2 silent.
  writing. match goal with |- context [put_bytes _ ?l] => assert (length l = 64%nat) as E by reflexivity end.
  eapply writes_bind; [apply writes_bytes; rewrite ?E; cbn; lia|intros ? ->]. rewrite E. do 4 silent. apply writes_ret. right. cbn. lia.
Qed.

(** *** The loop *)
Definition stops_inside (e : loop_end) : Prop := match e with LDone q | LRetry q => inside q end.
Lemma inside_after ptr k q : inside ptr -> ptr + READ_ROOM <= lo + size -> 0 <= k <= 68 -> k mod 4 = 0 -> after ptr k q -> inside q.
Proof. rewrite room_68. intros Hp Hr Hk H4 [->| ->]; [done|]. apply inside_more; [done|lia|done|lia]. Qed.
Lemma writes_read_loop k cur p th (w : bool) ptr : inside ptr -> writes_in lo size (read_loop k cur p th w lo ptr (lo + size)) stops_inside.
Proof.
  revert ptr. induction k as [|k IH]; intros ptr Hp; cbn [read_loop]; [by intros s m r s' m' E|].
  silent. destruct a as [w'|]; [|silent; apply writes_ret; by destruct (_ && _)].
  rewrite u64_small by (destruct Hp; lia). destruct (Z.ltb_spec (lo + size - ptr) READ_ROOM); [by apply writes_ret|].
  assert (ptr + READ_ROOM <= lo + size /\ lo <= ptr) as [Hr H1] by (destruct Hp; lia). pose proof (inside_after ptr) as Hi.
  destruct w' as [t|c|n|d]; (eapply writes_bind; [first [by apply writes_read_transaction|by apply writes_read_complete|by apply writes_read_node|by apply writes_read_death]|]).
  - intros q Hq. apply writes_ret. by eapply (Hi 68).
  - intros q Hq. apply IH. by eapply (Hi 4).
  - intros q Hq. apply IH. by eapply (Hi 20).
  - intros [[] q] Hq; [apply writes_ret|apply IH]; by eapply (Hi 12).
Qed.

(** *** The function *)

(** It has filled a number of words from the start of the buffer, or will go on at
    such a place. *)
Definition reported (x : read_state) : Prop :=
  match x with Returned _ c => 0 <= c <= size /\ c mod 4 = 0 | Waiting _ q => inside q end.
Lemma writes_read_done p th ptr : inside ptr -> writes_in lo size (read_done p th lo ptr) reported.
Proof.
  intros [H1 H2]. unfold read_done. do 2 silent. assert (reported (Returned 0 (u64 (ptr - lo)))) as Hr by (cbn; rewrite u64_small by lia; lia).
  destruct (_ && _); [|by apply writes_ret]. silent. apply writes_catching; [|done]. writing. silent. by apply writes_ret.
Qed.
Lemma inside_next ptr : inside ptr -> ptr < lo + size -> size mod 4 = 0 -> ptr + 4 <= lo + size /\ inside (ptr + 4).
Proof.
  intros Hp Hlt H4. assert (ptr + 4 <= lo + size) as H by (destruct Hp as [H1 H2]; apply Z.mod_divide in H2 as [x Hx], H4 as [y Hy]; lia).
  split; [done|]. by apply inside_more.
Qed.

Context (Hwords : size mod 4 = 0).
Lemma writes_read_errors p th ptr : inside ptr -> ptr < lo + size -> writes_in lo size (read_errors p th lo ptr (lo + size)) reported.
Proof.
  intros Hp Hlt. destruct (inside_next ptr Hp Hlt Hwords) as [Hr Hp']. assert (lo <= ptr) by (destruct Hp; lia). unfold read_errors. silent.
  destruct (negb _); writing; silent; [|silent; by apply writes_read_done].
  destruct (Z.eqb_spec (ptr + Z.of_nat 4) (lo + size)); [by apply writes_read_done|].
  destruct (inside_next (ptr + 4) Hp' ltac:(lia) Hwords) as [Hr2 Hp2]. silent. writing. do 2 silent. by apply writes_read_done.
Qed.
Lemma writes_read_retry cur p th ptr : inside ptr -> writes_in lo size (read_retry cur p th lo ptr (lo + size)) reported.
Proof.
  intros Hp. unfold read_retry. do 2 silent. destruct (negb _); cbn [andb]; [destruct (Z.ltb_spec ptr (lo + size)); [by apply writes_read_errors|]|];
    do 2 silent; by apply writes_ret.
Qed.
Lemma writes_thread_read cur p th c : 0 <= c <= size -> c mod 4 = 0 -> writes_in lo size (binder_thread_read cur p th lo size c) reported.
Proof.
  intros Hc H4. unfold binder_thread_read. rewrite !u64_small by lia. eapply writes_bind with (P := inside).
  - destruct (Z.eqb_spec c 0) as [->|]; [|apply writes_ret; split; [lia|]; by replace (lo + c - lo) with c by lia].
    rewrite Z.add_0_r. eapply writes_weaken; [apply writes_word; lia|]. intros q ->. split; [lia|]. by replace (lo + Z.of_nat 4 - lo) with 4 by lia.
  - intros q Hq. by apply writes_read_retry.
Qed.
Lemma writes_thread_resume cur p th c w ptr ret : 0 <= c <= size -> c mod 4 = 0 -> inside ptr ->
  writes_in lo size (binder_thread_resume cur p th lo size c w ptr ret) reported.
Proof.
  intros Hc H4 Hp. unfold binder_thread_resume. rewrite !u64_small by lia. do 2 silent. destruct (negb _); [by apply writes_ret|].
  silent. eapply writes_bind; [by apply writes_read_loop|]. intros [q|q] Hq; [by apply writes_read_done|by apply writes_read_retry].
Qed.
End Confined.

(** C7: a read writes inside its buffer only.  When the buffer is a whole number of
    words, at least one, at addresses that do not wrap, and what was consumed before
    is a whole number of words of it, then everything that user space sees outside the
    buffer is left as it was by [binder_thread_read], up to its wait or its end, and by
    every continuation after a wait; each of them reports a number of words within the
    buffer as consumed, or waits to go on at such a place. *)
Theorem read_in_buffer {M} `{uops : UserOps M} {ulaws : UserLaws uops} `{env : KernelEnv} `{rb : RbOps} `{jk : Junk} cur p th buf size c :
  0 <= buf -> 4 <= size -> buf + size < 2 ^ 64 -> size mod 4 = 0 -> 0 <= c <= size -> c mod 4 = 0 ->
  writes_in (M := M) buf size (binder_thread_read cur p th buf size c) (reported buf size) /\
  forall w ptr ret, inside buf size ptr ->
    writes_in (M := M) buf size (binder_thread_resume cur p th buf size c w ptr ret) (reported buf size).
Proof. intros H1 H2 H3 H4 H5 H6. split; [by apply writes_thread_read|]. intros w ptr ret Hp. by apply writes_thread_resume. Qed.

Section Witness.
#[local] Existing Instance flat_user.
#[local] Existing Instance plain_ops.
#[local] Existing Instance kind_env.
#[local] Existing Instance no_junk.

Lemma read_in_buffer_witness :
  writes_in (M := gmap Z Z) 5000 256 (binder_thread_read server sp st 5000 256 0) (reported 5000 256) /\
  writes_in (M := gmap Z Z) 5000 256 (binder_thread_resume server sp st 5000 256 0 true 5004 0) (reported 5000 256).
Proof.
  destruct (read_in_buffer (M := gmap Z Z) (ulaws := flat_laws) server sp st 5000 256 0) as [H1 H2]; try lia; try reflexivity.
  split; [exact H1|]. apply H2. split; [lia|reflexivity].
Defined.

(** A buffer of one byte: the server that waits with it gets the whole call, 72 bytes
    from its start on. *)
Definition served_in (size : Z) : option (read_state * kstate * gmap Z Z) :=
  '(x, s, m) ← read_with (binder_thread_read server sp st 5000 size 0) booted server_mem;
  match x with
  | Waiting true ptr =>
      match binder_transaction client_mem client cp ct call_data false s with
      | Ok (_, s) => read_with (binder_thread_resume server sp st 5000 size 0 true ptr 0) s m
      | Fault _ => None
      end
  | _ => None
  end.
Example short_read_overruns :
  (fun '(x, _, m) => (x, get_user m 5004 4)) <$> served_in 1 = Some (Returned 0 72, Some BR_TRANSACTION).
Proof. vm_compute. reflexivity. Qed.
End Witness.
