(* ===== verification/EndsFiles.v ===== *)
(** * Calls and deferred work that end

    A process that goes away is drained tree by tree; every round takes an entry out
    of the tree it is at, because the trees agree with the objects in them. *)
From S2P Require Import Prelude UserMem RbTree Alloc AllocInv AllocSpec AllocFree AllocMap Protocol Kernel Refs Transact Send Write Read Driver KernelWp RefsInv Keeps SendSpec FailedReply Ends Sound Tables TablesStep TablesOps TablesFiles SoundFiles EndsOps.

Implicit Types (p n r d t th b ptr : Z) (s : kstate) (P : binder_proc).

Section Files.
Context {M : Type} `{uops : UserOps M} {ulaws : UserLaws uops} {urange : UserRange uops}.
Context `{env : KernelEnv} `{rb : RbOps} {laws : RbLaws rb} `{jk : Junk}.
Hint Resolve no_hang_kzalloc no_hang_new_ticket no_hang_new_node no_hang_free_thread no_hang_release_work no_hang_free_node
  no_hang_dec_node no_hang_delete_ref no_hang_get_buf no_hang_put_buf no_hang_free_buf : no_hang.

(** ** Threads, maps, [ioctl] *)
Lemma no_hang_get_thread cur p : no_hang (binder_get_thread cur p).
Proof. unfold binder_get_thread. ends_here. Qed.
Hint Resolve no_hang_get_thread : no_hang.
Lemma no_hang_poll cur p : no_hang (binder_poll cur p).
Proof. unfold binder_poll, binder_has_proc_work, binder_has_thread_work, list_empty. ends_here. Qed.
Lemma no_hang_set_ctx_mgr cur p : no_hang (binder_ioctl_set_ctx_mgr cur p).
Proof. unfold binder_ioctl_set_ctx_mgr. ends_here. Qed.
Lemma no_hang_defer_work p x : no_hang (binder_defer_work p x).
Proof. unfold binder_defer_work. ends_here. Qed.
Hint Resolve no_hang_set_ctx_mgr no_hang_defer_work : no_hang.
Lemma no_hang_vma_close p : no_hang (binder_vma_close p).
Proof. unfold binder_vma_close. ends_here. Qed.
Lemma no_hang_flush p : no_hang (binder_flush p).
Proof. unfold binder_flush. ends_here. Qed.
Lemma no_hang_release p : no_hang (binder_release p).
Proof. unfold binder_release. ends_here. Qed.
Lemma no_hang_open cur : no_hang (binder_open cur).
Proof. unfold binder_open, task_nice. ends_here. Qed.
Lemma no_hang_mmap cur p area v : no_hang (binder_mmap cur p area v).
Proof. unfold binder_mmap. ends_here. apply no_hang_klift; auto with no_hang. Qed.

Lemma write_read_out_ends ubuf bwr ret : no_hangR (M := M) (write_read_out ubuf bwr ret).
Proof. intros s m. unfold write_read_out. by destruct (copy_to_user _ _ _). Qed.
Lemma after_read_ends ubuf bwr x : no_hangR (M := M) (after_read ubuf bwr x).
Proof. unfold after_read. pose proof write_read_out_ends. endsR. Qed.
Lemma ioctl_done_ends th x : no_hangR (M := M) (ioctl_done th x).
Proof. unfold ioctl_done, clear_need_return. endsR. Qed.
Hint Resolve write_read_out_ends after_read_ends ioctl_done_ends thread_read_ends thread_resume_ends : no_hangR.
Lemma resume_ends cur p th arg bwr w ptr ret : no_hangR (M := M) (binder_ioctl_resume cur p th arg bwr w ptr ret).
Proof. unfold binder_ioctl_resume, write_read_resume. endsR. Qed.
Lemma write_read_ends cur p th cmd ubuf s (m : M) : sound s -> binder_ioctl_write_read cur p th cmd ubuf s m ≠ Fault HANG.
Proof.
  intros Hs. unfold binder_ioctl_write_read. destruct (negb _); [done|]. destruct (copy_from_user _ _ _) as [l|]; [|done]. cbn zeta.
  apply bind_no_hangR; [|intros [ret c] s1 m1 _; enough (H : no_hangR (M := M) _) by apply H; endsR].
  destruct (0 <? _); [|done]. pose proof (thread_write_ends m cur p th (write_buffer (bwr_of_bytes l)) (write_size (bwr_of_bytes l)) (write_consumed (bwr_of_bytes l)) s Hs) as H.
  unfold in_driver. destruct (binder_thread_write _ _ _ _ _ _ _ s) as [[a s1]|e]; [done|]. intros [= ->]. done.
Qed.
Lemma ioctl_ends cur p cmd arg s (m : M) : sound s -> binder_ioctl cur p cmd arg s m ≠ Fault HANG.
Proof.
  intros Hs. unfold binder_ioctl. apply bind_no_hangR; [apply no_hangR_driver; ends_here|]. intros o s1 m1 E.
  apply in_driver_ok in E as (o' & [= <-] & E & ->). destruct o as [th|]; [|done].
  assert (sound s1) as Hs1 by by apply (sound_get_thread _ _ _ _ _ E).
  destruct (cmd =? _); [apply bind_no_hangR; [by apply write_read_ends|intros a ? ? _; apply ioctl_done_ends]|].
  enough (H : no_hangR (M := M) _) by apply H. endsR.
  - intros s2 m2. enough (H : no_hangR (M := M) _) by apply H. endsR.
  - intros s2 m2. by destruct (put_user _ _ _ _).
Qed.

(** ** Draining *)
Definition same_trees s s' : Prop := bare_proc <$> procs s' = bare_proc <$> procs s.
#[local] Instance same_trees_preorder : PreOrder same_trees.
Proof. split; [done|]. intros s1 s2 s3 E1 E2. unfold same_trees in *. congruence. Qed.
Lemma trees_any {A} (m : K A) : keeps same_tables m -> keeps same_trees m.
Proof. intros H s x s' E. apply H in E. apply E. Qed.
Hint Extern 3 (keeps same_trees _) => apply trees_any : keeps.
Lemma trees_free_thread th : keeps same_trees (free_thread th).
Proof. unfold free_thread. intros s x s' E. run_inv. done. Qed.
Lemma trees_free_node n : keeps same_trees (free_node n).
Proof. unfold free_node. intros s x s' E. run_inv. done. Qed.
Lemma trees_put_node n N : keeps same_trees (put_node n N).
Proof. by intros s x s' [= _ <-]. Qed.
Hint Resolve trees_free_thread trees_free_node trees_put_node same_release_work same_tell_refs : keeps.
Lemma trees_proc s s' p P : same_trees s s' -> procs s !! p = Some P -> exists P', procs s' !! p = Some P' /\ bare_proc P' = bare_proc P.
Proof.
  intros E HP. assert (H : (bare_proc <$> procs s') !! p = Some (bare_proc P)) by (rewrite E; by apply fmap_some).
  apply lookup_fmap_Some in H as (P' & ? & ?). eauto.
Qed.

Lemma free_thread_out p th s T P x s' : threads s !! th = Some T -> procs s !! p = Some P -> binder_free_thread p th s = Ok (x, s') ->
  exists P', procs s' !! p = Some P' /\ p_threads P' = delete (th_pid T) (p_threads P).
Proof.
  intros HT HP E. unfold binder_free_thread in E. apply bind_ok in E as (T' & s1 & HT' & E). apply get_obj_ok in HT' as [HT' ->].
  assert (T' = T) as -> by congruence. apply bind_ok in E as ([] & s1 & E1 & E). apply mod_proc_ok in E1 as (P0 & HP0 & E1).
  assert (P0 = P) as -> by congruence.
  match type of E with ?m _ = _ => assert (keeps same_trees m) as K by keep end. apply K in E.
  destruct (trees_proc _ _ p (set_p_threads P (delete (th_pid T) (p_threads P))) E) as (P' & HP' & Eb); [rewrite E1; cbn; by rewrite lookup_insert_eq|].
  exists P'. split; [done|]. by injection Eb.
Qed.
Lemma drain_threads_ends k p s : bare_tables s -> (forall P, procs s !! p = Some P -> (size (p_threads P) <= k)%nat) -> drain_threads k p s ≠ Fault HANG.
Proof.
  revert s. induction k as [|k IH]; intros s H Hk; cbn [drain_threads]; (apply bind_no_hang; [ends_here|]);
    intros P s1 HP; apply get_obj_ok in HP as [HP ->]; specialize (Hk P HP); (destruct (in_order (p_threads P)) as [|th l] eqn:El; [done|]);
    apply in_order_elem in El as (pid & Hth).
  { assert (p_threads P = ∅) as E0 by (apply map_size_empty_inv; lia). by rewrite E0 in Hth. }
  destruct (ho_threads _ (tables_handles s H) p P pid th HP Hth) as (T & HT & Ep & Epid).
  apply bind_no_hang; [ends_here|]. intros a s1 E. apply IH; [eapply free_thread_ok; [exact H|by exists T|exact E]|].
  destruct (free_thread_out p th s T P a s1 HT HP E) as (P' & HP' & Et). intros Q HQ. assert (Q = P') as -> by congruence.
  rewrite Et, Epid, map_size_delete_Some by by eexists. lia.
Qed.

Lemma trees_node_release n c : keeps same_trees (binder_node_release n c).
Proof. unfold binder_node_release. keep; done. Qed.
Lemma no_hang_tell_refs (l : list Z) c : no_hang (tell_refs l c).
Proof. revert c. induction l as [|r l IH]; intros c; cbn [tell_refs]; ends_here. Qed.
Hint Resolve no_hang_tell_refs : no_hang.
Lemma no_hang_node_release n c : no_hang (binder_node_release n c).
Proof. unfold binder_node_release. ends_here. Qed.
Hint Resolve no_hang_node_release : no_hang.
Lemma drain_nodes_ends k p c s : bare_tables s -> (forall P, procs s !! p = Some P -> (size (p_nodes P) <= k)%nat) -> drain_nodes k p c s ≠ Fault HANG.
Proof.
  revert s c. induction k as [|k IH]; intros s c H Hk; cbn [drain_nodes]; (apply bind_no_hang; [ends_here|]);
    intros P s1 HP; apply get_obj_ok in HP as [HP ->]; specialize (Hk P HP); (destruct (in_order (p_nodes P)) as [|n l] eqn:El; [done|]);
    apply in_order_elem in El as (ptr & Hn).
  { assert (p_nodes P = ∅) as E0 by (apply map_size_empty_inv; lia). by rewrite E0 in Hn. }
  destruct (ho_nodes _ (tables_handles s H) p P ptr n HP Hn) as (N & HN & Ep & Eptr).
  apply bind_no_hang; [ends_here|]. intros N0 s1 HN0. apply get_obj_ok in HN0 as [HN0 ->]. assert (N0 = N) as -> by congruence.
  apply bind_no_hang; [ends_here|]. intros [] s1 E1. apply modify_ok in E1 as ->.
  apply bind_no_hang; [ends_here|]. intros c' s2 E2.
  destruct (release_node_ok p n s N P c c' s2 H HN Ep HP E2) as [H2 _]. apply IH; [done|].
  apply trees_node_release in E2. destruct (trees_proc _ _ p (set_p_nodes P (delete (n_ptr N) (p_nodes P))) E2) as (P' & HP' & Eb);
    [cbn; by rewrite lookup_insert_eq|]. injection Eb as _ Et _ _. intros Q HQ. assert (Q = P') as -> by congruence.
  rewrite Et, Eptr, map_size_delete_Some by by eexists. lia.
Qed.

(** Nothing but the reference itself leaves the tree of descriptors. *)
Definition same_descs s s' : Prop := p_refs_by_desc <$> procs s' = p_refs_by_desc <$> procs s.
#[local] Instance same_descs_preorder : PreOrder same_descs.
Proof. split; [done|]. intros s1 s2 s3 E1 E2. unfold same_descs in *. congruence. Qed.
Lemma descs_mod_proc p f : (forall P, p_refs_by_desc (f P) = p_refs_by_desc P) -> keeps same_descs (mod_proc p f).
Proof. intros H s x s' E. run_inv. unfold same_descs. cbn. by eapply fmap_insert_same. Qed.
Hint Extern 2 (keeps same_descs (mod_proc _ _)) => apply descs_mod_proc; intros ?; reflexivity : keeps.
Ltac still_descs := keep; first [done|intros ? ? ? [= _ <-]; done].
Lemma descs_dec_node n st i : keeps same_descs (binder_dec_node n st i).
Proof. unfold binder_dec_node, unused_node, free_node, binder_stats_deleted, list_add_tail, list_del_work. still_descs. Qed.
Hint Resolve descs_dec_node : keeps.
Lemma delete_ref_out p r s R P x s' : refs s !! r = Some R -> r_proc R = p -> procs s !! p = Some P -> binder_delete_ref r s = Ok (x, s') ->
  exists P', procs s' !! p = Some P' /\ p_refs_by_desc P' = delete (r_desc R) (p_refs_by_desc P).
Proof.
  intros HR Ep HP E. unfold binder_delete_ref in E. apply bind_ok in E as (R' & s1 & HR' & E). apply get_obj_ok in HR' as [HR' ->].
  assert (R' = R) as -> by congruence. rewrite Ep in E. apply bind_ok in E as ([] & s1 & E1 & E). apply mod_proc_ok in E1 as (P0 & HP0 & E1).
  assert (P0 = P) as -> by congruence. assert (same_descs s1 s') as Hd.
  { match type of E with ?m _ = _ => assert (keeps same_descs m) as K end; [|by eapply K].
    unfold free_death, free_ref, list_del_work, binder_stats_deleted. still_descs. }
  assert (H : (p_refs_by_desc <$> procs s') !! p = Some (delete (r_desc R) (p_refs_by_desc P))).
  { unfold same_descs in Hd. rewrite Hd, E1. cbn. by rewrite lookup_fmap, lookup_insert_eq. }
  apply lookup_fmap_Some in H as (P' & ? & ?). eauto.
Qed.
Lemma drain_refs_ends k p s : bare_tables s -> (forall P, procs s !! p = Some P -> (size (p_refs_by_desc P) <= k)%nat) -> drain_refs k p s ≠ Fault HANG.
Proof.
  revert s. induction k as [|k IH]; intros s H Hk; cbn [drain_refs]; (apply bind_no_hang; [ends_here|]);
    intros P s1 HP; apply get_obj_ok in HP as [HP ->]; specialize (Hk P HP); (destruct (in_order (p_refs_by_desc P)) as [|r l] eqn:El; [done|]);
    apply in_order_elem in El as (desc & Hr).
  { assert (p_refs_by_desc P = ∅) as E0 by (apply map_size_empty_inv; lia). by rewrite E0 in Hr. }
  destruct (ho_desc _ (tables_handles s H) p P desc r HP Hr) as (R & HR & Ep & Ed).
  apply bind_no_hang; [ends_here|]. intros [] s1 E. apply IH; [by eapply tables_delete_ref|].
  destruct (delete_ref_out p r s R P tt s1 HR Ep HP E) as (P' & HP' & Et). intros Q HQ. assert (Q = P') as -> by congruence.
  rewrite Et, Ed, map_size_delete_Some by by eexists. lia.
Qed.

(** Every buffer that is freed leaves the tree of allocated buffers. *)
Lemma allocated_count a : inv a -> length (inorder (allocated_buffers a)) = size (live a).
Proof.
  intros Hi. destruct (inv_alloc_tree a Hi) as (Hn & Hm & _). rewrite <- size_dom.
  assert (dom (live a) = list_to_set (C := gset Z) (inorder (allocated_buffers a))) as ->; [|by rewrite size_list_to_set].
  apply set_eq. intros b. rewrite elem_of_dom, elem_of_list_to_set, Hm. by apply live_allocated.
Qed.
Lemma free_buf_out pb s x s' P : procs s !! pb.1 = Some P -> area_ok (p_alloc P) -> free_buf pb s = Ok (x, s') ->
  exists P', procs s' !! pb.1 = Some P' /\
    (S (length (inorder (allocated_buffers (p_alloc P')))) = length (inorder (allocated_buffers (p_alloc P))))%nat.
Proof.
  intros HP Ha E. unfold free_buf, new_ticket in E. run_inv. cbn in *.
  match goal with H : procs s !! _ = Some ?Q |- _ => assert (Q = P) as -> by congruence end.
  match goal with H : binder_free_buf _ _ _ = Ok ?al |- _ => rename H into Ef, al into a1 end.
  exists (set_p_alloc P a1). split; [by rewrite lookup_insert_eq|]. cbn.
  destruct (free_buf_live _ _ _ _ Ef) as (v & Hv & _). destruct (area_free _ _ _ _ Ha Ef) as [Ha1 Hr].
  destruct Ha as [Hi|(_ & _ & Hh & _)]; [|by rewrite Hh in Hv]. destruct (Hr Hi) as (w & Hw & [Hl _ _]).
  assert (inv a1) as Hi1.
  { destruct (free_spec (page_answers (ticket s + 1)) (p_alloc P) pb.2 w Hi Hw) as (a0 & E2 & Hi2 & _).
    - destruct (free_buf_live _ _ _ _ Ef) as (v' & Hv' & _ & Ht). apply map_lookup_filter_Some in Hw as [Hw _]. congruence.
    - rewrite Ef in E2. by injection E2 as ->. }
  rewrite (allocated_count a1 Hi1), (allocated_count (p_alloc P) Hi), Hl, map_size_delete_Some by by eexists.
  assert (size (live (p_alloc P)) ≠ 0%nat); [|lia]. intros E0%map_size_empty_inv. by rewrite E0 in Hw.
Qed.
Lemma drain_buffers_ends k p s : sound s ->
  (forall P, procs s !! p = Some P -> (length (inorder (allocated_buffers (p_alloc P))) <= k)%nat) -> drain_buffers k p s ≠ Fault HANG.
Proof.
  revert s. induction k as [|k IH]; intros s H Hk; cbn [drain_buffers]; (apply bind_no_hang; [ends_here|]);
    intros P s1 HP; apply get_obj_ok in HP as [HP ->]; specialize (Hk P HP); (destruct (inorder _) as [|b l] eqn:El; [done|]); [cbn in Hk; lia|].
  apply bind_no_hang; [ends_here|]. intros v s1 Ev. apply get_buf_ok in Ev as (-> & Q & HQ & Ev).
  apply bind_no_hang; [ends_here|]. intros [] s1 E1.
  assert (keeps_sound None s s1) as S1.
  { destruct (b_transaction v); [|by apply ret_ok in E1 as [_ ->]]. by eapply sound_unlink_buf. }
  assert (exists P1, procs s1 !! p = Some P1 /\ allocated_buffers (p_alloc P1) = allocated_buffers (p_alloc P)) as (P1 & HP1 & Et1).
  { destruct (b_transaction v) as [t|]; [|apply ret_ok in E1 as [_ ->]; eauto].
    unfold mod_txn, put_txn, put_buf in E1. run_inv. cbn in *. eexists. rewrite lookup_insert_eq. split; [done|]. cbn.
    match goal with H1 : procs s !! p = Some ?A, H2 : put_buffer (p_alloc ?A) _ _ = Ok ?al |- _ => assert (A = P) as -> by congruence; rename H2 into Ep end.
    unfold put_buffer in Ep. destruct (header_mapped _ _) as [[]|]; try done. by injection Ep as <-. }
  apply bind_no_hang; [ends_here|]. intros [] s2 E2.
  assert (sound s1) as Hs1 by by apply S1. destruct (free_buf_out (p, b) s1 tt s2 P1 HP1 (so_areas _ Hs1 _ _ HP1) E2) as (P2 & HP2 & El2).
  apply IH; [by apply (sound_free_buf None (p, b) _ _ _ E2)|]. intros Q2 HQ2. cbn in HP2. assert (Q2 = P2) as -> by congruence.
  rewrite Et1, El in El2. cbn in *. lia.
Qed.

(** ** The workqueue *)
Definition same_deferred s s' : Prop := deferred_list s' = deferred_list s.
#[local] Instance same_deferred_no_areas : NoAreas same_deferred.
Proof.
  split; [|done]. split; [|by intros s s' []|done..]. split; [done|]. intros s1 s2 s3 E1 E2. unfold same_deferred in *. congruence.
Qed.
(** Through the code; what is left are updates of something else. *)
Ltac undeferred := keep; first [done|intros ? ? ? [= _ <-]; done].
Lemma later_put_txn t v : keeps same_deferred (put_txn t v).
Proof. by intros s x s' [= _ <-]. Qed.
Lemma later_mod_thread th f : keeps same_deferred (mod_thread th f).
Proof. unfold mod_thread, put_thread. undeferred. Qed.
Hint Resolve later_put_txn later_mod_thread : keeps.
Lemma later_pop o t : keeps same_deferred (binder_pop_transaction o t).
Proof. unfold binder_pop_transaction, free_txn. undeferred. Qed.
Hint Resolve later_pop : keeps.
Lemma later_failed_reply k t code : keeps same_deferred (send_failed_reply_loop k t code).
Proof. revert t. induction k as [|k IH]; intros t; cbn [send_failed_reply_loop]; undeferred. Qed.
Lemma later_failed t code : keeps same_deferred (binder_send_failed_reply t code).
Proof. pose proof later_failed_reply. unfold binder_send_failed_reply. undeferred. Qed.
Hint Resolve later_failed : keeps.
Lemma later_release_loop k h : keeps same_deferred (release_work_loop k h).
Proof. induction k as [|k IH]; cbn [release_work_loop]; [undeferred|]. unfold list_head, release_one, free_txn. undeferred. Qed.
Lemma later_release_work h : keeps same_deferred (binder_release_work h).
Proof. pose proof later_release_loop. unfold binder_release_work. undeferred. Qed.
Lemma later_unlink_stack k th (t : option Z) act : keeps same_deferred (unlink_stack k th t act).
Proof. revert t act. induction k as [|k IH]; intros t act; cbn [unlink_stack]; undeferred. Qed.
Hint Resolve later_release_work later_unlink_stack : keeps.
Lemma later_free_thread p th : keeps same_deferred (binder_free_thread p th).
Proof. unfold binder_free_thread, free_thread. undeferred. Qed.
Lemma later_tell_refs (l : list Z) c : keeps same_deferred (tell_refs l c).
Proof. revert c. induction l as [|r l IH]; intros c; cbn [tell_refs]; undeferred. Qed.
Hint Resolve later_free_thread later_tell_refs : keeps.
Lemma later_node_release n c : keeps same_deferred (binder_node_release n c).
Proof. unfold binder_node_release. undeferred. Qed.
Hint Resolve later_node_release : keeps.
Lemma later_drain_threads k p : keeps same_deferred (drain_threads k p).
Proof. induction k as [|k IH]; cbn [drain_threads]; undeferred. Qed.
Lemma later_drain_nodes k p c : keeps same_deferred (drain_nodes k p c).
Proof. revert c. induction k as [|k IH]; intros c; cbn [drain_nodes]; undeferred. Qed.
Lemma later_drain_refs k p : keeps same_deferred (drain_refs k p).
Proof. induction k as [|k IH]; cbn [drain_refs]; undeferred. Qed.
Lemma later_drain_buffers k p : keeps same_deferred (drain_buffers k p).
Proof. induction k as [|k IH]; cbn [drain_buffers]; undeferred. Qed.
Lemma later_need_return (l : list Z) : keeps same_deferred (need_return l).
Proof. induction l as [|th l IH]; cbn [need_return]; undeferred. Qed.
Hint Resolve later_drain_threads later_drain_nodes later_drain_refs later_drain_buffers later_need_return : keeps.
Lemma later_flush p : keeps same_deferred (binder_deferred_flush p).
Proof. unfold binder_deferred_flush. undeferred. Qed.
Lemma later_deferred_release p : keeps same_deferred (binder_deferred_release p).
Proof. unfold binder_deferred_release, free_proc. undeferred. Qed.
Hint Resolve later_flush later_deferred_release : keeps.

(** A step that ends, in front of one that ends in every sound state behind it. *)
Definition fine s : Prop := bare_tables s /\ sound s.
Definition keeps_fine s s' : Prop := fine s -> fine s'.
Lemma fine_same {A} (m : K A) s a s' : keeps same_tables m -> keeps (keeps_sound None) m -> m s = Ok (a, s') -> keeps_fine s s'.
Proof. intros Ht Hs E [H1 H2]. split; [by apply (same_keeps s s'); [eapply Ht|]|by apply (Hs _ _ _ E)]. Qed.
Lemma bind_fine {A B} (m : K A) (f : A -> K B) s : fine s -> m s ≠ Fault HANG -> (forall a s', m s = Ok (a, s') -> fine s') ->
  (forall a s', fine s' -> f a s' ≠ Fault HANG) -> (m ≫= f) s ≠ Fault HANG.
Proof. intros H Hm Hk Hf. apply bind_no_hang_at; [exact Hm|]. eauto. Qed.
Lemma bind_here {A B} (m : K A) (f : A -> K B) s : fine s -> no_hang m -> keeps same_tables m -> keeps (keeps_sound None) m ->
  (forall a s', fine s' -> same_trees s s' -> f a s' ≠ Fault HANG) -> (m ≫= f) s ≠ Fault HANG.
Proof.
  intros H Hm Ht Hs Hf. apply bind_no_hang; [exact Hm|]. intros a s' E. apply Hf; [exact (fine_same m s a s' Ht Hs E H)|]. by apply (trees_any m Ht s a).
Qed.
(** What the code before a loop reads of a process bounds the loop. *)
Lemma bind_proc {B} p (f : binder_proc -> K B) s : (forall P, procs s !! p = Some P -> f P s ≠ Fault HANG) -> (get_proc p ≫= f) s ≠ Fault HANG.
Proof. intros H. apply bind_no_hang; [ends_here|]. intros P s' HP. apply get_obj_ok in HP as [HP ->]. by apply H. Qed.

#[local] Hint Resolve sound_release_work sound_drain_threads sound_drain_nodes sound_drain_refs sound_drain_buffers sound_deferred_flush : keeps.
#[local] Hint Resolve same_leave_mgr same_drain_buffers same_release_work : keeps.
(** A step that leaves the trees alone. *)
Ltac step_here H :=
  apply bind_here; [exact H|ends_here|keep; same_bare|keep|]; clear H; intros ? ? H ?;
  match goal with H1 : same_trees _ ?s2, H2 : same_trees ?s2 _ |- _ => pose proof (transitivity H1 H2); clear H1 H2 end.
Lemma fine_step {A} (m : K A) s a s' : keeps (keeps_sound None) m -> m s = Ok (a, s') -> bare_tables s' -> fine s -> fine s'.
Proof. intros Hm E H' [_ H]. split; [done|]. by apply (Hm _ _ _ E). Qed.
Lemma deferred_release_ends p s : fine s -> binder_deferred_release p s ≠ Fault HANG.
Proof.
  intros H. unfold binder_deferred_release. apply bind_proc. intros P HP. assert (T : same_trees s s) by done.
  do 5 step_here H. match goal with T : same_trees s ?s' |- _ => destruct (trees_proc _ _ _ _ T HP) as (P1 & HP1 & Eb); rename s' into s1 end.
  apply bind_fine; [done| |intros x s9 E; eapply fine_step; [apply sound_drain_threads|exact E| |done]; eapply drain_threads_ok; [apply H|exact E]|].
  { apply drain_threads_ends; [by destruct H|]. intros P' HP'. assert (P' = P1) as -> by congruence. injection Eb as Et _. by rewrite Et. }
  intros [] s2 H2. apply bind_proc. intros P2 HP2.
  apply bind_fine; [done| |intros x s9 E; eapply fine_step; [apply sound_drain_nodes|exact E| |done]; eapply drain_nodes_ok; [apply H2|exact E]|].
  { apply drain_nodes_ends; [by destruct H2|]. intros P' HP'. by assert (P' = P2) as -> by congruence. }
  intros c s3 H3. apply bind_proc. intros P3 HP3.
  apply bind_fine; [done| |intros x s9 E; eapply fine_step; [apply sound_drain_refs|exact E| |done]; eapply drain_refs_ok; [apply H3|exact E]|].
  { apply drain_refs_ends; [by destruct H3|]. intros P' HP'. by assert (P' = P3) as -> by congruence. }
  intros [] s4 H4. apply bind_here; [exact H4|ends_here|keep|keep|]. intros [] s5 H5 _.
  apply bind_here; [exact H5|ends_here|keep|keep|]. intros [] s6 H6 _. apply bind_proc. intros P6 HP6.
  apply bind_no_hang_at; [|intros; enough (Q : no_hang _) by apply Q; unfold free_proc; ends_here].
  apply drain_buffers_ends; [by destruct H6|]. intros P' HP'. by assert (P' = P6) as -> by congruence.
Qed.

Lemma fine_round s x s' : deferred_round s = Ok (x, s') -> fine s -> fine s'.
Proof. intros E H. eapply fine_step; [apply sound_deferred_round|exact E|by eapply bare_deferred_round; [exact E|apply H]|done]. Qed.
Lemma no_hang_need_return (l : list Z) : no_hang (need_return l).
Proof. induction l as [|th l IH]; cbn [need_return]; ends_here. Qed.
Hint Resolve no_hang_need_return : no_hang.
Lemma deferred_round_ends s : fine s -> deferred_round s ≠ Fault HANG.
Proof.
  intros H. unfold deferred_round. apply bind_no_hang; [ends_here|]. intros l s1 E1. apply get_ok in E1 as [-> ->].
  destruct (deferred_list s) as [|p l]; [done|].
  apply bind_no_hang; [ends_here|]. intros [] s1 E1. apply modify_ok in E1 as ->. apply bind_proc. intros P HP. cbn zeta.
  apply bind_no_hang; [ends_here|]. intros [] s1 E1. assert (fine s1) as H1.
  { apply modify_ok in E1 as ->. destruct H as [H1 H2]. split; [apply (same_keeps s); [same_bare|done]|].
    enough (keeps_sound None s (set_deferred_list s l)) as K; [|by apply sound_same]. by apply (sound_put_proc None p P _ _ HP), K. }
  apply bind_here; [exact H1|unfold binder_deferred_flush; ends_here|keep; same_bare|keep|]. intros [] s2 H2 _.
  apply bind_no_hang_at; [|done]. unfold when. destruct (has_bits (p_deferred_work P) BINDER_DEFERRED_RELEASE); [by apply deferred_release_ends|done].
Qed.
(** Every round takes the first process off the list. *)
Lemma deferred_round_less s s' : deferred_round s = Ok (true, s') -> (length (deferred_list s') < length (deferred_list s))%nat.
Proof.
  intros E. unfold deferred_round in E. apply bind_ok in E as (l & s1 & E1 & E). apply get_ok in E1 as [-> ->].
  destruct (deferred_list s) as [|p l]; [by apply ret_ok in E as [? _]|].
  apply bind_ok in E as ([] & s1 & E1 & E). apply modify_ok in E1 as ->. apply bind_ok in E as (P & s1 & HP & E). apply get_obj_ok in HP as [HP ->].
  match type of E with ?m _ = _ => assert (keeps same_deferred m) as K by undeferred end. apply K in E. unfold same_deferred in E. cbn in *. rewrite E. lia.
Qed.
Lemma deferred_rounds_ends k s : fine s -> (length (deferred_list s) < k)%nat -> deferred_rounds k s ≠ Fault HANG.
Proof.
  revert s. induction k as [|k IH]; intros s H Hk; [lia|]. cbn [deferred_rounds]. apply bind_no_hang_at; [by apply deferred_round_ends|].
  intros [] s' E; [|done]. apply IH; [by eapply fine_round|]. apply deferred_round_less in E. lia.
Qed.
Lemma deferred_func_ends s : fine s -> binder_deferred_func s ≠ Fault HANG.
Proof.
  intros H. unfold binder_deferred_func. apply bind_no_hang; [ends_here|]. intros k s1 E. apply get_ok in E as [-> ->].
  apply deferred_rounds_ends; [done|lia].
Qed.
End Files.
