(* ===== verification/TypedFiles.v ===== *)
(** * Reads and files keep the fields in their types *)
From S2P Require Import Prelude UserMem RbTree Alloc Protocol Kernel Refs Transact Send Write Read Driver KernelWp Typed TablesFiles.

Implicit Types (p n d t th b ptr : Z) (s : kstate).

(** ** Operations with memory *)
Definition yieldsR {M A} (x : R M A) (Q : A -> Prop) : Prop :=
  forall s m r s' m', typed s -> x s m = Ok (r, s', m') -> typed s' /\ forall a, r = inr a -> Q a.

Section Rules.
Context {M : Type} `{uops : UserOps M}.
Lemma yieldsR_ret {A} (a : A) (Q : A -> Prop) : Q a -> yieldsR (M := M) (mret a) Q.
Proof. intros HQ s m r s' m' Hs [= <- <- _]. split; [done|]. by intros a' [= <-]. Qed.
Lemma yieldsR_bind {A B} (x : R M A) (f : A -> R M B) P Q : yieldsR x P -> (forall a, P a -> yieldsR (f a) Q) -> yieldsR (x ≫= f) Q.
Proof.
  intros Hx Hf s m r s' m' Hs [(e & E & ->)|(a & s1 & m1 & E1 & E)]%R_bind_ok.
  - destruct (Hx _ _ _ _ _ Hs E) as [? _]. by split.
  - destruct (Hx _ _ _ _ _ Hs E1) as [H1 HP]. exact (Hf a (HP a eq_refl) _ _ _ _ _ H1 E).
Qed.
Lemma yieldsR_driver {A} (x : K A) Q : yields x Q -> yieldsR (M := M) (in_driver x) Q.
Proof. intros Hx s m r s' m' Hs (a & -> & E & _)%in_driver_ok. destruct (Hx _ _ _ Hs E). split; [done|]. by intros a' [= <-]. Qed.
Lemma yieldsR_catching {A} (x : R M A) f : yieldsR x any -> yieldsR (catching x f) any.
Proof.
  intros Hx s m r s' m' Hs. unfold catching. destruct (x s m) as [[[[e|a] s1] m1]|] eqn:E; [intros [= _ <- _]|intros [= _ <- _]|done]; (split; [by eapply Hx|done]).
Qed.
Lemma yieldsR_put_bytes ptr l : yieldsR (put_bytes (M := M) ptr l) any.
Proof. intros s m r s' m' Hs. unfold put_bytes. destruct (copy_to_user m ptr l). by intros [= _ <- _]. Qed.
End Rules.
Create HintDb yieldsR.
Ltac yieldsR1 :=
  lazymatch goal with
  | |- forall _, _ => intros ?
  | |- yieldsR (mret _) _ => apply yieldsR_ret; try done
  | |- yieldsR (in_driver _ ≫= _) _ => first [eapply yieldsR_bind; [apply yieldsR_driver; yields_leaf|]|eapply (yieldsR_bind _ _ any)]
  | |- yieldsR (_ ≫= _) _ => eapply (yieldsR_bind _ _ any)
  | |- yieldsR (in_driver _) _ => apply yieldsR_driver; yield
  | |- yieldsR (catching _ _) _ => apply yieldsR_catching
  | |- yieldsR (put_bytes _ _) _ => apply yieldsR_put_bytes
  | |- yieldsR (put_word _ _ _) _ => apply yieldsR_put_bytes
  | |- yieldsR (if ?c then _ else _) _ => destruct c
  | |- yieldsR (match ?x with _ => _ end) _ => destruct x
  end.
Ltac yieldR := repeat first [solve [eauto with yieldsR nocore]|yieldsR1; cbn beta zeta].

Section Reads.
Context {M : Type} `{uops : UserOps M} {ulaws : UserLaws uops}.
Context `{env : KernelEnv} `{rb : RbOps} `{jk : Junk} `{!EnvTyped env} `{!JunkTyped jk}.

Lemma yields_stat_br p th cmd : yields (binder_stat_br p th cmd) any.
Proof. unfold binder_stat_br. yield. Qed.
Lemma yields_take_priority cur t N : yields (take_priority cur t N) any.
Proof. unfold take_priority. yield. Qed.
Lemma yields_next_work p th (wp : bool) : yields (next_work p th wp) any.
Proof. unfold next_work, list_head. yield. Qed.
Hint Resolve yields_stat_br yields_take_priority yields_next_work : yields.
Lemma node_command_typed N cmd N' : node_typed N -> node_command N = Some (cmd, N') -> node_typed N'.
Proof. intros H. unfold node_command. repeat case_match; intros [= <- <-]; auto with typed. Qed.
Lemma yieldsR_read_node p th n ptr : yieldsR (M := M) (read_node p th n ptr) any.
Proof.
  unfold read_node. eapply yieldsR_bind; [apply yieldsR_driver, yields_node|]. intros N HN.
  destruct (node_command N) as [[cmd N']|] eqn:E; [apply node_command_typed in E; [|done]|]; yieldR.
Qed.
Lemma yieldsR_read_complete p th c ptr : yieldsR (M := M) (read_complete p th c ptr) any.
Proof. unfold read_complete. yieldR. Qed.
Lemma yieldsR_read_death p th d ptr : yieldsR (M := M) (read_death p th d ptr) any.
Proof. unfold read_death. yieldR. Qed.
Lemma yieldsR_read_transaction cur p th t ptr : yieldsR (M := M) (read_transaction cur p th t ptr) any.
Proof. unfold read_transaction. yieldR. Qed.
Hint Resolve yieldsR_read_node yieldsR_read_complete yieldsR_read_death yieldsR_read_transaction : yieldsR.
Lemma yieldsR_read_loop k cur p th (wp : bool) buf ptr e : yieldsR (M := M) (read_loop k cur p th wp buf ptr e) any.
Proof. revert ptr. induction k as [|k IH]; intros ptr; cbn [read_loop]; yieldR. Qed.
Lemma yieldsR_read_done p th buf ptr : yieldsR (M := M) (read_done p th buf ptr) any.
Proof. unfold read_done. yieldR. Qed.
Hint Resolve yieldsR_read_loop yieldsR_read_done : yieldsR.
Lemma yieldsR_read_errors p th buf ptr e : yieldsR (M := M) (read_errors p th buf ptr e) any.
Proof. unfold read_errors. yieldR. Qed.
Hint Resolve yieldsR_read_errors : yieldsR.
Lemma yieldsR_read_retry cur p th buf ptr e : yieldsR (M := M) (read_retry cur p th buf ptr e) any.
Proof. unfold read_retry, list_empty. yieldR. Qed.
Hint Resolve yieldsR_read_retry : yieldsR.
Lemma yieldsR_thread_read cur p th buf size c : yieldsR (M := M) (binder_thread_read cur p th buf size c) any.
Proof. unfold binder_thread_read. yieldR. Qed.
Lemma yieldsR_thread_resume cur p th buf size c (wp : bool) ptr ret : yieldsR (M := M) (binder_thread_resume cur p th buf size c wp ptr ret) any.
Proof. unfold binder_thread_resume. yieldR. Qed.
Hint Resolve yieldsR_thread_read yieldsR_thread_resume : yieldsR.

(** ** Threads and [ioctl] *)
Lemma yields_release_one w : yields (release_one w) any.
Proof. unfold release_one. yield. Qed.
Hint Resolve yields_release_one : yields.
Lemma yields_release_loop k h : yields (release_work_loop k h) any.
Proof. induction k as [|k IH]; cbn [release_work_loop]; unfold list_head; yield. Qed.
Hint Resolve yields_release_loop : yields.
Lemma yields_release_work h : yields (binder_release_work h) any.
Proof. unfold binder_release_work. yield. Qed.
Lemma yields_unlink_stack k th (t : option Z) act : yields (unlink_stack k th t act) any.
Proof. revert t act. induction k as [|k IH]; intros t act; cbn [unlink_stack]; yield. Qed.
Hint Resolve yields_release_work yields_unlink_stack : yields.
Lemma yields_get_thread cur p : task_typed cur -> yields (binder_get_thread cur p) any.
Proof. intros Hc. unfold binder_get_thread. yield. Qed.
Lemma yields_free_thread_op p th : yields (binder_free_thread p th) any.
Proof. unfold binder_free_thread. yield. Qed.
Hint Resolve yields_get_thread yields_free_thread_op : yields.
Lemma yields_poll cur p : task_typed cur -> yields (binder_poll cur p) any.
Proof. intros Hc. unfold binder_poll, binder_has_proc_work, binder_has_thread_work, list_empty. yield. Qed.
Lemma yields_set_ctx_mgr cur p : task_typed cur -> yields (binder_ioctl_set_ctx_mgr cur p) any.
Proof.
  intros Hc. unfold binder_ioctl_set_ctx_mgr. assert (yields (binder_new_node p 0 0) any) by (by apply yields_new_node).
  assert (yields (modify (fun s => set_context_mgr_uid s (Some (tk_euid cur)))) any); [|yield].
  apply yields_modify. intros s []. split; try done. cbn. intros u [= <-]. by destruct Hc.
Qed.
Hint Resolve yields_set_ctx_mgr : yields.
Lemma yieldsR_write_read_out ubuf bwr ret : yieldsR (M := M) (write_read_out ubuf bwr ret) any.
Proof. intros s m x s' m' Hs E. unfold write_read_out in E. destruct (copy_to_user _ _ _). by injection E as _ <- _. Qed.
Hint Resolve yieldsR_write_read_out : yieldsR.
Lemma yieldsR_after_read ubuf bwr x : yieldsR (M := M) (after_read ubuf bwr x) any.
Proof. unfold after_read. yieldR. Qed.
Lemma yieldsR_ioctl_done th x : yieldsR (M := M) (ioctl_done th x) any.
Proof. unfold ioctl_done, clear_need_return. yieldR. Qed.
Hint Resolve yieldsR_after_read yieldsR_ioctl_done : yieldsR.
Lemma yieldsR_ioctl_write_read cur p th cmd ubuf : yieldsR (M := M) (binder_ioctl_write_read cur p th cmd ubuf) any.
Proof.
  intros s m x s' m' Hs E. unfold binder_ioctl_write_read in E. destruct (negb _); [by injection E as _ <- _|].
  destruct (copy_from_user _ _ _) as [l|]; [|by injection E as _ <- _]. cbn zeta in E.
  match type of E with ?y _ _ = _ => assert (yieldsR y any) as K by yieldR end. by eapply K.
Qed.
Hint Resolve yieldsR_ioctl_write_read : yieldsR.
Lemma yieldsR_ioctl_resume cur p th arg bwr w ptr ret : yieldsR (M := M) (binder_ioctl_resume cur p th arg bwr w ptr ret) any.
Proof. unfold binder_ioctl_resume, write_read_resume. yieldR. Qed.
Lemma yieldsR_ioctl cur p cmd arg : task_typed cur -> yieldsR (M := M) (binder_ioctl cur p cmd arg) any.
Proof.
  intros Hc. unfold binder_ioctl. yieldR.
  - intros s m x s' m' Hs E. match type of E with in_driver ?y _ _ = _ => assert (yieldsR (M := M) (in_driver y) any) as K by yieldR end. by eapply K.
  - intros s m x s' m' Hs E. destruct (put_user _ _ _ _). by injection E as _ <- _.
Qed.

(** ** Files *)
Lemma yields_defer_work p x : bits 3 x -> yields (binder_defer_work p x) any.
Proof. intros Hx. unfold binder_defer_work. yield. apply yields_modify. intros s Hs. case_bool_decide; [done|by destruct Hs]. Qed.
Hint Extern 2 (yields (binder_defer_work _ _) _) => apply yields_defer_work; auto with typed : yields.
Lemma yields_vma_close p : yields (binder_vma_close p) any.
Proof. unfold binder_vma_close. yield. Qed.
Lemma yields_flush p : yields (binder_flush p) any.
Proof. unfold binder_flush. yield. Qed.
Lemma yields_release p : yields (binder_release p) any.
Proof. unfold binder_release. yield. Qed.
Lemma unmapped_typed size offset : uint64 size -> uint64 offset -> area_typed (unmapped_area size offset).
Proof. intros Hs Ho. split; cbn; [apply all_empty|done..]. Qed.
Hint Resolve unmapped_typed : typed.
Lemma yields_open cur : task_typed cur -> yields (binder_open cur) any.
Proof. intros Hc. unfold binder_open. yield. Qed.
(** The area that the kernel offers lies in the address space. *)
Definition vma_typed (v : vm_area) : Prop := 0 <= vm_start v <= vm_end v /\ vm_end v < 2 ^ 64.
Lemma yields_mmap cur p area v : vma_typed v -> yields (binder_mmap cur p area v) any.
Proof.
  intros Hv. unfold binder_mmap. eapply yields_bind; [apply yields_proc|]. intros P HP. destruct (negb _); [yield|]. cbn zeta.
  set (v1 := if SZ_4M <? vm_end v - vm_start v then _ else v).
  assert (uint64 (vm_end v1 - vm_start v1)) as Hs.
  { unfold v1, vma_typed, uint64, SZ_4M in *. destruct (Z.ltb_spec 4194304 (vm_end v - vm_start v)); cbn; lia. }
  clearbody v1. cbn. destruct (has_bits _ _); [yield|]. destruct (negb _); [yield|]. destruct (area _) as [base|]; [|yield].
  assert (uint64 (u64 (vm_start v1 - base))) as Ho by apply u64_range.
  pose proof (at_size _ (pt_area P HP)). eapply yields_bind; [apply yields_kzalloc|]. intros [pg|] _; [|yield].
  eapply yields_bind; [apply yields_new_ticket|]. intros tk _. eapply yields_bind; [by apply yields_gives, gives_mmap|].
  intros [a|] Ha; [specialize (Ha a eq_refl)|]; yield.
Qed.

(** ** Deferred work *)
Lemma yields_need_return (l : list Z) : yields (need_return l) any.
Proof. induction l as [|th l IH]; cbn [need_return]; yield. Qed.
Hint Resolve yields_need_return : yields.
Lemma yields_deferred_flush p : yields (binder_deferred_flush p) any.
Proof. unfold binder_deferred_flush. yield. Qed.
Lemma yields_tell_refs (l : list Z) c : yields (tell_refs l c) any.
Proof. revert c. induction l as [|r l IH]; intros c; cbn [tell_refs]; yield. Qed.
Hint Resolve yields_deferred_flush yields_tell_refs : yields.
Lemma yields_node_release n c : yields (binder_node_release n c) any.
Proof. unfold binder_node_release. yield. Qed.
Hint Resolve yields_node_release : yields.
Lemma yields_drain_threads k p : yields (drain_threads k p) any.
Proof. induction k as [|k IH]; cbn [drain_threads]; yield. Qed.
Lemma yields_drain_nodes k p c : yields (drain_nodes k p c) any.
Proof. revert c. induction k as [|k IH]; intros c; cbn [drain_nodes]; yield. Qed.
Lemma yields_drain_refs k p : yields (drain_refs k p) any.
Proof. induction k as [|k IH]; cbn [drain_refs]; yield. Qed.
Lemma yields_drain_buffers k p : yields (drain_buffers k p) any.
Proof. induction k as [|k IH]; cbn [drain_buffers]; yield. Qed.
Hint Resolve yields_drain_threads yields_drain_nodes yields_drain_refs yields_drain_buffers : yields.
Lemma yields_deferred_release p : yields (binder_deferred_release p) any.
Proof. unfold binder_deferred_release. yield. Qed.
Hint Resolve yields_deferred_release : yields.
Lemma yields_deferred_round : yields deferred_round any.
Proof. unfold deferred_round. yield. Qed.
Hint Resolve yields_deferred_round : yields.
Lemma yields_deferred_rounds k : yields (deferred_rounds k) any.
Proof. induction k as [|k IH]; cbn [deferred_rounds]; yield. Qed.
Hint Resolve yields_deferred_rounds : yields.
Lemma yields_deferred_func : yields binder_deferred_func any.
Proof. unfold binder_deferred_func. yield. Qed.
End Reads.
