(* ===== verification/Reach.v ===== *)
(** * The states that the driver can reach

    The calls that user space, the kernel's memory management and the workqueue make
    of the driver as events ([handle]); every state that some sequence of them reaches
    from the driver as it is loaded has consistent tables. *)
From S2P Require Import Prelude UserMem RbTree Alloc AllocInv AllocSpec AllocMap Protocol Kernel Refs Transact Send Write Read Driver Scenario KernelWp RefsInv RefsProps Keeps Ends Typed Sound Tables TablesStep TablesOps TablesFiles SoundFiles EndsOps EndsFiles TypedFiles.

Implicit Types (p n d t th b ptr : Z) (s : kstate).

Section Reach.
Context {M : Type} `{uops : UserOps M} {ulaws : UserLaws uops}.
Context `{env : KernelEnv} `{rb : RbOps} {laws : RbLaws rb} `{jk : Junk}.

(** ** Events *)

(** An entry point of the driver with its arguments; [m] is the memory of the calling
    task.  The workqueue drops the driver's lock behind every process it is done with:
    its rounds come with other events between them ([EvDeferredRound]) or in one go. *)
Inductive event : Type :=
| EvOpen (cur : task)
| EvMmap (cur : task) (p : Z) (area : Z -> option Z) (v : vm_area)
| EvPoll (cur : task) (p : Z)
| EvIoctl (cur : task) (p cmd arg : Z) (m : M)
| EvResume (cur : task) (p th arg : Z) (bwr : binder_write_read) (wait_for_proc_work : bool) (ptr ret : Z) (m : M)
| EvVmaClose (p : Z)
| EvFlush (p : Z)
| EvRelease (p : Z)
| EvDeferred
| EvDeferredRound.

Definition ends {A} (x : res (A * kstate)) : res kstate := '(_, s) ← x; Ok s.
Definition handle (e : event) s : res kstate :=
  match e with
  | EvOpen cur => ends (binder_open cur s)
  | EvMmap cur p area v => ends (binder_mmap cur p area v s)
  | EvPoll cur p => ends (binder_poll cur p s)
  | EvIoctl cur p cmd arg m => '(_, s, _) ← binder_ioctl cur p cmd arg s m; Ok s
  | EvResume cur p th arg bwr w ptr ret m => '(_, s, _) ← binder_ioctl_resume cur p th arg bwr w ptr ret s m; Ok s
  | EvVmaClose p => ends (binder_vma_close p s)
  | EvFlush p => ends (binder_flush p s)
  | EvRelease p => ends (binder_release p s)
  | EvDeferred => ends (binder_deferred_func s)
  | EvDeferredRound => ends (deferred_round s)
  end.

(** What the kernel around the driver guarantees.  An area of kernel addresses for a
    mapping is made of whole pages.  A task that waits in its [ioctl] keeps its file
    open and its thread: neither is gone when the wait ends. *)
#[local] Instance good_area_dec base size : Decision (good_area base size).
Proof. unfold good_area, paged. apply _. Defined.
Definition admissible (e : event) s : bool :=
  match e with
  | EvMmap _ _ area v =>
      let size := Z.min (vm_end v - vm_start v) SZ_4M in
      if area size is Some base then bool_decide (good_area base size) else true
  | EvResume _ p th _ _ _ _ _ _ => if threads s !! th is Some T then th_proc T =? p else false
  | _ => true
  end.

Inductive step s : kstate -> Prop :=
| step_event e s' : admissible e s = true -> handle e s = Ok s' -> step s s'.
(** A sequence of events. *)
Fixpoint run (es : list event) s : res kstate :=
  match es with
  | [] => Ok s
  | e :: es => if admissible e s then s ← handle e s; run es s else Fault OOPS
  end.
Inductive reachable : kstate -> Prop :=
| reachable_init : reachable initial_state
| reachable_step s s' : reachable s -> step s s' -> reachable s'.

(** ** Every event keeps the tables *)
Lemma keepsR_write_read_out rel `{!PreOrder rel} ubuf bwr ret : keepsR (M := M) rel (write_read_out ubuf bwr ret).
Proof. intros s m x s' m' E. unfold write_read_out in E. destruct (copy_to_user _ _ _). by injection E as _ <- _. Qed.
Hint Extern 2 (keepsR _ (write_read_out _ _ _)) => apply keepsR_write_read_out; apply _ : keepsR.
Hint Resolve keeps_thread_write : keeps.
Lemma keepsR_after_read rel `{!PreOrder rel} ubuf bwr x : keepsR (M := M) rel (after_read ubuf bwr x).
Proof. unfold after_read. keepR. Qed.
Hint Extern 2 (keepsR _ (after_read _ _ _)) => apply keepsR_after_read; apply _ : keepsR.
Lemma keepsR_ioctl_write_read cur p th cmd ubuf : keepsR (M := M) (keeps_for p th) (binder_ioctl_write_read cur p th cmd ubuf).
Proof.
  intros s m x s' m' E. unfold binder_ioctl_write_read in E. destruct (negb _); [by injection E as _ <- _|].
  destruct (copy_from_user _ _ _) as [l|]; [|by injection E as _ <- _]. cbn zeta in E.
  match type of E with ?x _ _ = _ => assert (keepsR (keeps_for p th) x) as K by keepR end. by eapply K.
Qed.
Lemma keepsR_resume cur p th arg bwr w ptr ret : keepsR (M := M) (keeps_for p th) (binder_ioctl_resume cur p th arg bwr w ptr ret).
Proof. unfold binder_ioctl_resume, write_read_resume, ioctl_done, clear_need_return. keepR. Qed.

Lemma keeps_set_ctx_mgr cur p : keeps keeps_tables (binder_ioctl_set_ctx_mgr cur p).
Proof.
  unfold binder_ioctl_set_ctx_mgr. keep; by apply same_keeps; same_bare.
Qed.
Hint Resolve keeps_set_ctx_mgr : keeps.
Lemma keepsR_ioctl_done th x : keepsR (M := M) keeps_tables (ioctl_done th x).
Proof. unfold ioctl_done, clear_need_return. keepR. Qed.
Hint Resolve keepsR_ioctl_done : keepsR.

Lemma ioctl_tables cur p cmd arg s m x s' m' : bare_tables s -> binder_ioctl cur p cmd arg s m = Ok (x, s', m') -> bare_tables s'.
Proof.
  intros H E. unfold binder_ioctl in E. apply driver_step in E as (o & s1 & E1 & E).
  destruct (get_thread_tables _ _ _ _ _ H E1) as [H1 Hb]. destruct o as [th|]; [|by injection E as _ <- _].
  specialize (Hb th eq_refl). revert E. destruct (cmd =? _); [|destruct (cmd =? _); [|destruct (cmd =? _); [|destruct (cmd =? _)]]]; intros E.
  - assert (keepsR (M := M) (keeps_for p th) (x ← binder_ioctl_write_read cur p th cmd arg; ioctl_done th x)) as K.
    { apply keepsR_bind; [apply _|apply keepsR_ioctl_write_read|intros y; apply keepsR_any; auto with keepsR]. }
    by eapply K.
  - apply R_bind_ok in E as [(e & E & _)|(a & s2 & m2 & E2 & E)].
    + apply in_driver_ok in E as (? & ? & _). done.
    + eapply keepsR_ioctl_done; [exact E|]. apply in_driver_ok in E2 as (y & _ & E2 & _). kept same_tables E2 S2. by apply (same_keeps _ _ S2).
  - apply driver_step in E as (ret & s2 & E2 & E). eapply keepsR_ioctl_done; [exact E|]. by eapply keeps_set_ctx_mgr.
  - apply driver_step in E as (ret & s2 & E2 & E). injection E as _ <- _. by eapply free_thread_ok.
  - revert E. destruct (cmd =? _); intros E; [|by eapply keepsR_ioctl_done].
    apply R_bind_ok in E as [(e & E & _)|(a & s2 & m2 & E2 & E)]; [by destruct (put_user _ _ _ _)|].
    destruct (put_user _ _ _ _). injection E2 as _ <- _. by eapply keepsR_ioctl_done.
Qed.

Lemma poll_tables cur p s x s' : bare_tables s -> binder_poll cur p s = Ok (x, s') -> bare_tables s'.
Proof.
  intros H E. unfold binder_poll in E. apply bind_ok in E as (o & s1 & E1 & E). destruct (get_thread_tables _ _ _ _ _ H E1) as [H1 _].
  match type of E with ?y _ = _ => assert (keeps same_tables y) as K end; [unfold list_empty; keep|].
  apply K in E. by apply (same_keeps _ _ E).
Qed.

Lemma initial_tables : bare_tables initial_state.
Proof.
  unfold bare_tables. cbn. rewrite !fmap_empty.
  assert (Hnone : forall A k (a : A) (Q : Prop), (∅ : gmap Z A) !! k = Some a -> Q) by (intros A k a Q; by rewrite lookup_empty).
  split; [split|split|split| |done]; try (intros; by eapply Hnone).
  intros h n Hn. unfold queued in Hn. rewrite lookup_empty in Hn. by apply elem_of_nil in Hn.
Qed.

Lemma ends_ok {A} (x : res (A * kstate)) s' : ends x = Ok s' -> exists a, x = Ok (a, s').
Proof. destruct x as [[a s1]|]; [intros [= <-]; eauto|done]. Qed.
Lemma endsR_ok {A} (x : res (A * kstate * M)) s' : ('(_, s, _) ← x; Ok s) = Ok s' -> exists a m, x = Ok (a, s', m).
Proof. destruct x as [[[a s1] m]|]; [intros [= <-]; eauto|done]. Qed.

Lemma ends_no_hang {A} (x : res (A * kstate)) : x ≠ Fault HANG -> ends x ≠ Fault HANG.
Proof. destruct x as [[a s1]|]; [done|]. by intros H [= ->]. Qed.
Lemma endsR_no_hang {A} (x : res (A * kstate * M)) : x ≠ Fault HANG -> ('(_, s, _) ← x; Ok s) ≠ Fault HANG.
Proof. destruct x as [[[a s1] m]|]; [done|]. by intros H [= ->]. Qed.

Lemma handle_tables e s s' : bare_tables s -> admissible e s = true -> handle e s = Ok s' -> bare_tables s'.
Proof.
  intros H Ha E. assert (same : forall A (x : K A) a s', keeps same_tables x -> x s = Ok (a, s') -> bare_tables s').
  { intros A x a s1 Hx E1. by apply (same_keeps s s1); [eapply Hx|]. }
  destruct e as [cur|cur p area v|cur p|cur p cmd arg m|cur p th arg bwr w ptr ret m|p|p|p| |]; cbn [handle admissible] in *;
    first [apply ends_ok in E as (a & E)|apply endsR_ok in E as (a & m' & E)].
  - by eapply open_tables.
  - eapply same; [apply same_mmap|exact E].
  - by eapply poll_tables.
  - by eapply ioctl_tables.
  - destruct (threads s !! th) as [T|] eqn:HT; [|done]. apply Z.eqb_eq in Ha.
    eapply keepsR_resume; [exact E|by exists T|done].
  - eapply same; [apply same_vma_close|exact E].
  - eapply same; [|exact E]. unfold binder_flush. samely.
  - eapply same; [|exact E]. unfold binder_release. samely.
  - by eapply bare_deferred_func.
  - by eapply bare_deferred_round.
Qed.

Lemma run_reachable es s s' : reachable s -> run es s = Ok s' -> reachable s'.
Proof.
  revert s. induction es as [|e es IH]; intros s H E; cbn [run] in E; [by injection E as <-|].
  destruct (admissible e s) eqn:Ha; [|done]. destruct (handle e s) as [s1|] eqn:E1; [|done].
  eapply IH; [|exact E]. eapply reachable_step; [exact H|by eapply step_event].
Qed.

Lemma handle_sound e s s' : sound s -> admissible e s = true -> handle e s = Ok s' -> sound s'.
Proof.
  intros H Ha E. cut (keeps_sound None s s'); [by intros K; apply K|].
  destruct e as [cur|cur p area v|cur p|cur p cmd arg m|cur p th arg bwr w ptr ret m|p|p|p| |]; cbn [handle admissible] in *;
    first [apply ends_ok in E as (a & E)|apply endsR_ok in E as (a & m' & E)].
  - by eapply sound_open.
  - eapply (sound_mmap cur p area v); [|exact E]. intros base size Ea. cbn zeta in Ha. unfold size in *. rewrite Ea in Ha. by apply bool_decide_eq_true in Ha.
  - by eapply sound_poll.
  - by eapply soundR_ioctl.
  - by eapply soundR_ioctl_resume.
  - by eapply sound_vma_close.
  - by eapply sound_flush.
  - by eapply sound_release.
  - by eapply sound_deferred_func.
  - by eapply sound_deferred_round.
Qed.
Lemma initial_sound : sound initial_state.
Proof.
  assert (Hnone : forall A k (a : A) (Q : Prop), (∅ : gmap Z A) !! k = Some a -> Q) by (intros A k a Q; by rewrite lookup_empty).
  split; [intros p P H; exact (Hnone _ _ _ _ H)|].
  split; cbn; intros; match goal with H : ∅ !! _ = Some _ |- _ => exact (Hnone _ _ _ _ H) end.
Qed.
Lemma reachable_sound s : reachable s -> sound s.
Proof. induction 1 as [|s s' _ IH [e ? Ha E]]; [apply initial_sound|by eapply handle_sound]. Qed.
Lemma reachable_tables s : reachable s -> bare_tables s.
Proof. induction 1 as [|s s' _ IH [e ? Ha E]]; [apply initial_tables|by eapply handle_tables]. Qed.

(** C1: in every state that the driver can reach from its start, by any sequence of
    opens, maps, polls, ioctls that return or wait, closes and rounds of the workqueue, for
    any answers of the kernel around it, the tables are consistent: every entry of a
    process's trees of threads, nodes and references leads to an object that is there,
    belongs to that process and has that key, and every object is found that way; a
    node's list of references names the references to it, each once; a death
    notification belongs to one reference and waits for its node's death while it
    does; a queued node is there and is on a list that its process reads; objects have
    addresses that were given out. *)
Theorem reachable_handles_ok s : reachable s -> handles_ok s.
Proof. intros H. by apply tables_handles, reachable_tables. Qed.

(** C2: in every state that the driver can reach, the buffer area of every process is
    well formed or absent, whatever transactions came and went and wherever the memory
    management failed: every byte of a buffer in use lies on a mapped page of its own
    process's area and in no other buffer in use. *)
Theorem reachable_areas_ok s p P : reachable s -> procs s !! p = Some P ->
  area_ok (p_alloc P) /\
  forall b x, is_Some (live (p_alloc P) !! b) -> payload_byte (p_alloc P) b x ->
    page_at (p_alloc P) (page_down x) = Ok true /\ in_area (p_alloc P) (page_down x) /\
    forall c, is_Some (live (p_alloc P) !! c) -> payload_byte (p_alloc P) c x -> c = b.
Proof.
  intros Hr HP. pose proof (so_areas s (reachable_sound s Hr) p P HP) as Ha. split; [done|]. intros b x Hb Hx.
  destruct Ha as [Hi|(_ & _ & Hh & _)]; [|unfold live in Hb; rewrite Hh in Hb; by destruct Hb].
  destruct (payload_mapped _ b x Hi Hb Hx). split_and!; [done..|]. intros c Hc Hxc. by apply (payload_disjoint (p_alloc P) c b x).
Qed.

(** ** Every event keeps the fields in their types *)

(** What user space and the kernel pass in has the types of the entry points. *)
Definition event_typed (e : event) : Prop :=
  match e with
  | EvOpen cur | EvPoll cur _ | EvIoctl cur _ _ _ _ | EvResume cur _ _ _ _ _ _ _ _ => task_typed cur
  | EvMmap cur _ _ v => task_typed cur /\ vma_typed v
  | EvVmaClose _ | EvFlush _ | EvRelease _ | EvDeferred | EvDeferredRound => True
  end.
Section Types.
Context `{!EnvTyped env} `{!JunkTyped jk}.
Lemma handle_typed e s s' : event_typed e -> typed s -> handle e s = Ok s' -> typed s'.
Proof.
  intros He H E. assert (run : forall A (x : K A) a, yields x any -> x s = Ok (a, s') -> typed s') by (intros A x a Hx Ex; by eapply Hx).
  assert (runR : forall A (x : R M A) a m m', yieldsR x any -> x s m = Ok (a, s', m') -> typed s') by (intros A x a m m' Hx Ex; by eapply Hx).
  destruct e as [cur|cur p area v|cur p|cur p cmd arg m|cur p th arg bwr w ptr ret m|p|p|p| |]; cbn [handle event_typed] in *;
    first [apply ends_ok in E as (a & E); eapply run; [|exact E]|apply endsR_ok in E as (a & m' & E); eapply runR; [|exact E]].
  - by apply yields_open.
  - apply yields_mmap, He.
  - by apply yields_poll.
  - by apply yieldsR_ioctl.
  - apply yieldsR_ioctl_resume.
  - apply yields_vma_close.
  - apply yields_flush.
  - apply yields_release.
  - apply yields_deferred_func.
  - apply yields_deferred_round.
Qed.
Lemma initial_typed : typed initial_state.
Proof.
  assert (log_typed empty_log) as Hl by (split; [done|done|apply Forall_replicate, zero_typed]).
  split; try apply all_empty; try done; cbn; auto with typed.
Qed.
Lemma run_typed es s s' : Forall event_typed es -> typed s -> run es s = Ok s' -> typed s'.
Proof.
  intros He. revert s. induction He as [|e es He _ IH]; intros s H E; cbn [run] in E; [by injection E as <-|].
  destruct (admissible e s); [|done]. destruct (handle e s) as [s1|] eqn:E1; [|done]. eapply IH; [|exact E]. by eapply handle_typed.
Qed.

(** C8: after every sequence of events whose arguments have their types, every integer
    field of the driver's state has a value of its C type: ids, counts, the counters
    of the thread pools, the statistics and both logs [int]s; pointers, cookies and
    sizes 64-bit words; descriptors, codes, flags, user ids and the errors for a thread
    32-bit words; the saved and default priorities [long]s, of nice values; the
    priority of a node a field of 8 bits, the id in a buffer's header one of 29; the
    states of a thread and the deferred work of a process sets of the flags there are;
    the payloads of buffers bytes; the next entry of a log one of its 32.  So no
    integer of the model stands for a value that the field could not hold.  The user
    ids of the kernel and the memory of a new header are taken to have their types. *)
Theorem reachable_typed es s : Forall event_typed es -> run es initial_state = Ok s ->
  typed s /\ forall p P, procs s !! p = Some P -> uint64 (buffer (p_alloc P)) /\ uint64 (free_async_space (p_alloc P)).
Proof.
  intros He E. split; [by eapply run_typed; [| apply initial_typed|]|]. intros p P HP.
  eapply area_numbers, (so_areas s); [|exact HP]. apply reachable_sound. by eapply run_reachable; [apply reachable_init|].
Qed.
End Types.

(** ** Every event ends *)
Context {urange : UserRange uops}.

(** C3: from every state that the driver can reach, every event ends.  The loops of the
    driver have no bound of their own: the search for a caller's thread in a stack of
    transactions, the walk up a chain of dead callers, the commands of a write buffer,
    the work of a read buffer, the draining of a dead process, the workqueue.  The
    rounds that the model allows each of them, taken from the sizes of what they work
    on, are never used up. *)
Theorem reachable_ends e s : reachable s -> handle e s ≠ Fault HANG.
Proof.
  intros H. assert (fine s) as Hf by by split; [apply reachable_tables|apply reachable_sound].
  destruct e as [cur|cur p area v|cur p|cur p cmd arg m|cur p th arg bwr w ptr ret m|p|p|p| |]; cbn [handle]; first [apply ends_no_hang|apply endsR_no_hang].
  - apply no_hang_open.
  - apply no_hang_mmap.
  - apply no_hang_poll.
  - apply ioctl_ends, Hf.
  - apply resume_ends.
  - apply no_hang_vma_close.
  - apply no_hang_flush.
  - apply no_hang_release.
  - by apply deferred_func_ends.
  - by apply deferred_round_ends.
Qed.
End Reach.

Section Witness.
#[local] Existing Instance flat_user.
#[local] Existing Instance plain_ops.
#[local] Existing Instance kind_env.
#[local] Existing Instance no_junk.

(** The server becomes the context manager; the client calls it, asking to be told of
    its death; the server reads the call, closes the device without an answer and its
    process is released. *)
Definition write_mem (l : list Z) : gmap Z Z :=
  client_mem ∪ mem_at 9000 (bwr_bytes (MkBwr (Z.of_nat (length l)) 0 9100 0 0 0)) ∪ mem_at 9100 l.
Definition read_mem : gmap Z Z := mem_at 9000 (bwr_bytes (MkBwr 0 0 0 256 0 5000)) ∪ server_mem.
Definition a_life : list event := [
  EvOpen server; EvOpen client;
  EvMmap server sp (fun _ => Some 65536) (MkVma 1 (65536 + 1000 * 4096) (65536 + 1004 * 4096) 0 7);
  EvMmap client cp (fun _ => Some 1048576) (MkVma 2 (1048576 + 1000 * 4096) (1048576 + 1004 * 4096) 0 8);
  EvIoctl server sp BINDER_SET_CONTEXT_MGR 0 ∅;
  EvIoctl client cp BINDER_WRITE_READ 9000
    (write_mem (le_bytes 4 BC_TRANSACTION ++ txn_bytes call_data));
  EvIoctl client cp BINDER_WRITE_READ 9000
    (write_mem (le_bytes 4 BC_ACQUIRE ++ le_bytes 4 0 ++ le_bytes 4 BC_REQUEST_DEATH_NOTIFICATION ++ le_bytes 4 0 ++ le_bytes 8 99));
  EvIoctl server sp BINDER_WRITE_READ 9000 read_mem;
  EvVmaClose sp; EvFlush sp; EvDeferred; EvRelease sp; EvDeferred].
Definition a_death : res kstate := run a_life initial_state.
Definition after_life : kstate := match a_death with Ok s => s | Fault _ => initial_state end.

(** The server's process and its threads are gone; its node stays for the client's
    reference, whose death notification is queued; the client's call failed. *)
Example server_died :
  procs after_life !! sp = None /\
  fst <$> map_to_list (threads after_life) = [10] /\
  (th_return_error <$> threads after_life !! 10) = Some BR_DEAD_REPLY /\
  n_proc <$> nodes after_life !! 9 = Some None /\ n_refs <$> nodes after_life !! 9 = Some [18] /\
  list_of (TodoProc cp) after_life = [WDeath 19].
Proof. split_and!; vm_compute; reflexivity. Qed.

Lemma after_life_reachable : reachable after_life.
Proof. apply (run_reachable a_life initial_state); [apply reachable_init|vm_compute; reflexivity]. Qed.
Lemma reachable_handles_ok_witness : reachable after_life /\ handles_ok after_life.
Proof. split; [exact after_life_reachable|]. exact (reachable_handles_ok after_life after_life_reachable). Defined.
Lemma after_life_client : is_Some (procs after_life !! cp).
Proof. vm_compute. by eexists. Qed.
Lemma reachable_areas_ok_witness : reachable after_life /\ exists P, procs after_life !! cp = Some P /\ area_ok (p_alloc P).
Proof.
  split; [exact after_life_reachable|]. destruct after_life_client as [P HP]. exists P. split; [exact HP|].
  exact (proj1 (reachable_areas_ok (ulaws := flat_laws) (laws := plain_laws) after_life cp P after_life_reachable HP)).
Defined.

Lemma kind_typed : EnvTyped kind_env.
Proof. intros t. by split. Qed.
Lemma no_junk_typed : JunkTyped no_junk.
Proof. intros b. by split. Qed.
Lemma a_life_typed : Forall event_typed a_life.
Proof. unfold a_life. repeat constructor; cbn; first [done|lia]. Qed.
Lemma a_life_runs : run a_life initial_state = Ok after_life.
Proof. unfold after_life, a_death. destruct (run a_life initial_state) eqn:E; [done|]. vm_compute in E. discriminate. Qed.
Lemma reachable_typed_witness : run a_life initial_state = Ok after_life /\ typed after_life.
Proof.
  split; [exact a_life_runs|].
  exact (proj1 (reachable_typed (ulaws := flat_laws) (laws := plain_laws) (EnvTyped0 := kind_typed) (JunkTyped0 := no_junk_typed)
    a_life after_life a_life_typed a_life_runs)).
Defined.

(** In a kernel that refuses addresses that are not user space's, the same life until
    the server's process is to be released, and what the workqueue does then. *)
Definition before_release : kstate :=
  match run (uops := user_below) (take 12 a_life) initial_state with Ok s => s | Fault _ => initial_state end.
Lemma before_release_reachable : reachable (uops := user_below) before_release.
Proof. apply (run_reachable (uops := user_below) (take 12 a_life) initial_state); [apply reachable_init|vm_compute; reflexivity]. Qed.
Lemma before_release_deferred : deferred_list before_release = [sp].
Proof. vm_compute. reflexivity. Qed.
Lemma reachable_ends_witness : deferred_list before_release = [sp] /\ handle (uops := user_below) EvDeferred before_release ≠ Fault HANG.
Proof.
  split; [exact before_release_deferred|].
  exact (reachable_ends (ulaws := user_below_laws) (laws := plain_laws) (urange := user_below_range) EvDeferred before_release before_release_reachable).
Defined.
End Witness.
