(* ===== verification/DeathTold.v ===== *)
(** * The news of a node's death

    [binder_node_release] (driver/binder/binder.c) for a node that others still refer
    to: it stays without its process, and every process that asked for it finds a
    death notification at the end of its work list. *)
From S2P Require Import Prelude UserMem RbTree Alloc Protocol Kernel Refs Transact Send Write Read Driver Scenario KernelWp Keeps Ends Tables EndsFiles Reach.

Implicit Types (p n r d q : Z) (s : kstate) (N : binder_node) (R : binder_ref) (h : lhead).

(** The notifications of the references [rs] that belong to the process [q]. *)
Definition notices s q (rs : list Z) : list work :=
  omap (fun r => R ← refs s !! r; if decide (r_proc R = q) then WDeath <$> r_death R else None) rs.
(** The references are there, each notification is there and on no list, and none
    belongs to two references. *)
Record to_tell s (rs : list Z) : Prop := {
  tt_ref r : r ∈ rs -> exists R, refs s !! r = Some R /\
    forall d, r_death R = Some d -> is_Some (deaths s !! d) /\ forall h, WDeath d ∉ list_of h s;
  tt_one r1 r2 R1 R2 d : refs s !! r1 = Some R1 -> refs s !! r2 = Some R2 -> r_death R1 = Some d -> r_death R2 = Some d -> r1 = r2;
  tt_nodup : NoDup rs
}.
(** What the news change: the lists of the processes and the kinds of the
    notifications. *)
Record were_told s (rs : list Z) s' : Prop := {
  wt_refs : refs s' = refs s;
  wt_nodes : nodes s' = nodes s;
  wt_lists h : list_of h s' = list_of h s ++ match h with TodoProc q => notices s q rs | _ => [] end;
  wt_cookie d : d_cookie <$> deaths s' !! d = d_cookie <$> deaths s !! d;
  wt_dead r R d : r ∈ rs -> refs s !! r = Some R -> r_death R = Some d -> d_type <$> deaths s' !! d = Some DEAD_BINDER;
  wt_kind d : deaths s' !! d = deaths s !! d \/ d_type <$> deaths s' !! d = Some DEAD_BINDER
}.

Section Told.
Lemma linked_false w s : linked w s = false <-> forall h, w ∉ list_of h s.
Proof.
  unfold linked. rewrite bool_decide_eq_false. split.
  - intros H h Hw. apply H. unfold list_of in Hw. destruct (lists s !! h) as [l|] eqn:E; [by exists h, l|by apply elem_of_nil in Hw].
  - intros H (h & l & E & Hw). apply (H h). unfold list_of. by rewrite E.
Qed.
Lemma notices_cons s q r R rs : refs s !! r = Some R ->
  notices s q (r :: rs) = (if decide (r_proc R = q) then option_list (WDeath <$> r_death R) else []) ++ notices s q rs.
Proof. intros HR. unfold notices. cbn. rewrite HR. cbn. case_decide; [|done]. by destruct (r_death R). Qed.
Lemma to_tell_tail s r rs : to_tell s (r :: rs) -> to_tell s rs.
Proof. intros [H1 H2 H3]. apply NoDup_cons in H3 as [_ H3]. split; [|done..]. intros r' Hr. apply H1. by right. Qed.

(** The state behind one notification. *)
Definition tell_one d D q s : kstate :=
  set_lists (set_deaths s (<[d := set_d_type D DEAD_BINDER]> (deaths s))) (<[TodoProc q := list_of (TodoProc q) s ++ [WDeath d]]> (lists s)).
Lemma tell_one_list d D q s h : list_of h (tell_one d D q s) = list_of h s ++ if decide (h = TodoProc q) then [WDeath d] else [].
Proof.
  unfold list_of at 1. cbn. case_decide as E; [subst; by rewrite lookup_insert_eq|rewrite lookup_insert_ne by done; by rewrite app_nil_r].
Qed.
Lemma to_tell_next s r rs R d D : to_tell s (r :: rs) -> refs s !! r = Some R -> r_death R = Some d -> to_tell (tell_one d D (r_proc R) s) rs.
Proof.
  intros [H1 H2 H3] HR Hd. apply NoDup_cons in H3 as [Hr H3]. split; [|done..]. intros r' Hr'.
  destruct (H1 r') as (R' & HR' & Hd'); [by right|]. exists R'. split; [done|]. intros d' E. destruct (Hd' d' E) as [HD Hl].
  assert (d' ≠ d) as Hne by (intros ->; destruct Hr; by rewrite (H2 r r' R R' d HR HR' Hd E)). split.
  - cbn. by rewrite lookup_insert_ne.
  - intros h. rewrite tell_one_list, elem_of_app. intros [?|Hin]; [by eapply Hl|]. case_decide; [|by apply elem_of_nil in Hin].
    apply list_elem_of_singleton in Hin. congruence.
Qed.
Lemma were_told_next s r rs R d D s' : to_tell s (r :: rs) -> refs s !! r = Some R -> r_death R = Some d -> deaths s !! d = Some D ->
  were_told (tell_one d D (r_proc R) s) rs s' -> were_told s (r :: rs) s'.
Proof.
  intros Ht HR Hd HD [W1 W2 W3 W4 W5 W6]. split; [done|done| | | |].
  - intros h. rewrite W3, tell_one_list, <- app_assoc. f_equal. destruct h as [q| | |]; try done. rewrite (notices_cons s q r R) by done.
    rewrite Hd. repeat case_decide; congruence || done.
  - intros e. rewrite W4. cbn. destruct (decide (e = d)) as [->|]; [by rewrite lookup_insert_eq, HD|by rewrite lookup_insert_ne].
  - intros r' R' d' [->|Hr]%elem_of_cons HR' Hd'; [|by eapply W5].
    assert (d' = d) as -> by congruence. destruct (W6 d) as [->|]; [|done]. cbn. by rewrite lookup_insert_eq.
  - intros e. destruct (W6 e) as [E|]; [|by right]. rewrite E. cbn.
    destruct (decide (e = d)) as [->|]; [right; by rewrite lookup_insert_eq|left; by rewrite lookup_insert_ne].
Qed.
Lemma tell_refs_ok rs c s : to_tell s rs -> exists s', tell_refs rs c s = Ok (c + Z.of_nat (length rs), s') /\ were_told s rs s'.
Proof.
  revert c s. induction rs as [|r rs IH]; intros c s H.
  - exists s. cbn [tell_refs]. split; [by rewrite Z.add_0_r|]. split; try done; [|by intros r R d ?%elem_of_nil|by left].
    intros h. destruct h; by rewrite app_nil_r.
  - destruct (tt_ref _ _ H r) as (R & HR & Hd); [by left|]. cbn [tell_refs length].
    replace (c + Z.of_nat (S (length rs))) with (c + 1 + Z.of_nat (length rs)) by lia. destruct (r_death R) as [d|] eqn:Ed.
    + destruct (Hd d eq_refl) as [[D HD] Hl]. destruct (IH (c + 1) (tell_one d D (r_proc R) s)) as (s' & E & W); [by eapply to_tell_next|].
      exists s'. split; [|by eapply were_told_next]. apply linked_false in Hl. rewrite <- E.
      unfold get_ref, mod_death, get_death, get_obj, mbind, K_bind. rewrite HR, Ed. unfold get, BUG_ON, klift. rewrite Hl. cbn. by rewrite HD.
    + destruct (IH (c + 1) s) as (s' & E & [W1 W2 W3 W4 W5 W6]); [by eapply to_tell_tail|]. exists s'. split.
      * rewrite <- E. unfold get_ref, get_obj, mbind, K_bind. by rewrite HR, Ed.
      * split; try done; [|intros r' R' d' [->|Hr]%elem_of_cons HR' Hd'; [congruence|by eapply W5]].
        intros h. rewrite W3. destruct h as [q| | |]; try done. rewrite (notices_cons s q r R) by done. rewrite Ed. by case_decide.
Qed.
End Told.

Section Death.
Context `{env : KernelEnv} `{rb : RbOps} `{jk : Junk}.

(** The node as it stays behind. *)
Definition dead_node N : binder_node := set_n_local_weak_refs (set_n_local_strong_refs (set_n_proc N None) 0) 0.
Definition orphaned n N s : kstate :=
  let s1 := set_lists s (list_del (WNode n) <$> lists s) in
  set_dead_nodes (set_nodes s1 (<[n := dead_node N]> (nodes s1))) (n :: dead_nodes s1).
Lemma orphaned_list n N s h : list_of h (orphaned n N s) = list_del (WNode n) (list_of h s).
Proof. unfold list_of. cbn. rewrite lookup_fmap. by destruct (lists s !! h). Qed.
Lemma release_nothing h s : list_of h s = [] -> binder_release_work h s = Ok (tt, s).
Proof.
  intros E. unfold binder_release_work, get, mbind, K_bind. rewrite E. cbn. unfold list_head, get, mbind, K_bind. by rewrite E.
Qed.
Lemma node_release_starts n N c s : nodes s !! n = Some N -> n_refs N ≠ [] -> list_of (AsyncTodo n) s = [] ->
  binder_node_release n c s = tell_refs (n_refs N) c (orphaned n N s).
Proof.
  intros HN Hr Ha. unfold binder_node_release, list_del_work, modify. unfold mbind at 1, K_bind at 1. 
  unfold mbind at 1, K_bind at 1. rewrite release_nothing by (unfold list_of in *; cbn; rewrite lookup_fmap; by destruct (lists s !! AsyncTodo n) as [l|]; [cbn in *; subst|]).
  unfold get_node, get_obj. unfold mbind at 1, K_bind at 1. cbn [nodes set_lists]. rewrite HN. by rewrite bool_decide_false.
Qed.
Lemma to_tell_orphaned n N s : handles_ok s -> nodes s !! n = Some N ->
  (forall r R d h, r ∈ n_refs N -> refs s !! r = Some R -> r_death R = Some d -> WDeath d ∉ list_of h s) -> to_tell (orphaned n N s) (n_refs N).
Proof.
  intros H HN Hl. destruct (ho_node_refs s H n N HN) as [Hd Hr]. split; [|intros r1 r2 R1 R2 d; apply (ho_death_one s H)|done].
  intros r Hin. destruct (proj1 (Hr r) Hin) as (R & HR & _). exists R. split; [done|]. intros d Ed.
  destruct (ho_death s H r R d HR Ed) as (D & HD & _). split; [by exists D|]. intros h. rewrite orphaned_list. unfold list_del.
  rewrite list_elem_of_filter. intros [_ Hq]. by apply (Hl r R d h).
Qed.

(** C6: a node that others refer to outlives its process.  When [binder_node_release]
    takes it from the process and no one-way call waits for it, the node stays behind
    without an owner and without the owner's counts, off every list; every reference
    to it stays; and each of these whose process asked for it has its death
    notification, marked as [BINDER_WORK_DEAD_BINDER] and with its cookie, at the end
    of the work list of its own process, once, in the order of the node's references.
    No other list and no other notification changes; the count of references is
    returned. *)
Theorem node_death_told n N s ps c :
  handles_ok s -> nodes s !! n = Some N -> n_refs N ≠ [] -> list_of (AsyncTodo n) s = [] ->
  (forall r R d h, r ∈ n_refs N -> refs s !! r = Some R -> r_death R = Some d -> WDeath d ∉ list_of h s) ->
  exists s', binder_node_release n c (set_procs s ps) = Ok (c + Z.of_nat (length (n_refs N)), s') /\
    nodes s' = <[n := dead_node N]> (nodes s) /\ refs s' = refs s /\
    (forall h, list_of h s' = list_del (WNode n) (list_of h s) ++ match h with TodoProc q => notices s q (n_refs N) | _ => [] end) /\
    (forall r R d, r ∈ n_refs N -> refs s !! r = Some R -> r_death R = Some d -> d_type <$> deaths s' !! d = Some DEAD_BINDER) /\
    (forall d, d_cookie <$> deaths s' !! d = d_cookie <$> deaths s !! d).
Proof.
  intros H HN Hr Ha Hl. destruct (tell_refs_ok (n_refs N) c (orphaned n N (set_procs s ps))) as (s' & E & [W1 W2 W3 W4 W5 _]).
  { destruct (to_tell_orphaned n N s H HN Hl) as [T1 T2 T3]. by split. }
  exists s'. rewrite (node_release_starts n N) by done. split; [exact E|]. split_and!; try done.
  intros h. rewrite W3, orphaned_list. done.
Qed.
End Death.

Section Witness.
#[local] Existing Instance user_below.
#[local] Existing Instance plain_ops.
#[local] Existing Instance kind_env.
#[local] Existing Instance no_junk.

(** The server's node 9 when the server's process is to be released: the client has a
    reference to it, 18, and asked to be told. *)
#[local] Abbreviation s0 := before_release.
Lemma server_node : exists N, nodes s0 !! 9 = Some N /\ n_refs N = [18].
Proof. destruct (nodes s0 !! 9) as [N|] eqn:E; [|vm_compute in E; discriminate]. exists N. split; [done|]. vm_compute in E. by injection E as <-. Qed.
Lemma server_idle : list_of (AsyncTodo 9) s0 = [].
Proof. vm_compute. reflexivity. Qed.
Lemma nothing_told : bool_decide (map_Forall (fun _ l => WDeath 19 ∉ l) (lists s0)) = true.
Proof. vm_compute. reflexivity. Qed.
Lemma client_ref : r_death <$> refs s0 !! 18 = Some (Some 19) /\ notices s0 cp [18] = [WDeath 19].
Proof. split; vm_compute; reflexivity. Qed.
Lemma handles_before : handles_ok s0.
Proof. apply tables_handles. exact (reachable_tables _ before_release_reachable). Qed.
Lemma server_quiet r R d h : r ∈ [18] -> refs s0 !! r = Some R -> r_death R = Some d -> WDeath d ∉ list_of h s0.
Proof.
  intros ->%list_elem_of_singleton HR Hd. pose proof (proj1 client_ref) as E. rewrite HR in E. cbn in E. assert (d = 19) as -> by congruence.
  unfold list_of. destruct (lists s0 !! h) as [l|] eqn:El; [|apply not_elem_of_nil].
  exact (proj1 (bool_decide_eq_true _) nothing_told h l El).
Qed.
Lemma node_death_told_witness : exists s', binder_node_release 9 0 (set_procs s0 (procs s0)) = Ok (1, s') /\ WDeath 19 ∈ list_of (TodoProc cp) s'.
Proof.
  destruct server_node as (N & HN & Hr).
  destruct (node_death_told 9 N s0 (procs s0) 0 handles_before HN) as (s' & E & _ & _ & Hl & _).
  - by rewrite Hr.
  - exact server_idle.
  - rewrite Hr. exact server_quiet.
  - exists s'. rewrite Hr in E, Hl. split; [exact E|]. rewrite Hl, (proj2 client_ref). apply elem_of_app. right. by left.
Defined.
End Witness.
