(* ===== verification/Objects.v ===== *)
(** * Objects in transactions

    What the translation of an object writes into the buffer of the target, and what
    the handle it writes stands for.  An object that comes back to the process that
    owns it is the object that was sent. *)
From S2P Require Import Prelude UserMem RbTree Alloc Protocol Kernel Refs Transact Send Write Read Driver Scenario KernelWp RefsInv RefsProps Keeps Typed Tables TablesStep TablesOps Reach.

Implicit Types (p q n r d t th b off : Z) (s : kstate) (N : binder_node) (R : binder_ref) (c : content) (i j w : nat).

(** ** Fields of an object in a buffer *)
Definition field i w (l : list Z) : Z := le_val (take w (drop i l)).
Section Fields.
Lemma field_over i w x (l : list Z) : (i + w <= length l)%nat -> 0 <= x < 256 ^ Z.of_nat w ->
  field i w (take i l ++ le_bytes w x ++ drop (i + w) l) = x.
Proof.
  intros Hl Hx. unfold field. rewrite drop_app_length' by (rewrite length_take; lia).
  rewrite take_app_length' by (by rewrite length_le_bytes). by apply le_val_bytes.
Qed.
Lemma field_beside i j v (m l : list Z) : (i + length m <= length l)%nat -> (j + v <= i \/ i + length m <= j)%nat ->
  field j v (take i l ++ m ++ drop (i + length m) l) = field j v l.
Proof.
  intros Hl [H|H]; unfold field.
  - rewrite drop_app_le by (rewrite length_take; lia). rewrite take_app_le by (rewrite length_drop, length_take; lia).
    f_equal. rewrite skipn_firstn_comm, take_take. f_equal. lia.
  - rewrite app_assoc, drop_app_ge by (rewrite length_app, length_take; lia). rewrite drop_drop. f_equal. f_equal. f_equal.
    rewrite length_app, length_take. lia.
Qed.

(** The room for the object at [off]. *)
Definition room off c : Prop := 0 <= off /\ (Z.to_nat off + 24 <= length (c_data c))%nat.
Lemma obj_fields off c : obj_at c off =
  let o := Z.to_nat off in let l := c_data c in MkObj (field o 4 l) (field (o + 4) 4 l) (field (o + 8) 8 l) (field (o + 16) 8 l).
Proof.
  unfold obj_at, obj_of_bytes, field. cbn [obj_widths words_of sizeof_flat_binder_object]. rewrite !drop_drop.
  rewrite !skipn_firstn_comm, !take_take, !drop_drop. reflexivity.
Qed.
Lemma field_low i (l : list Z) : Forall is_byte l -> (i + 8 <= length l)%nat -> field i 8 l mod 2 ^ 32 = field i 4 l.
Proof.
  intros Hb Hl. unfold field. set (m := drop i l). assert (Forall is_byte m) as Hm by by apply Forall_drop.
  assert (length m = length l - i)%nat as Hn by apply length_drop.
  assert (take 8 m = take 4 m ++ take 4 (drop 4 m)) as ->.
  { rewrite <- (take_drop 4 (take 8 m)) at 1. by rewrite take_take, skipn_firstn_comm. }
  rewrite le_val_app. pose proof (le_val_range (take 4 m) (Forall_take _ _ _ Hm)) as Hr. rewrite length_take_le in * by lia.
  change (256 ^ Z.of_nat 4) with (2 ^ 32) in *. rewrite Z.mul_comm, Z.mod_add by lia. by apply Z.mod_small.
Qed.

(** Stores to the object. *)
Lemma store_data k w x off c : 0 <= off -> 0 <= k -> let i := (Z.to_nat off + Z.to_nat k)%nat in
  c_data (store_field k w x off c) = take i (c_data c) ++ le_bytes w x ++ drop (i + w) (c_data c).
Proof. intros Ho Hk. cbn. unfold overwrite. by rewrite length_le_bytes, Z2Nat.inj_add by lia. Qed.
Lemma room_store k w x off c : room off c -> 0 <= k -> (Z.to_nat k + w <= 24)%nat -> room off (store_field k w x off c).
Proof.
  intros [Ho Hr] Hk Hw. split; [done|]. rewrite store_data by done. rewrite !length_app, length_take, length_drop, length_le_bytes. lia.
Qed.
Lemma store_same k w x off c i : room off c -> 0 <= k -> (Z.to_nat k + w <= 24)%nat -> 0 <= x < 256 ^ Z.of_nat w ->
  i = (Z.to_nat off + Z.to_nat k)%nat -> field i w (c_data (store_field k w x off c)) = x.
Proof. intros [Ho Hr] Hk Hw Hx ->. rewrite store_data by done. apply field_over; [lia|done]. Qed.
Lemma store_other k w x off c j v : room off c -> 0 <= k -> (Z.to_nat k + w <= 24)%nat ->
  (j + v <= Z.to_nat off + Z.to_nat k \/ Z.to_nat off + Z.to_nat k + w <= j)%nat ->
  field j v (c_data (store_field k w x off c)) = field j v (c_data c).
Proof.
  intros [Ho Hr] Hk Hw Hj. rewrite store_data by done. pose proof (length_le_bytes w x) as E.
  pose proof (field_beside (Z.to_nat off + Z.to_nat k) j v (le_bytes w x) (c_data c)) as H. rewrite E in H. apply H; lia.
Qed.
End Fields.

(** The object after it was made a handle: the sender's cookie and half of its pointer
    are still there. *)
Lemma handle_object ty desc off c : room off c -> content_typed c -> 0 <= ty < 2 ^ 32 -> 0 <= desc < 2 ^ 32 ->
  let o := obj_at (store_handle desc off (store_type ty off c)) off in
  fo_type o = ty /\ fo_flags o = fo_flags (obj_at c off) /\ fo_handle o = desc /\ fo_cookie o = fo_cookie (obj_at c off).
Proof.
  intros Hr Hc Ht Hd. cbn zeta. pose proof (room_store 0 4 ty off c Hr ltac:(lia) ltac:(lia)) as Hr1.
  pose proof (room_store 8 4 desc off _ Hr1 ltac:(lia) ltac:(lia)) as Hr2. rewrite !obj_fields. cbn [fo_type fo_flags fo_cookie]. unfold fo_handle. cbn [fo_binder].
  unfold store_handle, store_type. split_and!.
  - rewrite store_other by (done || lia). apply store_same; done || lia.
  - rewrite !store_other by (done || lia). done.
  - rewrite field_low; [apply store_same; done || lia| |destruct Hr2; lia]. by apply store_typed, store_typed.
  - rewrite !store_other by (done || lia). done.
Qed.
(** The object after it was made the owner's. *)
Lemma binder_object ty ptr ck off c : room off c -> 0 <= ty < 2 ^ 32 -> 0 <= ptr < 2 ^ 64 -> 0 <= ck < 2 ^ 64 ->
  obj_at (store_cookie ck off (store_binder ptr off (store_type ty off c))) off = MkObj ty (fo_flags (obj_at c off)) ptr ck.
Proof.
  intros Hr Ht Hp Hk. pose proof (room_store 0 4 ty off c Hr ltac:(lia) ltac:(lia)) as Hr1.
  pose proof (room_store 8 8 ptr off _ Hr1 ltac:(lia) ltac:(lia)) as Hr2. rewrite !obj_fields. cbn [fo_flags]. unfold store_cookie, store_binder, store_type. f_equal.
  - rewrite !store_other by (done || lia). apply store_same; done || lia.
  - rewrite !store_other by (done || lia). done.
  - rewrite store_other by (done || lia). apply store_same; done || lia.
  - apply store_same; done || lia.
Qed.

(** ** What a handle stands for *)

(** Descriptor [h] of the process [q] is the object ([ptr], [ck]) of the process [p]. *)
Definition stands_for s q (h : Z) p (ptr ck : Z) : Prop :=
  exists r R N, refs s !! r = Some R /\ r_proc R = q /\ r_desc R = h /\
    nodes s !! r_node R = Some N /\ n_proc N = Some p /\ n_ptr N = ptr /\ n_cookie N = ck.

(** Nodes and references as names: their owners, keys and cookies. *)
Definition node_name N : option Z * Z * Z := (n_proc N, n_ptr N, n_cookie N).
Definition ref_name R : Z * Z * Z := (r_proc R, r_node R, r_desc R).
Record same_names s s' : Prop := {
  sn_nodes : node_name <$> nodes s' = node_name <$> nodes s;
  sn_refs : ref_name <$> refs s' = ref_name <$> refs s;
  sn_contents : contents s' = contents s
}.
#[local] Instance same_names_preorder : PreOrder same_names.
Proof. split; [done|]. intros s1 s2 s3 [] []. split; congruence. Qed.
Lemma same_names_stands s s' q h p ptr ck : same_names s s' -> stands_for s q h p ptr ck -> stands_for s' q h p ptr ck.
Proof.
  intros [E1 E2 _] (r & R & N & HR & Hq & Hh & HN & Hp & Hptr & Hck).
  assert (Hr' : (ref_name <$> refs s') !! r = Some (ref_name R)) by (rewrite E2; by apply fmap_some).
  assert (Hn' : (node_name <$> nodes s') !! r_node R = Some (node_name N)) by (rewrite E1; by apply fmap_some).
  apply lookup_fmap_Some in Hr' as (R' & Er & HR'), Hn' as (N' & En & HN'). unfold ref_name, node_name in *. simplify_eq.
  exists r, R', N'. split_and!; congruence.
Qed.
Ltac same_name := split; cbn; first [done|eapply fmap_insert_same; [eassumption|done]].

Section Ops.
Context `{env : KernelEnv} `{rb : RbOps} `{jk : Junk}.

Lemma names_put_node s n N N' : nodes s !! n = Some N -> node_name N' = node_name N -> same_names s (set_nodes s (<[n := N']> (nodes s))).
Proof. intros. split; try done. cbn. by eapply fmap_insert_same. Qed.
Lemma names_lists s l : same_names s (set_lists s l).
Proof. by split. Qed.
Lemma inc_node_names n (st internal : bool) tl : keeps same_names (binder_inc_node n st internal tl).
Proof.
  unfold binder_inc_node. intros s x s' E. apply bind_ok in E as (N & s1 & HN & E). apply get_obj_ok in HN as [HN ->].
  assert (rest : forall (m : K Z) s1, keeps same_names m -> same_names s s1 -> m s1 = Ok (x, s') -> same_names s s').
  { intros m s1 Hm H1 E1. etransitivity; [exact H1|by eapply Hm]. }
  assert (keeps same_names (list_del_work (WNode n))) by (intros s0 ? ? [= _ <-]; apply names_lists).
  assert (forall h, keeps same_names (list_add_tail (WNode n) h)) by (intros h s0 ? ? [= _ <-]; apply names_lists).
  destruct st.
  - apply bind_ok in E as (mgr & s1 & E1 & E). apply get_ok in E1 as [_ ->]. destruct (_ && _); [by apply ret_ok in E as [_ ->]|].
    apply bind_ok in E as ([] & s1 & E1 & E). apply modify_ok in E1 as ->. match type of E with ?m ?s1 = _ => apply (rest m s1); [keep|apply (names_put_node _ _ N); [done|by destruct internal]|exact E] end.
  - apply bind_ok in E as ([] & s1 & E1 & E). apply modify_ok in E1 as ->. match type of E with ?m ?s1 = _ => apply (rest m s1); [keep|apply (names_put_node _ _ N); [done|by destruct internal]|exact E] end.
Qed.
Lemma inc_ref_names r (st : bool) tl : keeps same_names (binder_inc_ref r st tl).
Proof.
  pose proof inc_node_names. unfold binder_inc_ref.
  assert (forall f, (forall R, ref_name (f R) = ref_name R) -> keeps same_names (mod_ref r f)) as Hm.
  { intros f Hf s x s' E. unfold mod_ref, put_ref in E. run_inv. split; try done. cbn. eapply fmap_insert_same; [eassumption|apply Hf]. }
  pose proof (Hm (fun R => set_r_strong R (incr (r_strong R))) (fun _ => eq_refl)).
  pose proof (Hm (fun R => set_r_weak R (incr (r_weak R))) (fun _ => eq_refl)). keep.
Qed.

(** The reference that a process has or gets to a node. *)
Lemma ref_for_node_names q n s r s' : bare_tables s -> binder_get_ref_for_node q n s = Ok (Some r, s') ->
  node_name <$> nodes s' = node_name <$> nodes s /\ contents s' = contents s /\
  exists R, refs s' !! r = Some R /\ r_proc R = q /\ r_node R = n.
Proof.
  intros Hb E. unfold binder_get_ref_for_node in E. apply bind_ok in E as (P & s1 & HP & E). apply get_obj_ok in HP as [HP ->].
  destruct (p_refs_by_node P !! n) as [r'|] eqn:Er.
  - apply ret_ok in E as [[= <-] ->]. destruct (ho_by_node _ (tables_handles s Hb) q P n r HP Er) as (R & HR & E1 & E2). eauto 10.
  - apply bind_ok in E as (o & s1 & E1 & E). unfold kzalloc, new_ticket in E1. run_inv. destruct (kzalloc_ok _); [|by run_inv].
    unfold next_id, binder_stats_created, bump, mod_proc, mod_node, put_ref in E. run_inv.
    repeat match goal with H : Some _ = Some _ |- _ => injection H as -> end. cbn. split_and!; [|done|].
    + eapply fmap_insert_same; [eassumption|done].
    + eexists. by rewrite lookup_insert_eq.
Qed.

(** *** Sending *)
Lemma own_node_names p (ptr ck : Z) (f : binder_node -> binder_node) s o s' : (forall N, node_name (f N) = node_name N) -> bare_tables s ->
  (o ← binder_get_node p ptr;
   match o with
   | Some n => mret (Some n)
   | None => o ← binder_new_node p ptr ck;
       match o with None => mret None | Some n => _ ← mod_node n f; mret (Some n) end
   end) s = Ok (o, s') ->
  contents s' = contents s /\ forall n, o = Some n -> exists N, nodes s' !! n = Some N /\ n_proc N = Some p /\ n_ptr N = ptr.
Proof.
  intros Hf Hb E. unfold binder_get_node in E. apply bind_ok in E as (o1 & s1 & E1 & E). run_inv.
  destruct (p_nodes _ !! ptr) as [n|] eqn:En.
  - run_inv. split; [done|]. intros n' [= <-]. destruct (ho_nodes _ (tables_handles _ Hb) _ _ _ _ H En) as (N & HN & Ep & Eptr). eauto.
  - apply bind_ok in E as (o2 & s2 & E2 & E). unfold binder_new_node in E2. apply bind_ok in E2 as (P & s3 & HP & E2).
    apply get_obj_ok in HP as [HP ->]. destruct (p_nodes P !! ptr); [run_inv; by split|].
    apply bind_ok in E2 as (o3 & s3 & E3 & E2). unfold kzalloc, new_ticket in E3. run_inv. destruct (kzalloc_ok _); [|run_inv; by split].
    unfold binder_stats_created, bump, next_id, mod_node in *. run_inv. split; [done|]. intros n [= <-]. cbn in *.
    match goal with H : <[_ := _]> _ !! _ = Some _ |- _ => rewrite lookup_insert_eq in H; injection H as <- end.
    rewrite lookup_insert_eq. eexists. split; [done|]. match goal with |- context [f ?N] => pose proof (Hf N) as E end. by injection E.
Qed.
Lemma mod_content_ok b f s x s' : mod_content b f s = Ok (x, s') -> exists c, contents s !! b = Some c /\ s' = set_contents s (<[b := f c]> (contents s)).
Proof. unfold mod_content, get_content, put_content. intros E. run_inv. eauto. Qed.
Definition handle_type (fp : flat_binder_object) : Z := if fo_type fp =? BINDER_TYPE_BINDER then BINDER_TYPE_HANDLE else BINDER_TYPE_WEAK_HANDLE.
Lemma translate_binder_names p th q b off fp s s1 : bare_tables s -> translate_binder p th q b off fp s = Ok (true, s1) ->
  exists c desc, contents s !! b = Some c /\ contents s1 !! b = Some (store_handle desc off (store_type (handle_type fp) off c)) /\
    stands_for s1 q desc p (fo_binder fp) (fo_cookie fp).
Proof.
  intros Hb E. unfold translate_binder in E. set (f := fun node => set_n_accept_fds _ _) in E.
  apply bind_ok in E as (o1 & s2 & E1 & E). apply bind_ok in E as (o2 & s3 & E2 & E).
  assert (E12 : (o ← binder_get_node p (fo_binder fp); match o with
     | Some n => mret (Some n)
     | None => o ← binder_new_node p (fo_binder fp) (fo_cookie fp); match o with None => mret None | Some n => _ ← mod_node n f; mret (Some n) end
     end) s = Ok (o2, s3)) by (unfold mbind at 1, K_bind at 1; by rewrite E1).
  destruct (own_node_names p (fo_binder fp) (fo_cookie fp) f s o2 s3 (fun _ => eq_refl) Hb E12) as [C3 Hn].
  destruct (own_node_ok p (fo_binder fp) (fo_cookie fp) f s o2 s3 (fun _ => eq_refl) Hb E12) as [H3 _]. clear E1 E2 E12 o1 s2 f. rewrite <- C3. clear Hb C3 s.
  destruct o2 as [n|]; [|by apply ret_ok in E as [? _]]. destruct (Hn n eq_refl) as (N & HN & Ep & Eptr). clear Hn.
  apply bind_ok in E as (N0 & s & HN0 & E). apply get_obj_ok in HN0 as [HN0 ->]. assert (N0 = N) as -> by congruence.
  destruct (Z.eqb_spec (fo_cookie fp) (n_cookie N)) as [Eck|]; cbn [negb] in E; [|by apply ret_ok in E as [? _]].
  do 2 (apply bind_ok in E as (? & s & HP & E); apply get_obj_ok in HP as [_ ->]).
  apply bind_ok in E as (tk & s & E1 & E). assert (same_tables s3 s) as S1 by (unfold new_ticket in E1; run_inv; same_bare).
  assert (same_names s3 s) as [N1 _ C1] by (unfold new_ticket in E1; by run_inv). clear E1. destruct (negb _); [by apply ret_ok in E as [? _]|].
  destruct (same_keeps _ _ S1 H3) as [H1 _]. apply bind_ok in E as (o & s2 & E2 & E). destruct o as [r|]; [|by apply ret_ok in E as [? _]].
  destruct (ref_for_node_names _ _ _ _ _ H1 E2) as (N2 & C2 & R & HR & Er & En). clear E2.
  apply bind_ok in E as ([] & s4 & E4 & E). apply mod_content_ok in E4 as (c & Hc & ->).
  apply bind_ok in E as (R0 & s4 & HR0 & E). apply get_obj_ok in HR0 as [HR0 ->]. cbn in HR0. assert (R0 = R) as -> by congruence.
  apply bind_ok in E as ([] & s4 & E4 & E). apply mod_content_ok in E4 as (c1 & Hc1 & ->). cbn in Hc1. rewrite lookup_insert_eq in Hc1. injection Hc1 as <-.
  apply bind_ok in E as (ret & s5 & E5 & E). apply ret_ok in E as [_ ->]. apply inc_ref_names in E5.
  exists c, (r_desc R). split; [by rewrite <- C1, <- C2|]. split; [rewrite (sn_contents _ _ E5); cbn; by rewrite lookup_insert_eq|].
  eapply same_names_stands; [exact E5|]. assert (Hm : (node_name <$> nodes s2) !! n = Some (node_name N)) by (rewrite N2, N1; by apply fmap_some).
  apply lookup_fmap_Some in Hm as (M & EM & HM). unfold node_name in EM. exists r, R, M. subst n. split_and!; [done..|congruence|congruence|congruence].
Qed.

(** *** The way back *)
Lemma inc_node_runs n (st internal : bool) tl s N : nodes s !! n = Some N -> exists x s', binder_inc_node n st internal tl s = Ok (x, s').
Proof.
  intros HN. unfold binder_inc_node, get_node, get_obj, get, put_node, when, list_del_work, list_add_tail, modify, mbind, K_bind, mret, K_ret. rewrite HN.
  destruct st; repeat (case_match; simplify_eq); eauto.
Qed.
Definition binder_type (fp : flat_binder_object) : Z := if fo_type fp =? BINDER_TYPE_HANDLE then BINDER_TYPE_BINDER else BINDER_TYPE_WEAK_BINDER.
Lemma mod_content_runs b f s c : contents s !! b = Some c -> mod_content b f s = Ok (tt, set_contents s (<[b := f c]> (contents s))).
Proof. intros Hc. unfold mod_content, get_content, get_obj, mbind, K_bind. by rewrite Hc. Qed.
Lemma bind_runs {A B} (m : K A) (f : A -> K B) s a s1 : m s = Ok (a, s1) -> (m ≫= f) s = f a s1.
Proof. intros E. unfold mbind, K_bind. by rewrite E. Qed.
Lemma get_obj_runs {A} (m : kstate -> gmap Z A) k a s : m s !! k = Some a -> get_obj m k s = Ok (a, s).
Proof. intros E. unfold get_obj. by rewrite E. Qed.
Lemma translate_handle_home p q b off fp s c ptr ck : handles_ok s -> stands_for s q (fo_handle fp) p ptr ck -> contents s !! b = Some c ->
  (forall Q P, procs s !! q = Some Q -> procs s !! p = Some P -> security_binder_transfer_binder (ticket s + 1) (p_tsk Q) (p_tsk P) = 0) ->
  exists s', translate_handle q p b off fp s = Ok (true, s') /\
    contents s' !! b = Some (store_cookie ck off (store_binder ptr off (store_type (binder_type fp) off c))).
Proof.
  intros H (r & R & N & HR & Eq & Eh & HN & Ep & <- & <-) Hc Hsec.
  destruct (ho_ref s H r R HR) as (_ & Q & HQ & Hd & _). rewrite Eq in HQ. rewrite Eh in Hd.
  destruct (ho_owner s H _ _ _ HN Ep) as (P & HP & _). specialize (Hsec Q P HQ HP). unfold translate_handle.
  rewrite (bind_runs _ _ _ (Some r) s) by (unfold binder_get_ref; rewrite (bind_runs _ _ _ Q s) by (by apply get_obj_runs); by rewrite Hd).
  rewrite (bind_runs _ _ _ Q s) by (by apply get_obj_runs). rewrite (bind_runs _ _ _ P s) by (by apply get_obj_runs).
  rewrite (bind_runs _ _ _ (ticket s + 1) (set_ticket s (ticket s + 1))) by done. rewrite Hsec. cbn [Z.eqb negb].
  set (s1 := set_ticket s _). rewrite (bind_runs _ _ _ R s1) by (by apply get_obj_runs). rewrite (bind_runs _ _ _ N s1) by (by apply get_obj_runs).
  replace (is_some_eq (n_proc N) p) with true by (unfold is_some_eq; by rewrite bool_decide_true). fold (binder_type fp).
  rewrite (bind_runs _ _ _ tt _ (mod_content_runs b _ s1 c Hc)). 
  erewrite (bind_runs _ _ _ tt) by (apply mod_content_runs; cbn; apply lookup_insert_eq).
  erewrite (bind_runs _ _ _ tt) by (apply mod_content_runs; cbn; apply lookup_insert_eq).
  match goal with |- context [(binder_inc_node ?n ?st ?i ?tl ≫= _) ?x] => destruct (inc_node_runs n st i tl x N) as (ret & s2 & E2); [done|]; set (s5 := x) in * end.
  rewrite (bind_runs _ _ _ ret s2 E2). exists s2. split; [done|]. apply inc_node_names in E2. rewrite (sn_contents _ _ E2). cbn. by rewrite lookup_insert_eq.
Qed.
End Ops.

(** ** Descriptors are words *)
Definition desc_words s : Prop := all (fun R => uint32 (r_desc R)) (refs s).
Definition still_words s s' : Prop := desc_words s -> desc_words s'.
#[local] Instance still_words_preorder : PreOrder still_words.
Proof. split; [by intros s H|]. intros s1 s2 s3 H12 H23 H. by apply H23, H12. Qed.
Section Words.
Context `{env : KernelEnv} `{rb : RbOps} `{jk : Junk}.
Hint Extern 3 (keeps still_words _) => apply keeps_modify; intros ? H; exact H : keeps.
Lemma words_put_ref r R : uint32 (r_desc R) -> keeps still_words (put_ref r R).
Proof. intros HR. apply keeps_modify. intros s H. by apply all_insert. Qed.
Lemma words_mod_ref r f : (forall R, r_desc (f R) = r_desc R) -> keeps still_words (mod_ref r f).
Proof.
  intros Hf s a s' E H. unfold mod_ref in E. apply bind_ok in E as (R & s1 & HR & E). apply get_obj_ok in HR as [HR ->].
  eapply words_put_ref; [|exact E|done]. rewrite Hf. by eapply H.
Qed.
Hint Extern 2 (keeps still_words (mod_ref _ _)) => apply words_mod_ref; reflexivity : keeps.
Lemma words_new_node p ptr ck : keeps still_words (binder_new_node p ptr ck).
Proof. unfold binder_new_node, kzalloc, new_ticket, binder_stats_created, next_id. keep. Qed.
Lemma words_inc_node n st (internal : bool) tl : keeps still_words (binder_inc_node n st internal tl).
Proof. unfold binder_inc_node. keep. Qed.
Lemma words_get_ref_for_node p n : keeps still_words (binder_get_ref_for_node p n).
Proof.
  unfold binder_get_ref_for_node, kzalloc, new_ticket, binder_stats_created, next_id. keep. apply words_put_ref. cbn.
  apply pick_desc_typed. case_decide; auto with typed.
Qed.
Hint Resolve words_new_node words_inc_node words_get_ref_for_node : keeps.
Lemma words_inc_ref r st tl : keeps still_words (binder_inc_ref r st tl).
Proof. unfold binder_inc_ref. keep. Qed.
Hint Resolve words_inc_ref : keeps.
Lemma words_translate_binder p th q b off fp : keeps still_words (translate_binder p th q b off fp).
Proof. unfold translate_binder, binder_get_node, new_ticket, mod_content, get_content. keep. Qed.
End Words.

Section Roundtrip.
Context `{env : KernelEnv} `{rb : RbOps} `{jk : Junk}.

(** C5: an object that a process [p] sends to [q] and gets back is its own.  When the
    translation of a binder succeeds, the object in the buffer has become a handle of
    the same strength with the same flags, and this handle of [q] stands for exactly
    the pointer and cookie that [p] sent.  In whatever state [q] sends that handle to
    [p], in an object of its own, while the handle still stands for it and security
    does not object, the translation succeeds and what [p] gets is the binder, with
    its pointer and cookie. *)
Theorem object_roundtrip p th q b off fp s s1 c :
  bare_tables s -> desc_words s -> obj_typed fp -> contents s !! b = Some c -> content_typed c -> room off c ->
  translate_binder p th q b off fp s = Ok (true, s1) ->
  exists c1, contents s1 !! b = Some c1 /\ let fp1 := obj_at c1 off in
    fo_type fp1 = handle_type fp /\ fo_flags fp1 = fo_flags (obj_at c off) /\
    stands_for s1 q (fo_handle fp1) p (fo_binder fp) (fo_cookie fp) /\
    forall s2 b2 off2 fp2 c2, handles_ok s2 -> stands_for s2 q (fo_handle fp1) p (fo_binder fp) (fo_cookie fp) ->
      fo_handle fp2 = fo_handle fp1 -> contents s2 !! b2 = Some c2 -> room off2 c2 ->
      (forall Q P, procs s2 !! q = Some Q -> procs s2 !! p = Some P ->
         security_binder_transfer_binder (ticket s2 + 1) (p_tsk Q) (p_tsk P) = 0) ->
      exists s3 c3, translate_handle q p b2 off2 fp2 s2 = Ok (true, s3) /\ contents s3 !! b2 = Some c3 /\
        obj_at c3 off2 = MkObj (binder_type fp2) (fo_flags (obj_at c2 off2)) (fo_binder fp) (fo_cookie fp).
Proof.
  intros Hb Ht Hfp Hc Hct Hr E. destruct (translate_binder_names _ _ _ _ _ _ _ _ Hb E) as (c0 & desc & Hc0 & Hc1 & Hs).
  assert (c0 = c) as -> by congruence. pose proof (words_translate_binder _ _ _ _ _ _ _ _ _ E Ht) as Ht1.
  assert (uint32 desc) as Hd by (destruct Hs as (r & R & N & HR & _ & <- & _); by eapply Ht1).
  destruct (handle_object (handle_type fp) desc off c Hr Hct) as (E1 & E2 & E3 & _); [by unfold handle_type; case_match|done|].
  eexists. split; [exact Hc1|]. cbn zeta. rewrite E3. split_and!; [done..|].
  intros s2 b2 off2 fp2 c2 H2 Hs2 Eh Hc2 Hr2 Hsec. rewrite <- Eh in Hs2.
  destruct (translate_handle_home p q b2 off2 fp2 s2 c2 _ _ H2 Hs2 Hc2 Hsec) as (s3 & E4 & Hc3). eexists s3, _. split_and!; [done..|].
  destruct Hfp. apply binder_object; [done|by unfold binder_type; case_match|done|done].
Qed.
End Roundtrip.

Lemma tables_contents s m : bare_tables s -> bare_tables (set_contents s m).
Proof. done. Qed.
Section Witness.
#[local] Existing Instance user_below.
#[local] Existing Instance plain_ops.
#[local] Existing Instance kind_env.
#[local] Existing Instance no_junk.

(** The client sends a binder to the server, in a buffer at 7. *)
Definition sent_content : content := MkContent (obj_bytes call_object) (le_bytes 8 0).
Definition sending : kstate := set_contents before_release {[ 7 := sent_content ]}.
Definition sent : kstate := match translate_binder cp 10 sp 7 0 call_object sending with Ok (_, s) => s | Fault _ => sending end.
Lemma sent_ok : translate_binder cp 10 sp 7 0 call_object sending = Ok (true, sent).
Proof. vm_compute. reflexivity. Qed.
Lemma sending_tables : bare_tables sending.
Proof. apply tables_contents. exact (reachable_tables _ before_release_reachable). Qed.
Lemma sending_words : desc_words sending.
Proof.
  intros r R HR. assert (map_Forall (fun _ R => 0 <= r_desc R < 2 ^ 32) (refs sending)) as H by (refine (bool_decide_unpack _ _); vm_compute; reflexivity).
  exact (H r R HR).
Qed.
Lemma sent_content_typed : content_typed sent_content.
Proof. split; [apply bytes_of_byte|apply le_bytes_byte]. Qed.
Lemma client_thread : th_proc <$> threads sending !! 10 = Some cp.
Proof. vm_compute. reflexivity. Qed.
Lemma sent_handles : handles_ok sent.
Proof.
  apply tables_handles. refine (proj1 (tables_translate_binder cp 10 sp 7 0 call_object sending true sent sent_ok _ sending_tables)).
  pose proof client_thread as H. destruct (threads sending !! 10) as [T|] eqn:E; [|done]. exists T. split; [exact E|]. by injection H.
Qed.
Lemma sent_buffer : (fun c => (fo_handle (obj_at c 0), fo_flags (obj_at c 0), length (c_data c))) <$> contents sent !! 7 = Some (1, 0, 24%nat).
Proof. vm_compute. reflexivity. Qed.
(** The handle 1 of the server, sent back in the same buffer, is the client's binder. *)
Lemma object_roundtrip_witness : exists s3 c3, translate_handle sp cp 7 0 (MkObj BINDER_TYPE_HANDLE 0 1 0) sent = Ok (true, s3) /\
  contents s3 !! 7 = Some c3 /\ obj_at c3 0 = call_object.
Proof.
  destruct (object_roundtrip cp 10 sp 7 0 call_object sending sent sent_content sending_tables sending_words) as (c1 & Hc & H);
    [by split|reflexivity|exact sent_content_typed|by split; [|apply Nat.leb_le]|exact sent_ok|].
  pose proof sent_buffer as E. rewrite Hc in E. apply (inj Some) in E. apply (inj2 pair) in E as [[E1 E2]%(inj2 pair) E3]. destruct H as (_ & _ & Hs & H).
  destruct (H sent 7 0 (MkObj BINDER_TYPE_HANDLE 0 1 0) c1 sent_handles Hs) as (s3 & c3 & R1 & R2 & R3).
  - by rewrite E1.
  - exact Hc.
  - split; [done|]. rewrite E3. by apply Nat.leb_le.
  - intros Q P _ _. reflexivity.
  - exists s3, c3. split; [exact R1|]. split; [exact R2|]. rewrite R3, E2. reflexivity.
Defined.
End Witness.
