(* ===== verification/ParcelState.v ===== *)
(** * Parcels: state (libs/include/binder/Parcel.h)

    The fields of [class Parcel], the heap its buffers live in, and the monad of its
    methods.  A pointer to a buffer is the address of its chunk; NULL is 0.  What a
    parcel does to other objects (references taken and given up, file descriptors
    duplicated and closed, buffers returned to the driver) is the trace of events. *)
From S2P Require Import Prelude UserMem Protocol.

(** ** Constants (libs/include/utils/Errors.h) *)
Definition NO_ERROR : Z := 0.
Definition UNKNOWN_ERROR : Z := - 2 ^ 31.
Definition NO_MEMORY : Z := -12.
Definition BAD_VALUE : Z := -22.
Definition BAD_TYPE : Z := UNKNOWN_ERROR + 1.
Definition NOT_ENOUGH_DATA : Z := -61.
Definition FDS_NOT_ALLOWED : Z := UNKNOWN_ERROR + 7.
Definition INT32_MAX : Z := 2 ^ 31 - 1.
(** The header's default: the C library defines none. *)
Definition SIZE_T_MAX : Z := 2 ^ 32 - 1.

(** ** The heap *)

(** A chunk of memory: an array of bytes, of [int]s or of [binder_size_t]s.  The
    buffers that the driver maps into the process are not [writable]. *)
Record chunk := MkChunk { writable : bool; cells : list Z }.

(** References by what they are taken on. *)
Inductive reference : Set :=
| Strong (cookie : Z)
| Weak (refs : Z)
| StrongProxy (handle : Z)
| WeakProxy (handle : Z).

Inductive event : Set :=
| Acquire (r : reference)
| Release (r : reference)
| Dup (fd new : Z)
| Close (fd : Z)
| FreeBuffer (data : Z)
| Unmap (addr len : Z)
| Spawn.

Record world := MkWorld {
  heap : gmap Z chunk;
  gAllocSize : Z;
  gAllocCount : Z;
  mStrictModePolicy : Z;
  lastTransactionFlags : Z;
  trace : list event
}.
Section WorldUpdates.
Variable w : world.
Definition set_heap (v : gmap Z chunk) : world := MkWorld v (gAllocSize w) (gAllocCount w) (mStrictModePolicy w) (lastTransactionFlags w) (trace w).
Definition set_gAllocSize (v : Z) : world := MkWorld (heap w) v (gAllocCount w) (mStrictModePolicy w) (lastTransactionFlags w) (trace w).
Definition set_gAllocCount (v : Z) : world := MkWorld (heap w) (gAllocSize w) v (mStrictModePolicy w) (lastTransactionFlags w) (trace w).
Definition set_mStrictModePolicy (v : Z) : world := MkWorld (heap w) (gAllocSize w) (gAllocCount w) v (lastTransactionFlags w) (trace w).
Definition set_lastTransactionFlags (v : Z) : world := MkWorld (heap w) (gAllocSize w) (gAllocCount w) (mStrictModePolicy w) v (trace w).
Definition set_trace (v : list event) : world := MkWorld (heap w) (gAllocSize w) (gAllocCount w) (mStrictModePolicy w) (lastTransactionFlags w) v.
End WorldUpdates.

(** ** The fields

    The only release function that is ever given to a parcel is
    [IPCThreadState::freeBuffer], so [mOwner] says whether there is one. *)
Record parcel := MkParcel {
  mError : Z;
  mData : Z;
  mDataSize : Z;
  mDataCapacity : Z;
  mDataPos : Z;
  mObjects : Z;
  mObjectsSize : Z;
  mObjectsCapacity : Z;
  mNextObjectHint : Z;
  mFdsKnown : bool;
  mHasFds : bool;
  mAllowFds : bool;
  mOwner : bool;
  mOpenAshmemSize : Z
}.
Section ParcelUpdates.
Variable p : parcel.
Definition set_mError (v : Z) : parcel := MkParcel v (mData p) (mDataSize p) (mDataCapacity p) (mDataPos p) (mObjects p) (mObjectsSize p) (mObjectsCapacity p) (mNextObjectHint p) (mFdsKnown p) (mHasFds p) (mAllowFds p) (mOwner p) (mOpenAshmemSize p).
Definition set_mData (v : Z) : parcel := MkParcel (mError p) v (mDataSize p) (mDataCapacity p) (mDataPos p) (mObjects p) (mObjectsSize p) (mObjectsCapacity p) (mNextObjectHint p) (mFdsKnown p) (mHasFds p) (mAllowFds p) (mOwner p) (mOpenAshmemSize p).
Definition set_mDataSize (v : Z) : parcel := MkParcel (mError p) (mData p) v (mDataCapacity p) (mDataPos p) (mObjects p) (mObjectsSize p) (mObjectsCapacity p) (mNextObjectHint p) (mFdsKnown p) (mHasFds p) (mAllowFds p) (mOwner p) (mOpenAshmemSize p).
Definition set_mDataCapacity (v : Z) : parcel := MkParcel (mError p) (mData p) (mDataSize p) v (mDataPos p) (mObjects p) (mObjectsSize p) (mObjectsCapacity p) (mNextObjectHint p) (mFdsKnown p) (mHasFds p) (mAllowFds p) (mOwner p) (mOpenAshmemSize p).
Definition set_mDataPos (v : Z) : parcel := MkParcel (mError p) (mData p) (mDataSize p) (mDataCapacity p) v (mObjects p) (mObjectsSize p) (mObjectsCapacity p) (mNextObjectHint p) (mFdsKnown p) (mHasFds p) (mAllowFds p) (mOwner p) (mOpenAshmemSize p).
Definition set_mObjects (v : Z) : parcel := MkParcel (mError p) (mData p) (mDataSize p) (mDataCapacity p) (mDataPos p) v (mObjectsSize p) (mObjectsCapacity p) (mNextObjectHint p) (mFdsKnown p) (mHasFds p) (mAllowFds p) (mOwner p) (mOpenAshmemSize p).
Definition set_mObjectsSize (v : Z) : parcel := MkParcel (mError p) (mData p) (mDataSize p) (mDataCapacity p) (mDataPos p) (mObjects p) v (mObjectsCapacity p) (mNextObjectHint p) (mFdsKnown p) (mHasFds p) (mAllowFds p) (mOwner p) (mOpenAshmemSize p).
Definition set_mObjectsCapacity (v : Z) : parcel := MkParcel (mError p) (mData p) (mDataSize p) (mDataCapacity p) (mDataPos p) (mObjects p) (mObjectsSize p) v (mNextObjectHint p) (mFdsKnown p) (mHasFds p) (mAllowFds p) (mOwner p) (mOpenAshmemSize p).
Definition set_mNextObjectHint (v : Z) : parcel := MkParcel (mError p) (mData p) (mDataSize p) (mDataCapacity p) (mDataPos p) (mObjects p) (mObjectsSize p) (mObjectsCapacity p) v (mFdsKnown p) (mHasFds p) (mAllowFds p) (mOwner p) (mOpenAshmemSize p).
Definition set_mFdsKnown (v : bool) : parcel := MkParcel (mError p) (mData p) (mDataSize p) (mDataCapacity p) (mDataPos p) (mObjects p) (mObjectsSize p) (mObjectsCapacity p) (mNextObjectHint p) v (mHasFds p) (mAllowFds p) (mOwner p) (mOpenAshmemSize p).
Definition set_mHasFds (v : bool) : parcel := MkParcel (mError p) (mData p) (mDataSize p) (mDataCapacity p) (mDataPos p) (mObjects p) (mObjectsSize p) (mObjectsCapacity p) (mNextObjectHint p) (mFdsKnown p) v (mAllowFds p) (mOwner p) (mOpenAshmemSize p).
Definition set_mAllowFds (v : bool) : parcel := MkParcel (mError p) (mData p) (mDataSize p) (mDataCapacity p) (mDataPos p) (mObjects p) (mObjectsSize p) (mObjectsCapacity p) (mNextObjectHint p) (mFdsKnown p) (mHasFds p) v (mOwner p) (mOpenAshmemSize p).
Definition set_mOwner (v : bool) : parcel := MkParcel (mError p) (mData p) (mDataSize p) (mDataCapacity p) (mDataPos p) (mObjects p) (mObjectsSize p) (mObjectsCapacity p) (mNextObjectHint p) (mFdsKnown p) (mHasFds p) (mAllowFds p) v (mOpenAshmemSize p).
Definition set_mOpenAshmemSize (v : Z) : parcel := MkParcel (mError p) (mData p) (mDataSize p) (mDataCapacity p) (mDataPos p) (mObjects p) (mObjectsSize p) (mObjectsCapacity p) (mNextObjectHint p) (mFdsKnown p) (mHasFds p) (mAllowFds p) (mOwner p) v.
End ParcelUpdates.

Record pstate := MkP { this : parcel; world_of : world }.

(** ** The monad *)
Definition P (A : Type) : Type := pstate -> res (A * pstate).
#[export] Instance P_ret : MRet P := fun A a s => Ok (a, s).
#[export] Instance P_bind : MBind P := fun A B f m s =>
  match m s with Ok (a, s') => f a s' | Fault e => Fault e end.

Definition field_of {A} (f : parcel -> A) : P A := fun s => Ok (f (this s), s).
Definition modify_this (f : parcel -> parcel) : P unit := fun s => Ok (tt, MkP (f (this s)) (world_of s)).
Definition ask {A} (f : world -> A) : P A := fun s => Ok (f (world_of s), s).
Definition modify_world (f : world -> world) : P unit := fun s => Ok (tt, MkP (this s) (f (world_of s))).
Definition crash {A} (e : fault) : P A := fun s => Fault e.
Definition if_then (c : bool) (m : P unit) : P unit := if c then m else mret tt.
Definition emit (e : event) : P unit := modify_world (fun w => set_trace w (trace w ++ [e])).

(** [if (err != NO_ERROR) return err;] *)
Definition and_then (m : P Z) (k : P Z) : P Z := err ← m; if err =? NO_ERROR then k else mret err.

(** ** What the C library and the kernel answer *)

(** [malloc w n], [realloc w p n]: the address of [n] bytes, if there is memory;
    [uninit w p n]: what [n] fresh cells of [w] bytes at [p] hold.  [has_proxy h]:
    whether the process has, or can make, a proxy for handle [h]. *)
Class ParcelEnv := {
  malloc_at : world -> Z -> option Z;
  realloc_at : world -> Z -> Z -> option Z;
  uninit : Z -> Z -> nat -> list Z;
  dup_fd : world -> Z -> Z;
  ashmem_get_size_region : world -> Z -> Z;
  ashmem_create_region : world -> Z -> Z;
  ashmem_set_prot_region : world -> Z -> Z -> Z;
  mmap_at : world -> Z -> Z -> Z;
  has_proxy : Z -> bool
}.

(** What the C library promises: memory that is not in use; a descriptor is an [int]. *)
Class ParcelEnvLaws (E : ParcelEnv) : Prop := {
  malloc_fresh w n p : malloc_at w n = Some p -> 0 < p /\ heap w !! p = None;
  realloc_fresh w p n q : realloc_at w p n = Some q -> 0 < q /\ (q = p \/ heap w !! q = None);
  dup_range w fd : dup_fd w fd < 2 ^ 31;
  uninit_length w p n : length (uninit w p n) = n;
  uninit_range w p n : 0 < w -> Forall (fun x => 0 <= x < 256 ^ w) (uninit w p n)
}.

(** ** Memory *)
Section Memory.
Context {E : ParcelEnv}.

(** [malloc] and [calloc] of [n] cells of [w] bytes, 0 without memory. *)
Definition mem_alloc (w n : Z) (zeroed : bool) : P Z :=
  a ← ask (fun x => malloc_at x (u64 (w * n)));
  match a with
  | None => mret 0
  | Some p =>
      let k := Z.to_nat n in
      _ ← modify_world (fun x => set_heap x (<[p := MkChunk true (if zeroed then replicate k 0 else uninit w p k)]> (heap x)));
      mret p
  end.

(** [free]: of NULL or of a chunk that [malloc] gave out. *)
Definition mem_free (p : Z) : P unit :=
  if p =? 0 then mret tt else
  c ← ask (fun x => heap x !! p);
  match c with
  | Some (MkChunk true _) => modify_world (fun x => set_heap x (delete p (heap x)))
  | _ => crash OOPS
  end.

(** [realloc] to [n] cells: what fits is kept, the chunk may move, and for no bytes
    it is freed (glibc). *)
Definition resized (w q : Z) (n : nat) (l : list Z) : list Z := take n (l ++ drop (length l) (uninit w q n)).
Definition mem_realloc (w p n : Z) : P Z :=
  if p =? 0 then mem_alloc w n false else
  c ← ask (fun x => heap x !! p);
  match c with
  | Some (MkChunk true l) =>
      if u64 (w * n) =? 0 then _ ← mem_free p; mret 0 else
      a ← ask (fun x => realloc_at x p (u64 (w * n)));
      match a with
      | None => mret 0
      | Some q =>
          _ ← modify_world (fun x => set_heap x (<[q := MkChunk true (resized w q (Z.to_nat n) l)]> (delete p (heap x))));
          mret q
      end
  | _ => crash OOPS
  end.

(** Reading and writing [p[off .. off + n]]. *)
Definition mem_load (p off : Z) (n : nat) : P (list Z) :=
  if (n =? 0)%nat then mret [] else
  c ← ask (fun x => heap x !! p);
  match c with
  | Some (MkChunk _ l) =>
      if (0 <=? off) && (off + Z.of_nat n <=? Z.of_nat (length l)) then mret (take n (drop (Z.to_nat off) l))
      else crash OOPS
  | None => crash OOPS
  end.
Definition splice (i : nat) (m l : list Z) : list Z := take i l ++ m ++ drop (i + length m) l.
Definition mem_store (p off : Z) (m : list Z) : P unit :=
  if (length m =? 0)%nat then mret tt else
  c ← ask (fun x => heap x !! p);
  match c with
  | Some (MkChunk true l) =>
      if (0 <=? off) && (off + Z.of_nat (length m) <=? Z.of_nat (length l)) then
        modify_world (fun x => set_heap x (<[p := MkChunk true (splice (Z.to_nat off) m l)]> (heap x)))
      else crash OOPS
  | _ => crash OOPS
  end.
Definition load_cell (p i : Z) : P Z := l ← mem_load p i 1; mret (default 0 (head l)).
End Memory.
