(* ===== verification/Parcel.v ===== *)
(** * Parcels: buffers and objects (libs/binder/Parcel.cpp)

    How a parcel gets, grows, shrinks and gives up its buffers, the references that
    the objects in it hold, and the methods on its position, its size and its file
    descriptors. *)
From S2P Require Import Prelude UserMem Protocol ParcelState.

(** [PAD_SIZE_UNSAFE], [pad_size]; a size that is too large is an [abort()]. *)
Definition PAD_SIZE_UNSAFE (s : Z) : Z := Z.land (u64 (s + 3)) (Z.lnot 3).
Definition pad_size (s : Z) : P Z :=
  if SIZE_T_MAX - 3 <? s then crash BUG else mret (PAD_SIZE_UNSAFE s).

(** [obj.handle] as the [int] of a handle or a file descriptor. *)
Definition fo_int (o : flat_binder_object) : Z := s32 (fo_handle o).

Section Parcel.
Context {E : ParcelEnv}.

(** The object at an offset of the data; [flat->type] alone. *)
Definition flat_at (off : Z) : P flat_binder_object :=
  d ← field_of mData; l ← mem_load d off 24; mret (obj_of_bytes l).
Definition flat_type (off : Z) : P Z :=
  d ← field_of mData; l ← mem_load d off 4; mret (le_val l).

(** ** References of objects *)

(** [*outAshmemSize += size] and [-= size], where the parcel is told. *)
Definition count_ashmem (obj : flat_binder_object) (sign : Z) : P unit :=
  size ← ask (fun w => ashmem_get_size_region w (fo_int obj));
  if_then (0 <? size) (modify_this (fun p => set_mOpenAshmemSize p (u64 (mOpenAshmemSize p + sign * size)))).

Definition acquire_object (obj : flat_binder_object) (out : bool) : P unit :=
  let ty := fo_type obj in
  if ty =? BINDER_TYPE_BINDER then if_then (negb (fo_binder obj =? 0)) (emit (Acquire (Strong (fo_cookie obj))))
  else if ty =? BINDER_TYPE_WEAK_BINDER then if_then (negb (fo_binder obj =? 0)) (emit (Acquire (Weak (fo_binder obj))))
  else if ty =? BINDER_TYPE_HANDLE then if_then (has_proxy (fo_int obj)) (emit (Acquire (StrongProxy (fo_int obj))))
  else if ty =? BINDER_TYPE_WEAK_HANDLE then if_then (has_proxy (fo_int obj)) (emit (Acquire (WeakProxy (fo_int obj))))
  else if ty =? BINDER_TYPE_FD then if_then (negb (fo_cookie obj =? 0) && out) (count_ashmem obj 1)
  else mret tt.

Definition release_object (obj : flat_binder_object) (out : bool) : P unit :=
  let ty := fo_type obj in
  if ty =? BINDER_TYPE_BINDER then if_then (negb (fo_binder obj =? 0)) (emit (Release (Strong (fo_cookie obj))))
  else if ty =? BINDER_TYPE_WEAK_BINDER then if_then (negb (fo_binder obj =? 0)) (emit (Release (Weak (fo_binder obj))))
  else if ty =? BINDER_TYPE_HANDLE then if_then (has_proxy (fo_int obj)) (emit (Release (StrongProxy (fo_int obj))))
  else if ty =? BINDER_TYPE_WEAK_HANDLE then if_then (has_proxy (fo_int obj)) (emit (Release (WeakProxy (fo_int obj))))
  else if ty =? BINDER_TYPE_FD then
    if_then (out && negb (fo_cookie obj =? 0)) (_ ← count_ashmem obj (-1); emit (Close (fo_int obj)))
  else mret tt.

(** [while (i > 0) { i--; ... mObjects[i] ... }] *)
Fixpoint down_objects (objects : Z) (f : Z -> P unit) (i : nat) : P unit :=
  match i with
  | O => mret tt
  | S i => off ← load_cell objects (Z.of_nat i); _ ← f off; down_objects objects f i
  end.

Definition releaseObjects : P unit :=
  i ← field_of mObjectsSize; objects ← field_of mObjects;
  down_objects objects (fun off => o ← flat_at off; release_object o true) (Z.to_nat i).

Definition acquireObjects : P unit :=
  i ← field_of mObjectsSize; objects ← field_of mObjects;
  down_objects objects (fun off => o ← flat_at off; acquire_object o true) (Z.to_nat i).

Definition closeFileDescriptors : P unit :=
  i ← field_of mObjectsSize; objects ← field_of mObjects;
  down_objects objects (fun off =>
    ty ← flat_type off;
    if_then (ty =? BINDER_TYPE_FD) (o ← flat_at off; emit (Close (fo_int o)))) (Z.to_nat i).

(** [for (i = 0; i < mObjectsSize; i++)]: whether one of the objects is a file. *)
Fixpoint any_fd (objects : Z) (i : Z) (n : nat) : P bool :=
  match n with
  | O => mret false
  | S n =>
      off ← load_cell objects i; ty ← flat_type off;
      if ty =? BINDER_TYPE_FD then mret true else any_fd objects (i + 1) n
  end.
Definition scanForFds : P unit :=
  n ← field_of mObjectsSize; objects ← field_of mObjects;
  hasFds ← any_fd objects 0 (Z.to_nat n);
  modify_this (fun p => set_mFdsKnown (set_mHasFds p hasFds) true).

Definition hasFileDescriptors : P bool :=
  known ← field_of mFdsKnown;
  _ ← if_then (negb known) scanForFds;
  field_of mHasFds.

(** ** Buffers *)

(** [initState] and the statistics of all parcels. *)
Definition initial_parcel : parcel := MkParcel NO_ERROR 0 0 0 0 0 0 0 0 true false true false 0.
Definition initState : P unit := modify_this (fun _ => initial_parcel).
Definition count_size (d : Z) : P unit := modify_world (fun w => set_gAllocSize w (u64 (gAllocSize w + d))).
Definition count_parcel (d : Z) : P unit := modify_world (fun w => set_gAllocCount w (u64 (gAllocCount w + d))).

(** [mOwner(...)]: [IPCThreadState::freeBuffer] closes the descriptors and queues the
    command that gives the buffer back to the driver.  From here on the buffer and
    the offsets behind it may not be touched: they leave the heap. *)
Definition freeBuffer : P unit :=
  _ ← closeFileDescriptors;
  d ← field_of mData; o ← field_of mObjects;
  _ ← emit (FreeBuffer d);
  modify_world (fun w => set_heap w (delete o (delete d (heap w)))).

Definition freeDataNoInit : P unit :=
  owner ← field_of mOwner;
  if (owner : bool) then freeBuffer else
  _ ← releaseObjects;
  d ← field_of mData; cap ← field_of mDataCapacity; o ← field_of mObjects;
  _ ← if_then (negb (d =? 0)) (_ ← count_size (- cap); _ ← count_parcel (-1); mem_free d);
  mem_free o.

Definition freeData : P unit := _ ← freeDataNoInit; initState.

(** The objects before the new end of the data. *)
Fixpoint objects_before (objects desired : Z) (n : nat) : P nat :=
  match n with
  | O => mret O
  | S n' =>
      off ← load_cell objects (Z.of_nat n');
      if off <? desired then mret n else objects_before objects desired n'
  end.
Definition kept_objects (desired : Z) : P Z :=
  n ← field_of mObjectsSize; size ← field_of mDataSize; objects ← field_of mObjects;
  if desired <? size then
    if desired =? 0 then mret 0 else k ← objects_before objects desired (Z.to_nat n); mret (Z.of_nat k)
  else mret n.

Definition set_error (err : Z) : P Z := _ ← modify_this (fun p => set_mError p err); mret err.

(** The branch of [continueWrite] for a buffer of the driver: a copy replaces it. *)
Definition take_possession (desired objectsSize : Z) : P Z :=
  if desired =? 0 then _ ← freeData; mret NO_ERROR else
  data ← mem_alloc 1 desired false;
  if data =? 0 then set_error NO_MEMORY else
  objects ← (if objectsSize =? 0 then mret 0 else mem_alloc 8 objectsSize true);
  if negb (objectsSize =? 0) && (objects =? 0) then _ ← mem_free data; set_error NO_MEMORY else
  _ ← if_then (negb (objectsSize =? 0)) (
        old ← field_of mObjectsSize;
        _ ← modify_this (fun p => set_mObjectsSize p objectsSize);
        _ ← acquireObjects;
        modify_this (fun p => set_mObjectsSize p old));
  d ← field_of mData; size ← field_of mDataSize; o ← field_of mObjects;
  _ ← if_then (negb (d =? 0)) (l ← mem_load d 0 (Z.to_nat (Z.min size desired)); mem_store data 0 l);
  _ ← if_then (negb (objects =? 0) && negb (o =? 0))
        (l ← mem_load o 0 (Z.to_nat objectsSize); mem_store objects 0 l);
  _ ← freeBuffer;
  _ ← count_size desired;
  _ ← count_parcel 1;
  _ ← modify_this (fun p =>
        set_mNextObjectHint (set_mObjectsCapacity (set_mObjectsSize (set_mDataCapacity (set_mDataSize
          (set_mObjects (set_mData (set_mOwner p false) data) objects) (Z.min size desired)) desired)
          objectsSize) objectsSize) 0);
  mret NO_ERROR.

(** The references of the objects that are cut off are given up. *)
Fixpoint drop_objects (objects i : Z) (n : nat) : P unit :=
  match n with
  | O => mret tt
  | S n =>
      off ← load_cell objects i;
      o ← flat_at off;
      _ ← if_then (fo_type o =? BINDER_TYPE_FD) (modify_this (fun p => set_mFdsKnown p false));
      _ ← release_object o true;
      drop_objects objects (i + 1) n
  end.
Definition cut_objects (objectsSize : Z) : P unit :=
  n ← field_of mObjectsSize; o ← field_of mObjects;
  if_then (objectsSize <? n) (
    _ ← drop_objects o objectsSize (Z.to_nat (n - objectsSize));
    objects ← mem_realloc 8 o objectsSize;
    _ ← if_then (negb (objects =? 0)) (modify_this (fun p => set_mObjects p objects));
    modify_this (fun p => set_mNextObjectHint (set_mObjectsSize p objectsSize) 0)).

(** The branch for a buffer of the parcel's own. *)
Definition resize_data (desired : Z) : P Z :=
  d ← field_of mData; cap ← field_of mDataCapacity;
  if cap <? desired then
    data ← mem_realloc 1 d desired;
    if data =? 0 then set_error NO_MEMORY else
    _ ← count_size (desired - cap);
    _ ← modify_this (fun p => set_mDataCapacity (set_mData p data) desired);
    mret NO_ERROR
  else
    _ ← modify_this (fun p =>
          let p := if desired <? mDataSize p then set_mDataSize p desired else p in
          if desired <? mDataPos p then set_mDataPos p desired else p);
    mret NO_ERROR.

(** The branch for a parcel without a buffer. *)
Definition first_data (desired : Z) : P Z :=
  data ← mem_alloc 1 desired false;
  if data =? 0 then set_error NO_MEMORY else
  _ ← count_size desired;
  _ ← count_parcel 1;
  _ ← modify_this (fun p => set_mDataCapacity (set_mDataPos (set_mDataSize (set_mData p data) 0) 0) desired);
  mret NO_ERROR.

Definition continueWrite (desired : Z) : P Z :=
  if INT32_MAX <? desired then mret BAD_VALUE else
  objectsSize ← kept_objects desired;
  owner ← field_of mOwner; d ← field_of mData;
  if (owner : bool) then take_possession desired objectsSize
  else if negb (d =? 0) then _ ← cut_objects objectsSize; resize_data desired
  else first_data desired.

Definition restartWrite (desired : Z) : P Z :=
  if INT32_MAX <? desired then mret BAD_VALUE else
  owner ← field_of mOwner;
  if (owner : bool) then _ ← freeData; continueWrite desired else
  d ← field_of mData; cap ← field_of mDataCapacity;
  data ← mem_realloc 1 d desired;
  if (data =? 0) && (cap <? desired) then set_error NO_MEMORY else
  _ ← releaseObjects;
  _ ← if_then (negb (data =? 0)) (
        _ ← count_size (desired - cap);
        modify_this (fun p => set_mDataCapacity (set_mData p data) desired));
  o ← field_of mObjects;
  _ ← mem_free o;
  _ ← modify_this (fun p =>
        set_mAllowFds (set_mFdsKnown (set_mHasFds (set_mNextObjectHint (set_mObjectsCapacity (set_mObjectsSize
          (set_mObjects (set_mDataPos (set_mDataSize p 0) 0) 0) 0) 0) 0) false) true) true);
  mret NO_ERROR.

Definition growData (len : Z) : P Z :=
  if INT32_MAX <? len then mret BAD_VALUE else
  size ← field_of mDataSize;
  let newSize := u64 (u64 (size + len) * 3) / 2 in
  if newSize <=? size then mret NO_MEMORY else continueWrite newSize.

(** ** Position, size and flags *)
Definition dataSize : P Z := field_of (fun p => if mDataPos p <? mDataSize p then mDataSize p else mDataPos p).
Definition dataPosition : P Z := field_of mDataPos.
Definition dataCapacity : P Z := field_of mDataCapacity.
Definition dataAvail : P Z := s ← dataSize; p ← dataPosition; mret (u64 (s - p)).

Definition setDataSize (size : Z) : P Z :=
  if INT32_MAX <? size then mret BAD_VALUE else
  and_then (continueWrite size) (_ ← modify_this (fun p => set_mDataSize p size); mret NO_ERROR).

Definition setDataPosition (pos : Z) : P unit :=
  if INT32_MAX <? pos then crash BUG else
  modify_this (fun p => set_mNextObjectHint (set_mDataPos p pos) 0).

Definition setDataCapacity (size : Z) : P Z :=
  if INT32_MAX <? size then mret BAD_VALUE else
  cap ← field_of mDataCapacity;
  if cap <? size then continueWrite size else mret NO_ERROR.

Definition setData (buffer : list Z) : P Z :=
  let len := Z.of_nat (length buffer) in
  if INT32_MAX <? len then mret BAD_VALUE else
  and_then (restartWrite len) (
    d ← field_of mData; _ ← mem_store d 0 buffer;
    _ ← modify_this (fun p => set_mFdsKnown (set_mDataSize p len) false);
    mret NO_ERROR).

Definition allowFds : P bool := field_of mAllowFds.
Definition pushAllowFds (allow : bool) : P bool :=
  orig ← field_of mAllowFds;
  _ ← if_then (negb allow) (modify_this (fun p => set_mAllowFds p false));
  mret orig.
Definition restoreAllowFds (last : bool) : P unit := modify_this (fun p => set_mAllowFds p last).
Definition errorCheck : P Z := field_of mError.
Definition setError (err : Z) : P unit := modify_this (fun p => set_mError p err).
Definition getBlobAshmemSize : P Z := field_of mOpenAshmemSize.
Definition getOpenAshmemSize : P Z := field_of mOpenAshmemSize.
Definition getGlobalAllocSize : P Z := ask gAllocSize.
Definition getGlobalAllocCount : P Z := ask gAllocCount.

(** [remove] is not implemented: [LOG_ALWAYS_FATAL] is defined to do nothing. *)
Definition remove (start amt : Z) : P unit := mret tt.

(** ** A received transaction *)

(** The offsets have to ascend, with room for an object between two of them. *)
Fixpoint offsets_ascend (objects i minOffset : Z) (n : nat) : P bool :=
  match n with
  | O => mret true
  | S n =>
      off ← load_cell objects i;
      if off <? minOffset then mret false else offsets_ascend objects (i + 1) (u64 (off + 24)) n
  end.

Definition ipcData : P Z := field_of mData.
Definition ipcDataSize : P Z := field_of (fun p => if mDataPos p <? mDataSize p then mDataSize p else mDataPos p).
Definition ipcObjects : P Z := field_of mObjects.
Definition ipcObjectsCount : P Z := field_of mObjectsSize.

Definition ipcSetDataReference (data dataSize objects objectsCount : Z) : P unit :=
  _ ← freeDataNoInit;
  _ ← modify_this (fun p =>
        set_mOwner (set_mNextObjectHint (set_mObjectsCapacity (set_mObjectsSize (set_mObjects (set_mDataPos
          (set_mDataCapacity (set_mDataSize (set_mData (set_mError p NO_ERROR) data) dataSize) dataSize) 0)
          objects) objectsCount) objectsCount) 0) true);
  ok ← offsets_ascend objects 0 0 (Z.to_nat objectsCount);
  _ ← if_then (negb ok) (modify_this (fun p => set_mObjectsSize p 0));
  scanForFds.
End Parcel.
