(* ===== verification/ParcelWrite.v ===== *)
(** * Parcels: the writers (libs/binder/Parcel.cpp)

    Each writes at the position, growing the buffer when it has to, and returns a
    [status_t]. *)
From S2P Require Import Prelude UserMem Protocol ParcelState Parcel.

(** A pointer into the data by its offset, [None] where it is NULL. *)
Definition pointer_at : P (option Z) :=
  d ← field_of mData; pos ← field_of mDataPos;
  mret (if (d =? 0) && (pos =? 0) then None else Some pos).

(** [binder->localBinder()], [binder->remoteBinder()->handle()]: a local object with
    its address and that of its reference counts, a proxy, or neither. *)
Inductive ibinder : Set :=
| LocalBinder (ptr refs : Z)
| RemoteBinder (handle : Z)
| NeitherBinder.

(** A weak pointer: its address, its counts, and what [promote] gives. *)
Record wbinder := MkWeak { wb_ptr : Z; wb_refs : Z; wb_promote : option ibinder }.

(** [native_handle]: a chunk of [int]s: version, [numFds], [numInts], [data]. *)
Definition sizeof_native_handle : Z := 12.

(** What [FlattenableHelperInterface] of an object answers: its sizes, the status of
    [flatten], and the bytes and descriptors that it stores. *)
Record flattenable := MkFlat {
  getFlattenedSize : Z;
  getFdCount : Z;
  flatten_status : Z;
  flatten_bytes : list Z;
  flatten_fds : list Z
}.

(** [Parcel::Blob]: where its data are. *)
Inductive blob_data : Set := InParcel (off : Z) | Mapped (addr : Z).
Record blob := MkBlob { blob_fd : Z; blob_at : blob_data; blob_size : Z; blob_mutable : bool }.

Definition BLOB_INPLACE_LIMIT : Z := 16 * 1024.
Definition BLOB_INPLACE : Z := 0.
Definition BLOB_ASHMEM_IMMUTABLE : Z := 1.
Definition BLOB_ASHMEM_MUTABLE : Z := 2.
Definition PROT_READ : Z := 1.
Definition PROT_WRITE : Z := 2.
Definition STRICT_MODE_PENALTY_GATHER : Z := Z.shiftl 64 16.

Section Write.
Context {E : ParcelEnv}.

Definition finishWrite (len : Z) : P Z :=
  if INT32_MAX <? len then mret BAD_VALUE else
  _ ← modify_this (fun p => set_mDataPos p (u64 (mDataPos p + len)));
  _ ← modify_this (fun p => if mDataSize p <? mDataPos p then set_mDataSize p (mDataPos p) else p);
  mret NO_ERROR.

(** [if (end <= mDataCapacity) restart_write: ...; else growData(len)], with the way
    back by [goto]: the room is not looked at again. *)
Definition with_room (end_ len : Z) (body : P Z) : P Z :=
  cap ← field_of mDataCapacity;
  if end_ <=? cap then body else and_then (growData len) body.

Definition store_here (l : list Z) : P unit :=
  d ← field_of mData; pos ← field_of mDataPos; mem_store d pos l.

Definition writeUnpadded (data : list Z) : P Z :=
  let len := Z.of_nat (length data) in
  if INT32_MAX <? len then mret BAD_VALUE else
  pos ← field_of mDataPos;
  let end_ := u64 (pos + len) in
  if end_ <? pos then mret BAD_VALUE else
  with_room end_ len (_ ← store_here data; finishWrite len).

(** [*reinterpret_cast<uint32_t*>(data+padded-4) &= mask[padded-len]] *)
Definition pad_mask (k : Z) : Z := if k =? 1 then 16777215 else if k =? 2 then 65535 else if k =? 3 then 255 else 0.
Definition pad_end (len padded : Z) : P unit :=
  if_then (negb (padded =? len)) (
    d ← field_of mData; pos ← field_of mDataPos;
    l ← mem_load d (pos + padded - 4) 4;
    mem_store d (pos + padded - 4) (le_bytes 4 (Z.land (le_val l) (pad_mask (padded - len))))).

Definition inplace_body (len padded : Z) : P (option Z) :=
  p ← pointer_at; _ ← pad_end len padded; _ ← finishWrite padded; mret p.

Definition writeInplace (len : Z) : P (option Z) :=
  if INT32_MAX <? len then mret None else
  padded ← pad_size len;
  pos ← field_of mDataPos; cap ← field_of mDataCapacity;
  if u64 (pos + padded) <? pos then mret None else
  if u64 (pos + padded) <=? cap then inplace_body len padded else
  err ← growData padded;
  if err =? NO_ERROR then inplace_body len padded else mret None.

(** [write(data, len)]: [memcpy] of the bytes to where [writeInplace] points. *)
Definition write (data : list Z) : P Z :=
  let len := Z.of_nat (length data) in
  if INT32_MAX <? len then mret BAD_VALUE else
  p ← writeInplace len;
  match p with
  | Some off => d ← field_of mData; _ ← mem_store d off data; mret NO_ERROR
  | None => field_of mError
  end.

(** [writeAligned]: a value of [n] bytes. *)
Definition writeAligned (n : nat) (val : Z) : P Z :=
  pos ← field_of mDataPos;
  with_room (u64 (pos + Z.of_nat n)) (Z.of_nat n) (_ ← store_here (le_bytes n val); finishWrite (Z.of_nat n)).

Definition writeInt32 (val : Z) : P Z := writeAligned 4 val.
Definition writeUint32 (val : Z) : P Z := writeAligned 4 val.
Definition writeInt64 (val : Z) : P Z := writeAligned 8 val.
Definition writeUint64 (val : Z) : P Z := writeAligned 8 val.
Definition writePointer (val : Z) : P Z := writeAligned 8 val.
(** A [float] and a [double] by their bits. *)
Definition writeFloat (bits : Z) : P Z := writeAligned 4 bits.
Definition writeDouble (bits : Z) : P Z := writeAligned 8 bits.
Definition writeNoException : P Z := writeInt32 0.

(** NULL, or the elements. *)
Definition writeInt32Array (val : option (list Z)) : P Z :=
  match val with
  | None => writeInt32 (-1)
  | Some l =>
      if INT32_MAX <? Z.of_nat (length l) then mret BAD_VALUE else
      and_then (writeInt32 (Z.of_nat (length l))) (write (l ≫= le_bytes 4))
  end.
Definition writeByteArray (val : option (list Z)) : P Z :=
  match val with
  | None => writeInt32 (-1)
  | Some l =>
      if INT32_MAX <? Z.of_nat (length l) then mret BAD_VALUE else
      and_then (writeInt32 (Z.of_nat (length l))) (write l)
  end.

(** The characters of a string without its NUL. *)
Definition writeCString (str : list Z) : P Z := write (str ++ [0]).
Definition writeString8 (str : list Z) : P Z :=
  err ← writeInt32 (Z.of_nat (length str));
  if (0 <? Z.of_nat (length str)) && (err =? NO_ERROR) then write (str ++ [0]) else mret err.

Definition writeString16 (str : option (list Z)) : P Z :=
  match str with
  | None => writeInt32 (-1)
  | Some s =>
      err ← writeInt32 (Z.of_nat (length s));
      if err =? NO_ERROR then
        let len := u64 (Z.of_nat (length s) * 2) in
        p ← writeInplace (u64 (len + 2));
        match p with
        | Some off =>
            d ← field_of mData;
            _ ← mem_store d off (bytes16 s);
            _ ← mem_store d (off + len) (le_bytes 2 0);
            mret NO_ERROR
        | None => field_of mError
        end
      else mret err
  end.

(** The body of [writeObject] after [restart_write]. *)
Definition put_object (val : flat_binder_object) (nullMetaData : bool) : P Z :=
  _ ← store_here (obj_bytes val);
  allow ← field_of mAllowFds;
  if (fo_type val =? BINDER_TYPE_FD) && negb allow then mret FDS_NOT_ALLOWED else
  _ ← if_then (fo_type val =? BINDER_TYPE_FD)
        (modify_this (fun p => set_mFdsKnown (set_mHasFds p true) true));
  _ ← if_then (nullMetaData || negb (fo_binder val =? 0)) (
        o ← field_of mObjects; n ← field_of mObjectsSize; pos ← field_of mDataPos;
        _ ← mem_store o n [pos];
        _ ← acquire_object val true;
        modify_this (fun p => set_mObjectsSize p (u64 (mObjectsSize p + 1))));
  finishWrite 24.

Definition grow_objects (newSize : Z) : P Z :=
  n ← field_of mObjectsSize; o ← field_of mObjects;
  if newSize <? n then mret NO_MEMORY else
  objects ← mem_realloc 8 o newSize;
  if objects =? 0 then mret NO_MEMORY else
  _ ← modify_this (fun p => set_mObjectsCapacity (set_mObjects p objects) newSize);
  mret NO_ERROR.

Definition writeObject (val : flat_binder_object) (nullMetaData : bool) : P Z :=
  pos ← field_of mDataPos; cap ← field_of mDataCapacity;
  n ← field_of mObjectsSize; ocap ← field_of mObjectsCapacity;
  let enoughData := u64 (pos + 24) <=? cap in
  let enoughObjects := n <? ocap in
  and_then (if enoughData then mret NO_ERROR else growData 24)
    (and_then (if (enoughObjects : bool) then mret NO_ERROR
               else n ← field_of mObjectsSize; grow_objects (u64 (u64 (n + 2) * 3) / 2))
      (put_object val nullMetaData)).

Definition flat_flags : Z := Z.lor 127 FLAT_BINDER_FLAG_ACCEPTS_FDS.
Definition null_object : flat_binder_object := MkObj BINDER_TYPE_BINDER flat_flags 0 0.

(** [flatten_binder] of a strong and of a weak pointer. *)
Definition strong_object (b : option ibinder) : flat_binder_object :=
  match b with
  | None => null_object
  | Some (LocalBinder ptr refs) => MkObj BINDER_TYPE_BINDER flat_flags refs ptr
  | Some (RemoteBinder handle) => MkObj BINDER_TYPE_HANDLE flat_flags (u32 handle) 0
  | Some NeitherBinder => MkObj BINDER_TYPE_HANDLE flat_flags 0 0
  end.
Definition weak_object (b : option wbinder) : flat_binder_object :=
  match b with
  | None => null_object
  | Some w =>
      match wb_promote w with
      | None => null_object
      | Some (LocalBinder _ _) => MkObj BINDER_TYPE_WEAK_BINDER flat_flags (wb_refs w) (wb_ptr w)
      | Some (RemoteBinder handle) => MkObj BINDER_TYPE_WEAK_HANDLE flat_flags (u32 handle) 0
      | Some NeitherBinder => MkObj BINDER_TYPE_WEAK_HANDLE flat_flags 0 0
      end
  end.
Definition writeStrongBinder (b : option ibinder) : P Z := writeObject (strong_object b) false.
Definition writeWeakBinder (b : option wbinder) : P Z := writeObject (weak_object b) false.

Definition writeFileDescriptor (fd : Z) (takeOwnership : bool) : P Z :=
  writeObject (MkObj BINDER_TYPE_FD flat_flags (u32 fd) (if takeOwnership then 1 else 0)) true.

(** [dup], whose failure is [-errno]. *)
Definition dup (fd : Z) : P Z :=
  new ← ask (fun w => dup_fd w fd);
  _ ← if_then (0 <=? new) (emit (Dup fd new));
  mret new.
(** As an [int]: -1 where it fails. *)
Definition dup_int (fd : Z) : P Z := new ← dup fd; mret (if new <? 0 then -1 else new).

Definition writeDupFileDescriptor (fd : Z) : P Z :=
  dupFd ← dup fd;
  if dupFd <? 0 then mret dupFd else
  err ← writeFileDescriptor dupFd true;
  _ ← if_then (negb (err =? NO_ERROR)) (emit (Close dupFd));
  mret err.

Fixpoint write_dup_fds (fds : list Z) : P Z :=
  match fds with
  | [] => mret NO_ERROR
  | fd :: fds => and_then (writeDupFileDescriptor fd) (write_dup_fds fds)
  end.

(** The handle is a chunk of [int]s: version, [numFds], [numInts], then the data. *)
Definition writeNativeHandle (h : Z) : P Z :=
  if h =? 0 then mret BAD_TYPE else
  version ← load_cell h 0;
  if negb (version =? sizeof_native_handle) then mret BAD_TYPE else
  numFds ← load_cell h 1;
  numInts ← load_cell h 2;
  and_then (writeInt32 numFds) (and_then (writeInt32 numInts) (
    fds ← mem_load h 3 (Z.to_nat numFds);
    and_then (write_dup_fds fds) (
      if INT32_MAX <? u64 (4 * numInts) then mret BAD_VALUE else
      ints ← mem_load h (3 + numFds) (Z.to_nat numInts);
      write (ints ≫= le_bytes 4)))).

(** [write(const FlattenableHelperInterface&)] *)
Definition writeFlattenable (v : flattenable) : P Z :=
  let len := getFlattenedSize v in
  let fd_count := getFdCount v in
  if (INT32_MAX <? len) || (INT32_MAX <? fd_count) then mret BAD_VALUE else
  and_then (writeInt32 len) (and_then (writeInt32 fd_count) (
    padded ← pad_size len;
    buf ← writeInplace padded;
    match buf with
    | None => mret BAD_VALUE
    | Some off =>
        d ← field_of mData;
        _ ← mem_store d off (flatten_bytes v);
        and_then (mret (flatten_status v)) (write_dup_fds (take (Z.to_nat fd_count) (flatten_fds v)))
    end)).

(** [writeBlob]: the status and the blob. *)
Definition blob_mmap (len : Z) (mutableCopy : bool) (fd : Z) : P (Z * option blob) :=
  ptr ← ask (fun w => mmap_at w len fd);
  if ptr <? 0 then _ ← emit (Unmap (-1) len); mret (ptr, None) else
  result ← (if mutableCopy then mret 0 else ask (fun w => ashmem_set_prot_region w fd PROT_READ));
  status ← (if result <? 0 then mret result else
            and_then (writeInt32 (if mutableCopy then BLOB_ASHMEM_MUTABLE else BLOB_ASHMEM_IMMUTABLE))
              (writeFileDescriptor fd true));
  if status =? NO_ERROR then mret (NO_ERROR, Some (MkBlob fd (Mapped ptr) len mutableCopy))
  else _ ← emit (Unmap ptr len); mret (status, None).

Definition writeBlob (len : Z) (mutableCopy : bool) : P (Z * option blob) :=
  if INT32_MAX <? len then mret (BAD_VALUE, None) else
  allow ← field_of mAllowFds;
  if negb allow || (len <=? BLOB_INPLACE_LIMIT) then
    status ← writeInt32 BLOB_INPLACE;
    if negb (status =? NO_ERROR) then mret (status, None) else
    p ← writeInplace len;
    match p with
    | None => mret (NO_MEMORY, None)
    | Some off => mret (NO_ERROR, Some (MkBlob (-1) (InParcel off) len false))
    end
  else
    fd ← ask (fun w => ashmem_create_region w len);
    if fd <? 0 then mret (NO_MEMORY, None) else
    result ← ask (fun w => ashmem_set_prot_region w fd (Z.lor PROT_READ PROT_WRITE));
    r ← (if result <? 0 then mret (result, None) else blob_mmap len mutableCopy fd);
    _ ← if_then (negb (fst r =? NO_ERROR)) (emit (Close fd));
    mret r.

(** [Blob::release]: a mapping is undone. *)
Definition blob_release (b : blob) : P blob :=
  _ ← (match blob_at b with
       | Mapped addr => if_then (negb (blob_fd b =? -1) && negb (addr =? 0)) (emit (Unmap addr (blob_size b)))
       | InParcel _ => mret tt
       end);
  mret (MkBlob (-1) (Mapped 0) 0 false).

Definition writeDupImmutableBlobFileDescriptor (fd : Z) : P Z :=
  allow ← field_of mAllowFds;
  if negb allow then mret FDS_NOT_ALLOWED else
  and_then (writeInt32 BLOB_ASHMEM_IMMUTABLE) (writeDupFileDescriptor fd).

Definition writeInterfaceToken (interface : list Z) : P Z :=
  policy ← ask mStrictModePolicy;
  _ ← writeInt32 (Z.lor policy STRICT_MODE_PENALTY_GATHER);
  writeString16 (Some interface).

(** ** [appendFrom] *)

(** The first and the last object of the source inside the range, -1 and -2 if none. *)
Fixpoint objects_in_range (objects offset len i : Z) (n : nat) (found : Z * Z) : P (Z * Z) :=
  match n with
  | O => mret found
  | S n =>
      off ← load_cell objects i;
      let found := if (offset <=? off) && (u64 (off + 24) <=? u64 (offset + len))
                   then (if fst found =? -1 then i else fst found, i) else found in
      objects_in_range objects offset len (i + 1) n found
  end.

(** The objects from [i] on are entered at their new places and acquired; descriptors
    are duplicated.  The result is the status. *)
Fixpoint append_objects (objects offset startPos i : Z) (n : nat) (err : Z) : P Z :=
  match n with
  | O => mret err
  | S n =>
      x ← load_cell objects i;
      let off := u64 (x - offset + startPos) in
      o ← field_of mObjects; idx ← field_of mObjectsSize;
      _ ← mem_store o idx [off];
      _ ← modify_this (fun p => set_mObjectsSize p (u64 (mObjectsSize p + 1)));
      obj ← flat_at off;
      _ ← acquire_object obj true;
      if fo_type obj =? BINDER_TYPE_FD then
        d ← field_of mData;
        new ← dup_int (fo_int obj);
        _ ← mem_store d (off + 8) (le_bytes 4 new);
        _ ← mem_store d (off + 16) (le_bytes 8 1);
        _ ← modify_this (fun p => set_mFdsKnown (set_mHasFds p true) true);
        allow ← field_of mAllowFds;
        append_objects objects offset startPos (i + 1) n (if (allow : bool) then err else FDS_NOT_ALLOWED)
      else append_objects objects offset startPos (i + 1) n err
  end.

(** The source may be the parcel itself: its fields are read before anything changes. *)
Definition appendFrom (src : parcel) (offset len : Z) : P Z :=
  let data := mData src in
  let objects := mObjects src in
  startPos ← field_of (fun p => s32 (mDataPos p));
  if len =? 0 then mret NO_ERROR else
  if INT32_MAX <? len then mret BAD_VALUE else
  if (mDataSize src <? offset) || (mDataSize src <? len) || (mDataSize src <? u64 (offset + len)) then mret BAD_VALUE else
  range ← objects_in_range objects offset len 0 (Z.to_nat (s32 (mObjectsSize src))) (-1, -2);
  let firstIndex := fst range in
  let numObjects := snd range - firstIndex + 1 in
  size ← field_of mDataSize; cap ← field_of mDataCapacity;
  and_then (if cap <? u64 (size + len) then growData len else mret NO_ERROR) (
    d ← field_of mData; pos ← field_of mDataPos;
    l ← mem_load data offset (Z.to_nat len);
    _ ← mem_store d pos l;
    _ ← modify_this (fun p => set_mDataSize (set_mDataPos p (u64 (mDataPos p + len))) (u64 (mDataSize p + len)));
    if numObjects <=? 0 then mret NO_ERROR else
    n ← field_of mObjectsSize; ocap ← field_of mObjectsCapacity;
    and_then (if ocap <? u64 (n + numObjects) then grow_objects (u64 (u64 (n + numObjects) * 3) / 2) else mret NO_ERROR)
      (append_objects objects offset startPos firstIndex (Z.to_nat numObjects) NO_ERROR)).
End Write.
