(* ===== verification/ParcelRead.v ===== *)
(** * Parcels: the readers (libs/binder/Parcel.cpp)

    Each reads at the position and moves it; what is not there is an error status,
    zero or NULL. *)
From S2P Require Import Prelude UserMem Protocol ParcelState Parcel ParcelWrite.

(** [EX_HAS_REPLY_HEADER] *)
Definition EX_HAS_REPLY_HEADER : Z := -128.
Definition FLAG_ONEWAY : Z := 1.

(** What [unflatten_binder] stores: a pointer received as is, or the proxy of a
    handle ([None]: there is none). *)
Inductive binder_in : Set :=
| LocalIn (cookie : Z)
| WeakIn (cookie refs : Z)
| ProxyIn (handle : option Z).

Section Read.
Context {E : ParcelEnv}.

(** The test of [read] and [readInplace], and the way on. *)
Definition with_data {A} (len : Z) (body : Z -> P A) (none : P A) : P A :=
  padded ← pad_size len;
  pos ← field_of mDataPos; size ← field_of mDataSize;
  if (pos <=? u64 (pos + padded)) && (u64 (pos + padded) <=? size) && (len <=? padded) then body padded else none.
Definition move_on (n : Z) : P unit := modify_this (fun p => set_mDataPos p (u64 (mDataPos p + n))).

Definition read (len : Z) : P (Z * list Z) :=
  if INT32_MAX <? len then mret (BAD_VALUE, []) else
  with_data len (fun padded =>
    d ← field_of mData; pos ← field_of mDataPos;
    l ← mem_load d pos (Z.to_nat len);
    _ ← move_on padded; mret (NO_ERROR, l)) (mret (NOT_ENOUGH_DATA, [])).

Definition readInplace (len : Z) : P (option Z) :=
  if INT32_MAX <? len then mret None else
  with_data len (fun padded => p ← pointer_at; _ ← move_on padded; mret p) (mret None).

(** [readAligned]: the status, and the value of [n] bytes if there is one. *)
Definition readAligned (n : nat) : P (Z * option Z) :=
  pos ← field_of mDataPos; size ← field_of mDataSize;
  if u64 (pos + Z.of_nat n) <=? size then
    d ← field_of mData;
    l ← mem_load d pos n;
    _ ← move_on (Z.of_nat n);
    mret (NO_ERROR, Some (le_val l))
  else mret (NOT_ENOUGH_DATA, None).
(** The other form: 0 if there is none. *)
Definition readAligned_value (n : nat) : P Z := '(_, v) ← readAligned n; mret (default 0 v).

Definition readInt32_status : P (Z * option Z) := '(st, v) ← readAligned 4; mret (st, s32 <$> v).
Definition readInt32 : P Z := v ← readAligned_value 4; mret (s32 v).
Definition readUint32_status : P (Z * option Z) := readAligned 4.
Definition readUint32 : P Z := readAligned_value 4.
Definition readInt64_status : P (Z * option Z) := '(st, v) ← readAligned 8; mret (st, s64 <$> v).
Definition readInt64 : P Z := v ← readAligned_value 8; mret (s64 v).
Definition readUint64_status : P (Z * option Z) := readAligned 8.
Definition readUint64 : P Z := readAligned_value 8.
Definition readPointer_status : P (Z * option Z) := readAligned 8.
Definition readPointer : P Z := readAligned_value 8.
(** A [float] and a [double] by their bits. *)
Definition readFloat : P Z := readAligned_value 4.
Definition readDouble : P Z := readAligned_value 8.
Definition readIntPtr : P Z := v ← readAligned_value 8; mret (s64 v).

(** [memchr(str, 0, avail)]: the characters before the NUL, if it comes in time. *)
Fixpoint cstring_at (d off : Z) (avail : nat) : P (option (list Z)) :=
  match avail with
  | O => mret None
  | S avail =>
      c ← load_cell d off;
      if c =? 0 then mret (Some []) else
      s ← cstring_at d (off + 1) avail; mret (cons c <$> s)
  end.
Definition readCString : P (option (list Z)) :=
  pos ← field_of mDataPos; size ← field_of mDataSize;
  let avail := u64 (size - pos) in
  if 0 <? avail then
    d ← field_of mData;
    str ← cstring_at d pos (Z.to_nat avail);
    match str with
    | None => mret None
    | Some s => padded ← pad_size (Z.of_nat (length s) + 1); _ ← move_on padded; mret (Some s)
    end
  else mret None.

Definition data_at (off : Z) (n : nat) : P (list Z) := d ← field_of mData; mem_load d off n.

Definition readString8 : P (list Z) :=
  size ← readInt32;
  if (0 <? size) && (size <? INT32_MAX) then
    str ← readInplace (size + 1);
    match str with Some off => data_at off (Z.to_nat size) | None => mret [] end
  else mret [].

(** Where the units are, and how many. *)
Definition readString16Inplace : P (option Z * Z) :=
  size ← readInt32;
  if (0 <=? size) && (size <? INT32_MAX) then
    str ← readInplace (u64 ((size + 1) * 2));
    match str with Some off => mret (Some off, size) | None => mret (None, 0) end
  else mret (None, 0).
Definition readString16 : P (list Z) :=
  '(str, len) ← readString16Inplace;
  match str with
  | Some off => l ← data_at off (Z.to_nat (len * 2)); mret (units l)
  | None => mret []
  end.

Definition readExceptionCode : P Z :=
  exception_code ← readInt32;
  if exception_code =? EX_HAS_REPLY_HEADER then
    header_start ← field_of (fun p => s32 (mDataPos p));
    header_size ← readInt32;
    _ ← setDataPosition (u64 (s32 (header_start + header_size)));
    mret 0
  else mret exception_code.

(** ** Objects *)

(** The searches of [readObject]: forwards while the entry is smaller, backwards
    while it is larger. *)
Fixpoint seek_forward (objects dpos : Z) (opos : Z) (n : nat) : P Z :=
  match n with
  | O => mret opos
  | S n => off ← load_cell objects opos; if off <? dpos then seek_forward objects dpos (opos + 1) n else mret opos
  end.
Fixpoint seek_backward (objects dpos : Z) (opos : nat) : P Z :=
  match opos with
  | O => mret 0
  | S k => off ← load_cell objects (Z.of_nat opos); if dpos <? off then seek_backward objects dpos k else mret (Z.of_nat opos)
  end.

Definition find_object (dpos : Z) : P bool :=
  objects ← field_of mObjects; n ← field_of mObjectsSize; hint ← field_of mNextObjectHint;
  if n <=? 0 then mret false else
  opos ← (if hint <? n then seek_forward objects dpos hint (Z.to_nat (n - 1 - hint)) else mret (n - 1));
  off ← load_cell objects opos;
  if off =? dpos then _ ← modify_this (fun p => set_mNextObjectHint p (opos + 1)); mret true else
  opos ← seek_backward objects dpos (Z.to_nat opos);
  off ← load_cell objects opos;
  if off =? dpos then _ ← modify_this (fun p => set_mNextObjectHint p (opos + 1)); mret true else
  mret false.

Definition readObject (nullMetaData : bool) : P (option flat_binder_object) :=
  dpos ← field_of mDataPos; size ← field_of mDataSize;
  if u64 (dpos + 24) <=? size then
    obj ← flat_at dpos;
    _ ← modify_this (fun p => set_mDataPos p (u64 (dpos + 24)));
    if negb nullMetaData && ((fo_cookie obj =? 0) && (fo_binder obj =? 0)) then mret (Some obj) else
    found ← find_object dpos;
    mret (if (found : bool) then Some obj else None)
  else mret None.

(** [unflatten_binder] for a strong and for a weak pointer, with the status. *)
Definition proxy_of (obj : flat_binder_object) : binder_in :=
  ProxyIn (if has_proxy (fo_int obj) then Some (fo_int obj) else None).
Definition unflatten_strong : P (Z * option binder_in) :=
  flat ← readObject false;
  mret match flat with
  | None => (BAD_TYPE, None)
  | Some obj =>
      if fo_type obj =? BINDER_TYPE_BINDER then (NO_ERROR, Some (LocalIn (fo_cookie obj)))
      else if fo_type obj =? BINDER_TYPE_HANDLE then (NO_ERROR, Some (proxy_of obj))
      else (BAD_TYPE, None)
  end.
Definition unflatten_weak : P (Z * option binder_in) :=
  flat ← readObject false;
  mret match flat with
  | None => (BAD_TYPE, None)
  | Some obj =>
      if fo_type obj =? BINDER_TYPE_BINDER then (NO_ERROR, Some (LocalIn (fo_cookie obj)))
      else if fo_type obj =? BINDER_TYPE_WEAK_BINDER then
        (NO_ERROR, if negb (fo_binder obj =? 0) then Some (WeakIn (fo_cookie obj) (fo_binder obj)) else None)
      else if (fo_type obj =? BINDER_TYPE_HANDLE) || (fo_type obj =? BINDER_TYPE_WEAK_HANDLE) then
        (NO_ERROR, Some (proxy_of obj))
      else (BAD_TYPE, None)
  end.
Definition readStrongBinder : P (option binder_in) := r ← unflatten_strong; mret (snd r).
Definition readWeakBinder : P (option binder_in) := r ← unflatten_weak; mret (snd r).

Definition readFileDescriptor : P Z :=
  flat ← readObject true;
  mret match flat with
  | Some obj => if fo_type obj =? BINDER_TYPE_FD then fo_int obj else BAD_TYPE
  | None => BAD_TYPE
  end.

(** ** Native handles (libs/cutils/native_handle.c) *)
Definition kMaxNativeFds : Z := 1024.
Definition kMaxNativeInts : Z := 1024.
Definition native_handle_create (numFds numInts : Z) : P Z :=
  if (numFds <? 0) || (numInts <? 0) || (kMaxNativeFds <? numFds) || (kMaxNativeInts <? numInts) then mret 0 else
  h ← mem_alloc 4 (3 + (numFds + numInts)) false;
  if h =? 0 then mret 0 else
  _ ← mem_store h 0 [sizeof_native_handle; numFds; numInts]; mret h.
Definition native_handle_delete (h : Z) : P Z :=
  if h =? 0 then mret 0 else
  version ← load_cell h 0;
  if negb (version =? sizeof_native_handle) then mret (-22) else _ ← mem_free h; mret 0.
Fixpoint close_all (fds : list Z) : P unit :=
  match fds with [] => mret tt | fd :: fds => _ ← emit (Close fd); close_all fds end.
Definition native_handle_close (h : Z) : P Z :=
  version ← load_cell h 0;
  if negb (version =? sizeof_native_handle) then mret (-22) else
  numFds ← load_cell h 1;
  fds ← mem_load h 3 (Z.to_nat numFds);
  _ ← close_all fds; mret 0.

(** The loop of [readNativeHandle] over the descriptors, from the [i]-th on. *)
Fixpoint read_handle_fds (h i : Z) (n : nat) : P Z :=
  match n with
  | O => mret NO_ERROR
  | S n =>
      fd ← readFileDescriptor;
      new ← dup_int fd;
      _ ← mem_store h (3 + i) [new];
      if new <? 0 then mret BAD_VALUE else read_handle_fds h (i + 1) n
  end.
(** Consecutive [int]s. *)
Fixpoint ints_of (n : nat) (l : list Z) : list Z :=
  match n with O => [] | S n => s32 (le_val (take 4 l)) :: ints_of n (drop 4 l) end.

(** The status of the loop is replaced by that of [read]. *)
Definition readNativeHandle : P Z :=
  r ← readInt32_status;
  let numFds := default 0 (snd r) in
  if negb (fst r =? NO_ERROR) then mret 0 else
  r ← readInt32_status;
  let numInts := default 0 (snd r) in
  if negb (fst r =? NO_ERROR) then mret 0 else
  h ← native_handle_create numFds numInts;
  if h =? 0 then mret 0 else
  _ ← read_handle_fds h 0 (Z.to_nat numFds);
  r ← read (u64 (4 * numInts));
  if negb (fst r =? NO_ERROR) then _ ← native_handle_close h; _ ← native_handle_delete h; mret 0 else
  _ ← mem_store h (3 + numFds) (ints_of (Z.to_nat numInts) (snd r));
  mret h.

(** [readBlob]: the status and the blob. *)
Definition readBlob (len : Z) : P (Z * option blob) :=
  r ← readInt32_status;
  let blobType := default 0 (snd r) in
  if negb (fst r =? NO_ERROR) then mret (fst r, None) else
  if blobType =? BLOB_INPLACE then
    p ← readInplace len;
    match p with
    | None => mret (BAD_VALUE, None)
    | Some off => mret (NO_ERROR, Some (MkBlob (-1) (InParcel off) len false))
    end
  else
    fd ← readFileDescriptor;
    if fd =? BAD_TYPE then mret (BAD_VALUE, None) else
    ptr ← ask (fun w => mmap_at w len fd);
    if ptr <? 0 then mret (NO_MEMORY, None)
    else mret (NO_ERROR, Some (MkBlob fd (Mapped ptr) len (blobType =? BLOB_ASHMEM_MUTABLE))).

(** [read(FlattenableHelperInterface&)]: [unflatten] gets the bytes and duplicates
    of the descriptors.  [new int[fd_count]] of a size that is too large aborts. *)
Fixpoint read_fds (n : nat) : P (Z * list Z) :=
  match n with
  | O => mret (NO_ERROR, [])
  | S n =>
      fd ← readFileDescriptor;
      new ← dup_int fd;
      if new <? 0 then mret (BAD_VALUE, [new]) else
      r ← read_fds n; mret (fst r, new :: snd r)
  end.
Definition readFlattenable (unflatten : list Z -> list Z -> Z) : P Z :=
  len ← readInt32;
  fd_count ← readInt32;
  let len := u64 len in
  let fd_count := u64 fd_count in
  if INT32_MAX <? len then mret BAD_VALUE else
  padded ← pad_size len;
  buf ← readInplace padded;
  match buf with
  | None => mret BAD_VALUE
  | Some off =>
      if INT32_MAX <? fd_count then crash BUG else
      r ← read_fds (Z.to_nat fd_count);
      if negb (fst r =? NO_ERROR) then mret (fst r) else
      l ← data_at off (Z.to_nat len);
      mret (unflatten l (snd r))
  end.

(** The interface token: the strict-mode policy of the caller is taken over, unless
    it does not wait. *)
Definition enforceInterface (interface : list Z) : P bool :=
  strictPolicy ← readInt32;
  flags ← ask lastTransactionFlags;
  _ ← modify_world (fun w => set_mStrictModePolicy w (if Z.land flags FLAG_ONEWAY =? 0 then strictPolicy else 0));
  str ← readString16;
  mret (bool_decide (str = interface)).
End Read.
