(* ===== verification/ParcelInv.v ===== *)
(** * Reasoning about parcels

    [pwp m Q s]: run in state [s], [m] does not fault and ends with a result and in a
    state that satisfy [Q].  One rule per primitive of [ParcelState]; [psteps]
    applies those that leave nothing to choose. *)
From S2P Require Import Prelude UserMem Protocol ParcelState Parcel.

Definition pwp {A} (m : P A) (Q : A -> pstate -> Prop) (s : pstate) : Prop :=
  match m s with Ok (a, s') => Q a s' | Fault _ => False end.

Implicit Types (s : pstate) (w n off : Z) (l : list Z).

Section Rules.
Lemma pwp_bind {A B} (m : P A) (f : A -> P B) Q s : pwp m (fun a s => pwp (f a) Q s) s -> pwp (m ≫= f) Q s.
Proof. unfold pwp, mbind, P_bind. by destruct (m s) as [[a s']|]. Qed.
Lemma pwp_mono {A} (m : P A) (Q Q' : A -> pstate -> Prop) s :
  pwp m Q s -> (forall a s', Q a s' -> Q' a s') -> pwp m Q' s.
Proof. unfold pwp. destruct (m s) as [[a s']|]; auto. Qed.
Lemma pwp_ret {A} (a : A) (Q : A -> pstate -> Prop) s : Q a s -> pwp (mret a) Q s.
Proof. done. Qed.
Lemma pwp_field {A} (f : parcel -> A) (Q : A -> pstate -> Prop) s : Q (f (this s)) s -> pwp (field_of f) Q s.
Proof. done. Qed.
Lemma pwp_ask {A} (f : world -> A) (Q : A -> pstate -> Prop) s : Q (f (world_of s)) s -> pwp (ask f) Q s.
Proof. done. Qed.
Lemma pwp_modify_this f Q s : Q tt (MkP (f (this s)) (world_of s)) -> pwp (modify_this f) Q s.
Proof. done. Qed.
Lemma pwp_modify_world f Q s : Q tt (MkP (this s) (f (world_of s))) -> pwp (modify_world f) Q s.
Proof. done. Qed.
Lemma pwp_if_then (c : bool) m (Q : unit -> pstate -> Prop) s :
  (c = true -> pwp m Q s) -> (c = false -> Q tt s) -> pwp (if_then c m) Q s.
Proof. destruct c; cbn; auto. Qed.
Lemma pwp_if {A} (c : bool) (m1 m2 : P A) Q s :
  (c = true -> pwp m1 Q s) -> (c = false -> pwp m2 Q s) -> pwp (if c then m1 else m2) Q s.
Proof. destruct c; auto. Qed.
Lemma pwp_and_then m k (Q : Z -> pstate -> Prop) s :
  pwp m (fun err s => (err = NO_ERROR -> pwp k Q s) /\ (err ≠ NO_ERROR -> Q err s)) s -> pwp (and_then m k) Q s.
Proof.
  intros H. apply pwp_bind. eapply pwp_mono; [exact H|]. intros err s' [H1 H2]. cbn beta.
  destruct (Z.eqb_spec err NO_ERROR) as [->|Hn]; [by apply H1|by apply H2].
Qed.
Lemma pwp_conj {A} (m : P A) (Q Q' : A -> pstate -> Prop) s :
  pwp m Q s -> pwp m Q' s -> pwp m (fun a s => Q a s /\ Q' a s) s.
Proof. unfold pwp. by destruct (m s) as [[a s']|]. Qed.
(** The outcome as an equation. *)
Lemma pwp_run {A} (m : P A) Q s : pwp m Q s <-> exists a s', m s = Ok (a, s') /\ Q a s'.
Proof.
  unfold pwp. destruct (m s) as [[a s']|]; split; eauto; [|done|].
  - by intros (a' & s'' & [= <- <-] & H).
  - by intros (a' & s'' & ? & H).
Qed.
End Rules.

Ltac pstep :=
  lazymatch goal with
  | |- pwp (_ ≫= _) _ _ => apply pwp_bind
  | |- pwp (mret _) _ _ => apply pwp_ret
  | |- pwp (field_of _) _ _ => apply pwp_field
  | |- pwp (ask _) _ _ => apply pwp_ask
  | |- pwp (modify_this _) _ _ => apply pwp_modify_this
  | |- pwp (modify_world _) _ _ => apply pwp_modify_world
  | |- pwp (emit _) _ _ => apply pwp_modify_world
  | |- pwp (and_then _ _) _ _ => apply pwp_and_then
  end.
Ltac psteps := repeat (pstep; cbn beta iota).
(** Decide the condition of an [if] by its comparisons. *)
Ltac pif :=
  lazymatch goal with
  | |- pwp (if ?c then _ else _) _ _ => apply pwp_if; intros ?C
  | |- pwp (if_then ?c _) _ _ => apply pwp_if_then; intros ?C
  end.

(** ** Lists of cells *)
Section Splice.
Lemma splice_length i (m : list Z) l : (i + length m <= length l)%nat -> length (splice i m l) = length l.
Proof. intros H. unfold splice. rewrite !length_app, length_take, length_drop. lia. Qed.
Lemma splice_app i (m l1 l2 l3 : list Z) : length l1 = i -> length l2 = length m -> splice i m (l1 ++ l2 ++ l3) = l1 ++ m ++ l3.
Proof.
  intros <- H. unfold splice. rewrite take_app_length. f_equal. f_equal.
  rewrite app_assoc. by rewrite drop_app_length' by (rewrite length_app; lia).
Qed.
Lemma splice_bytes i (m : list Z) l : Forall is_byte m -> Forall is_byte l -> Forall is_byte (splice i m l).
Proof. intros Hm Hl. unfold splice. apply Forall_app_2; [by apply Forall_take|]. apply Forall_app_2; [done|by apply Forall_drop]. Qed.
End Splice.

Section MemoryRules.
Context {E : ParcelEnv}.

Lemma pwp_load p off (k : nat) b l (Q : list Z -> pstate -> Prop) s :
  heap (world_of s) !! p = Some (MkChunk b l) -> 0 <= off -> off + Z.of_nat k <= Z.of_nat (length l) ->
  Q (take k (drop (Z.to_nat off) l)) s -> pwp (mem_load p off k) Q s.
Proof.
  intros Hp H1 H2 HQ. unfold mem_load. destruct (Nat.eqb_spec k 0) as [->|Hk]; [exact HQ|].
  psteps. rewrite Hp. cbn [cells].
  by rewrite (proj2 (Z.leb_le 0 off) H1), (proj2 (Z.leb_le _ _) H2).
Qed.
Lemma pwp_load_none p off (Q : list Z -> pstate -> Prop) s : Q [] s -> pwp (mem_load p off 0) Q s.
Proof. done. Qed.

Lemma pwp_load_cell p i x b l (Q : Z -> pstate -> Prop) s :
  heap (world_of s) !! p = Some (MkChunk b l) -> 0 <= i -> l !! Z.to_nat i = Some x -> Q x s -> pwp (load_cell p i) Q s.
Proof.
  intros Hp Hi Hx HQ. apply lookup_lt_Some in Hx as Hl. apply pwp_bind. eapply pwp_load; [exact Hp|done|lia|].
  apply pwp_ret. by rewrite (drop_S l x) by done.
Qed.

Lemma pwp_store p off m l (Q : unit -> pstate -> Prop) s :
  heap (world_of s) !! p = Some (MkChunk true l) -> 0 <= off -> off + Z.of_nat (length m) <= Z.of_nat (length l) ->
  Q tt (MkP (this s) (set_heap (world_of s) (<[p := MkChunk true (splice (Z.to_nat off) m l)]> (heap (world_of s))))) ->
  pwp (mem_store p off m) Q s.
Proof.
  intros Hp H1 H2 HQ. unfold mem_store. destruct (Nat.eqb_spec (length m) 0) as [H0|Hk].
  - apply nil_length_inv in H0 as ->. assert (splice (Z.to_nat off) [] l = l) as Hs by (unfold splice; cbn; rewrite Nat.add_0_r; apply take_drop).
    rewrite Hs, insert_id in HQ by done. destruct s as [t [h ? ? ? ? ?]]. exact HQ.
  - psteps. rewrite Hp. cbn [writable cells].
    by rewrite (proj2 (Z.leb_le 0 off) H1), (proj2 (Z.leb_le _ _) H2).
Qed.
Lemma pwp_store_nil p off (Q : unit -> pstate -> Prop) s : Q tt s -> pwp (mem_store p off []) Q s.
Proof. done. Qed.

Lemma pwp_free p l (Q : unit -> pstate -> Prop) s : p ≠ 0 -> heap (world_of s) !! p = Some (MkChunk true l) ->
  Q tt (MkP (this s) (set_heap (world_of s) (delete p (heap (world_of s))))) -> pwp (mem_free p) Q s.
Proof. intros Hn Hp HQ. unfold mem_free. rewrite (proj2 (Z.eqb_neq p 0)) by done. psteps. by rewrite Hp. Qed.

(** An allocation that fails. *)
Definition short_of_memory : Prop := (exists x n, malloc_at x n = None) \/ (exists x p n, realloc_at x p n = None).
Definition no_memory (err : Z) : Prop := err = NO_MEMORY /\ short_of_memory.

Lemma pwp_alloc {L : ParcelEnvLaws E} w n z (Q : Z -> pstate -> Prop) s : 0 <= n ->
  (short_of_memory -> Q 0 s) ->
  (forall p l, 0 < p -> heap (world_of s) !! p = None -> length l = Z.to_nat n ->
    Forall (fun x => 0 <= x < 256 ^ w) l -> (z = true -> l = replicate (Z.to_nat n) 0) ->
    Q p (MkP (this s) (set_heap (world_of s) (<[p := MkChunk true l]> (heap (world_of s)))))) ->
  0 < w -> pwp (mem_alloc w n z) Q s.
Proof.
  intros Hn H0 H Hw. unfold mem_alloc. psteps. destruct (malloc_at _ _) as [p|] eqn:Em; [|apply H0; left; eauto]. psteps.
  apply malloc_fresh in Em as [Hp Hf]. destruct z.
  - apply H; [done|done|by rewrite length_replicate|apply Forall_replicate; lia|done].
  - apply H; [done|done|by rewrite uninit_length|by apply uninit_range|done].
Qed.

Lemma resized_length {L : ParcelEnvLaws E} w q (k : nat) l : length (resized w q k l) = k.
Proof. unfold resized. rewrite length_take, length_app, length_drop, uninit_length. lia. Qed.
Lemma resized_prefix {L : ParcelEnvLaws E} w q (k : nat) l : 0 < w -> (length l <= k)%nat ->
  exists r, resized w q k l = l ++ r /\ (Forall (fun x => 0 <= x < 256 ^ w) r).
Proof.
  intros Hw H. unfold resized. rewrite take_app_ge by done. eexists. split; [done|].
  by apply Forall_take, Forall_drop, uninit_range.
Qed.

(** [realloc] to a size that is not 0: no memory, or the chunk at its new place. *)
Lemma pwp_realloc {L : ParcelEnvLaws E} w p n l (Q : Z -> pstate -> Prop) s : p ≠ 0 ->
  heap (world_of s) !! p = Some (MkChunk true l) -> 0 < w * n < 2 ^ 64 ->
  (short_of_memory -> Q 0 s) ->
  (forall q, 0 < q -> q = p \/ heap (world_of s) !! q = None ->
    Q q (MkP (this s) (set_heap (world_of s) (<[q := MkChunk true (resized w q (Z.to_nat n) l)]> (delete p (heap (world_of s))))))) ->
  pwp (mem_realloc w p n) Q s.
Proof.
  intros Hn Hp Hw H0 H. unfold mem_realloc. rewrite (proj2 (Z.eqb_neq p 0)) by done. psteps. rewrite Hp.
  rewrite u64_small by lia. rewrite (proj2 (Z.eqb_neq (w * n) 0)) by lia. psteps.
  destruct (realloc_at _ _ _) as [q|] eqn:Em; [|apply H0; right; eauto]. psteps.
  apply realloc_fresh in Em as [Hq Hf]. by apply H.
Qed.
Lemma pwp_realloc_null {L : ParcelEnvLaws E} w n (Q : Z -> pstate -> Prop) s :
  pwp (mem_alloc w n false) Q s -> pwp (mem_realloc w 0 n) Q s.
Proof. done. Qed.
End MemoryRules.

(** ** Parcels: the invariant

    [holds dt os s]: the parcel owns its buffers, [dt] are its data and [os] the
    offsets of its objects.  [account s]: what the rest of the process has, namely
    the memory, the statistics and the references that are not this parcel's. *)

Implicit Types (dt os : list Z) (p : Z).

(** ** Buffers *)

(** [l] is at the start of the buffer at [p] of [cap] cells; NULL is no buffer. *)
Definition buffer (P : Z -> Prop) (h : gmap Z chunk) p (cap : Z) l : Prop :=
  p = 0 /\ cap = 0 /\ l = [] \/
  0 < p /\ exists rest, h !! p = Some (MkChunk true (l ++ rest)) /\ Z.of_nat (length (l ++ rest)) = cap /\ Forall P rest.

(** Offsets of objects in [n] bytes: ascending, without overlap. *)
Definition objects_fit os n : Prop :=
  StronglySorted (fun a b => a + 24 <= b) os /\ Forall (fun a => 0 <= a /\ a + 24 <= n) os.

Record holds dt os s : Prop := {
  hd_owner : mOwner (this s) = false;
  hd_size : mDataSize (this s) = Z.of_nat (length dt);
  hd_bytes : Forall is_byte dt;
  hd_data : buffer is_byte (heap (world_of s)) (mData (this s)) (mDataCapacity (this s)) dt;
  hd_cap : mDataCapacity (this s) <= INT32_MAX;
  hd_pos : 0 <= mDataPos (this s) <= Z.of_nat (length dt);
  hd_count : mObjectsSize (this s) = Z.of_nat (length os);
  hd_objects : buffer (fun _ => True) (heap (world_of s)) (mObjects (this s)) (mObjectsCapacity (this s)) os;
  hd_fit : objects_fit os (Z.of_nat (length dt));
  hd_apart : mData (this s) = mObjects (this s) -> mData (this s) = 0;
  hd_hint : 0 <= mNextObjectHint (this s);
  hd_null : heap (world_of s) !! 0 = None
}.

Section Buffers.
Lemma buffer_le P h p cap l : buffer P h p cap l -> Z.of_nat (length l) <= cap.
Proof. intros [(-> & -> & ->)|(_ & r & _ & <- & _)]; [done|]. rewrite length_app. lia. Qed.
Lemma buffer_null P h p cap l : buffer P h p cap l -> p = 0 -> cap = 0 /\ l = [].
Proof. intros [(_ & -> & ->)|(Hp & _)]; [done|lia]. Qed.
Lemma buffer_chunk P h p cap l : buffer P h p cap l -> p ≠ 0 ->
  exists rest, h !! p = Some (MkChunk true (l ++ rest)) /\ Z.of_nat (length (l ++ rest)) = cap /\ Forall P rest.
Proof. intros [(-> & _)|(_ & H)]; [done|auto]. Qed.
(** Elsewhere the heap may change. *)
Lemma buffer_same P (h h' : gmap Z chunk) p cap l : h' !! p = h !! p -> buffer P h p cap l -> buffer P h' p cap l.
Proof. intros E [H|(Hp & r & H & Hc)]; [by left|right]. split; [done|]. exists r. by rewrite E. Qed.

Lemma objects_fit_mono os n n' : n <= n' -> objects_fit os n -> objects_fit os n'.
Proof. intros Hn [H1 H2]. split; [done|]. eapply Forall_impl; [exact H2|]. cbn. lia. Qed.
Lemma objects_fit_snoc os n : objects_fit os n -> 0 <= n -> objects_fit (os ++ [n]) (n + 24).
Proof.
  intros [H1 H2] Hn. split.
  - apply StronglySorted_app_iff. split_and!; [done|repeat constructor|].
    intros a b Ha ->%list_elem_of_singleton. rewrite Forall_forall in H2. apply H2, Ha.
  - apply Forall_app_2; [eapply Forall_impl; [exact H2|]; cbn; lia|]. constructor; [lia|constructor].
Qed.
Lemma sorted_span os lo n : StronglySorted (fun a b => a + 24 <= b) os ->
  Forall (fun a => lo <= a /\ a + 24 <= n) os -> lo <= n -> lo + 24 * Z.of_nat (length os) <= n.
Proof.
  intros Hs. revert lo. induction Hs as [|a os Hs IH Ha]; intros lo Hf Hn; [cbn; lia|].
  apply Forall_cons in Hf as [[H1 H2] Hf]. cbn [length].
  assert (a + 24 + 24 * Z.of_nat (length os) <= n); [|lia].
  apply IH; [|lia]. rewrite Forall_forall in *. intros b Hb. split; [by apply Ha|by apply Hf].
Qed.
(** The offsets are few. *)
Lemma objects_fit_few os n : objects_fit os n -> 0 <= n -> 24 * Z.of_nat (length os) <= n.
Proof. intros [H1 H2] Hn. apply (sorted_span os 0 n H1); [|done]. exact H2. Qed.
End Buffers.

(** ** The account *)

(** What an object holds for its parcel: a reference or a descriptor. *)
Inductive resource : Set := Ref (r : reference) | Fd (fd : Z).
#[export] Instance reference_eq_dec : EqDecision reference.
Proof. solve_decision. Defined.
#[export] Instance resource_eq_dec : EqDecision resource.
Proof. solve_decision. Defined.

Definition is_res (x y : resource) : Z := if decide (x = y) then 1 else 0.
Definition weight (x : resource) (e : event) : Z :=
  match e with
  | Acquire r => is_res x (Ref r)
  | Release r => - is_res x (Ref r)
  | Dup _ new => is_res x (Fd new)
  | Close fd => - is_res x (Fd fd)
  | _ => 0
  end.
(** How often the resource was taken, less how often it was given up. *)
Definition net (x : resource) (tr : list event) : Z := Zsum (weight x) tr.

Section Account.
Context {E : ParcelEnv}.

Definition obj_resource (o : flat_binder_object) : option resource :=
  let ty := fo_type o in
  if ty =? BINDER_TYPE_BINDER then if fo_binder o =? 0 then None else Some (Ref (Strong (fo_cookie o)))
  else if ty =? BINDER_TYPE_WEAK_BINDER then if fo_binder o =? 0 then None else Some (Ref (Weak (fo_binder o)))
  else if ty =? BINDER_TYPE_HANDLE then if has_proxy (fo_int o) then Some (Ref (StrongProxy (fo_int o))) else None
  else if ty =? BINDER_TYPE_WEAK_HANDLE then if has_proxy (fo_int o) then Some (Ref (WeakProxy (fo_int o))) else None
  else if ty =? BINDER_TYPE_FD then if fo_cookie o =? 0 then None else Some (Fd (fo_int o))
  else None.
Definition obj_holds (x : resource) (o : flat_binder_object) : Z :=
  match obj_resource o with Some y => is_res x y | None => 0 end.

(** The objects of a parcel and what they hold of a resource. *)
Definition object_in dt off : flat_binder_object := obj_of_bytes (take 24 (drop (Z.to_nat off) dt)).
Definition held (x : resource) dt os : Z := Zsum (fun off => obj_holds x (object_in dt off)) os.

Record account := MkAccount {
  ac_heap : gmap Z chunk;
  ac_size : Z;
  ac_count : Z;
  ac_policy : Z * Z
}.
Definition account_of s : account :=
  MkAccount (delete (mObjects (this s)) (delete (mData (this s)) (heap (world_of s))))
    (u64 (gAllocSize (world_of s) - mDataCapacity (this s)))
    (u64 (gAllocCount (world_of s) - (if mData (this s) =? 0 then 0 else 1)))
    (mStrictModePolicy (world_of s), lastTransactionFlags (world_of s)).

(** The state has changed within the parcel: [x] was [n] more often taken. *)
Record within (gain : resource -> Z) s s' : Prop := {
  wi_account : account_of s' = account_of s;
  wi_net x : net x (trace (world_of s')) = net x (trace (world_of s)) + gain x
}.

Lemma net_snoc x tr e : net x (tr ++ [e]) = net x tr + weight x e.
Proof. unfold net. rewrite Zsum_app. cbn. lia. Qed.

Lemma within_refl s : within (fun _ => 0) s s.
Proof. split; [done|]. intros. lia. Qed.
Lemma within_same s s' : account_of s' = account_of s -> trace (world_of s') = trace (world_of s) -> within (fun _ => 0) s s'.
Proof. intros Ha Ht. split; [done|]. intros x. rewrite Ht. lia. Qed.
Lemma within_trans g1 g2 g s1 s2 s3 : within g1 s1 s2 -> within g2 s2 s3 -> (forall x, g x = g1 x + g2 x) -> within g s1 s3.
Proof. intros [A1 N1] [A2 N2] Hg. split; [by rewrite A2|]. intros x. rewrite N2, N1, Hg. lia. Qed.

(** Memory outside of the parcel's buffers stays. *)
Lemma within_frame g s s' p c : within g s s' -> p ≠ mData (this s) -> p ≠ mObjects (this s) ->
  heap (world_of s) !! p = Some c ->
  heap (world_of s') !! p = Some c /\ p ≠ mData (this s') /\ p ≠ mObjects (this s').
Proof.
  intros [A _] H1 H2 Hp. assert (Hb : ac_heap (account_of s') !! p = Some c).
  { rewrite A. cbn. by rewrite !lookup_delete_ne by done. }
  cbn in Hb. apply lookup_delete_Some in Hb as [Hn2 Hb]. apply lookup_delete_Some in Hb as [Hn1 Hb]. done.
Qed.

Lemma held_app x dt e os oe n : n = Z.of_nat (length dt) -> objects_fit os n ->
  held x (dt ++ e) (os ++ oe) = held x dt os + held x (dt ++ e) oe.
Proof.
  intros -> [_ Hf]. unfold held. rewrite Zsum_app. f_equal. apply Zsum_ext. intros off Hoff.
  rewrite Forall_forall in Hf. specialize (Hf off Hoff). unfold object_in. do 2 f_equal.
  rewrite drop_app_le by lia. by rewrite take_app_le by (rewrite length_drop; lia).
Qed.
Lemma held_app_l x dt e os n : n = Z.of_nat (length dt) -> objects_fit os n -> held x (dt ++ e) os = held x dt os.
Proof. intros Hn Hf. pose proof (held_app x dt e os [] n Hn Hf) as H. rewrite app_nil_r in H. rewrite H. cbn. lia. Qed.
End Account.
