(* ===== verification/ParcelAppend.v ===== *)
(** * Parcels: growing

    [growData] and [continueWrite] to a larger size give the room that is asked for
    or report why not; either way the parcel holds what it held. *)
From S2P Require Import Prelude UserMem Protocol ParcelState Parcel ParcelWrite ParcelInv.

Implicit Types (s : pstate) (dt os l : list Z) (p n off : Z).

(** ** The heap of the others *)
Section Others.
Implicit Types (h : gmap Z chunk).
(** A chunk of the parcel is replaced, perhaps at another address. *)
Lemma others_move h p q o c : q = p \/ h !! q = None -> q ≠ o \/ o = 0 /\ h !! 0 = None ->
  delete o (delete q (<[q := c]> (delete p h))) = delete o (delete p h).
Proof.
  intros Hq Ho. apply map_eq. intros i. destruct (decide (i = o)) as [->|Hio]; [by rewrite !lookup_delete_eq|].
  rewrite !(lookup_delete_ne _ o) by done. destruct (decide (i = q)) as [->|Hiq].
  - rewrite lookup_delete_eq. destruct Hq as [->|Hq]; [by rewrite lookup_delete_eq|].
    destruct (decide (q = p)) as [->|Hqp]; [by rewrite lookup_delete_eq|]. by rewrite lookup_delete_ne.
  - by rewrite lookup_delete_ne, lookup_insert_ne by done.
Qed.
Lemma others_new h q o c : h !! q = None -> h !! 0 = None ->
  delete o (delete q (<[q := c]> h)) = delete o (delete 0 h).
Proof.
  intros Hq H0. rewrite delete_insert_id by done. by rewrite (delete_id h 0).
Qed.
Lemma others_store h p o c : delete o (delete p (<[p := c]> h)) = delete o (delete p h).
Proof. f_equal. apply delete_insert_eq. Qed.
End Others.

Section Grow.
Context {E : ParcelEnv} {L : ParcelEnvLaws E}.

(** What growing to [want] bytes, of which [need] are needed, leaves. *)
Record grown dt os (need want : Z) s (err : Z) s' : Prop := {
  gr_holds : holds dt os s';
  gr_within : within (fun _ => 0) s s';
  gr_pos : mDataPos (this s') = mDataPos (this s);
  gr_allow : mAllowFds (this s') = mAllowFds (this s);
  gr_array : mObjects (this s') = mObjects (this s) /\ mObjectsCapacity (this s') = mObjectsCapacity (this s);
  gr_room : err = NO_ERROR -> need <= mDataCapacity (this s');
  gr_err : err ≠ NO_ERROR -> no_memory err /\ mError (this s') = NO_MEMORY \/ INT32_MAX < want
}.

Lemma grown_same dt os need want s err : holds dt os s -> (err = NO_ERROR -> need <= mDataCapacity (this s)) ->
  (err ≠ NO_ERROR -> INT32_MAX < want) -> grown dt os need want s err s.
Proof. intros H Hr He. split; [done|apply within_refl|done..|auto|right; auto]. Qed.

Lemma grown_no_memory dt os need want s : short_of_memory -> holds dt os s ->
  pwp (set_error NO_MEMORY) (fun err s' => grown dt os need want s err s') s.
Proof.
  intros Hs H. unfold set_error. psteps. destruct s as [t w], H. split; [by split|by apply within_same|done|done|done|done|by left].
Qed.

Lemma first_data_grown dt os s desired : holds dt os s -> mData (this s) = 0 -> 0 <= desired <= INT32_MAX ->
  pwp (first_data desired) (fun err s' => grown dt os desired desired s err s') s.
Proof.
  intros H Hd Hb. destruct (buffer_null _ _ _ _ _ (hd_data _ _ _ H) Hd) as [Hc ->].
  unfold first_data. psteps. apply pwp_alloc; [lia| | |lia].
  { intros Hs. cbn. by apply grown_no_memory. }
  intros q l Hq Hf Hl Hr _. rewrite (proj2 (Z.eqb_neq q 0)) by lia. psteps.
  destruct s as [t w], H as [Iow Isz Iby Ida Ica Ipo Icn Iob Ifi Iap Ihi Inu]. cbn in *. assert (mDataPos t = 0) as Hp by (cbn in *; lia).
  assert (q ≠ mObjects t \/ mObjects t = 0 /\ heap w !! 0 = None) as Hqo.
  { destruct Iob as [(Ho & _)|(Ho & r & Hr' & _)]; [by right|]. left. intros ->. congruence. }
  split; try done; cbn.
  - split; cbn; try done.
    + right. split; [done|]. exists l. rewrite lookup_insert_eq. split_and!; [done|cbn; lia|].
      change (256 ^ 1) with 256 in Hr. exact Hr.
    + lia.
    + eapply buffer_same; [|exact Iob]. apply lookup_insert_ne.
      destruct Iob as [(-> & _)|(Ho & r & Hr' & _)]; [lia|intros ->; congruence].
    + intros ->. destruct Iob as [(-> & _)|(Ho & r & Hr' & _)]; [done|congruence].
    + rewrite lookup_insert_ne by lia. done.
  - apply within_same; [|done]. unfold account_of. cbn. rewrite Hd, Hc, (proj2 (Z.eqb_neq q 0)) by lia. cbn.
    f_equal.
    + by apply others_new.
    + rewrite u64_sub_l. f_equal. lia.
    + rewrite u64_sub_l. f_equal. lia.
Qed.

Lemma resize_data_grown dt os s desired : holds dt os s -> mData (this s) ≠ 0 -> Z.of_nat (length dt) <= desired <= INT32_MAX ->
  pwp (resize_data desired) (fun err s' => grown dt os desired desired s err s') s.
Proof.
  intros H Hd Hb. pose proof (buffer_le _ _ _ _ _ (hd_data _ _ _ H)) as Hle.
  destruct (buffer_chunk _ _ _ _ _ (hd_data _ _ _ H) Hd) as (rest & Hh & Hlen & Hrest).
  unfold resize_data. psteps. pif; cycle 1.
  { apply Z.ltb_ge in C. psteps. pose proof (hd_pos _ _ _ H) as Hpos. pose proof (hd_size _ _ _ H) as Hsz.
    rewrite (proj2 (Z.ltb_ge desired (mDataSize (this s)))) by lia.
    rewrite (proj2 (Z.ltb_ge desired (mDataPos (this s)))) by lia.
    destruct s as [t w]. by apply grown_same. }
  apply Z.ltb_lt in C. pose proof (hd_size _ _ _ H) as Hsz. psteps. eapply pwp_realloc; [done|exact Hh|unfold INT32_MAX in *; lia| |].
  { intros Hs. cbn. by apply grown_no_memory. }
  intros q Hq Hf. rewrite (proj2 (Z.eqb_neq q 0)) by lia. psteps.
  destruct (resized_prefix 1 q (Z.to_nat desired) (dt ++ rest)) as (r & Er & Hr); [lia|lia|].
  pose proof (resized_length 1 q (Z.to_nat desired) (dt ++ rest)) as Hrl. rewrite Er, <- app_assoc in *.
  destruct s as [t w], H as [Iow Isz Iby Ida Ica Ipo Icn Iob Ifi Iap Ihi Inu]. cbn in *.
  assert (mObjects t = 0 \/ mObjects t ≠ 0 /\ mObjects t ≠ q /\ mObjects t ≠ mData t) as Ho.
  { destruct Iob as [(Ho & _)|(Ho & r' & Hr' & _)]; [by left|right]. split_and!; [lia| |by intros ?; apply Hd; auto].
    intros <-. destruct Hf as [Hf|Hf]; [apply Hd; auto|congruence]. }
  split; try done; cbn.
  - split; cbn; try done.
    + right. split; [done|]. exists (rest ++ r). rewrite lookup_insert_eq. split_and!; [done|lia|]. by apply Forall_app_2.
    + lia.
    + destruct Ho as [Ho|(Ho1 & Ho2 & Ho3)].
      * destruct Iob as [(? & ? & ?)|(? & _)]; [by left|lia].
      * eapply buffer_same; [|exact Iob]. by rewrite lookup_insert_ne, lookup_delete_ne by done.
    + intros Hqo. destruct Ho as [Ho|(Ho1 & Ho2 & Ho3)]; [lia|congruence].
    + rewrite lookup_insert_ne, lookup_delete_ne by lia. done.
  - apply within_same; [|done]. unfold account_of. cbn. rewrite !(proj2 (Z.eqb_neq _ 0)) by lia.
    f_equal.
    + apply others_move; [done|]. destruct Ho as [Ho|(Ho1 & Ho2 & Ho3)]; [right; done|left; congruence].
    + rewrite u64_sub_l. f_equal. lia.
Qed.

Lemma continueWrite_grown dt os s desired : holds dt os s -> Z.of_nat (length dt) <= desired ->
  pwp (continueWrite desired) (fun err s' => grown dt os desired desired s err s') s.
Proof.
  intros H Hb. unfold continueWrite. pif.
  { apply Z.ltb_lt in C. by apply pwp_ret, grown_same. }
  apply Z.ltb_ge in C. unfold kept_objects. psteps.
  pose proof (hd_size _ _ _ H) as Hsz. pose proof (hd_owner _ _ _ H) as Ho.
  rewrite Hsz, (proj2 (Z.ltb_ge desired _)) by lia. psteps. rewrite Ho. pif.
  - apply negb_true_iff, Z.eqb_neq in C0. unfold cut_objects. psteps. rewrite Z.ltb_irrefl. cbn [if_then].
    apply pwp_ret. apply resize_data_grown; [done|done|lia].
  - apply negb_false_iff, Z.eqb_eq in C0. apply first_data_grown; [done|done|lia].
Qed.

(** The size that [growData] asks for. *)
Lemma growData_grown dt os s len : holds dt os s -> 0 < len ->
  pwp (growData len) (fun err s' => grown dt os (Z.of_nat (length dt) + len) ((Z.of_nat (length dt) + len) * 3 / 2) s err s') s.
Proof.
  intros H Hlen. pose proof (hd_size _ _ _ H) as Hsz. pose proof (hd_cap _ _ _ H) as Hcap.
  pose proof (buffer_le _ _ _ _ _ (hd_data _ _ _ H)) as Hle. set (sz := Z.of_nat (length dt)) in *.
  assert (0 <= sz) by (unfold sz; lia). unfold growData. pif.
  { apply Z.ltb_lt in C. apply pwp_ret, grown_same; [done|done|]. intros _. zdiv. }
  apply Z.ltb_ge in C. psteps. unfold INT32_MAX in *. rewrite Hsz. rewrite !u64_small by (rewrite ?u64_small; lia).
  set (d := (sz + len) * 3 / 2). assert (sz + len <= d) by (unfold d; zdiv).
  rewrite (proj2 (Z.leb_gt d sz)) by lia. eapply pwp_mono; [apply (continueWrite_grown dt os); [done|fold sz; lia]|].
  cbn beta. intros err s' [G1 G2 G3 G4 G5 G6 G7]. split; try done. intros He. specialize (G6 He). lia.
Qed.
End Grow.

(** ** Parcels: writing at the end

    [outcome dt os e oe gain]: a writer that starts at the end of the data [dt] either
    appends the bytes [e] and the object offsets [oe] and takes [gain], or stops after
    a prefix of [e], because there is no memory, descriptors are not allowed or the
    parcel would grow past its limit. *)

Implicit Types (e oe : list Z) (gain : resource -> Z).

Definition at_end dt os s : Prop := holds dt os s /\ mDataPos (this s) = Z.of_nat (length dt).
(** More than [growData] gives. *)
Definition too_big (n : Z) : Prop := INT32_MAX < n * 3 / 2.

Section Append.
Context {E : ParcelEnv} {L : ParcelEnvLaws E}.

Definition no_gain : resource -> Z := fun _ => 0.

Record appended dt os gain s s' : Prop := {
  ap_end : at_end dt os s';
  ap_within : within gain s s';
  ap_allow : mAllowFds (this s') = mAllowFds (this s)
}.
Definition stopped dt os e s err s' : Prop :=
  exists k : nat, appended (dt ++ take k e) os no_gain s s' /\
    (no_memory err \/ err = FDS_NOT_ALLOWED /\ mAllowFds (this s) = false \/ too_big (Z.of_nat (length dt + length e))).
Definition outcome dt os e oe gain s err s' : Prop :=
  err = NO_ERROR /\ appended (dt ++ e) (os ++ oe) gain s s' \/ stopped dt os e s err s'.

(** The same where an error is always reported. *)
Definition strict_outcome dt os e oe gain s err s' : Prop :=
  err = NO_ERROR /\ appended (dt ++ e) (os ++ oe) gain s s' \/ err ≠ NO_ERROR /\ stopped dt os e s err s'.

Lemma strict_outcome_outcome dt os e oe gain s err s' : strict_outcome dt os e oe gain s err s' -> outcome dt os e oe gain s err s'.
Proof. intros [H|[_ H]]; [by left|by right]. Qed.

Lemma appended_refl dt os s : at_end dt os s -> appended dt os no_gain s s.
Proof. intros H. split; [done|apply within_refl|done]. Qed.
Lemma appended_trans dt1 os1 dt2 os2 g1 g2 g s1 s2 s3 : appended dt1 os1 g1 s1 s2 -> appended dt2 os2 g2 s2 s3 ->
  (forall x, g x = g1 x + g2 x) -> appended dt2 os2 g s1 s3.
Proof. intros [A1 W1 F1] [A2 W2 F2] Hg. split; [done|by eapply within_trans|congruence]. Qed.

(** Nothing was written. *)
Lemma stopped_nothing dt os e s err s' : appended dt os no_gain s s' ->
  no_memory err \/ err = FDS_NOT_ALLOWED /\ mAllowFds (this s) = false \/ too_big (Z.of_nat (length dt + length e)) ->
  stopped dt os e s err s'.
Proof. intros H He. exists O. by rewrite take_0, app_nil_r. Qed.

Lemma grown_appended dt os need want s err s' : at_end dt os s -> grown dt os need want s err s' -> appended dt os no_gain s s'.
Proof. intros [_ Hp] [G1 G2 G3 G4 G5 G6 G7]. split; [split; [done|by rewrite G3]|done|done]. Qed.
Lemma appended_pos dt os g s s' : appended dt os g s s' -> mDataPos (this s') = Z.of_nat (length dt).
Proof. intros [[_ H] _ _]. done. Qed.

Lemma at_end_small dt os s : at_end dt os s -> Z.of_nat (length dt) <= mDataCapacity (this s) <= INT32_MAX.
Proof. intros [H _]. split; [apply (buffer_le _ _ _ _ _ (hd_data _ _ _ H))|apply H]. Qed.

(** ** Room at the end *)
Lemma pwp_with_room dt os e oe gain s len body : at_end dt os s -> 0 < len <= INT32_MAX -> Z.of_nat (length e) >= len ->
  (forall s1, appended dt os no_gain s s1 -> Z.of_nat (length dt) + len <= mDataCapacity (this s1) ->
     pwp body (strict_outcome dt os e oe gain s) s1) ->
  pwp (with_room (u64 (mDataPos (this s) + len)) len body) (strict_outcome dt os e oe gain s) s.
Proof.
  intros H Hlen He Hbody. pose proof (at_end_small _ _ _ H) as Hs. destruct (H) as [Hh Hp].
  unfold with_room. psteps. unfold INT32_MAX in *. rewrite Hp, u64_small by lia. pif.
  - apply Z.leb_le in C. apply Hbody; [by apply appended_refl|done].
  - apply Z.leb_gt in C. apply pwp_and_then. eapply pwp_mono; [apply (growData_grown dt os); [done|lia]|].
    cbn beta. intros err s1 G. pose proof (grown_appended _ _ _ _ _ _ _ H G) as A. split.
    + intros ->. apply Hbody; [done|]. by apply (gr_room _ _ _ _ _ _ _ G).
    + intros Hn. right. split; [done|]. apply stopped_nothing; [done|]. destruct (gr_err _ _ _ _ _ _ _ G Hn) as [[Hm _]|Hb]; [by left|].
      right. right. unfold too_big, INT32_MAX in *. eapply Z.lt_le_trans; [exact Hb|]. apply Z.div_le_mono; lia.
Qed.

(** The chunk of the data, where there is room in it. *)
Lemma data_chunk dt os s (k : nat) : at_end dt os s -> Z.of_nat (length dt + k) <= mDataCapacity (this s) -> (0 < k)%nat ->
  exists rest, heap (world_of s) !! mData (this s) = Some (MkChunk true (dt ++ rest)) /\ (k <= length rest)%nat /\ Forall is_byte rest /\
    0 < mData (this s).
Proof.
  intros [H _] Hc Hk. destruct (hd_data _ _ _ H) as [(_ & Hz & ->)|(Hp & rest & Hh & Hl & Hr)]; [cbn in Hc; lia|].
  exists rest. rewrite length_app in Hl. split_and!; [done|lia|done|done].
Qed.

(** A chunk of the data with new contents. *)
Lemma holds_store dt dt' os s rest : holds dt os s -> 0 < mData (this s) -> Forall is_byte dt' -> Forall is_byte rest ->
  length dt' = length dt -> Z.of_nat (length (dt' ++ rest)) = mDataCapacity (this s) ->
  let s' := MkP (this s) (set_heap (world_of s) (<[mData (this s) := MkChunk true (dt' ++ rest)]> (heap (world_of s)))) in
  holds dt' os s' /\ within no_gain s s'.
Proof.
  intros H Hp Hb Hr Hl Hc. cbn zeta. destruct s as [t w], H as [Iow Isz Iby Ida Ica Ipo Icn Iob Ifi Iap Ihi Inu]. cbn in *.
  split; [split; cbn; rewrite ?Hl; try done|].
  - right. split; [done|]. exists rest. by rewrite lookup_insert_eq.
  - eapply buffer_same; [|exact Iob]. apply lookup_insert_ne. intros Eq. specialize (Iap Eq). lia.
  - rewrite lookup_insert_ne by lia. done.
  - apply within_same; [|done]. unfold account_of. cbn. f_equal. apply others_store.
Qed.

(** Storing at the end, before the position moves. *)
Lemma pwp_store_end dt os s l rest (Q : unit -> pstate -> Prop) : at_end dt os s ->
  heap (world_of s) !! mData (this s) = Some (MkChunk true (dt ++ rest)) -> 0 < mData (this s) ->
  (length l <= length rest)%nat -> Forall is_byte l -> Forall is_byte rest ->
  Z.of_nat (length (dt ++ rest)) = mDataCapacity (this s) ->
  (forall s', this s' = this s -> appended dt os no_gain s s' ->
     heap (world_of s') !! mData (this s') = Some (MkChunk true (dt ++ l ++ drop (length l) rest)) -> Q tt s') ->
  pwp (store_here l) Q s.
Proof.
  intros [H Hpos] Hh Hp Hl Hb Hr Hc HQ. unfold store_here. psteps. eapply pwp_store; [exact Hh|lia|rewrite length_app; lia|].
  rewrite Hpos, Nat2Z.id. assert (splice (length dt) l (dt ++ rest) = dt ++ l ++ drop (length l) rest) as ->.
  { rewrite <- (take_drop (length l) rest) at 1. apply splice_app; [done|by rewrite length_take_le]. }
  destruct (holds_store dt dt os s (l ++ drop (length l) rest) H Hp) as [H1 H2].
  - apply H.
  - apply Forall_app_2; [done|by apply Forall_drop].
  - done.
  - rewrite <- Hc, !length_app, length_drop. lia.
  - apply HQ; [done| |cbn; by rewrite lookup_insert_eq]. by split.
Qed.

(** [finishWrite] takes what was stored into the data. *)
Lemma pwp_finishWrite dt os s e rest (Q : Z -> pstate -> Prop) : at_end dt os s -> 0 < mData (this s) ->
  heap (world_of s) !! mData (this s) = Some (MkChunk true (dt ++ e ++ rest)) ->
  Forall is_byte e -> Forall is_byte rest -> Z.of_nat (length (dt ++ e ++ rest)) = mDataCapacity (this s) ->
  (forall s', appended (dt ++ e) os no_gain s s' -> world_of s' = world_of s -> mData (this s') = mData (this s) ->
    mObjects (this s') = mObjects (this s) -> mObjectsCapacity (this s') = mObjectsCapacity (this s) ->
    mDataCapacity (this s') = mDataCapacity (this s) -> Q NO_ERROR s') ->
  pwp (finishWrite (Z.of_nat (length e))) Q s.
Proof.
  intros [H Hpos] Hp Hh He Hr Hc HQ. destruct s as [t w], H as [Iow Isz Iby Ida Ica Ipo Icn Iob Ifi Iap Ihi Inu]. cbn in *.
  rewrite !length_app in Hc. unfold INT32_MAX in *. unfold finishWrite. unfold INT32_MAX.
  rewrite (proj2 (Z.ltb_ge _ _)) by lia. psteps. cbn.
  assert (u64 (mDataPos t + Z.of_nat (length e)) = Z.of_nat (length (dt ++ e))) as ->.
  { rewrite u64_small by lia. rewrite length_app. lia. }
  assert (forall sz, sz = Z.of_nat (length (dt ++ e)) ->
    holds (dt ++ e) os (MkP (set_mDataSize (set_mDataPos t (Z.of_nat (length (dt ++ e)))) sz) w)) as Hs.
  { intros sz ->. split; cbn; try done.
    - by apply Forall_app_2.
    - right. split; [done|]. exists rest. rewrite <- app_assoc, !length_app. split_and!; [done|lia|done].
    - lia.
    - eapply objects_fit_mono; [|exact Ifi]. rewrite length_app. lia. }
  destruct (Z.ltb_spec (mDataSize t) (Z.of_nat (length (dt ++ e)))) as [Hlt|Hge].
  - apply HQ; try done. split; [split; [by apply Hs|done]|by apply within_same|done].
  - assert (mDataSize t = Z.of_nat (length (dt ++ e))) as Hsz by (rewrite length_app in *; lia).
    apply HQ; try done. split; [split; [|done]|by apply within_same|done].
    specialize (Hs (mDataSize t) Hsz). by destruct t.
Qed.

(** Storing bytes and moving on. *)
Lemma pwp_store_finish dt os s l : at_end dt os s -> Z.of_nat (length dt + length l) <= mDataCapacity (this s) ->
  (0 < length l)%nat -> Forall is_byte l ->
  pwp (_ ← store_here l; finishWrite (Z.of_nat (length l))) (fun err s' => err = NO_ERROR /\ appended (dt ++ l) os no_gain s s' /\
    mData (this s') = mData (this s) /\ mObjects (this s') = mObjects (this s) /\
    mObjectsCapacity (this s') = mObjectsCapacity (this s)) s.
Proof.
  intros H Hc Hl Hb. destruct (data_chunk dt os s (length l) H Hc Hl) as (rest & Hh & Hlr & Hr & Hp).
  assert (Hcap : Z.of_nat (length (dt ++ rest)) = mDataCapacity (this s)).
  { destruct H as [H _]. destruct (buffer_chunk _ _ _ _ _ (hd_data _ _ _ H)) as (rest' & Hh' & Hl' & _); [lia|].
    rewrite Hh in Hh'. injection Hh' as Hh'. by rewrite Hh'. }
  apply pwp_bind. eapply pwp_store_end; [exact H|exact Hh|done|done|done|done|done|].
  intros s1 Ht A1 Hh1. eapply (pwp_finishWrite dt os s1 l); [apply A1|by rewrite Ht|exact Hh1|done|by apply Forall_drop| |].
  - rewrite Ht, <- Hcap, !length_app, length_drop. lia.
  - intros s' A2 _ Hd Ho Hoc _. rewrite Ht in *. split_and!; try done.
    eapply appended_trans; [exact A1|exact A2|]. done.
Qed.

Lemma pwp_writeAligned dt os s (n : nat) (val : Z) : at_end dt os s -> (0 < n)%nat -> (n <= 8)%nat ->
  pwp (writeAligned n val) (strict_outcome dt os (le_bytes n val) [] no_gain s) s.
Proof.
  intros H Hn Hn8. unfold writeAligned. psteps. apply pwp_with_room; [done|unfold INT32_MAX; lia|rewrite length_le_bytes; lia|].
  intros s1 A Hc. pose proof (pwp_store_finish dt os s1 (le_bytes n val) (ap_end _ _ _ _ _ A)) as Hs.
  rewrite length_le_bytes in Hs. eapply pwp_mono; [apply Hs; [lia|done|apply le_bytes_byte]|].
  cbn beta. intros err s' (-> & A' & _). left. split; [done|]. rewrite app_nil_r. by eapply appended_trans.
Qed.
End Append.

(** ** Parcels: strings and blocks of bytes

    [writeInplace] makes room and clears the padding; the writers over it append
    their bytes padded to a multiple of four. *)


(** ** Padding *)
Definition padded_len (n : nat) : nat := 4 * ((n + 3) / 4).
Definition pad4 l : list Z := l ++ replicate (padded_len (length l) - length l) 0.

Section Padding.
Lemma padded_len_bounds (n : nat) : (n <= padded_len n < n + 4)%nat.
Proof. unfold padded_len. pose proof (Nat.div_mod (n + 3) 4). pose proof (Nat.mod_upper_bound (n + 3) 4). lia. Qed.
Lemma PAD_SIZE_div x : 0 <= x < 2 ^ 63 -> PAD_SIZE_UNSAFE x = 4 * ((x + 3) / 4).
Proof.
  intros H. unfold PAD_SIZE_UNSAFE. rewrite u64_small by lia. change 3 with (Z.ones 2) at 2.
  rewrite land_lnot_ones by lia. done.
Qed.
Lemma PAD_SIZE_nat (n : nat) : Z.of_nat n < 2 ^ 63 -> PAD_SIZE_UNSAFE (Z.of_nat n) = Z.of_nat (padded_len n).
Proof. intros H. rewrite PAD_SIZE_div by lia. unfold padded_len. rewrite Nat2Z.inj_mul, Nat2Z.inj_div. do 2 f_equal. lia. Qed.
Lemma length_pad4 l : length (pad4 l) = padded_len (length l).
Proof. unfold pad4. rewrite length_app, length_replicate. pose proof (padded_len_bounds (length l)). lia. Qed.
Lemma padded_len_idem (n : nat) : padded_len (padded_len n) = padded_len n.
Proof.
  unfold padded_len. set (q := ((n + 3) / 4)%nat). f_equal. rewrite (Nat.mul_comm 4 q).
  rewrite Nat.div_add_l by lia. cbn. lia.
Qed.
Lemma pad4_bytes l : Forall is_byte l -> Forall is_byte (pad4 l).
Proof. intros H. apply Forall_app_2; [done|]. apply Forall_replicate. unfold is_byte. lia. Qed.

(** The mask of [writeInplace] keeps the bytes that are not padding. *)
Lemma pad_mask_low (k : nat) l : Forall is_byte l -> length l = 4%nat -> (1 <= k <= 3)%nat ->
  le_bytes 4 (Z.land (le_val l) (pad_mask (Z.of_nat k))) = take (4 - k) l ++ replicate k 0.
Proof.
  intros Hb Hl Hk. assert (pad_mask (Z.of_nat k) = Z.ones (8 * Z.of_nat (4 - k))) as ->.
  { destruct k as [|[|[|[|k]]]]; try lia; reflexivity. }
  rewrite Z.land_ones by lia. rewrite Z.pow_mul_r by lia. change (2 ^ 8) with 256.
  rewrite (le_bytes_low (4 - k) 4 l Hb Hl ltac:(lia)). do 2 f_equal. lia.
Qed.
End Padding.

Section Inplace.
Context {E : ParcelEnv} {L : ParcelEnvLaws E}.

(** Room for [len] bytes and their padding. *)
Record made_room dt os (len : nat) s s' (p : option Z) : Prop := {
  mr_at : p = Some (Z.of_nat (length dt));
  mr_room : exists g, appended (dt ++ g) os no_gain s s' /\ length g = padded_len len /\
    drop len g = replicate (padded_len len - len) 0 /\ mData (this s') ≠ 0
}.

(** The chunk and the capacity together. *)
Lemma data_chunk_cap dt os s (k : nat) : at_end dt os s -> Z.of_nat (length dt + k) <= mDataCapacity (this s) -> (0 < k)%nat ->
  exists g rest, heap (world_of s) !! mData (this s) = Some (MkChunk true (dt ++ g ++ rest)) /\ length g = k /\
    Forall is_byte g /\ Forall is_byte rest /\ 0 < mData (this s) /\ Z.of_nat (length (dt ++ g ++ rest)) = mDataCapacity (this s).
Proof.
  intros [H _] Hc Hk. destruct (hd_data _ _ _ H) as [(_ & Hz & ->)|(Hp & rest & Hh & Hl & Hr)]; [cbn in Hc; lia|].
  rewrite length_app in Hl. exists (take k rest), (drop k rest). rewrite take_drop, length_app. split_and!; try done; try lia.
  - rewrite length_take. lia.
  - by apply Forall_take.
  - by apply Forall_drop.
Qed.

Lemma pwp_inplace_body dt os s (len : nat) : at_end dt os s -> (0 < len)%nat ->
  Z.of_nat (length dt + padded_len len) <= mDataCapacity (this s) ->
  pwp (inplace_body (Z.of_nat len) (Z.of_nat (padded_len len))) (fun (p : option Z) s' => made_room dt os len s s' p) s.
Proof.
  intros H Hlen Hc. pose proof (padded_len_bounds len) as Hpad. set (k := padded_len len) in *.
  destruct (data_chunk_cap dt os s k H Hc ltac:(lia)) as (g & rest & Hh & Hg & Hbg & Hbr & Hp & Hcap).
  unfold inplace_body, pointer_at. psteps. destruct (H) as [Hhd Hpos].
  rewrite (proj2 (Z.eqb_neq (mData (this s)) 0)) by lia. cbn [andb]. rewrite Hpos.
  assert (forall g' s1, length g' = k -> Forall is_byte g' -> drop len g' = replicate (k - len) 0 -> this s1 = this s ->
    appended dt os no_gain s s1 -> heap (world_of s1) !! mData (this s1) = Some (MkChunk true (dt ++ g' ++ rest)) ->
    pwp (finishWrite (Z.of_nat k)) (fun _ s' => pwp (mret (Some (Z.of_nat (length dt)))) (fun (p : option Z) s' => made_room dt os len s s' p) s') s1)
    as Hfin.
  { intros g' s1 Hl Hb Hz Ht A Hh1. rewrite <- Hl.
    eapply (pwp_finishWrite dt os s1 g'); [apply A|by rewrite Ht|exact Hh1|done|done| |].
    - rewrite Ht, <- Hcap, !length_app. lia.
    - intros s' A' _ Hd _ _ _. apply pwp_ret. split; [done|]. exists g'. split_and!; [|done|done|rewrite Hd, Ht; lia].
      by eapply appended_trans. }
  unfold pad_end. pif.
  - apply negb_true_iff, Z.eqb_neq in C. psteps. rewrite Hpos.
    assert (exists a w4, g = a ++ w4 /\ length a = (k - 4)%nat /\ length w4 = 4%nat) as (a & w4 & -> & Ha & Hw).
    { exists (take (k - 4) g), (drop (k - 4) g). rewrite take_drop, length_take, length_drop.
      assert (4 <= k)%nat by (unfold k, padded_len in *; lia). split_and!; [done|lia|lia]. }
    apply Forall_app in Hbg as [Hba Hbw].
    assert (Z.to_nat (Z.of_nat (length dt) + Z.of_nat k - 4) = length (dt ++ a)) as Hoff.
    { rewrite length_app in *. lia. }
    eapply pwp_load; [exact Hh|rewrite length_app in *; lia|rewrite !length_app in *; lia|]. rewrite Hoff.
    rewrite <- app_assoc, (app_assoc dt a), drop_app_length, take_app_length' by done. psteps.
    replace (Z.of_nat k - Z.of_nat len) with (Z.of_nat (k - len)) by lia.
    rewrite pad_mask_low by (done || lia).
    assert (length (take (4 - (k - len)) w4 ++ replicate (k - len) 0) = 4%nat) as Hl4.
    { rewrite length_app, length_take, length_replicate. lia. }
    eapply pwp_store; [exact Hh|rewrite length_app in *; lia|rewrite Hl4, !length_app in *; lia|]. rewrite Hoff.
    assert (forall m, length m = 4%nat -> splice (length (dt ++ a)) m (dt ++ (a ++ w4) ++ rest) = dt ++ (a ++ m) ++ rest) as Hsp.
    { intros m Hm. rewrite <- !app_assoc, !(app_assoc dt a). apply splice_app; [done|congruence]. }
    rewrite Hsp by done. set (w4' := take (4 - (k - len)) w4 ++ replicate (k - len) 0) in *.
    assert (Forall is_byte w4') as Hbw'.
    { apply Forall_app_2; [by apply Forall_take|apply Forall_replicate; unfold is_byte; lia]. }
    destruct (holds_store dt dt os s ((a ++ w4') ++ rest) Hhd Hp) as [H1 H2]; [apply Hhd| |done| |].
    + apply Forall_app_2; [by apply Forall_app_2|done].
    + rewrite <- Hcap, !length_app, Hl4, Hw. done.
    + apply pwp_bind, (Hfin (a ++ w4')); [rewrite length_app, Hl4; rewrite length_app in Hg; lia|by apply Forall_app_2| |done|by split|].
      * unfold w4'. rewrite app_assoc, drop_app_length'; [done|]. rewrite length_app in *. rewrite length_take. lia.
      * cbn. by rewrite lookup_insert_eq.
  - apply negb_false_iff, Z.eqb_eq in C. psteps. apply (Hfin g s); try done; [|by apply appended_refl].
    assert (len = k) as Hk by lia. rewrite Hk, Nat.sub_diag. apply drop_ge. lia.
Qed.

Lemma pwp_writeInplace dt os s (len : nat) : at_end dt os s -> (0 < len)%nat -> Z.of_nat len <= INT32_MAX ->
  pwp (writeInplace (Z.of_nat len)) (fun (p : option Z) s' => made_room dt os len s s' p \/
    p = None /\ appended dt os no_gain s s' /\ (no_memory (mError (this s')) \/ too_big (Z.of_nat (length dt + padded_len len)))) s.
Proof.
  intros H Hlen Hmax. pose proof (padded_len_bounds len) as Hpad. pose proof (at_end_small _ _ _ H) as Hs.
  unfold INT32_MAX in *. unfold writeInplace, INT32_MAX. rewrite (proj2 (Z.ltb_ge _ _)) by lia.
  unfold pad_size, SIZE_T_MAX. rewrite (proj2 (Z.ltb_ge _ _)) by lia. psteps. rewrite PAD_SIZE_nat by lia.
  destruct (H) as [Hhd Hpos]. rewrite Hpos, u64_small by lia. rewrite (proj2 (Z.ltb_ge _ _)) by lia. pif.
  - apply Z.leb_le in C. eapply pwp_mono; [apply pwp_inplace_body; [done|done|lia]|]. by left.
  - apply Z.leb_gt in C. psteps. eapply pwp_mono; [apply (growData_grown dt os); [done|lia]|]. cbn beta.
    intros err s1 G. pose proof (grown_appended _ _ _ _ _ _ _ H G) as A. pif.
    + apply Z.eqb_eq in C0. pose proof (gr_room _ _ _ _ _ _ _ G C0) as Hr.
      eapply pwp_mono; [apply (pwp_inplace_body dt os s1 len); [apply A|done|lia]|]. cbn beta.
      intros p s2 [M1 (g & A2 & Hg)]. left. split; [done|]. exists g. split; [by eapply appended_trans|done].
    + apply Z.eqb_neq in C0. apply pwp_ret. right. split_and!; [done|done|].
      destruct (gr_err _ _ _ _ _ _ _ G C0) as [[[_ Hm] He]|Hb]; [by left|right]. unfold too_big. by rewrite Nat2Z.inj_add.
Qed.

(** Storing inside the data. *)
Lemma pwp_store_in d1 g d2 os s l off (Q : unit -> pstate -> Prop) : at_end (d1 ++ g ++ d2) os s -> length l = length g -> Forall is_byte l ->
  off = Z.of_nat (length d1) ->
  (forall s', this s' = this s -> appended (d1 ++ l ++ d2) os no_gain s s' -> Q tt s') -> pwp (mem_store (mData (this s)) off l) Q s.
Proof.
  intros [H Hpos] Hl Hb -> HQ. destruct l as [|x l].
  { symmetry in Hl. apply nil_length_inv in Hl as ->. apply pwp_store_nil. apply HQ; [done|]. by apply appended_refl. }
  assert (length g > 0)%nat as Hg by (rewrite <- Hl; cbn; lia).
  destruct (hd_data _ _ _ H) as [(_ & _ & Hn)|(Hp & rest & Hh & Hc & Hr)].
  { apply (f_equal length) in Hn. rewrite !length_app in Hn. cbn in Hn. lia. }
  rewrite <- !app_assoc in Hh. eapply pwp_store; [exact Hh|lia|rewrite Hl, !length_app; lia|].
  rewrite Nat2Z.id, splice_app by done. pose proof (hd_bytes _ _ _ H) as Hby. rewrite !Forall_app in Hby. destruct Hby as (B1 & _ & B2).
  destruct (holds_store _ (d1 ++ (x :: l) ++ d2) os s rest H Hp) as [H1 H2].
  - rewrite !Forall_app. done.
  - done.
  - rewrite !length_app, Hl. done.
  - rewrite <- Hc, !length_app, Hl. done.
  - apply HQ; [done|]. rewrite <- !app_assoc in H1, H2. split; [|done|done]. split; [done|]. cbn [this].
    rewrite Hpos, !length_app, Hl. done.
Qed.

Lemma pwp_write dt os s l : at_end dt os s -> l ≠ [] -> Z.of_nat (length l) <= INT32_MAX -> Forall is_byte l ->
  pwp (write l) (outcome dt os (pad4 l) [] no_gain s) s.
Proof.
  intros H Hl Hmax Hb. assert (0 < length l)%nat by (destruct l; [done|cbn; lia]). unfold write.
  rewrite (proj2 (Z.ltb_ge _ _)) by done. psteps. eapply pwp_mono; [by apply (pwp_writeInplace dt os)|]. cbn beta.
  intros p s1 [[-> (g & A & Hg & Hz & Hd)]|(-> & A & He)].
  - psteps. pose proof (padded_len_bounds (length l)).
    assert (g = take (length l) g ++ replicate (padded_len (length l) - length l) 0) as Eg by (rewrite <- Hz; by rewrite take_drop).
    rewrite Eg in A. eapply (pwp_store_in dt (take (length l) g)); [apply A|rewrite length_take; lia|done|done|].
    intros s2 Ht A2. apply pwp_ret. left. split; [done|]. rewrite app_nil_r. unfold pad4. by eapply appended_trans.
  - psteps. right. apply stopped_nothing; [done|]. rewrite length_pad4. destruct He as [He|He]; [by left|by right; right].
Qed.
End Inplace.
