(* ===== verification/ParcelObjects.v ===== *)
(** * Parcels: objects at the end of the data

    [writeObject] appends the object, enters it in the list of offsets unless it is a
    null object, and takes the reference that the object stands for. *)
From S2P Require Import Prelude UserMem Protocol ParcelState Parcel ParcelWrite ParcelInv ParcelAppend.

Implicit Types (s : pstate) (dt os e oe l : list Z) (n off : Z) (x : resource) (o : flat_binder_object).

Lemma length_obj_bytes o : length (obj_bytes o) = 24%nat.
Proof. reflexivity. Qed.
Lemma obj_bytes_byte o : Forall is_byte (obj_bytes o).
Proof. apply bytes_of_byte. Qed.

(** ** References *)
Section References.
Context {E : ParcelEnv}.

(** What taking and giving up an object does: events, and the count of shared memory. *)
Definition touches (f : resource -> Z) s s' : Prop :=
  exists a evs, s' = MkP (set_mOpenAshmemSize (this s) a) (set_trace (world_of s) (trace (world_of s) ++ evs)) /\
    forall x, net x evs = f x.

(** Descriptors pass into the hands of the parcel without an event. *)
Definition obj_gain o x : Z := if fo_type o =? BINDER_TYPE_FD then 0 else obj_holds x o.

Lemma touches_nothing s : touches no_gain s s.
Proof.
  exists (mOpenAshmemSize (this s)), []. destruct s as [[] []]. cbn. rewrite app_nil_r. done.
Qed.
Lemma touches_event f s (e : event) : (forall x, weight x e = f x) -> pwp (emit e) (fun _ => touches f s) s.
Proof.
  intros Hf. unfold emit. psteps. exists (mOpenAshmemSize (this s)), [e]. split; [by destruct s as [[] []]|].
  intros x. cbn. rewrite Hf. lia.
Qed.
Lemma touches_within f s s' dt os : touches f s s' -> at_end dt os s -> appended dt os f s s'.
Proof.
  intros (a & evs & -> & Hf) [[] Hp]. split; [split; [|done]; by split| |done].
  split; [done|]. intros x. cbn [world_of trace set_trace]. unfold net in *. by rewrite Zsum_app, Hf.
Qed.
Lemma count_ashmem_touches o sign s : pwp (count_ashmem o sign) (fun _ => touches no_gain s) s.
Proof.
  unfold count_ashmem. psteps. pif; [|by apply touches_nothing]. psteps.
  eexists _, []. split; [|done]. rewrite app_nil_r. destruct s as [t []]. done.
Qed.

(** The cases of the two functions. *)
Ltac object_case :=
  repeat match goal with
  | |- context [if fo_type ?o =? ?t then _ else _] => destruct (Z.eqb_spec (fo_type o) t) as [Ety|?]; [try rewrite !Ety|]
  end.

Lemma acquire_object_touches o s : pwp (acquire_object o true) (fun _ => touches (obj_gain o) s) s.
Proof.
  unfold acquire_object, obj_gain, obj_holds, obj_resource. cbv zeta. object_case.
  - destruct (Z.eqb_spec (fo_binder o) 0); cbn [negb if_then]; [apply touches_nothing|by apply touches_event].
  - destruct (Z.eqb_spec (fo_binder o) 0); cbn [negb if_then]; [apply touches_nothing|by apply touches_event].
  - destruct (has_proxy (fo_int o)); cbn [if_then]; [by apply touches_event|apply touches_nothing].
  - destruct (has_proxy (fo_int o)); cbn [if_then]; [by apply touches_event|apply touches_nothing].
  - rewrite andb_true_r. pif; [|apply touches_nothing].
    eapply pwp_mono; [apply count_ashmem_touches|]. done.
  - apply touches_nothing.
Qed.

Lemma release_object_touches o s : pwp (release_object o true) (fun _ => touches (fun x => - obj_holds x o) s) s.
Proof.
  unfold release_object, obj_holds, obj_resource. cbv zeta. object_case.
  - destruct (Z.eqb_spec (fo_binder o) 0); cbn [negb if_then]; [apply touches_nothing|by apply touches_event].
  - destruct (Z.eqb_spec (fo_binder o) 0); cbn [negb if_then]; [apply touches_nothing|by apply touches_event].
  - destruct (has_proxy (fo_int o)); cbn [if_then]; [by apply touches_event|apply touches_nothing].
  - destruct (has_proxy (fo_int o)); cbn [if_then]; [by apply touches_event|apply touches_nothing].
  - cbn [andb]. destruct (Z.eqb_spec (fo_cookie o) 0); cbn [negb if_then]; [apply touches_nothing|].
    psteps. eapply pwp_mono; [apply count_ashmem_touches|]. cbn beta. intros _ s1 (a & evs & -> & Hn).
    unfold emit. psteps. exists a, (evs ++ [Close (fo_int o)]). split; [by rewrite app_assoc|].
    intros x. rewrite net_snoc, Hn. cbn. unfold no_gain. lia.
  - apply touches_nothing.
Qed.
End References.

(** ** The list of offsets *)
Section Objects.
Context {E : ParcelEnv} {L : ParcelEnvLaws E}.

(** Room for one more. *)
Definition object_room s : Prop := mObjectsSize (this s) < mObjectsCapacity (this s).

Lemma few_objects dt os s : at_end dt os s -> 0 <= mObjectsSize (this s) <= mObjectsCapacity (this s) /\ 24 * mObjectsSize (this s) <= INT32_MAX.
Proof.
  intros [H _]. pose proof (objects_fit_few _ _ (hd_fit _ _ _ H)). pose proof (buffer_le _ _ _ _ _ (hd_objects _ _ _ H)).
  pose proof (buffer_le _ _ _ _ _ (hd_data _ _ _ H)). rewrite (hd_count _ _ _ H). pose proof (hd_cap _ _ _ H). lia.
Qed.

(** A chunk of the offsets at a new place, or with new contents. *)
Lemma holds_array dt os s q l : at_end dt os s -> 0 < q -> q = mObjects (this s) \/ heap (world_of s) !! q = None ->
  os `prefix_of` l ->
  appended dt os no_gain s
    (MkP (set_mObjectsCapacity (set_mObjects (this s) q) (Z.of_nat (length l)))
       (set_heap (world_of s) (<[q := MkChunk true l]> (delete (mObjects (this s)) (heap (world_of s)))))).
Proof.
  intros [H Hp] Hq Hf [rest ->]. destruct s as [t w], H as [Iow Isz Iby Ida Ica Ipo Icn Iob Ifi Iap Ihi Inu]. cbn in *.
  assert (mData t = 0 \/ mData t ≠ 0 /\ mData t ≠ q /\ mData t ≠ mObjects t) as Hd.
  { destruct Ida as [(Hd & _)|(Hd & r' & Hr' & _)]; [by left|right]. split_and!; [lia| |intros Eq; specialize (Iap Eq); lia].
    intros <-. destruct Hf as [Hf|Hf]; [specialize (Iap Hf); lia|congruence]. }
  split; [split; [split; cbn; try done|done]| |done].
  - destruct Hd as [Hd|(Hd1 & Hd2 & Hd3)].
    + destruct Ida as [(? & ? & ?)|(? & _)]; [by left|lia].
    + eapply buffer_same; [|exact Ida]. by rewrite lookup_insert_ne, lookup_delete_ne by done.
  - right. split; [done|]. exists rest. rewrite lookup_insert_eq. split_and!; [done|done|]. by apply Forall_forall.
  - intros Eq. destruct Hd as [Hd|(Hd1 & Hd2 & Hd3)]; [done|congruence].
  - rewrite lookup_insert_ne by lia.
    destruct (decide (mObjects t = 0)) as [->|]; [by rewrite lookup_delete_eq|by rewrite lookup_delete_ne].
  - apply within_same; [|done]. unfold account_of. cbn. f_equal. rewrite !(delete_delete _ _ (mData t)). f_equal.
    apply map_eq. intros i. destruct (decide (i = q)) as [->|Hiq].
    + rewrite lookup_delete_eq. destruct Hf as [->|Hf]; [by rewrite lookup_delete_eq|].
      destruct (decide (q = mObjects t)) as [->|]; [by rewrite lookup_delete_eq|by rewrite lookup_delete_ne].
    + by rewrite lookup_delete_ne, lookup_insert_ne by done.
Qed.

Lemma grow_objects_spec dt os s (k : Z) : at_end dt os s -> ~ object_room s -> mObjectsSize (this s) < k -> 8 * k < 2 ^ 64 ->
  pwp (grow_objects k) (fun err s' => appended dt os no_gain s s' /\ mData (this s') = mData (this s) /\
    mDataCapacity (this s') = mDataCapacity (this s) /\
    (err = NO_ERROR /\ object_room s' \/ no_memory err)) s.
Proof.
  intros H Hno Hk Hb. destruct (few_objects _ _ _ H) as [Hn _]. unfold object_room in Hno.
  pose proof (hd_count _ _ _ (proj1 H)) as Hc. destruct (H) as [Hh _].
  unfold grow_objects. psteps. rewrite (proj2 (Z.ltb_ge k _)) by lia. psteps.
  assert (short_of_memory -> appended dt os no_gain s s /\ mData (this s) = mData (this s) /\
    mDataCapacity (this s) = mDataCapacity (this s) /\ (NO_MEMORY = NO_ERROR /\ object_room s \/ no_memory NO_MEMORY)) as Hfail.
  { intros Hsh. split_and!; [by apply appended_refl|done|done|by right]. }
  destruct (hd_objects _ _ _ Hh) as [(Ho & Hoc & Hos)|(Ho & rest & Hch & Hl & _)].
  - rewrite Ho. apply pwp_realloc_null, pwp_alloc; [lia|by intros Hsh; psteps; apply Hfail| |lia].
    intros q l Hq Hf Hlen _ _. rewrite (proj2 (Z.eqb_neq q 0)) by lia. psteps.
    pose proof (holds_array dt os s q l H Hq (or_intror Hf)) as A. rewrite Ho, Hlen, Z2Nat.id in A by lia.
    rewrite (delete_id _ 0) in A by apply Hh. subst os.
    split_and!; [apply A; by exists l|done|done|left; split; [done|]]. unfold object_room. cbn. lia.
  - eapply pwp_realloc; [lia|exact Hch|lia|by intros Hsh; psteps; apply Hfail|].
    intros q Hq Hf. rewrite (proj2 (Z.eqb_neq q 0)) by lia. psteps.
    destruct (resized_prefix 8 q (Z.to_nat k) (os ++ rest)) as (r & Er & _); [lia|lia|].
    pose proof (resized_length 8 q (Z.to_nat k) (os ++ rest)) as Hrl.
    pose proof (holds_array dt os s q (resized 8 q (Z.to_nat k) (os ++ rest)) H Hq Hf) as A.
    rewrite Hrl, Z2Nat.id in A by lia.
    split_and!; [apply A; rewrite Er, <- app_assoc; by eexists|done|done|left; split; [done|]]. unfold object_room. cbn. lia.
Qed.

(** One more entry of the list. *)
Lemma holds_enter dt os s off rest : at_end dt os s -> heap (world_of s) !! mObjects (this s) = Some (MkChunk true (os ++ off :: rest)) ->
  objects_fit (os ++ [off]) (Z.of_nat (length dt)) ->
  appended dt (os ++ [off]) no_gain s (MkP (set_mObjectsSize (this s) (u64 (mObjectsSize (this s) + 1))) (world_of s)).
Proof.
  intros H Hc Hf. destruct (few_objects _ _ _ H) as [_ Hfew]. destruct H as [H Hp].
  destruct (hd_objects _ _ _ H) as [(Ho & _)|(Ho & rest' & Hc' & Hl & _)].
  { rewrite Ho, (hd_null _ _ _ H) in Hc. done. }
  rewrite Hc in Hc'. injection Hc' as Er. rewrite <- Er in Hl. pose proof (hd_count _ _ _ H) as Hn.
  unfold INT32_MAX in Hfew. rewrite u64_small by lia. destruct s as [t w], H as [Iow Isz Iby Ida Ica Ipo Icn Iob Ifi Iap Ihi Inu].
  split; [split; [split; cbn in *; try done|done]|by apply within_same|done].
  - rewrite length_app. cbn. lia.
  - right. split; [done|]. exists rest. rewrite <- app_assoc. cbn. split_and!; [done|done|]. by apply Forall_forall.
Qed.

Lemma finishWrite_count len k s : pwp (finishWrite len) (fun err s' => pwp (finishWrite len)
  (fun err' s'' => err' = err /\ s'' = MkP (set_mObjectsSize (this s') k) (world_of s')) (MkP (set_mObjectsSize (this s) k) (world_of s))) s.
Proof.
  unfold finishWrite. pif; psteps; cbn; rewrite C; psteps; [done|]. cbn.
  split; [done|]. by case_match.
Qed.

(** Storing an entry where there is room for one. *)
Lemma pwp_store_entry dt os s off (Q : unit -> pstate -> Prop) : at_end dt os s -> object_room s ->
  (forall s' rest, this s' = this s -> appended dt os no_gain s s' ->
     heap (world_of s') !! mObjects (this s') = Some (MkChunk true (os ++ off :: rest)) ->
     heap (world_of s') !! mData (this s') = heap (world_of s) !! mData (this s) -> Q tt s') ->
  pwp (mem_store (mObjects (this s)) (mObjectsSize (this s)) [off]) Q s.
Proof.
  intros H Hroom HQ. destruct (few_objects _ _ _ H) as [Hn _]. unfold object_room in Hroom. destruct (H) as [Hh _].
  pose proof (hd_count _ _ _ Hh) as Hc.
  destruct (hd_objects _ _ _ Hh) as [(Ho & Hoc & Hos)|(Ho & rest & Hch & Hl & _)]; [lia|].
  destruct rest as [|y rest]; [rewrite app_nil_r in Hl; lia|].
  eapply pwp_store; [exact Hch|lia|rewrite length_app; cbn; lia|]. rewrite Hc, Nat2Z.id.
  assert (splice (length os) [off] (os ++ y :: rest) = os ++ off :: rest) as -> by (by apply (splice_app _ [off] os [y] rest)).
  pose proof (holds_array dt os s (mObjects (this s)) (os ++ off :: rest) H Ho (or_introl eq_refl)) as A.
  assert (mData (this s) = 0 \/ mData (this s) ≠ mObjects (this s)) as Hd.
  { destruct (decide (mData (this s) = mObjects (this s))) as [Eq|]; [left; by apply Hh|by right]. }
  assert (Z.of_nat (length (os ++ off :: rest)) = mObjectsCapacity (this s)) as Hcap.
  { rewrite <- Hl, !length_app. done. }
  rewrite Hcap, insert_delete_eq in A.
  apply (HQ _ rest); [done| |cbn; by rewrite lookup_insert_eq|].
  - assert (set_mObjectsCapacity (set_mObjects (this s) (mObjects (this s))) (mObjectsCapacity (this s)) = this s) as Et.
    { destruct s as [[] ?]. done. }
    rewrite Et in A. apply A. by eexists.
  - cbn. destruct Hd as [->|Hd]; rewrite lookup_insert_ne; done || lia.
Qed.

(** Whether the object is entered in the list, where, and what is taken then. *)
Definition entered (o : flat_binder_object) (nullMetaData : bool) : bool := nullMetaData || negb (fo_binder o =? 0).
Definition new_offsets o (nullMetaData : bool) n : list Z := if entered o nullMetaData then [n] else [].
Definition object_gain o (nullMetaData : bool) x : Z := if entered o nullMetaData then obj_gain o x else 0.

(** The data that wait for [finishWrite]. *)
Record pending dt os e gain s s' : Prop := {
  pe_appended : appended dt os gain s s';
  pe_data : 0 < mData (this s') /\ exists rest, heap (world_of s') !! mData (this s') = Some (MkChunk true (dt ++ e ++ rest)) /\
    Forall is_byte rest /\ Z.of_nat (length (dt ++ e ++ rest)) = mDataCapacity (this s')
}.

Lemma pwp_pend dt os s l : at_end dt os s -> Z.of_nat (length dt + length l) <= mDataCapacity (this s) -> (0 < length l)%nat ->
  Forall is_byte l -> pwp (store_here l) (fun _ s' => this s' = this s /\ pending dt os l no_gain s s') s.
Proof.
  intros H Hc Hl Hb. destruct (hd_data _ _ _ (proj1 H)) as [(_ & Hz & ->)|(Hp & rest & Hh & Hcap & Hr)]; [cbn in Hc; lia|].
  rewrite length_app in Hcap. eapply pwp_store_end; [exact H|exact Hh|done|lia|done|done|rewrite length_app; lia|].
  intros s' Ht A Hh'. split; [done|]. split; [done|]. rewrite Ht in *. split; [done|]. eexists. split; [exact Hh'|].
  split; [by apply Forall_drop|]. rewrite !length_app, length_drop. lia.
Qed.

Lemma pending_finish dt os e gain s s' : pending dt os e gain s s' -> Forall is_byte e -> 
  pwp (finishWrite (Z.of_nat (length e))) (fun err s'' => err = NO_ERROR /\ appended (dt ++ e) os gain s s'') s'.
Proof.
  intros [A (Hp & rest & Hh & Hr & Hc)] He. eapply (pwp_finishWrite dt os s' e); [apply A|done|exact Hh|done|done|done|].
  intros s'' A' _ _ _ _ _. split; [done|]. eapply appended_trans; [exact A|exact A'|]. intros x. unfold no_gain. lia.
Qed.

Lemma pending_flags dt os e gain s s' b1 b2 : pending dt os e gain s s' ->
  pending dt os e gain s (MkP (set_mFdsKnown (set_mHasFds (this s') b1) b2) (world_of s')).
Proof. intros [[[[] Hp] [A W] F] D]. split; [split; [split; [by split|done]|by split|done]|done]. Qed.

Lemma pending_touches dt os e s s' f s'' : pending dt os e no_gain s s' -> touches f s' s'' -> pending dt os e f s s''.
Proof.
  intros [A D] T. split.
  - eapply appended_trans; [exact A|by eapply touches_within; [|apply A]|]. intros x. unfold no_gain. lia.
  - destruct T as (a & evs & -> & _). exact D.
Qed.

(** The entry of an object that waits for [finishWrite]. *)
Lemma pending_enter dt os e f s s' rest : pending dt os e f s s' -> length e = 24%nat -> Forall is_byte e ->
  heap (world_of s') !! mObjects (this s') = Some (MkChunk true (os ++ Z.of_nat (length dt) :: rest)) ->
  pwp (finishWrite 24) (fun err s'' => err = NO_ERROR /\ appended (dt ++ e) (os ++ [Z.of_nat (length dt)]) f s s'')
    (MkP (set_mObjectsSize (this s') (u64 (mObjectsSize (this s') + 1))) (world_of s')).
Proof.
  intros [A (Hp & r & Hh & Hr & Hc)] Hl He Ho.
  assert (pwp (finishWrite 24) (fun err s'' => err = NO_ERROR /\ appended (dt ++ e) os f s s'' /\ world_of s'' = world_of s' /\
    mObjects (this s'') = mObjects (this s') /\ mObjectsSize (this s'') = mObjectsSize (this s')) s') as Hfin.
  { replace 24 with (Z.of_nat (length e)) by (rewrite Hl; done).
    eapply (pwp_finishWrite dt os s' e); [apply A|done|exact Hh|done|done|done|].
    intros s'' A' Hw Hd Ho' Hoc _. split_and!; [done| |done|done|].
    - eapply appended_trans; [exact A|exact A'|]. intros x. unfold no_gain. lia.
    - rewrite (hd_count _ _ _ (proj1 (ap_end _ _ _ _ _ A'))). symmetry. apply (hd_count _ _ _ (proj1 (ap_end _ _ _ _ _ A))). }
  pose proof (pwp_conj _ _ _ _ Hfin (finishWrite_count 24 (u64 (mObjectsSize (this s') + 1)) s')) as Hb.
  unfold pwp at 1 in Hb. destruct (finishWrite 24 s') as [[err s2]|]; [|done].
  destruct Hb as ((-> & A2 & Hw & Ho2 & Hn2) & Hb). eapply pwp_mono; [exact Hb|]. cbn beta. intros err' s'' [-> ->]. split; [done|].
  assert (appended (dt ++ e) (os ++ [Z.of_nat (length dt)]) no_gain s2
    (MkP (set_mObjectsSize (this s2) (u64 (mObjectsSize (this s2) + 1))) (world_of s2))) as A3.
  { eapply (holds_enter (dt ++ e) os s2 _ rest); [apply A2|by rewrite Hw, Ho2|].
    rewrite length_app, Hl, Nat2Z.inj_add. apply objects_fit_snoc; [apply (hd_fit _ _ _ (proj1 (ap_end _ _ _ _ _ A)))|lia]. }
  rewrite Hn2 in A3. eapply appended_trans; [exact A2|exact A3|]. intros x. unfold no_gain. lia.
Qed.

Lemma pwp_put_object dt os s o nm : at_end dt os s -> Z.of_nat (length dt + 24) <= mDataCapacity (this s) ->
  object_room s ->
  pwp (put_object o nm) (strict_outcome dt os (obj_bytes o) (new_offsets o nm (Z.of_nat (length dt))) (object_gain o nm) s) s.
Proof.
  intros H Hc Hroom. unfold put_object. apply pwp_bind.
  eapply pwp_mono; [apply (pwp_pend dt os s (obj_bytes o)); [done|done|rewrite length_obj_bytes; lia|apply obj_bytes_byte]|].
  cbn beta. intros _ s1 [Ht Hpe]. psteps. pif.
  { apply andb_true_iff in C as [_ Ha]. apply negb_true_iff in Ha. rewrite Ht in Ha. apply pwp_ret. right. split; [done|].
    apply stopped_nothing; [apply Hpe|]. right. left. done. }
  clear C. assert (exists b1 b2, pwp (if_then (fo_type o =? BINDER_TYPE_FD)
      (modify_this (fun t => set_mFdsKnown (set_mHasFds t true) true)))
      (fun _ s2 => s2 = MkP (set_mFdsKnown (set_mHasFds (this s1) b1) b2) (world_of s1)) s1) as (b1 & b2 & Hf).
  { destruct (fo_type o =? BINDER_TYPE_FD); [by exists true, true|].
    exists (mHasFds (this s1)), (mFdsKnown (this s1)). destruct s1 as [[] ?]. done. }
  apply pwp_bind. eapply pwp_mono; [exact Hf|]. cbn beta. intros _ s2 ->.
  apply (pending_flags _ _ _ _ _ _ b1 b2) in Hpe. set (s2 := MkP _ _) in *.
  unfold new_offsets, object_gain. unfold entered. apply pwp_bind. pif; rewrite C.
  - psteps. assert (at_end dt os s2) as H2 by apply Hpe. assert (object_room s2) as Hr2.
    { unfold object_room, s2. cbn. rewrite Ht. exact Hroom. }
    rewrite (proj2 H2). eapply (pwp_store_entry dt os s2); [done|done|]. intros s3 rest Ht3 A3 Ho3 Hd3.
    apply pwp_bind. eapply pwp_mono; [apply acquire_object_touches|]. cbn beta. intros _ s4 T.
    assert (pending dt os (obj_bytes o) no_gain s s3) as Hpe3.
    { destruct Hpe as [A2 (Hp2 & r2 & Hh2 & D2)]. split; [by eapply appended_trans|]. rewrite Ht3 in *. split; [done|].
      exists r2. rewrite Hd3. done. }
    pose proof (pending_touches _ _ _ _ _ _ _ Hpe3 T) as Hpe4. psteps.
    eapply pwp_mono; [apply (pending_enter dt os (obj_bytes o) _ s s4 rest Hpe4); [apply length_obj_bytes|apply obj_bytes_byte|]|].
    + destruct T as (a & evs & -> & _). exact Ho3.
    + cbn beta. intros err s' [-> A]. by left.
  - eapply pwp_mono; [apply (pending_finish dt os (obj_bytes o) no_gain s s2 Hpe), obj_bytes_byte|]. cbn beta.
    intros err s' [-> A]. left. by rewrite app_nil_r.
Qed.

Lemma pwp_writeObject dt os s o nm : at_end dt os s ->
  pwp (writeObject o nm) (strict_outcome dt os (obj_bytes o) (new_offsets o nm (Z.of_nat (length dt))) (object_gain o nm) s) s.
Proof.
  intros H. pose proof (at_end_small _ _ _ H) as Hs. destruct (H) as [Hh Hp]. unfold INT32_MAX in *.
  unfold writeObject. psteps. rewrite Hp, u64_small by lia.
  assert (pwp (if Z.of_nat (length dt) + 24 <=? mDataCapacity (this s) then mret NO_ERROR else growData 24)
    (fun err s1 => appended dt os no_gain s s1 /\ mObjectsSize (this s1) = mObjectsSize (this s) /\
       mObjectsCapacity (this s1) = mObjectsCapacity (this s) /\
       (err = NO_ERROR /\ Z.of_nat (length dt + 24) <= mDataCapacity (this s1) \/
        err ≠ NO_ERROR /\ (no_memory err \/ too_big (Z.of_nat (length dt + 24))))) s) as Hgrow.
  { pif.
    - apply Z.leb_le in C. apply pwp_ret. split_and!; [by apply appended_refl|done|done|left]. split; [done|lia].
    - eapply pwp_mono; [apply (growData_grown dt os); [done|lia]|]. cbn beta. intros err s1 G.
      pose proof (grown_appended _ _ _ _ _ _ _ H G) as A. destruct G as [G1 G2 G3 G4 [G5 G5'] G6 G7].
      split_and!; [done|by rewrite (hd_count _ _ _ G1), (hd_count _ _ _ Hh)|done|].
      destruct (decide (err = NO_ERROR)) as [->|Hn]; [left|right]; (split; [done|]).
      + specialize (G6 eq_refl). lia.
      + destruct (G7 Hn) as [[? _]|?]; [by left|right]. unfold too_big. by rewrite Nat2Z.inj_add. }
  eapply pwp_mono; [exact Hgrow|]. cbn beta. intros err s1 (A1 & Hn1 & Hc1 & Hr1). split; cycle 1.
  { intros Hn. right. split; [done|]. apply stopped_nothing; [done|]. rewrite length_obj_bytes.
    destruct Hr1 as [[? _]|[_ [?|?]]]; [done|by left|by right; right]. }
  intros ->. destruct Hr1 as [[_ Hroom]|[? _]]; [|done]. rewrite <- Hn1, <- Hc1.
  assert (pwp (if mObjectsSize (this s1) <? mObjectsCapacity (this s1) then mret NO_ERROR
               else n ← field_of mObjectsSize; grow_objects (u64 (u64 (n + 2) * 3) / 2))
    (fun err s2 => appended dt os no_gain s1 s2 /\ mDataCapacity (this s2) = mDataCapacity (this s1) /\
      (err = NO_ERROR /\ object_room s2 \/ no_memory err)) s1) as Hobj.
  { pif.
    - apply Z.ltb_lt in C. apply pwp_ret. split_and!; [apply appended_refl, A1|done|by left].
    - apply Z.ltb_ge in C. psteps. destruct (few_objects _ _ _ (ap_end _ _ _ _ _ A1)) as [Hf1 Hf2]. unfold INT32_MAX in *.
      rewrite !u64_small by (rewrite ?u64_small; lia).
      eapply pwp_mono; [apply (grow_objects_spec dt os s1); [apply A1|unfold object_room; lia|zdiv|zdiv]|].
      cbn beta. intros err s2 (A2 & _ & Hc2 & Hr). done. }
  apply pwp_and_then. eapply pwp_mono; [exact Hobj|]. cbn beta. intros err s2 (A2 & Hc2 & Hr2).
  assert (appended dt os no_gain s s2) as A by by eapply appended_trans. split; cycle 1.
  { intros Hn. right. split; [done|]. apply stopped_nothing; [done|]. destruct Hr2 as [[? _]|?]; [done|by left]. }
  intros ->. destruct Hr2 as [[_ Hor]|[? _]]; [|done].
  eapply pwp_mono; [apply (pwp_put_object dt os s2); [apply A|by rewrite Hc2|done]|]. cbn beta. intros err s3.
  intros [[-> A3]|[Hn (k & A3 & He)]]; [left|right]; (split; [done|]).
  - eapply appended_trans; [exact A|exact A3|]. intros x. unfold no_gain. lia.
  - exists k. split; [by eapply appended_trans|]. by rewrite (ap_allow _ _ _ _ _ A) in He.
Qed.
End Objects.
