(* ===== verification/ParcelValues.v ===== *)
(** * Parcels: values

    The values that programs put into parcels, their encoding, and the writers as
    appending it.  [write_all] writes one value after another as long as there is no
    error. *)
From S2P Require Import Prelude UserMem Protocol ParcelState Parcel ParcelWrite ParcelInv ParcelAppend ParcelObjects.

Implicit Types (s : pstate) (dt os e oe l : list Z) (n off : Z) (x : resource) (o : flat_binder_object).

Inductive value : Set :=
| VInt32 (z : Z)
| VUint32 (z : Z)
| VInt64 (z : Z)
| VUint64 (z : Z)
| VBytes (l : list Z)
| VCString (l : list Z)
| VString8 (l : list Z)
| VString16 (str : option (list Z))
| VStrong (b : option ibinder)
| VWeak (b : option wbinder)
| VFile (fd : Z) (takeOwnership : bool).

Implicit Types (v : value) (vs : list value).

(** ** Values of their C types *)
Definition int32 (z : Z) : Prop := - 2 ^ 31 <= z < 2 ^ 31.
Definition int64 (z : Z) : Prop := - 2 ^ 63 <= z < 2 ^ 63.
Definition not_null (z : Z) : Prop := 0 < z < 2 ^ 64.
Definition ibinder_ok (b : ibinder) : Prop :=
  match b with
  | LocalBinder ptr refs => not_null ptr /\ not_null refs
  | RemoteBinder h => int32 h
  | NeitherBinder => True
  end.
Definition wbinder_ok (w : wbinder) : Prop :=
  match wb_promote w with Some b => ibinder_ok b /\ not_null (wb_ptr w) /\ not_null (wb_refs w) | None => True end.
Definition opt_ok {A} (P : A -> Prop) (a : option A) : Prop := match a with Some a => P a | None => True end.
Definition string_ok (P : Z -> Prop) (w : Z) l : Prop := Forall P l /\ w * (Z.of_nat (length l) + 1) <= INT32_MAX.
Definition value_ok v : Prop :=
  match v with
  | VInt32 z => int32 z
  | VUint32 z => 0 <= z < 2 ^ 32
  | VInt64 z => int64 z
  | VUint64 z => 0 <= z < 2 ^ 64
  | VBytes l => l ≠ [] /\ Forall is_byte l /\ Z.of_nat (length l) <= INT32_MAX
  | VCString l => string_ok (fun b => 0 < b < 256) 1 l
  | VString8 l => string_ok is_byte 1 l
  | VString16 str => opt_ok (string_ok is_unit 2) str
  | VStrong b => opt_ok ibinder_ok b
  | VWeak b => opt_ok wbinder_ok b
  | VFile fd _ => 0 <= fd < 2 ^ 31
  end.

(** ** The encoding *)
Definition file_object (fd : Z) (own : bool) : flat_binder_object := MkObj BINDER_TYPE_FD flat_flags (u32 fd) (if own then 1 else 0).
Definition encode_string8 l : list Z := match l with [] => [] | _ => pad4 (l ++ [0]) end.
Definition encode v : list Z :=
  match v with
  | VInt32 z | VUint32 z => le_bytes 4 z
  | VInt64 z | VUint64 z => le_bytes 8 z
  | VBytes l => pad4 l
  | VCString l => pad4 (l ++ [0])
  | VString8 l => le_bytes 4 (Z.of_nat (length l)) ++ encode_string8 l
  | VString16 None => le_bytes 4 (-1)
  | VString16 (Some l) => le_bytes 4 (Z.of_nat (length l)) ++ pad4 (bytes16 (l ++ [0]))
  | VStrong b => obj_bytes (strong_object b)
  | VWeak b => obj_bytes (weak_object b)
  | VFile fd own => obj_bytes (file_object fd own)
  end.
(** The object of a value, and whether null objects are entered. *)
Definition value_object v : option (flat_binder_object * bool) :=
  match v with
  | VStrong b => Some (strong_object b, false)
  | VWeak b => Some (weak_object b, false)
  | VFile fd own => Some (file_object fd own, true)
  | _ => None
  end.
(** The offsets that a value at [n] adds. *)
Definition offsets v n : list Z := match value_object v with Some (o, nm) => new_offsets o nm n | None => [] end.

Fixpoint encode_all vs : list Z := match vs with [] => [] | v :: vs => encode v ++ encode_all vs end.
Fixpoint offsets_all vs n : list Z :=
  match vs with [] => [] | v :: vs => offsets v n ++ offsets_all vs (n + Z.of_nat (length (encode v))) end.

Section Values.
Context {E : ParcelEnv}.

Definition write_value v : P Z :=
  match v with
  | VInt32 z => writeInt32 z
  | VUint32 z => writeUint32 z
  | VInt64 z => writeInt64 z
  | VUint64 z => writeUint64 z
  | VBytes l => write l
  | VCString l => writeCString l
  | VString8 l => writeString8 l
  | VString16 str => writeString16 str
  | VStrong b => writeStrongBinder b
  | VWeak b => writeWeakBinder b
  | VFile fd own => writeFileDescriptor fd own
  end.
Fixpoint write_all vs : P Z :=
  match vs with [] => mret NO_ERROR | v :: vs => and_then (write_value v) (write_all vs) end.

Definition value_gain v x : Z := match value_object v with Some (o, nm) => object_gain o nm x | None => 0 end.
Definition all_gain vs x : Z := Zsum (fun v => value_gain v x) vs.

Context {L : ParcelEnvLaws E}.

Lemma too_big_mono n n' : too_big n -> n <= n' -> too_big n'.
Proof. unfold too_big. intros H Hn. eapply Z.lt_le_trans; [exact H|]. apply Z.div_le_mono; lia. Qed.

(** A number, and then bytes: no object. *)
Lemma outcome_then dt os e1 e2 m k s : pwp m (strict_outcome dt os e1 [] no_gain s) s ->
  (forall s1, at_end (dt ++ e1) os s1 -> pwp k (outcome (dt ++ e1) os e2 [] no_gain s1) s1) ->
  pwp (and_then m k) (outcome dt os (e1 ++ e2) [] no_gain s) s.
Proof.
  intros Hm Hk. apply pwp_and_then. eapply pwp_mono; [exact Hm|]. cbn beta. intros err s1 [[-> A]|[Hn S]].
  - split; [|done]. intros _. rewrite app_nil_r in A. eapply pwp_mono; [apply Hk, A|]. cbn beta.
    intros err s2 [[-> A2]|(k' & A2 & He)].
    + left. split; [done|]. rewrite app_assoc. by eapply appended_trans.
    + right. exists (length e1 + k')%nat. rewrite take_app_add, app_assoc. split; [by eapply appended_trans|].
      rewrite (ap_allow _ _ _ _ _ A) in He. rewrite length_app in *. by rewrite Nat.add_assoc.
  - split; [done|]. intros _. right. destruct S as (k' & A2 & He). exists (Nat.min k' (length e1)). split.
    + rewrite take_app_le by lia. replace (take (k' `min` length e1) e1) with (take k' e1); [done|].
      destruct (Nat.min_spec k' (length e1)) as [[? ->]|[? ->]]; [done|]. by rewrite !take_ge by lia.
    + destruct He as [?|[?|He]]; [by left|by right; left|right; right]. eapply too_big_mono; [exact He|].
      rewrite length_app. lia.
Qed.

Lemma pwp_weaken dt os e oe gain m s : pwp m (strict_outcome dt os e oe gain s) s -> pwp m (outcome dt os e oe gain s) s.
Proof. intros H. eapply pwp_mono; [exact H|]. intros ? ?. apply strict_outcome_outcome. Qed.
Lemma pwp_writeInt32 dt os s z : at_end dt os s -> pwp (writeInt32 z) (strict_outcome dt os (le_bytes 4 z) [] no_gain s) s.
Proof. intros H. apply pwp_writeAligned; [done|lia|lia]. Qed.

Lemma string_bytes l : Forall is_byte l -> Forall is_byte (l ++ [0]).
Proof. intros H. apply Forall_app_2; [done|]. constructor; [done|constructor]. Qed.

Lemma pwp_writeCString dt os s l : at_end dt os s -> string_ok is_byte 1 l ->
  pwp (writeCString l) (outcome dt os (pad4 (l ++ [0])) [] no_gain s) s.
Proof.
  intros H [Hb Hl]. apply pwp_write; [done|by destruct l|rewrite length_app; cbn; lia|by apply string_bytes].
Qed.

Lemma pwp_writeString8 dt os s l : at_end dt os s -> string_ok is_byte 1 l ->
  pwp (writeString8 l) (outcome dt os (encode (VString8 l)) [] no_gain s) s.
Proof.
  intros H Hl. cbn [encode]. assert (pwp (and_then (writeInt32 (Z.of_nat (length l)))
      (match l with [] => mret NO_ERROR | _ => write (l ++ [0]) end))
    (outcome dt os (le_bytes 4 (Z.of_nat (length l)) ++ encode_string8 l) [] no_gain s) s) as Hw.
  { apply outcome_then; [by apply pwp_writeInt32|]. intros s1 H1. destruct l as [|b l].
    - apply pwp_ret. left. cbn [encode_string8]. rewrite !app_nil_r. split; [done|by apply appended_refl].
    - by apply pwp_writeCString. }
  unfold writeString8, and_then in *. apply pwp_bind. unfold pwp, mbind, P_bind in *.
  destruct (writeInt32 _ s) as [[err s1]|]; [|done]. destruct l as [|b l]; cbn [length Z.of_nat Z.ltb Z.compare andb].
  - destruct (Z.eqb_spec err NO_ERROR) as [->|]; [done|done].
  - destruct (Z.eqb_spec err NO_ERROR) as [->|]; [done|done].
Qed.

Lemma pwp_writeString16 dt os s str : at_end dt os s -> opt_ok (string_ok is_unit 2) str ->
  pwp (writeString16 str) (outcome dt os (encode (VString16 str)) [] no_gain s) s.
Proof.
  intros H Hs. destruct str as [l|]; [|by apply pwp_weaken, pwp_writeInt32]. destruct Hs as [Hu Hl]. cbn [writeString16].
  unfold INT32_MAX in *. cbv zeta. rewrite !u64_small by (rewrite ?u64_small; lia).
  refine (outcome_then dt os _ _ (writeInt32 (Z.of_nat (length l))) _ s (pwp_writeInt32 dt os s _ H) _). intros s1 H1.
  set (k := length (bytes16 (l ++ [0]))). assert (k = 2 * length l + 2)%nat as Hk.
  { unfold k. rewrite length_bytes16_nat, length_app. cbn. lia. }
  replace (Z.of_nat (length l) * 2 + 2) with (Z.of_nat k) by lia. apply pwp_bind.
  eapply pwp_mono; [apply (pwp_writeInplace _ os s1 k H1); unfold INT32_MAX; lia|]. cbn beta.
  intros p s2 [[-> (g & A & Hg & Hz & Hd)]|(-> & A & He)].
  - pose proof (padded_len_bounds k) as Hb. psteps.
    set (g1 := take (2 * length l) g). set (g2 := take 2 (drop (2 * length l) g)).
    assert (g = g1 ++ g2 ++ replicate (padded_len k - k) 0) as Eg.
    { rewrite <- Hz, Hk. unfold g1, g2. rewrite <- drop_drop, take_drop. by rewrite take_drop. }
    assert (length g1 = 2 * length l /\ length g2 = 2)%nat as [Hg1 Hg2].
    { unfold g1, g2. rewrite !length_take, length_drop. lia. }
    rewrite Eg in A. eapply (pwp_store_in _ g1 _ os); [apply A|by rewrite length_bytes16_nat|apply bytes16_byte|done|].
    intros s3 Ht3 A3. apply pwp_bind. rewrite <- Ht3.
    eapply (pwp_store_in ((dt ++ le_bytes 4 (Z.of_nat (length l))) ++ bytes16 l) g2 (replicate (padded_len k - k) 0) os).
    + rewrite <- app_assoc. apply A3.
    + done.
    + apply le_bytes_byte.
    + rewrite (length_app _ (bytes16 l)), length_bytes16_nat. lia.
    + intros s4 Ht4 A4. apply pwp_ret. left. split; [done|]. rewrite app_nil_r. unfold pad4. fold k.
      rewrite bytes16_app. change (bytes16 [0]) with (le_bytes 2 0). rewrite <- !app_assoc in A4 |- *. eapply appended_trans; [exact A|by eapply appended_trans|done].
  - psteps. right. apply stopped_nothing; [done|]. rewrite length_pad4. fold k.
    destruct He as [He|He]; [by left|by right; right].
Qed.

Lemma pwp_write_value dt os s v : at_end dt os s -> value_ok v ->
  pwp (write_value v) (outcome dt os (encode v) (offsets v (Z.of_nat (length dt))) (value_gain v) s) s.
Proof.
  intros H Hv. destruct v; cbn [write_value value_ok] in *; try (by apply pwp_weaken, pwp_writeInt32);
    try (apply pwp_weaken, pwp_writeAligned; [done|lia|lia]); try (by apply pwp_weaken, pwp_writeObject).
  - destruct Hv as (Hn & Hb & Hl). by apply pwp_write.
  - destruct Hv as [Hb Hl]. apply pwp_writeCString; [done|]. split; [|done]. eapply Forall_impl; [exact Hb|].
    unfold is_byte. cbn. lia.
  - by apply pwp_writeString8.
  - by apply pwp_writeString16.
Qed.

(** [write_all] has written every value, or everything before a value and a prefix of
    that, for want of memory or because descriptors are not allowed. *)
Definition written dt os vs s err s' : Prop :=
  err = NO_ERROR /\ appended (dt ++ encode_all vs) (os ++ offsets_all vs (Z.of_nat (length dt))) (all_gain vs) s s' \/
  (no_memory err \/ err = FDS_NOT_ALLOWED /\ mAllowFds (this s) = false) /\
  exists vs1 v vs2 (k : nat), vs = vs1 ++ v :: vs2 /\
    appended (dt ++ encode_all vs1 ++ take k (encode v)) (os ++ offsets_all vs1 (Z.of_nat (length dt))) (all_gain vs1) s s'.

Lemma pwp_write_all dt os s vs : at_end dt os s -> Forall value_ok vs ->
  ~ too_big (Z.of_nat (length dt + length (encode_all vs))) -> pwp (write_all vs) (written dt os vs s) s.
Proof.
  revert dt os s. induction vs as [|v vs IH]; intros dt os s H Hv Hs.
  { apply pwp_ret. left. cbn. rewrite !app_nil_r. split; [done|]. by apply appended_refl. }
  apply Forall_cons in Hv as [Hv Hvs]. cbn [write_all encode_all] in *. rewrite length_app in Hs.
  apply pwp_and_then. eapply pwp_mono; [by apply pwp_write_value|]. cbn beta. intros err s1 [[-> A]|(k & A & He)].
  - split; [|done]. intros _. eapply pwp_mono; [apply (IH (dt ++ encode v)); [apply A|done|]|].
    { rewrite length_app. intros Hb. apply Hs. eapply too_big_mono; [exact Hb|]. lia. }
    cbn beta. intros err s2 [[-> A2]|[He (vs1 & v' & vs2 & k & -> & A2)]].
    + left. split; [done|]. cbn [encode_all offsets_all]. rewrite !app_assoc. rewrite length_app, Nat2Z.inj_add in A2.
      eapply appended_trans; [exact A|exact A2|done].
    + right. split; [by rewrite (ap_allow _ _ _ _ _ A) in He|]. exists (v :: vs1), v', vs2, k. split; [done|].
      cbn [encode_all offsets_all]. rewrite length_app, Nat2Z.inj_add in A2. rewrite (app_assoc os), <- app_assoc. rewrite <- app_assoc in A2.
      eapply appended_trans; [exact A|exact A2|done].
  - assert (no_memory err \/ err = FDS_NOT_ALLOWED /\ mAllowFds (this s) = false) as He'.
    { destruct He as [?|[?|Hb]]; [by left|by right|]. exfalso. apply Hs. eapply too_big_mono; [exact Hb|]. lia. }
    split; [intros ->; destruct He' as [[? _]|[? _]]; done|]. intros _. right. split; [done|].
    exists [], v, vs, k. split; [done|]. cbn. by rewrite app_nil_r.
Qed.
End Values.
