(* ===== verification/ParcelShows.v ===== *)
(** * Parcels: reading

    [shows dt os s]: the data of the parcel are [dt], with objects at [os]; it may own
    them or have received them.  A reader moves the position and the hint of the
    object search ([moved]), and nothing else. *)
From S2P Require Import Prelude UserMem Protocol ParcelState Parcel ParcelWrite ParcelRead ParcelInv ParcelAppend ParcelObjects ParcelValues.

Implicit Types (s : pstate) (dt os e l : list Z) (k h off : Z) (o : flat_binder_object).

(** [l] is at the start of the chunk at [p]. *)
Definition readable (m : gmap Z chunk) (p : Z) l : Prop :=
  l = [] \/ exists b rest, m !! p = Some (MkChunk b (l ++ rest)) /\ p ≠ 0.

Record shows dt os s : Prop := {
  sh_size : mDataSize (this s) = Z.of_nat (length dt);
  sh_small : Z.of_nat (length dt) <= INT32_MAX;
  sh_bytes : Forall is_byte dt;
  sh_data : readable (heap (world_of s)) (mData (this s)) dt;
  sh_count : mObjectsSize (this s) = Z.of_nat (length os);
  sh_objects : readable (heap (world_of s)) (mObjects (this s)) os;
  sh_fit : objects_fit os (Z.of_nat (length dt));
  sh_hint : 0 <= mNextObjectHint (this s)
}.

Definition moved s k h : pstate := MkP (set_mNextObjectHint (set_mDataPos (this s) k) h) (world_of s).

(** [m] reads [a] from the bytes between positions [k] and [k']. *)
Definition reads_to {A} (m : P A) s k' (a : A) : Prop :=
  pwp m (fun r s' => r = a /\ exists h, s' = moved s k' h /\ 0 <= h) s.

Section Basics.
Lemma holds_shows dt os s : holds dt os s -> shows dt os s.
Proof.
  intros H. pose proof (buffer_le _ _ _ _ _ (hd_data _ _ _ H)). pose proof (hd_cap _ _ _ H). split; try apply H; try lia.
  - destruct (hd_data _ _ _ H) as [(_ & _ & ->)|(Hp & r & Hr & _)]; [by left|right]. exists true, r. split; [done|lia].
  - destruct (hd_objects _ _ _ H) as [(_ & _ & ->)|(Hp & r & Hr & _)]; [by left|right]. exists true, r. split; [done|lia].
Qed.
Lemma shows_moved dt os s k h : shows dt os s -> 0 <= h -> shows dt os (moved s k h).
Proof. intros [] Hh. by split. Qed.
Lemma moved_moved s k h k' h' : moved (moved s k h) k' h' = moved s k' h'.
Proof. done. Qed.
Lemma moved_self s : moved s (mDataPos (this s)) (mNextObjectHint (this s)) = s.
Proof. by destruct s as [[] ?]. Qed.
End Basics.

Section Reading.
Context {E : ParcelEnv}.

(** Loads from the data. *)
Lemma pwp_load_data pre e post os s (Q : list Z -> pstate -> Prop) off (n : nat) : shows (pre ++ e ++ post) os s ->
  off = Z.of_nat (length pre) -> n = length e -> Q e s -> pwp (mem_load (mData (this s)) off n) Q s.
Proof.
  intros H -> -> HQ. destruct (sh_data _ _ _ H) as [Hn|(b & rest & Hp & _)].
  { apply (f_equal length) in Hn. rewrite !length_app in Hn. cbn in Hn. destruct e; [|cbn in Hn; lia]. done. }
  eapply pwp_load; [exact Hp|lia|rewrite !length_app; lia|].
  by rewrite Nat2Z.id, <- !app_assoc, drop_app_length, take_app_length.
Qed.
Lemma pwp_load_object os s (i : nat) n x dt (Q : Z -> pstate -> Prop) : shows dt os s -> os !! i = Some x -> n = Z.of_nat i ->
  Q x s -> pwp (load_cell (mObjects (this s)) n) Q s.
Proof.
  intros H Hi -> HQ. destruct (sh_objects _ _ _ H) as [->|(b & rest & Hp & _)]; [done|].
  apply lookup_lt_Some in Hi as Hl. eapply pwp_load_cell; [exact Hp|lia| |exact HQ].
  rewrite Nat2Z.id. by rewrite lookup_app_l.
Qed.

Lemma reads_ret {A} (a : A) s : 0 <= mNextObjectHint (this s) -> reads_to (mret a) s (mDataPos (this s)) a.
Proof. intros H. apply pwp_ret. split; [done|]. eexists. by rewrite moved_self. Qed.
(** One reader after another. *)
Lemma reads_bind {A B} (m : P A) (f : A -> P B) dt os s k k' a b : shows dt os s -> reads_to m s k a ->
  (forall h, 0 <= h -> shows dt os (moved s k h) -> reads_to (f a) (moved s k h) k' b) -> reads_to (m ≫= f) s k' b.
Proof.
  intros H Hm Hf. apply pwp_bind. eapply pwp_mono; [exact Hm|]. cbn beta. intros r s' [-> (h & -> & Hh)].
  eapply pwp_mono; [apply Hf; [done|by apply shows_moved]|]. done.
Qed.

(** Positions inside the data do not wrap around. *)
Lemma shows_range pre e post os s : shows (pre ++ e ++ post) os s ->
  Z.of_nat (length pre) + Z.of_nat (length e) + Z.of_nat (length post) <= INT32_MAX.
Proof. intros H. pose proof (sh_small _ _ _ H) as Hs. rewrite !length_app in Hs. lia. Qed.

(** The bytes [e] are next. *)
Definition next_is e dt s : Prop := exists pre post, dt = pre ++ e ++ post /\ mDataPos (this s) = Z.of_nat (length pre).
Definition after e s : Z := mDataPos (this s) + Z.of_nat (length e).

Lemma reads_aligned dt os s (n : nat) e : shows dt os s -> next_is e dt s -> length e = n ->
  reads_to (readAligned n) s (after e s) (NO_ERROR, Some (le_val e)).
Proof.
  intros H (pre & post & -> & Hp) <-. pose proof (shows_range _ _ _ _ _ H) as Hr. unfold INT32_MAX in *.
  unfold reads_to, readAligned, after. psteps. rewrite (sh_size _ _ _ H), Hp, !length_app, u64_small by lia.
  rewrite (proj2 (Z.leb_le _ _)) by lia. psteps. eapply (pwp_load_data pre e post os); [done|done|done|].
  unfold move_on. psteps. split; [done|]. exists (mNextObjectHint (this s)). split; [|apply H].
  rewrite Hp, u64_small by lia. by destruct s as [[] ?].
Qed.
Lemma s32_le_bytes z : int32 z -> s32 (le_val (le_bytes 4 z)) = z.
Proof. intros H. rewrite le_val_bytes_mod. rewrite <- (s32_small z H) at 2. unfold s32, u32. by rewrite Z.mod_mod. Qed.
Lemma s64_le_bytes z : int64 z -> s64 (le_val (le_bytes 8 z)) = z.
Proof. intros H. rewrite le_val_bytes_mod. rewrite <- (s64_small z H) at 2. unfold s64, u64. by rewrite Z.mod_mod. Qed.

Lemma reads_value dt os s (n : nat) e : shows dt os s -> next_is e dt s -> length e = n ->
  reads_to (readAligned_value n) s (after e s) (le_val e).
Proof. intros H Hn Hl. eapply reads_bind; [done|by eapply reads_aligned|]. intros h Hh Hs. by apply reads_ret. Qed.
Lemma reads_int32 dt os s z : shows dt os s -> next_is (le_bytes 4 z) dt s -> int32 z ->
  reads_to readInt32 s (after (le_bytes 4 z) s) z.
Proof.
  intros H Hn Hz. eapply reads_bind; [done|by eapply reads_value|]. intros h Hh Hs.
  rewrite s32_le_bytes by done. by apply reads_ret.
Qed.
Lemma reads_int64 dt os s z : shows dt os s -> next_is (le_bytes 8 z) dt s -> int64 z ->
  reads_to readInt64 s (after (le_bytes 8 z) s) z.
Proof.
  intros H Hn Hz. eapply reads_bind; [done|by eapply reads_value|]. intros h Hh Hs.
  rewrite s64_le_bytes by done. by apply reads_ret.
Qed.

(** ** Blocks and strings *)
Lemma pad_next dt l s : next_is (pad4 l) dt s -> exists pre post zeros, dt = pre ++ l ++ zeros ++ post /\
  mDataPos (this s) = Z.of_nat (length pre) /\ (length l + length zeros = padded_len (length l))%nat.
Proof.
  intros (pre & post & -> & Hp). unfold pad4. exists pre, post, (replicate (padded_len (length l) - length l) 0).
  rewrite <- !app_assoc. split; [reflexivity|]. split; [exact Hp|].
  rewrite length_replicate. pose proof (padded_len_bounds (length l)). lia.
Qed.

(** The test passes on padded bytes. *)
Lemma pwp_with_data {A} dt os s l len (body : Z -> P A) none (Q : A -> pstate -> Prop) : shows dt os s -> next_is (pad4 l) dt s ->
  len = Z.of_nat (length l) -> pwp (body (Z.of_nat (padded_len (length l)))) Q s -> pwp (with_data len body none) Q s.
Proof.
  intros H Hn -> HQ. destruct (pad_next _ _ _ Hn) as (pre & post & z & -> & Hp & Hl). pose proof (sh_small _ _ _ H) as Hs.
  rewrite !length_app in Hs. pose proof (padded_len_bounds (length l)) as Hb. unfold INT32_MAX in *.
  unfold with_data, pad_size, SIZE_T_MAX. rewrite (proj2 (Z.ltb_ge _ _)) by lia. psteps.
  rewrite PAD_SIZE_nat by lia. rewrite (sh_size _ _ _ H), Hp, !length_app, u64_small by lia.
  rewrite !(proj2 (Z.leb_le _ _)) by lia. exact HQ.
Qed.
Lemma moves dt os s l (Q : unit -> pstate -> Prop) : shows dt os s -> next_is (pad4 l) dt s ->
  (forall s', s' = moved s (after (pad4 l) s) (mNextObjectHint (this s)) -> Q tt s') ->
  pwp (move_on (Z.of_nat (padded_len (length l)))) Q s.
Proof.
  intros H Hn HQ. pose proof (shows_range) as Hr. destruct (Hn) as (pre & post & -> & Hp). specialize (Hr _ _ _ _ _ H).
  unfold INT32_MAX in *. unfold move_on. psteps. apply HQ. unfold after. rewrite length_pad4 in *. rewrite Hp, u64_small by lia.
  by destruct s as [[] ?].
Qed.

Lemma reads_read dt os s l : shows dt os s -> next_is (pad4 l) dt s -> Z.of_nat (length l) <= INT32_MAX ->
  reads_to (read (Z.of_nat (length l))) s (after (pad4 l) s) (NO_ERROR, l).
Proof.
  intros H Hn Hl. unfold reads_to, read. rewrite (proj2 (Z.ltb_ge _ _)) by done.
  eapply pwp_with_data; [done|done|done|]. destruct (pad_next _ _ _ Hn) as (pre & post & z & -> & Hp & _).
  psteps. rewrite Hp. eapply (pwp_load_data pre l (z ++ post) os); [done|done|lia|]. psteps.
  eapply moves; [done|done|]. intros s' ->. psteps. split; [done|]. eexists. split; [done|]. apply H.
Qed.

Lemma reads_inplace dt os s l len : shows dt os s -> next_is (pad4 l) dt s -> len = Z.of_nat (length l) -> l ≠ [] ->
  len <= INT32_MAX -> reads_to (readInplace len) s (after (pad4 l) s) (Some (mDataPos (this s))).
Proof.
  intros H Hn -> Hne Hl. unfold reads_to, readInplace. rewrite (proj2 (Z.ltb_ge _ _)) by done.
  eapply pwp_with_data; [done|done|done|]. unfold pointer_at. psteps.
  rewrite (proj2 (Z.eqb_neq (mData (this s)) 0)); cbn [andb].
  - eapply moves; [done|done|]. intros s' ->. psteps. split; [done|]. eexists. split; [done|]. apply H.
  - destruct (pad_next _ _ _ Hn) as (pre & post & z & -> & Hp & _).
    destruct (sh_data _ _ _ H) as [Hnil|(b & rest & _ & Hd)]; [|done].
    apply app_eq_nil in Hnil as [_ Hnil]. apply app_eq_nil in Hnil as [Hnil _]. done.
Qed.

(** Bytes at a place found earlier. *)
Lemma reads_data_at dt os s pre e post off (n : nat) k : shows dt os s -> dt = pre ++ e ++ post -> off = Z.of_nat (length pre) -> n = length e ->
  k = mDataPos (this s) -> reads_to (data_at off n) s k e.
Proof.
  intros H -> -> -> ->. unfold reads_to, data_at. psteps. eapply (pwp_load_data pre e post os); [done|done|done|].
  split; [done|]. eexists. split; [by rewrite moved_self|]. apply H.
Qed.

Lemma reads_cstring_at dt os s pre l post : shows dt os s -> dt = pre ++ l ++ 0 :: post -> Forall (fun b => 0 < b < 256) l ->
  forall n : nat, (length l < n)%nat -> pwp (cstring_at (mData (this s)) (Z.of_nat (length pre)) n) (fun r s' => r = Some l /\ s' = s) s.
Proof.
  intros H Hdt Hl. revert pre Hdt. induction Hl as [|c l Hc Hl IH]; intros pre -> n Hn; (destruct n as [|n]; [lia|]); cbn [cstring_at].
  - apply pwp_bind. unfold load_cell. apply pwp_bind. eapply (pwp_load_data pre [0] post os); [done|done|done|]. psteps. done.
  - apply pwp_bind. unfold load_cell. apply pwp_bind.
    eapply (pwp_load_data pre [c] (l ++ 0 :: post) os); [done|done|done|]. psteps. change (default 0 (head [c])) with c.
    rewrite (proj2 (Z.eqb_neq c 0)) by lia. apply pwp_bind.
    replace (Z.of_nat (length pre) + 1) with (Z.of_nat (length (pre ++ [c]))) by (rewrite length_app; cbn; lia).
    eapply pwp_mono; [apply IH; [by rewrite <- app_assoc|cbn in Hn; lia]|]. cbn beta. intros r s' [-> ->]. by psteps.
Qed.

Lemma reads_cstring dt os s l : shows dt os s -> next_is (pad4 (l ++ [0])) dt s -> Forall (fun b => 0 < b < 256) l ->
  reads_to readCString s (after (pad4 (l ++ [0])) s) (Some l).
Proof.
  intros H Hn Hl. destruct (pad_next _ _ _ Hn) as (pre & post & z & E1 & Hp & _). pose proof (sh_small _ _ _ H) as Hs.
  rewrite E1, !length_app in Hs. cbn in Hs. unfold INT32_MAX in *.
  unfold reads_to, readCString. psteps. rewrite (sh_size _ _ _ H), Hp, E1, !length_app, u64_small by (cbn; lia).
  rewrite (proj2 (Z.ltb_lt 0 _)) by (cbn; lia). psteps.
  eapply pwp_mono; [apply (reads_cstring_at dt os s pre l (z ++ post)); [done|by rewrite E1, <- !app_assoc|done|cbn; lia]|].
  cbn beta. intros r s' [-> ->]. unfold pad_size, SIZE_T_MAX. rewrite (proj2 (Z.ltb_ge _ _)) by lia. psteps.
  replace (Z.of_nat (length l) + 1) with (Z.of_nat (length (l ++ [0]))) by (rewrite length_app; cbn; lia).
  rewrite PAD_SIZE_nat by (rewrite length_app; cbn; lia).
  eapply moves; [done|done|]. intros s' ->. psteps. split; [done|]. eexists. split; [done|]. apply H.
Qed.
End Reading.
