(* ===== verification/ParcelFind.v ===== *)
(** * Parcels: reading objects

    The search of [readObject] starts from where the last object was found.  Whatever
    that hint is, it finds exactly the offsets that are in the list. *)
From S2P Require Import Prelude UserMem Protocol ParcelState Parcel ParcelWrite ParcelRead ParcelInv ParcelAppend ParcelObjects ParcelValues ParcelShows.

Implicit Types (s : pstate) (dt os e l : list Z) (k h off dpos : Z) (o : flat_binder_object) (i j n : nat).

(** Earlier entries are smaller. *)
Lemma ascending os i j a b : StronglySorted (fun a b => a + 24 <= b) os -> os !! i = Some a -> os !! j = Some b ->
  (i < j)%nat -> a + 24 <= b.
Proof.
  intros Hs. revert i j. induction Hs as [|c os Hs IH Hc]; intros [|i] [|j] Hi Hj Hij; try done; try lia; cbn in *.
  - injection Hi as ->. rewrite Forall_forall in Hc. by eapply Hc, list_elem_of_lookup_2.
  - eapply IH; [done..|lia].
Qed.

Section Search.
Context {E : ParcelEnv}.
Context (dt os : list Z) (s : pstate) (dpos : Z).
Hypothesis H : shows dt os s.
Abbreviation objects := (mObjects (this s)).

(** Where the searches stop. *)
Lemma pwp_seek_forward n j (Q : Z -> pstate -> Prop) : (j + n < length os)%nat ->
  (forall i a, (j <= i <= j + n)%nat -> os !! i = Some a -> (i = j + n)%nat \/ dpos <= a ->
     (forall i' a', (j <= i' < i)%nat -> os !! i' = Some a' -> a' < dpos) -> Q (Z.of_nat i) s) ->
  pwp (seek_forward objects dpos (Z.of_nat j) n) Q s.
Proof.
  revert j. induction n as [|n IH]; intros j Hj HQ; cbn [seek_forward]; (destruct (lookup_lt_is_Some_2 os j) as [a Ha]; [lia|]).
  - apply pwp_ret. apply (HQ j a); [lia|done|left; lia|lia].
  - apply pwp_bind. eapply (pwp_load_object os s j); [exact H|exact Ha|done|]. pif.
    + apply Z.ltb_lt in C. replace (Z.of_nat j + 1) with (Z.of_nat (S j)) by lia. apply IH; [lia|].
      intros i b Hi Hb Hstop Hbelow. apply (HQ i b); [lia|done|destruct Hstop; [left; lia|by right]|].
      intros i' a' Hi' Ha'. destruct (decide (i' = j)) as [->|]; [congruence|]. apply (Hbelow i' a'); [lia|done].
    + apply Z.ltb_ge in C. apply pwp_ret. apply (HQ j a); [lia|done|by right|lia].
Qed.
Lemma pwp_seek_backward j (Q : Z -> pstate -> Prop) : (j < length os)%nat ->
  (forall i a, (i <= j)%nat -> os !! i = Some a -> i = 0%nat \/ a <= dpos ->
     (forall i' a', (i < i' <= j)%nat -> os !! i' = Some a' -> dpos < a') -> Q (Z.of_nat i) s) ->
  pwp (seek_backward objects dpos j) Q s.
Proof.
  induction j as [|j IH]; intros Hj HQ; cbn [seek_backward]; (destruct (lookup_lt_is_Some_2 os 0) as [b Hb]; [lia|]).
  - apply pwp_ret. apply (HQ 0%nat b); [lia|done|by left|lia].
  - destruct (lookup_lt_is_Some_2 os (S j)) as [a Ha]; [lia|].
    apply pwp_bind. eapply (pwp_load_object os s (S j)); [exact H|exact Ha|done|]. pif.
    + apply Z.ltb_lt in C. apply IH; [lia|]. intros i c Hi Hc Hstop Hab. apply (HQ i c); [lia|done|done|].
      intros i' a' Hi' Ha'. destruct (decide (i' = S j)) as [->|]; [congruence|]. apply (Hab i' a'); [lia|done].
    + apply Z.ltb_ge in C. apply pwp_ret. apply (HQ (S j) a); [lia|done|by right|lia].
Qed.

Let found b s' : Prop := b = bool_decide (dpos ∈ os) /\ exists h, s' = moved s (mDataPos (this s)) h /\ 0 <= h.

Lemma found_here i : os !! i = Some dpos ->
  pwp (_ ← modify_this (fun p => set_mNextObjectHint p (Z.of_nat i + 1)); mret true) found s.
Proof.
  intros Hi. psteps. split; [|eexists; split; [by destruct s as [[] ?]|lia]]. symmetry. apply bool_decide_eq_true_2.
  by eapply list_elem_of_lookup_2.
Qed.

(** The first stop decides: the entry is there, or further down, or nowhere. *)
Lemma backward_decides i a : os !! i = Some a -> a ≠ dpos ->
  (forall i' a', os !! i' = Some a' -> (i' < i)%nat \/ dpos ≠ a') ->
  pwp (opos ← seek_backward objects dpos (Z.to_nat (Z.of_nat i));
       off ← load_cell objects opos;
       if off =? dpos then _ ← modify_this (fun p => set_mNextObjectHint p (opos + 1)); mret true else mret false) found s.
Proof.
  intros Ha Hne Hlow. apply lookup_lt_Some in Ha as Hl. rewrite Nat2Z.id. psteps. apply pwp_seek_backward; [done|].
  intros j b Hj Hb Hstop Hab. psteps. eapply (pwp_load_object os s j); [exact H|exact Hb|done|]. pif.
  - apply Z.eqb_eq in C as ->. by apply found_here.
  - apply Z.eqb_neq in C. apply pwp_ret. split; [|eexists; split; [by rewrite moved_self|apply H]].
    symmetry. apply bool_decide_eq_false_2. intros [m Hm]%list_elem_of_lookup.
    destruct (Hlow m dpos Hm) as [Hmi|?]; [|done]. pose proof (sh_fit _ _ _ H) as [Hso _].
    destruct (Nat.lt_trichotomy m j) as [Hmj|[->|Hmj]]; [|congruence|].
    + pose proof (ascending _ _ _ _ _ Hso Hm Hb Hmj). destruct Hstop; lia.
    + specialize (Hab m dpos ltac:(lia) Hm). lia.
Qed.

Lemma find_object_decides : pwp (find_object dpos) found s.
Proof.
  unfold find_object. psteps. rewrite (sh_count _ _ _ H). pose proof (sh_hint _ _ _ H) as Hh. pif.
  { apply Z.leb_le in C. destruct os as [|? ?]; [|cbn in C; lia]. apply pwp_ret. split; [done|].
    eexists. rewrite moved_self. split; [done|exact Hh]. }
  apply Z.leb_gt in C. set (n := length os) in *. pose proof (sh_fit _ _ _ H) as [Hso _].
  assert (forall i a, os !! i = Some a -> a = dpos \/ (i < n)%nat /\ (forall i' a', os !! i' = Some a' -> (i' < i)%nat \/ dpos ≠ a') ->
    pwp (off ← load_cell objects (Z.of_nat i);
         if off =? dpos then _ ← modify_this (fun p => set_mNextObjectHint p (Z.of_nat i + 1)); mret true else
         opos ← seek_backward objects dpos (Z.to_nat (Z.of_nat i));
         off ← load_cell objects opos;
         if off =? dpos then _ ← modify_this (fun p => set_mNextObjectHint p (opos + 1)); mret true else mret false) found s) as Hgo.
  { intros i a Ha Hor. psteps. eapply (pwp_load_object os s i); [exact H|exact Ha|done|]. pif.
    - apply Z.eqb_eq in C0 as ->. by apply found_here.
    - apply Z.eqb_neq in C0. destruct Hor as [?|[_ Hor]]; [done|]. by eapply backward_decides. }
  apply pwp_bind. pif.
  - apply Z.ltb_lt in C0. set (j := Z.to_nat (mNextObjectHint (this s))).
    replace (mNextObjectHint (this s)) with (Z.of_nat j) by lia.
    replace (Z.to_nat (Z.of_nat n - 1 - Z.of_nat j)) with (n - 1 - j)%nat by lia.
    apply pwp_seek_forward; [lia|]. intros i a Hi Ha Hstop Hbelow. apply (Hgo i a Ha).
    destruct (Z.lt_trichotomy a dpos) as [Hlt|[->|Hgt]]; [|by left|]; right; (split; [lia|]).
    + destruct Hstop as [->|?]; [|lia]. intros i' a' Ha'. right. intros ->. apply lookup_lt_Some in Ha' as Hi'. fold n in Hi'.
      destruct (decide (i' = j + (n - 1 - j))%nat) as [->|]; [simplify_eq; lia|].
      pose proof (ascending _ i' _ _ _ Hso Ha' Ha ltac:(lia)). lia.
    + intros i' a' Ha'. destruct (Nat.lt_trichotomy i' i) as [?|[->|Hgt']]; [by left|right; simplify_eq; lia|right].
      pose proof (ascending _ _ _ _ _ Hso Ha Ha' Hgt'). lia.
  - apply pwp_ret. replace (Z.of_nat n - 1) with (Z.of_nat (n - 1)) by lia.
    destruct (lookup_lt_is_Some_2 os (n - 1)) as [a Ha]; [fold n; lia|]. apply (Hgo (n - 1)%nat a Ha).
    destruct (decide (a = dpos)) as [->|Hne]; [by left|right]. split; [lia|]. intros i' a' Ha'.
    apply lookup_lt_Some in Ha' as Hi'. fold n in Hi'. destruct (decide (i' = n - 1)%nat) as [->|]; [right; congruence|left; lia].
Qed.
End Search.

(** [readObject] in general. *)
Lemma readObject_spec dt os s nm : shows dt os s -> 0 <= mDataPos (this s) <= INT32_MAX ->
  let dpos := mDataPos (this s) in
  let o := object_in dt dpos in
  pwp (readObject nm) (fun r s' =>
    (dpos + 24 <= Z.of_nat (length dt) ->
       r = (if bool_decide (nm = false /\ fo_cookie o = 0 /\ fo_binder o = 0 \/ dpos ∈ os) then Some o else None) /\
       exists h, s' = moved s (dpos + 24) h /\ 0 <= h) /\
    (Z.of_nat (length dt) < dpos + 24 -> r = None /\ s' = s)) s.
Proof.
  intros H Hpos dpos o. unfold INT32_MAX in *. unfold readObject. psteps. fold dpos. rewrite (sh_size _ _ _ H), u64_small by lia.
  pif; cycle 1.
  { apply Z.leb_gt in C. apply pwp_ret. split; [lia|]. done. }
  apply Z.leb_le in C. unfold flat_at. psteps.
  assert (dt = take (Z.to_nat dpos) dt ++ take 24 (drop (Z.to_nat dpos) dt) ++ drop 24 (drop (Z.to_nat dpos) dt)) as Hdt by by rewrite !take_drop.
  rewrite Hdt in H. eapply (pwp_load_data _ _ _ os); [exact H|rewrite length_take; lia|rewrite length_take, length_drop; lia|].
  rewrite <- Hdt in H. psteps. change (obj_of_bytes _) with o.
  set (s1 := MkP _ _). assert (s1 = moved s (dpos + 24) (mNextObjectHint (this s))) as Hs1 by by destruct s as [[] ?].
  assert (shows dt os s1) as H1 by (rewrite Hs1; apply shows_moved; [done|apply H]).
  pif.
  - apply pwp_ret. split; [intros _|lia]. split; [|eexists; split; [exact Hs1|apply H]].
    apply andb_true_iff in C0 as [Hnm [Hc Hb]%andb_true_iff]. apply negb_true_iff in Hnm. apply Z.eqb_eq in Hc, Hb.
    by rewrite bool_decide_eq_true_2 by by left.
  - psteps. eapply pwp_mono; [apply (find_object_decides dt os s1 dpos H1)|]. cbn beta. intros b s2 [-> (h & -> & Hh)].
    apply pwp_ret. split; [intros _|lia]. split; [|exists h; rewrite Hs1; done].
    destruct (decide (dpos ∈ os)) as [Hin|Hni]; [by rewrite !bool_decide_eq_true_2 by auto|].
    rewrite !bool_decide_eq_false_2; [done| |done]. intros [(Hnm & Hc & Hb)|?]; [|done].
    rewrite Hnm, Hc, Hb in C0. done.
Qed.

(** C31: [readObject] finds an object exactly where the list of offsets has one,
    whatever the hint that is left by earlier reads: if there are 24 bytes at the
    position it moves past them, and delivers them if they are a null object (where
    those are allowed) or their offset is in the list; otherwise it delivers nothing
    and stays. *)
Theorem readObject_correct dt os s nm : shows dt os s -> 0 <= mDataPos (this s) <= INT32_MAX ->
  let dpos := mDataPos (this s) in
  let o := object_in dt dpos in
  pwp (readObject nm) (fun r s' =>
    (dpos + 24 <= Z.of_nat (length dt) ->
       r = (if bool_decide (nm = false /\ fo_cookie o = 0 /\ fo_binder o = 0 \/ dpos ∈ os) then Some o else None) /\
       exists h, s' = moved s (dpos + 24) h /\ 0 <= h) /\
    (Z.of_nat (length dt) < dpos + 24 -> r = None /\ s' = s)) s.
Proof. exact (readObject_spec dt os s nm). Qed.
