(* ===== verification/ParcelRoundtrip.v ===== *)
(** * Parcels: what is written is what is read

    For every sequence of values: the readers of the same kinds, from the position of
    the first, deliver the values. *)
From S2P Require Import Prelude UserMem Protocol ParcelState Parcel ParcelWrite ParcelRead ParcelInv ParcelAppend ParcelObjects ParcelValues ParcelShows ParcelFind.

Implicit Types (s : pstate) (dt os e l : list Z) (k h off n : Z) (o : flat_binder_object) (v : value) (vs : list value).

(** What a reader delivers. *)
Inductive received : Set :=
| RNumber (z : Z)
| RBytes (status : Z) (l : list Z)
| RCString (str : option (list Z))
| RString (l : list Z)
| RBinder (b : option binder_in).

Section Roundtrip.
Context {E : ParcelEnv}.

(** The reader for the kind of the value. *)
Definition read_like v : P received :=
  match v with
  | VInt32 _ => x ← readInt32; mret (RNumber x)
  | VUint32 _ => x ← readUint32; mret (RNumber x)
  | VInt64 _ => x ← readInt64; mret (RNumber x)
  | VUint64 _ => x ← readUint64; mret (RNumber x)
  | VBytes l => r ← read (Z.of_nat (length l)); mret (RBytes (fst r) (snd r))
  | VCString _ => x ← readCString; mret (RCString x)
  | VString8 _ => x ← readString8; mret (RString x)
  | VString16 _ => x ← readString16; mret (RString x)
  | VStrong _ => x ← readStrongBinder; mret (RBinder x)
  | VWeak _ => x ← readWeakBinder; mret (RBinder x)
  | VFile _ _ => x ← readFileDescriptor; mret (RNumber x)
  end.
Fixpoint read_all vs : P (list received) :=
  match vs with [] => mret [] | v :: vs => r ← read_like v; rs ← read_all vs; mret (r :: rs) end.

(** The value as a reader sees it: a null string is an empty one, a handle is its
    proxy, a null binder is a null pointer. *)
Definition proxy h : binder_in := ProxyIn (if has_proxy h then Some h else None).
Definition expected v : received :=
  match v with
  | VInt32 z | VUint32 z | VInt64 z | VUint64 z => RNumber z
  | VBytes l => RBytes NO_ERROR l
  | VCString l => RCString (Some l)
  | VString8 l => RString l
  | VString16 str => RString (default [] str)
  | VStrong None => RBinder (Some (LocalIn 0))
  | VStrong (Some (LocalBinder ptr _)) => RBinder (Some (LocalIn ptr))
  | VStrong (Some (RemoteBinder h)) => RBinder (Some (proxy h))
  | VStrong (Some NeitherBinder) => RBinder (Some (proxy 0))
  | VWeak b =>
      match b ≫= (fun w => (fun p => (w, p)) <$> wb_promote w) with
      | None => RBinder (Some (LocalIn 0))
      | Some (w, LocalBinder _ _) => RBinder (Some (WeakIn (wb_ptr w) (wb_refs w)))
      | Some (_, RemoteBinder h) => RBinder (Some (proxy h))
      | Some (_, NeitherBinder) => RBinder (Some (proxy 0))
      end
  | VFile fd _ => RNumber fd
  end.

Lemma reads_map {A B} (f : A -> B) (m : P A) dt os s k a : shows dt os s -> reads_to m s k a ->
  reads_to (x ← m; mret (f x)) s k (f a).
Proof. intros H Hm. eapply reads_bind; [done|exact Hm|]. intros h Hh Hs. by apply reads_ret. Qed.

(** ** Positions *)
Lemma next_prefix e1 e2 dt s : next_is (e1 ++ e2) dt s -> next_is e1 dt s.
Proof. intros (pre & post & -> & Hp). exists pre, (e2 ++ post). by rewrite <- app_assoc. Qed.
Lemma next_suffix e1 e2 dt s h : next_is (e1 ++ e2) dt s -> next_is e2 dt (moved s (after e1 s) h).
Proof.
  intros (pre & post & -> & Hp). exists (pre ++ e1), post. rewrite <- !app_assoc. split; [done|].
  cbn. unfold after. rewrite length_app. lia.
Qed.
Lemma after_app e1 e2 s h : after e2 (moved s (after e1 s) h) = after (e1 ++ e2) s.
Proof. unfold after. cbn. rewrite length_app. lia. Qed.

(** ** Strings *)
Lemma reads_string8 dt os s l : shows dt os s -> next_is (encode (VString8 l)) dt s -> string_ok is_byte 1 l ->
  Z.of_nat (length l) < INT32_MAX -> reads_to readString8 s (after (encode (VString8 l)) s) l.
Proof.
  intros H Hn [Hb Hl] Hmax. cbn [encode] in *. unfold INT32_MAX in *. unfold readString8.
  eapply reads_bind; [done|eapply reads_int32; [done|by eapply next_prefix|unfold int32; lia]|].
  intros h Hh Hs. rewrite <- (after_app _ _ s h). apply (next_suffix _ _ _ _ h) in Hn. set (s1 := moved _ _ _) in *.
  destruct l as [|b l]; cbn [encode_string8] in *.
  - unfold after. cbn. rewrite Z.add_0_r. by apply reads_ret.
  - set (t := b :: l) in *. assert (0 < Z.of_nat (length t)) as Hpos by (cbn; lia). unfold INT32_MAX.
    rewrite (proj2 (Z.ltb_lt _ _)), (proj2 (Z.ltb_lt _ _)) by lia. cbn [andb].
    eapply reads_bind; [done|eapply (reads_inplace dt os s1 (t ++ [0])); [done|done|rewrite length_app; cbn; lia|by destruct t|unfold INT32_MAX; lia]|].
    intros h' Hh' Hs'. destruct (pad_next _ _ _ Hn) as (pre & post & z & E1 & Hp & _).
    eapply (reads_data_at dt os _ pre t ([0] ++ z ++ post)); [done|by rewrite E1, <- !app_assoc|done|lia|done].
Qed.

Lemma reads_string16 dt os s str : shows dt os s -> next_is (encode (VString16 str)) dt s -> opt_ok (string_ok is_unit 2) str ->
  reads_to readString16 s (after (encode (VString16 str)) s) (default [] str).
Proof.
  intros H Hn Hs. unfold INT32_MAX in *. unfold readString16, readString16Inplace. destruct str as [l|]; cbn [encode default from_option] in *.
  - destruct Hs as [Hu Hl]. unfold INT32_MAX in *. set (t := bytes16 (l ++ [0])) in *.
    assert (length t = 2 * length l + 2)%nat as Ht by (unfold t; rewrite length_bytes16_nat, length_app; cbn; lia).
    eapply (reads_bind _ _ _ _ _ (after (le_bytes 4 (Z.of_nat (length l)) ++ pad4 t) s) _
      (Some (after (le_bytes 4 (Z.of_nat (length l))) s), Z.of_nat (length l))); [done| |].
    + eapply reads_bind; [done|eapply reads_int32; [done|by eapply next_prefix|unfold int32; lia]|].
      intros h Hh Hs1. rewrite <- (after_app _ _ s h). apply (next_suffix _ _ _ _ h) in Hn. set (s1 := moved _ _ _) in *.
      unfold INT32_MAX. rewrite (proj2 (Z.leb_le _ _)), (proj2 (Z.ltb_lt _ _)) by lia. cbn [andb].
      eapply reads_bind; [done|eapply (reads_inplace dt os s1 t); [done|done|rewrite u64_small by lia; lia|intros Ht0; rewrite Ht0 in Ht; cbn in Ht; lia|rewrite u64_small by lia; unfold INT32_MAX; lia]|].
      intros h' Hh' Hs1'. cbn. by apply reads_ret.
    + intros h Hh Hs1. apply (next_suffix _ _ _ _ h) in Hn. destruct (pad_next _ _ _ Hn) as (pre & post & z & E1 & Hp & _).
      eapply reads_bind; [done|eapply (reads_data_at dt os _ pre (bytes16 l) (le_bytes 2 0 ++ z ++ post)); [done| |exact Hp|rewrite length_bytes16_nat; lia|done]|].
      * rewrite E1. unfold t. rewrite bytes16_app, <- !app_assoc. done.
      * intros h' Hh' Hs1'. rewrite units_bytes16 by done. by apply reads_ret.
  - eapply (reads_bind _ _ _ _ _ (after (le_bytes 4 (-1)) s) _ (None, 0)); [done| |].
    + eapply reads_bind; [done|by eapply reads_int32|]. intros h Hh Hs1. by apply reads_ret.
    + intros h Hh Hs1. by apply reads_ret.
Qed.

(** ** Objects *)

(** Fields of their widths, and null as a whole. *)
Definition object_ok o (nm : bool) : Prop :=
  Forall2 word obj_widths [fo_type o; fo_flags o; fo_binder o; fo_cookie o] /\
  (nm = false -> fo_binder o = 0 -> fo_cookie o = 0).

Lemma reads_object dt os s o nm : shows dt os s -> next_is (obj_bytes o) dt s -> object_ok o nm ->
  (forall off, off ∈ new_offsets o nm (mDataPos (this s)) -> off ∈ os) ->
  reads_to (readObject nm) s (after (obj_bytes o) s) (Some o).
Proof.
  intros H (pre & post & -> & Hp) [Hw Hnull] Hin. pose proof (sh_small _ _ _ H) as Hs. rewrite !length_app, length_obj_bytes in Hs.
  eapply pwp_mono; [apply (readObject_spec _ os s nm H); rewrite Hp; lia|]. cbn beta zeta. intros r s' [Hok _].
  destruct Hok as [-> Hm]; [rewrite Hp, !length_app, length_obj_bytes; lia|]. split.
  - assert (object_in (pre ++ obj_bytes o ++ post) (mDataPos (this s)) = o) as ->.
    { unfold object_in. rewrite Hp, Nat2Z.id, drop_app_length. rewrite take_app_length' by (by rewrite length_obj_bytes).
      rewrite <- (app_nil_r (obj_bytes o)). by apply obj_roundtrip. }
    rewrite bool_decide_eq_true_2; [done|]. unfold new_offsets, entered in Hin. destruct nm; cbn [orb] in Hin.
    + right. apply Hin. by left.
    + destruct (Z.eqb_spec (fo_binder o) 0) as [Hz|Hz]; cbn [negb] in Hin; [left; auto|right; apply Hin; by left].
  - exact Hm.
Qed.

Lemma fo_int_handle ty fl h c : int32 h -> fo_int (MkObj ty fl (u32 h) c) = h.
Proof.
  intros Hh. unfold fo_int, fo_handle. cbn. change (u32 h mod 2 ^ 32) with (u32 (u32 h)).
  unfold s32, u32. rewrite !Z.mod_mod by lia. by apply s32_small.
Qed.

Lemma u32_word8 h : word 8 (u32 h).
Proof. pose proof (u32_range h). unfold word. cbn. lia. Qed.

Lemma object_ok_type ty b c nm : word 4 ty -> word 8 b -> word 8 c -> (nm = false -> b = 0 -> c = 0) -> object_ok (MkObj ty flat_flags b c) nm.
Proof. intros Ht Hb Hc H. split; [|done]. repeat constructor; cbn; try apply Ht; try apply Hb; try apply Hc; by vm_compute. Qed.

Lemma not_null_word z : not_null z -> word 8 z.
Proof. unfold not_null, word. cbn. lia. Qed.
Lemma zero_word (n : nat) : word n 0.
Proof. unfold word. split; [done|]. apply Z.pow_pos_nonneg; lia. Qed.

Lemma null_object_ok : object_ok null_object false.
Proof. apply object_ok_type; [by vm_compute|apply zero_word|apply zero_word|done]. Qed.
Lemma handle_object_ok ty h : word 4 ty -> object_ok (MkObj ty flat_flags (u32 h) 0) false.
Proof. intros Ht. apply object_ok_type; [done|apply u32_word8|apply zero_word|done]. Qed.
Lemma local_object_ok ty refs ptr : word 4 ty -> not_null refs -> not_null ptr -> object_ok (MkObj ty flat_flags refs ptr) false.
Proof.
  intros Ht Hr Hp. apply object_ok_type; [done|by apply not_null_word|by apply not_null_word|].
  unfold not_null in Hr. lia.
Qed.
Lemma strong_object_ok b : opt_ok ibinder_ok b -> object_ok (strong_object b) false.
Proof.
  destruct b as [[ptr refs|h|]|]; cbn; intros H.
  - destruct H. by apply local_object_ok.
  - by apply handle_object_ok.
  - by apply (handle_object_ok _ 0).
  - apply null_object_ok.
Qed.
Lemma weak_object_ok b : opt_ok wbinder_ok b -> object_ok (weak_object b) false.
Proof.
  destruct b as [w|]; [|intros _; apply null_object_ok]. unfold weak_object, wbinder_ok. cbn.
  destruct (wb_promote w) as [[ptr refs|h|]|]; cbn; intros H.
  - destruct H as (_ & ? & ?). by apply local_object_ok.
  - by apply handle_object_ok.
  - by apply (handle_object_ok _ 0).
  - apply null_object_ok.
Qed.
Lemma file_object_ok fd own : object_ok (file_object fd own) true.
Proof. apply object_ok_type; [by vm_compute|apply u32_word8|by destruct own|done]. Qed.

(** ** All kinds *)

(** What the pointers are made of. *)
Lemma reads_binder (g : option flat_binder_object -> Z * option binder_in) dt os s o b :
  shows dt os s -> next_is (obj_bytes o) dt s -> object_ok o false ->
  (forall off, off ∈ new_offsets o false (mDataPos (this s)) -> off ∈ os) -> b = RBinder (snd (g (Some o))) ->
  reads_to (x ← (r ← (flat ← readObject false; mret (g flat)); mret (snd r)); mret (RBinder x)) s (after (obj_bytes o) s) b.
Proof.
  intros H Hn Ho Hin ->. eapply (reads_map RBinder); [done|]. eapply (reads_map snd); [done|].
  eapply (reads_map g); [done|]. by apply (reads_object dt os s o false).
Qed.

Lemma reads_strong dt os s b : shows dt os s -> next_is (encode (VStrong b)) dt s -> opt_ok ibinder_ok b ->
  (forall off, off ∈ offsets (VStrong b) (mDataPos (this s)) -> off ∈ os) ->
  reads_to (read_like (VStrong b)) s (after (encode (VStrong b)) s) (expected (VStrong b)).
Proof.
  intros H Hn Hb Hin. eapply reads_binder; [done|done|by apply strong_object_ok|exact Hin|].
  destruct b as [[ptr refs|h|]|]; cbn in Hb |- *; try reflexivity. unfold proxy_of. by rewrite fo_int_handle.
Qed.
Lemma reads_weak dt os s b : shows dt os s -> next_is (encode (VWeak b)) dt s -> opt_ok wbinder_ok b ->
  (forall off, off ∈ offsets (VWeak b) (mDataPos (this s)) -> off ∈ os) ->
  reads_to (read_like (VWeak b)) s (after (encode (VWeak b)) s) (expected (VWeak b)).
Proof.
  intros H Hn Hb Hin. eapply reads_binder; [done|done|by apply weak_object_ok|exact Hin|].
  destruct b as [w|]; [|reflexivity]. cbn in Hb |- *. unfold wbinder_ok in Hb.
  destruct (wb_promote w) as [[ptr refs|h|]|]; cbn in Hb |- *; try reflexivity.
  - destruct Hb as (_ & _ & Hr). unfold not_null in Hr. by rewrite (proj2 (Z.eqb_neq (wb_refs w) 0)) by lia.
  - destruct Hb as (Hh & _). unfold proxy_of. rewrite fo_int_handle by done. reflexivity.
Qed.
Lemma reads_file dt os s fd own : shows dt os s -> next_is (encode (VFile fd own)) dt s -> 0 <= fd < 2 ^ 31 ->
  (forall off, off ∈ offsets (VFile fd own) (mDataPos (this s)) -> off ∈ os) ->
  reads_to readFileDescriptor s (after (encode (VFile fd own)) s) fd.
Proof.
  intros H Hn Hfd Hin. eapply reads_bind; [done|eapply (reads_object dt os s (file_object fd own) true); [done|done|apply file_object_ok|exact Hin]|].
  intros h Hh Hs. assert (fo_int (file_object fd own) = fd) as Hi by (apply fo_int_handle; unfold int32; lia).
  cbn beta iota. change (fo_type (file_object fd own) =? BINDER_TYPE_FD) with true. cbn beta iota. rewrite Hi. by apply reads_ret.
Qed.

Lemma reads_like dt os s v : shows dt os s -> next_is (encode v) dt s -> value_ok v ->
  (forall off, off ∈ offsets v (mDataPos (this s)) -> off ∈ os) -> reads_to (read_like v) s (after (encode v) s) (expected v).
Proof.
  intros H Hn Hv Hin. destruct v; cbn [value_ok] in Hv; cbn [read_like expected].
  - eapply (reads_map RNumber); [done|]. by apply (reads_int32 dt os).
  - eapply (reads_map RNumber); [done|]. rewrite <- (le_val_bytes 4 z) at 2 by exact Hv. by apply (reads_value dt os).
  - eapply (reads_map RNumber); [done|]. by apply (reads_int64 dt os).
  - eapply (reads_map RNumber); [done|]. rewrite <- (le_val_bytes 8 z) at 2 by exact Hv. by apply (reads_value dt os).
  - destruct Hv as (_ & _ & Hl). eapply (reads_bind _ _ _ _ _ _ _ (NO_ERROR, l)); [done|by apply (reads_read dt os)|].
    intros h Hh Hs. by apply reads_ret.
  - destruct Hv as [Hl _]. eapply (reads_map RCString); [done|]. by apply (reads_cstring dt os).
  - eapply (reads_map RString); [done|]. apply (reads_string8 dt os); [done|done|done|]. destruct Hv as [_ Hl]. lia.
  - eapply (reads_map RString); [done|]. by apply (reads_string16 dt os).
  - by apply (reads_strong dt os).
  - by apply (reads_weak dt os).
  - eapply (reads_map RNumber); [done|]. by apply (reads_file dt os).
Qed.

Lemma reads_all dt os s vs : shows dt os s -> next_is (encode_all vs) dt s -> Forall value_ok vs ->
  (forall off, off ∈ offsets_all vs (mDataPos (this s)) -> off ∈ os) ->
  reads_to (read_all vs) s (after (encode_all vs) s) (expected <$> vs).
Proof.
  revert s. induction vs as [|v vs IH]; intros s H Hn Hv Hin.
  { unfold after. cbn. rewrite Z.add_0_r. apply reads_ret, H. }
  apply Forall_cons in Hv as [Hv Hvs]. cbn [read_all encode_all offsets_all] in *.
  eapply reads_bind; [done|apply (reads_like dt os); [done|by eapply next_prefix|done|]|].
  { intros off Hoff. apply Hin. apply elem_of_app. by left. }
  intros h Hh Hs. rewrite <- (after_app _ _ s h). apply (next_suffix _ _ _ _ h) in Hn.
  eapply reads_bind; [done|apply IH; [done|done|done|]|].
  { intros off Hoff. apply Hin. apply elem_of_app. by right. }
  intros h' Hh' Hs'. by apply reads_ret.
Qed.
End Roundtrip.
