(* ===== verification/ParcelProps.v ===== *)
(** * Parcels: giving everything back

    [freeData] releases what the objects hold and frees the buffers.  Whatever was
    written, and wherever memory ran out on the way, nothing is left behind. *)
From S2P Require Import Prelude UserMem Protocol ParcelState Parcel ParcelWrite ParcelRead ParcelInv ParcelAppend ParcelObjects ParcelValues ParcelShows ParcelFind ParcelRoundtrip.

Implicit Types (s : pstate) (dt os e l : list Z) (k h off n : Z) (o : flat_binder_object) (v : value) (vs : list value) (x : resource).

Section Release.
Context {E : ParcelEnv} {L : ParcelEnvLaws E}.

Lemma touched_twice (f g : resource -> Z) s1 s2 s3 : touches f s1 s2 -> touches g s2 s3 -> touches (fun x => f x + g x) s1 s3.
Proof.
  intros (a & ev1 & -> & H1) (b & ev2 & -> & H2). exists b, (ev1 ++ ev2). split; [by rewrite app_assoc|].
  intros x. unfold net in *. by rewrite Zsum_app, H1, H2.
Qed.
Lemma touches_ext (f g : resource -> Z) s1 s2 : touches f s1 s2 -> (forall x, f x = g x) -> touches g s1 s2.
Proof. intros (a & ev & -> & H) Hfg. exists a, ev. split; [done|]. intros x. by rewrite H. Qed.
Lemma touches_holds f dt os s s' : touches f s s' -> holds dt os s -> holds dt os s'.
Proof. intros (a & ev & -> & _) []. by split. Qed.

(** An object of the data. *)
Lemma pwp_flat_at dt os s off (Q : flat_binder_object -> pstate -> Prop) : shows dt os s -> 0 <= off -> off + 24 <= Z.of_nat (length dt) ->
  Q (object_in dt off) s -> pwp (flat_at off) Q s.
Proof.
  intros H H1 H2 HQ. unfold flat_at. psteps.
  assert (dt = take (Z.to_nat off) dt ++ take 24 (drop (Z.to_nat off) dt) ++ drop 24 (drop (Z.to_nat off) dt)) as Hdt by by rewrite !take_drop.
  rewrite Hdt in H. eapply (pwp_load_data _ _ _ os); [exact H|rewrite length_take; lia|rewrite length_take, length_drop; lia|].
  by psteps.
Qed.

Lemma Zsum_opp {A} (f : A -> Z) (m : list A) : Zsum (fun a => - f a) m = - Zsum f m.
Proof. induction m as [|a m IH]; cbn [Zsum]; lia. Qed.

(** The loops that go down the list of offsets. *)
Lemma pwp_down_objects dt os s (f : Z -> P unit) (g : Z -> resource -> Z) (i : nat) : holds dt os s -> (i <= length os)%nat ->
  (forall off s', off ∈ os -> holds dt os s' -> pwp (f off) (fun _ => touches (g off) s') s') ->
  pwp (down_objects (mObjects (this s)) f i) (fun _ => touches (fun x => Zsum (fun off => g off x) (take i os)) s) s.
Proof.
  revert s. induction i as [|i IH]; intros s H Hi Hf; cbn [down_objects]; [apply pwp_ret, touches_nothing|].
  destruct (lookup_lt_is_Some_2 os i) as [off Hoff]; [lia|]. apply pwp_bind.
  eapply (pwp_load_object os s i); [by apply holds_shows|exact Hoff|done|]. apply pwp_bind.
  eapply pwp_mono; [apply Hf; [by eapply list_elem_of_lookup_2|done]|]. cbn beta. intros _ s1 T1.
  assert (mObjects (this s) = mObjects (this s1)) as -> by (destruct T1 as (a & ev & -> & _); done).
  eapply pwp_mono; [apply IH; [by eapply touches_holds|lia|done]|]. cbn beta. intros _ s2 T2.
  eapply touches_ext; [by eapply touched_twice|]. intros x. cbn beta. rewrite (take_S_r _ _ off) by done.
  rewrite Zsum_app. cbn. lia.
Qed.

Lemma pwp_releaseObjects dt os s : holds dt os s ->
  pwp releaseObjects (fun _ => touches (fun x => - held x dt os) s) s.
Proof.
  intros H. unfold releaseObjects. psteps. rewrite (hd_count _ _ _ H), Nat2Z.id.
  eapply pwp_mono; [apply (pwp_down_objects dt os s _ (fun off x => - obj_holds x (object_in dt off))); [done|done|]|].
  - intros off s' Hoff H'. destruct (hd_fit _ _ _ H) as [_ Hf]. rewrite Forall_forall in Hf. specialize (Hf off Hoff).
    apply pwp_bind. eapply (pwp_flat_at dt os); [by apply holds_shows|lia|lia|]. apply release_object_touches.
  - cbn beta. intros _ s' T. eapply touches_ext; [exact T|]. intros x. cbn beta. rewrite take_ge by lia. apply Zsum_opp.
Qed.

(** After [freeData] the parcel is as new, and the account balances. *)
Record freed s (loss : resource -> Z) s' : Prop := {
  fr_this : this s' = initial_parcel;
  fr_within : within (fun x => - loss x) s s';
  fr_null : heap (world_of s') !! 0 = None
}.

(** [free] of a buffer, or of NULL. *)
Lemma pwp_free_buffer (P : Z -> Prop) p cap l (Q : unit -> pstate -> Prop) s : buffer P (heap (world_of s)) p cap l ->
  heap (world_of s) !! 0 = None -> Q tt (MkP (this s) (set_heap (world_of s) (delete p (heap (world_of s))))) -> pwp (mem_free p) Q s.
Proof.
  intros Hb H0 HQ. destruct Hb as [(-> & _)|(Hp & rest & Hc & _)].
  - unfold mem_free. cbn. apply pwp_ret. rewrite delete_id in HQ by done. by destruct s as [t []].
  - eapply pwp_free; [lia|exact Hc|exact HQ].
Qed.

Lemma freed_intro t w w' dt os : holds dt os (MkP t w) -> heap w' = delete (mObjects t) (delete (mData t) (heap w)) ->
  u64 (gAllocSize w') = u64 (gAllocSize w - mDataCapacity t) ->
  u64 (gAllocCount w') = u64 (gAllocCount w - (if mData t =? 0 then 0 else 1)) ->
  mStrictModePolicy w' = mStrictModePolicy w -> lastTransactionFlags w' = lastTransactionFlags w ->
  (forall x, net x (trace w') = net x (trace w) - held x dt os) -> freed (MkP t w) (fun x => held x dt os) (MkP initial_parcel w').
Proof.
  intros H E1 E2 E3 E4 E5 E6. assert (heap w' !! 0 = None) as Hz.
  { rewrite E1, !lookup_delete_None. right. right. apply (hd_null _ _ _ H). }
  split; [done| |done]. split; [|intros x; cbn; rewrite E6; lia].
  unfold account_of. cbn. rewrite !(delete_id _ 0) by (rewrite ?lookup_delete_None; auto).
  by rewrite !Z.sub_0_r, E1, E2, E3, E4, E5.
Qed.

Lemma pwp_freeData dt os s : holds dt os s -> pwp freeData (fun _ s' => freed s (fun x => held x dt os) s') s.
Proof.
  intros H. unfold freeData, freeDataNoInit. psteps. rewrite (hd_owner _ _ _ H). psteps.
  eapply pwp_mono; [by apply (pwp_releaseObjects dt os)|]. cbn beta. intros _ s1 T.
  pose proof (touches_holds _ _ _ _ _ T H) as H1. destruct T as (a & evs & -> & Hn). destruct s as [t w].
  pose proof (hd_data _ _ _ H1) as Hd. pose proof (hd_objects _ _ _ H1) as Ho. pose proof (hd_null _ _ _ H1) as H0.
  pose proof (hd_apart _ _ _ H1) as Hap. cbn in Hd, Ho, H0, Hap.
  assert (forall w2, heap w2 = delete (mData t) (heap w) -> u64 (gAllocSize w2) = u64 (gAllocSize w - mDataCapacity t) ->
    u64 (gAllocCount w2) = u64 (gAllocCount w - (if mData t =? 0 then 0 else 1)) -> trace w2 = trace w ++ evs ->
    mStrictModePolicy w2 = mStrictModePolicy w -> lastTransactionFlags w2 = lastTransactionFlags w ->
    pwp (mem_free (mObjects t)) (fun _ s' => pwp initState (fun _ s'' => freed (MkP t w) (fun x => held x dt os) s'') s')
      (MkP (set_mOpenAshmemSize t a) w2)) as Hfin.
  { intros w2 E1 E2 E3 E4 E5 E6. eapply (pwp_free_buffer _ _ (mObjectsCapacity t) os); cbn.
    - eapply buffer_same; [|exact Ho]. rewrite E1. destruct (decide (mData t = mObjects t)) as [Eq|Hne].
      + rewrite <- Eq, (Hap Eq), lookup_delete_eq. by rewrite H0.
      + by rewrite lookup_delete_ne.
    - rewrite E1, lookup_delete_None. by right.
    - unfold initState. psteps. apply freed_intro; cbn; try done; [by rewrite E1|].
      intros x. rewrite E4. unfold net in *. rewrite Zsum_app, Hn. lia. }
  psteps. pif.
  - apply negb_true_iff, Z.eqb_neq in C. unfold count_size, count_parcel. psteps.
    eapply (pwp_free_buffer _ _ (mDataCapacity t) dt); [exact Hd|done|].
    apply Hfin; cbn; rewrite ?u64_idem, ?(proj2 (Z.eqb_neq (mData t) 0)) by done; done.
  - apply negb_false_iff, Z.eqb_eq in C. destruct (buffer_null _ _ _ _ _ Hd C) as [Hcap _].
    apply Hfin; cbn in Hcap; rewrite ?Hcap, ?C, ?Z.sub_0_r; try done.
    + cbn in *. by rewrite C, delete_id.
    + cbn in *. by rewrite C, Z.sub_0_r.
Qed.
End Release.

(** ** Parcels: properties

    Round trips, receiving, and the balance of memory and references. *)

Implicit Types (w : world).

(** A parcel without anything in it. *)
Definition new_parcel w : pstate := MkP initial_parcel w.

Section Properties.
Context {E : ParcelEnv} {L : ParcelEnvLaws E}.

Lemma new_at_end w : heap w !! 0 = None -> at_end [] [] (new_parcel w).
Proof.
  intros H. split; [|done]. split; try done; cbn; try lia; [by left|by left|].
  split; [constructor|constructor].
Qed.

(** ** Sequences of actions *)

(** What a program does to a parcel: it writes a value, or a duplicate of a file
    descriptor; what the call returns is ignored. *)
Inductive action : Set := Write (v : value) | WriteDup (fd : Z).
Definition act (a : action) : P Z :=
  match a with Write v => write_value v | WriteDup fd => writeDupFileDescriptor fd end.
Fixpoint act_all (l : list action) : P unit :=
  match l with [] => mret tt | a :: l => _ ← act a; act_all l end.

(** The parcel takes no descriptor over that its caller has opened. *)
Definition action_ok (a : action) : Prop :=
  match a with
  | Write (VFile fd own) => 0 <= fd < 2 ^ 31 /\ own = false
  | Write v => value_ok v
  | WriteDup _ => True
  end.

(** What was taken is what the objects in the data hold. *)
Definition balanced dt os s s' : Prop :=
  exists e oe, at_end (dt ++ e) (os ++ oe) s' /\ within (fun x => held x (dt ++ e) oe) s s'.

Lemma balanced_trans dt os e oe s1 s2 s3 : at_end (dt ++ e) (os ++ oe) s2 -> within (fun x => held x (dt ++ e) oe) s1 s2 ->
  balanced (dt ++ e) (os ++ oe) s2 s3 -> balanced dt os s1 s3.
Proof.
  intros H2 W2 (e' & oe' & H4 & W4).
  exists (e ++ e'), (oe ++ oe'). rewrite !app_assoc. split; [done|]. eapply within_trans; [exact W2|exact W4|].
  intros x. cbn beta. unfold held. rewrite Zsum_app. f_equal. 
  pose proof (hd_fit _ _ _ (proj1 H2)) as [_ Hf]. rewrite Forall_app in Hf. destruct Hf as [_ Hf].
  apply Zsum_ext. intros off Hoff. rewrite Forall_forall in Hf. specialize (Hf off Hoff). unfold object_in. do 2 f_equal.
  rewrite drop_app_le by lia. by rewrite take_app_le by (rewrite length_drop; lia).
Qed.

Lemma object_at_end dt o : Forall2 word obj_widths [fo_type o; fo_flags o; fo_binder o; fo_cookie o] ->
  object_in (dt ++ obj_bytes o) (Z.of_nat (length dt)) = o.
Proof.
  intros H. unfold object_in. rewrite Nat2Z.id, drop_app_length, take_ge by (rewrite length_obj_bytes; lia).
  rewrite <- (app_nil_r (obj_bytes o)). by apply obj_roundtrip.
Qed.

(** An object whose reference is taken when it is entered. *)
Lemma gain_held dt o nm x : object_ok o nm -> fo_type o ≠ BINDER_TYPE_FD \/ fo_cookie o = 0 ->
  object_gain o nm x = held x (dt ++ obj_bytes o) (new_offsets o nm (Z.of_nat (length dt))).
Proof.
  intros [Hw _] Hfd. unfold object_gain, new_offsets. destruct (entered o nm); [|done]. unfold held. cbn [Zsum].
  rewrite object_at_end by done. unfold obj_gain. destruct (Z.eqb_spec (fo_type o) BINDER_TYPE_FD) as [Et|]; [|lia].
  destruct Hfd as [?|Hc]; [done|]. unfold obj_holds, obj_resource. rewrite Et, Hc. reflexivity.
Qed.

Lemma outcome_balanced dt os e oe gain s err s' : outcome dt os e oe gain s err s' ->
  (forall x, gain x = held x (dt ++ e) oe) -> balanced dt os s s'.
Proof.
  intros [[-> A]|(k & A & _)] Hg.
  - exists e, oe. split; [apply A|]. destruct (ap_within _ _ _ _ _ A) as [Wa Wn]. split; [done|]. intros x. by rewrite Wn, Hg.
  - exists (take k e), []. rewrite app_nil_r. split; [apply A|]. apply A.
Qed.

Lemma write_value_balanced dt os s v : at_end dt os s -> action_ok (Write v) ->
  pwp (write_value v) (fun _ => balanced dt os s) s.
Proof.
  intros H Ha. assert (value_ok v) as Hv by by destruct v; try apply Ha.
  eapply pwp_mono; [by apply pwp_write_value|]. cbn beta. intros err s' O. eapply outcome_balanced; [exact O|]. intros x.
  unfold value_gain, offsets. destruct v; try reflexivity; cbn [value_object encode] in *.
  - apply gain_held; [by apply strong_object_ok|left]. by destruct b as [[]|].
  - apply gain_held; [by apply weak_object_ok|left]. destruct b as [w|]; [|done]. cbn. by destruct (wb_promote w) as [[]|].
  - apply gain_held; [apply file_object_ok|right]. destruct Ha as [_ ->]. done.
Qed.

Lemma emit_within (e : event) dt os s : at_end dt os s ->
  pwp (emit e) (fun _ s' => at_end dt os s' /\ mAllowFds (this s') = mAllowFds (this s) /\ within (fun x => weight x e) s s') s.
Proof.
  intros [[] Hp]. unfold emit. psteps. split_and!; [split; [by split|done]|done|].
  split; [done|]. intros x. cbn [world_of trace set_trace]. by rewrite net_snoc.
Qed.

Lemma write_dup_balanced dt os s fd : at_end dt os s -> pwp (writeDupFileDescriptor fd) (fun _ => balanced dt os s) s.
Proof.
  intros H. unfold writeDupFileDescriptor, dup. psteps.
  pose proof (dup_range (world_of s) fd) as Hr. set (new := dup_fd (world_of s) fd) in *.
  assert (balanced dt os s s) as Hsame by (exists [], []; rewrite !app_nil_r; split; [done|]; eapply within_trans; [apply within_refl|apply within_refl|done]).
  pif; cycle 1.
  { apply Z.leb_gt in C. psteps. rewrite (proj2 (Z.ltb_lt new 0)) by done. by psteps. }
  apply Z.leb_le in C. eapply pwp_mono; [by apply (emit_within _ dt os)|]. cbn beta. intros _ s1 (H1 & Ha & W1).
  psteps. rewrite (proj2 (Z.ltb_ge new 0)) by done. psteps. unfold writeFileDescriptor.
  eapply pwp_mono; [apply (pwp_writeObject dt os s1 (file_object new true) true H1)|]. cbn beta.
  intros err s2 [[-> A]|[Hn (k & A & _)]].
  - cbn. psteps. exists (obj_bytes (file_object new true)), [Z.of_nat (length dt)]. split; [apply A|].
    eapply within_trans; [exact W1|apply A|]. intros x. unfold held. cbn [Zsum].
    destruct (file_object_ok new true) as [Hw _]. rewrite object_at_end by done.
    change (object_gain (file_object new true) true x) with 0. cbn [weight].
    assert (obj_holds x (file_object new true) = is_res x (Fd (fo_int (file_object new true)))) as -> by reflexivity.
    assert (fo_int (file_object new true) = new) as -> by (apply fo_int_handle; unfold int32; lia). lia.
  - psteps. rewrite (proj2 (Z.eqb_neq err NO_ERROR)) by done. cbn [negb if_then].
    eapply pwp_mono; [apply (emit_within _ _ _ _ (ap_end _ _ _ _ _ A))|]. cbn beta. intros _ s3 (H3 & _ & W3). psteps.
    exists (take k (obj_bytes (file_object new true))), []. rewrite app_nil_r. split; [done|].
    eapply within_trans; [exact W1|eapply within_trans; [apply A|exact W3|reflexivity]|]. intros x. cbn. unfold no_gain. lia.
Qed.

Lemma act_all_balanced dt os s acts : at_end dt os s -> Forall action_ok acts ->
  pwp (act_all acts) (fun _ => balanced dt os s) s.
Proof.
  revert dt os s. induction acts as [|a acts IH]; intros dt os s H Ha.
  { apply pwp_ret. exists [], []. rewrite !app_nil_r. split; [done|]. apply within_refl. }
  apply Forall_cons in Ha as [Ha Hacts]. cbn [act_all]. apply pwp_bind.
  assert (pwp (act a) (fun _ => balanced dt os s) s) as Hact.
  { destruct a as [v|fd]; [by apply write_value_balanced|by apply write_dup_balanced]. }
  eapply pwp_mono; [exact Hact|]. cbn beta. intros _ s1 (e & oe & H1 & W1).
  eapply pwp_mono; [by apply (IH _ _ s1 H1)|]. cbn beta. intros _ s2. by apply balanced_trans.
Qed.
End Properties.

(** ** Receiving *)
Section Receive.
Context {E : ParcelEnv}.

Lemma pwp_offsets_ascend os s p (i : nat) m : heap (world_of s) !! p = Some (MkChunk false os) -> Forall (fun a => 0 <= a < 2 ^ 63) os ->
  StronglySorted (fun a b => a + 24 <= b) os -> (forall a, head (drop i os) = Some a -> m <= a) ->
  pwp (offsets_ascend p (Z.of_nat i) m (length os - i)) (fun ok s' => ok = true /\ s' = s) s.
Proof.
  intros Hp Hr Hs. remember (length os - i)%nat as n eqn:Hn. revert i m Hn. induction n as [|n IH]; intros i m Hn Hm; cbn [offsets_ascend].
  { by apply pwp_ret. }
  destruct (lookup_lt_is_Some_2 os i) as [a Ha]; [lia|]. apply pwp_bind.
  eapply (pwp_load_cell p); [exact Hp|lia|by rewrite Nat2Z.id|].
  assert (m <= a) by (apply Hm; by rewrite (drop_S os a)). rewrite (proj2 (Z.ltb_ge a m)) by done.
  replace (Z.of_nat i + 1) with (Z.of_nat (S i)) by lia. apply IH; [lia|]. intros b Hb.
  assert (os !! S i = Some b) as Hb'. { rewrite <- (Nat.add_0_r (S i)), <- lookup_drop. by destruct (drop (S i) os). }
  rewrite Forall_forall in Hr. pose proof (Hr a ltac:(by eapply list_elem_of_lookup_2)).
  rewrite u64_small by lia. eapply ascending; [done|exact Ha|exact Hb'|lia].
Qed.

Lemma pwp_any_fd dt os s (i n : nat) : shows dt os s -> (i + n = length os)%nat ->
  pwp (any_fd (mObjects (this s)) (Z.of_nat i) n) (fun _ s' => s' = s) s.
Proof.
  intros H. revert i. induction n as [|n IH]; intros i Hi; cbn [any_fd]; [by apply pwp_ret|].
  destruct (lookup_lt_is_Some_2 os i) as [off Hoff]; [lia|]. apply pwp_bind. eapply (pwp_load_object os s i); [done|done|done|].
  destruct (sh_fit _ _ _ H) as [_ Hf]. rewrite Forall_forall in Hf.
  specialize (Hf off ltac:(by eapply list_elem_of_lookup_2)). unfold flat_type. psteps.
  assert (dt = take (Z.to_nat off) dt ++ take 4 (drop (Z.to_nat off) dt) ++ drop 4 (drop (Z.to_nat off) dt)) as Hdt by by rewrite !take_drop.
  pose proof H as H'. rewrite Hdt in H'. eapply (pwp_load_data _ _ _ os); [exact H'|rewrite length_take; lia|rewrite length_take, length_drop; lia|].
  psteps. pif; [by apply pwp_ret|]. replace (Z.of_nat i + 1) with (Z.of_nat (S i)) by lia. apply IH. lia.
Qed.

(** A buffer of the driver with data and objects in order. *)
Lemma pwp_received dt os w p q : heap w !! p = Some (MkChunk false dt) -> heap w !! q = Some (MkChunk false os) -> p ≠ 0 -> q ≠ 0 ->
  Forall is_byte dt -> Z.of_nat (length dt) <= INT32_MAX -> objects_fit os (Z.of_nat (length dt)) ->
  pwp (ipcSetDataReference p (Z.of_nat (length dt)) q (Z.of_nat (length os)))
    (fun _ s' => shows dt os s' /\ mDataPos (this s') = 0 /\ world_of s' = w /\ mError (this s') = NO_ERROR) (new_parcel w).
Proof.
  intros Hp Hq Hp0 Hq0 Hb Hl Hf. unfold INT32_MAX in *. unfold ipcSetDataReference. apply pwp_bind.
  assert (freeDataNoInit (new_parcel w) = Ok (tt, new_parcel w)) as Hfree by reflexivity. unfold pwp at 1. rewrite Hfree. clear Hfree.
  psteps. cbn [this world_of new_parcel]. rewrite Nat2Z.id. match goal with |- context [MkP ?t0 w] => set (t := t0) end.
  assert (shows dt os (MkP t w)) as H.
  { split; cbn; try done; right; exists false, []; by rewrite app_nil_r. }
  rewrite <- (Nat.sub_0_r (length os)) at 1. eapply pwp_mono; [apply (pwp_offsets_ascend os (MkP t w) q 0 0); [done| |apply Hf|]|].
  - destruct Hf as [_ Hf]. eapply Forall_impl; [exact Hf|]. cbn. lia.
  - intros a Ha. destruct Hf as [_ Hf]. rewrite Forall_forall in Hf. apply Hf. by destruct os; [done|injection Ha as ->; left].
  - cbn beta. intros ok s1 [-> ->]. psteps. cbn [negb if_then]. unfold scanForFds. psteps.
    rewrite (sh_count _ _ _ H), Nat2Z.id. eapply pwp_mono; [apply (pwp_any_fd dt os (MkP t w) 0); [done|lia]|].
    cbn beta. intros b s2 ->. psteps. split_and!; [|done|done|done]. destruct H. by split.
Qed.
End Receive.

(** What the driver is told to take: the data and the offsets. *)
Definition ipc_message {E : ParcelEnv} : P (list Z * list Z) :=
  d ← ipcData; n ← ipcDataSize; o ← ipcObjects; m ← ipcObjectsCount;
  data ← mem_load d 0 (Z.to_nat n); offs ← mem_load o 0 (Z.to_nat m); mret (data, offs).

Lemma pwp_ipc_message {E : ParcelEnv} dt os s (Q : list Z * list Z -> pstate -> Prop) : at_end dt os s -> Q (dt, os) s -> pwp ipc_message Q s.
Proof.
  intros [H Hp] HQ. unfold ipc_message, ipcData, ipcDataSize, ipcObjects, ipcObjectsCount. psteps. rewrite (hd_size _ _ _ H), Hp, Z.ltb_irrefl, (hd_count _ _ _ H), !Nat2Z.id.
  pose proof (holds_shows _ _ _ H) as Hs. eapply (pwp_load_data [] dt [] os); [by rewrite app_nil_r|done|done|]. psteps.
  destruct (sh_objects _ _ _ Hs) as [->|(b & rest & Ho & _)]; [done|].
  eapply pwp_load; [exact Ho|lia|rewrite length_app; lia|]. change (Z.to_nat 0) with 0%nat. rewrite drop_0, take_app_length. by psteps.
Qed.

(** ** The properties *)

(** C28: what programs write is what they read.  For every sequence of values (numbers,
    blocks, strings, binders, descriptors), if the writers succeed, then the readers of
    the same kinds, from the start, deliver the values; and the writers only fail when
    an allocation does, as long as the parcel is not to exceed the limit of its size. *)
Theorem parcel_roundtrip {E : ParcelEnv} {L : ParcelEnvLaws E} w vs : heap w !! 0 = None -> Forall value_ok vs ->
  ~ too_big (Z.of_nat (length (encode_all vs))) ->
  pwp (write_all vs) (fun err s => (err = NO_ERROR \/ no_memory err) /\
    (err = NO_ERROR -> pwp (_ ← setDataPosition 0; read_all vs) (fun rs _ => rs = expected <$> vs) s)) (new_parcel w).
Proof.
  intros H0 Hv Hs. eapply pwp_mono; [apply (pwp_write_all [] []); [by apply new_at_end|done|done]|]. cbn beta.
  intros err s [[-> A]|[[Hm|[_ Ha]] _]]; [|split; [by right|intros ->; by destruct Hm]|done].
  split; [by left|]. intros _. psteps. unfold setDataPosition. change (INT32_MAX <? 0) with false. cbn iota. psteps. cbn [app] in A.
  change (pwp (read_all vs) (fun rs _ => rs = expected <$> vs) (moved s 0 0)).
  eapply pwp_mono; [apply (reads_all (encode_all vs) (offsets_all vs 0))|].
  - apply (shows_moved _ _ s 0 0); [apply holds_shows, A|done].
  - exists [], []. by rewrite app_nil_r.
  - done.
  - done.
  - cbn beta. intros rs s' [-> _]. done.
Qed.

(** C29: a message is read as it was written.  What the driver is told to take from the
    sender's parcel, the data and the offsets of the objects, placed in a read-only
    buffer of the receiver, makes a parcel ([ipcSetDataReference]) from which the
    receiver's readers deliver the values that the sender wrote. *)
Theorem message_roundtrip {E1 E2 : ParcelEnv} {L : ParcelEnvLaws E1} w vs : heap w !! 0 = None -> Forall value_ok vs ->
  ~ too_big (Z.of_nat (length (encode_all vs))) ->
  @pwp _ (err ← @write_all E1 vs; msg ← @ipc_message E1; mret (err, msg)) (fun r _ =>
    fst r = NO_ERROR -> forall data offs w' p q, snd r = (data, offs) ->
      heap w' !! p = Some (MkChunk false data) -> heap w' !! q = Some (MkChunk false offs) -> p ≠ 0 -> q ≠ 0 ->
      @pwp _ (_ ← @ipcSetDataReference E2 p (Z.of_nat (length data)) q (Z.of_nat (length offs)); @read_all E2 vs)
        (fun rs _ => rs = @expected E2 <$> vs) (new_parcel w')) (new_parcel w).
Proof.
  intros H0 Hv Hs. apply pwp_bind. eapply pwp_mono; [apply (pwp_write_all (E:=E1) [] []); [by apply new_at_end|done|done]|]. cbn beta.
  intros err s [[-> A]|[He (vs1 & v & vs2 & k & _ & A)]]; apply pwp_bind; (eapply pwp_ipc_message; [apply A|]); apply pwp_ret; cbn [fst snd];
    [|intros ->; destruct He as [[? _]|[? _]]; done].
  cbn [app]. intros _ data offs w' p q [= <- <-] Hp Hq Hp0 Hq0. pose proof (holds_shows _ _ _ (proj1 (ap_end _ _ _ _ _ A))) as Sh.
  destruct Sh as [_ Hl Hb _ _ _ Hf _]. apply pwp_bind.
  eapply pwp_mono; [by apply (pwp_received (encode_all vs) (offsets_all vs 0) w' p q)|]. cbn beta. intros _ s' (Hsh & Hpos & _).
  eapply pwp_mono; [apply (reads_all (encode_all vs) (offsets_all vs 0)); [done| |done|by rewrite Hpos]|].
  - exists [], []. by rewrite app_nil_r, Hpos.
  - cbn beta. intros rs s2 [-> _]. done.
Qed.

(** C30: a parcel gives back everything.  Whatever values are written to a parcel and
    whatever descriptors are duplicated into it, wherever memory runs out or a call
    fails, with the failures ignored: after [freeData] the heap and the statistics of
    all parcels are what they were, every reference that was taken has been given up
    and every descriptor that was opened has been closed, each exactly once. *)
Theorem parcel_gives_back {E : ParcelEnv} {L : ParcelEnvLaws E} w acts : heap w !! 0 = None -> Forall action_ok acts ->
  pwp (_ ← act_all acts; freeData) (fun _ s => this s = initial_parcel /\ heap (world_of s) = heap w /\
    u64 (gAllocSize (world_of s)) = u64 (gAllocSize w) /\ u64 (gAllocCount (world_of s)) = u64 (gAllocCount w) /\
    forall x, net x (trace (world_of s)) = net x (trace w)) (new_parcel w).
Proof.
  intros H0 Ha. apply pwp_bind. eapply pwp_mono; [apply (act_all_balanced [] []); [by apply new_at_end|done]|]. cbn beta.
  intros _ s1 (e & oe & [H1 _] & [A1 N1]). eapply pwp_mono; [by apply (pwp_freeData ([] ++ e) ([] ++ oe))|]. cbn beta.
  intros _ s2 [Ht [A2 N2] Hz]. split; [done|]. rewrite A1 in A2. unfold account_of in A2. rewrite Ht in A2. cbn in A2.
  injection A2 as Hh Hsz Hc _ _. rewrite !delete_delete_eq, !delete_id in Hh by done. rewrite !Z.sub_0_r in Hsz, Hc.
  split_and!; [done..|]. intros x. rewrite N2, N1. cbn [app new_parcel world_of]. lia.
Qed.
