(* ===== verification/ParcelErrors.v ===== *)
(** * Parcels: limits, failures and concrete runs

    What the methods do where the buffer may not grow, and how they count; then small
    parcels with a C library and a kernel that keep their promises. *)
From S2P Require Import Prelude UserMem Protocol ParcelState Parcel ParcelWrite ParcelRead ParcelInv ParcelAppend ParcelObjects ParcelValues ParcelShows ParcelFind ParcelRoundtrip ParcelProps.

Implicit Types (s : pstate) (dt os l : list Z) (n : Z) (w : world).

Section Errors.
Context {E : ParcelEnv}.

(** [growData] refuses to go past the limit, and changes nothing. *)
Lemma pwp_growData_too_big s n : 0 <= mDataSize (this s) <= INT32_MAX -> 0 < n -> n <= 2 ^ 31 -> too_big (mDataSize (this s) + n) ->
  pwp (growData n) (fun err s' => err = BAD_VALUE /\ s' = s) s.
Proof.
  intros Hs Hn Hm Hb. unfold too_big, INT32_MAX in *. unfold growData, INT32_MAX. pif; [by apply pwp_ret|]. psteps.
  pose proof (Z.div_mod ((mDataSize (this s) + n) * 3) 2 ltac:(done)) as Hd.
  pose proof (Z.mod_pos_bound ((mDataSize (this s) + n) * 3) 2 ltac:(done)).
  rewrite !u64_small by (rewrite ?u64_small; lia). rewrite (proj2 (Z.leb_gt _ _)) by lia.
  unfold continueWrite, INT32_MAX. rewrite (proj2 (Z.ltb_lt _ _)) by lia. by apply pwp_ret.
Qed.

Lemma pwp_write_too_big dt os s l : at_end dt os s -> l ≠ [] -> Z.of_nat (length l) <= INT32_MAX ->
  mDataCapacity (this s) < Z.of_nat (length dt + padded_len (length l)) -> too_big (Z.of_nat (length dt + padded_len (length l))) ->
  pwp (write l) (fun err s' => err = mError (this s) /\ s' = s) s.
Proof.
  intros H Hl Hn Hcap Hb. pose proof (at_end_small _ _ _ H) as Hs. destruct H as [H Hp].
  pose proof (padded_len_bounds (length l)) as Hpad. assert (0 < length l)%nat by (destruct l; [done|cbn; lia]).
  unfold INT32_MAX in *. unfold write, writeInplace, pad_size, INT32_MAX, SIZE_T_MAX. psteps.
  rewrite !(proj2 (Z.ltb_ge (2 ^ 31 - 1) _)), (proj2 (Z.ltb_ge (2 ^ 32 - 1 - 3) _)) by lia. psteps.
  rewrite PAD_SIZE_nat, Hp by lia. rewrite u64_small by lia.
  rewrite (proj2 (Z.ltb_ge _ _)), (proj2 (Z.leb_gt _ _)) by lia. psteps.
  rewrite Nat2Z.inj_add in Hb. rewrite <- (hd_size _ _ _ H) in Hb.
  assert (Z.of_nat (padded_len (length l)) <= 2 ^ 31) by (unfold padded_len in *; lia).
  eapply pwp_mono; [apply (pwp_growData_too_big s); [|lia|lia|exact Hb]|].
  - rewrite (hd_size _ _ _ H). unfold INT32_MAX. lia.
  - cbn beta. intros err s' [-> ->]. cbn. by psteps.
Qed.

(** The buffer of the first [restartWrite] is in the size of all parcels, but not in
    their count. *)
Lemma pwp_setData_first {L : ParcelEnvLaws E} l w : heap w !! 0 = None -> l ≠ [] -> Z.of_nat (length l) <= INT32_MAX -> Forall is_byte l ->
  pwp (setData l) (fun err s => (err ≠ NO_ERROR -> holds [] [] s) /\ (err = NO_ERROR -> holds l [] s /\ gAllocCount (world_of s) = gAllocCount w /\
    gAllocSize (world_of s) = u64 (gAllocSize w + Z.of_nat (length l)) /\ trace (world_of s) = trace w /\ mData (this s) ≠ 0 /\
    mDataCapacity (this s) = Z.of_nat (length l))) (new_parcel w).
Proof.
  intros H0 Hl Hn Hb. set (n := Z.of_nat (length l)) in *. assert (0 < n) by (destruct l; [done|cbn in n; lia]).
  unfold setData. fold n. rewrite (proj2 (Z.ltb_ge INT32_MAX n)) by done. unfold INT32_MAX in *.
  apply pwp_and_then. unfold restartWrite, INT32_MAX. rewrite (proj2 (Z.ltb_ge _ n)) by done. psteps. cbn [mOwner mData mDataCapacity initial_parcel this new_parcel]. psteps. cbn [mData mDataCapacity initial_parcel this new_parcel].
  apply pwp_realloc_null, pwp_alloc; [lia|intros _|intros p m Hp Hf Hlm Hm _|done].
  - rewrite (proj2 (Z.ltb_lt 0 n)) by done. cbn [Z.eqb andb]. unfold set_error. psteps. split; [done|]. intros _. split; [|done]. intros _.
    destruct (new_at_end w H0) as [[] _]. by split.
  - rewrite (proj2 (Z.eqb_neq p 0)) by lia. cbn [andb negb]. psteps. unfold releaseObjects. psteps. change (Z.to_nat _) with 0%nat. cbn [down_objects].
    psteps. unfold count_size, if_then. psteps. cbn [mObjects initial_parcel set_mDataCapacity set_mData]. unfold mem_free at 1. cbn [Z.eqb].
    psteps. split; [intros _|done]. psteps.
    eapply (pwp_store p 0 l m); [apply lookup_insert_eq|done|lia|]. psteps. split; [done|]. intros _.
    unfold splice. change (Z.to_nat 0) with 0%nat. rewrite (drop_ge m) by lia. rewrite take_0. cbn [app]. rewrite app_nil_r.
       cbn. split_and!; try done; [|by rewrite Z.sub_0_r|lia].
    split; cbn; try done; try lia.
    + right. split; [done|]. exists []. rewrite app_nil_r, lookup_insert_eq. done.
    + by left.
    + split; constructor.
    + rewrite !lookup_insert_ne by lia. done.
Qed.

(** C32: a failure that is not reported.  Where the data would get longer than a parcel
    can be, [write] leaves the parcel as it was and returns its error status, which is
    [NO_ERROR] if nothing failed before: the caller takes the bytes as written. *)
Theorem write_drops_silently dt os s l : at_end dt os s -> l ≠ [] -> Z.of_nat (length l) <= INT32_MAX ->
  mDataCapacity (this s) < Z.of_nat (length dt + padded_len (length l)) -> too_big (Z.of_nat (length dt + padded_len (length l))) ->
  mError (this s) = NO_ERROR -> pwp (write l) (fun err s' => err = NO_ERROR /\ s' = s) s.
Proof. intros H Hl Hn Hc Hb <-. by apply (pwp_write_too_big dt os). Qed.

(** The count of all parcels is wrong after [setData].  The first buffer that a
    parcel gets from [setData] is in the total size but not in the count, while
    [freeData] takes it off both: one parcel too few remains in the statistics, 2^64 - 1
    of them if it was the only one. *)
Theorem setData_miscounts {L : ParcelEnvLaws E} l w : heap w !! 0 = None -> l ≠ [] -> Z.of_nat (length l) <= INT32_MAX -> Forall is_byte l ->
  pwp (err ← setData l; _ ← freeData; mret err) (fun err s => err = NO_ERROR ->
    u64 (gAllocSize (world_of s)) = u64 (gAllocSize w) /\ u64 (gAllocCount (world_of s)) = u64 (gAllocCount w - 1)) (new_parcel w).
Proof.
  intros H0 Hl Hn Hb. apply pwp_bind. eapply pwp_mono; [by apply pwp_setData_first|]. cbn beta. intros err s1 [H2 H1].
  destruct (decide (err = NO_ERROR)) as [He|He].
  - destruct (H1 He) as (Hh & Hc & Hs & _ & Hd & Hcap). psteps.
    eapply pwp_mono; [by apply (pwp_freeData l [])|]. cbn beta. intros _ s2 [Ht [A _] _]. psteps. intros _.
    unfold account_of in A. rewrite Ht, Hc, Hs, Hcap, (proj2 (Z.eqb_neq _ 0) Hd) in A. cbn in A.
    injection A as _ Hsz Hct _ _. rewrite Z.sub_0_r in Hsz, Hct. split; [|done].
    rewrite Hsz. unfold u64. rewrite Zminus_mod_idemp_l. f_equal. lia.
  - psteps. eapply pwp_mono; [by apply (pwp_freeData [] []), H2|]. cbn beta. intros _ s2 _. by psteps.
Qed.
End Errors.

(** ** Parcels: concrete runs

    A C library and a kernel that keep their promises; what the calls do on small
    parcels; the hypotheses of the properties at values of every kind. *)

(** ** A C library *)

(** Memory never runs out and every [realloc] moves; descriptors are numbered from 100
    on; fresh memory holds 0xaa. *)
Definition next_address (h : gmap Z chunk) : Z := map_fold (fun k _ a => Z.max (k + 1) a) 1 h.
Lemma next_address_above h : 0 < next_address h /\ forall k, is_Some (h !! k) -> k < next_address h.
Proof.
  unfold next_address. apply (map_fold_weak_ind (fun a (h : gmap Z chunk) => 0 < a /\ forall k, is_Some (h !! k) -> k < a)).
  - split; [done|]. intros k [? H]. by rewrite lookup_empty in H.
  - intros i c h' a Hi [Ha Hk]. split; [lia|]. intros k Hs. destruct (decide (k = i)) as [->|Hn]; [lia|].
    rewrite lookup_insert_ne in Hs by done. specialize (Hk k Hs). lia.
Qed.
Lemma next_address_free h : 0 < next_address h /\ h !! next_address h = None.
Proof.
  destruct (next_address_above h) as [Hp Hk]. split; [done|]. destruct (h !! next_address h) eqn:Hl; [|done].
  assert (next_address h < next_address h); [|lia]. apply Hk. by rewrite Hl.
Qed.

Definition opened (e : event) : bool := match e with Dup _ _ => true | _ => false end.
#[export] Instance libc : ParcelEnv := {
  malloc_at (w : world) (n : Z) := Some (next_address (heap w));
  realloc_at w p n := Some (next_address (heap w));
  uninit (w : Z) (p : Z) (n : nat) := replicate n 170;
  dup_fd w fd := if fd <? 0 then -9 else 100 + Z.of_nat (length (List.filter opened (trace w))) mod 1000;
  ashmem_get_size_region w fd := 4096;
  ashmem_create_region w len := 90;
  ashmem_set_prot_region w fd prot := 0;
  mmap_at w len fd := 2 ^ 32;
  has_proxy h := 0 <=? h
}.
#[export] Instance libc_laws : ParcelEnvLaws libc.
Proof.
  split.
  - intros w n p [= <-]. apply next_address_free.
  - intros w p n q [= <-]. split; [|right]; apply next_address_free.
  - intros w fd. cbn. case_match; [lia|].
    pose proof (Z.mod_pos_bound (Z.of_nat (length (List.filter opened (trace w)))) 1000). lia.
  - intros. apply length_replicate.
  - intros w p n Hw. apply Forall_replicate. split; [done|]. apply Z.lt_le_trans with (256 ^ 1); [done|].
    apply Z.pow_le_mono_r; lia.
Qed.

Definition start : world := MkWorld ∅ 0 0 0 0 [].
Definition fresh : pstate := new_parcel start.
Definition run {A} (m : P A) : res (A * pstate) := m fresh.
Definition result {A} (m : P A) : option A := match run m with Ok (a, _) => Some a | Fault _ => None end.

(** One value of every kind. *)
Definition some_values : list value :=
  [VInt32 (-5); VStrong (Some (LocalBinder 4096 8192)); VString16 (Some [104; 105]); VString16 None;
   VWeak (Some (MkWeak 4096 8192 (Some (LocalBinder 4096 8192)))); VFile 7 false; VStrong (Some (RemoteBinder 3));
   VBytes [1; 2; 3]; VCString [97; 98]; VString8 [99]; VUint32 9; VInt64 (-1); VUint64 (2 ^ 63); VStrong None].
Lemma some_values_ok : Forall value_ok some_values.
Proof.
  repeat constructor; unfold int32, int64, not_null, is_byte, is_unit, INT32_MAX; cbn; try lia; try done.
Qed.
Lemma some_values_fit : ~ too_big (Z.of_nat (length (encode_all some_values))).
Proof. unfold too_big. vm_compute. done. Qed.

(** What is read of them. *)
Example some_values_read : result (_ ← write_all some_values; _ ← setDataPosition 0; read_all some_values) = Some (expected <$> some_values).
Proof. vm_compute. reflexivity. Qed.

(** ** Witnesses *)

(** Two objects, of which the first is looked for with a hint past it. *)
Definition two_objects : list Z := obj_bytes (strong_object (Some (RemoteBinder 5))) ++ obj_bytes (strong_object (Some (LocalBinder 64 128))).
Definition after_both : pstate :=
  MkP (set_mNextObjectHint (set_mObjectsSize (set_mObjects (set_mDataSize (set_mData initial_parcel 1) 48) 2) 2) 2)
    (set_heap start {[1 := MkChunk false two_objects; 2 := MkChunk false [0; 24]]}).
Lemma after_both_shows : shows two_objects [0; 24] after_both.
Proof.
  split; try done.
  - repeat constructor; done.
  - right. exists false, []. split; [vm_compute; reflexivity|done].
  - right. exists false, []. split; [vm_compute; reflexivity|done].
  - split; repeat constructor; done.
Qed.
Lemma after_both_pos : 0 <= mDataPos (this after_both) <= INT32_MAX.
Proof. done. Qed.
Lemma readObject_correct_witness : let dpos := mDataPos (this after_both) in let o := object_in two_objects dpos in
  pwp (readObject false) (fun r s' =>
    (dpos + 24 <= Z.of_nat (length two_objects) ->
       r = (if bool_decide (false = false /\ fo_cookie o = 0 /\ fo_binder o = 0 \/ dpos ∈ [0; 24]) then Some o else None) /\
       exists h, s' = moved after_both (dpos + 24) h /\ 0 <= h) /\
    (Z.of_nat (length two_objects) < dpos + 24 -> r = None /\ s' = after_both)) after_both.
Proof. exact (readObject_correct two_objects [0; 24] after_both false after_both_shows after_both_pos). Defined.
Example first_object_found : match readObject false after_both with Ok (Some o, s) => (fo_int o, mDataPos (this s), mNextObjectHint (this s)) | _ => (0, 0, 0) end = (5, 24, 1).
Proof. vm_compute. reflexivity. Qed.

Lemma parcel_roundtrip_witness :
  pwp (write_all some_values) (fun err s => (err = NO_ERROR \/ no_memory err) /\
    (err = NO_ERROR -> pwp (_ ← setDataPosition 0; read_all some_values) (fun rs _ => rs = expected <$> some_values) s)) fresh.
Proof. exact (parcel_roundtrip start some_values eq_refl some_values_ok some_values_fit). Defined.

Lemma message_roundtrip_witness :
  pwp (err ← write_all some_values; msg ← ipc_message; mret (err, msg)) (fun r _ =>
    fst r = NO_ERROR -> forall data offs w' p q, snd r = (data, offs) ->
      heap w' !! p = Some (MkChunk false data) -> heap w' !! q = Some (MkChunk false offs) -> p ≠ 0 -> q ≠ 0 ->
      pwp (_ ← ipcSetDataReference p (Z.of_nat (length data)) q (Z.of_nat (length offs)); read_all some_values)
        (fun rs _ => rs = expected <$> some_values) (new_parcel w')) fresh.
Proof. exact (@message_roundtrip libc libc libc_laws start some_values eq_refl some_values_ok some_values_fit). Defined.

(** Values and duplicates, one of them of a bad descriptor. *)
Definition some_actions : list action := [Write (VStrong (Some (LocalBinder 4096 8192))); WriteDup 5; WriteDup (-1); Write (VInt32 7)].
Lemma some_actions_ok : Forall action_ok some_actions.
Proof. repeat constructor; unfold int32, not_null; cbn; lia. Qed.
Lemma parcel_gives_back_witness : pwp (_ ← act_all some_actions; freeData) (fun _ s => this s = initial_parcel /\ heap (world_of s) = heap start /\
    u64 (gAllocSize (world_of s)) = u64 (gAllocSize start) /\ u64 (gAllocCount (world_of s)) = u64 (gAllocCount start) /\
    forall x, net x (trace (world_of s)) = net x (trace start)) fresh.
Proof. exact (parcel_gives_back start some_actions eq_refl some_actions_ok). Defined.

Definition huge : list Z := replicate (Z.to_nat 1500000000) 0.
Lemma huge_length : Z.of_nat (length huge) = 1500000000.
Proof. unfold huge. rewrite length_replicate. apply Z2Nat.id. done. Qed.
Lemma huge_padded : 1500000000 <= Z.of_nat (length (@nil Z) + padded_len (length huge)).
Proof. pose proof (padded_len_bounds (length huge)). pose proof huge_length. cbn [length]. lia. Qed.
Lemma huge_conditions : huge ≠ [] /\ Z.of_nat (length huge) <= INT32_MAX /\
  mDataCapacity (this fresh) < Z.of_nat (length (@nil Z) + padded_len (length huge)) /\ too_big (Z.of_nat (length (@nil Z) + padded_len (length huge))).
Proof.
  pose proof huge_length. pose proof huge_padded. split_and!.
  - intros Hn. rewrite Hn in H. done.
  - unfold INT32_MAX. lia.
  - change (mDataCapacity (this fresh)) with 0. lia.
  - unfold too_big, INT32_MAX. apply Z.lt_le_trans with (1500000000 * 3 / 2); [done|]. apply Z.div_le_mono; lia.
Qed.
Lemma write_drops_silently_witness : pwp (write huge) (fun err s => err = NO_ERROR /\ s = fresh) fresh.
Proof.
  destruct huge_conditions as (H1 & H2 & H3 & H4).
  exact (write_drops_silently [] [] fresh huge (new_at_end start eq_refl) H1 H2 H3 H4 eq_refl).
Defined.

Lemma setData_miscounts_witness : pwp (err ← setData [1; 2]; _ ← freeData; mret err) (fun err s => err = NO_ERROR ->
    u64 (gAllocSize (world_of s)) = u64 (gAllocSize start) /\ u64 (gAllocCount (world_of s)) = u64 (gAllocCount start - 1)) fresh.
Proof. apply (setData_miscounts [1; 2] start); [done|done|done|]. repeat constructor; done. Defined.
Example setData_miscounts_run : match run (_ ← setData [1; 2]; freeData) with
  Ok (_, s) => (gAllocSize (world_of s), gAllocCount (world_of s)) | Fault _ => (0, 0) end = (0, 2 ^ 64 - 1).
Proof. vm_compute. reflexivity. Qed.

(** ** Where memory is corrupted *)

Definition a_binder : option ibinder := Some (LocalBinder 4096 8192).
Definition faults {A} (m : P A) : bool := match run m with Ok _ => false | Fault _ => true end.

(** Cut to no objects, [realloc(mObjects, 0)] frees the list, and the parcel keeps the
    pointer and the capacity: the list is freed again, or written to. *)
Example cut_frees_twice : (result (_ ← writeInt32 1; _ ← writeStrongBinder a_binder; setDataSize 4),
    faults (_ ← writeInt32 1; _ ← writeStrongBinder a_binder; _ ← setDataSize 4; freeData),
    faults (_ ← writeInt32 1; _ ← writeStrongBinder a_binder; _ ← setDataSize 4; _ ← setDataPosition 4; writeStrongBinder a_binder)) =
  (Some NO_ERROR, true, true).
Proof. vm_compute. reflexivity. Qed.

(** The list is shrunk, its capacity is not: the next object is entered behind it. *)
Example cut_keeps_capacity :
  faults (_ ← writeStrongBinder a_binder; _ ← writeStrongBinder a_binder; _ ← setDataSize 24; _ ← setDataPosition 24; writeStrongBinder a_binder) = true.
Proof. vm_compute. reflexivity. Qed.

(** [restartWrite] releases the objects by way of the old buffer, after [realloc]. *)
Example setData_after_realloc : faults (_ ← writeStrongBinder a_binder; setData [1; 2; 3; 4]) = true.
Proof. vm_compute. reflexivity. Qed.
(** Without data, [realloc] frees the buffer and the parcel keeps the pointer. *)
Example setData_of_nothing : (result (_ ← writeInt32 1; setData []), faults (_ ← writeInt32 1; _ ← setData []; freeData)) = (Some NO_ERROR, true).
Proof. vm_compute. reflexivity. Qed.

(** [growData] makes room after the size, not after the position. *)
Example write_beyond_size : faults (_ ← writeInt32 1; _ ← setDataPosition 400; writeInt32 2) = true.
Proof. vm_compute. reflexivity. Qed.
(** Behind the end, [readCString] takes what is left for 2^64 less something, and the
    first byte that it looks at is outside of the buffer. *)
Example read_beyond_size :
  match run (_ ← writeInt32 1; setDataPosition 8) with
  | Ok (_, s) => (u64 (mDataSize (this s) - mDataPos (this s)),
      match load_cell (mData (this s)) (mDataPos (this s)) s with Ok _ => false | Fault _ => true end)
  | Fault _ => (0, false)
  end = (2 ^ 64 - 4, true).
Proof. vm_compute. reflexivity. Qed.
(** A size in the reply header may move the position before 0, and that aborts. *)
Example negative_header : faults (_ ← writeInt32 (-128); _ ← writeInt32 (-100); _ ← setDataPosition 0; readExceptionCode) = true.
Proof. vm_compute. reflexivity. Qed.

(** [readNativeHandle] gives up at a descriptor that cannot be duplicated, and then
    goes on: it delivers a handle with the descriptor -1. *)
Example bad_descriptor_delivered :
  match run (_ ← writeInt32 1; _ ← writeInt32 0; _ ← writeInt32 5; _ ← setDataPosition 0; readNativeHandle) with
  | Ok (h, s) => (h =? 0, cells <$> heap (world_of s) !! h)
  | Fault _ => (true, None)
  end = (false, Some [12; 1; 0; -1]).
Proof. vm_compute. reflexivity. Qed.

(** A received parcel with a descriptor that is grown: [mOwner] closes the
    descriptor, and the copy refers to it. *)
Definition received_file : pstate :=
  new_parcel (set_heap start {[1 := MkChunk false (obj_bytes (file_object 5 false)); 2 := MkChunk false [0]]}).
Example grown_closes :
  match (_ ← ipcSetDataReference 1 24 2 1; _ ← setDataCapacity 100; _ ← setDataPosition 0; readFileDescriptor) received_file with
  | Ok (fd, s) => (fd, trace (world_of s))
  | Fault _ => (0, [])
  end = (5, [Close 5; FreeBuffer 1]).
Proof. vm_compute. reflexivity. Qed.
