(* ===== verification/RefBase.v ===== *)
(** * Counting references to objects (libs/utils/RefBase.cpp, libs/include/utils/RefBase.h)

    The counts of an object and the operations on them, as any number of threads run
    them at once: each access to a count is one step, and steps of different operations
    interleave in any order.  Without [DEBUG_REFS], so that the calls that track
    references do nothing. *)
From S2P Require Import Prelude.
From stdpp Require Import relations.
#[local] Open Scope Z_scope.

(** ** The counts *)
Definition INITIAL_STRONG_VALUE : Z := Z.shiftl 1 28.
Definition OBJECT_LIFETIME_STRONG : Z := 0.
Definition OBJECT_LIFETIME_WEAK : Z := 1.
Definition OBJECT_LIFETIME_MASK : Z := 1.

(** What the rest of the program sees: the virtual methods that are called, the
    destruction of the object, and the release of its counts. *)
Inductive notice := onFirstRef | onLastStrongRef | onIncStrongAttempted | onLastWeakRef | Destroyed | Freed.
#[export] Instance notice_eq_dec : EqDecision notice.
Proof. solve_decision. Defined.

(** [weakref_impl], whether it and [mBase] still are there, and what was noticed. *)
Record counts := MkCounts {
  mStrong : Z;
  mWeak : Z;
  mFlags : Z;
  mBase : bool;
  impl : bool;
  log : list notice
}.
Definition weakref_impl : counts := MkCounts INITIAL_STRONG_VALUE 0 0 true true [].
Definition set_mStrong (r : counts) (v : Z) : counts := MkCounts v (mWeak r) (mFlags r) (mBase r) (impl r) (log r).
Definition set_mWeak (r : counts) (v : Z) : counts := MkCounts (mStrong r) v (mFlags r) (mBase r) (impl r) (log r).
Definition set_mFlags (r : counts) (v : Z) : counts := MkCounts (mStrong r) (mWeak r) v (mBase r) (impl r) (log r).
Definition set_mBase (r : counts) (v : bool) : counts := MkCounts (mStrong r) (mWeak r) (mFlags r) v (impl r) (log r).
Definition set_impl (r : counts) (v : bool) : counts := MkCounts (mStrong r) (mWeak r) (mFlags r) (mBase r) v (log r).
Definition notify (r : counts) (n : notice) : counts := MkCounts (mStrong r) (mWeak r) (mFlags r) (mBase r) (impl r) (log r ++ [n]).

(** ** What is done in one step *)
Inductive field := Strong | Weak | Flags.
Definition value (f : field) (r : counts) : Z := match f with Strong => mStrong r | Weak => mWeak r | Flags => mFlags r end.
Definition store (f : field) (r : counts) (v : Z) : counts :=
  match f with Strong => set_mStrong r v | Weak => set_mWeak r v | Flags => set_mFlags r v end.

Inductive action :=
| Load (f : field)
| Add (f : field) (n : Z)
| Or (f : field) (n : Z)
| CmpXchg (f : field) (old new : Z)
| Virtual (n : notice)
| Delete
| DeleteRefs
| Dispose
| Nothing.

(** libs/include/cutils/atomic.h: the value before, or whether the exchange failed;
    nothing of an object may be used when it is gone. *)
Definition android_atomic_add (f : field) (n : Z) (r : counts) : Z * counts := (value f r, store f r (s32 (value f r + n))).
Definition android_atomic_or (f : field) (n : Z) (r : counts) : Z * counts := (value f r, store f r (Z.lor (value f r) n)).
Definition android_atomic_cmpxchg (f : field) (old new : Z) (r : counts) : Z * counts :=
  if value f r =? old then (0, store f r new) else (1, r).
Definition perform (a : action) (r : counts) : res (Z * counts) :=
  match a with
  | Load f => if impl r then Ok (value f r, r) else Fault OOPS
  | Add f n => if impl r then Ok (android_atomic_add f n r) else Fault OOPS
  | Or f n => if impl r then Ok (android_atomic_or f n r) else Fault OOPS
  | CmpXchg f old new => if impl r then Ok (android_atomic_cmpxchg f old new r) else Fault OOPS
  | Virtual n => if mBase r then Ok (0, notify r n) else Fault OOPS
  | Delete => if mBase r then Ok (0, notify r Destroyed) else Fault OOPS
  | DeleteRefs => if impl r then Ok (0, notify (set_impl r false) Freed) else Fault OOPS
  | Dispose => if mBase r then Ok (0, set_mBase r false) else Fault OOPS
  | Nothing => Ok (0, r)
  end.

(** ** The operations

    A statement accesses the object once; [returns] tells what the caller has got. *)
Inductive gain := GotStrong | GotWeak | GotNothing.
Inductive stmt :=
| incWeak_inc | incStrong_inc | forceIncStrong_inc | sub_initial
| decStrong_dec | decStrong_flags
| call (n : notice)
| delete_base | dtor_strong | dtor_flags | dtor_weak | delete_refs | dispose
| decWeak_dec | decWeak_flags | decWeak_strong | decWeak_lifetime
| attempt_load | attempt_cas (curCount : Z) | attempt_flags (curCount : Z)
| first_cas (curCount : Z) | first_load | attempt_ask | attempt_inc
| fix_load | fix_cas (curCount : Z)
| attemptWeak_load | attemptWeak_cas (curCount : Z)
| extend (mode : Z)
| returns (g : gain).

Definition action_of (s : stmt) : action :=
  match s with
  | incWeak_inc => Add Weak 1
  | incStrong_inc | forceIncStrong_inc | attempt_inc => Add Strong 1
  | sub_initial => Add Strong (- INITIAL_STRONG_VALUE)
  | decStrong_dec => Add Strong (-1)
  | decWeak_dec => Add Weak (-1)
  | decStrong_flags | dtor_flags | decWeak_flags | decWeak_lifetime | attempt_flags _ => Load Flags
  | dtor_strong | decWeak_strong | attempt_load | first_load | fix_load => Load Strong
  | dtor_weak | attemptWeak_load => Load Weak
  | attempt_cas c | first_cas c => CmpXchg Strong c (c + 1)
  | fix_cas c => CmpXchg Strong c (c - INITIAL_STRONG_VALUE)
  | attemptWeak_cas c => CmpXchg Weak c (c + 1)
  | call n => Virtual n
  | attempt_ask => Virtual onIncStrongAttempted
  | delete_base => Delete
  | delete_refs => DeleteRefs
  | dispose => Dispose
  | extend mode => Or Flags mode
  | returns _ => Nothing
  end.

Definition incWeak : list stmt := [incWeak_inc].
Definition incStrong : list stmt := incWeak ++ [incStrong_inc].
Definition forceIncStrong : list stmt := incWeak ++ [forceIncStrong_inc].
Definition decWeak : list stmt := [decWeak_dec].
Definition decStrong : list stmt := decStrong_dec :: decWeak.
Definition attemptIncStrong : list stmt := incWeak ++ [attempt_load].
Definition attemptIncWeak : list stmt := [attemptWeak_load].
Definition createWeak : list stmt := incWeak.
Definition extendObjectLifetime (mode : Z) : list stmt := [extend mode].
(** [delete mBase]: the destructors of derived classes, [~RefBase], the memory. *)
Definition delete_object : list stmt := [delete_base; dtor_strong].

(** How each goes on with the value it has found. *)
Definition incStrong_with (c : Z) : list stmt :=
  if negb (c =? INITIAL_STRONG_VALUE) then [] else [sub_initial; call onFirstRef].
Definition forceIncStrong_with (c : Z) : list stmt :=
  if c =? INITIAL_STRONG_VALUE then [sub_initial; call onFirstRef] else if c =? 0 then [call onFirstRef] else [].
Definition decStrong_with (c : Z) : list stmt := if c =? 1 then [call onLastStrongRef; decStrong_flags] else [].
Definition decStrong_delete (flags : Z) : list stmt :=
  if Z.land flags OBJECT_LIFETIME_MASK =? OBJECT_LIFETIME_STRONG then delete_object else [].
Definition destructor_with (strong : Z) : list stmt :=
  if strong =? INITIAL_STRONG_VALUE then [delete_refs; dispose] else [dtor_flags].
Definition destructor_flags (flags : Z) : list stmt :=
  if negb (Z.land flags OBJECT_LIFETIME_MASK =? OBJECT_LIFETIME_STRONG) then [dtor_weak] else [dispose].
Definition destructor_weak (weak : Z) : list stmt := if weak =? 0 then [delete_refs; dispose] else [dispose].
Definition decWeak_with (c : Z) : list stmt := if negb (c =? 1) then [] else [decWeak_flags].
Definition decWeak_last (flags : Z) : list stmt :=
  if Z.land flags OBJECT_LIFETIME_WEAK =? OBJECT_LIFETIME_STRONG then [decWeak_strong] else [call onLastWeakRef; decWeak_lifetime].
Definition decWeak_regular (strong : Z) : list stmt := if strong =? INITIAL_STRONG_VALUE then delete_object else [delete_refs].
Definition decWeak_extended (flags : Z) : list stmt :=
  if Z.land flags OBJECT_LIFETIME_MASK =? OBJECT_LIFETIME_WEAK then delete_object else [].

(** [attemptIncStrong]: the easy loop, the harder cases, and the fix-up. *)
Definition fix_up : list stmt := [fix_load; returns GotStrong].
Definition no_promotion : list stmt := decWeak ++ [returns GotNothing].
Definition attempt_loop (c : Z) : list stmt :=
  if (0 <? c) && negb (c =? INITIAL_STRONG_VALUE) then [attempt_cas c] else [attempt_flags c].
Definition attempt_swapped (failed : Z) : list stmt := if failed =? 0 then fix_up else [attempt_load].
Definition attempt_hard (c flags : Z) : list stmt :=
  if Z.land flags OBJECT_LIFETIME_WEAK =? OBJECT_LIFETIME_STRONG then
    if c <=? 0 then no_promotion else [first_cas c]
  else [attempt_ask].
Definition attempt_extra (c : Z) : list stmt :=
  (if (0 <? c) && (c <? INITIAL_STRONG_VALUE) then [call onLastStrongRef] else []) ++ fix_up.
Definition first_swapped (c failed : Z) : list stmt := if failed =? 0 then attempt_extra c else [first_load].
Definition first_loop (c : Z) : list stmt := if 0 <? c then [first_cas c] else no_promotion.
Definition fix_loop (c : Z) : list stmt := if INITIAL_STRONG_VALUE <=? c then [fix_cas c] else [].
Definition fix_swapped (failed : Z) : list stmt := if failed =? 0 then [] else [fix_load].
Definition attemptWeak_loop (c : Z) : list stmt := if 0 <? c then [attemptWeak_cas c] else [returns GotNothing].
Definition attemptWeak_swapped (failed : Z) : list stmt := if failed =? 0 then [returns GotWeak] else [attemptWeak_load].

Section Run.
(** The answer of [onIncStrongAttempted], a virtual method. *)
Variable agrees : bool.

Definition next (s : stmt) (v : Z) : list stmt :=
  match s with
  | incStrong_inc => incStrong_with v
  | forceIncStrong_inc => forceIncStrong_with v
  | decStrong_dec => decStrong_with v
  | decStrong_flags => decStrong_delete v
  | dtor_strong => destructor_with v
  | dtor_flags => destructor_flags v
  | dtor_weak => destructor_weak v
  | decWeak_dec => decWeak_with v
  | decWeak_flags => decWeak_last v
  | decWeak_strong => decWeak_regular v
  | decWeak_lifetime => decWeak_extended v
  | attempt_load => attempt_loop v
  | attempt_cas _ => attempt_swapped v
  | attempt_flags c => attempt_hard c v
  | first_cas c => first_swapped c v
  | first_load => first_loop v
  | attempt_ask => if agrees then [attempt_inc] else no_promotion
  | attempt_inc => attempt_extra v
  | fix_load => fix_loop v
  | fix_cas _ => fix_swapped v
  | attemptWeak_load => attemptWeak_loop v
  | attemptWeak_cas _ => attemptWeak_swapped v
  | _ => []
  end.
Definition exec (s : stmt) (r : counts) : res (list stmt * counts) := '(v, r) ← perform (action_of s) r; Ok (next s v, r).

(** ** A program that uses the object

    References that are held, and the operations that run.  An operation may use a
    reference that its caller keeps: strong ones for [incStrong], any for the others. *)
Inductive borrow := BorrowStrong | BorrowAny | BorrowNone.
Record activity := MkAct { borrows : borrow; code : list stmt }.
Record config := MkConfig {
  strong_held : Z;
  weak_held : Z;
  running : list activity;
  object : counts
}.

Inductive operation := CopyStrong | CopyWeak | Promote | TryWeak | DropStrong | DropWeak | Force.
Definition code_of (o : operation) : list stmt :=
  match o with
  | CopyStrong => incStrong ++ [returns GotStrong]
  | CopyWeak => incWeak ++ [returns GotWeak]
  | Promote => attemptIncStrong
  | TryWeak => attemptIncWeak
  | DropStrong => decStrong ++ [returns GotNothing]
  | DropWeak => decWeak ++ [returns GotNothing]
  | Force => forceIncStrong ++ [returns GotStrong]
  end.
Definition borrow_of (o : operation) : borrow :=
  match o with CopyStrong => BorrowStrong | CopyWeak | Promote | TryWeak | Force => BorrowAny | _ => BorrowNone end.
Definition takes_strong (o : operation) : Z := match o with DropStrong => 1 | _ => 0 end.
Definition takes_weak (o : operation) : Z := match o with DropWeak => 1 | _ => 0 end.

Definition strong_borrower (a : activity) : Z := match borrows a with BorrowStrong => 1 | _ => 0 end.
Definition borrower (a : activity) : Z := match borrows a with BorrowNone => 0 | _ => 1 end.
(** What is borrowed stays; there are fewer references than the initial count. *)
Definition enough (s w : Z) (l : list activity) : bool :=
  (0 <=? s) && (0 <=? w) && ((Zsum strong_borrower l =? 0) || (1 <=? s)) && ((Zsum borrower l =? 0) || (1 <=? s + w))
  && (s + w + Z.of_nat (length l) <? INITIAL_STRONG_VALUE).
Definition start (o : operation) (c : config) : config :=
  MkConfig (strong_held c - takes_strong o) (weak_held c - takes_weak o) (MkAct (borrow_of o) (code_of o) :: running c) (object c).
(** Only what outlives its strong references may be forced to have one again. *)
Definition permitted (o : operation) (r : counts) : bool := match o with Force => mFlags r =? OBJECT_LIFETIME_WEAK | _ => true end.
Definition may_start (o : operation) (c : config) : bool :=
  enough (strong_held (start o c)) (weak_held (start o c)) (running (start o c)) && permitted o (object c).
Definition gain_strong (g : gain) : Z := match g with GotStrong => 1 | _ => 0 end.
Definition gain_weak (g : gain) : Z := match g with GotWeak => 1 | _ => 0 end.

Definition is_return (p : stmt) : bool := match p with returns _ => true | _ => false end.
Inductive step : config -> config -> Prop :=
| step_start o c : may_start o c = true -> step c (start o c)
| step_run s w l1 l2 b p k l r r' : is_return p = false -> exec p r = Ok (l, r') ->
    step (MkConfig s w (l1 ++ MkAct b (p :: k) :: l2) r) (MkConfig s w (l1 ++ MkAct b (l ++ k) :: l2) r')
| step_return s w l1 l2 b g r :
    step (MkConfig s w (l1 ++ MkAct b [returns g] :: l2) r) (MkConfig (s + gain_strong g) (w + gain_weak g) (l1 ++ l2) r).
End Run.

(** ** Sums over what runs *)
Implicit Types (a : activity) (l k : list stmt) (r : counts) (p : stmt) (c : config) (b : borrow).

Definition total (f : stmt -> Z) (l : list activity) : Z := Zsum (fun a => Zsum f (code a)) l.
Lemma Zsum_mid {A} (f : A -> Z) (l1 l2 : list A) x : Zsum f (l1 ++ x :: l2) = Zsum f (l1 ++ l2) + f x.
Proof. rewrite !Zsum_app. cbn. lia. Qed.
Lemma total_mid f (l1 l2 : list activity) a : total f (l1 ++ a :: l2) = total f (l1 ++ l2) + Zsum f (code a).
Proof. exact (Zsum_mid (fun a => Zsum f (code a)) _ _ _). Qed.
Lemma Forall_mid {A} (P : A -> Prop) (l1 l2 : list A) x : Forall P (l1 ++ x :: l2) <-> P x /\ Forall P (l1 ++ l2).
Proof. rewrite !Forall_app, Forall_cons. tauto. Qed.
Lemma total_bounds f (P : activity -> Prop) lo hi (l : list activity) : Forall P l -> (forall a, P a -> lo <= Zsum f (code a) <= hi) ->
  lo * Z.of_nat (length l) <= total f l <= hi * Z.of_nat (length l).
Proof. intros H Hf. unfold total. induction H as [|a l Ha _ IH]; cbn [Zsum length]; [lia|]. pose proof (Hf a Ha). lia. Qed.
Lemma total_le f g (P : activity -> Prop) (l : list activity) : Forall P l -> (forall a, P a -> Zsum f (code a) <= Zsum g (code a)) -> total f l <= total g l.
Proof. intros H Hf. unfold total. induction H as [|a l Ha _ IH]; cbn [Zsum]; [lia|]. pose proof (Hf a Ha). lia. Qed.
Lemma borrowers_bounds (l : list activity) : 0 <= Zsum strong_borrower l <= Zsum borrower l.
Proof. induction l as [|a l IH]; cbn [Zsum]; [lia|]. assert (0 <= strong_borrower a <= borrower a) by (unfold strong_borrower, borrower; destruct (borrows a); lia). lia. Qed.

(** The share of the counts that an operation has: [code] adds or takes so much until it ends. *)
Definition has_strong (p : stmt) : Z :=
  match p with incStrong_inc | forceIncStrong_inc => -1 | decStrong_dec => 1 | returns g => gain_strong g | _ => 0 end.
Definition has_weak (p : stmt) : Z :=
  match p with
  | incWeak_inc => -1
  | decWeak_dec => 1
  | returns GotNothing => 0
  | returns _ => 1
  | attempt_load | attempt_cas _ | attempt_flags _ | first_cas _ | first_load | attempt_ask | attempt_inc => 1
  | _ => 0
  end.


Lemma enough_facts s w (l : list activity) : enough s w l = true <->
  0 <= s /\ 0 <= w /\ (0 < Zsum strong_borrower l -> 1 <= s) /\ (0 < Zsum borrower l -> 1 <= s + w) /\ s + w + Z.of_nat (length l) < INITIAL_STRONG_VALUE.
Proof.
  pose proof (borrowers_bounds l). unfold enough. rewrite !andb_true_iff, !orb_true_iff, !Z.leb_le, !Z.eqb_eq, Z.ltb_lt. lia.
Qed.
Definition lends b s w : Prop := match b with BorrowStrong => 1 <= s | BorrowAny => 1 <= s + w | BorrowNone => True end.

(** ** Invariants

    What a lifetime has to say: which code runs, what the totals of code that runs are
    like, and what the counts are, given what is held ([s], [w]) and these totals.  Its
    laws are about one operation; the totals [t] are those of the others. *)
Definition totals : Type := (stmt -> Z) -> Z.
Definition plus (t : totals) (k : list stmt) : totals := fun f => t f + Zsum f k.
Class Lifetime (agrees : bool) (mode : Z) := {
  shape : borrow -> list stmt -> Prop;
  share : totals -> Prop;
  counts_ok : Z -> Z -> totals -> counts -> Prop;
  share_ext t t' : (forall f, t f = t' f) -> share t -> share t';
  share_none : share (fun _ => 0);
  share_plus t k b : share t -> shape b k -> share (plus t k);
  shape_weak b k : shape b k -> Zsum has_weak k <= 1;
  counts_ext s w t t' r : (forall f, t f = t' f) -> counts_ok s w t r -> counts_ok s w t' r;
  counts_start s w t r o : counts_ok s w t r -> permitted o r = true ->
    shape (borrow_of o) (code_of o) /\ counts_ok (s - takes_strong o) (w - takes_weak o) (plus t (code_of o)) r;
  counts_return s w t r b g : shape b [returns g] -> counts_ok s w (plus t [returns g]) r -> counts_ok (s + gain_strong g) (w + gain_weak g) t r;
  counts_exec s w t n b p k r : shape b (p :: k) -> is_return p = false -> 0 <= s -> 0 <= w -> lends b s w -> s + w + n + 1 < INITIAL_STRONG_VALUE ->
    share t -> t has_weak <= n -> counts_ok s w (plus t (p :: k)) r ->
    exists l r', exec agrees p r = Ok (l, r') /\ shape b (l ++ k) /\ counts_ok s w (plus t (l ++ k)) r';
  shape_code b k : shape b k -> match k with [] | returns _ :: _ :: _ => False | _ => True end
}.

(** Each operation that runs can go on: it never uses what is gone. *)
Definition goes_on (agrees : bool) c : Prop := Forall (fun a => match code a with [returns _] => True | p :: _ => exists x, exec agrees p (object c) = Ok x | [] => False end) (running c).

Section Invariant.
Context {agrees : bool} {mode : Z} {Li : Lifetime agrees mode}.

Record inv c : Prop := {
  inv_held : enough (strong_held c) (weak_held c) (running c) = true;
  inv_code : Forall (fun a => shape (borrows a) (code a)) (running c);
  inv_counts : counts_ok (strong_held c) (weak_held c) (fun f => total f (running c)) (object c)
}.
Lemma totals_ok (l : list activity) : Forall (fun a => shape (borrows a) (code a)) l -> share (fun f => total f l) /\ total has_weak l <= Z.of_nat (length l).
Proof.
  intros H. induction H as [|a l Ha _ [IH1 IH2]]; [split; [apply share_none|done]|]. split.
  - eapply share_ext; [|exact (share_plus _ _ _ IH1 Ha)]. intros f. unfold plus, total. cbn. lia.
  - unfold total in *. cbn [Zsum length]. pose proof (shape_weak _ _ Ha). lia.
Qed.
(** What is known of one operation and the others. *)
Lemma inv_one s w (l1 l2 : list activity) b k r : inv (MkConfig s w (l1 ++ MkAct b k :: l2) r) ->
  let t : totals := fun f => total f (l1 ++ l2) in let n := Z.of_nat (length (l1 ++ l2)) in
  shape b k /\ Forall (fun a => shape (borrows a) (code a)) (l1 ++ l2) /\ 0 <= s /\ 0 <= w /\ lends b s w /\ s + w + n + 1 < INITIAL_STRONG_VALUE /\
  share t /\ t has_weak <= n /\ counts_ok s w (plus t k) r.
Proof.
  intros [Hh Hc H]. cbn [running object strong_held weak_held] in *. apply Forall_mid in Hc as [Hc Ho].
  destruct (totals_ok _ Ho) as (T1 & T2). apply enough_facts in Hh as (H1 & H2 & H3 & H4 & H5).
  rewrite !Zsum_mid, !length_app in *. cbn [length] in H5. pose proof (borrowers_bounds (l1 ++ l2)). split_and!; try done; try lia.
  - destruct b; cbn in *; lia.
  - eapply counts_ext; [|exact H]. intros f. apply total_mid.
Qed.
Lemma inv_start o c : inv c -> may_start o c = true -> inv (start o c).
Proof.
  intros [Hh Hc H] [He Hp]%andb_true_iff. destruct (counts_start _ _ _ _ o H Hp) as [Hs H']. split; [done|by constructor|].
  eapply counts_ext; [|exact H']. intros f. unfold plus, total. cbn. lia.
Qed.
Lemma inv_run s w (l1 l2 : list activity) b p k l r r' : inv (MkConfig s w (l1 ++ MkAct b (p :: k) :: l2) r) -> is_return p = false ->
  exec agrees p r = Ok (l, r') -> inv (MkConfig s w (l1 ++ MkAct b (l ++ k) :: l2) r').
Proof.
  intros H Hp Hx. destruct (inv_one _ _ _ _ _ _ _ H) as (Hk & Ho & H1 & H2 & H3 & H4 & H5 & H6 & Hc).
  destruct (counts_exec _ _ _ _ _ _ _ _ Hk Hp H1 H2 H3 H4 H5 H6 Hc) as (l' & r2 & Hx' & Hk' & Hc'). rewrite Hx in Hx'. injection Hx' as <- <-.
  split; cbn [running object strong_held weak_held].
  - pose proof (inv_held _ H) as Hh. apply enough_facts in Hh. apply enough_facts. cbn [running strong_held weak_held] in *.
    rewrite !Zsum_mid, !length_app in *. exact Hh.
  - by apply Forall_mid.
  - eapply counts_ext; [|exact Hc']. intros f. symmetry. apply total_mid.
Qed.
Lemma inv_return s w (l1 l2 : list activity) b g r : inv (MkConfig s w (l1 ++ MkAct b [returns g] :: l2) r) ->
  inv (MkConfig (s + gain_strong g) (w + gain_weak g) (l1 ++ l2) r).
Proof.
  intros H. destruct (inv_one _ _ _ _ _ _ _ H) as (Hk & Ho & H1 & H2 & H3 & H4 & H5 & H6 & Hc). split; [|done|by eapply counts_return].
  pose proof (inv_held _ H) as Hh. apply enough_facts in Hh as (_ & _ & Hs & Hb & Hn). apply enough_facts.
  cbn [running strong_held weak_held] in *. rewrite !Zsum_mid, !length_app in *. cbn [length] in *.
  assert (0 <= strong_borrower (MkAct b [returns g]) <= borrower (MkAct b [returns g])) by by destruct b. pose proof (borrowers_bounds (l1 ++ l2)).
  destruct g; cbn [gain_strong gain_weak]; lia.
Qed.
Lemma inv_step c c' : inv c -> step agrees c c' -> inv c'.
Proof. intros H Hs. destruct Hs; [by apply inv_start|by eapply inv_run|by eapply inv_return]. Qed.
Lemma inv_steps c c' : inv c -> rtc (step agrees) c c' -> inv c'.
Proof. induction 2; eauto using inv_step. Qed.

Lemma inv_safe c : inv c -> goes_on agrees c.
Proof.
  intros H. apply Forall_forall. intros [b k] Hin. destruct c as [s w run r]. apply list_elem_of_split in Hin as (l1 & l2 & E). cbn in E. subst run.
  destruct (inv_one _ _ _ _ _ _ _ H) as (Hk & Ho & H1 & H2 & H3 & H4 & H5 & H6 & Hc). cbn [code object].
  pose proof (shape_code _ _ Hk) as Hne. destruct k as [|p k]; [done|]. destruct (is_return p) eqn:Hp; [by destruct p, k|].
  destruct (counts_exec _ _ _ _ _ _ _ _ Hk Hp H1 H2 H3 H4 H5 H6 Hc) as (l & r' & Hx & _). destruct p; try done; by eexists.
Qed.
End Invariant.

Ltac decide_cases :=
  repeat (cbn in *; try (exfalso; lia); match goal with
  | H : context [?a =? ?b] |- _ => destruct (Z.eqb_spec a b)
  | |- context [?a =? ?b] => destruct (Z.eqb_spec a b)
  end).
Ltac decide_in_goal :=
  repeat (rewrite ?bind_Ok; cbn; try (exfalso; lia); match goal with
  | |- context [?a =? ?b] => destruct (Z.eqb_spec a b)
  | |- context [?a <? ?b] => destruct (Z.ltb_spec a b)
  | |- context [?a <=? ?b] => destruct (Z.leb_spec a b)
  end).
Lemma small_s32 z : - INITIAL_STRONG_VALUE <= z <= INITIAL_STRONG_VALUE -> s32 z = z.
Proof. intros H. apply s32_small. change INITIAL_STRONG_VALUE with (2 ^ 28) in H. lia. Qed.
Ltac unfold_control :=
  unfold incStrong_with, forceIncStrong_with, decStrong_with, decStrong_delete, destructor_with, destructor_flags, destructor_weak, decWeak_with, decWeak_last, decWeak_regular,
    decWeak_extended, attempt_loop, attempt_swapped, attempt_hard, attempt_extra, first_swapped, first_loop, fix_loop, attemptWeak_loop, attemptWeak_swapped,
    OBJECT_LIFETIME_STRONG, OBJECT_LIFETIME_WEAK, OBJECT_LIFETIME_MASK; change (Z.land 0 1) with 0; change (Z.land 1 1) with 1.

(** ** Objects of the regular lifetime *)

(** What runs while the strong count is below its initial value. *)
Inductive regular : borrow -> list stmt -> Prop :=
| rg_returns b g : regular b [returns g]
| rg_copy : regular BorrowStrong (code_of CopyStrong)
| rg_copy_strong : regular BorrowStrong [incStrong_inc; returns GotStrong]
| rg_copy_weak : regular BorrowAny (code_of CopyWeak)
| rg_promote : regular BorrowAny (code_of Promote)
| rg_load b : regular b [attempt_load]
| rg_cas b n : 0 < n < INITIAL_STRONG_VALUE -> regular b [attempt_cas n]
| rg_flags b n : n <= 0 -> regular b [attempt_flags n]
| rg_fix b : regular b fix_up
| rg_try : regular BorrowAny [attemptWeak_load]
| rg_try_cas n : 0 < n -> regular BorrowAny [attemptWeak_cas n]
| rg_drop_strong b : regular b (code_of DropStrong)
| rg_last b : regular b [call onLastStrongRef; decStrong_flags; decWeak_dec; returns GotNothing]
| rg_dying b p : p ∈ [decStrong_flags; dtor_strong; dtor_flags; dispose] -> regular b [p; decWeak_dec; returns GotNothing]
| rg_delete b : regular b [delete_base; dtor_strong; decWeak_dec; returns GotNothing]
| rg_drop_weak b : regular b (code_of DropWeak)
| rg_freeing b p : p ∈ [decWeak_flags; decWeak_strong; delete_refs] -> regular b [p; returns GotNothing].

(** What is still to be done: the last call, the destruction, the release of the object
    and of its counts. *)
Definition to_call (p : stmt) : Z := match p with call onLastStrongRef => 1 | _ => 0 end.
Definition to_destroy (p : stmt) : Z := match p with decStrong_flags | delete_base => 1 | _ => 0 end.
Definition to_dispose (p : stmt) : Z := match p with decStrong_flags | dtor_strong | dtor_flags | dispose => 1 | _ => 0 end.
Definition to_free (p : stmt) : Z := match p with decWeak_flags | decWeak_strong | delete_refs => 1 | _ => 0 end.

Definition regular_log (strong called destroyed : Z) (counts_left : bool) : list notice :=
  onFirstRef :: if negb (strong =? 0) then [] else if negb (called =? 0) then [] else onLastStrongRef ::
    if negb (destroyed =? 0) then [] else Destroyed :: if counts_left then [] else [Freed].
Definition regular_share (t : totals) : Prop :=
  0 <= t has_strong <= t has_weak /\ 0 <= t to_call <= t to_destroy /\ t to_destroy <= t to_dispose <= t has_weak /\ 0 <= t to_free.
Record regular_counts s w (t : totals) r : Prop := {
  ri_flags : mFlags r = OBJECT_LIFETIME_STRONG;
  ri_strong : mStrong r = s + t has_strong;
  ri_weak : mWeak r = s + w + t has_weak;
  ri_dispose : t to_dispose = if (mStrong r =? 0) && mBase r then 1 else 0;
  ri_base : mBase r = false -> mStrong r = 0;
  ri_free : t to_free = if (mWeak r =? 0) && impl r then 1 else 0;
  ri_impl : impl r = false -> mWeak r = 0;
  ri_log : log r = regular_log (mStrong r) (t to_call) (t to_destroy) (impl r)
}.

Ltac each_of Hin := rewrite !elem_of_cons, elem_of_nil in Hin; destruct_or! Hin; subst; try done.
Lemma regular_code b k : regular b k -> Zsum has_weak k <= 1 /\ regular_share (fun f => Zsum f k).
Proof.
  destruct 1 as [b []| | | | | | | | | | | | |b p Hp| | |b p Hp]; unfold regular_share; try (cbn; lia).
  all: each_of Hp; cbn; lia.
Qed.
Section Regular.
Variable agrees : bool.
Lemma regular_exec s w (t : totals) n b p k r : regular b (p :: k) -> is_return p = false -> 0 <= s -> 0 <= w -> lends b s w -> s + w + n + 1 < INITIAL_STRONG_VALUE ->
  regular_share t -> t has_weak <= n -> regular_counts s w (plus t (p :: k)) r ->
  exists l r', exec agrees p r = Ok (l, r') /\ regular b (l ++ k) /\ regular_counts s w (plus t (l ++ k)) r'.
Proof.
  intros Hc Hp Hs Hw Hb Hn (T1 & T2 & T3 & T4) Hwk [If Is Iw Id Ib Ifr Ii Il]. destruct r as [st wk fl ba im lg]. unfold plus in *.
  cbn [mStrong mWeak mFlags mBase impl log] in *. subst fl.
  revert Is Iw Il. inversion Hc as [| | | | | | | | | | | | |b' q Hin| | |b' q Hin]; subst; try done.
  13,16: each_of Hin.
  all: intros Is Iw Il; destruct im, ba; cbn in *; rewrite ?andb_true_r, ?andb_false_r in *; try (exfalso; lia).
  all: unfold exec; cbn; unfold android_atomic_add, android_atomic_cmpxchg; cbn; rewrite ?small_s32 by lia; unfold_control; decide_in_goal.
  all: do 2 eexists; (split; [reflexivity|]); cbn; split; [once (constructor; solve [done|lia|rewrite !elem_of_cons; auto 8])|].
  all: split; unfold plus; cbn; try done; try lia; rewrite ?andb_true_r, ?andb_false_r; try lia; unfold regular_log in *; decide_cases; first [done|lia|by rewrite Il].
Qed.

#[export] Program Instance regular_lifetimes : Lifetime agrees OBJECT_LIFETIME_STRONG := { shape := regular; share := regular_share; counts_ok := regular_counts }.
Next Obligation. intros t t' E. unfold regular_share. by rewrite !E. Qed.
Next Obligation. unfold regular_share. lia. Qed.
Next Obligation. intros t k b H [_ Hk]%regular_code. unfold regular_share, plus in *. lia. Qed.
Next Obligation. by intros b k []%regular_code. Qed.
Next Obligation. intros s w t t' r E []. by split; rewrite <- ?E. Qed.
Next Obligation.
  intros s w t r o [If Is Iw Id Ib Ifr Ii Il] Hp. destruct o; cbn in Hp; try (rewrite If in Hp; done).
  all: split; [constructor|split; unfold plus; cbn; rewrite ?Z.add_0_r; try done; lia].
Qed.
Next Obligation.
  intros s w t r b g _ [If Is Iw Id Ib Ifr Ii Il]. unfold plus in *. cbn in *. rewrite !Z.add_0_r in *.
  destruct g; split; cbn in *; rewrite ?Z.add_0_r; try done; lia.
Qed.
Next Obligation. intros. by eapply regular_exec. Qed.
Next Obligation. destruct 1 as [| | | | | | | | | | | | |b p Hin| | |b p Hin]; try done; each_of Hin. Qed.

End Regular.

(** ** Objects that live as long as weak references to them *)
Inductive extended : borrow -> list stmt -> Prop :=
| ex_returns b g : extended b [returns g]
| ex_copy : extended BorrowStrong (code_of CopyStrong)
| ex_copy_strong : extended BorrowStrong [incStrong_inc; returns GotStrong]
| ex_copy_weak : extended BorrowAny (code_of CopyWeak)
| ex_promote : extended BorrowAny (code_of Promote)
| ex_attempt b p : p ∈ [attempt_load; attempt_ask; attempt_inc] -> extended b [p]
| ex_cas b n : 0 < n < INITIAL_STRONG_VALUE -> extended b [attempt_cas n]
| ex_flags b n : n <= 0 -> extended b [attempt_flags n]
| ex_extra b : extended b (call onLastStrongRef :: fix_up)
| ex_fix b : extended b fix_up
| ex_try : extended BorrowAny [attemptWeak_load]
| ex_try_cas n : 0 < n -> extended BorrowAny [attemptWeak_cas n]
| ex_force : extended BorrowAny (code_of Force)
| ex_force_strong : extended BorrowAny [forceIncStrong_inc; returns GotStrong]
| ex_first b : extended b [call onFirstRef; returns GotStrong]
| ex_drop_strong b : extended b (code_of DropStrong)
| ex_last b : extended b [call onLastStrongRef; decStrong_flags; decWeak_dec; returns GotNothing]
| ex_stays b : extended b [decStrong_flags; decWeak_dec; returns GotNothing]
| ex_drop_weak b : extended b (code_of DropWeak)
| ex_dying b p : p ∈ [decWeak_flags; decWeak_lifetime; dtor_strong; dtor_flags; dtor_weak; dispose] -> extended b [p; returns GotNothing]
| ex_last_weak b : extended b [call onLastWeakRef; decWeak_lifetime; returns GotNothing]
| ex_delete b : extended b [delete_base; dtor_strong; returns GotNothing]
| ex_delete_refs b : extended b [delete_refs; dispose; returns GotNothing].

Definition weak_call (p : stmt) : Z := match p with decWeak_flags | call onLastWeakRef => 1 | _ => 0 end.
Definition weak_destroy (p : stmt) : Z := match p with decWeak_flags | decWeak_lifetime | delete_base => 1 | _ => 0 end.
Definition weak_free (p : stmt) : Z := match p with decWeak_flags | decWeak_lifetime | dtor_strong | dtor_flags | dtor_weak | delete_refs => 1 | _ => 0 end.
Definition weak_dispose (p : stmt) : Z := match p with decWeak_flags | decWeak_lifetime | dtor_strong | dtor_flags | dtor_weak | dispose => 1 | _ => 0 end.

(** What of the log is about the end of the object. *)
Definition ending (n : notice) : bool := match n with onLastWeakRef | Destroyed | Freed => true | _ => false end.
Definition ends (l : list notice) : list notice := List.filter ending l.
Lemma ends_snoc (l : list notice) n : ends (l ++ [n]) = ends l ++ if ending n then [n] else [].
Proof. unfold ends. rewrite List.filter_app. cbn. by destruct (ending n). Qed.
Definition extended_log (weak called destroyed : Z) (counts_left : bool) : list notice :=
  if negb (weak =? 0) then [] else if negb (called =? 0) then [] else onLastWeakRef ::
    if negb (destroyed =? 0) then [] else Destroyed :: if counts_left then [] else [Freed].
Definition extended_share (t : totals) : Prop :=
  0 <= t has_strong <= t has_weak /\ 0 <= t weak_call <= t weak_destroy /\ t weak_destroy <= t weak_free <= t weak_dispose.
Record extended_counts s w (t : totals) r : Prop := {
  ei_flags : mFlags r = OBJECT_LIFETIME_WEAK;
  ei_strong : mStrong r = s + t has_strong;
  ei_weak : mWeak r = s + w + t has_weak;
  ei_dispose : t weak_dispose = if (mWeak r =? 0) && mBase r then 1 else 0;
  ei_base : mBase r = false -> mWeak r = 0;
  ei_free : t weak_free = if (mWeak r =? 0) && impl r then 1 else 0;
  ei_impl : impl r = false -> mWeak r = 0;
  ei_log : ends (log r) = extended_log (mWeak r) (t weak_call) (t weak_destroy) (impl r)
}.
Lemma extended_code b k : extended b k -> Zsum has_weak k <= 1 /\ extended_share (fun f => Zsum f k).
Proof.
  destruct 1 as [b []| | | | |b p Hp| | | | | | | | | | | | | |b p Hp| | |]; unfold extended_share; try (cbn; lia).
  all: each_of Hp; cbn; lia.
Qed.
Section Extended.
Variable agrees : bool.
Lemma extended_exec s w (t : totals) n b p k r : extended b (p :: k) -> is_return p = false -> 0 <= s -> 0 <= w -> lends b s w -> s + w + n + 1 < INITIAL_STRONG_VALUE ->
  extended_share t -> t has_weak <= n -> extended_counts s w (plus t (p :: k)) r ->
  exists l r', exec agrees p r = Ok (l, r') /\ extended b (l ++ k) /\ extended_counts s w (plus t (l ++ k)) r'.
Proof.
  intros Hc Hp Hs Hw Hb Hn (T1 & T2 & T3) Hwk [If Is Iw Id Ib Ifr Ii Il]. destruct r as [st wk fl ba im lg]. unfold plus in *.
  cbn [mStrong mWeak mFlags mBase impl log] in *. subst fl.
  revert Is Iw Il. inversion Hc as [| | | | |b' q Hin| | | | | | | | | | | | | |b' q Hin| | |]; subst; try done.
  5,19: each_of Hin.
  all: intros Is Iw Il; destruct im, ba; cbn -[ends] in *; rewrite ?andb_true_r, ?andb_false_r in *; try (exfalso; lia).
  all: unfold exec; cbn -[ends]; unfold android_atomic_add, android_atomic_cmpxchg; cbn -[ends]; rewrite ?small_s32 by lia; unfold_control; decide_in_goal; try destruct agrees.
  all: do 2 eexists; (split; [reflexivity|]); cbn -[ends]; split; [once (constructor; solve [done|lia|rewrite !elem_of_cons; auto 8])|].
  all: split; unfold plus; cbn -[ends]; rewrite ?ends_snoc; cbn -[ends]; rewrite ?app_nil_r; try done; try lia; rewrite ?andb_true_r, ?andb_false_r; try lia; unfold extended_log in *; decide_cases; try first [done|lia|by rewrite Il].
Qed.

#[export] Program Instance extended_lifetimes : Lifetime agrees OBJECT_LIFETIME_WEAK := { shape := extended; share := extended_share; counts_ok := extended_counts }.
Next Obligation. intros t t' E. unfold extended_share. by rewrite !E. Qed.
Next Obligation. unfold extended_share. lia. Qed.
Next Obligation. intros t k b H [_ Hk]%extended_code. unfold extended_share, plus in *. lia. Qed.
Next Obligation. by intros b k []%extended_code. Qed.
Next Obligation. intros s w t t' r E []. by split; rewrite <- ?E. Qed.
Next Obligation.
  intros s w t r o [If Is Iw Id Ib Ifr Ii Il] Hp. destruct o.
  all: split; [once (constructor; done)|split; unfold plus; cbn -[ends]; rewrite ?Z.add_0_r; try done; lia].
Qed.
Next Obligation.
  intros s w t r b g _ [If Is Iw Id Ib Ifr Ii Il]. unfold plus in *. cbn -[ends] in *. rewrite !Z.add_0_r in *.
  destruct g; split; cbn -[ends] in *; rewrite ?Z.add_0_r; try done; lia.
Qed.
Next Obligation. intros. by eapply extended_exec. Qed.
Next Obligation. destruct 1 as [| | | | |b p Hin| | | | | | | | | | | | | |b p Hin| | |]; try done; each_of Hin. Qed.
End Extended.

(** ** The first steps

    A new object is known to one operation only, until this ends. *)
Section First.
Context {agrees : bool} {mode : Z} {Li : Lifetime agrees mode}.

Definition lone (k : list stmt) r : config := MkConfig 0 0 [MkAct BorrowNone k] r.
Lemma lone_step p k r c : is_return p = false -> step agrees (lone (p :: k) r) c ->
  exists l r', exec agrees p r = Ok (l, r') /\ c = lone (l ++ k) r'.
Proof.
  intros Hp Hs. inversion Hs as [o c' Hm|s w l1 l2 b q k' l r1 r' Hq Hx [E1 E2 E E3]|s w l1 l2 b g r1 [E1 E2 E E3]]; subst.
  - exfalso. unfold may_start, enough in Hm. destruct o; vm_compute in Hm; done.
  - destruct l1 as [|? []]; [|done..]. cbn in E. simplify_eq. by exists l, r'.
  - destruct l1 as [|? []]; [|done..]. cbn in E. by simplify_eq.
Qed.
Inductive leads : list stmt -> counts -> Prop :=
| leads_inv k r : inv (lone k r) -> leads k r
| leads_on p k r l r' : is_return p = false -> log r = [] -> exec agrees p r = Ok (l, r') -> leads (l ++ k) r' -> leads (p :: k) r.
Definition beginning c : Prop := exists p k r, c = lone (p :: k) r /\ is_return p = false /\ log r = [] /\ exists x, exec agrees p r = Ok x.
Lemma leads_reached k r c : leads k r -> rtc (step agrees) (lone k r) c -> beginning c \/ inv c.
Proof.
  intros H Hs. remember (lone k r) as c0 eqn:E. revert k r H E. induction Hs as [c|c1 c2 c3 Hs Hr IH]; intros k r H ->.
  - destruct H as [|p k r l r' Hp Hl Hx _]; [by right|left]. exists p, k, r. split_and!; try done. by eexists.
  - destruct H as [k r H|p k r l r' Hp Hl Hx H].
    + right. eapply inv_steps; [|exact Hr]. by eapply inv_step.
    + destruct (lone_step _ _ _ _ Hp Hs) as (l' & r2 & Hx' & ->). rewrite Hx in Hx'. injection Hx' as <- <-. by eapply IH.
Qed.
Lemma beginning_safe c : beginning c -> goes_on agrees c /\ log (object c) = [] /\ strong_held c = 0 /\ weak_held c = 0 /\ running c ≠ [].
Proof.
  intros (p & k & r & -> & Hp & Hl & Hx). split_and!; try done. constructor; [|constructor]. cbn. by destruct p.
Qed.
End First.

Section Lifetimes.
Variable agrees : bool.

(** [sp<T> p = new T] *)
Definition new_object : config := lone (code_of CopyStrong) weakref_impl.
Lemma new_object_leads : @leads agrees OBJECT_LIFETIME_STRONG _ (code_of CopyStrong) weakref_impl.
Proof.
  do 4 (eapply leads_on; [done|done|vm_compute; reflexivity|]; cbn [app]).
  apply leads_inv. split; [done|repeat constructor|by split].
Qed.

(** C19: objects of the regular lifetime.  However the operations of any number of threads
    interleave, no operation uses the object or its counts after they are gone; the
    object sees its first reference, its last one, its destruction and the release of its
    counts once each and in this order; while a strong reference is held it has only seen
    the first; once nothing is held and nothing runs, all of it has happened; and when
    nothing runs the counts are those of the references held. *)
Theorem regular_lifetime c : rtc (step agrees) new_object c ->
  goes_on agrees c /\ log (object c) `prefix_of` [onFirstRef; onLastStrongRef; Destroyed; Freed] /\
  (1 <= strong_held c -> mBase (object c) = true /\ log (object c) = [onFirstRef]) /\
  (running c = [] -> mStrong (object c) = strong_held c /\ mWeak (object c) = strong_held c + weak_held c /\
    (strong_held c = 0 -> mBase (object c) = false) /\
    (strong_held c + weak_held c = 0 -> log (object c) = [onFirstRef; onLastStrongRef; Destroyed; Freed])).
Proof.
  intros [(H1 & H2 & H3 & H4 & H5)%beginning_safe|H]%(leads_reached _ _ _ new_object_leads).
  { rewrite H2, H3. split_and!; [done|apply prefix_nil|lia|done]. }
  split; [exact (inv_safe _ H)|]. pose proof H as [Hh Hc [If Is Iw Id Ib Ifr Ii Il]]. destruct (totals_ok _ Hc) as [(T1 & T2 & T3 & T4) _].
  apply enough_facts in Hh as (H1 & H2 & H3 & H4 & H5). split_and!.
  - rewrite Il. unfold regular_log. repeat case_match; solve [by eexists].
  - intros Hs. assert (mStrong (object c) ≠ 0) as Hn by lia. split; [destruct (mBase (object c)); [done|by rewrite Ib in Hn]|].
    rewrite Il. unfold regular_log. by rewrite (proj2 (Z.eqb_neq _ _) Hn).
  - intros Hr. rewrite Hr in *. cbn in Is, Iw, Id, Ifr, Il. rewrite !Z.add_0_r in *. split_and!; [done|done|intros Hz; rewrite Is, Hz in Id; by destruct (mBase _)|].
    intros Hz. rewrite Il. rewrite Iw, Hz in Ifr. rewrite Is. unfold regular_log. replace (strong_held c) with 0 by lia. by destruct (impl _).
Qed.

(** The same for a class whose constructor calls [extendObjectLifetime]. *)
Definition new_extended : config := lone (extendObjectLifetime OBJECT_LIFETIME_WEAK ++ code_of CopyStrong) weakref_impl.
Lemma new_extended_leads : @leads agrees OBJECT_LIFETIME_WEAK _ (extendObjectLifetime OBJECT_LIFETIME_WEAK ++ code_of CopyStrong) weakref_impl.
Proof.
  do 5 (eapply leads_on; [done|done|vm_compute; reflexivity|]; cbn [app]).
  apply leads_inv. split; [done|repeat constructor|by split].
Qed.

(** C20: objects that extend their lifetime.  However the operations of any number of
    threads interleave, reviving the object after its last strong reference included, no
    operation uses the object or its counts after they are gone; while any reference is
    held the object is there; and after the last one is dropped the object is told once,
    destroyed once and its counts are released once, in this order. *)
Theorem extended_lifetime c : rtc (step agrees) new_extended c ->
  goes_on agrees c /\ ends (log (object c)) `prefix_of` [onLastWeakRef; Destroyed; Freed] /\
  (1 <= strong_held c + weak_held c -> mBase (object c) = true /\ ends (log (object c)) = []) /\
  (running c = [] -> mStrong (object c) = strong_held c /\ mWeak (object c) = strong_held c + weak_held c /\
    (strong_held c + weak_held c = 0 -> mBase (object c) = false /\ ends (log (object c)) = [onLastWeakRef; Destroyed; Freed])).
Proof.
  intros [(H1 & H2 & H3 & H4 & H5)%beginning_safe|H]%(leads_reached _ _ _ new_extended_leads).
  { rewrite H2, H3, H4. split_and!; [done|apply prefix_nil|lia|done]. }
  split; [exact (inv_safe _ H)|]. pose proof H as [Hh Hc [If Is Iw Id Ib Ifr Ii Il]]. destruct (totals_ok _ Hc) as [(T1 & T2 & T3) _].
  apply enough_facts in Hh as (H1 & H2 & H3 & H4 & H5). split_and!.
  - rewrite Il. unfold extended_log. repeat case_match; solve [apply prefix_nil|by eexists].
  - intros Hs. assert (mWeak (object c) ≠ 0) as Hn by lia. split; [destruct (mBase (object c)); [done|by rewrite Ib in Hn]|].
    rewrite Il. unfold extended_log. by rewrite (proj2 (Z.eqb_neq _ _) Hn).
  - intros Hr. rewrite Hr in *. cbn -[ends] in Is, Iw, Id, Ifr, Il. rewrite !Z.add_0_r in *. split_and!; [done|done|].
    intros Hz. rewrite Iw, Hz in *. split; [by destruct (mBase _)|]. rewrite Il. unfold extended_log. by destruct (impl _).
Qed.
End Lifetimes.

(** ** Schedules *)
Section Schedules.
Variable agrees : bool.
Definition sched (i : nat) (c : config) : option config :=
  a ← running c !! i;
  let l1 := take i (running c) in let l2 := drop (S i) (running c) in
  match code a with
  | [returns g] => Some (MkConfig (strong_held c + gain_strong g) (weak_held c + gain_weak g) (l1 ++ l2) (object c))
  | p :: k =>
      if is_return p then None else
      match exec agrees p (object c) with
      | Ok (l, r) => Some (MkConfig (strong_held c) (weak_held c) (l1 ++ MkAct (borrows a) (l ++ k) :: l2) r)
      | Fault _ => None
      end
  | [] => None
  end.
Definition begin (o : operation) (c : config) : option config :=
  if may_start o c then Some (start o c) else None.
Lemma sched_step i c c' : sched i c = Some c' -> step agrees c c'.
Proof.
  unfold sched. intros H. destruct (running c !! i) as [[b k]|] eqn:Ei; [|done]. cbn in H. destruct c as [s w run r]. cbn [running strong_held weak_held object] in *.
  rewrite <- (take_drop_middle run i _ Ei). destruct k as [|p k]; [done|].
  destruct (is_return p) eqn:Ep.
  - destruct p; try done. destruct k; [|done]. injection H as <-. apply step_return.
  - destruct (exec agrees p r) as [[l r']|] eqn:Ex; [|by destruct p, k]. assert (c' = MkConfig s w (take i run ++ MkAct b (l ++ k) :: drop (S i) run) r') as ->.
    { destruct p; try done; by injection H as <-. }
    by apply step_run.
Qed.
Lemma begin_step o c c' : begin o c = Some c' -> step agrees c c'.
Proof. unfold begin. case_match; [|done]. intros [= <-]. by apply step_start. Qed.
(** A schedule: which operation takes a step, or which begins. *)
Fixpoint play (l : list (nat + operation)) (c : config) : option config :=
  match l with
  | [] => Some c
  | x :: l => c ← match x with inl i => sched i c | inr o => begin o c end; play l c
  end.
Lemma play_steps (l : list (nat + operation)) c c' : play l c = Some c' -> rtc (step agrees) c c'.
Proof.
  revert c. induction l as [|x l IH]; intros c H; [injection H as ->; done|]. cbn in H.
  destruct x as [i|o]; [destruct (sched i c) eqn:E|destruct (begin o c) eqn:E]; try done; (eapply rtc_l; [|by apply IH]).
  - by eapply sched_step.
  - by eapply begin_step.
Qed.

(** ** The first reference *)

(** [wp<T> w = raw] was made, and its maker is at [sp<T> s = raw]. *)
Definition shared_object : config := MkConfig 0 1 [MkAct BorrowNone (code_of CopyStrong)] (set_mWeak weakref_impl 1).
Definition race : list (nat + operation) := [inr Promote; inl 1; inl 1; inl 0; inl 0; inl 0; inl 0; inl 0; inl 0; inl 0; inl 0; inl 0]%nat.
Definition raced : config := MkConfig 2 1 [] (MkCounts (2 - INITIAL_STRONG_VALUE) 3 0 true true [onFirstRef]).

(** C21: the first reference can be counted away twice.  When the first strong reference
    to an object is made while another thread promotes a weak one, both may take the
    initial value off the strong count: two references are held and the count is
    2 - 2^28.  Then promoting fails although the object is alive, and when all references
    are dropped the counts are released but the object is never destroyed. *)
Theorem first_reference_race : rtc (step agrees) shared_object raced /\
  rtc (step agrees) raced (MkConfig 2 1 [MkAct BorrowAny [returns GotNothing]] (object raced)) /\
  exists r, rtc (step agrees) raced (MkConfig 0 0 [] r) /\ mBase r = true /\ impl r = false /\ log r = [onFirstRef; Freed].
Proof.
  split; [apply (play_steps race); vm_compute; reflexivity|].
  split; [apply (play_steps ([inr Promote] ++ replicate 4 (inl 0%nat))); vm_compute; reflexivity|].
  exists (MkCounts (- INITIAL_STRONG_VALUE) 0 0 true false [onFirstRef; Freed]). split; [|done].
  apply (play_steps ([inr DropStrong; inr DropStrong; inr DropWeak] ++ replicate 11 (inl 0%nat))). vm_compute. reflexivity.
Qed.
End Schedules.

(** ** A life *)
(** A weak reference outlives the strong one, and promoting it races with the last drop. *)
Definition a_life : list (nat + operation) :=
  replicate 5 (inl 0%nat) ++ [inr CopyWeak; inl 0%nat; inl 0%nat; inr DropStrong; inr Promote; inl 1%nat] ++ replicate 11 (inl 0%nat) ++ [inr DropWeak] ++ replicate 7 (inl 0%nat).
(** The weak reference revives the object; then both are dropped. *)
Definition a_revival : list (nat + operation) :=
  replicate 6 (inl 0%nat) ++ [inr CopyWeak; inl 0%nat; inl 0%nat; inr DropStrong; inr Promote; inl 1%nat] ++ replicate 11 (inl 0%nat) ++ [inr DropStrong; inr DropWeak] ++
    replicate 16 (inl 0%nat).
Definition lived (l : list (nat + operation)) (start : config) : config := default start (play true l start).
Lemma lived_reached (l : list (nat + operation)) (start : config) : is_Some (play true l start) -> rtc (step true) start (lived l start).
Proof. unfold lived. intros [c Hc]. rewrite Hc. by apply (play_steps true l). Qed.
Lemma a_life_lived : is_Some (play true a_life new_object).
Proof. eexists. vm_compute. reflexivity. Qed.
Lemma a_revival_lived : is_Some (play true a_revival new_extended).
Proof. eexists. vm_compute. reflexivity. Qed.
Lemma regular_lifetime_witness : let c := lived a_life new_object in
  goes_on true c /\ log (object c) `prefix_of` [onFirstRef; onLastStrongRef; Destroyed; Freed] /\
  (1 <= strong_held c -> mBase (object c) = true /\ log (object c) = [onFirstRef]) /\
  (running c = [] -> mStrong (object c) = strong_held c /\ mWeak (object c) = strong_held c + weak_held c /\
    (strong_held c = 0 -> mBase (object c) = false) /\
    (strong_held c + weak_held c = 0 -> log (object c) = [onFirstRef; onLastStrongRef; Destroyed; Freed])).
Proof. exact (regular_lifetime true (lived a_life new_object) (lived_reached a_life new_object a_life_lived)). Defined.
Lemma extended_lifetime_witness : let c := lived a_revival new_extended in
  goes_on true c /\ ends (log (object c)) `prefix_of` [onLastWeakRef; Destroyed; Freed] /\
  (1 <= strong_held c + weak_held c -> mBase (object c) = true /\ ends (log (object c)) = []) /\
  (running c = [] -> mStrong (object c) = strong_held c /\ mWeak (object c) = strong_held c + weak_held c /\
    (strong_held c + weak_held c = 0 -> mBase (object c) = false /\ ends (log (object c)) = [onLastWeakRef; Destroyed; Freed])).
Proof. exact (extended_lifetime true (lived a_revival new_extended) (lived_reached a_revival new_extended a_revival_lived)). Defined.
Example a_life_ends : lived a_life new_object = MkConfig 0 0 [] (MkCounts 0 0 0 false false [onFirstRef; onLastStrongRef; Destroyed; Freed]).
Proof. vm_compute. reflexivity. Qed.
Example a_revival_ends : lived a_revival new_extended =
  MkConfig 0 0 [] (MkCounts 0 0 1 false false [onFirstRef; onIncStrongAttempted; onLastStrongRef; onLastStrongRef; onLastWeakRef; Destroyed; Freed]).
Proof. vm_compute. reflexivity. Qed.
