(* ===== verification/Unicode.v ===== *)
(** * Strings in UTF-8, UTF-16 and UTF-32 (libs/utils/Unicode.cpp, String8.cpp, String16.cpp)

    The conversions between the encodings and the sizes that are measured for them.  A
    string is a list of bytes or units; a function that follows lead bytes may read
    beyond the length it was given, so that what it reads is [mem], the whole of the
    memory from the string on, and a read outside of it is a fault. *)
From S2P Require Import Prelude.

Implicit Types (c x : Z) (ws mem l : list Z) (i n fuel : nat).

(** ** Code points *)
Definition u8 x : Z := x mod 2 ^ 8.
Definition u16 x : Z := x mod 2 ^ 16.
Definition s8 x : Z := if x <? 2 ^ 7 then x else x - 2 ^ 8.
Definition kByteMask : Z := 0xBF.
Definition kByteMark : Z := 0x80.
Definition kUnicodeSurrogateStart : Z := 0xD800.
Definition kUnicodeSurrogateEnd : Z := 0xDFFF.
Definition kUnicodeMaxCodepoint : Z := 0x10FFFF.
Definition kFirstByteMark : list Z := [0; 0; 0xC0; 0xE0; 0xF0].

Definition utf32_codepoint_utf8_length c : nat :=
  if c <? 0x80 then 1%nat
  else if c <? 0x800 then 2%nat
  else if c <? 0x10000 then if (c <? kUnicodeSurrogateStart) || (kUnicodeSurrogateEnd <? c) then 3%nat else 0%nat
  else if c <=? kUnicodeMaxCodepoint then 4%nat else 0%nat.

(** The cases fall through, from the last byte to the first. *)
Fixpoint put_units8 (todo : nat) (mark c : Z) l : list Z :=
  match todo with
  | O => l
  | 1%nat => u8 (Z.lor c mark) :: l
  | S todo => put_units8 todo mark (Z.shiftr c 6) (u8 (Z.land (Z.lor c kByteMark) kByteMask) :: l)
  end.
Definition utf32_codepoint_to_utf8 c (bytes : nat) : list Z := put_units8 bytes (nth bytes kFirstByteMark 0) c [].

(** ** From UTF-32 *)
Definition utf32_to_utf8_length ws : Z :=
  match ws with [] => -1 | _ => Zsum (fun c => Z.of_nat (utf32_codepoint_utf8_length c)) ws end.
(** The bytes that are stored. *)
Definition utf32_to_utf8 ws : list Z :=
  match ws with [] => [] | _ => (ws ≫= fun c => utf32_codepoint_to_utf8 c (utf32_codepoint_utf8_length c)) ++ [0] end.

(** ** From UTF-16 *)
Definition high_surrogate c : bool := Z.land c 0xFC00 =? 0xD800.
Definition low_surrogate c : bool := Z.land c 0xFC00 =? 0xDC00.
Definition surrogate_pair c x : Z := Z.lor (Z.shiftl (c - 0xD800) 10) (x - 0xDC00) + 0x10000.
Definition put_codepoint c : list Z := utf32_codepoint_to_utf8 c (utf32_codepoint_utf8_length c).
Fixpoint utf16_to_utf8_loop ws : list Z :=
  match ws with
  | [] => [0]
  | c :: ws1 =>
      match ws1 with
      | x :: ws2 =>
          if high_surrogate c && low_surrogate x then put_codepoint (surrogate_pair c x) ++ utf16_to_utf8_loop ws2
          else put_codepoint c ++ utf16_to_utf8_loop ws1
      | [] => put_codepoint c ++ utf16_to_utf8_loop ws1
      end
  end.
Definition utf16_to_utf8 ws : list Z := match ws with [] => [] | _ => utf16_to_utf8_loop ws end.

(** After a high surrogate the next unit is looked at in place of it. *)
Fixpoint utf16_length_loop ws : Z :=
  match ws with
  | [] => 0
  | c :: ws1 =>
      match ws1 with
      | x :: ws2 =>
          if high_surrogate c then
            if low_surrogate x then 4 + utf16_length_loop ws2
            else Z.of_nat (utf32_codepoint_utf8_length x) + utf16_length_loop ws2
          else Z.of_nat (utf32_codepoint_utf8_length c) + utf16_length_loop ws1
      | [] => Z.of_nat (utf32_codepoint_utf8_length c) + utf16_length_loop ws1
      end
  end.
Definition utf16_to_utf8_length ws : Z := match ws with [] => -1 | _ => utf16_length_loop ws end.

(** ** From UTF-8 *)
Definition rd mem i : res Z := deref (mem !! i).
Definition utf8_codepoint_len c : nat := Z.to_nat (Z.land (Z.shiftr 0xe5000000 (Z.land (Z.shiftr c 3) 0x1e)) 3 + 1).
Definition utf8_shift_and_mask (codePoint byte : Z) : Z := u32 (Z.lor (Z.shiftl codePoint 6) (Z.land 0x3F byte)).
Fixpoint more_bytes (todo : nat) mem i (codePoint : Z) : res Z :=
  match todo with
  | O => Ok codePoint
  | S todo => b ← rd mem i; more_bytes todo mem (S i) (utf8_shift_and_mask codePoint b)
  end.
Definition utf8_to_utf32_codepoint mem i (length : nat) : res Z :=
  b ← rd mem i;
  match length with
  | 1%nat => Ok b
  | 2%nat => more_bytes 1 mem (S i) (Z.land b 0x1f)
  | 3%nat => more_bytes 2 mem (S i) (Z.land b 0x0f)
  | 4%nat => more_bytes 3 mem (S i) (Z.land b 0x07)
  | _ => Ok 0xffff
  end.

(** The loops take a round per byte at most. *)
Fixpoint utf8_measure fuel mem i n (len : Z) : res Z :=
  if (i <? n)%nat then
    match fuel with
    | O => Fault HANG
    | S fuel =>
        b ← rd mem i;
        let k := utf8_codepoint_len b in
        c ← utf8_to_utf32_codepoint mem i k;
        utf8_measure fuel mem (i + k) n (if 0xFFFF <? c then len + 2 else len + 1)
    end
  else Ok (if (i =? n)%nat then len else -1).
Definition utf8_to_utf16_length mem n : res Z := utf8_measure n mem 0 n 0.

Definition put_utf16 c : list Z :=
  if c <=? 0xFFFF then [c] else [u16 (Z.shiftr (c - 0x10000) 10 + 0xD800); u16 (Z.land (c - 0x10000) 0x3FF + 0xDC00)].
Fixpoint utf8_convert fuel mem i n : res (list Z) :=
  if (i <? n)%nat then
    match fuel with
    | O => Fault HANG
    | S fuel =>
        b ← rd mem i;
        let k := utf8_codepoint_len b in
        c ← utf8_to_utf32_codepoint mem i k;
        l ← utf8_convert fuel mem (i + k) n;
        Ok (put_utf16 c ++ l)
    end
  else Ok [].
Definition utf8_to_utf16_no_null_terminator mem n : res (list Z) := utf8_convert n mem 0 n.
Definition utf8_to_utf16 mem n : res (list Z) := l ← utf8_to_utf16_no_null_terminator mem n; Ok (l ++ [0]).

(** Units that fit in [room]; the result ends before a pair that does not. *)
Fixpoint utf8_convert_n fuel mem i n (room : nat) : res (list Z) :=
  if (i <? n)%nat && negb (room =? 0)%nat then
    match fuel with
    | O => Fault HANG
    | S fuel =>
        b ← rd mem i;
        let k := utf8_codepoint_len b in
        c ← utf8_to_utf32_codepoint mem i k;
        if c <=? 0xFFFF then l ← utf8_convert_n fuel mem (i + k) n (room - 1); Ok (c :: l)
        else if (room =? 1)%nat then Ok []
        else l ← utf8_convert_n fuel mem (i + k) n (room - 2); Ok (put_utf16 c ++ l)
    end
  else Ok [].
Definition utf8_to_utf16_n mem n (room : nat) : res (list Z) := utf8_convert_n n mem 0 n room.

(** A [char] is signed on x86. *)
Section Char.
Variable signed_char : bool.
Definition char_of x : Z := if signed_char then s8 x else x.

(** From a lead byte: the bytes that follow, and what they give.  Shifts are those of
    unbounded integers, cut to 32 bits (beyond the width they are undefined: lead bytes
    from 0xFE on). *)
Fixpoint lead_loop fuel mem i first_char mask to_ignore_mask (num_to_read utf32 : Z) : res (Z * Z) :=
  if Z.land first_char mask =? 0 then
    Ok (u32 (Z.land utf32 (Z.lnot (Z.shiftl (Z.lor to_ignore_mask mask) (6 * (num_to_read - 1))))), num_to_read)
  else
    match fuel with
    | O => Fault HANG
    | S fuel =>
        b ← rd mem i;
        lead_loop fuel mem (S i) first_char (Z.shiftr mask 1) (Z.lor to_ignore_mask mask) (num_to_read + 1) (u32 (Z.shiftl utf32 6 + Z.land b 0x3F))
    end.
Definition utf32_at_internal mem i : res (Z * Z) :=
  b ← rd mem i;
  let first_char := char_of b in
  if Z.land first_char 0x80 =? 0 then Ok (b, 1)
  else '(c, k) ← lead_loop 7 mem (S i) first_char 0x40 0xFFFFFF80 1 (u32 first_char); Ok (s32 c, k).
(** The value and the next index. *)
Definition utf32_from_utf8_at mem (src_len index : nat) : res (Z * option Z) :=
  if (src_len <=? index)%nat then Ok (-1, None)
  else '(c, k) ← utf32_at_internal mem index; Ok (c, if 0 <=? c then Some (Z.of_nat index + k) else None).
Fixpoint utf8_to_utf32_loop fuel mem i n : res (list Z) :=
  if (i <? n)%nat then
    match fuel with
    | O => Fault HANG
    | S fuel => '(c, k) ← utf32_at_internal mem i; l ← utf8_to_utf32_loop fuel mem (i + Z.to_nat k) n; Ok (u32 c :: l)
    end
  else Ok [].
Definition utf8_to_utf32 mem n : res (list Z) := if (n =? 0)%nat then Ok [] else l ← utf8_to_utf32_loop n mem 0 n; Ok (l ++ [0]).

(** The number of ones after the first. *)
Fixpoint leading fuel first_char mask (num_to_skip : nat) : nat :=
  match fuel with
  | O => num_to_skip
  | S fuel => if Z.land first_char mask =? 0 then num_to_skip else leading fuel first_char (Z.shiftr mask 1) (S num_to_skip)
  end.
Fixpoint utf8_to_utf32_count fuel mem i n (ret : Z) : res Z :=
  if (i <? n)%nat then
    match fuel with
    | O => Fault HANG
    | S fuel =>
        b ← rd mem i;
        let first_char := char_of b in
        utf8_to_utf32_count fuel mem (i + if Z.land first_char 0x80 =? 0 then 1%nat else leading 7 first_char 0x40 1) n (ret + 1)
    end
  else Ok ret.
Definition utf8_to_utf32_length mem n : res Z := utf8_to_utf32_count n mem 0 n 0.

(** [utf8_length]: of the string up to its zero byte. *)
Fixpoint continuation fuel mem i first_char mask to_ignore_mask (num_to_read utf32 : Z) : res (option (Z * Z * Z * Z)) :=
  if (num_to_read <? 5) && negb (Z.land first_char mask =? 0) then
    match fuel with
    | O => Fault HANG
    | S fuel =>
        b ← rd mem i;
        if negb (Z.land (char_of b) 0xC0 =? 0x80) then Ok None else
        continuation fuel mem (S i) first_char (Z.shiftr mask 1) (Z.lor to_ignore_mask mask) (num_to_read + 1) (u32 (Z.shiftl utf32 6 + Z.land b 0x3F))
    end
  else Ok (Some (mask, to_ignore_mask, num_to_read, utf32)).
Fixpoint utf8_length_loop fuel mem i (ret : Z) : res Z :=
  match fuel with
  | O => Fault HANG
  | S fuel =>
      b ← rd mem i;
      let first_char := char_of b in
      if first_char =? 0 then Ok ret
      else if Z.land first_char 0x80 =? 0 then utf8_length_loop fuel mem (S i) (ret + 1)
      else if Z.land first_char 0x40 =? 0 then Ok (-1)
      else
        r ← continuation 4 mem (S i) first_char 0x40 0x80 1 0;
        match r with
        | None => Ok (-1)
        | Some (mask, to_ignore_mask, num_to_read, utf32) =>
            if num_to_read =? 5 then Ok (-1) else
            let to_ignore_mask := Z.lor to_ignore_mask mask in
            let utf32 := Z.lor utf32 (u32 (Z.shiftl (Z.land (Z.lnot to_ignore_mask) first_char) (6 * (num_to_read - 1)))) in
            if kUnicodeMaxCodepoint <? utf32 then Ok (-1)
            else utf8_length_loop fuel mem (i + Z.to_nat num_to_read) (ret + num_to_read)
        end
  end.
Definition utf8_length mem : res Z := utf8_length_loop (S (length mem)) mem 0 0.
End Char.

(** ** Arithmetic of the bytes *)
Lemma lor_add x y k : 0 <= k -> 0 <= y < 2 ^ k -> Z.lor (Z.shiftl x k) y = x * 2 ^ k + y.
Proof.
  intros Hk Hy. rewrite Z.shiftl_mul_pow2 by done. pose proof (Z.add_lor_land (x * 2 ^ k) y) as H.
  assert (Z.land (x * 2 ^ k) y = 0) as E; [|lia].
  rewrite <- (Z.mod_small y (2 ^ k)) by lia. rewrite <- Z.land_ones by done. rewrite (Z.land_comm y), Z.land_assoc, Z.land_ones by done.
  by rewrite Z.mod_mul by lia.
Qed.
Lemma check_below (P : Z -> bool) b : forall m : nat, forallb P (Z.of_nat <$> seq 0 m) = true -> 0 <= b < Z.of_nat m -> P b = true.
Proof.
  intros m H Hb. apply (proj1 (forallb_forall _ _) H). apply list_elem_of_In, list_elem_of_fmap. exists (Z.to_nat b). split; [lia|]. apply elem_of_seq. lia.
Qed.
Lemma land_mod256 x m : 0 <= m < 256 -> Z.land x m = Z.land (x mod 256) m.
Proof.
  intros Hm. rewrite <- (Z.mod_small m 256) at 1 by lia. change 256 with (2 ^ 8). rewrite <- !Z.land_ones by done.
  by rewrite (Z.land_comm m), Z.land_assoc.
Qed.
Lemma trail_byte c : u8 (Z.land (Z.lor c kByteMark) kByteMask) = 128 + c mod 64.
Proof.
  unfold u8, kByteMark, kByteMask. rewrite land_mod256 by lia.
  assert (Z.lor c 128 mod 256 = Z.lor (c mod 256) 128) as ->.
  { change 256 with (2 ^ 8). rewrite <- !Z.land_ones by done. by rewrite Z.land_lor_distr_l. }
  assert (c mod 64 = (c mod 256) mod 64) as -> by (change 256 with (64 * 4); rewrite Z.rem_mul_r, (Z.mul_comm 64), Z.mod_add, Z.mod_mod; lia).
  apply Z.eqb_eq. apply (check_below (fun r => Z.land (Z.lor r 128) 191 mod 2 ^ 8 =? 128 + r mod 64) _ 256); [by vm_compute|]. apply Z.mod_pos_bound. lia.
Qed.
Lemma follow_byte x y : 0 <= x < 2 ^ 20 -> 0 <= y < 64 -> utf8_shift_and_mask x (128 + y) = x * 64 + y.
Proof.
  intros Hx Hy. unfold utf8_shift_and_mask. assert (Z.land 63 (128 + y) = y) as ->.
  { apply Z.eqb_eq. apply (check_below (fun y => Z.land 63 (128 + y) =? y) _ 64); [by vm_compute|done]. }
  rewrite lor_add by lia. apply u32_small. lia.
Qed.
Lemma shift6 c : Z.shiftr c 6 = c / 64.
Proof. by rewrite Z.shiftr_div_pow2. Qed.

(** ** The encodings *)
Definition scalar c : Prop := 0 <= c <= kUnicodeMaxCodepoint /\ (c < kUnicodeSurrogateStart \/ kUnicodeSurrogateEnd < c).
Definition encode8 c : list Z :=
  if c <? 0x80 then [c]
  else if c <? 0x800 then [192 + c / 64; 128 + c mod 64]
  else if c <? 0x10000 then [224 + c / 64 / 64; 128 + c / 64 mod 64; 128 + c mod 64]
  else [240 + c / 64 / 64 / 64; 128 + c / 64 / 64 mod 64; 128 + c / 64 mod 64; 128 + c mod 64].
Definition encode16 c : list Z := if c <=? 0xFFFF then [c] else [0xD800 + (c - 0x10000) / 1024; 0xDC00 + (c - 0x10000) mod 1024].

Ltac cases_of c :=
  destruct (Z.ltb_spec c 0x80); [|destruct (Z.ltb_spec c 0x800); [|destruct (Z.ltb_spec c 0x10000)]]; try lia.
Lemma length_encode8 c : scalar c -> length (encode8 c) = utf32_codepoint_utf8_length c.
Proof.
  intros [Hc Hs]. unfold encode8, utf32_codepoint_utf8_length. unfold kUnicodeSurrogateStart, kUnicodeSurrogateEnd, kUnicodeMaxCodepoint in *. cases_of c; try done.
  - destruct (Z.ltb_spec c 0xD800); [done|]. by rewrite (proj2 (Z.ltb_lt _ _)) by lia.
  - by rewrite (proj2 (Z.leb_le _ _)) by lia.
Qed.
Lemma first_byte q m n : 0 <= q < Z.of_nat n -> forallb (fun q => u8 (Z.lor q m) =? m + q) (Z.of_nat <$> seq 0 n) = true -> u8 (Z.lor q m) = m + q.
Proof. intros Hq H. apply Z.eqb_eq. exact (check_below _ _ _ H Hq). Qed.
Lemma put_codepoint_spec c : scalar c -> put_codepoint c = encode8 c.
Proof.
  intros H. unfold put_codepoint. rewrite <- length_encode8 by done. destruct H as [Hc Hs]. unfold kUnicodeMaxCodepoint in Hc.
  unfold encode8, utf32_codepoint_to_utf8. cases_of c; cbn [length put_units8 nth kFirstByteMark]; rewrite ?trail_byte, ?shift6.
  - by rewrite (first_byte _ _ 128) by (lia || by vm_compute).
  - by rewrite (first_byte _ _ 32) by first [zdiv|by vm_compute].
  - by rewrite (first_byte _ _ 16) by first [zdiv|by vm_compute].
  - by rewrite (first_byte _ _ 8) by first [zdiv|by vm_compute].
Qed.

(** Reading back. *)
Definition lead_length b : nat := if b <? 192 then 1%nat else if b <? 224 then 2%nat else if b <? 240 then 3%nat else 4%nat.
Lemma codepoint_len_check b : 0 <= b < 256 -> utf8_codepoint_len b = lead_length b.
Proof.
  intros Hb. apply Nat.eqb_eq. apply (check_below (fun b => (utf8_codepoint_len b =? lead_length b)%nat) _ 256); [by vm_compute|done].
Qed.
Lemma lead_bits q m k n : forallb (fun q => Z.land (m + q) k =? q) (Z.of_nat <$> seq 0 n) = true -> 0 <= q < Z.of_nat n -> Z.land (m + q) k = q.
Proof. intros H Hq. apply Z.eqb_eq. exact (check_below _ _ _ H Hq). Qed.
Lemma rd_at l1 b l2 : rd (l1 ++ b :: l2) (length l1) = Ok b.
Proof. unfold rd. by rewrite list_lookup_middle. Qed.
Lemma rd_after l1 k l2 i b : i = (length l1 + k)%nat -> l2 !! k = Some b -> rd (l1 ++ l2) i = Ok b.
Proof. intros -> H. unfold rd. rewrite lookup_app_r by lia. replace (length l1 + k - length l1)%nat with k by lia. by rewrite H. Qed.

Lemma decode8 c l1 l2 : scalar c -> let mem := l1 ++ encode8 c ++ l2 in
  exists b, rd mem (length l1) = Ok b /\ utf8_codepoint_len b = length (encode8 c) /\ utf8_to_utf32_codepoint mem (length l1) (length (encode8 c)) = Ok c.
Proof.
  intros [Hc _] mem. unfold mem. clear mem. unfold kUnicodeMaxCodepoint in Hc. unfold encode8. cases_of c; cbn [app length]; (eexists; split; [apply rd_at|]).
  all: rewrite codepoint_len_check by zdiv; unfold lead_length, utf8_to_utf32_codepoint; rewrite rd_at, bind_Ok; cbn [more_bytes].
  - by rewrite (proj2 (Z.ltb_lt c 192)) by lia.
  - assert (0 <= c / 64 < 32) by zdiv. pose proof (Z.mod_pos_bound c 64 ltac:(lia)).
    rewrite (proj2 (Z.ltb_ge (192 + _) 192)), (proj2 (Z.ltb_lt _ 224)) by lia. split; [done|].
    erewrite (rd_after l1 1 _ (S (length l1))) by (done || lia). rewrite bind_Ok, (lead_bits _ 192 31 32) by (done || by vm_compute). rewrite follow_byte by lia. f_equal. zdiv.
  - assert (0 <= c / 64 / 64 < 16) by zdiv. pose proof (Z.mod_pos_bound c 64 ltac:(lia)). pose proof (Z.mod_pos_bound (c / 64) 64 ltac:(lia)).
    rewrite (proj2 (Z.ltb_ge (224 + _) 192)), (proj2 (Z.ltb_ge (224 + _) 224)), (proj2 (Z.ltb_lt _ 240)) by lia. split; [done|].
    erewrite (rd_after l1 1 _ (S (length l1))) by (done || lia). rewrite bind_Ok. erewrite (rd_after l1 2 _ (S (S (length l1)))) by (done || lia). rewrite bind_Ok, (lead_bits _ 224 15 16) by (done || by vm_compute).
    rewrite (follow_byte (c / 64 / 64)), follow_byte by lia. f_equal. zdiv.
  - assert (0 <= c / 64 / 64 / 64 < 8) by zdiv. pose proof (Z.mod_pos_bound c 64 ltac:(lia)). pose proof (Z.mod_pos_bound (c / 64) 64 ltac:(lia)).
    pose proof (Z.mod_pos_bound (c / 64 / 64) 64 ltac:(lia)).
    rewrite (proj2 (Z.ltb_ge (240 + _) 192)), (proj2 (Z.ltb_ge (240 + _) 224)), (proj2 (Z.ltb_ge (240 + _) 240)) by lia. split; [done|].
    erewrite (rd_after l1 1 _ (S (length l1))) by (done || lia). rewrite bind_Ok. erewrite (rd_after l1 2 _ (S (S (length l1)))) by (done || lia). rewrite bind_Ok. erewrite (rd_after l1 3 _ (S (S (S (length l1))))) by (done || lia).
    rewrite bind_Ok, (lead_bits _ 240 7 8) by (done || by vm_compute). rewrite (follow_byte (c / 64 / 64 / 64)) by lia. rewrite (follow_byte (_ + _)) by lia. rewrite follow_byte by lia. f_equal. zdiv.
Qed.

(** ** Surrogates *)
Lemma land_fc00 x : 0 <= x < 65536 -> Z.land x 0xFC00 = 1024 * (x / 1024).
Proof.
  intros Hx. change 0xFC00 with (Z.land (Z.ones 16) (Z.lnot (Z.ones 10))). rewrite Z.land_assoc, Z.land_ones by done.
  rewrite Z.mod_small by lia. by rewrite land_lnot_ones.
Qed.
Lemma high_surrogate_spec x : 0 <= x < 65536 -> high_surrogate x = (0xD800 <=? x) && (x <? 0xDC00).
Proof. intros Hx. unfold high_surrogate. rewrite land_fc00 by done. apply eq_true_iff_eq. rewrite Z.eqb_eq, andb_true_iff, Z.leb_le, Z.ltb_lt. zdiv. Qed.
Lemma low_surrogate_spec x : 0 <= x < 65536 -> low_surrogate x = (0xDC00 <=? x) && (x <? 0xE000).
Proof. intros Hx. unfold low_surrogate. rewrite land_fc00 by done. apply eq_true_iff_eq. rewrite Z.eqb_eq, andb_true_iff, Z.leb_le, Z.ltb_lt. zdiv. Qed.
Lemma surrogate_pair_spec a b : 0 <= b < 1024 -> surrogate_pair (0xD800 + a) (0xDC00 + b) = a * 1024 + b + 0x10000.
Proof. intros Hb. unfold surrogate_pair. rewrite !Z.add_simpl_l, lor_add by lia. lia. Qed.
Lemma put_utf16_spec c : 0 <= c <= kUnicodeMaxCodepoint -> put_utf16 c = encode16 c.
Proof.
  unfold kUnicodeMaxCodepoint, put_utf16, encode16. intros Hc. destruct (Z.leb_spec c 0xFFFF); [done|].
  rewrite Z.shiftr_div_pow2 by done. change 0x3FF with (Z.ones 10). rewrite Z.land_ones by done. change (2 ^ 10) with 1024. unfold u16.
  assert (0 <= (c - 0x10000) / 1024 < 1024) by zdiv. pose proof (Z.mod_pos_bound (c - 0x10000) 1024 ltac:(lia)). rewrite !Z.mod_small by lia. f_equal; [lia|f_equal; lia].
Qed.

(** ** One code point of UTF-16 *)
Lemma scalar_unit c ws : scalar c -> c <= 0xFFFF -> utf16_to_utf8_loop (c :: ws) = encode8 c ++ utf16_to_utf8_loop ws.
Proof.
  intros Hs Hc. rewrite <- put_codepoint_spec by done. cbn [utf16_to_utf8_loop]. destruct ws as [|x ws]; [done|].
  rewrite high_surrogate_spec by (unfold scalar in Hs; lia). unfold scalar, kUnicodeSurrogateStart, kUnicodeSurrogateEnd in Hs.
  destruct (Z.leb_spec 0xD800 c), (Z.ltb_spec c 0xDC00); try done; lia.
Qed.
Lemma scalar_pair c ws : scalar c -> 0xFFFF < c -> utf16_to_utf8_loop (encode16 c ++ ws) = encode8 c ++ utf16_to_utf8_loop ws.
Proof.
  intros Hs Hc. rewrite <- put_codepoint_spec by done. unfold encode16. rewrite (proj2 (Z.leb_gt _ _)) by lia. cbn [app utf16_to_utf8_loop].
  unfold scalar, kUnicodeMaxCodepoint in Hs. assert (0 <= (c - 0x10000) / 1024 < 1024) by zdiv. pose proof (Z.mod_pos_bound (c - 0x10000) 1024 ltac:(lia)).
  rewrite high_surrogate_spec, low_surrogate_spec by lia. rewrite surrogate_pair_spec by lia.
  rewrite !(proj2 (Z.leb_le _ _)), !(proj2 (Z.ltb_lt _ _)) by lia. cbn [andb]. do 2 f_equal. zdiv.
Qed.
Lemma from_utf16 cs ws : Forall scalar cs -> utf16_to_utf8_loop ((cs ≫= encode16) ++ ws) = (cs ≫= encode8) ++ utf16_to_utf8_loop ws.
Proof.
  induction 1 as [|c cs Hc _ IH]; [done|]. cbn [mbind list_bind]. rewrite <- !app_assoc.
  destruct (Z.leb_spec c 0xFFFF) as [Hle|Hgt]; [|by rewrite scalar_pair, IH].
  unfold encode16 at 1. rewrite (proj2 (Z.leb_le _ _)) by done. cbn [app]. by rewrite scalar_unit, IH.
Qed.
Lemma measured_utf16 cs : Forall scalar cs -> utf16_length_loop (cs ≫= encode16) = Z.of_nat (length (cs ≫= encode8)).
Proof.
  induction 1 as [|c cs Hc _ IH]; [done|]. cbn [mbind list_bind]. rewrite length_app, length_encode8, Nat2Z.inj_add, <- IH by done.
  pose proof Hc as [Hr Hs]. unfold kUnicodeMaxCodepoint, kUnicodeSurrogateStart, kUnicodeSurrogateEnd in *. unfold encode16 at 1.
  destruct (Z.leb_spec c 0xFFFF) as [Hle|Hgt]; cbn [app utf16_length_loop].
  - change (list_bind Z Z encode16 cs) with (cs ≫= encode16). destruct (cs ≫= encode16) as [|x ws]; [done|]. rewrite high_surrogate_spec by lia.
    destruct (Z.leb_spec 0xD800 c), (Z.ltb_spec c 0xDC00); cbn [andb]; try done; lia.
  - assert (0 <= (c - 0x10000) / 1024 < 1024) by zdiv. pose proof (Z.mod_pos_bound (c - 0x10000) 1024 ltac:(lia)).
    rewrite high_surrogate_spec, low_surrogate_spec by lia. rewrite !(proj2 (Z.leb_le _ _)), !(proj2 (Z.ltb_lt _ _)) by lia. cbn [andb].
    unfold utf32_codepoint_utf8_length. rewrite !(proj2 (Z.ltb_ge _ _)) by lia. unfold kUnicodeMaxCodepoint. by rewrite (proj2 (Z.leb_le _ _)) by lia.
Qed.

(** ** The loops over UTF-8 *)
Lemma encode8_nonempty c : (1 <= length (encode8 c))%nat.
Proof. unfold encode8. repeat case_match; cbn; lia. Qed.
Lemma from_utf8 cs fuel l1 l2 : Forall scalar cs -> (length (cs ≫= encode8) <= fuel)%nat ->
  utf8_convert fuel (l1 ++ (cs ≫= encode8) ++ l2) (length l1) (length l1 + length (cs ≫= encode8)) = Ok (cs ≫= encode16).
Proof.
  intros H. revert fuel l1. induction H as [|c cs Hc _ IH]; intros fuel l1 Hf; cbn [mbind list_bind] in *.
  { destruct fuel; cbn [utf8_convert]; by rewrite (proj2 (Nat.ltb_ge _ _)) by (cbn; lia). }
  change (list_bind Z Z encode8 cs) with (cs ≫= encode8) in *. rewrite length_app in *. pose proof (encode8_nonempty c).
  destruct fuel as [|fuel]; [lia|]. cbn [utf8_convert]. rewrite (proj2 (Nat.ltb_lt _ _)) by lia.
  destruct (decode8 c l1 ((cs ≫= encode8) ++ l2) Hc) as (b & Hb & Hl & Hd). rewrite <- app_assoc, Hb, bind_Ok, Hl, Hd, bind_Ok.
  rewrite <- length_app, app_assoc, Nat.add_assoc, <- length_app, IH by (rewrite ?length_app; lia).
  rewrite bind_Ok, put_utf16_spec by apply Hc. done.
Qed.
Lemma measured_utf8 cs fuel l1 l2 len : Forall scalar cs -> (length (cs ≫= encode8) <= fuel)%nat ->
  utf8_measure fuel (l1 ++ (cs ≫= encode8) ++ l2) (length l1) (length l1 + length (cs ≫= encode8)) len = Ok (len + Z.of_nat (length (cs ≫= encode16))).
Proof.
  intros H. revert fuel l1 len. induction H as [|c cs Hc _ IH]; intros fuel l1 len Hf; cbn [mbind list_bind] in *.
  { destruct fuel; cbn [utf8_measure]; rewrite (proj2 (Nat.ltb_ge _ _)), (proj2 (Nat.eqb_eq _ _)) by (cbn; lia); f_equal; cbn; lia. }
  change (list_bind Z Z encode8 cs) with (cs ≫= encode8) in *. change (list_bind Z Z encode16 cs) with (cs ≫= encode16). rewrite !length_app in *.
  pose proof (encode8_nonempty c). destruct fuel as [|fuel]; [lia|]. cbn [utf8_measure]. rewrite (proj2 (Nat.ltb_lt _ _)) by lia.
  destruct (decode8 c l1 ((cs ≫= encode8) ++ l2) Hc) as (b & Hb & Hl & Hd). rewrite <- app_assoc, Hb, bind_Ok, Hl, Hd, bind_Ok.
  rewrite <- length_app, app_assoc, Nat.add_assoc, <- length_app, IH by (rewrite ?length_app; lia).
  f_equal. unfold encode16. destruct (Z.ltb_spec 0xFFFF c), (Z.leb_spec c 0xFFFF); cbn [length]; lia.
Qed.

(** *** To UTF-32 *)
Section Lead.
Variable signed_char : bool.

(** What the loop sees in a lead byte of [k] bytes. *)
Definition lead_masks (k : nat) (f : Z) : bool :=
  negb (Z.land f 0x80 =? 0) && negb (Z.land f 0x40 =? 0) && (Bool.eqb (k =? 2)%nat (Z.land f 0x20 =? 0)) &&
  ((k =? 2)%nat || Bool.eqb (k =? 3)%nat (Z.land f 0x10 =? 0)) && ((k <=? 3)%nat || (Z.land f 0x08 =? 0)).
Lemma lead_masks_of b : 192 <= b < 248 -> lead_masks (lead_length b) (char_of signed_char b) = true.
Proof.
  intros Hb. assert (implb ((192 <=? b) && (b <? 248)) (lead_masks (lead_length b) (char_of signed_char b)) = true) as H.
  { apply (check_below (fun b => implb ((192 <=? b) && (b <? 248)) (lead_masks (lead_length b) (char_of signed_char b))) _ 256); [destruct signed_char; by vm_compute|lia]. }
  rewrite (proj2 (Z.leb_le _ _)), (proj2 (Z.ltb_lt _ _)) in H by lia. exact H.
Qed.
Lemma u32_mod x k : 0 <= k <= 32 -> u32 x mod 2 ^ k = x mod 2 ^ k.
Proof.
  intros Hk. unfold u32. replace 32 with (k + (32 - k)) by lia. rewrite Z.pow_add_r by lia.
  rewrite Z.rem_mul_r by lia. rewrite Z.mul_comm, Z.mod_add by lia. by rewrite Z.mod_mod by lia.
Qed.
Lemma cut x m k : 0 <= k -> Z.land (Z.ones 32) (Z.lnot m) = Z.ones k -> u32 (Z.land (u32 x) (Z.lnot m)) = u32 x mod 2 ^ k.
Proof.
  intros Hk H. unfold u32. rewrite <- !Z.land_ones by done. rewrite <- (Z.land_assoc x), H, <- Z.land_assoc, <- Z.land_assoc. f_equal.
  rewrite <- H. rewrite (Z.land_comm (Z.land _ _) (Z.ones 32)), !Z.land_assoc, !Z.land_diag. done.
Qed.
Lemma u32_form x : exists e, u32 x = x + 2 ^ 32 * e.
Proof. exists (- (x / 2 ^ 32)). unfold u32. pose proof (Z.div_mod x (2 ^ 32) ltac:(lia)). lia. Qed.
Lemma char_form b : 0 <= b < 256 -> exists e, u32 (char_of signed_char b) = b + 256 * e.
Proof.
  intros Hb. destruct (u32_form (char_of signed_char b)) as [e ->]. unfold char_of, s8.
  destruct signed_char; [destruct (b <? 2 ^ 7); [exists (2 ^ 24 * e)|exists (2 ^ 24 * e - 1)]|exists (2 ^ 24 * e)]; lia.
Qed.
Lemma mod_is x k m r : 0 <= r < m -> x = r + m * k -> x mod m = r.
Proof. intros Hr ->. rewrite Z.mul_comm, Z.mod_add by lia. by apply Z.mod_small. Qed.
Lemma low_bits y : 0 <= y < 64 -> Z.land (128 + y) 63 = y.
Proof. intros Hy. apply Z.eqb_eq. apply (check_below (fun y => Z.land (128 + y) 63 =? y) _ 64); [by vm_compute|done]. Qed.
(** A round of the loop. *)
Lemma lead_more n mem i f mask ignore num v y : Z.land f mask ≠ 0 -> rd mem i = Ok (128 + y) -> 0 <= y < 64 ->
  lead_loop (S n) mem i f mask ignore num v = lead_loop n mem (S i) f (Z.shiftr mask 1) (Z.lor ignore mask) (num + 1) (u32 (v * 64 + y)).
Proof.
  intros Hm Hb Hy. cbn [lead_loop]. rewrite (proj2 (Z.eqb_neq _ _) Hm), Hb, bind_Ok, low_bits by done.
  do 2 f_equal. rewrite Z.shiftl_mul_pow2 by done. lia.
Qed.
Lemma lead_end n mem i f mask ignore num v k : Z.land f mask = 0 -> 0 <= k <= 32 ->
  Z.land (Z.ones 32) (Z.lnot (Z.shiftl (Z.lor ignore mask) (6 * (num - 1)))) = Z.ones k ->
  lead_loop n mem i f mask ignore num (u32 v) = Ok (v mod 2 ^ k, num).
Proof.
  intros Hm Hk Hc. destruct n; cbn [lead_loop]; rewrite Hm; cbn [Z.eqb]; by rewrite (cut v _ k), u32_mod by (lia || done).
Qed.
Lemma decode32 c l1 l2 : scalar c -> utf32_at_internal signed_char (l1 ++ encode8 c ++ l2) (length l1) = Ok (c, Z.of_nat (length (encode8 c))).
Proof.
  intros [Hc _]. unfold kUnicodeMaxCodepoint in Hc. unfold utf32_at_internal, encode8. cases_of c; cbn [app length]; rewrite rd_at, bind_Ok.
  - assert (Z.land (char_of signed_char c) 128 = 0) as ->; [|done]. apply Z.eqb_eq.
    apply (check_below (fun c => Z.land (char_of signed_char c) 128 =? 0) _ 128); [destruct signed_char; by vm_compute|lia].
  - assert (0 <= c / 64 < 32) by zdiv. pose proof (Z.mod_pos_bound c 64 ltac:(lia)).
    pose proof (lead_masks_of (192 + c / 64) ltac:(lia)) as Hk. unfold lead_length in Hk.
    rewrite (proj2 (Z.ltb_ge (192 + _) 192)), (proj2 (Z.ltb_lt _ 224)) in Hk by lia. unfold lead_masks in Hk. rewrite !andb_true_iff in Hk.
    destruct Hk as [[[[K1 K2] K3] _] _]. apply negb_true_iff, Z.eqb_neq in K1, K2. apply Bool.eqb_prop, symmetry, Z.eqb_eq in K3.
    rewrite (proj2 (Z.eqb_neq _ _) K1). destruct (char_form (192 + c / 64) ltac:(lia)) as [e ->].
    rewrite (lead_more 6 _ _ _ _ _ _ _ (c mod 64)) by (done || (apply (rd_after l1 1); [lia|done])).
    rewrite (lead_end _ _ _ _ _ _ _ _ 11) by done. rewrite bind_Ok. rewrite (mod_is _ (6 + 8 * e) _ c) by zdiv. by rewrite s32_small by lia.
  - assert (0 <= c / 64 / 64 < 16) by zdiv. pose proof (Z.mod_pos_bound c 64 ltac:(lia)). pose proof (Z.mod_pos_bound (c / 64) 64 ltac:(lia)).
    pose proof (lead_masks_of (224 + c / 64 / 64) ltac:(lia)) as Hk. unfold lead_length in Hk.
    rewrite (proj2 (Z.ltb_ge (224 + _) 192)), (proj2 (Z.ltb_ge (224 + _) 224)), (proj2 (Z.ltb_lt _ 240)) in Hk by lia. unfold lead_masks in Hk. rewrite !andb_true_iff in Hk.
    destruct Hk as [[[[K1 K2] K3] K4] _]. apply negb_true_iff, Z.eqb_neq in K1, K2. apply Bool.eqb_prop, symmetry, Z.eqb_neq in K3. apply Bool.eqb_prop, symmetry, Z.eqb_eq in K4.
    rewrite (proj2 (Z.eqb_neq _ _) K1). destruct (char_form (224 + c / 64 / 64) ltac:(lia)) as [e ->].
    rewrite (lead_more 6 _ _ _ _ _ _ _ (c / 64 mod 64)) by (done || (apply (rd_after l1 1); [lia|done])).
    rewrite (lead_more 5 _ _ _ _ _ _ _ (c mod 64)) by (done || (apply (rd_after l1 2); [lia|done])).
    destruct (u32_form ((224 + c / 64 / 64 + 256 * e) * 64 + c / 64 mod 64)) as [e1 ->].
    rewrite (lead_end _ _ _ _ _ _ _ _ 16) by done. rewrite bind_Ok. rewrite (mod_is _ (14 + 16 * e + 2 ^ 22 * e1) _ c) by zdiv. by rewrite s32_small by lia.
  - assert (0 <= c / 64 / 64 / 64 < 8) by zdiv. pose proof (Z.mod_pos_bound c 64 ltac:(lia)). pose proof (Z.mod_pos_bound (c / 64) 64 ltac:(lia)).
    pose proof (Z.mod_pos_bound (c / 64 / 64) 64 ltac:(lia)).
    pose proof (lead_masks_of (240 + c / 64 / 64 / 64) ltac:(lia)) as Hk. unfold lead_length in Hk.
    rewrite (proj2 (Z.ltb_ge (240 + _) 192)), (proj2 (Z.ltb_ge (240 + _) 224)), (proj2 (Z.ltb_ge (240 + _) 240)) in Hk by lia. unfold lead_masks in Hk. rewrite !andb_true_iff in Hk.
    destruct Hk as [[[[K1 K2] K3] K4] K5]. apply negb_true_iff, Z.eqb_neq in K1, K2. apply Bool.eqb_prop, symmetry, Z.eqb_neq in K3, K4. apply Z.eqb_eq in K5.
    rewrite (proj2 (Z.eqb_neq _ _) K1). destruct (char_form (240 + c / 64 / 64 / 64) ltac:(lia)) as [e ->].
    rewrite (lead_more 6 _ _ _ _ _ _ _ (c / 64 / 64 mod 64)) by (done || (apply (rd_after l1 1); [lia|done])).
    rewrite (lead_more 5 _ _ _ _ _ _ _ (c / 64 mod 64)) by (done || (apply (rd_after l1 2); [lia|done])).
    rewrite (lead_more 4 _ _ _ _ _ _ _ (c mod 64)) by (done || (apply (rd_after l1 3); [lia|done])).
    destruct (u32_form ((240 + c / 64 / 64 / 64 + 256 * e) * 64 + c / 64 / 64 mod 64)) as [e1 ->].
    match goal with |- context [u32 (u32 ?x * 64 + _)] => destruct (u32_form x) as [e2 ->] end.
    rewrite (lead_end _ _ _ _ _ _ _ _ 21) by done. rewrite bind_Ok. rewrite (mod_is _ (30 + 32 * e + 2 ^ 23 * e1 + 2 ^ 17 * e2) _ c) by zdiv. by rewrite s32_small by lia.
Qed.
Lemma to_utf32 cs fuel l1 l2 : Forall scalar cs -> (length (cs ≫= encode8) <= fuel)%nat ->
  utf8_to_utf32_loop signed_char fuel (l1 ++ (cs ≫= encode8) ++ l2) (length l1) (length l1 + length (cs ≫= encode8)) = Ok cs.
Proof.
  intros H. revert fuel l1. induction H as [|c cs Hc _ IH]; intros fuel l1 Hf; cbn [mbind list_bind] in *.
  { destruct fuel; cbn [utf8_to_utf32_loop]; by rewrite (proj2 (Nat.ltb_ge _ _)) by (cbn; lia). }
  change (list_bind Z Z encode8 cs) with (cs ≫= encode8) in *. rewrite length_app in *. pose proof (encode8_nonempty c).
  destruct fuel as [|fuel]; [lia|]. cbn [utf8_to_utf32_loop]. rewrite (proj2 (Nat.ltb_lt _ _)) by lia.
  rewrite <- app_assoc, (decode32 c l1 ((cs ≫= encode8) ++ l2) Hc), bind_Ok, Nat2Z.id.
  rewrite <- length_app, app_assoc, Nat.add_assoc, <- length_app, IH by (rewrite ?length_app; lia).
  rewrite bind_Ok. destruct Hc as [Hc _]. unfold kUnicodeMaxCodepoint in Hc. by rewrite u32_small by lia.
Qed.
End Lead.

(** ** All encodings *)
Lemma put_all cs : Forall scalar cs -> (cs ≫= fun c => utf32_codepoint_to_utf8 c (utf32_codepoint_utf8_length c)) = cs ≫= encode8.
Proof.
  induction 1 as [|c cs Hc _ IH]; [done|]. cbn [mbind list_bind] in *. rewrite IH. f_equal. exact (put_codepoint_spec c Hc).
Qed.
Lemma measured_utf32 cs : Forall scalar cs -> Zsum (fun c => Z.of_nat (utf32_codepoint_utf8_length c)) cs = Z.of_nat (length (cs ≫= encode8)).
Proof.
  induction 1 as [|c cs Hc _ IH]; [done|]. cbn [Zsum mbind list_bind]. change (list_bind Z Z encode8 cs) with (cs ≫= encode8).
  by rewrite IH, length_app, Nat2Z.inj_add, length_encode8.
Qed.

(** C22: every sequence of Unicode scalar values goes through the conversions unchanged,
    and every buffer is measured exactly.  From UTF-32 and from UTF-16 the bytes stored
    are the UTF-8 encoding and a zero; from these bytes, whatever lies behind them in
    memory, UTF-16 and UTF-32 are what they were; the lengths measured before each
    conversion are the numbers of units stored without the zero; whether [char] is
    signed makes no difference. *)
Theorem unicode_roundtrip signed_char cs rest : cs ≠ [] -> Forall scalar cs ->
  let bytes := cs ≫= encode8 in let units := cs ≫= encode16 in let mem := bytes ++ rest in let n := length bytes in
  utf32_to_utf8 cs = bytes ++ [0] /\ utf16_to_utf8 units = bytes ++ [0] /\
  utf8_to_utf16 mem n = Ok (units ++ [0]) /\ utf8_to_utf32 signed_char mem n = Ok (cs ++ [0]) /\
  utf32_to_utf8_length cs = Z.of_nat n /\ utf16_to_utf8_length units = Z.of_nat n /\ utf8_to_utf16_length mem n = Ok (Z.of_nat (length units)).
Proof.
  intros Hne H. cbv zeta. assert (exists c cs', cs = c :: cs') as (c & cs' & Hcs) by (destruct cs; eauto; done).
  assert (n1 : (cs ≫= encode8) ≠ []). { rewrite Hcs. cbn. pose proof (encode8_nonempty c). by destruct (encode8 c); [cbn in *; lia|]. }
  assert (n2 : (cs ≫= encode16) ≠ []). { rewrite Hcs. cbn. unfold encode16. by case_match. }
  split_and!.
  - unfold utf32_to_utf8. rewrite put_all by done. by destruct cs.
  - transitivity (utf16_to_utf8_loop (cs ≫= encode16)); [by destruct (cs ≫= encode16)|].
    rewrite <- (app_nil_r (cs ≫= encode16)), from_utf16 by done. done.
  - unfold utf8_to_utf16, utf8_to_utf16_no_null_terminator. by rewrite (from_utf8 cs _ [] rest H) by done.
  - unfold utf8_to_utf32. rewrite (proj2 (Nat.eqb_neq _ _)) by (by destruct (cs ≫= encode8)). by rewrite (to_utf32 signed_char cs _ [] rest H) by done.
  - unfold utf32_to_utf8_length. rewrite <- measured_utf32 by done. by destruct cs.
  - unfold utf16_to_utf8_length. rewrite <- measured_utf16 by done. by destruct (cs ≫= encode16).
  - unfold utf8_to_utf16_length. by rewrite (measured_utf8 cs _ [] rest 0 H) by done.
Qed.

(** ** Strings of 16-bit units

    The argument is the memory from the string on. *)
Fixpoint strlen16 mem : res nat :=
  match mem with [] => Fault OOPS | c :: mem => if c =? 0 then Ok 0%nat else n ← strlen16 mem; Ok (S n) end.
Fixpoint strnlen16 mem (maxlen : nat) : res nat :=
  match maxlen with
  | O => Ok 0%nat
  | S maxlen => match mem with [] => Fault OOPS | c :: mem => if c =? 0 then Ok 0%nat else n ← strnlen16 mem maxlen; Ok (S n) end
  end.
Fixpoint strcmp16 s1 s2 : res Z :=
  match s1, s2 with
  | ch :: s1, c2 :: s2 => let d := ch - c2 in if negb (d =? 0) || (ch =? 0) then Ok d else strcmp16 s1 s2
  | _, _ => Fault OOPS
  end.
Fixpoint strncmp16 s1 s2 n : res Z :=
  match n with
  | O => Ok 0
  | S n =>
      match s1, s2 with
      | ch :: s1, c2 :: s2 => let d := ch - c2 in if negb (d =? 0) || (ch =? 0) then Ok d else strncmp16 s1 s2 n
      | _, _ => Fault OOPS
      end
  end.
(** The units that are stored. *)
Fixpoint strcpy16 mem : res (list Z) :=
  match mem with [] => Fault OOPS | ch :: mem => if ch =? 0 then Ok [ch] else l ← strcpy16 mem; Ok (ch :: l) end.
(** The unit goes through a [char]; the last zero is stored behind the [n] units. *)
Fixpoint strncpy16 (signed_char : bool) mem n {struct n} : res (list Z) :=
  match n with
  | O => Ok [0]
  | S n =>
      match mem with
      | [] => Fault OOPS
      | p :: mem =>
          let ch := char_of signed_char (u8 p) in
          if ch =? 0 then Ok [u16 ch; 0] else l ← strncpy16 signed_char mem n; Ok (u16 ch :: l)
      end
  end.
(** The two strings have their lengths and may hold zeros. *)
Fixpoint strzcmp16 s1 s2 : Z :=
  match s1, s2 with
  | a :: s1, b :: s2 => let d := a - b in if negb (d =? 0) then d else strzcmp16 s1 s2
  | [], b :: _ => 0 - b
  | a :: _, [] => a - 0
  | [], [] => 0
  end.

(** ** Strings of libutils

    [malloc] of a number of bytes: is there memory. *)
Definition sizeof_SharedBuffer : Z := 24.
Definition getEmptyString : list Z := [0].
Section Alloc.
Variable malloc : Z -> bool.
(** The bytes behind the header; a size that is too large is only asserted about. *)
Definition SharedBuffer_alloc (size : Z) : option Z :=
  let total := u64 (sizeof_SharedBuffer + size) in
  if malloc total then Some (total - sizeof_SharedBuffer) else None.
Definition store_in (room : Z) (width : Z) l : res (list Z) :=
  if width * Z.of_nat (length l) <=? room then Ok l else Fault OOPS.

(** [String8(const char*, size_t)] *)
Definition String8_allocFromUTF8 mem n : res (option (list Z)) :=
  if (0 <? n)%nat then
    if Z.of_nat n =? 2 ^ 64 - 1 then Ok None else
    match SharedBuffer_alloc (Z.of_nat n + 1) with
    | None => Ok None
    | Some room => if (n <=? length mem)%nat then s ← store_in room 1 (take n mem ++ [0]); Ok (Some s) else Fault OOPS
    end
  else Ok (Some getEmptyString).
(** [String8(const char16_t*, size_t)] *)
Definition allocFromUTF16 ws : res (list Z) :=
  match ws with
  | [] => Ok getEmptyString
  | _ =>
      let bytes := utf16_to_utf8_length ws in
      if bytes <? 0 then Ok getEmptyString else
      match SharedBuffer_alloc (bytes + 1) with None => Ok getEmptyString | Some room => store_in room 1 (utf16_to_utf8 ws) end
  end.
(** [String8(const char32_t*, size_t)] *)
Definition allocFromUTF32 ws : res (list Z) :=
  match ws with
  | [] => Ok getEmptyString
  | _ =>
      let bytes := utf32_to_utf8_length ws in
      if bytes <? 0 then Ok getEmptyString else
      match SharedBuffer_alloc (bytes + 1) with None => Ok getEmptyString | Some room => store_in room 1 (utf32_to_utf8 ws) end
  end.
(** [String16(const char*, size_t)] *)
Definition String16_allocFromUTF8 mem n : res (list Z) :=
  if (n =? 0)%nat then Ok getEmptyString else
  u16len ← utf8_to_utf16_length mem n;
  if u16len <? 0 then Ok getEmptyString else
  match SharedBuffer_alloc (2 * (u16len + 1)) with
  | None => Ok getEmptyString
  | Some room => l ← utf8_to_utf16 mem n; store_in room 2 l
  end.

Lemma store_fits room width l : width * Z.of_nat (length l) <= room -> store_in room width l = Ok l.
Proof. intros H. unfold store_in. by rewrite (proj2 (Z.leb_le _ _) H). Qed.
Lemma store_overflows room width l : room < width * Z.of_nat (length l) -> store_in room width l = Fault OOPS.
Proof. intros H. unfold store_in. by rewrite (proj2 (Z.leb_gt _ _) H). Qed.
Lemma allocated size : 0 <= size < 2 ^ 64 - sizeof_SharedBuffer -> malloc (sizeof_SharedBuffer + size) = true -> SharedBuffer_alloc size = Some size.
Proof.
  intros H Hm. unfold SharedBuffer_alloc. rewrite u64_small, Hm by (unfold sizeof_SharedBuffer in *; lia). f_equal. lia.
Qed.

(** *** How much is stored *)
Lemma length_put todo mark c l : length (put_units8 todo mark c l) = (todo + length l)%nat.
Proof.
  revert c l. induction todo as [|[|todo] IH]; intros c l; [done..|]. change (put_units8 (S (S todo)) mark c l) with
    (put_units8 (S todo) mark (Z.shiftr c 6) (u8 (Z.land (Z.lor c kByteMark) kByteMask) :: l)). rewrite IH. cbn. lia.
Qed.
Lemma length_put_codepoint c : length (put_codepoint c) = utf32_codepoint_utf8_length c.
Proof. unfold put_codepoint, utf32_codepoint_to_utf8. rewrite length_put. cbn. lia. Qed.

(** A pair that is not counted: in the string there are some high surrogates in a row, an
    even number of them, none before them, and a low one behind them.  The last of them and
    the low one are the pair. *)
Definition highs : list Z -> Prop := Forall (fun c => high_surrogate c = true).
Definition hidden_pair ws : Prop := exists ws1 hs x ws2,
  ws = ws1 ++ hs ++ x :: ws2 /\ highs hs /\ low_surrogate x = true /\
  hs ≠ [] /\ Nat.even (length hs) = true /\ (forall c, last ws1 = Some c -> high_surrogate c = false).
(** How many there are; [run] high surrogates come before [ws]. *)
Fixpoint hidden_pairs (run : nat) ws : Z :=
  match ws with
  | [] => 0
  | c :: ws =>
      if high_surrogate c then hidden_pairs (S run) ws
      else (if low_surrogate c && (0 <? run)%nat && Nat.even run then 1 else 0) + hidden_pairs 0 ws
  end.

(** The same as the loop of [utf16_to_utf8_length] meets them: pairs whose high surrogate
    it looks at in place of the one before. *)
Fixpoint overlooked ws : Z :=
  match ws with
  | [] => 0
  | c :: ws1 =>
      match ws1 with
      | x :: ws2 =>
          if high_surrogate c then
            if low_surrogate x then overlooked ws2
            else match ws2 with y :: _ => if high_surrogate x && low_surrogate y then 1 else 0 | [] => 0 end + overlooked ws2
          else overlooked ws1
      | [] => 0
      end
  end.
Lemma surrogate_empty c : 0 <= c < 65536 -> high_surrogate c || low_surrogate c = true -> utf32_codepoint_utf8_length c = 0%nat.
Proof.
  intros Hc. rewrite high_surrogate_spec, low_surrogate_spec by done. unfold utf32_codepoint_utf8_length, kUnicodeSurrogateStart, kUnicodeSurrogateEnd.
  intros H. rewrite orb_true_iff, !andb_true_iff, !Z.leb_le, !Z.ltb_lt in H.
  rewrite (proj2 (Z.ltb_ge c 0x80)), (proj2 (Z.ltb_ge c 0x800)), (proj2 (Z.ltb_lt c 0x10000)), (proj2 (Z.ltb_ge c 0xD800)), (proj2 (Z.ltb_ge 0xDFFF c)) by lia. done.
Qed.
Lemma low_not_high c : 0 <= c < 65536 -> low_surrogate c = true -> high_surrogate c = false.
Proof. intros Hc. rewrite high_surrogate_spec, low_surrogate_spec by done. destruct (Z.leb_spec 0xDC00 c), (Z.ltb_spec c 0xDC00); try lia; rewrite ?andb_false_r; done. Qed.
Lemma pair_four c x : 0 <= c < 65536 -> 0 <= x < 65536 -> high_surrogate c = true -> low_surrogate x = true -> utf32_codepoint_utf8_length (surrogate_pair c x) = 4%nat.
Proof.
  intros Hc Hx. rewrite high_surrogate_spec, low_surrogate_spec by done. rewrite !andb_true_iff, !Z.leb_le, !Z.ltb_lt. intros H1 H2.
  replace c with (0xD800 + (c - 0xD800)) by lia. replace x with (0xDC00 + (x - 0xDC00)) by lia. rewrite surrogate_pair_spec by lia.
  unfold utf32_codepoint_utf8_length, kUnicodeMaxCodepoint. by rewrite !(proj2 (Z.ltb_ge _ _)), (proj2 (Z.leb_le _ _)) by lia.
Qed.
Lemma utf16_alone x ws : match ws with y :: _ => high_surrogate x && low_surrogate y | [] => false end = false ->
  length (utf16_to_utf8_loop (x :: ws)) = (utf32_codepoint_utf8_length x + length (utf16_to_utf8_loop ws))%nat.
Proof. intros H. cbn [utf16_to_utf8_loop]. destruct ws as [|y ws]; rewrite ?H, length_app, length_put_codepoint; done. Qed.
Lemma utf16_stored ws : Forall (fun x => 0 <= x < 65536) ws ->
  Z.of_nat (length (utf16_to_utf8_loop ws)) = utf16_length_loop ws + 4 * overlooked ws + 1.
Proof.
  remember (length ws) as m eqn:Hm. revert ws Hm. induction m as [m IH] using lt_wf_ind. intros ws -> H.
  destruct ws as [|c ws1]; [done|]. apply Forall_cons in H as [Hc H]. destruct ws1 as [|x ws2].
  { rewrite utf16_alone by done. cbn. lia. }
  pose proof H as [Hx H2]%Forall_cons. cbn [utf16_length_loop overlooked].
  destruct (high_surrogate c) eqn:Ec; [destruct (low_surrogate x) eqn:Ex|].
  - cbn [utf16_to_utf8_loop]. rewrite Ec, Ex. cbn [andb].
    rewrite length_app, length_put_codepoint, pair_four, Nat2Z.inj_add, (IH (length ws2)) by (done || (cbn; lia)). lia.
  - rewrite utf16_alone, (surrogate_empty c) by (done || by rewrite Ec, ?Ex). cbn [plus].
    destruct ws2 as [|y ws3]; [rewrite utf16_alone by done; cbn; lia|].
    destruct (high_surrogate x && low_surrogate y) eqn:Exy.
    + pose proof Exy as [Exh Ey]%andb_true_iff. pose proof H2 as [Hy H3]%Forall_cons. pose proof (low_not_high y Hy Ey) as Eyh.
      rewrite (surrogate_empty x) by (done || by rewrite Exh). pose proof (IH (length (y :: ws3)) ltac:(cbn; lia) _ eq_refl H2) as IHy.
      rewrite utf16_alone, (surrogate_empty y) in IHy by (done || (rewrite ?Ey, ?orb_true_r; done) || by destruct ws3; rewrite ?Eyh). cbn [plus] in IHy.
      cbn [utf16_to_utf8_loop]. rewrite Exy, length_app, length_put_codepoint, pair_four by done. lia.
    + rewrite utf16_alone, Nat2Z.inj_add, (IH (length (y :: ws3))) by (done || (cbn; lia)). lia.
  - rewrite utf16_alone, Nat2Z.inj_add, (IH (length (x :: ws2))) by (done || (cbn; lia) || by rewrite Ec). cbn [utf16_length_loop overlooked]. lia.
Qed.

Lemma utf16_measured ws : ws ≠ [] -> Forall (fun x => 0 <= x < 65536) ws -> 0 <= utf16_to_utf8_length ws /\
  Z.of_nat (length (utf16_to_utf8 ws)) = utf16_to_utf8_length ws + 4 * overlooked ws + 1.
Proof.
  intros Hne H. destruct ws as [|c ws]; [done|]. split; [|exact (utf16_stored _ H)].
  change (0 <= utf16_length_loop (c :: ws)). clear. generalize (c :: ws). clear. intros ws.
  remember (length ws) as m eqn:Hm. revert ws Hm. induction m as [m IH] using lt_wf_ind. intros [|c [|x ws]] ->; cbn [utf16_length_loop]; [lia..|].
  pose proof (IH (length ws) ltac:(cbn; lia) ws eq_refl). pose proof (IH (length (x :: ws)) ltac:(cbn; lia) _ eq_refl) as H2. cbn [utf16_length_loop] in H2.
  repeat case_match; lia.
Qed.
Lemma overlooked_nonneg ws : 0 <= overlooked ws.
Proof.
  remember (length ws) as m eqn:Hm. revert ws Hm. induction m as [m IH] using lt_wf_ind. intros [|c [|x ws]] ->; cbn [overlooked]; [lia..|].
  pose proof (IH (length ws) ltac:(cbn; lia) ws eq_refl). pose proof (IH (length (x :: ws)) ltac:(cbn; lia) _ eq_refl) as H2. cbn [overlooked] in H2.
  repeat case_match; lia.
Qed.

(** Counting along the rows of high surrogates gives what the loop overlooks. *)
Lemma hidden_overlooked run ws : Forall (fun x => 0 <= x < 65536) ws -> Nat.even run = true ->
  hidden_pairs run ws = overlooked ws + (if (0 <? run)%nat then match ws with y :: _ => if low_surrogate y then 1 else 0 | [] => 0 end else 0).
Proof.
  remember (length ws) as m eqn:Hm. revert run ws Hm. induction m as [m IH] using lt_wf_ind. intros run ws -> H Hr.
  destruct ws as [|c ws1]; [by destruct (0 <? run)%nat|]. pose proof H as [Hc H1]%Forall_cons. cbn [hidden_pairs].
  destruct (high_surrogate c) eqn:Ec.
  - assert (low_surrogate c = false) as -> by (apply not_true_iff_false; intros E; apply low_not_high in E; congruence).
    assert (Nat.even (S run) = false) as Hs by by rewrite Nat.even_succ, <- Nat.negb_even, Hr.
    destruct ws1 as [|x ws2]; [by destruct (0 <? run)%nat|]. pose proof H1 as [Hx H2]%Forall_cons. cbn [hidden_pairs overlooked]. rewrite Ec.
    assert (forall r, Nat.even r = true -> hidden_pairs r ws2 = _) as IH2 by (intros r; apply (IH (length ws2)); [cbn; lia|done|done]).
    destruct (low_surrogate x) eqn:Ex.
    { rewrite (low_not_high x), Hs, andb_false_r, (IH2 0%nat) by done. change (0 <? 0)%nat with false. destruct (0 <? run)%nat; lia. }
    destruct (high_surrogate x); cbn [andb].
    + rewrite IH2 by done. change (0 <? S (S run))%nat with true. destruct ws2, (0 <? run)%nat; lia.
    + rewrite (IH2 0%nat) by done. change (0 <? 0)%nat with false. destruct ws2, (0 <? run)%nat; cbn [andb]; lia.
  - rewrite (IH (length ws1) ltac:(cbn; lia) 0%nat ws1 eq_refl H1 eq_refl), Hr, andb_true_r. cbn [overlooked].
    destruct ws1 as [|x ws2]; rewrite ?Ec; destruct (low_surrogate c), (0 <? run)%nat; cbn; lia.
Qed.
Lemma hidden_nonneg run ws : 0 <= hidden_pairs run ws.
Proof. revert run. induction ws as [|c ws IH]; intros run; cbn [hidden_pairs]; [lia|]. pose proof (IH (S run)). pose proof (IH 0%nat). repeat case_match; lia. Qed.

(** A row that goes on at the start of [ws], and one that begins behind a unit of [ws]. *)
Definition row_ends (run : nat) ws : Prop := exists hs x ws2, ws = hs ++ x :: ws2 /\ highs hs /\ low_surrogate x = true /\
  (0 < run + length hs)%nat /\ Nat.even (run + length hs) = true.
Definition later_row ws : Prop := exists ws1 c ws2, ws = ws1 ++ c :: ws2 /\ high_surrogate c = false /\ row_ends 0 ws2.
Lemma row_ends_cons run c ws : 0 <= c < 65536 ->
  row_ends run (c :: ws) <-> if high_surrogate c then row_ends (S run) ws else low_surrogate c && (0 <? run)%nat && Nat.even run = true.
Proof.
  intros Hc. split.
  - intros ([|h hs] & x & ws2 & [= <- ->] & Hh & Hx & H0 & He); cbn [length] in *.
    + rewrite (low_not_high c), Hx by done. rewrite Nat.add_0_r in *. by rewrite He, (proj2 (Nat.ltb_lt _ _)).
    + apply Forall_cons in Hh as [-> Hh]. exists hs, x, ws2. rewrite Nat.add_succ_r in *. done.
  - destruct (high_surrogate c) eqn:Ec.
    + intros (hs & x & ws2 & -> & Hh & Hx & H0 & He). exists (c :: hs), x, ws2. cbn [length]. rewrite Nat.add_succ_r. split_and!; [done|by constructor|done..].
    + intros [[Hl H0]%andb_true_iff He]%andb_true_iff. exists [], c, ws. cbn [length]. rewrite Nat.add_0_r. apply Nat.ltb_lt in H0. by split_and!; [|constructor|..].
Qed.
Lemma later_row_cons c ws : later_row (c :: ws) <-> later_row ws \/ high_surrogate c = false /\ row_ends 0 ws.
Proof.
  split.
  - intros ([|d ws1] & e & ws2 & [= <- ->] & He & Hr); [by right|]. left. by exists ws1, e, ws2.
  - intros [(ws1 & e & ws2 & -> & H)|[Hc Hr]]; [by exists (c :: ws1), e, ws2|by exists [], c, ws].
Qed.
Lemma hidden_rows run ws : Forall (fun x => 0 <= x < 65536) ws -> 0 < hidden_pairs run ws <-> row_ends run ws \/ later_row ws.
Proof.
  intros H. revert run. induction H as [|c ws Hc H IH]; intros run; cbn [hidden_pairs].
  { split; [lia|]. intros [([] & ? & ? & ? & _)|([] & ? & ? & ? & _)]; done. }
  rewrite row_ends_cons, later_row_cons by done. destruct (high_surrogate c).
  - rewrite IH. naive_solver.
  - pose proof (hidden_nonneg 0 ws). specialize (IH 0%nat). destruct (low_surrogate c && (0 <? run)%nat && Nat.even run) eqn:E; split; try lia; try naive_solver lia.
Qed.
Lemma hidden_pair_rows ws : hidden_pair ws <-> row_ends 0 ws \/ later_row ws.
Proof.
  split.
  - intros (ws1 & hs & x & ws2 & -> & Hh & Hx & Hne & He & Hl). assert (row_ends 0 (hs ++ x :: ws2)) as Hr.
    { exists hs, x, ws2. split_and!; try done. destruct hs; [done|cbn; lia]. }
    destruct ws1 as [|c ws1 _] using rev_ind; [by left|]. right. exists ws1, c, (hs ++ x :: ws2). rewrite last_snoc in Hl. rewrite <- app_assoc. auto.
  - assert (forall ws, row_ends 0 ws -> exists hs x ws2, ws = hs ++ x :: ws2 /\ highs hs /\ low_surrogate x = true /\ hs ≠ [] /\ Nat.even (length hs) = true) as Hr.
    { intros ws' (hs & x & ws2 & -> & Hh & Hx & H0 & He). exists hs, x, ws2. split_and!; try done. by destruct hs; [cbn in H0; lia|]. }
    intros [(hs & x & ws2 & -> & H1 & H2 & H3 & H4)%Hr|(ws1 & c & ws' & -> & Hc & (hs & x & ws2 & -> & H1 & H2 & H3 & H4)%Hr)].
    + exists [], hs, x, ws2. split_and!; try done.
    + exists (ws1 ++ [c]), hs, x, ws2. rewrite <- app_assoc. split_and!; try done. intros d. rewrite last_snoc. by intros [= <-].
Qed.
(** The loop overlooks pairs just where the string hides them. *)
Lemma overlooked_hidden ws : Forall (fun x => 0 <= x < 65536) ws -> 0 < overlooked ws <-> hidden_pair ws.
Proof.
  intros H. rewrite hidden_pair_rows, <- hidden_rows, (hidden_overlooked 0 ws H eq_refl) by done. cbn. lia.
Qed.

(** Whatever the bytes are, the units stored are those that were measured. *)
Lemma units_measured mem n fuel i len m l : utf8_measure fuel mem i n len = Ok m -> 0 <= m ->
  utf8_convert fuel mem i n = Ok l -> 0 <= len -> m = len + Z.of_nat (length l).
Proof.
  revert i len l. induction fuel as [|fuel IH]; intros i len l Hm H0 Hc Hl; cbn [utf8_measure utf8_convert] in *; destruct (i <? n)%nat; try done.
  1,3: case_match; simplify_eq; cbn; lia.
  destruct (rd mem i) as [b|]; [rewrite bind_Ok in Hm; rewrite bind_Ok in Hc|done]. cbv zeta in *.
  destruct (utf8_to_utf32_codepoint mem i (utf8_codepoint_len b)) as [c|]; [rewrite bind_Ok in Hm; rewrite bind_Ok in Hc|done].
  destruct (utf8_convert fuel mem (i + utf8_codepoint_len b) n) as [l'|] eqn:E; [rewrite bind_Ok in Hc; simplify_eq|done].
  rewrite (IH _ _ _ Hm H0 E) by (case_match; lia). rewrite length_app. unfold put_utf16.
  destruct (Z.ltb_spec 0xFFFF c), (Z.leb_spec c 0xFFFF); cbn; lia.
Qed.
Lemma units_converted mem n fuel i len m : utf8_measure fuel mem i n len = Ok m -> exists l, utf8_convert fuel mem i n = Ok l.
Proof.
  revert i len. induction fuel as [|fuel IH]; intros i len Hm; cbn [utf8_measure utf8_convert] in *; destruct (i <? n)%nat; eauto; try done.
  destruct (rd mem i) as [b|]; [rewrite bind_Ok in Hm; rewrite bind_Ok|done]. cbv zeta in *.
  destruct (utf8_to_utf32_codepoint mem i (utf8_codepoint_len b)) as [c|]; [rewrite bind_Ok in Hm; rewrite bind_Ok|done].
  destruct (IH _ _ Hm) as [l ->]. rewrite bind_Ok. eauto.
Qed.

(** C23: a string is made in the memory that was measured for it, with one exception.  From
    UTF-8, whatever the bytes: when a length is measured the memory is filled exactly, with
    the units and a zero.  From UTF-16, whatever the units: the memory is filled exactly
    unless somewhere an even number of high surrogates in a row, two or more, stands before
    a low one; then, and only then, more is written than was allocated, though every unit
    was in range. *)
Theorem strings_fit mem n ws : n ≠ 0%nat -> ws ≠ [] -> Forall (fun x => 0 <= x < 65536) ws ->
  (forall m, utf8_to_utf16_length mem n = Ok m -> 0 <= m -> 2 * (m + 1) < 2 ^ 64 - sizeof_SharedBuffer ->
     malloc (sizeof_SharedBuffer + 2 * (m + 1)) = true ->
     exists l, String16_allocFromUTF8 mem n = Ok (l ++ [0]) /\ Z.of_nat (length l) = m) /\
  (let bytes := utf16_to_utf8_length ws in bytes + 1 < 2 ^ 64 - sizeof_SharedBuffer -> malloc (sizeof_SharedBuffer + (bytes + 1)) = true ->
     (~ hidden_pair ws -> allocFromUTF16 ws = Ok (utf16_to_utf8 ws) /\ Z.of_nat (length (utf16_to_utf8 ws)) = bytes + 1) /\
     (hidden_pair ws -> allocFromUTF16 ws = Fault OOPS)).
Proof.
  intros Hn Hne H. split.
  - intros m Hm H0 Hs Ha. pose proof Hm as [l Hl]%units_converted. exists l. pose proof (units_measured _ _ _ _ _ _ _ Hm H0 Hl ltac:(lia)).
    unfold String16_allocFromUTF8, utf8_to_utf16, utf8_to_utf16_no_null_terminator.
    rewrite (proj2 (Nat.eqb_neq _ _)), Hm, bind_Ok, (proj2 (Z.ltb_ge _ _)), allocated, Hl, !bind_Ok by (done || lia).
    split; [apply store_fits; rewrite length_app; cbn|]; lia.
  - intros bytes Hs Ha. pose proof (utf16_measured ws Hne H) as [H0 Hst]. pose proof (overlooked_nonneg ws). subst bytes.
    assert (allocFromUTF16 ws = store_in (utf16_to_utf8_length ws + 1) 1 (utf16_to_utf8 ws)) as ->.
    { unfold allocFromUTF16. destruct ws as [|c ws]; [done|]. cbv zeta. by rewrite (proj2 (Z.ltb_ge _ _)), allocated by (done || lia). }
    rewrite <- (overlooked_hidden ws H). split; intros E; [split; [apply store_fits|]; lia|apply store_overflows; lia].
Qed.
End Alloc.

Lemma unicode_roundtrip_witness : Forall scalar [0xE9; 0x1F600; 65] /\
  utf8_to_utf32 true ([0xC3; 0xA9; 0xF0; 0x9F; 0x98; 0x80; 65] ++ [0x80]) 7 = Ok [0xE9; 0x1F600; 65; 0].
Proof.
  assert (Forall scalar [0xE9; 0x1F600; 65]) as H.
  { repeat constructor; unfold kUnicodeMaxCodepoint, kUnicodeSurrogateStart, kUnicodeSurrogateEnd; lia. }
  split; [done|]. exact (proj1 (proj2 (proj2 (proj2 (unicode_roundtrip true [0xE9; 0x1F600; 65] [0x80] ltac:(done) H))))).
Defined.
(** Two high surrogates and a low one: one byte is allocated and five are written.  With three
    of them the memory is filled. *)
Lemma two_highs : hidden_pair [0xD800; 0xD83D; 0xDE00].
Proof. exists [], [0xD800; 0xD83D], 0xDE00, []. split_and!; try done. by repeat constructor. Qed.
Example three_highs : allocFromUTF16 (fun _ => true) [0xD800; 0xD800; 0xD83D; 0xDE00] = Ok [0xF0; 0x9F; 0x98; 0x80; 0].
Proof. done. Qed.
Lemma strings_fit_witness : String16_allocFromUTF8 (fun _ => true) [0xF0; 0x9F; 0x98; 0x80; 0xC3; 0xA9] 4 = Ok [0xD83D; 0xDE00; 0] /\
  utf16_to_utf8_length [0xD800; 0xD83D; 0xDE00] = 0 /\ allocFromUTF16 (fun _ => true) [0xD800; 0xD83D; 0xDE00] = Fault OOPS.
Proof.
  destruct (strings_fit (fun _ => true) [0xF0; 0x9F; 0x98; 0x80; 0xC3; 0xA9] 4 [0xD800; 0xD83D; 0xDE00] ltac:(lia) ltac:(done) ltac:(repeat constructor; lia)) as [H1 H2].
  split_and!; [|done|exact (proj2 (H2 eq_refl eq_refl) two_highs)]. destruct (H1 2 eq_refl ltac:(lia) eq_refl eq_refl) as (l & Hl & _). vm_compute. done.
Defined.

(** ** Lengths and comparison *)
(** Where [char] is signed no character beyond ASCII is accepted. *)
Example length_signed : utf8_length true [0xC3; 0xA9; 0] = Ok (-1) /\ utf8_length false [0xC3; 0xA9; 0] = Ok 2.
Proof. done. Qed.
(** A truncated string is read beyond its length. *)
Example reads_beyond : utf8_to_utf16_length [0xC3; 7] 1 = Ok (-1) /\ utf8_to_utf16_length [0xC3] 1 = Fault OOPS.
Proof. done. Qed.
Example copy_cut : strncpy16 true [0x4E2D; 0x100; 5; 0] 4 = Ok [0x2D; 0; 0] /\ strncpy16 true [0xE9; 7; 0] 2 = Ok [0xFFE9; 7; 0].
Proof. done. Qed.

(** Strings without a zero among their units are equal when they compare equal, and the
    comparison is antisymmetric. *)
Lemma strzcmp16_equal s1 s2 : Forall (fun x => x ≠ 0) s1 -> Forall (fun x => x ≠ 0) s2 -> strzcmp16 s1 s2 = 0 <-> s1 = s2.
Proof.
  intros H. revert s2. induction H as [|a s1 Ha _ IH]; intros s2 H2; destruct H2 as [|b s2 Hb H2]; cbn [strzcmp16].
  1,2,3: split; [intros; try done; lia|done].
  cbv zeta. destruct (Z.eqb_spec (a - b) 0) as [E|E]; cbn [negb].
  { rewrite IH by done. assert (a = b) as -> by lia. split; [by intros ->|by intros [= ->]]. }
  split; [lia|intros [= -> _]; lia].
Qed.
Lemma strzcmp16_antisymmetric s1 s2 : strzcmp16 s2 s1 = - strzcmp16 s1 s2.
Proof.
  revert s2. induction s1 as [|a s1 IH]; intros [|b s2]; cbn [strzcmp16]; [lia..|]. cbv zeta. rewrite IH.
  destruct (Z.eqb_spec (a - b) 0), (Z.eqb_spec (b - a) 0); cbn [negb]; lia.
Qed.
(** The copy is as long as it says, and a zero. *)
Lemma strncpy16_length signed_char mem n l : strncpy16 signed_char mem n = Ok l -> (1 <= length l <= S n)%nat /\ last l = Some 0.
Proof.
  revert mem l. induction n as [|n IH]; intros mem l H; cbn [strncpy16] in H; [simplify_eq; cbn; split; [lia|done]|].
  destruct mem as [|p mem]; [done|]. cbv zeta in H. case_match; [simplify_eq; cbn; split; [lia|done]|].
  apply bind_Ok_inv in H as (l' & Hl & [= <-]). apply IH in Hl as [Hn Hl]. split; [cbn; lia|]. by rewrite last_cons, Hl.
Qed.
