(* ===== verification/Vector.v ===== *)
(** * Vectors (libs/utils/VectorImpl.cpp, SharedBuffer.cpp, TypeHelpers.h)

    A vector is a pointer to a counted buffer of slots and a number of items; copies of a
    vector share the buffer until one of them is changed.  A slot is raw memory or holds
    an item.  What C++ leaves to the programmer is checked: to use an item that is not
    there is a fault, and so is to lose one whose destructor does something, by writing
    over it or by freeing its buffer. *)
From S2P Require Import Prelude.

Definition BAD_VALUE : Z := - EINVAL.
Definition NO_MEMORY : Z := - ENOMEM.
Definition NAME_NOT_FOUND : Z := -2.
Definition BAD_INDEX : Z := -75.
Definition NO_ERROR : Z := 0.
Definition kMinVectorCapacity : Z := 4.
Definition sizeof_SharedBuffer : Z := 24.

(** The traits of the type of the items; the flags of a vector are the first three. *)
Class Item (A : Type) := {
  mItemSize : Z;
  trivial_ctor : bool;
  trivial_dtor : bool;
  trivial_copy : bool;
  trivial_move : bool;
  new_item : A
}.

Record SharedBuffer (A : Type) := MkBuffer { mRefs : Z; mSize : Z; slots : list (option A) }.
Arguments MkBuffer {A} _ _ _.
Arguments mRefs {A} _.
Arguments mSize {A} _.
Arguments slots {A} _.
Definition set_mRefs {A} (b : SharedBuffer A) (n : Z) : SharedBuffer A := MkBuffer n (mSize b) (slots b).
Definition set_slots {A} (b : SharedBuffer A) (l : list (option A)) : SharedBuffer A := MkBuffer (mRefs b) (mSize b) l.

(** What the C library answers to [malloc(n)] and [realloc(p, n)], if there is memory. *)
Class Malloc (A : Type) := {
  malloc_at : gmap Z (SharedBuffer A) -> Z -> option Z;
  realloc_at : gmap Z (SharedBuffer A) -> Z -> Z -> option Z
}.

(** Where items are read from: storage of the caller, or a buffer. *)
Inductive source (A : Type) : Type := Outside (l : list (option A)) | Inside (p : Z).
Arguments Outside {A} _.
Arguments Inside {A} _.

Record VectorImpl := MkVector { mStorage : Z; mCount : Z }.

Section Vector.
Context {A : Type} `{!Item A} `{!Malloc A}.
Abbreviation memory := (gmap Z (SharedBuffer A)).
Implicit Types (h : memory) (p : Z) (src : source A) (i j n : nat).

(** ** Slots *)
Definition read_item h src i : res (option A) :=
  match src with Outside l => deref (l !! i) | Inside p => b ← deref (h !! p); deref (slots b !! i) end.
Definition put_item h p i (x : option A) : res memory :=
  b ← deref (h !! p); old ← deref (slots b !! i);
  if negb trivial_dtor && bool_decide (is_Some old) then Fault OOPS else Ok (<[p := set_slots b (<[i := x]> (slots b))]> h).
Definition end_item h p i : res memory :=
  b ← deref (h !! p); x ← deref (slots b !! i); _ ← deref x; Ok (<[p := set_slots b (<[i := None]> (slots b))]> h).
Definition get_item h src i : res A := x ← read_item h src i; deref x.

Fixpoint read_items h src i n : res (list (option A)) :=
  match n with O => Ok [] | S n => x ← read_item h src i; l ← read_items h src (S i) n; Ok (x :: l) end.
Fixpoint put_items h p i (l : list (option A)) : res memory :=
  match l with [] => Ok h | x :: l => h ← put_item h p i x; put_items h p (S i) l end.
Definition memcpy h p i src j n : res memory := l ← read_items h src j n; put_items h p i l.
Fixpoint end_items h p i n : res memory :=
  match n with O => Ok h | S n => h ← end_item h p i; end_items h p (S i) n end.
(** The bytes stay where they were, but they are no items any more. *)
Definition memmove h p i j n : res memory :=
  l ← read_items h (Inside p) j n; h ← (if trivial_dtor then Ok h else end_items h p j n); put_items h p i l.

(** ** TypeHelpers.h *)
Fixpoint construct_loop h p i n : res memory :=
  match n with O => Ok h | S n => h ← put_item h p i (Some new_item); construct_loop h p (S i) n end.
Definition construct_type h p i n : res memory := if trivial_ctor then Ok h else construct_loop h p i n.
Definition destroy_type h p i n : res memory := if trivial_dtor then Ok h else end_items h p i n.
Fixpoint copy_loop h p i src j n : res memory :=
  match n with
  | O => Ok h
  | S n => a ← get_item h src j; h ← put_item h p i (Some a); copy_loop h p (S i) src (S j) n
  end.
Definition copy_type h p i src j n : res memory := if trivial_copy then memcpy h p i src j n else copy_loop h p i src j n.
Fixpoint splat_type h p i src j n : res memory :=
  match n with
  | O => Ok h
  | S n =>
      x ← (if trivial_copy then read_item h src j else a ← get_item h src j; Ok (Some a));
      h ← put_item h p i x; splat_type h p (S i) src j n
  end.
(** One item from [j] to [i]. *)
Definition move_item h p i j : res memory :=
  x ← (if trivial_copy then read_item h (Inside p) j else a ← get_item h (Inside p) j; Ok (Some a));
  h ← put_item h p i x;
  if trivial_dtor then Ok h else end_item h p j.
Fixpoint move_down h p i j n : res memory :=
  match n with O => Ok h | S n => h ← move_item h p (i + n) (j + n); move_down h p i j n end.
Fixpoint move_up h p i j n : res memory :=
  match n with O => Ok h | S n => h ← move_item h p i j; move_up h p (S i) (S j) n end.
Definition move_forward_type h p i j n : res memory :=
  if (trivial_dtor && trivial_copy) || trivial_move then memmove h p i j n else move_down h p i j n.
Definition move_backward_type h p i j n : res memory :=
  if (trivial_dtor && trivial_copy) || trivial_move then memmove h p i j n else move_up h p i j n.

(** ** SharedBuffer.cpp *)
Definition free h p : res memory :=
  b ← deref (h !! p);
  if negb trivial_dtor && existsb (fun x : option A => bool_decide (is_Some x)) (slots b) then Fault OOPS else Ok (delete p h).
Definition room (size : Z) : nat := Z.to_nat ((size - sizeof_SharedBuffer) / mItemSize).
(** NULL is 0. *)
Definition alloc h (size : Z) : Z * memory :=
  let total := u64 (sizeof_SharedBuffer + size) in
  match malloc_at h total with
  | None => (0, h)
  | Some p => (p, <[p := MkBuffer 1 size (replicate (room total) None)]> h)
  end.
Definition dealloc h p : res (Z * memory) :=
  b ← deref (h !! p); if negb (mRefs b =? 0) then Ok (-1, h) else h ← free h p; Ok (0, h).
Definition onlyOwner h p : res bool := b ← deref (h !! p); Ok (mRefs b =? 1).
Definition acquire h p : res memory := b ← deref (h !! p); Ok (<[p := set_mRefs b (s32 (mRefs b + 1))]> h).
(** The number of references before; [keep] is eKeepStorage. *)
Definition release h p (keep : bool) : res (Z * memory) :=
  b ← deref (h !! p);
  let only := mRefs b =? 1 in
  let prev := if only then 1 else mRefs b in
  let h := <[p := set_mRefs b (if only then 0 else s32 (mRefs b - 1))]> h in
  h ← (if (prev =? 1) && negb keep then free h p else Ok h);
  Ok (prev, h).
Definition attemptEdit h p : res Z := own ← onlyOwner h p; Ok (if own : bool then p else 0).
(** [memcpy] of the data, in items: buffers hold whole items. *)
Definition copy_data h q p (size : Z) : res memory := memcpy h q 0 (Inside p) 0 (Z.to_nat (size / mItemSize)).
Definition edit h p : res (Z * memory) :=
  own ← onlyOwner h p;
  if own : bool then Ok (p, h) else
  b ← deref (h !! p);
  let '(q, h) := alloc h (mSize b) in
  if q =? 0 then Ok (0, h) else
  h ← copy_data h q p (mSize b);
  '(_, h) ← release h p false;
  Ok (q, h).
(** [realloc] keeps the slots that fit. *)
Definition resized (b : SharedBuffer A) (newSize : Z) : SharedBuffer A :=
  let n := room (u64 (sizeof_SharedBuffer + newSize)) in
  MkBuffer (mRefs b) newSize (take n (slots b) ++ replicate (n - length (slots b)) None).
Definition editResize_copy h p (newSize : Z) : res (Z * memory) :=
  let '(q, h) := alloc h newSize in
  if q =? 0 then Ok (0, h) else
  b ← deref (h !! p);
  h ← copy_data h q p (if newSize <? mSize b then newSize else mSize b);
  '(_, h) ← release h p false;
  Ok (q, h).
Definition editResize h p (newSize : Z) : res (Z * memory) :=
  own ← onlyOwner h p;
  if own : bool then
    b ← deref (h !! p);
    if mSize b =? newSize then Ok (p, h) else
    match realloc_at h p (u64 (sizeof_SharedBuffer + newSize)) with
    | Some q => Ok (q, <[q := resized b newSize]> (delete p h))
    | None => editResize_copy h p newSize
    end
  else editResize_copy h p newSize.
(** [malloc(mItemSize)]: a block for one item. *)
Definition alloc_block h : Z * memory :=
  match malloc_at h mItemSize with
  | None => (0, h)
  | Some p => (p, <[p := MkBuffer 0 mItemSize [None]]> h)
  end.
Definition reset h p (new_size : Z) : res (Z * memory) :=
  let '(q, h) := alloc h new_size in
  if q =? 0 then Ok (0, h) else '(_, h) ← release h p false; Ok (q, h).

(** ** VectorImpl.cpp

    An operation works on the memory and on [this]. *)
Record vstate := MkV { mem : memory; this : VectorImpl }.
Definition V (B : Type) : Type := vstate -> res (B * vstate).
#[export] Instance V_ret : MRet V := fun B b s => Ok (b, s).
#[export] Instance V_bind : MBind V := fun B C f m s => match m s with Ok (b, s) => f b s | Fault e => Fault e end.
Definition storage : V Z := fun s => Ok (mStorage (this s), s).
Definition size : V Z := fun s => Ok (mCount (this s), s).
Definition set_mStorage p : V unit := fun s => Ok (tt, MkV (mem s) (MkVector p (mCount (this s)))).
Definition set_mCount (n : Z) : V unit := fun s => Ok (tt, MkV (mem s) (MkVector (mStorage (this s)) n)).
(** What only looks at the memory, what changes it, and both. *)
Definition look {B} (f : memory -> res B) : V B := fun s => b ← f (mem s); Ok (b, s).
Definition change (f : memory -> res memory) : V unit := fun s => h ← f (mem s); Ok (tt, MkV h (this s)).
Definition call {B} (f : memory -> res (B * memory)) : V B := fun s => '(b, h) ← f (mem s); Ok (b, MkV h (this s)).

Definition _do_construct p (i : Z) (num : Z) : V unit :=
  if trivial_ctor then mret tt else change (fun h => construct_type h p (Z.to_nat i) (Z.to_nat num)).
Definition _do_destroy p (i : Z) (num : Z) : V unit :=
  if trivial_dtor then mret tt else change (fun h => destroy_type h p (Z.to_nat i) (Z.to_nat num)).
Definition _do_copy p (i : Z) src (j : Z) (num : Z) : V unit :=
  if negb trivial_copy then change (fun h => copy_type h p (Z.to_nat i) src (Z.to_nat j) (Z.to_nat num))
  else change (fun h => memcpy h p (Z.to_nat i) src (Z.to_nat j) (Z.to_nat num)).
Definition _do_splat p (i : Z) src (j : Z) (num : Z) : V unit :=
  change (fun h => splat_type h p (Z.to_nat i) src (Z.to_nat j) (Z.to_nat num)).
Definition _do_move_forward p (i j num : Z) : V unit :=
  change (fun h => move_forward_type h p (Z.to_nat i) (Z.to_nat j) (Z.to_nat num)).
Definition _do_move_backward p (i j num : Z) : V unit :=
  change (fun h => move_backward_type h p (Z.to_nat i) (Z.to_nat j) (Z.to_nat num)).

Definition capacity : V Z :=
  p ← storage; if p =? 0 then mret 0 else look (fun h => b ← deref (h !! p); Ok (mSize b / mItemSize)).
Definition release_storage : V unit :=
  p ← storage;
  if p =? 0 then mret tt else
  prev ← call (fun h => release h p true);
  if prev =? 1 then
    n ← size;
    _ ← _do_destroy p 0 n;
    _ ← call (fun h => dealloc h p); mret tt
  else mret tt.
(** The storage; when there is no memory for a copy it is still the shared one. *)
Definition editArrayImpl : V Z :=
  p ← storage;
  if p =? 0 then storage else
  sb ← look (fun h => attemptEdit h p);
  if sb =? 0 then
    c ← capacity;
    q ← call (fun h => Ok (alloc h (u64 (c * mItemSize))));
    if q =? 0 then storage else
    n ← size;
    _ ← _do_copy q 0 (Inside p) 0 n;
    _ ← release_storage;
    _ ← set_mStorage q;
    storage
  else storage.
(** The place of an item: the storage and the index, if it is not NULL. *)
Definition itemLocation (index : Z) : V (option (Z * Z)) :=
  c ← capacity;
  if index <? c then p ← storage; mret (if p =? 0 then None else Some (p, index)) else mret None.
Definition editItemLocation (index : Z) : V (option (Z * Z)) :=
  c ← capacity;
  if index <? c then p ← editArrayImpl; mret (if p =? 0 then None else Some (p, index)) else mret None.

(** [VectorImpl(const VectorImpl&)], and [this = rhs]: [self] says that they are the same object. *)
Definition copy_vector (rhs : VectorImpl) : V unit :=
  _ ← set_mStorage (mStorage rhs);
  _ ← set_mCount (mCount rhs);
  if negb (mStorage rhs =? 0) then change (fun h => acquire h (mStorage rhs)) else mret tt.
Definition assign (self : bool) (rhs : VectorImpl) : V unit :=
  if negb self then
    _ ← release_storage;
    if negb (mCount rhs =? 0) then
      _ ← set_mStorage (mStorage rhs);
      _ ← set_mCount (mCount rhs);
      change (fun h => acquire h (mStorage rhs))
    else _ ← set_mStorage 0; set_mCount 0
  else mret tt.
Definition finish_vector : V unit := _ ← release_storage; _ ← set_mStorage 0; set_mCount 0.

(** The storage of a vector that grows or shrinks at its end and has plain items is
    resized; otherwise the items are copied around the gap. *)
Definition plain : bool := trivial_copy && trivial_dtor.
Definition regrow (where_ amount new_size : Z) : V bool :=
  let new_capacity := kMinVectorCapacity `max` (u64 (u64 (new_size * 3) + 1) / 2) in
  p ← storage; n ← size;
  if negb (p =? 0) && (n =? where_) && plain then
    q ← call (fun h => editResize h p (u64 (new_capacity * mItemSize)));
    if q =? 0 then mret false else _ ← set_mStorage q; mret true
  else
    q ← call (fun h => Ok (alloc h (u64 (new_capacity * mItemSize))));
    if q =? 0 then mret false else
    _ ← (if negb (where_ =? 0) then _do_copy q 0 (Inside p) 0 where_ else mret tt);
    _ ← (if negb (where_ =? n) then _do_copy q (u64 (where_ + amount)) (Inside p) where_ (n - where_) else mret tt);
    _ ← release_storage;
    _ ← set_mStorage q;
    mret true.
Definition _grow (where_ amount : Z) : V (option (Z * Z)) :=
  n ← size;
  let new_size := u64 (n + amount) in
  c ← capacity;
  ok ← (if c <? new_size then regrow where_ amount new_size
        else
          p ← editArrayImpl;
          _ ← (if negb (where_ =? n) then _do_move_forward p (u64 (where_ + amount)) where_ (n - where_) else mret tt);
          mret true);
  if ok : bool then _ ← set_mCount new_size; itemLocation where_ else mret None.
Definition reshrink (where_ amount new_size : Z) : V bool :=
  let new_capacity := kMinVectorCapacity `max` u64 (new_size * 2) in
  p ← storage;
  if (where_ =? new_size) && plain then
    q ← call (fun h => editResize h p (u64 (new_capacity * mItemSize)));
    if q =? 0 then mret false else _ ← set_mStorage q; mret true
  else
    q ← call (fun h => Ok (alloc h (u64 (new_capacity * mItemSize))));
    if q =? 0 then mret false else
    _ ← (if negb (where_ =? 0) then _do_copy q 0 (Inside p) 0 where_ else mret tt);
    _ ← (if negb (where_ =? new_size) then _do_copy q where_ (Inside p) (u64 (where_ + amount)) (new_size - where_) else mret tt);
    _ ← release_storage;
    _ ← set_mStorage q;
    mret true.
Definition _shrink (where_ amount : Z) : V unit :=
  p ← storage;
  if p =? 0 then mret tt else
  n ← size;
  let new_size := u64 (n - amount) in
  c ← capacity;
  ok ← (if u64 (new_size * 3) <? c then reshrink where_ amount new_size
        else
          p ← editArrayImpl;
          _ ← _do_destroy p where_ amount;
          _ ← (if negb (where_ =? new_size) then _do_move_backward p where_ (u64 (where_ + amount)) (new_size - where_) else mret tt);
          mret true);
  if ok : bool then set_mCount new_size else mret tt.

(** Pointers to items: [Some (src, j)], or NULL. *)
Definition insertArrayAt src (j index length : Z) : V Z :=
  n ← size;
  if n <? index then mret BAD_INDEX else
  w ← _grow index length;
  match w with Some (p, i) => _ ← _do_copy p i src j length; mret index | None => mret NO_MEMORY end.
Definition appendArray src (j length : Z) : V Z := n ← size; insertArrayAt src j n length.
Definition insertVectorAt (vector : VectorImpl) (index : Z) : V Z := insertArrayAt (Inside (mStorage vector)) 0 index (mCount vector).
Definition appendVector (vector : VectorImpl) : V Z := n ← size; insertVectorAt vector n.
Definition insertAt (item : option (source A * Z)) (index numItems : Z) : V Z :=
  n ← size;
  if n <? index then mret BAD_INDEX else
  w ← _grow index numItems;
  match w with
  | Some (p, i) =>
      _ ← match item with Some (src, j) => _do_splat p i src j numItems | None => _do_construct p i numItems end;
      mret index
  | None => mret NO_MEMORY
  end.
Definition removeItemsAt (index count : Z) : V Z :=
  n ← size; if n <? u64 (index + count) then mret BAD_VALUE else _ ← _shrink index count; mret index.
Definition pop : V unit := n ← size; if negb (n =? 0) then _ ← removeItemsAt (n - 1) 1; mret tt else mret tt.
Definition push (item : option (source A * Z)) : V unit := n ← size; _ ← insertAt item n 1; mret tt.
Definition add (item : option (source A * Z)) : V Z := n ← size; insertAt item n 1.
Definition same_place (item : option (Z * Z)) (prototype : option (source A * Z)) : bool :=
  match item, prototype with
  | Some (p, i), Some (Inside q, j) => (p =? q) && (i =? j)
  | None, None => true
  | _, _ => false
  end.
Definition replaceAt (prototype : option (source A * Z)) (index : Z) : V Z :=
  n ← size;
  if n <=? index then mret BAD_INDEX else
  item ← editItemLocation index;
  if negb (same_place item prototype) then
    match item with
    | None => mret NO_MEMORY
    | Some (p, i) =>
        _ ← _do_destroy p i 1;
        _ ← match prototype with None => _do_construct p i 1 | Some (src, j) => _do_copy p i src j 1 end;
        mret index
    end
  else mret index.
Definition clear : V unit := n ← size; _shrink 0 n.
Definition setCapacity (new_capacity : Z) : V Z :=
  current_capacity ← capacity;
  n ← size;
  let amount := s64 (new_capacity - n) in
  if amount <=? 0 then mret current_capacity else
  q ← call (fun h => Ok (alloc h (u64 (new_capacity * mItemSize))));
  if q =? 0 then mret NO_MEMORY else
  p ← storage;
  _ ← _do_copy q 0 (Inside p) 0 n;
  _ ← release_storage;
  _ ← set_mStorage q;
  mret new_capacity.
Definition resize (new_size : Z) : V Z :=
  n ← size;
  result ← (if n <? new_size then insertAt None n (new_size - n)
            else if new_size <? n then removeItemsAt new_size (n - new_size) else mret NO_ERROR);
  mret (if result <? 0 then result else new_size).

(** *** Sorting: insertion, with the moving item in a block of its own *)
Section Sort.
Variable cmp : A -> A -> Z.
Definition compare_items (p : Z) (i : Z) (q : Z) (j : Z) : V Z :=
  look (fun h => x ← get_item h (Inside p) (Z.to_nat i); y ← get_item h (Inside q) (Z.to_nat j); Ok (cmp x y)).
(** From [curr], the place where [temp] goes; [next] is the one after it. *)
Fixpoint slide array temp (curr : nat) : V Z :=
  let next := Z.of_nat (S curr) in
  _ ← _do_destroy array next 1;
  _ ← _do_copy array next (Inside array) (Z.of_nat curr) 1;
  match curr with
  | O => mret (Z.of_nat curr)
  | S j => c ← compare_items array (Z.of_nat j) temp 0; if 0 <? c then slide array temp j else mret (Z.of_nat curr)
  end.
Definition place array temp (i : nat) : V unit :=
  _ ← _do_copy temp 0 (Inside array) (Z.of_nat i) 1;
  next ← slide array temp (i - 1);
  _ ← _do_destroy array next 1;
  _do_copy array next (Inside temp) 0 1.
(** [count] rounds are left; the status, and the block if there is one. *)
Fixpoint sort_loop (todo i : nat) array temp : V (Z * Z) :=
  match todo with
  | O => mret (NO_ERROR, temp)
  | S todo =>
      c ← compare_items array (Z.of_nat (i - 1)) array (Z.of_nat i);
      if 0 <? c then
        if temp =? 0 then
          array ← editArrayImpl;
          if array =? 0 then mret (NO_MEMORY, 0) else
          temp ← call (fun h => Ok (alloc_block h));
          if temp =? 0 then mret (NO_MEMORY, 0) else
          _ ← place array temp i;
          sort_loop todo (S i) array temp
        else
          _ ← _do_destroy temp 0 1;
          _ ← place array temp i;
          sort_loop todo (S i) array temp
      else sort_loop todo (S i) array temp
  end.
Definition sort : V Z :=
  count ← size;
  if 1 <? count then
    array ← storage;
    '(status, temp) ← sort_loop (Z.to_nat count - 1) 1 array 0;
    if negb (status =? NO_ERROR) then mret status else
    _ ← (if negb (temp =? 0) then _ ← _do_destroy temp 0 1; change (fun h => free h temp) else mret tt);
    mret NO_ERROR
  else mret NO_ERROR.
End Sort.

(** ** SortedVectorImpl *)
Section Sorted.
(** [lhs < rhs] of the items. *)
Variable lt : A -> A -> bool.
Definition strictly_order_type (lhs rhs : A) : Z := if lt lhs rhs then 1 else 0.
Definition compare_type (lhs rhs : A) : Z := strictly_order_type rhs lhs - strictly_order_type lhs rhs.
Definition do_compare src (i : Z) src2 (j : Z) : V Z :=
  look (fun h => x ← get_item h src (Z.to_nat i); y ← get_item h src2 (Z.to_nat j); Ok (compare_type x y)).

(** The index, or an error, and the place of the item. *)
Fixpoint search (fuel : nat) (item : source A * Z) (a l h : Z) : V (Z * Z) :=
  if l <=? h then
    match fuel with
    | O => fun _ => Fault HANG
    | S fuel =>
        let mid := l + (h - l) / 2 in
        c ← do_compare (Inside a) mid (fst item) (snd item);
        if c =? 0 then mret (mid, mid)
        else if c <? 0 then search fuel item a (mid + 1) h
        else search fuel item a l (mid - 1)
    end
  else mret (NAME_NOT_FOUND, l).
Definition _indexOrderOf (item : source A * Z) : V (Z * Z) :=
  n ← size;
  if n =? 0 then mret (NAME_NOT_FOUND, 0) else
  a ← storage;
  search (Z.to_nat n) item a 0 (n - 1).
Definition indexOf (item : source A * Z) : V Z := '(err, _) ← _indexOrderOf item; mret err.
Definition orderOf (item : source A * Z) : V Z := '(_, o) ← _indexOrderOf item; mret o.
Definition sorted_add (item : source A * Z) : V Z :=
  '(index, order) ← _indexOrderOf item;
  if index <? 0 then insertAt (Some item) order 1 else replaceAt (Some item) index.
Fixpoint merge_loop (todo : nat) (buffer i : Z) : V Z :=
  match todo with
  | O => mret NO_ERROR
  | S todo => err ← sorted_add (Inside buffer, i); if err <? 0 then mret err else merge_loop todo buffer (i + 1)
  end.
Definition merge (vector : VectorImpl) : V Z :=
  if negb (mCount vector =? 0) then merge_loop (Z.to_nat (mCount vector)) (mStorage vector) 0 else mret NO_ERROR.
(** [vector.itemLocation]. *)
Definition location_in (vector : VectorImpl) (index : Z) : V (source A * Z) :=
  c ← look (fun h => if mStorage vector =? 0 then Ok 0 else b ← deref (h !! mStorage vector); Ok (mSize b / mItemSize));
  mret (if index <? c then (Inside (mStorage vector), index) else (Inside 0, 0)).
Definition merge_sorted (vector : VectorImpl) : V Z :=
  if negb (mCount vector =? 0) then
    '(last, i) ← location_in vector (u64 (mCount vector - 1));
    p ← storage;
    c ← do_compare last i (Inside p) 0;
    if c <=? 0 then insertVectorAt vector 0 else
    n ← size;
    w ← itemLocation (u64 (n - 1));
    let '(p, i) := default (0, 0) w in
    c ← do_compare (Inside (mStorage vector)) 0 (Inside p) i;
    if 0 <=? c then appendVector vector else merge vector
  else mret NO_ERROR.
Definition remove (item : source A * Z) : V Z :=
  i ← indexOf item;
  if 0 <=? i then _ ← removeItemsAt i 1; mret i else mret i.
End Sorted.
End Vector.

(** ** Items to try it with: numbers, and objects that own something

    Memory that never ends: the next address. *)
Definition next_address {A} (h : gmap Z (SharedBuffer A)) : Z := 1 + map_fold (fun p _ m => p `max` m) 0 h.
Lemma below_next {A} (h : gmap Z (SharedBuffer A)) p b : h !! p = Some b -> p < next_address h.
Proof.
  unfold next_address. revert p b. refine (map_fold_weak_ind (fun m h => forall p b, h !! p = Some b -> p < 1 + m) _ _ _ _ h).
  - intros p b H. by rewrite lookup_empty in H.
  - intros q c h' m _ IH p b H. destruct (decide (p = q)) as [->|Hn]; [lia|].
    rewrite lookup_insert_ne in H by done. specialize (IH _ _ H). lia.
Qed.
Lemma next_positive {A} (h : gmap Z (SharedBuffer A)) : 0 < next_address h.
Proof.
  unfold next_address. refine (map_fold_weak_ind (fun m _ => 0 < 1 + m) _ _ _ _ h); [lia|]. intros. lia.
Qed.
#[export] Instance endless A : Malloc A := { malloc_at h n := Some (next_address h); realloc_at h p n := Some p }.
Inductive number : Set := Number (n : Z).
Inductive object : Set := Object (n : Z).
#[export] Instance numbers : Item number := { mItemSize := 4; trivial_ctor := true; trivial_dtor := true; trivial_copy := true; trivial_move := true; new_item := Number 0 }.
#[export] Instance objects : Item object := { mItemSize := 16; trivial_ctor := false; trivial_dtor := false; trivial_copy := false; trivial_move := false; new_item := Object 0 }.
Definition value_of (x : object) : Z := match x with Object n => n end.
Definition by_value (x y : object) : Z := value_of x - value_of y.
Definition lt_value (x y : object) : bool := value_of x <? value_of y.
(** The vector of these objects, made by pushing them. *)
Fixpoint pushes (l : list Z) (s : vstate (A := object)) : res (vstate (A := object)) :=
  match l with [] => Ok s | n :: l => '(_, s) ← push (Some (Outside [Some (Object n)], 0)) s; pushes l s end.
Definition items (s : vstate (A := object)) : list (option object) :=
  match mem s !! mStorage (this s) with Some b => take (Z.to_nat (mCount (this s))) (slots b) | None => [] end.
Definition nothing : vstate (A := object) := MkV ∅ (MkVector 0 0).
Definition after {B} (m : V B) (s : vstate) : res (B * list (option object)) := '(b, s) ← m s; Ok (b, items s).
