(* ===== verification/VectorInv.v ===== *)
(** * Vectors: items, storage and growth (libs/utils/VectorImpl.cpp, SharedBuffer.cpp)

    What the loops over slots do, how a vector is its list, what an operation on one
    vector leaves alone, and the steps that all operations share: to get storage of one's
    own, to let it go, and to open a gap. *)
From S2P Require Import Prelude Vector.

(** What the C library promises, and what is asked of the type of the items: what needs no
    constructor is copied as bytes and needs no destructor. *)
Class MallocLaws (A : Type) `{!Malloc A} : Prop := {
  malloc_fresh (h : gmap Z (SharedBuffer A)) n p : malloc_at h n = Some p -> 0 < p /\ h !! p = None;
  realloc_fresh (h : gmap Z (SharedBuffer A)) p n q : realloc_at h p n = Some q -> q = p \/ (0 < q /\ h !! q = None)
}.
(** Memory is there when it is asked for. *)
Class Plenty (A : Type) `{!Malloc A} : Prop := plenty (h : gmap Z (SharedBuffer A)) (n : Z) : exists p, malloc_at h n = Some p.
Class ItemLaws (A : Type) `{!Item A} : Prop := {
  item_size : 0 < mItemSize < 2 ^ 32;
  plain_ctor : trivial_ctor = true -> plain = true
}.

Section Items.
Context {A : Type} `{!Item A, !Malloc A, !ItemLaws A, !MallocLaws A, !Plenty A}.
Abbreviation memory := (gmap Z (SharedBuffer A)).
Implicit Types (h : memory) (p q : Z) (src : source A) (i j n : nat) (l pre post gap : list (option A)) (b : SharedBuffer A).

(** ** Slots that may be written, and slots that may be read *)
Definition raw l : Prop := trivial_dtor = false -> Forall (fun x => x = None) l.
Definition live l : Prop := plain = false -> Forall is_Some l.

Lemma raw_app l1 l2 : raw (l1 ++ l2) <-> raw l1 /\ raw l2.
Proof. unfold raw. setoid_rewrite Forall_app. tauto. Qed.
Lemma live_app l1 l2 : live (l1 ++ l2) <-> live l1 /\ live l2.
Proof. unfold live. setoid_rewrite Forall_app. tauto. Qed.
Lemma raw_cons x l : raw (x :: l) <-> raw [x] /\ raw l.
Proof. exact (raw_app [x] l). Qed.
Lemma live_cons x l : live (x :: l) <-> live [x] /\ live l.
Proof. exact (live_app [x] l). Qed.
Lemma raw_nones n : raw (replicate n None).
Proof. intros _. by apply Forall_replicate. Qed.
Lemma raw_nil : raw [].
Proof. intros _. constructor. Qed.
Lemma live_nil : live [].
Proof. intros _. constructor. Qed.
Lemma live_some x : live [x] -> trivial_copy = false \/ trivial_dtor = false -> exists a, x = Some a.
Proof.
  unfold live, plain. intros H Hc. assert (trivial_copy && trivial_dtor = false) as E by (destruct Hc as [-> | ->]; rewrite ?andb_false_r; done).
  specialize (H E). apply Forall_singleton in H as [a ->]. eauto.
Qed.

Lemma set_slots_id b : set_slots b (slots b) = b.
Proof. by destruct b. Qed.
Lemma insert_same h p b l : h !! p = Some b -> l = slots b -> <[p := set_slots b l]> h = h.
Proof. intros H ->. rewrite set_slots_id. by apply insert_id. Qed.
Lemma slot_at pre x post : (pre ++ x :: post) !! length pre = Some x.
Proof. by rewrite lookup_app_r, Nat.sub_diag by lia. Qed.
Lemma put_item_ok h p b i pre old post x : h !! p = Some b -> slots b = pre ++ old :: post -> i = length pre -> raw [old] ->
  put_item h p i x = Ok (<[p := set_slots b (pre ++ x :: post)]> h).
Proof.
  intros Hp Hs -> Hr. unfold put_item. rewrite Hp. cbn [deref mbind res_bind]. rewrite Hs, slot_at. cbn [deref mbind res_bind].
  rewrite insert_app_r_alt, Nat.sub_diag by lia. destruct trivial_dtor eqn:E; [done|].
  specialize (Hr E). apply Forall_singleton in Hr as ->. done.
Qed.
Lemma put_items_ok h p b i pre gap post l : h !! p = Some b -> slots b = pre ++ gap ++ post -> i = length pre -> length gap = length l -> raw gap ->
  put_items h p i l = Ok (<[p := set_slots b (pre ++ l ++ post)]> h).
Proof.
  revert h b i pre gap. induction l as [|x l IH]; intros h b i pre gap Hp Hs -> Hl Hr; cbn [put_items].
  { destruct gap; [|done]. by rewrite insert_same. }
  destruct gap as [|y gap]; [done|]. apply raw_cons in Hr as [Hy Hr]. injection Hl as Hl.
  rewrite (put_item_ok h p b _ pre y (gap ++ post)) by done. rewrite bind_Ok.
  erewrite (IH _ (set_slots b (pre ++ x :: gap ++ post)) _ (pre ++ [x]) gap); [..|done].
  - rewrite insert_insert_eq. unfold set_slots. cbn. by rewrite <- app_assoc.
  - by rewrite lookup_insert_eq.
  - cbn. by rewrite <- app_assoc.
  - rewrite length_app. cbn. lia.
  - done.
Qed.
Lemma end_items_ok h p b i pre l post : h !! p = Some b -> slots b = pre ++ l ++ post -> i = length pre -> Forall is_Some l ->
  end_items h p i (length l) = Ok (<[p := set_slots b (pre ++ replicate (length l) None ++ post)]> h).
Proof.
  revert h b i pre. induction l as [|x l IH]; intros h b i pre Hp Hs -> Hl; cbn [end_items length].
  { by rewrite insert_same. }
  apply Forall_cons in Hl as [[a ->] Hl]. cbn [app] in Hs. unfold end_item. rewrite Hp. cbn [deref mbind res_bind]. rewrite Hs, slot_at. cbn [deref mbind res_bind].
  rewrite insert_app_r_alt, Nat.sub_diag by lia.
  erewrite (IH _ (set_slots b (pre ++ None :: l ++ post)) _ (pre ++ [None])); [..|done].
  - rewrite insert_insert_eq. unfold set_slots. cbn. by rewrite <- app_assoc.
  - by rewrite lookup_insert_eq.
  - cbn. by rewrite <- app_assoc.
  - rewrite length_app. cbn. lia.
Qed.

(** ** Reading *)
Definition reads h src j l : Prop := forall k x, l !! k = Some x -> read_item h src (j + k) = Ok x.
Lemma reads_cons h src j x l : reads h src j (x :: l) -> read_item h src j = Ok x /\ reads h src (S j) l.
Proof. intros H. split; [rewrite <- (Nat.add_0_r j); by apply H|]. intros k y Hk. rewrite Nat.add_succ_l, <- Nat.add_succ_r. by apply H. Qed.
Lemma reads_inside h p b pre l post j : h !! p = Some b -> slots b = pre ++ l ++ post -> j = length pre -> reads h (Inside p) j l.
Proof.
  intros Hp Hs -> k x Hk. cbn. rewrite Hp. cbn. rewrite Hs, lookup_app_r, Nat.add_comm, Nat.add_sub, lookup_app_l by (try apply lookup_lt_Some in Hk; lia).
  by rewrite Hk.
Qed.
Lemma reads_outside h l j pre post : j = length pre -> reads h (Outside (pre ++ l ++ post)) j l.
Proof.
  intros -> k x Hk. cbn. rewrite lookup_app_r, Nat.add_comm, Nat.add_sub, lookup_app_l by (try apply lookup_lt_Some in Hk; lia). by rewrite Hk.
Qed.
Lemma read_items_ok h src j l : reads h src j l -> read_items h src j (length l) = Ok l.
Proof.
  revert j. induction l as [|x l IH]; intros j H; [done|]. apply reads_cons in H as [Hx H]. cbn [length read_items]. by rewrite Hx, bind_Ok, IH by done.
Qed.
Lemma read_insert h p b src j : src ≠ Inside p -> read_item (<[p := b]> h) src j = read_item h src j.
Proof. destruct src as [|q]; [done|]. intros H. cbn. by rewrite lookup_insert_ne by congruence. Qed.
Lemma reads_insert h p b src j l : src ≠ Inside p -> reads h src j l -> reads (<[p := b]> h) src j l.
Proof. intros Hs H k x Hk. rewrite read_insert by done. by apply H. Qed.

Lemma copy_loop_ok h p b i src j pre gap post l : h !! p = Some b -> slots b = pre ++ gap ++ post -> i = length pre -> length gap = length l -> raw gap ->
  Forall is_Some l -> reads h src j l -> src ≠ Inside p \/ (length l <= 1)%nat ->
  copy_loop h p i src j (length l) = Ok (<[p := set_slots b (pre ++ l ++ post)]> h).
Proof.
  revert h b i j pre gap. induction l as [|x l IH]; intros h b i j pre gap Hp Hs -> Hl Hr Hv Hd Hn; cbn [copy_loop length].
  { destruct gap; [|done]. by rewrite insert_same. }
  destruct gap as [|y gap]; [done|]. apply raw_cons in Hr as [Hy Hr]. injection Hl as Hl. apply Forall_cons in Hv as [[a ->] Hv]. apply reads_cons in Hd as [Hx Hd].
  unfold get_item. rewrite Hx. cbn [mbind res_bind deref].
  rewrite (put_item_ok h p b _ pre y (gap ++ post)) by done. rewrite bind_Ok.
  destruct l as [|z l].
  { destruct gap; [|done]. done. }
  erewrite (IH _ (set_slots b (pre ++ Some a :: gap ++ post)) _ _ (pre ++ [Some a]) gap).
  - rewrite insert_insert_eq. unfold set_slots. cbn. by rewrite <- app_assoc.
  - by rewrite lookup_insert_eq.
  - cbn. by rewrite <- app_assoc.
  - rewrite length_app. cbn. lia.
  - done.
  - done.
  - done.
  - destruct Hn as [Hn|Hn]; [by apply reads_insert|cbn in Hn; lia].
  - destruct Hn as [Hn|Hn]; [by left|cbn in Hn; lia].
Qed.

(** ** The flagged operations on the slots of one buffer *)
Definition copied h p i src j n : res memory := if negb trivial_copy then copy_type h p i src j n else memcpy h p i src j n.
Lemma copied_ok h p b i src j pre gap post l : h !! p = Some b -> slots b = pre ++ gap ++ post -> i = length pre -> length gap = length l -> raw gap ->
  live l -> reads h src j l -> src ≠ Inside p \/ (length l <= 1)%nat ->
  copied h p i src j (length l) = Ok (<[p := set_slots b (pre ++ l ++ post)]> h).
Proof.
  intros Hp Hs Hi Hl Hr Hv Hd Hn. unfold copied, copy_type. destruct trivial_copy eqn:E; cbn [negb].
  - unfold memcpy. rewrite read_items_ok by done. rewrite bind_Ok. by eapply put_items_ok.
  - eapply copy_loop_ok; try done. apply Hv. unfold plain. by rewrite E.
Qed.
Lemma splat_ok h p b i src j pre gap post x : h !! p = Some b -> slots b = pre ++ gap ++ post -> i = length pre -> raw gap ->
  live [x] -> read_item h src j = Ok x -> src ≠ Inside p ->
  splat_type h p i src j (length gap) = Ok (<[p := set_slots b (pre ++ replicate (length gap) x ++ post)]> h).
Proof.
  revert h b i pre. induction gap as [|y gap IH]; intros h b i pre Hp Hs -> Hr Hv Hd Hn; cbn [splat_type length].
  { by rewrite insert_same. }
  apply raw_cons in Hr as [Hy Hr].
  assert ((if trivial_copy then read_item h src j else a ← get_item h src j; Ok (Some a)) = Ok x) as ->.
  { destruct trivial_copy eqn:E; [done|]. destruct (live_some x Hv) as [a ->]; [by left|]. unfold get_item. by rewrite Hd. }
  rewrite bind_Ok, (put_item_ok h p b _ pre y (gap ++ post)), bind_Ok by done.
  erewrite (IH _ (set_slots b (pre ++ x :: gap ++ post)) _ (pre ++ [x])).
  - rewrite insert_insert_eq. unfold set_slots. cbn. by rewrite <- app_assoc.
  - by rewrite lookup_insert_eq.
  - cbn. by rewrite <- app_assoc.
  - rewrite length_app. cbn. lia.
  - done.
  - done.
  - by rewrite read_insert.
  - done.
Qed.
Definition constructed : option A := if trivial_ctor then None else Some new_item.
Lemma construct_ok h p b i pre gap post : h !! p = Some b -> slots b = pre ++ gap ++ post -> i = length pre -> raw gap ->
  exists l, (if trivial_ctor then Ok h else construct_type h p i (length gap)) = Ok (<[p := set_slots b (pre ++ l ++ post)]> h) /\ length l = length gap /\
  live l /\ (trivial_ctor = false -> l = replicate (length gap) (Some new_item)).
Proof.
  intros Hp Hs Hi Hr. unfold construct_type. destruct trivial_ctor eqn:E.
  { exists gap. split_and!; [by rewrite insert_same|done| |done]. intros Hc. by rewrite plain_ctor in Hc. }
  exists (replicate (length gap) (Some new_item)). split_and!; [|by rewrite length_replicate| |done].
  2: { intros _. apply Forall_replicate. eauto. }
  clear E. revert h b i pre Hp Hs Hi Hr. induction gap as [|y gap IH]; intros h b i pre Hp Hs -> Hr; cbn [construct_loop length].
  { by rewrite insert_same. }
  apply raw_cons in Hr as [Hy Hr]. rewrite (put_item_ok h p b _ pre y (gap ++ post)), bind_Ok by done.
  erewrite (IH _ (set_slots b (pre ++ Some new_item :: gap ++ post)) _ (pre ++ [Some new_item])).
  - rewrite insert_insert_eq. unfold set_slots. cbn. by rewrite <- app_assoc.
  - by rewrite lookup_insert_eq.
  - cbn. by rewrite <- app_assoc.
  - rewrite length_app. cbn. lia.
  - done.
Qed.
Definition destroyed h p i n : res memory := if trivial_dtor then Ok h else destroy_type h p i n.
Lemma destroyed_ok h p b i pre l post : h !! p = Some b -> slots b = pre ++ l ++ post -> i = length pre -> live l ->
  exists gap, destroyed h p i (length l) = Ok (<[p := set_slots b (pre ++ gap ++ post)]> h) /\ length gap = length l /\ raw gap.
Proof.
  intros Hp Hs Hi Hl. unfold destroyed, destroy_type. destruct trivial_dtor eqn:E.
  - exists l. split_and!; [by rewrite insert_same|done|]. unfold raw. by rewrite E.
  - exists (replicate (length l) None). split_and!; [|by rewrite length_replicate|apply raw_nones].
    eapply end_items_ok; try done. apply Hl. unfold plain. by rewrite E, andb_false_r.
Qed.

(** ** Moving items over a gap *)
Lemma end_item_ok h p b i pre x post : h !! p = Some b -> slots b = pre ++ x :: post -> i = length pre -> is_Some x ->
  end_item h p i = Ok (<[p := set_slots b (pre ++ None :: post)]> h).
Proof.
  intros Hp Hs Hi Hx. pose proof (end_items_ok h p b i pre [x] post Hp Hs Hi ltac:(by constructor)) as H. cbn [length end_items] in H.
  destruct (end_item h p i); [|done]. cbn in H. by injection H as ->.
Qed.
Definition left_behind (x : option A) : option A := if trivial_dtor then x else None.
Lemma raw_left x : raw [left_behind x].
Proof. unfold raw, left_behind. intros ->. by repeat constructor. Qed.
(** The two places are given by splitting the slots around each. *)
Lemma move_item_ok h p b i j pre x post pre2 y post2 : h !! p = Some b -> slots b = pre ++ x :: post -> slots b = pre2 ++ y :: post2 ->
  j = length pre -> i = length pre2 -> i ≠ j -> live [x] -> raw [y] ->
  move_item h p i j = Ok (<[p := set_slots b (<[j := left_behind x]> (<[i := x]> (slots b)))]> h).
Proof.
  intros Hp Hs Hs2 Hj Hi Hn Hv Hr. unfold move_item.
  assert (read_item h (Inside p) j = Ok x) as Hd. { cbn. rewrite Hp. cbn. by rewrite Hs, Hj, slot_at. }
  assert ((if trivial_copy then read_item h (Inside p) j else a ← get_item h (Inside p) j; Ok (Some a)) = Ok x) as ->.
  { destruct trivial_copy eqn:E; [done|]. destruct (live_some x Hv) as [a ->]; [by left|]. unfold get_item. by rewrite Hd. }
  rewrite bind_Ok, (put_item_ok h p b i pre2 y post2), bind_Ok by done.
  assert (pre2 ++ x :: post2 = <[i := x]> (slots b)) as ->. { by rewrite Hs2, Hi, insert_app_r_alt, Nat.sub_diag by lia. }
  unfold left_behind. destruct trivial_dtor eqn:E.
  { rewrite (list_insert_id (<[i := x]> (slots b)) j x); [done|]. rewrite list_lookup_insert_ne by done. by rewrite Hs, Hj, slot_at. }
  destruct (live_some x Hv) as [a ->]; [by right|]. unfold end_item. rewrite lookup_insert_eq. cbn [deref mbind res_bind slots set_slots].
  rewrite list_lookup_insert_ne, Hs, Hj, slot_at by congruence. cbn [deref mbind res_bind]. by rewrite insert_insert_eq.
Qed.
Lemma move_down_ok h p b pre l gap post i j : h !! p = Some b -> slots b = pre ++ l ++ gap ++ post -> j = length pre -> i = (j + length gap)%nat -> gap ≠ [] ->
  raw gap -> live l ->
  exists gap', move_down h p i j (length l) = Ok (<[p := set_slots b (pre ++ gap' ++ l ++ post)]> h) /\ length gap' = length gap /\ raw gap'.
Proof.
  revert h b gap post. induction l as [|x l IH] using rev_ind; intros h b gap post Hp Hs Hj Hi Hg Hr Hv.
  { exists gap. by rewrite insert_same. }
  rewrite length_app, Nat.add_1_r. cbn [move_down]. apply live_app in Hv as [Hv Hx].
  destruct (exists_last Hg) as (gap0 & y & ->). apply raw_app in Hr as [Hr Hy]. rewrite length_app in Hi. cbn in Hi.
  assert (slots b = (pre ++ l) ++ x :: (gap0 ++ y :: post)) as H1 by (by rewrite Hs, <- !app_assoc).
  assert (slots b = (pre ++ l ++ x :: gap0) ++ y :: post) as H2 by (by rewrite Hs, <- !app_assoc).
  rewrite (move_item_ok h p b _ _ _ _ _ _ _ _ Hp H1 H2) by (done || (rewrite !length_app; cbn; lia) || lia). rewrite bind_Ok.
  assert (<[(j + length l)%nat:=left_behind x]> (<[(i + length l)%nat:=x]> (slots b)) = pre ++ l ++ (left_behind x :: gap0) ++ x :: post) as ->.
  { replace (j + length l)%nat with (length (pre ++ l)) by (rewrite length_app; lia). replace (i + length l)%nat with (length (pre ++ l ++ x :: gap0)) by (rewrite !length_app; cbn; lia).
    rewrite H2, insert_app_r_alt, Nat.sub_diag by lia. cbn. rewrite <- !app_assoc, (app_assoc pre l), insert_app_r_alt, Nat.sub_diag by lia. by rewrite <- !app_assoc. }
  edestruct (IH (<[p:=set_slots b (pre ++ l ++ (left_behind x :: gap0) ++ x :: post)]> h) (set_slots b (pre ++ l ++ (left_behind x :: gap0) ++ x :: post)) (left_behind x :: gap0) (x :: post)) as (gap' & -> & Hl' & Hr');
    [by rewrite lookup_insert_eq|done|done|cbn; lia|done|rewrite raw_cons; split; [apply raw_left|done]|done|].
  exists gap'. split_and!; [|rewrite Hl', length_app; cbn; lia|done]. rewrite insert_insert_eq. unfold set_slots. cbn. by rewrite <- app_assoc.
Qed.
Lemma move_up_ok h p b pre l gap post i j : h !! p = Some b -> slots b = pre ++ gap ++ l ++ post -> i = length pre -> j = (i + length gap)%nat -> gap ≠ [] ->
  raw gap -> live l ->
  exists gap', move_up h p i j (length l) = Ok (<[p := set_slots b (pre ++ l ++ gap' ++ post)]> h) /\ length gap' = length gap /\ raw gap'.
Proof.
  revert h b gap pre i j. induction l as [|x l IH]; intros h b gap pre i j Hp Hs Hi Hj Hg Hr Hv.
  { exists gap. by rewrite insert_same. }
  cbn [length move_up]. apply live_cons in Hv as [Hx Hv]. destruct gap as [|y gap0]; [done|]. apply raw_cons in Hr as [Hy Hr]. cbn in Hj.
  assert (slots b = (pre ++ y :: gap0) ++ x :: (l ++ post)) as H1 by (by rewrite Hs, <- !app_assoc).
  assert (slots b = pre ++ y :: (gap0 ++ x :: l ++ post)) as H2 by done.
  rewrite (move_item_ok h p b _ _ _ _ _ _ _ _ Hp H1 H2) by (done || (rewrite ?length_app; cbn; lia) || lia). rewrite bind_Ok.
  assert (<[j:=left_behind x]> (<[i:=x]> (slots b)) = (pre ++ [x]) ++ (gap0 ++ [left_behind x]) ++ l ++ post) as ->.
  { rewrite H2, Hi, insert_app_r_alt, Nat.sub_diag by lia. cbn [insert list_insert]. change (pre ++ x :: gap0 ++ x :: l ++ post) with (pre ++ [x] ++ gap0 ++ x :: l ++ post).
    rewrite !app_assoc, insert_app_r_alt by (rewrite !length_app; cbn; lia). rewrite !length_app. cbn. replace (j - (length pre + 1 + length gap0))%nat with 0%nat by lia. cbn. by rewrite <- !app_assoc. }
  edestruct (IH (<[p:=set_slots b ((pre ++ [x]) ++ (gap0 ++ [left_behind x]) ++ l ++ post)]> h) (set_slots b ((pre ++ [x]) ++ (gap0 ++ [left_behind x]) ++ l ++ post)) (gap0 ++ [left_behind x]) (pre ++ [x]) (S i) (S j)) as (gap' & -> & Hl' & Hr');
    [by rewrite lookup_insert_eq|done|rewrite length_app; cbn; lia|rewrite length_app; cbn; lia|by destruct gap0|rewrite raw_app; split; [done|apply raw_left]|done|].
  exists gap'. split_and!; [|rewrite Hl', length_app; cbn; lia|done]. rewrite insert_insert_eq. unfold set_slots. cbn. by rewrite <- app_assoc.
Qed.

(** [memmove] of [l] into a window of slots that it lies in. *)
Lemma memmove_ok h p b pre l mid post i j (w1 w2 : list (option A)) : h !! p = Some b -> slots b = pre ++ mid ++ post ->
  (exists a c, mid = a ++ l ++ c /\ j = length (pre ++ a) /\ raw a /\ raw c) -> length mid = (length w1 + length l + length w2)%nat ->
  i = (length pre + length w1)%nat -> live l ->
  exists g1 g2, memmove h p i j (length l) = Ok (<[p := set_slots b (pre ++ g1 ++ l ++ g2 ++ post)]> h) /\ length g1 = length w1 /\ length g2 = length w2 /\ raw g1 /\ raw g2.
Proof.
  intros Hp Hs (a & c & Hm & Hj & Ha & Hc) Hw Hi Hv. unfold memmove.
  rewrite read_items_ok by (eapply (reads_inside h p b (pre ++ a) l (c ++ post)); [done|by rewrite Hs, Hm, <- !app_assoc|done]). rewrite bind_Ok.
  assert (exists m', (if trivial_dtor then Ok h else end_items h p j (length l)) = Ok (<[p := set_slots b (pre ++ m' ++ post)]> h) /\ length m' = length mid /\ raw m') as (m' & -> & Hl & Hr).
  { destruct trivial_dtor eqn:E.
    - exists mid. split_and!; [by rewrite insert_same|done|]. unfold raw. by rewrite E.
    - exists (a ++ replicate (length l) None ++ c). split_and!.
      + rewrite (end_items_ok h p b _ (pre ++ a) l (c ++ post)); [by rewrite <- !app_assoc|done|by rewrite Hs, Hm, <- !app_assoc|done|].
        apply Hv. unfold plain. by rewrite E, andb_false_r.
      + by rewrite Hm, !length_app, length_replicate.
      + rewrite !raw_app. split_and!; [done|apply raw_nones|done]. }
  rewrite bind_Ok. exists (take (length w1) m'), (drop (length w1 + length l) m').
  assert (m' = take (length w1) m' ++ take (length l) (drop (length w1) m') ++ drop (length w1 + length l) m') as Hm'.
  { by rewrite <- drop_drop, take_drop, take_drop. }
  rewrite Hm' in Hr. apply raw_app in Hr as [Hr1 [Hr2 Hr3]%raw_app].
  rewrite (put_items_ok _ p (set_slots b (pre ++ m' ++ post)) i (pre ++ take (length w1) m') (take (length l) (drop (length w1) m')) (drop (length w1 + length l) m' ++ post)).
  - split_and!; [|rewrite length_take; lia|rewrite length_drop; lia|done|done]. rewrite insert_insert_eq. unfold set_slots. cbn. by rewrite <- !app_assoc.
  - by rewrite lookup_insert_eq.
  - cbn. rewrite Hm' at 1. by rewrite <- !app_assoc.
  - rewrite length_app, length_take. lia.
  - rewrite length_take, length_drop. lia.
  - done.
Qed.
Lemma move_forward_ok h p b pre l gap post i j : h !! p = Some b -> slots b = pre ++ l ++ gap ++ post -> j = length pre -> i = (j + length gap)%nat -> gap ≠ [] ->
  raw gap -> live l ->
  exists gap', move_forward_type h p i j (length l) = Ok (<[p := set_slots b (pre ++ gap' ++ l ++ post)]> h) /\ length gap' = length gap /\ raw gap'.
Proof.
  intros Hp Hs Hj Hi Hg Hr Hv. unfold move_forward_type. case_match; [|by apply move_down_ok].
  destruct (memmove_ok h p b pre l (l ++ gap) post i j gap []) as (g1 & g2 & -> & H1 & H2 & H3 & H4).
  - done.
  - by rewrite Hs, <- app_assoc.
  - exists [], gap. rewrite app_nil_r. split_and!; try done. apply raw_nil.
  - rewrite length_app. cbn. lia.
  - lia.
  - done.
  - exists g1. by destruct g2.
Qed.
Lemma move_backward_ok h p b pre l gap post i j : h !! p = Some b -> slots b = pre ++ gap ++ l ++ post -> i = length pre -> j = (i + length gap)%nat -> gap ≠ [] ->
  raw gap -> live l ->
  exists gap', move_backward_type h p i j (length l) = Ok (<[p := set_slots b (pre ++ l ++ gap' ++ post)]> h) /\ length gap' = length gap /\ raw gap'.
Proof.
  intros Hp Hs Hi Hj Hg Hr Hv. unfold move_backward_type. case_match; [|by apply move_up_ok].
  destruct (memmove_ok h p b pre l (gap ++ l) post i j [] gap) as (g1 & g2 & -> & H1 & H2 & H3 & H4).
  - done.
  - by rewrite Hs, <- app_assoc.
  - exists gap, []. rewrite app_nil_r, length_app. split_and!; try done; [lia|apply raw_nil].
  - rewrite length_app. cbn. lia.
  - cbn. lia.
  - done.
  - exists g2. by destruct g1.
Qed.

(** ** Vectors and the memory they share *)
Definition wf h : Prop := h !! 0 = None /\ forall p b, h !! p = Some b -> 1 <= mRefs b.
Definition shares h p : Z := match h !! p with Some b => mRefs b | None => 0 end.
Definition data h p : option (Z * list (option A)) := match h !! p with Some b => Some (mSize b, slots b) | None => None end.
Definition holds (v : VectorImpl) p : Z := if mStorage v =? p then 1 else 0.
Definition sized b : Prop := mSize b = Z.of_nat (length (slots b)) * mItemSize /\ mSize b < 2 ^ 62.
(** The vector is the list. *)
Definition owned (s : vstate (A := A)) l : Prop :=
  mCount (this s) = Z.of_nat (length l) /\ live l /\
  if mStorage (this s) =? 0 then l = [] else
  0 < mStorage (this s) /\ exists b extra, mem s !! mStorage (this s) = Some b /\ mRefs b < 2 ^ 31 /\ slots b = l ++ extra /\ raw extra /\ sized b.
(** One vector has changed from [v] to [v'], and its references with it; what others hold is as it was. *)
Definition frame h (v : VectorImpl) h' (v' : VectorImpl) : Prop :=
  (wf h -> wf h') /\ forall p, p ≠ 0 -> let n := shares h p - holds v p in
  shares h' p = n + holds v' p /\ (0 < n -> data h' p = data h p).
Definition changes (s s' : vstate (A := A)) : Prop := frame (mem s) (this s) (mem s') (this s').

Lemma slots_frame_refl h v v' : mStorage v' = mStorage v -> frame h v h v'.
Proof. intros E. split; [done|]. intros p _. unfold holds. rewrite E. split; [lia|done]. Qed.
Lemma slots_frame_trans h v h1 v1 h2 v2 : frame h v h1 v1 -> frame h1 v1 h2 v2 -> frame h v h2 v2.
Proof.
  intros [W1 H1] [W2 H2]. split; [auto|]. intros p Hp. destruct (H1 p Hp) as [E1 D1], (H2 p Hp) as [E2 D2]. split; [lia|].
  intros Hn. rewrite D2, D1 by lia. done.
Qed.
Lemma changes_trans s s1 s2 : changes s s1 -> changes s1 s2 -> changes s s2.
Proof. apply slots_frame_trans. Qed.
Lemma changes_count s s1 s2 : changes s s1 -> mem s2 = mem s1 -> mStorage (this s2) = mStorage (this s1) -> changes s s2.
Proof. unfold changes, frame, holds. by intros H -> ->. Qed.
Lemma shares_insert h p b q : shares (<[p := b]> h) q = if p =? q then mRefs b else shares h q.
Proof. unfold shares. destruct (Z.eqb_spec p q) as [->|H]; [by rewrite lookup_insert_eq|by rewrite lookup_insert_ne]. Qed.
Lemma shares_delete h p q : shares (delete p h) q = if p =? q then 0 else shares h q.
Proof. unfold shares. destruct (Z.eqb_spec p q) as [->|H]; [by rewrite lookup_delete_eq|by rewrite lookup_delete_ne]. Qed.
Lemma data_insert h p b q : data (<[p := b]> h) q = if p =? q then Some (mSize b, slots b) else data h q.
Proof. unfold data. destruct (Z.eqb_spec p q) as [->|H]; [by rewrite lookup_insert_eq|by rewrite lookup_insert_ne]. Qed.
Lemma data_delete h p q : data (delete p h) q = if p =? q then None else data h q.
Proof. unfold data. destruct (Z.eqb_spec p q) as [->|H]; [by rewrite lookup_delete_eq|by rewrite lookup_delete_ne]. Qed.
Lemma shares_some h p b : h !! p = Some b -> shares h p = mRefs b.
Proof. intros H. unfold shares. by rewrite H. Qed.
Lemma shares_none h p : h !! p = None -> shares h p = 0.
Proof. intros H. unfold shares. by rewrite H. Qed.
Lemma wf_insert h p b : wf h -> p ≠ 0 -> 1 <= mRefs b -> wf (<[p := b]> h).
Proof.
  intros [H0 H] Hp Hb. split; [by rewrite lookup_insert_ne|]. intros q c. destruct (decide (q = p)) as [->|Hn].
  - rewrite lookup_insert_eq. by intros [= <-].
  - rewrite lookup_insert_ne by done. apply H.
Qed.
Lemma wf_delete h p : wf h -> wf (delete p h).
Proof. intros [H0 H]. split; [rewrite lookup_delete_None; by right|]. intros q c [_ Hc]%lookup_delete_Some. by eapply H. Qed.

(** A reference is given up. *)
Definition drop_ref h p : memory :=
  match h !! p with Some b => if mRefs b =? 1 then delete p h else <[p := set_mRefs b (mRefs b - 1)]> h | None => h end.
Lemma wf_drop h p : wf h -> wf (drop_ref h p).
Proof.
  intros H. unfold drop_ref. destruct (h !! p) as [b|] eqn:E; [|done]. pose proof H as [H0 H1]. specialize (H1 _ _ E).
  destruct (Z.eqb_spec (mRefs b) 1); [by apply wf_delete|]. apply wf_insert; [done|by intros ->; rewrite H0 in E|cbn; lia].
Qed.
Lemma shares_drop h p q : shares (drop_ref h p) q = shares h q - (if (p =? q) && bool_decide (is_Some (h !! p)) then 1 else 0).
Proof.
  unfold drop_ref. destruct (h !! p) as [b|] eqn:E; [|rewrite bool_decide_false by (intros [? [=]]); rewrite andb_false_r; lia].
  rewrite bool_decide_true, andb_true_r by eauto.
  destruct (Z.eqb_spec (mRefs b) 1) as [E1|E1]; rewrite ?shares_delete, ?shares_insert; destruct (Z.eqb_spec p q) as [->|]; cbn; rewrite ?(shares_some _ _ _ E); lia.
Qed.
Lemma data_drop h p q : p ≠ q \/ 1 < shares h p -> data (drop_ref h p) q = data h q.
Proof.
  intros H. unfold drop_ref. destruct (h !! p) as [b|] eqn:E; [|done]. destruct (Z.eqb_spec (mRefs b) 1) as [E1|E1]; rewrite ?data_delete, ?data_insert; destruct (Z.eqb_spec p q) as [->|]; try done.
  - rewrite (shares_some _ _ _ E) in H. lia.
  - unfold data. by rewrite E.
Qed.
Lemma lookup_drop h p q : p ≠ q -> drop_ref h p !! q = h !! q.
Proof. intros H. unfold drop_ref. destruct (h !! p) as [b|]; [|done]. case_match; [by rewrite lookup_delete_ne|by rewrite lookup_insert_ne]. Qed.

(** The vector has moved to a buffer of its own. *)
Lemma frame_fresh h v q b (n : Z) : h !! q = None -> 0 < q -> mRefs b = 1 -> mStorage v = 0 \/ (exists c, h !! mStorage v = Some c) ->
  frame h v (drop_ref (<[q := b]> h) (mStorage v)) (MkVector q n).
Proof.
  intros Hq H0 Hb Hv. split.
  { intros Hw. apply wf_drop, wf_insert; [done|lia..]. }
  intros p Hp. cbn zeta. set (r := mStorage v) in *.
  assert (r ≠ q) as Hrq. { intros E. destruct Hv as [Hv|[c Hc]]; [lia|]. rewrite E, Hq in Hc. done. }
  rewrite shares_drop, shares_insert, lookup_insert_ne by done. unfold holds. cbn. fold r.
  split.
  - destruct (Z.eqb_spec q p) as [<-|Hqp].
    + rewrite (proj2 (Z.eqb_neq r q)), (shares_none _ _ Hq) by done. cbn. lia.
    + destruct (Z.eqb_spec r p) as [->|]; cbn; [|lia]. destruct Hv as [Hv|[c Hc]]; [lia|]. rewrite bool_decide_true by (rewrite Hc; eauto). lia.
  - intros Hn. rewrite data_drop, data_insert.
    + destruct (Z.eqb_spec q p) as [<-|]; [|done]. rewrite (shares_none _ _ Hq) in Hn. case_match; lia.
    + rewrite shares_insert, (proj2 (Z.eqb_neq q r)) by done. destruct (Z.eqb_spec r p) as [->|]; [right; lia|by left].
Qed.
(** The vector alone has its buffer. *)
Lemma frame_alone h v q b b' (n : Z) : h !! mStorage v = Some b -> mRefs b = 1 -> mRefs b' = 1 -> 0 < q -> q = mStorage v \/ h !! q = None ->
  frame h v (<[q := b']> (delete (mStorage v) h)) (MkVector q n).
Proof.
  intros Hb Hr Hr' H0 Hq. split; [intros Hw; apply wf_insert; [by apply wf_delete|lia..]|].
  intros p Hp. cbn zeta. unfold holds. cbn. rewrite shares_insert, shares_delete, data_insert, data_delete. pose proof (shares_some _ _ _ Hb).
  destruct (Z.eqb_spec q p) as [->|].
  - destruct Hq as [->|Hq]; [rewrite !Z.eqb_refl; split; lia|]. rewrite (shares_none _ _ Hq).
    destruct (Z.eqb_spec (mStorage v) p) as [E|]; [rewrite E in Hb; congruence|]. split; lia.
  - destruct (Z.eqb_spec (mStorage v) p) as [E|]; [subst p; split; lia|]. split; [lia|done].
Qed.
Lemma frame_edit h v v' b b' : h !! mStorage v = Some b -> 0 < mStorage v -> mRefs b = 1 -> mRefs b' = 1 -> mStorage v' = mStorage v ->
  frame h v (<[mStorage v := b']> h) v'.
Proof.
  intros Hb H0 Hr Hr' E. rewrite <- insert_delete_eq. destruct v' as [q n]. cbn in E. subst q. by eapply frame_alone; eauto.
Qed.

(** ** Operations that succeed *)
Definition vp {B} (m : V (A := A) B) (s : vstate (A := A)) (Q : B -> vstate (A := A) -> Prop) : Prop :=
  match m s with Ok (x, s') => Q x s' | Fault _ => False end.
Lemma vp_bind {B C} (m : V (A := A) B) (f : B -> V (A := A) C) s Q : vp m s (fun x s' => vp (f x) s' Q) -> vp (m ≫= f) s Q.
Proof. unfold vp, mbind, V_bind. destruct (m s) as [[x s']|]; auto. Qed.
Lemma vp_mono {B} (m : V (A := A) B) s (P Q : B -> vstate (A := A) -> Prop) : vp m s P -> (forall x s', P x s' -> Q x s') -> vp m s Q.
Proof. unfold vp. destruct (m s) as [[x s']|]; auto. Qed.
Lemma vp_ret {B} (x : B) s (Q : B -> vstate (A := A) -> Prop) : Q x s -> vp (mret x) s Q.
Proof. done. Qed.
Lemma vp_ok {B} (m : V (A := A) B) s x s' (Q : B -> vstate (A := A) -> Prop) : m s = Ok (x, s') -> Q x s' -> vp m s Q.
Proof. unfold vp. by intros ->. Qed.
Lemma V_bind_ok {B C} (m : V (A := A) B) (f : B -> V (A := A) C) s x s' : m s = Ok (x, s') -> (m ≫= f) s = f x s'.
Proof. unfold mbind, V_bind. by intros ->. Qed.
Lemma vp_storage s (Q : Z -> vstate (A := A) -> Prop) : Q (mStorage (this s)) s -> vp storage s Q.
Proof. done. Qed.
Lemma vp_size s (Q : Z -> vstate (A := A) -> Prop) : Q (mCount (this s)) s -> vp size s Q.
Proof. done. Qed.
Lemma vp_change f h' s (Q : unit -> vstate (A := A) -> Prop) : f (mem s) = Ok h' -> Q tt (MkV h' (this s)) -> vp (change f) s Q.
Proof. unfold vp, change. intros ->. done. Qed.

Lemma vp_copy s p b (i j num : Z) src pre gap post l Q : mem s !! p = Some b -> slots b = pre ++ gap ++ post -> i = Z.of_nat (length pre) ->
  num = Z.of_nat (length l) -> length gap = length l -> raw gap -> live l -> reads (mem s) src (Z.to_nat j) l -> src ≠ Inside p \/ (length l <= 1)%nat ->
  Q tt (MkV (<[p := set_slots b (pre ++ l ++ post)]> (mem s)) (this s)) -> vp (_do_copy p i src j num) s Q.
Proof.
  intros Hp Hs -> -> Hl Hr Hv Hd Hn HQ. pose proof (copied_ok (mem s) p b (length pre) src (Z.to_nat j) pre gap post l Hp Hs eq_refl Hl Hr Hv Hd Hn) as H.
  unfold copied in H. unfold _do_copy. destruct trivial_copy; cbn [negb] in *; (eapply vp_change; [rewrite !Nat2Z.id; exact H|done]).
Qed.
Lemma vp_destroy s p b (i num : Z) pre post l (Q : unit -> vstate (A := A) -> Prop) : mem s !! p = Some b -> slots b = pre ++ l ++ post -> i = Z.of_nat (length pre) ->
  num = Z.of_nat (length l) -> live l ->
  (forall gap, length gap = length l -> raw gap -> Q tt (MkV (<[p := set_slots b (pre ++ gap ++ post)]> (mem s)) (this s))) -> vp (_do_destroy p i num) s Q.
Proof.
  intros Hp Hs -> -> Hv HQ. destruct (destroyed_ok (mem s) p b (length pre) pre l post Hp Hs eq_refl Hv) as (gap & H & Hl & Hr).
  unfold destroyed in H. unfold _do_destroy. destruct trivial_dtor; cbn [negb] in *.
  - apply vp_ret. destruct s as [h v]. injection H as H. cbn in H. rewrite H at 1. by apply HQ.
  - eapply vp_change; [rewrite !Nat2Z.id; exact H|auto].
Qed.
Lemma vp_construct s p b (i num : Z) pre gap post (Q : unit -> vstate (A := A) -> Prop) : mem s !! p = Some b -> slots b = pre ++ gap ++ post -> i = Z.of_nat (length pre) ->
  num = Z.of_nat (length gap) -> raw gap ->
  (forall l, length l = length gap -> live l -> (trivial_ctor = false -> l = replicate (length gap) (Some new_item)) ->
     Q tt (MkV (<[p := set_slots b (pre ++ l ++ post)]> (mem s)) (this s))) -> vp (_do_construct p i num) s Q.
Proof.
  intros Hp Hs -> -> Hr HQ. destruct (construct_ok (mem s) p b (length pre) pre gap post Hp Hs eq_refl Hr) as (l & H & Hl & Hv & Hc).
  unfold _do_construct. destruct trivial_ctor.
  - apply vp_ret. destruct s as [h v]. injection H as H. cbn in H. rewrite H at 1. by apply HQ.
  - eapply vp_change; [rewrite !Nat2Z.id; exact H|auto].
Qed.
Lemma vp_splat s p b (i j num : Z) src pre gap post x (Q : unit -> vstate (A := A) -> Prop) : mem s !! p = Some b -> slots b = pre ++ gap ++ post -> i = Z.of_nat (length pre) ->
  num = Z.of_nat (length gap) -> raw gap -> live [x] -> read_item (mem s) src (Z.to_nat j) = Ok x -> src ≠ Inside p ->
  Q tt (MkV (<[p := set_slots b (pre ++ replicate (length gap) x ++ post)]> (mem s)) (this s)) -> vp (_do_splat p i src j num) s Q.
Proof.
  intros Hp Hs -> -> Hr Hv Hd Hn HQ. unfold _do_splat. eapply vp_change; [|exact HQ]. rewrite !Nat2Z.id. by eapply splat_ok.
Qed.


Lemma alloc_ok h (c size : Z) : 0 <= c -> size = c * mItemSize -> size < 2 ^ 62 ->
  exists q, alloc h (u64 size) = (q, <[q := MkBuffer 1 size (replicate (Z.to_nat c) None)]> h) /\ 0 < q /\ h !! q = None.
Proof.
  intros Hc -> Hs. pose proof item_size as Hi. unfold alloc. rewrite (u64_small (c * mItemSize)) by nia. rewrite u64_small by (unfold sizeof_SharedBuffer; nia).
  destruct (plenty h (sizeof_SharedBuffer + c * mItemSize)) as [q Hq]. rewrite Hq. exists q. split; [|by eapply malloc_fresh].
  unfold room. replace (sizeof_SharedBuffer + c * mItemSize - sizeof_SharedBuffer) with (c * mItemSize) by lia. by rewrite Z.div_mul by lia.
Qed.
Definition cap (s : vstate (A := A)) : Z := match mem s !! mStorage (this s) with Some b => Z.of_nat (length (slots b)) | None => 0 end.
Lemma storage_cases s l : wf (mem s) -> owned s l ->
  (mStorage (this s) = 0 /\ mem s !! mStorage (this s) = None /\ l = []) \/
  (0 < mStorage (this s) /\ exists b extra, mem s !! mStorage (this s) = Some b /\ 1 <= mRefs b < 2 ^ 31 /\ slots b = l ++ extra /\ raw extra /\ sized b).
Proof.
  intros [H0 Hw] (_ & _ & H). destruct (Z.eqb_spec (mStorage (this s)) 0) as [E|E]; [left; rewrite E; auto|right].
  destruct H as (Hp & b & extra & Hb & Hr & Hs). split; [done|]. exists b, extra. specialize (Hw _ _ Hb). tauto.
Qed.
Lemma capacity_ok s l : wf (mem s) -> owned s l -> capacity s = Ok (cap s, s).
Proof.
  intros Hw Ho. pose proof item_size. destruct s as [h v]. destruct (storage_cases _ _ Hw Ho) as [(E & E2 & _)|(E & b & extra & Hb & _ & _ & _ & Hs & _)]; cbn in *;
    unfold capacity, cap; erewrite V_bind_ok by reflexivity; cbn.
  - by rewrite E2, E.
  - rewrite (proj2 (Z.eqb_neq _ _)), Hb by lia. unfold look. cbn. rewrite Hb. cbn. by rewrite Hs, Z.div_mul by lia.
Qed.
Lemma vp_capacity s l (Q : Z -> vstate (A := A) -> Prop) : wf (mem s) -> owned s l -> Q (cap s) s -> vp capacity s Q.
Proof. intros Hw Ho. apply vp_ok. by eapply capacity_ok. Qed.

Lemma raw_freed (l : list (option A)) : raw l -> negb trivial_dtor && existsb (fun x : option A => bool_decide (is_Some x)) l = false.
Proof.
  unfold raw. destruct trivial_dtor; [done|]. intros H. specialize (H eq_refl). cbn. induction H as [|x l -> _ IH]; [done|]. exact IH.
Qed.
Lemma vp_release s l (Q : unit -> vstate (A := A) -> Prop) : wf (mem s) -> owned s l -> Q tt (MkV (drop_ref (mem s) (mStorage (this s))) (this s)) -> vp release_storage s Q.
Proof.
  intros Hw Ho HQ. destruct (storage_cases _ _ Hw Ho) as [(E & E2 & _)|(E & b & extra & Hb & Hr & Hs & Hx & _)];
    unfold release_storage; apply vp_bind, vp_storage.
  { rewrite E. cbn. apply vp_ret. revert HQ. unfold drop_ref. rewrite E2. by destruct s. }
  rewrite (proj2 (Z.eqb_neq _ _)) by lia. apply vp_bind. unfold call, vp at 1, release. rewrite Hb. cbn [deref mbind res_bind].
  revert HQ. unfold drop_ref. rewrite Hb. destruct (Z.eqb_spec (mRefs b) 1) as [E1|E1]; intros HQ; cbn.
  - apply vp_bind, vp_size. cbn. destruct Ho as (Hc & Hv & _). apply vp_bind.
    apply (vp_destroy _ _ (set_mRefs b 0) 0 _ [] extra l); cbn; [by rewrite lookup_insert_eq|done|done|done|done|].
    intros gap Hl Hg. rewrite insert_insert_eq. apply vp_bind. unfold call, vp at 1, dealloc, free. cbn. rewrite lookup_insert_eq. cbn.
    rewrite raw_freed by (by apply raw_app). cbn. apply vp_ret. by rewrite delete_insert_eq.
  - rewrite (proj2 (Z.eqb_neq (mRefs b) 1)) by done. cbn. rewrite (proj2 (Z.eqb_neq (mRefs b) 1)) by done. apply vp_ret. by rewrite s32_small in HQ || rewrite s32_small by lia.
Qed.

(** ** Storage of one's own *)
Definition alone (s : vstate (A := A)) l : Prop :=
  0 < mStorage (this s) /\ exists b, mem s !! mStorage (this s) = Some b /\ mRefs b = 1 /\ slots b = l /\ sized b.
Lemma alone_owned s l extra : alone s (l ++ extra) -> raw extra -> live l -> mCount (this s) = Z.of_nat (length l) -> owned s l.
Proof.
  intros (Hp & b & Hb & Hr & Hs & Hz) Hx Hv Hc. split_and!; try done. rewrite (proj2 (Z.eqb_neq _ _)) by lia.
  split; [done|]. exists b, extra. rewrite Hr. split_and!; done.
Qed.
Lemma alone_cap s l : alone s l -> cap s = Z.of_nat (length l).
Proof. intros (Hp & b & Hb & Hr & Hs & Hz). unfold cap. by rewrite Hb, Hs. Qed.
Lemma cap_bound s l : wf (mem s) -> owned s l -> Z.of_nat (length l) <= cap s < 2 ^ 62.
Proof.
  intros Hw Ho. pose proof item_size. unfold cap. destruct (storage_cases _ _ Hw Ho) as [(E & E2 & ->)|(E & b & extra & Hb & _ & Hs & _ & Hz & Hz2)].
  - rewrite E2. cbn. lia.
  - rewrite Hb. rewrite Hs, length_app in *. nia.
Qed.
Lemma cap_sized s l : wf (mem s) -> owned s l -> 0 <= cap s * mItemSize < 2 ^ 62.
Proof.
  intros Hw Ho. pose proof item_size. unfold cap. destruct (storage_cases _ _ Hw Ho) as [(E & E2 & ->)|(E & b & extra & Hb & _ & _ & _ & Hz & Hz2)].
  - rewrite E2. lia.
  - rewrite Hb. nia.
Qed.
Lemma owned_insert h v q b l : h !! q = None -> 0 < q -> owned (MkV h v) l -> owned (MkV (<[q := b]> h) v) l.
Proof.
  intros Hq H0 (Hc & Hv & H). split_and!; [done..|]. cbn in *. destruct (Z.eqb_spec (mStorage v) 0); [done|]. destruct H as (Hp & c & extra & Hb & H).
  split; [done|]. exists c, extra. rewrite lookup_insert_ne by (intros E; rewrite E, Hb in Hq; done). done.
Qed.
(** The items have been brought to a new buffer. *)
Lemma vp_moved {B} s l q b (k : V (A := A) B) Q : wf (mem s) -> owned s l -> mem s !! q = None -> 0 < q -> mRefs b = 1 -> sized b ->
  (forall s', changes s s' -> wf (mem s') -> mCount (this s') = mCount (this s) -> mStorage (this s') = q -> alone s' (slots b) -> vp k s' Q) ->
  vp (_ ← release_storage; _ ← set_mStorage q; k) (MkV (<[q := b]> (mem s)) (this s)) Q.
Proof.
  intros Hw Ho Hq H0 Hr Hs HQ. destruct s as [h v]. cbn in *. apply vp_bind, (vp_release (MkV (<[q:=b]> h) v) l); [cbn; apply wf_insert; [done|lia..]|by apply owned_insert|].
  apply vp_bind. unfold vp at 1, set_mStorage. cbn. assert (mStorage v ≠ q) as Hvq.
  { destruct (storage_cases (MkV h v) l Hw Ho) as [(E & _)|(_ & c & _ & Hc & _)]; cbn in *; [lia|]. intros E. rewrite E, Hq in Hc. done. }
  apply HQ; cbn; try done.
  - apply frame_fresh; try done. destruct (storage_cases (MkV h v) l Hw Ho) as [(E & _)|(_ & c & _ & Hc & _)]; cbn in *; eauto.
  - apply wf_drop, wf_insert; [done|lia..].
  - split; [done|]. cbn. exists b. by rewrite lookup_drop, lookup_insert_eq.
Qed.
Lemma vp_alloc {B} s (c size : Z) (k : Z -> V (A := A) B) Q : 0 <= c -> size = c * mItemSize -> size < 2 ^ 62 ->
  (forall q, 0 < q -> mem s !! q = None -> vp (k q) (MkV (<[q := MkBuffer 1 size (replicate (Z.to_nat c) None)]> (mem s)) (this s)) Q) ->
  vp (q ← call (fun h => Ok (alloc h (u64 size))); k q) s Q.
Proof.
  intros Hc Hs Hb HQ. destruct (alloc_ok (mem s) c size Hc Hs Hb) as (q & E & H0 & Hq). apply vp_bind. unfold vp at 1, call. cbn. rewrite E. cbn. by apply HQ.
Qed.
Lemma new_sized (c size : Z) (l : list (option A)) : 0 <= c -> size = c * mItemSize -> size < 2 ^ 62 -> length l = Z.to_nat c -> sized (MkBuffer 1 size l).
Proof. intros Hc Hs Hb Hl. split; cbn; [rewrite Hl, Z2Nat.id; lia|lia]. Qed.

Lemma vp_edit s l (Q : Z -> vstate (A := A) -> Prop) : wf (mem s) -> owned s l ->
  (mStorage (this s) = 0 -> l = [] -> Q 0 s) ->
  (forall s' extra, changes s s' -> wf (mem s') -> mCount (this s') = mCount (this s) -> alone s' (l ++ extra) -> raw extra -> cap s' = cap s -> Q (mStorage (this s')) s') ->
  vp editArrayImpl s Q.
Proof.
  intros Hw Ho H1 H2. pose proof Ho as (Hc & Hv & _). unfold editArrayImpl. apply vp_bind, vp_storage.
  destruct (storage_cases _ _ Hw Ho) as [(E & E2 & Hl)|(E & b & extra & Hb & Hr & Hs & Hx & Hz)].
  { rewrite E. cbn. apply vp_storage. rewrite E. auto. }
  rewrite (proj2 (Z.eqb_neq _ _)) by lia. apply vp_bind. unfold vp at 1, look, attemptEdit, onlyOwner. rewrite Hb. cbn.
  destruct (Z.eqb_spec (mRefs b) 1) as [E1|E1].
  - rewrite (proj2 (Z.eqb_neq _ _)) by lia. apply vp_storage. apply (H2 s extra); try done; [by apply slots_frame_refl|]. split; [done|]. exists b. done.
  - cbn. apply vp_bind, (vp_capacity _ l); [done..|]. pose proof (cap_sized _ _ Hw Ho). pose proof (cap_bound _ _ Hw Ho) as Hcap. apply (vp_alloc _ (cap s)); [lia|done|lia|].
    intros q Hq0 Hq. rewrite (proj2 (Z.eqb_neq _ _)) by lia. apply vp_bind, vp_size. apply vp_bind.
    assert (mStorage (this s) ≠ q) as Hne by (intros E'; rewrite E', Hq in Hb; done).
    apply (vp_copy _ q (MkBuffer 1 (cap s * mItemSize) (replicate (Z.to_nat (cap s)) None)) 0 0 _ _ [] (replicate (length l) None) (replicate (Z.to_nat (cap s) - length l) None) l);
      [by cbn; rewrite lookup_insert_eq|by cbn; rewrite <- replicate_add; f_equal; lia|done|done|by rewrite length_replicate|apply raw_nones|done| |left; congruence|].
    { cbn. apply (reads_inside _ _ b [] l extra); [by rewrite lookup_insert_ne|done|done]. }
    cbn [mem this]. rewrite insert_insert_eq.
    eapply (vp_moved s l q); [done|done|done|done|done| |].
    { apply (new_sized (cap s)); [lia|done|cbn; lia|]. cbn [app]. rewrite length_app, length_replicate. lia. }
    intros s' Hch Hw' Hc' Hs' Ha. apply vp_storage. eapply (H2 s' _); [done|done|done|exact Ha|apply raw_nones|].
    rewrite (alone_cap _ _ Ha). cbn. rewrite length_app, length_replicate. lia.
Qed.

(** ** Growing *)
Definition with_storage (s : vstate (A := A)) q : vstate := MkV (mem s) (MkVector q (mCount (this s))).
Lemma plain_raw l : plain = true -> raw l.
Proof. unfold plain, raw. destruct trivial_dtor; [done|]. by rewrite andb_false_r. Qed.
Lemma plain_live l : plain = true -> live l.
Proof. unfold live. by intros ->. Qed.
Lemma room_of (c : Z) : 0 <= c -> c * mItemSize < 2 ^ 62 -> room (u64 (sizeof_SharedBuffer + c * mItemSize)) = Z.to_nat c.
Proof.
  intros Hc Hb. pose proof item_size. rewrite u64_small by (unfold sizeof_SharedBuffer; nia). unfold room.
  replace (sizeof_SharedBuffer + c * mItemSize - sizeof_SharedBuffer) with (c * mItemSize) by lia. by rewrite Z.div_mul by lia.
Qed.
(** The first [n] slots of one buffer are copied to a fresh one, which takes its place. *)
Lemma editResize_copy_ok h p b (c : Z) : plain = true -> h !! p = Some b -> 1 <= mRefs b < 2 ^ 31 -> sized b -> 0 <= c -> c * mItemSize < 2 ^ 62 ->
  exists q extra, editResize_copy h p (c * mItemSize) =
    Ok (q, drop_ref (<[q := MkBuffer 1 (c * mItemSize) (take (Z.to_nat c) (slots b) ++ extra)]> h) p) /\ 0 < q /\ h !! q = None /\ length (take (Z.to_nat c) (slots b) ++ extra) = Z.to_nat c.
Proof.
  intros Hpl Hp Hr [Hz Hz2] Hc Hb. pose proof item_size as Hi. pose proof (alloc_ok h c (c * mItemSize) Hc eq_refl Hb) as (q & Eq & H0 & Hq).
  assert (p ≠ q) as Hne by congruence. exists q, (replicate (Z.to_nat c - length (slots b)) None).
  unfold editResize_copy. rewrite (u64_small (c * mItemSize)) in Eq by nia. rewrite Eq, (proj2 (Z.eqb_neq q 0)), lookup_insert_ne, Hp by lia. cbn [deref]. rewrite bind_Ok. unfold copy_data.
  assert (Z.to_nat ((if c * mItemSize <? mSize b then c * mItemSize else mSize b) `div` mItemSize) = length (take (Z.to_nat c) (slots b))) as ->.
  { rewrite Hz, length_take. destruct (Z.ltb_spec (c * mItemSize) (Z.of_nat (length (slots b)) * mItemSize)); rewrite Z.div_mul by lia; nia. }
  unfold memcpy. rewrite read_items_ok.
  2: { apply (reads_inside _ p b [] (take (Z.to_nat c) (slots b)) (drop (Z.to_nat c) (slots b))); [by rewrite lookup_insert_ne|cbn; by rewrite take_drop|done]. }
  rewrite bind_Ok. erewrite (put_items_ok _ q _ 0 [] (replicate (length (take (Z.to_nat c) (slots b))) None) (replicate (Z.to_nat c - length (slots b)) None) (take (Z.to_nat c) (slots b)));
    [|by rewrite lookup_insert_eq|cbn; rewrite <- replicate_add; f_equal; rewrite length_take; lia|done|by rewrite length_replicate|by apply plain_raw].
  rewrite bind_Ok, insert_insert_eq. unfold set_slots. cbn [app mRefs mSize].
  split_and!; [|done|done|rewrite length_app, length_replicate, length_take; lia].
  unfold release, drop_ref. rewrite !lookup_insert_ne, Hp by done. cbn [deref mbind res_bind negb]. rewrite andb_true_r.
  destruct (Z.eqb_spec (mRefs b) 1) as [E|E]; cbn [Z.eqb Pos.eqb].
  - unfold free. rewrite lookup_insert_eq. cbn [deref mbind res_bind slots set_mRefs]. rewrite raw_freed by (by apply plain_raw). cbn. by rewrite delete_insert_eq.
  - rewrite (proj2 (Z.eqb_neq (mRefs b) 1)) by done. cbn. by rewrite s32_small by lia.
Qed.
Lemma vp_editResize s b l extra (c : Z) (Q : Z -> vstate (A := A) -> Prop) : wf (mem s) -> mem s !! mStorage (this s) = Some b -> 0 < mStorage (this s) ->
  mRefs b < 2 ^ 31 -> slots b = l ++ extra -> sized b -> plain = true -> Z.of_nat (length l) <= c -> c * mItemSize < 2 ^ 62 ->
  (forall q h extra, let s' := MkV h (MkVector q (mCount (this s))) in q ≠ 0 -> changes s s' -> wf h -> alone s' (l ++ extra) -> length (l ++ extra) = Z.to_nat c -> Q q (MkV h (this s))) ->
  vp (call (fun h => editResize h (mStorage (this s)) (u64 (c * mItemSize)))) s Q.
Proof.
  intros Hw Hbp E Hr2 Hs Hz Hpl Hc Hb HQ. pose proof item_size as Hi. rewrite u64_small by nia. set (p := mStorage (this s)) in *.
  assert (1 <= mRefs b < 2 ^ 31) as Hr by (destruct Hw as [_ Hw]; split; [by eapply Hw|done]).
  assert (take (Z.to_nat c) (slots b) = l ++ take (Z.to_nat c - length l) extra) as Htk by (rewrite Hs, take_app_ge by lia; done).
  assert (vp (call (fun h => editResize_copy h p (c * mItemSize))) s Q) as Hcopy.
  { destruct (editResize_copy_ok (mem s) p b c Hpl Hbp Hr Hz ltac:(lia) Hb) as (q & e & Eq & H0 & Hq & Hl). unfold vp, call. rewrite Eq. cbn.
    rewrite Htk, <- app_assoc in *. eapply HQ; [lia| | | |exact Hl].
    - apply frame_fresh; [done|done|done|right; eauto].
    - apply wf_drop, wf_insert; [done|lia|done].
    - split; [done|]. cbn. eexists. rewrite lookup_drop, lookup_insert_eq by congruence. split_and!; [done|done|done|]. apply (new_sized c); [lia|done|done|done]. }
  unfold vp, call, editResize, onlyOwner in *. rewrite Hbp. cbn [deref mbind res_bind].
  destruct (Z.eqb_spec (mRefs b) 1) as [E1|E1]; [|exact Hcopy].
  destruct (Z.eqb_spec (mSize b) (c * mItemSize)) as [E2|E2].
  { cbn. destruct Hz as [Hz Hz2]. apply (HQ p (mem s) extra); [lia| |done| |rewrite Hs in Hz; nia].
    - apply slots_frame_refl. done.
    - split; [done|]. exists b. done. }
  destruct (realloc_at (mem s) p (u64 (sizeof_SharedBuffer + c * mItemSize))) as [q|] eqn:Eq; [|exact Hcopy].
  apply realloc_fresh in Eq as Hq. assert (0 < q) as H0 by (destruct Hq as [-> | [? _]]; done). assert (q = p \/ mem s !! q = None) as Hq' by tauto. cbn. unfold resized. rewrite room_of, E1 by lia.
  rewrite Htk, <- app_assoc in *. eapply (HQ q); [lia| | | |].
  - eapply (frame_alone _ (this s)); [done|done|done|done|exact Hq'].
  - apply wf_insert; [by apply wf_delete|lia|done].
  - split; [done|]. cbn. eexists. rewrite lookup_insert_eq. split_and!; [done|done|done|]. apply (new_sized c); [lia|done|done|].
    rewrite app_assoc, <- Htk, length_app, length_take, length_replicate. lia.
  - rewrite app_assoc, <- Htk, length_app, length_take, length_replicate. lia.
Qed.

(** [n] items can be held, with what is set aside for more. *)
Definition fits (n : Z) : Prop := 4 * n * mItemSize < 2 ^ 62.
Definition opened (s0 s : vstate (A := A)) l1 (amount : Z) l2 : Prop :=
  changes s0 s /\ wf (mem s) /\ mCount (this s) = Z.of_nat (length l1) + amount + Z.of_nat (length l2) /\
  exists gap extra, alone s (l1 ++ gap ++ l2 ++ extra) /\ Z.of_nat (length gap) = amount /\ raw gap /\ raw extra.
Lemma new_capacity_spec (n : Z) : 0 < n -> fits n ->
  let c := kMinVectorCapacity `max` (u64 (u64 (n * 3) + 1) / 2) in n <= c /\ c * mItemSize < 2 ^ 62.
Proof.
  intros Hn Hf. pose proof item_size. unfold fits in Hf. assert (n < 2 ^ 60) by nia. rewrite (u64_small (n * 3)), u64_small by lia. cbv zeta. unfold kMinVectorCapacity.
  assert ((n * 3 + 1) / 2 <= 2 * n) by zdiv. assert (n <= (n * 3 + 1) / 2) by zdiv. split; [lia|]. nia.
Qed.
Lemma fits_small (n : Z) : fits n -> n < 2 ^ 60.
Proof. intros Hf. pose proof item_size. unfold fits in Hf. nia. Qed.

Lemma vp_copy_if (c : bool) s p b (i j num : Z) src pre gap post l Q : (c = false -> l = []) -> mem s !! p = Some b -> slots b = pre ++ gap ++ post -> i = Z.of_nat (length pre) ->
  num = Z.of_nat (length l) -> length gap = length l -> raw gap -> live l -> reads (mem s) src (Z.to_nat j) l -> src ≠ Inside p ->
  Q tt (MkV (<[p := set_slots b (pre ++ l ++ post)]> (mem s)) (this s)) -> vp (if c then _do_copy p i src j num else mret tt) s Q.
Proof.
  intros Hc Hp Hs Hi Hn Hl Hr Hv Hd Hne HQ. destruct c; [eapply vp_copy; eauto|]. rewrite Hc in * by done. destruct gap; [|done].
  apply vp_ret. rewrite insert_same in HQ by done. by destruct s.
Qed.
Lemma reads_owned s pre l post : wf (mem s) -> owned s (pre ++ l ++ post) -> reads (mem s) (Inside (mStorage (this s))) (length pre) l.
Proof.
  intros Hw Ho. destruct (storage_cases _ _ Hw Ho) as [(_ & _ & [_ [-> _]%app_eq_nil]%app_eq_nil)|(_ & b & extra & Hb & _ & Hs & _)].
  - intros k x Hk. by rewrite lookup_nil in Hk.
  - apply (reads_inside _ _ b pre l (post ++ extra)); [done|by rewrite Hs, <- !app_assoc|done].
Qed.
Lemma fresh_storage s l q : wf (mem s) -> owned s l -> mem s !! q = None -> 0 < q -> mStorage (this s) ≠ q.
Proof. intros Hw Ho Hq H0 E. destruct (storage_cases _ _ Hw Ho) as [(E1 & _)|(_ & b & _ & Hb & _)]; [lia|congruence]. Qed.
Lemma vp_regrow s l1 l2 (amount n : Z) (Q : bool -> vstate (A := A) -> Prop) : wf (mem s) -> owned s (l1 ++ l2) -> 0 < amount ->
  n = Z.of_nat (length (l1 ++ l2)) + amount -> fits n ->
  (forall s', mCount (this s') = mCount (this s) -> opened s (MkV (mem s') (MkVector (mStorage (this s')) n)) l1 amount l2 -> Q true s') ->
  vp (regrow (Z.of_nat (length l1)) amount n) s Q.
Proof.
  intros Hw Ho Ha Hn Hf HQ. pose proof item_size as Hi. pose proof Ho as (Hc & Hv & _). rewrite length_app in *.
  pose proof (new_capacity_spec n ltac:(lia) Hf) as [Hnc1 Hnc2]. unfold regrow. set (c := kMinVectorCapacity `max` (u64 (u64 (n * 3) + 1) `div` 2)) in *. cbv zeta.
  apply vp_bind, vp_storage, vp_bind, vp_size. rewrite Hc.
  destruct (negb (mStorage (this s) =? 0) && (Z.of_nat (length l1 + length l2) =? Z.of_nat (length l1)) && plain) eqn:Ec.
  - apply andb_prop in Ec as [[Ec1 Ec2]%andb_prop Ec3]. apply negb_true_iff, Z.eqb_neq in Ec1. apply Z.eqb_eq in Ec2. destruct l2; [|cbn in Ec2; lia]. rewrite app_nil_r in *.
    destruct (storage_cases _ _ Hw Ho) as [(E & _)|(E & b & extra0 & Hb & Hr & Hs & _ & Hz)]; [done|].
    apply vp_bind. apply (vp_editResize s b l1 extra0 c); [done|done|done|lia|done|done|done|lia|done|]. intros q h extra s' Hq Hch Hw' Hal Hl. rewrite (proj2 (Z.eqb_neq q 0)) by done.
    apply vp_bind. unfold vp at 1, set_mStorage. cbn [mem this mCount mStorage]. apply vp_ret. apply HQ; [done|]. cbn [mem this mStorage].
    rewrite length_app in Hl. split_and!.
    + by eapply changes_count.
    + done.
    + cbn. lia.
    + exists (take (Z.to_nat amount) extra), (drop (Z.to_nat amount) extra). cbn [app]. rewrite take_drop. split_and!; [done|rewrite length_take; lia|by apply plain_raw..].
  - clear Ec. apply (vp_alloc _ c); [lia|done|done|]. intros q Hq0 Hq. rewrite (proj2 (Z.eqb_neq q 0)) by lia.
    assert (length l1 <= Z.to_nat c)%nat by lia. set (rest := (Z.to_nat c - length l1 - Z.to_nat amount - length l2)%nat).
    assert (replicate (Z.to_nat c) None = replicate (length l1) (@None A) ++ replicate (Z.to_nat amount) None ++ replicate (length l2) None ++ replicate rest None) as Hrep
      by (rewrite <- !replicate_add; f_equal; unfold rest; lia).
    apply live_app in Hv as [Hv1 Hv2].
    pose proof (fresh_storage _ _ _ Hw Ho Hq Hq0) as Hne. pose proof (fits_small _ Hf).
    apply vp_bind. eapply (vp_copy_if _ _ q _ 0 0 _ _ [] (replicate (length l1) None) _ l1);
      [intros E; apply negb_false_iff, Z.eqb_eq in E; by destruct l1|cbn; by rewrite lookup_insert_eq|cbn; exact Hrep|done|done|by rewrite length_replicate|apply raw_nones|done| |congruence|].
    { cbn [mem]. apply reads_insert; [congruence|]. by apply (reads_owned s [] l1 l2). }
    apply vp_bind. cbn [mem this]. rewrite insert_insert_eq.
    eapply (vp_copy_if _ _ q _ _ _ _ _ (l1 ++ replicate (Z.to_nat amount) None) (replicate (length l2) None) (replicate rest None) l2);
      [intros E; apply negb_false_iff, Z.eqb_eq in E; destruct l2; [done|cbn in E; lia]|cbn; by rewrite lookup_insert_eq|cbn; by rewrite <- !app_assoc| | |by rewrite length_replicate|apply raw_nones|done| |congruence|].
    { rewrite u64_small, length_app, length_replicate by lia. lia. }
    { lia. }
    { cbn [mem]. apply reads_insert; [congruence|]. rewrite Nat2Z.id. apply (reads_owned s l1 l2 []); [done|by rewrite app_nil_r]. }
    cbn [mem this]. rewrite insert_insert_eq.
    eapply (vp_moved s (l1 ++ l2) q); [done|done|done|done|done| |].
    { apply (new_sized c); [lia|done|cbn; lia|]. rewrite !length_app, !length_replicate. unfold rest. lia. }
    intros s' Hch Hw' Hc' Hs' Hal. apply vp_ret. apply HQ; [done|]. split_and!.
    + by eapply changes_count.
    + done.
    + cbn. lia.
    + exists (replicate (Z.to_nat amount) None), (replicate rest None). split_and!; [|rewrite length_replicate; lia|apply raw_nones..].
      cbn in Hal. rewrite <- app_assoc in Hal. exact Hal.
Qed.

Lemma vp_grow s l1 l2 (amount : Z) (Q : option (Z * Z) -> vstate (A := A) -> Prop) : wf (mem s) -> owned s (l1 ++ l2) -> 0 < amount ->
  fits (Z.of_nat (length (l1 ++ l2)) + amount) ->
  (forall s', opened s s' l1 amount l2 -> Q (Some (mStorage (this s'), Z.of_nat (length l1))) s') ->
  vp (_grow (Z.of_nat (length l1)) amount) s Q.
Proof.
  intros Hw Ho Ha Hf HQ. pose proof Ho as (Hc & Hv & _). pose proof (fits_small _ Hf) as Hn. pose proof (cap_bound _ _ Hw Ho) as Hcb. unfold _grow.
  apply vp_bind, vp_size. rewrite Hc, u64_small by lia. apply vp_bind, (vp_capacity _ (l1 ++ l2)); [done|done|].
  remember (Z.of_nat (length (l1 ++ l2)) + amount) as n eqn:En in *. apply vp_bind.
  assert (forall s', opened s s' l1 amount l2 -> vp (itemLocation (Z.of_nat (length l1))) s' Q) as Hloc.
  { intros s' Hop. pose proof Hop as (_ & Hw' & Hc' & gap & extra & Hal & Hg & _). unfold itemLocation, capacity. apply vp_bind, vp_bind, vp_storage.
    pose proof Hal as (Hst & b & Hb & _ & Hsl & Hz & _). rewrite (proj2 (Z.eqb_neq _ _)) by lia. unfold vp at 1, look. cbn. rewrite Hb. cbn.
    rewrite Hz, Z.div_mul by (pose proof item_size; lia). rewrite (proj2 (Z.ltb_lt _ _)) by (rewrite Hsl, !length_app; lia).
    apply vp_bind, vp_storage. rewrite (proj2 (Z.eqb_neq _ _)) by lia. apply vp_ret. by apply HQ. }
  destruct (Z.ltb_spec (cap s) n) as [Hcap|Hcap].
  - apply vp_regrow with (l2 := l2); try done. intros s' _ Hop. apply vp_bind. apply Hloc. exact Hop.
  - apply vp_bind. apply (vp_edit s (l1 ++ l2)); [done|done| |].
    { intros E Hl. apply app_eq_nil in Hl as [-> ->]. cbn in *. unfold cap in Hcap. pose proof Hw as [Hnull _]. rewrite E, Hnull in Hcap. lia. }
    intros s' extra Hch Hw' Hc' Hal Hx Hcap'. rewrite length_app in *. pose proof (alone_cap _ _ Hal) as Hca. rewrite !length_app in Hca.
    apply vp_bind.
    assert (exists g e, extra = g ++ e /\ Z.of_nat (length g) = amount) as (g & e & -> & Hg).
    { exists (take (Z.to_nat amount) extra), (drop (Z.to_nat amount) extra). rewrite take_drop, length_take. split; [done|lia]. }
    apply raw_app in Hx as [Hx1 Hx2]. apply live_app in Hv as [Hv1 Hv2].
    pose proof Hal as (H0 & b & Hb & Hr & Hsl & Hz).
    destruct (Z.eqb_spec (Z.of_nat (length l1)) (Z.of_nat (length l1 + length l2))) as [El|El]; cbn [negb].
    + destruct l2; [|cbn in El; lia]. apply vp_ret, vp_ret, vp_bind. apply Hloc. split_and!; [by eapply changes_count|done|cbn in *; lia|].
      exists g, e. rewrite app_nil_r in Hal. cbn. done.
    + unfold _do_move_forward. destruct (move_forward_ok (mem s') (mStorage (this s')) b l1 l2 g e (Z.to_nat (u64 (Z.of_nat (length l1) + amount))) (length l1)) as (g' & E & Hg' & Hr');
        [done|by rewrite Hsl, <- app_assoc|done|rewrite u64_small by lia; lia|by destruct g; cbn in Hg; [lia|]|done|done|].
      eapply vp_change; [rewrite Nat2Z.id; replace (Z.to_nat (Z.of_nat (length l1 + length l2) - Z.of_nat (length l1))) with (length l2) by lia; exact E|].
      apply vp_ret, vp_bind. apply Hloc. split_and!.
      * eapply changes_trans; [exact Hch|]. unfold changes. cbn. by eapply frame_edit.
      * cbn. apply wf_insert; [done|lia|cbn; lia].
      * cbn. lia.
      * exists g', e. split_and!; [|lia|done|done]. split; [done|]. cbn. eexists. rewrite lookup_insert_eq. split_and!; [done|done|done|].
        destruct Hz as [Hz1 Hz2]. split; cbn; [|done]. rewrite Hz1, Hsl, !length_app. f_equal. lia.
Qed.
End Items.
