(* ===== verification/VectorOps.v ===== *)
(** * Vectors: the operations (libs/utils/VectorImpl.cpp)

    Each operation, from a vector that is a list: it ends, it makes the list it should, and
    it leaves the other vectors alone ([becomes]). *)
From S2P Require Import Prelude Vector VectorInv.

Section Operations.
Context {A : Type} `{!Item A, !Malloc A, !ItemLaws A, !MallocLaws A, !Plenty A}.
Abbreviation memory := (gmap Z (SharedBuffer A)).
Implicit Types (h : memory) (p q : Z) (src : source A) (i j n : nat) (l pre post gap : list (option A)) (b : SharedBuffer A) (s : vstate (A := A)).

(** ** Items that are somewhere else *)
Definition stable s src j l : Prop :=
  reads (mem s) src j l /\ match src with Outside _ => True | Inside p => p ≠ 0 /\ 0 < shares (mem s) p - holds (this s) p end.
Lemma read_data h h' p i : data h' p = data h p -> read_item h' (Inside p) i = read_item h (Inside p) i.
Proof. unfold data. cbn. destruct (h' !! p), (h !! p); intros E; try done. injection E as _ E. cbn. by rewrite E. Qed.
Lemma stable_reads s s' src j l : changes s s' -> stable s src j l -> reads (mem s') src j l.
Proof.
  intros [_ H] [Hd Hs]. destruct src as [|p]; [exact Hd|]. destruct Hs as [Hp Hn]. destruct (H p Hp) as [_ Hdata].
  intros k x Hk. rewrite (read_data _ _ _ _ (Hdata Hn)). by apply Hd.
Qed.
Lemma stable_apart s s' src j l x : changes s s' -> alone s' x -> stable s src j l -> src ≠ Inside (mStorage (this s')).
Proof.
  intros [_ H] (H0 & b & Hb & Hr & _) [_ Hs] ->. destruct Hs as [Hp Hn]. destruct (H _ Hp) as [E _]. rewrite (shares_some _ _ _ Hb), Hr in E.
  unfold holds in E at 2. rewrite Z.eqb_refl in E. lia.
Qed.

(** What an operation leaves: the vector is now [l], the others are what they were. *)
Definition becomes s s' l : Prop := changes s s' /\ wf (mem s') /\ owned s' l.
Lemma becomes_refl s l : wf (mem s) -> owned s l -> becomes s s l.
Proof. intros Hw Ho. split_and!; [by apply slots_frame_refl|done|done]. Qed.
Lemma becomes_alone s s1 s' x l extra b : changes s s1 -> wf (mem s1) -> alone s1 x -> mem s1 !! mStorage (this s1) = Some b -> mStorage (this s') = mStorage (this s1) ->
  mem s' = <[mStorage (this s1) := set_slots b (l ++ extra)]> (mem s1) -> length (l ++ extra) = length x -> live l -> raw extra -> mCount (this s') = Z.of_nat (length l) ->
  becomes s s' l.
Proof.
  intros Hch Hw (H0 & b' & Hb & Hr & Hs & Hz1 & Hz2) Hb' Est Em Hl Hv Hx Hc. rewrite Hb in Hb'. injection Hb' as ->. split_and!.
  - eapply changes_trans; [exact Hch|]. unfold changes. rewrite Em. by eapply frame_edit.
  - rewrite Em. apply wf_insert; [done|lia|cbn; lia].
  - eapply (alone_owned _ _ extra); [|done|done|done]. split; [by rewrite Est|]. rewrite Est, Em. eexists. rewrite lookup_insert_eq. split_and!; [done|done|done|].
    split; cbn; [|done]. by rewrite Hz1, Hs, Hl.
Qed.

(** ** Inserting *)
Lemma vp_insertArrayAt s l1 l2 src (j index length_ : Z) l (Q : Z -> vstate (A := A) -> Prop) : wf (mem s) -> owned s (l1 ++ l2) -> index = Z.of_nat (length l1) -> length_ = Z.of_nat (length l) ->
  l ≠ [] -> fits (Z.of_nat (length (l1 ++ l ++ l2))) -> live l -> stable s src (Z.to_nat j) l ->
  (forall s', becomes s s' (l1 ++ l ++ l2) -> Q index s') -> vp (insertArrayAt src j index length_) s Q.
Proof.
  intros Hw Ho -> -> Hne Hf Hv Hd HQ. pose proof Ho as (Hc & Hv12 & _). unfold insertArrayAt. apply vp_bind, vp_size.
  rewrite (proj2 (Z.ltb_ge _ _)) by (rewrite Hc, length_app; lia). apply vp_bind.
  apply (vp_grow _ l1 l2); [done|done|destruct l; [done|cbn; lia]|revert Hf; rewrite !length_app; by replace (Z.of_nat (length l1 + (length l + length l2))) with (Z.of_nat (length l1 + length l2) + Z.of_nat (length l)) by lia|].
  intros s1 (Hch & Hw1 & Hc1 & gap & extra & Hal & Hg & Hr & Hx). apply vp_bind.
  pose proof Hal as (H0 & b & Hb & Hr1 & Hs & Hz).
  apply (vp_copy s1 _ b _ j _ src l1 gap (l2 ++ extra) l); [done|done|done|done|lia|done|done|by apply (stable_reads s)|left; by eapply (stable_apart s s1)|].
  apply vp_ret. apply HQ. apply live_app in Hv12 as [Hv1 Hv2].
  eapply (becomes_alone _ _ _ _ _ extra); [done|done|done|done|done|cbn; by rewrite <- !app_assoc|rewrite !length_app; lia|by rewrite !live_app|done|].
  cbn. rewrite Hc1, !length_app. lia.
Qed.
Lemma vp_insertAt s l1 l2 src (j index numItems : Z) x (Q : Z -> vstate (A := A) -> Prop) : wf (mem s) -> owned s (l1 ++ l2) -> index = Z.of_nat (length l1) -> 0 < numItems ->
  fits (Z.of_nat (length (l1 ++ l2)) + numItems) -> live [x] -> stable s src (Z.to_nat j) [x] ->
  (forall s', becomes s s' (l1 ++ replicate (Z.to_nat numItems) x ++ l2) -> Q index s') -> vp (insertAt (Some (src, j)) index numItems) s Q.
Proof.
  intros Hw Ho -> Hne Hf Hv Hd HQ. pose proof Ho as (Hc & Hv12 & _). unfold insertAt. apply vp_bind, vp_size.
  rewrite (proj2 (Z.ltb_ge _ _)) by (rewrite Hc, length_app; lia). apply vp_bind. apply (vp_grow _ l1 l2); [done..|].
  intros s1 (Hch & Hw1 & Hc1 & gap & extra & Hal & Hg & Hr & Hx). apply vp_bind. pose proof Hal as (H0 & b & Hb & Hr1 & Hs & Hz).
  apply (vp_splat s1 _ b _ j _ src l1 gap (l2 ++ extra) x); [done|done|done|done|done|done| |by eapply (stable_apart s s1)|].
  { rewrite <- (Nat.add_0_r (Z.to_nat j)). eapply (stable_reads s); [done|exact Hd|done]. }
  apply vp_ret. apply HQ. apply live_app in Hv12 as [Hv1 Hv2]. replace (Z.to_nat numItems) with (length gap) by lia.
  assert (live (replicate (length gap) x)) as Hvx. { intros Hp. specialize (Hv Hp). apply Forall_cons in Hv as [Hv _]. by apply Forall_replicate. }
  eapply (becomes_alone _ _ _ _ _ extra); [done|done|done|done|done|cbn; by rewrite <- !app_assoc|rewrite !length_app, length_replicate; lia|by rewrite !live_app|done|].
  cbn. rewrite Hc1, !length_app, length_replicate. lia.
Qed.
Lemma vp_insertAt_new s l1 l2 (index numItems : Z) (Q : Z -> vstate (A := A) -> Prop) : wf (mem s) -> owned s (l1 ++ l2) -> index = Z.of_nat (length l1) -> 0 < numItems ->
  fits (Z.of_nat (length (l1 ++ l2)) + numItems) ->
  (forall s' l, becomes s s' (l1 ++ l ++ l2) -> Z.of_nat (length l) = numItems -> (trivial_ctor = false -> l = replicate (Z.to_nat numItems) (Some new_item)) -> Q index s') ->
  vp (insertAt None index numItems) s Q.
Proof.
  intros Hw Ho -> Hne Hf HQ. pose proof Ho as (Hc & Hv12 & _). unfold insertAt. apply vp_bind, vp_size.
  rewrite (proj2 (Z.ltb_ge _ _)) by (rewrite Hc, length_app; lia). apply vp_bind. apply (vp_grow _ l1 l2); [done..|].
  intros s1 (Hch & Hw1 & Hc1 & gap & extra & Hal & Hg & Hr & Hx). apply vp_bind. pose proof Hal as (H0 & b & Hb & Hr1 & Hs & Hz).
  apply (vp_construct s1 _ b _ _ l1 gap (l2 ++ extra)); [done|done|done|done|done|]. intros l Hl Hv Hnew.
  apply vp_ret. apply live_app in Hv12 as [Hv1 Hv2]. apply (HQ _ l); [|lia|by replace (Z.to_nat numItems) with (length gap) by lia].
  eapply (becomes_alone _ _ _ _ _ extra); [done|done|done|done|done|cbn; by rewrite <- !app_assoc|rewrite !length_app; lia|by rewrite !live_app|done|].
  cbn. rewrite Hc1, !length_app. lia.
Qed.

(** ** Removing *)
Lemma vp_reshrink s l1 d l2 (where_ amount n : Z) (Q : bool -> vstate (A := A) -> Prop) : wf (mem s) -> owned s (l1 ++ d ++ l2) -> mStorage (this s) ≠ 0 ->
  where_ = Z.of_nat (length l1) -> amount = Z.of_nat (length d) -> n = Z.of_nat (length (l1 ++ l2)) -> n * 3 < cap s ->
  (forall s', changes s s' -> wf (mem s') -> (exists extra, alone s' (l1 ++ l2 ++ extra) /\ raw extra) -> Q true s') ->
  vp (reshrink where_ amount n) s Q.
Proof.
  intros Hw Ho Hp -> -> -> Hn HQ. pose proof item_size as Hi. pose proof (cap_sized _ _ Hw Ho). pose proof (cap_bound _ _ Hw Ho) as Hcb. pose proof Ho as (_ & Hv & _).
  rewrite !length_app in *. unfold reshrink. rewrite (u64_small (Z.of_nat (length l1 + length l2) * 2)) by lia. unfold kMinVectorCapacity. set (c := 4 `max` (Z.of_nat (length l1 + length l2) * 2)). cbv zeta.
  assert (c * mItemSize < 2 ^ 62) as Hc by (unfold c; destruct (Z.max_spec 4 (Z.of_nat (length l1 + length l2) * 2)) as [[_ ->]|[_ ->]]; nia).
  apply vp_bind, vp_storage. destruct (storage_cases _ _ Hw Ho) as [(E & _)|(E & b & extra0 & Hb & Hr & Hs & Hx & Hz)]; [done|].
  destruct ((Z.of_nat (length l1) =? Z.of_nat (length l1 + length l2)) && plain) eqn:Ec.
  - apply andb_prop in Ec as [Ec1 Ec3]. apply Z.eqb_eq in Ec1. destruct l2; [|cbn in Ec1; lia]. rewrite app_nil_r in *.
    apply vp_bind. apply (vp_editResize s b l1 (d ++ extra0) c); [done|done|done|lia|by rewrite Hs, <- app_assoc|done|done|lia|done|]. intros q h extra s' Hq Hch Hw' Hal Hl. rewrite (proj2 (Z.eqb_neq q 0)) by done.
    apply vp_bind. unfold vp at 1, set_mStorage. cbn [mem this mCount mStorage]. apply vp_ret. apply HQ; [done|done|]. exists extra. split; [done|by apply plain_raw].
  - clear Ec. apply (vp_alloc _ c); [lia|done|done|]. intros q Hq0 Hq. rewrite (proj2 (Z.eqb_neq q 0)) by lia.
    set (rest := (Z.to_nat c - length l1 - length l2)%nat).
    assert (replicate (Z.to_nat c) None = replicate (length l1) (@None A) ++ replicate (length l2) None ++ replicate rest None) as Hrep
      by (rewrite <- !replicate_add; f_equal; unfold rest; lia).
    apply live_app in Hv as [Hv1 [_ Hv2]%live_app]. pose proof (fresh_storage _ _ _ Hw Ho Hq Hq0) as Hne.
    apply vp_bind. eapply (vp_copy_if _ _ q _ 0 0 _ _ [] (replicate (length l1) None) _ l1);
      [intros E2; apply negb_false_iff, Z.eqb_eq in E2; by destruct l1|cbn; by rewrite lookup_insert_eq|cbn; exact Hrep|done|done|by rewrite length_replicate|apply raw_nones|done| |congruence|].
    { cbn [mem]. apply reads_insert; [congruence|]. by apply (reads_owned s [] l1 (d ++ l2)). }
    apply vp_bind. cbn [mem this]. rewrite insert_insert_eq.
    eapply (vp_copy_if _ _ q _ _ _ _ _ l1 (replicate (length l2) None) (replicate rest None) l2);
      [intros E2; apply negb_false_iff, Z.eqb_eq in E2; destruct l2; [done|cbn in E2; lia]|cbn; by rewrite lookup_insert_eq|done|done|lia|by rewrite length_replicate|apply raw_nones|done| |congruence|].
    { cbn [mem]. apply reads_insert; [congruence|]. rewrite u64_small by lia. replace (Z.to_nat _) with (length (l1 ++ d)) by (rewrite length_app; lia).
      apply (reads_owned s (l1 ++ d) l2 []); [done|by rewrite app_nil_r, <- app_assoc]. }
    cbn [mem this]. rewrite insert_insert_eq.
    eapply (vp_moved s (l1 ++ d ++ l2) q); [done|done|done|done|done| |].
    { apply (new_sized c); [lia|done|cbn; lia|]. rewrite !length_app, !length_replicate. unfold rest. lia. }
    intros s' Hch Hw' Hc' Hs' Hal. apply vp_ret. apply HQ; [done|done|]. exists (replicate rest None). split; [exact Hal|apply raw_nones].
Qed.
Lemma vp_shrink s l1 d l2 (where_ amount : Z) (Q : unit -> vstate (A := A) -> Prop) : wf (mem s) -> owned s (l1 ++ d ++ l2) ->
  where_ = Z.of_nat (length l1) -> amount = Z.of_nat (length d) -> d ≠ [] \/ l2 = [] -> (forall s', becomes s s' (l1 ++ l2) -> Q tt s') -> vp (_shrink where_ amount) s Q.
Proof.
  intros Hw Ho -> -> Hne HQ. pose proof Ho as (Hc & Hv & _). pose proof (cap_bound _ _ Hw Ho) as Hcb. unfold _shrink. apply vp_bind, vp_storage.
  pose proof Hv as [Hv1 [Hvd Hv2]%live_app]%live_app.
  destruct (Z.eqb_spec (mStorage (this s)) 0) as [E|E].
  { destruct (storage_cases _ _ Hw Ho) as [(_ & _ & [-> [-> ->]%app_eq_nil]%app_eq_nil)|(? & _)]; [|lia]. apply vp_ret. apply HQ. by apply becomes_refl. }
  rewrite !length_app in *. apply vp_bind, vp_size. rewrite Hc. rewrite (u64_small (Z.of_nat (length l1 + (length d + length l2)) - _)) by lia.
  replace (Z.of_nat (length l1 + (length d + length l2)) - Z.of_nat (length d)) with (Z.of_nat (length (l1 ++ l2))) by (rewrite length_app; lia).
  apply vp_bind, (vp_capacity _ (l1 ++ d ++ l2)); [done|done|]. rewrite u64_small by (rewrite length_app; lia). apply vp_bind.
  destruct (Z.ltb_spec (Z.of_nat (length (l1 ++ l2)) * 3) (cap s)) as [Hs|Hs].
  - apply (vp_reshrink s l1 d l2); [done..|]. intros s' Hch Hw' (extra & Hal & Hx). unfold vp, set_mCount. apply HQ. split_and!; [by eapply changes_count|done|].
    eapply alone_owned; [rewrite <- app_assoc; exact Hal|done|by apply live_app|done].
  - apply vp_bind. apply (vp_edit s (l1 ++ d ++ l2)); [done|done|by intros E'; lia|]. intros s1 extra Hch Hw1 Hc1 Hal Hx _. pose proof Hal as (H0 & b & Hb & Hr & Hsl & Hz). rewrite <- !app_assoc in Hsl.
    apply vp_bind. apply (vp_destroy s1 _ b _ _ l1 (l2 ++ extra) d); [done|done|done|done|done|]. intros g Hg Hrg. apply vp_bind.
    destruct (Z.eqb_spec (Z.of_nat (length l1)) (Z.of_nat (length (l1 ++ l2)))) as [El|El]; cbn [negb].
    + rewrite length_app in El. destruct l2; [|cbn in El; lia]. apply vp_ret, vp_ret. unfold vp, set_mCount. apply HQ. rewrite app_nil_r in *.
      eapply (becomes_alone s s1 _ _ _ (g ++ extra)); [done|done|exact Hal|done|done|done| |done|by apply raw_app|done]. rewrite !length_app, Hg. lia.
    + unfold _do_move_backward. rewrite length_app in El.
      destruct Hne as [Hd| ->]; [|cbn in El; lia].
      destruct (move_backward_ok (<[mStorage (this s1) := set_slots b (l1 ++ g ++ l2 ++ extra)]> (mem s1)) (mStorage (this s1)) (set_slots b (l1 ++ g ++ l2 ++ extra)) l1 l2 g extra (length l1)
        (Z.to_nat (u64 (Z.of_nat (length l1) + Z.of_nat (length d))))) as (g' & E2 & Hg' & Hr');
        [by rewrite lookup_insert_eq|done|done|rewrite u64_small by lia; lia|by intros ->; destruct d|done|done|].
      eapply vp_change; [cbn [mem]; rewrite Nat2Z.id; replace (Z.to_nat (Z.of_nat (length (l1 ++ l2)) - Z.of_nat (length l1))) with (length l2) by (rewrite length_app; lia); exact E2|].
      apply vp_ret. unfold vp, set_mCount. apply HQ. cbn [mem this]. rewrite insert_insert_eq.
      eapply (becomes_alone s s1 _ _ _ (g' ++ extra)); [done|done|exact Hal|done|done|cbn; by rewrite <- !app_assoc| |by apply live_app|by apply raw_app|done].
      rewrite !length_app. lia.
Qed.

Lemma owned_count s l : wf (mem s) -> owned s l -> mCount (this s) = Z.of_nat (length l) /\ Z.of_nat (length l) < 2 ^ 62.
Proof. intros Hw Ho. pose proof (cap_bound _ _ Hw Ho). destruct Ho as [-> _]. lia. Qed.
Lemma vp_removeItemsAt s l1 d l2 (index count : Z) (Q : Z -> vstate (A := A) -> Prop) : wf (mem s) -> owned s (l1 ++ d ++ l2) -> index = Z.of_nat (length l1) -> count = Z.of_nat (length d) ->
  d ≠ [] \/ l2 = [] -> (forall s', becomes s s' (l1 ++ l2) -> Q index s') -> vp (removeItemsAt index count) s Q.
Proof.
  intros Hw Ho -> -> Hd HQ. pose proof (owned_count _ _ Hw Ho) as [Hc Hb]. rewrite !length_app in *. unfold removeItemsAt. apply vp_bind, vp_size. rewrite Hc, u64_small, (proj2 (Z.ltb_ge _ _)) by lia.
  apply vp_bind. apply (vp_shrink s l1 d l2); [done..|]. intros s' Hs'. apply vp_ret. by apply HQ.
Qed.
Lemma vp_clear s l (Q : unit -> vstate (A := A) -> Prop) : wf (mem s) -> owned s l -> (forall s', becomes s s' [] -> Q tt s') -> vp clear s Q.
Proof.
  intros Hw Ho HQ. pose proof Ho as (Hc & _). unfold clear. apply vp_bind, vp_size. apply (vp_shrink s [] l []); [done|by rewrite app_nil_r|done|done|by right|done].
Qed.
Lemma vp_pop s l x (Q : unit -> vstate (A := A) -> Prop) : wf (mem s) -> owned s (l ++ [x]) -> (forall s', becomes s s' l -> Q tt s') -> vp pop s Q.
Proof.
  intros Hw Ho HQ. pose proof Ho as (Hc & _). rewrite length_app in Hc. cbn in Hc. unfold pop. apply vp_bind, vp_size. rewrite (proj2 (Z.eqb_neq _ _)) by lia. cbn [negb].
  apply vp_bind. apply (vp_removeItemsAt s l [x] []); [done|done|lia|done|by left|]. intros s' Hs'. apply vp_ret. rewrite app_nil_r in Hs'. by apply HQ.
Qed.

(** ** Replacing *)
Lemma vp_editItemLocation s l1 x l2 (index : Z) (Q : option (Z * Z) -> vstate (A := A) -> Prop) : wf (mem s) -> owned s (l1 ++ x :: l2) -> index = Z.of_nat (length l1) ->
  (forall s' extra, changes s s' -> wf (mem s') -> mCount (this s') = mCount (this s) -> alone s' ((l1 ++ x :: l2) ++ extra) -> raw extra -> Q (Some (mStorage (this s'), index)) s') ->
  vp (editItemLocation index) s Q.
Proof.
  intros Hw Ho -> HQ. pose proof (cap_bound _ _ Hw Ho) as Hb. rewrite length_app in Hb. cbn in Hb. unfold editItemLocation. apply vp_bind, (vp_capacity _ (l1 ++ x :: l2)); [done|done|].
  rewrite (proj2 (Z.ltb_lt _ _)) by lia. apply vp_bind. apply (vp_edit s (l1 ++ x :: l2)); [done|done|by destruct l1|].
  intros s' extra Hch Hw' Hc Hal Hx _. rewrite (proj2 (Z.eqb_neq _ _)) by (destruct Hal as [? _]; lia). apply vp_ret. by eapply HQ.
Qed.
Lemma vp_replaceAt s l1 x l2 src (j index : Z) y (Q : Z -> vstate (A := A) -> Prop) : wf (mem s) -> owned s (l1 ++ x :: l2) -> index = Z.of_nat (length l1) ->
  live [y] -> stable s src (Z.to_nat j) [y] -> (forall s', becomes s s' (l1 ++ y :: l2) -> Q index s') -> vp (replaceAt (Some (src, j)) index) s Q.
Proof.
  intros Hw Ho -> Hy Hd HQ. pose proof (owned_count _ _ Hw Ho) as [Hc Hb]. pose proof Ho as (_ & Hv & _). rewrite length_app in Hc, Hb. cbn in Hc, Hb. unfold replaceAt. apply vp_bind, vp_size.
  rewrite Hc, (proj2 (Z.leb_gt _ _)) by lia. apply vp_bind. apply (vp_editItemLocation s l1 x l2); [done..|]. intros s1 extra Hch Hw1 Hc1 Hal Hx.
  pose proof (stable_apart s s1 _ _ _ _ Hch Hal Hd) as Hne. pose proof Hal as (H0 & b & Hb1 & Hr & Hs & Hz).
  assert (same_place (Some (mStorage (this s1), Z.of_nat (length l1))) (Some (src, j)) = false) as ->.
  { cbn. destruct src as [|q]; [done|]. apply andb_false_iff. left. apply Z.eqb_neq. congruence. }
  rewrite <- app_assoc in Hs. cbn [app] in Hs. pose proof Hv as [Hv1 [Hvx Hv2]%live_cons]%live_app.
  cbn [negb]. apply vp_bind. apply (vp_destroy s1 _ b _ _ l1 (l2 ++ extra) [x]); [done|done|done|done|done|]. intros gap Hg Hrg.
  apply vp_bind. apply (vp_copy _ _ (set_slots b (l1 ++ gap ++ l2 ++ extra)) _ _ _ _ l1 gap (l2 ++ extra) [y]);
    [by cbn; rewrite lookup_insert_eq|done|done|done|done|done|done| |by left|].
  { cbn [mem]. apply reads_insert; [done|]. by apply (stable_reads s). }
  cbn [mem this]. rewrite insert_insert_eq. apply vp_ret. apply HQ.
  eapply (becomes_alone s s1 _ _ _ extra); [done|done|exact Hal|done|done|cbn; by rewrite <- app_assoc|rewrite !length_app; cbn; lia| |done|cbn; rewrite Hc1, Hc, length_app; cbn; lia].
  rewrite live_app, live_cons. done.
Qed.

(** ** Capacity and size *)
Lemma vp_setCapacity s l (c : Z) (Q : Z -> vstate (A := A) -> Prop) : wf (mem s) -> owned s l -> 0 <= c -> c * mItemSize < 2 ^ 62 ->
  (forall s', becomes s s' l -> Q (if c <=? Z.of_nat (length l) then cap s else c) s') -> vp (setCapacity c) s Q.
Proof.
  intros Hw Ho Hc0 Hc HQ. pose proof item_size as Hi. pose proof (owned_count _ _ Hw Ho) as [Hn Hb]. pose proof Ho as (_ & Hv & _). unfold setCapacity. apply vp_bind, (vp_capacity _ l); [done|done|]. apply vp_bind, vp_size. rewrite Hn.
  rewrite s64_small by nia. cbv zeta. destruct (Z.leb_spec (c - Z.of_nat (length l)) 0) as [E|E].
  { apply vp_ret. specialize (HQ s). rewrite (proj2 (Z.leb_le c _)) in HQ by lia. by apply HQ, becomes_refl. }
  apply (vp_alloc _ c); [done|done|done|]. intros q Hq0 Hq. rewrite (proj2 (Z.eqb_neq _ _)) by lia. apply vp_bind, vp_storage. cbn [this].
  pose proof (fresh_storage _ _ _ Hw Ho Hq Hq0) as Hne. apply vp_bind.
  eapply (vp_copy _ q _ 0 0 _ _ [] (replicate (length l) None) (replicate (Z.to_nat c - length l) None) l);
    [by cbn; rewrite lookup_insert_eq|cbn; rewrite <- replicate_add; f_equal; lia|done|done|by rewrite length_replicate|apply raw_nones|done| |left; congruence|].
  { cbn [mem]. apply reads_insert; [congruence|]. apply (reads_owned s [] l []); [done|by rewrite app_nil_r]. }
  cbn [mem this]. rewrite insert_insert_eq. eapply (vp_moved s l q); [done|done|done|done|done| |].
  { apply (new_sized c); [lia|done|cbn; lia|]. cbn [app]. rewrite length_app, length_replicate. lia. }
  intros s' Hch Hw' Hc' Hs' Hal. apply vp_ret. specialize (HQ s'). rewrite (proj2 (Z.leb_gt c _)) in HQ by lia. apply HQ. split_and!; [done|done|].
  eapply alone_owned; [exact Hal|apply raw_nones|done|by rewrite Hc'].
Qed.

(** ** Whole vectors *)
Lemma wf_acquire h p b : wf h -> h !! p = Some b -> 1 <= mRefs b -> wf (<[p := set_mRefs b (mRefs b + 1)]> h).
Proof. intros Hw Hb Hr. apply wf_insert; [done| |cbn; lia]. intros ->. destruct Hw as [H0 _]. congruence. Qed.
(** [v] is another vector that holds its storage. *)
Definition other s (v : VectorImpl) l : Prop :=
  owned (MkV (mem s) v) l /\ (mStorage v ≠ 0 -> 0 < shares (mem s) (mStorage v) - holds (this s) (mStorage v) /\ shares (mem s) (mStorage v) < 2 ^ 31 - 1).
Lemma acquire_spec h (v : VectorImpl) l (n : Z) : wf h -> owned (MkV h v) l -> mStorage v ≠ 0 -> shares h (mStorage v) < 2 ^ 31 - 1 ->
  exists h', acquire h (mStorage v) = Ok h' /\ wf h' /\ owned (MkV h' v) l /\ frame h (MkVector 0 n) h' v.
Proof.
  intros Hw Ho Hp Hr. destruct (storage_cases (MkV h v) l Hw Ho) as [(E & _)|(E & b & extra & Hb & Hrb & Hs & Hx & Hz)]; [done|]. cbn in *. rewrite (shares_some _ _ _ Hb) in Hr.
  exists (<[mStorage v := set_mRefs b (mRefs b + 1)]> h). unfold acquire. rewrite Hb. cbn. rewrite s32_small by lia. split_and!; [done|apply wf_acquire; [done|done|lia]| |].
  - destruct Ho as (Hc & Hv & _). split_and!; [done|done|]. cbn. rewrite (proj2 (Z.eqb_neq _ _)) by done. split; [done|]. eexists _, extra. rewrite lookup_insert_eq. split_and!; [done|cbn; lia|done|done|by destruct Hz..].
  - split; [intros _; apply wf_acquire; [done|done|lia]|]. intros p Hp0. cbn zeta. unfold holds. cbn [mStorage]. rewrite (proj2 (Z.eqb_neq 0 p)), shares_insert, data_insert by done.
    destruct (Z.eqb_spec (mStorage v) p) as [<-|]; [|split; [lia|done]]. rewrite (shares_some _ _ _ Hb). split; [cbn; lia|]. intros _. unfold data. by rewrite Hb.
Qed.
Lemma vp_copy_vector s v l (Q : unit -> vstate (A := A) -> Prop) : wf (mem s) -> mStorage (this s) = 0 -> owned (MkV (mem s) v) l -> (mStorage v ≠ 0 -> shares (mem s) (mStorage v) < 2 ^ 31 - 1) ->
  (forall s', becomes s s' l -> this s' = v -> Q tt s') -> vp (copy_vector v) s Q.
Proof.
  intros Hw Hz Ho Hr HQ. destruct s as [h [p n]], v as [q m]. cbn in *. subst p. unfold copy_vector. do 2 (apply vp_bind; unfold vp at 1, set_mStorage, set_mCount; cbn [mem this mStorage mCount]).
  destruct (Z.eqb_spec q 0) as [->|E]; cbn [negb].
  - apply vp_ret, HQ; [|done]. split_and!; [by apply slots_frame_refl|done|done].
  - destruct (acquire_spec h (MkVector q m) l n Hw Ho E (Hr E)) as (h' & Ea & Hw' & Ho' & Hf). eapply vp_change; [exact Ea|]. apply HQ; [|done]. done.
Qed.
Lemma frame_release s l (n : Z) : wf (mem s) -> owned s l -> frame (mem s) (this s) (drop_ref (mem s) (mStorage (this s))) (MkVector 0 n).
Proof.
  intros Hw Ho. split; [intros _; by apply wf_drop|]. intros p Hp. cbn zeta. unfold holds. cbn [mStorage]. rewrite (proj2 (Z.eqb_neq 0 p)), shares_drop by done. split.
  - destruct (Z.eqb_spec (mStorage (this s)) p) as [E|]; cbn; [|lia]. destruct (storage_cases _ _ Hw Ho) as [(E2 & _)|(_ & b & _ & Hb & _)]; [lia|]. rewrite Hb, bool_decide_true by eauto. lia.
  - intros Hn. apply data_drop. destruct (Z.eqb_spec (mStorage (this s)) p) as [<-|]; [right; lia|by left].
Qed.
Lemma vp_finish s l (Q : unit -> vstate (A := A) -> Prop) : wf (mem s) -> owned s l -> (forall s', becomes s s' [] -> this s' = MkVector 0 0 -> Q tt s') -> vp finish_vector s Q.
Proof.
  intros Hw Ho HQ. unfold finish_vector. apply vp_bind, (vp_release _ l); [done|done|]. apply vp_bind. unfold vp, set_mStorage, set_mCount. cbn. apply HQ; [|done]. split_and!.
  - by eapply frame_release.
  - by apply wf_drop.
  - split_and!; [done|apply live_nil|done].
Qed.
Lemma owned_data h h' (v : VectorImpl) l : owned (MkV h v) l -> (mStorage v ≠ 0 -> data h' (mStorage v) = data h (mStorage v) /\ shares h' (mStorage v) < 2 ^ 31) -> owned (MkV h' v) l.
Proof.
  intros (Hc & Hv & H) Hd. split_and!; [done|done|]. cbn in *. destruct (Z.eqb_spec (mStorage v) 0) as [|E]; [done|]. destruct H as (Hp & b & extra & Hb & _ & Hs & Hx & Hz).
  destruct (Hd E) as [Hdata Hr]. split; [done|]. unfold data, shares in *. rewrite Hb in Hdata. destruct (h' !! mStorage v) as [b'|]; [|done]. injection Hdata as Hd1 Hd2.
  exists b', extra. destruct Hz. split_and!; [done|done|congruence|done|]. split; rewrite ?Hd1, ?Hd2; done.
Qed.
Lemma holds_null (n : Z) p : p ≠ 0 -> holds (MkVector 0 n) p = 0.
Proof. intros Hp. unfold holds. cbn [mStorage]. by rewrite (proj2 (Z.eqb_neq 0 p)). Qed.
Lemma vp_assign s v l l' (Q : unit -> vstate (A := A) -> Prop) : wf (mem s) -> owned s l -> other s v l' -> (forall s', becomes s s' l' -> Q tt s') -> vp (assign false v) s Q.
Proof.
  intros Hw Ho [Hv Hr] HQ. unfold assign. cbn [negb]. apply vp_bind, (vp_release _ l); [done|done|]. pose proof (frame_release s l (mCount (this s)) Hw Ho) as Hf.
  set (h1 := drop_ref (mem s) (mStorage (this s))) in *. pose proof (proj1 Hf Hw) as Hw1.
  assert (owned (MkV h1 v) l' /\ (mStorage v ≠ 0 -> shares h1 (mStorage v) < 2 ^ 31 - 1)) as [Hv1 Hr1].
  { assert (mStorage v ≠ 0 -> data h1 (mStorage v) = data (mem s) (mStorage v) /\ shares h1 (mStorage v) < 2 ^ 31 - 1) as H.
    { intros E. destruct (Hr E) as [Hn Hm]. destruct Hf as [_ Hf]. destruct (Hf _ E) as [E1 E2]. rewrite E2, E1 by done. split; [done|].
      rewrite (holds_null _ _ E). unfold holds. case_match; lia. }
    split; [|intros E; by apply H]. eapply owned_data; [exact Hv|]. intros E. destruct (H E). split; [done|lia]. }
  pose proof Hv as (Hc & _ & Hst). cbn in Hc, Hst.
  destruct (Z.eqb_spec (mCount v) 0) as [E|E]; cbn [negb].
  - assert (l' = []) as -> by (destruct l'; [done|cbn in Hc; lia]). apply vp_bind. unfold vp, set_mStorage, set_mCount. cbn. apply HQ. split_and!; [by apply (changes_count s (MkV h1 (MkVector 0 (mCount (this s)))))|done|].
    split_and!; [done|apply live_nil|done].
  - assert (mStorage v ≠ 0) as E0. { intros E0. rewrite E0 in Hst. cbn in Hst. subst l'. done. }
    do 2 (apply vp_bind; unfold vp at 1, set_mStorage, set_mCount; cbn [mem this mStorage mCount]).
    destruct (acquire_spec h1 v l' (mCount (this s)) Hw1 Hv1 E0 (Hr1 E0)) as (h' & Ea & Hw' & Ho' & Hf').
    eapply vp_change; [exact Ea|]. cbn [this]. apply HQ. destruct v as [p n]. split_and!; [|done|done]. unfold changes. cbn [mem this]. by eapply slots_frame_trans.
Qed.

(** ** Sorting *)
Section Sort.
Variable cmp : A -> A -> Z.
(** On a list that is turned round: [x] sinks below those that are greater. *)
Fixpoint sink (acc : list A) (x : A) : list A :=
  match acc with [] => [x] | y :: acc' => if 0 <? cmp y x then y :: sink acc' x else x :: acc end.
Definition sort_list (l : list A) : list A := rev (fold_left sink l []).
Abbreviation some := (fmap (M := list) (@Some A)).

Lemma read_slot_ok h p b i pre (x : A) post : h !! p = Some b -> slots b = pre ++ Some x :: post -> i = length pre -> get_item h (Inside p) i = Ok x.
Proof. intros Hp Hs ->. unfold get_item. cbn. rewrite Hp. cbn. by rewrite Hs, slot_at. Qed.
Lemma vp_compare s p (i : Z) q (j : Z) b pre x post c pre' y post' (Q : Z -> vstate (A := A) -> Prop) : mem s !! p = Some b -> slots b = pre ++ Some x :: post -> i = Z.of_nat (length pre) ->
  mem s !! q = Some c -> slots c = pre' ++ Some y :: post' -> j = Z.of_nat (length pre') -> Q (cmp x y) s -> vp (compare_items cmp p i q j) s Q.
Proof.
  intros Hp Hs -> Hq Hs' -> HQ. unfold compare_items, look, vp. rewrite !Nat2Z.id. rewrite (read_slot_ok _ _ _ _ _ _ _ Hp Hs), bind_Ok, (read_slot_ok _ _ _ _ _ _ _ Hq Hs') by done. done.
Qed.
Lemma live_one (x : A) : live [Some x].
Proof. intros _. repeat constructor. eauto. Qed.
(** One item of the storage is replaced: the old one ends, and a copy comes. *)
Lemma vp_replace {B} s p b (i j : Z) src pre old post (x : option A) (k : V (A := A) B) Q : mem s !! p = Some b -> slots b = pre ++ old :: post -> i = Z.of_nat (length pre) -> live [old] -> live [x] ->
  (forall g : option A, read_item (<[p := set_slots b (pre ++ g :: post)]> (mem s)) src (Z.to_nat j) = Ok x) ->
  vp k (MkV (<[p := set_slots b (pre ++ x :: post)]> (mem s)) (this s)) Q ->
  vp (_ ← _do_destroy p i 1; _ ← _do_copy p i src j 1; k) s Q.
Proof.
  intros Hp Hs -> Ho Hx Hd HQ. apply vp_bind. apply (vp_destroy s p b _ _ pre post [old]); [done..|]. intros gap Hg Hr. destruct gap as [|g [|]]; try done.
  apply vp_bind. apply (vp_copy _ _ (set_slots b (pre ++ g :: post)) _ _ _ _ pre [g] post [x]); [by cbn; rewrite lookup_insert_eq|done|done|done|done|done|done| |right; cbn; lia|].
  { intros i y Hy. destruct i as [|[|]]; [|done..]. injection Hy as <-. cbn [mem]. rewrite Nat.add_0_r. by apply Hd. }
  cbn [mem this]. by rewrite insert_insert_eq.
Qed.
Lemma slide_ok s p t b tb (R : list A) (y x : A) z post : mem s !! p = Some b -> mem s !! t = Some tb -> p ≠ t -> slots tb = [Some x] ->
  slots b = some R ++ Some y :: Some z :: post -> 0 < cmp y x ->
  vp (slide cmp p t (length R)) s (fun r s' => this s' = this s /\ exists (R1 : list A) (w : A) (R2 : list A), r = Z.of_nat (length R1) /\
    mem s' = <[p := set_slots b (some R1 ++ Some w :: some R2 ++ post)]> (mem s) /\ rev (sink (rev (R ++ [y])) x) = R1 ++ x :: R2).
Proof.
  revert s b y z post. induction R as [|u R0 IH] using rev_ind; intros s b y z post Hp Ht Hne Hst Hs Hc.
  - cbn [length slide]. cbn in Hs. eapply (vp_replace s p b _ _ _ [Some y] _ post (Some y)); [done|exact Hs|done|apply live_one|apply live_one| |].
    { intros g. cbn. by rewrite lookup_insert_eq. }
    apply vp_ret. split; [done|]. exists [], y, [y]. split_and!; [done|done|]. cbn. by rewrite (proj2 (Z.ltb_lt _ _)).
  - rewrite length_app, Nat.add_1_r. cbn [slide]. rewrite fmap_app in Hs. cbn in Hs.
    eapply (vp_replace s p b _ _ _ ((some R0 ++ [Some u]) ++ [Some y]) (Some z) post (Some y)); [done|by rewrite Hs, <- !app_assoc|rewrite !length_app, length_fmap; cbn; lia|apply live_one|apply live_one| |].
    { intros g. rewrite Nat2Z.id. cbn. rewrite lookup_insert_eq. cbn. rewrite <- (app_assoc _ [Some y]), lookup_app_r by (rewrite length_app, length_fmap; cbn; lia).
      by replace (S (length R0) - _)%nat with 0%nat by (rewrite length_app, length_fmap; cbn; lia). }
    rewrite <- !app_assoc. cbn [app]. apply vp_bind.
    eapply (vp_compare _ p _ t 0 _ (some R0) u _ tb []); [cbn; by rewrite lookup_insert_eq|done|by rewrite length_fmap|cbn; by rewrite lookup_insert_ne|done|done|].
    destruct (Z.ltb_spec 0 (cmp u x)) as [E|E].
    + eapply vp_mono; [apply (IH _ (set_slots b (some R0 ++ Some u :: Some y :: Some y :: post)) u y (Some y :: post)); [cbn; by rewrite lookup_insert_eq|cbn; by rewrite lookup_insert_ne|done|done|done|done]|].
      cbn. intros r s' (Hth & R1 & w & R2 & -> & Hm & Hl). split; [done|]. exists R1, w, (R2 ++ [y]). split_and!; [done| |].
      * rewrite Hm, insert_insert_eq. rewrite fmap_app, <- app_assoc. done.
      * rewrite !rev_app_distr in *. cbn in *. rewrite (proj2 (Z.ltb_lt 0 (cmp y x))) by done. cbn. by rewrite Hl, <- app_assoc.
    + apply vp_ret. split; [done|]. exists (R0 ++ [u]), y, [y]. split_and!.
      * rewrite length_app. cbn. lia.
      * cbn. by rewrite fmap_app, <- !app_assoc.
      * rewrite !rev_app_distr. cbn. rewrite (proj2 (Z.ltb_lt 0 (cmp y x))), (proj2 (Z.ltb_ge 0 (cmp u x))) by done. cbn. by rewrite rev_involutive, <- !app_assoc.
Qed.

Lemma vp_bind_inv {B C} (m : V (A := A) B) (f : B -> V (A := A) C) s Q : vp (m ≫= f) s Q -> vp m s (fun x s' => vp (f x) s' Q).
Proof. unfold vp, mbind, V_bind. destruct (m s) as [[x s']|]; auto. Qed.
Lemma place_ok s p t b tb (R : list A) (y x : A) g post i : mem s !! p = Some b -> mem s !! t = Some tb -> p ≠ t -> slots tb = [g] -> raw [g] ->
  slots b = some R ++ Some y :: Some x :: post -> 0 < cmp y x -> i = S (length R) ->
  vp (place cmp p t i) s (fun _ s' => this s' = this s /\ mem s' = <[p := set_slots b (some (rev (sink (rev (R ++ [y])) x)) ++ post)]> (<[t := set_slots tb [Some x]]> (mem s))).
Proof.
  intros Hp Ht Hne Hst Hg Hs Hc ->. unfold place. apply vp_bind.
  eapply (vp_copy s t tb _ _ _ _ [] [g] [] [Some x]); [done|done|done|done|done|done|apply live_one| |left; congruence|].
  { rewrite Nat2Z.id. eapply (reads_inside _ p b (some R ++ [Some y]) [Some x] post); [done|by rewrite Hs, <- app_assoc|rewrite length_app, length_fmap; cbn; lia]. }
  cbn [app]. apply vp_bind. replace (S (length R) - 1)%nat with (length R) by lia.
  eapply vp_mono; [apply (slide_ok _ p t b (set_slots tb [Some x]) R y x x post); [cbn; by rewrite lookup_insert_ne|cbn; by rewrite lookup_insert_eq|done|done|done|done]|].
  cbn [mem this]. intros r s' (Hth & R1 & w & R2 & -> & Hm & Hl). rewrite Hl.
  assert (vp (_ ← _do_destroy p (Z.of_nat (length R1)) 1; _ ← _do_copy p (Z.of_nat (length R1)) (Inside t) 0 1; mret tt) s'
    (fun _ s'' => this s'' = this s /\ mem s'' = <[p := set_slots b (some (R1 ++ x :: R2) ++ post)]> (<[t := set_slots tb [Some x]]> (mem s)))) as H.
  { eapply (vp_replace s' p _ _ _ _ (some R1) (Some w) (some R2 ++ post) (Some x)); [by rewrite Hm, lookup_insert_eq|done|by rewrite length_fmap|apply live_one|apply live_one| |].
    - intros g'. cbn. rewrite lookup_insert_ne, Hm, lookup_insert_ne, lookup_insert_eq by done. done.
    - apply vp_ret. cbn. split; [done|]. rewrite Hm, insert_insert_eq. by rewrite fmap_app, <- app_assoc. }
  apply vp_bind. apply vp_bind_inv in H. eapply vp_mono; [exact H|]. cbn. intros _ s2 H2. apply vp_bind_inv in H2. eapply vp_mono; [exact H2|]. done.
Qed.
Lemma length_sink acc x : length (sink acc x) = S (length acc).
Proof. induction acc as [|y acc IH]; [done|]. cbn. case_match; cbn; [by rewrite IH|done]. Qed.
Lemma loop_ok s p t b tb (acc rest : list A) (x0 : A) post : mem s !! p = Some b -> mem s !! t = Some tb -> p ≠ t -> t ≠ 0 -> slots tb = [Some x0] ->
  slots b = some (rev acc ++ rest) ++ post -> acc ≠ [] ->
  vp (sort_loop cmp (length rest) (length acc) p t) s (fun r s' => r = (NO_ERROR, t) /\ this s' = this s /\ exists x : A,
    mem s' = <[p := set_slots b (some (rev (fold_left sink rest acc)) ++ post)]> (<[t := set_slots tb [Some x]]> (mem s))).
Proof.
  revert s b tb acc x0. induction rest as [|x rest IH]; intros s b tb acc x0 Hp Ht Hne Ht0 Hst Hs Hacc.
  { cbn [length sort_loop fold_left]. apply vp_ret. split_and!; [done|done|]. exists x0. rewrite app_nil_r in Hs. rewrite (insert_same (mem s) t tb) by done. by rewrite insert_same. }
  destruct acc as [|y acc]; [done|]. cbn [length sort_loop fold_left]. apply vp_bind.
  assert (slots b = some (rev acc) ++ Some y :: Some x :: some rest ++ post) as Hs2 by (rewrite Hs; cbn; by rewrite !fmap_app, <- !app_assoc).
  eapply (vp_compare s p _ p _ b (some (rev acc)) y _ b (some (rev acc) ++ [Some y]) x); [done|done|rewrite length_fmap, length_rev; lia|done|by rewrite Hs2, <- app_assoc|rewrite length_app, length_fmap, length_rev; cbn; lia|].
  replace (sink (y :: acc) x) with (if 0 <? cmp y x then sink (y :: acc) x else x :: y :: acc) by (cbn; by destruct (0 <? cmp y x)).
  destruct (Z.ltb_spec 0 (cmp y x)) as [E|E].
  - rewrite (proj2 (Z.eqb_neq t 0)) by done. apply vp_bind. apply (vp_destroy s t tb 0 1 [] [] [Some x0]); [done|done|done|done|apply live_one|]. intros gap Hg Hr. destruct gap as [|g [|]]; try done. cbn [app].
    apply vp_bind. eapply vp_mono; [apply (place_ok _ p t b (set_slots tb [g]) (rev acc) y x g (some rest ++ post)); [cbn; by rewrite lookup_insert_ne|cbn; by rewrite lookup_insert_eq|done|done|done|done|done|by rewrite length_rev]|].
    cbn [mem this]. intros _ s' [Hth Hm]. rewrite rev_app_distr, rev_involutive in Hm. cbn [rev app] in Hm. rewrite insert_insert_eq in Hm. unfold set_slots in Hm at 2. cbn [set_slots mRefs mSize] in Hm.
    replace (S (S (length acc))) with (length (sink (y :: acc) x)) by (by rewrite length_sink).
    eapply vp_mono; [eapply (IH s' (set_slots b (some (rev (sink (y :: acc) x)) ++ some rest ++ post)) (set_slots tb [Some x]) (sink (y :: acc) x) x)|].
    + by rewrite Hm, lookup_insert_eq.
    + by rewrite Hm, lookup_insert_ne, lookup_insert_eq.
    + done.
    + done.
    + done.
    + cbn. by rewrite fmap_app, <- app_assoc.
    + intros E'. apply (f_equal length) in E'. by rewrite length_sink in E'.
    + intros r s'' (-> & Hth' & z & Hm'). split_and!; [done|congruence|]. exists z. rewrite Hm', Hm.
      rewrite (insert_insert_ne _ t p), !insert_insert_eq by done. done.
  - apply (IH s b tb (x :: y :: acc) x0); try done. cbn. by rewrite Hs2, !fmap_app, <- !app_assoc.
Qed.

Lemma length_fold (l a : list A) : length (fold_left sink l a) = (length a + length l)%nat.
Proof. revert a. induction l as [|u l IH]; intros a; cbn; [lia|]. rewrite IH, length_sink. lia. Qed.
Lemma live_all (l : list A) : live (some l).
Proof. intros _. rewrite Forall_fmap. apply Forall_forall. intros x _. cbn. eauto. Qed.
(** Until something has to move there is no block, and the storage may be shared. *)
Definition sorted_to s (l : list A) (r : Z * Z) s' : Prop :=
  fst r = NO_ERROR /\
  if snd r =? 0 then becomes s s' (some l) else
  exists h tb (x : A), becomes s (MkV h (this s')) (some l) /\ h !! snd r = None /\ mem s' = <[snd r := tb]> h /\ slots tb = [Some x].
Lemma vp_alloc_block {B} s (k : Z -> V (A := A) B) Q : (forall t, 0 < t -> mem s !! t = None -> vp (k t) (MkV (<[t := MkBuffer 0 mItemSize [None]]> (mem s)) (this s)) Q) ->
  vp (t ← call (fun h => Ok (alloc_block h)); k t) s Q.
Proof.
  intros HQ. destruct (plenty (mem s) mItemSize) as [t Ht]. pose proof (malloc_fresh _ _ _ Ht) as [H0 Hn]. apply vp_bind. unfold vp at 1, call, alloc_block. cbn. rewrite Ht. cbn. by apply HQ.
Qed.
Lemma sort_loop_ok s (acc rest : list A) : wf (mem s) -> owned s (some (rev acc ++ rest)) -> acc ≠ [] ->
  vp (sort_loop cmp (length rest) (length acc) (mStorage (this s)) 0) s (sorted_to s (rev (fold_left sink rest acc))).
Proof.
  revert acc. induction rest as [|x rest IH]; intros acc Hw Ho Hacc.
  { cbn [length sort_loop fold_left]. apply vp_ret. split; [done|]. cbn. rewrite app_nil_r in Ho. by apply becomes_refl. }
  destruct acc as [|y acc]; [done|]. cbn [length sort_loop fold_left]. apply vp_bind.
  assert (some (rev (y :: acc) ++ x :: rest) = some (rev acc) ++ Some y :: Some x :: some rest) as Hl by (cbn; by rewrite !fmap_app, <- !app_assoc).
  destruct (storage_cases _ _ Hw Ho) as [(_ & _ & E)|(H0 & b & extra & Hb & _ & Hs & _)]; [rewrite Hl in E; by destruct (some (rev acc))|]. rewrite Hl, <- app_assoc in Hs. cbn [app] in Hs.
  eapply (vp_compare s _ _ _ _ b (some (rev acc)) y _ b (some (rev acc) ++ [Some y]) x); [done|done|rewrite length_fmap, length_rev; lia|done|by rewrite Hs, <- app_assoc|rewrite length_app, length_fmap, length_rev; cbn; lia|].
  replace (sink (y :: acc) x) with (if 0 <? cmp y x then sink (y :: acc) x else x :: y :: acc) by (cbn; by destruct (0 <? cmp y x)).
  destruct (Z.ltb_spec 0 (cmp y x)) as [E|E].
  2: { apply (IH (x :: y :: acc)); [done| |done]. rewrite Hl in Ho. cbn. by rewrite !fmap_app, <- !app_assoc. }
  cbn [Z.eqb]. apply vp_bind. rewrite Hl in Ho. eapply (vp_edit s); [done|exact Ho|lia|]. intros s1 extra1 Hch Hw1 Hc1 Hal Hx1 _.
  clear b extra Hb Hs. pose proof Hal as (Hp1 & b & Hb & Hr & Hs & Hz). rewrite (proj2 (Z.eqb_neq _ 0)) by lia. apply vp_alloc_block. intros t Ht0 Ht.
  rewrite (proj2 (Z.eqb_neq t 0)) by lia. set (tb := MkBuffer 0 mItemSize [None]). assert (mStorage (this s1) ≠ t) as Hne by congruence.
  rewrite <- app_assoc in Hs. cbn [app] in Hs.
  apply vp_bind. eapply vp_mono; [apply (place_ok _ (mStorage (this s1)) t b tb (rev acc) y x None (some rest ++ extra1)); [cbn; by rewrite lookup_insert_ne|cbn; by rewrite lookup_insert_eq|done|done|apply (raw_nones 1)|done|done|by rewrite length_rev]|].
  cbn [mem this]. intros _ s' [Hth Hm]. rewrite rev_app_distr, rev_involutive in Hm. cbn [rev app] in Hm. rewrite insert_insert_eq in Hm.
  replace (S (S (length acc))) with (length (sink (y :: acc) x)) by (by rewrite length_sink).
  eapply vp_mono; [eapply (loop_ok s' (mStorage (this s1)) t (set_slots b (some (rev (sink (y :: acc) x)) ++ some rest ++ extra1)) (set_slots tb [Some x]) (sink (y :: acc) x) rest x extra1)|].
  - by rewrite Hm, lookup_insert_eq.
  - by rewrite Hm, lookup_insert_ne, lookup_insert_eq.
  - done.
  - lia.
  - done.
  - cbn. by rewrite fmap_app, <- app_assoc.
  - intros E'. apply (f_equal length) in E'. by rewrite length_sink in E'.
  - intros r s'' (-> & Hth' & z & Hm'). split; [done|]. cbn [snd]. rewrite (proj2 (Z.eqb_neq t 0)) by lia.
    set (l' := rev (fold_left sink rest (sink (y :: acc) x))) in *.
    assert (length l' = length (rev acc ++ y :: x :: rest)) as Hlen.
    { unfold l'. rewrite length_rev, length_fold, length_sink, length_app, length_rev. cbn. lia. }
    exists (<[mStorage (this s1) := set_slots b (some l' ++ extra1)]> (mem s1)), (set_slots tb [Some z]), z. split_and!; [|by rewrite lookup_insert_ne| |done].
    + eapply (becomes_alone s s1 _ _ _ extra1); [done|done|exact Hal|done|cbn; congruence|done| |apply live_all|done|].
      * repeat (rewrite ?length_app, ?length_fmap, ?Hlen; cbn [length]). lia.
      * cbn. destruct Ho as [Hc _]. rewrite Hth', Hth, Hc1, Hc. repeat (rewrite ?length_app, ?length_fmap, ?Hlen; cbn [length]). done.
    + rewrite Hm', Hm. rewrite (insert_insert_ne _ t (mStorage (this s1))), !insert_insert_eq by done. rewrite (insert_insert_ne _ t (mStorage (this s1))) by done. done.
Qed.
Lemma vp_sort s (l : list A) (Q : Z -> vstate (A := A) -> Prop) : wf (mem s) -> owned s (some l) -> (forall s', becomes s s' (some (sort_list l)) -> Q NO_ERROR s') -> vp (sort cmp) s Q.
Proof.
  intros Hw Ho HQ. pose proof Ho as (Hc & _). rewrite length_fmap in Hc. unfold sort. apply vp_bind, vp_size. rewrite Hc.
  destruct (Z.ltb_spec 1 (Z.of_nat (length l))) as [E|E].
  2: { apply vp_ret, HQ. destruct l as [|x [|]]; [..|cbn in E; lia]; by apply becomes_refl. }
  destruct l as [|a l]; [cbn in E; lia|]. apply vp_bind, vp_storage. apply vp_bind.
  rewrite Nat2Z.id. cbn [length]. rewrite Nat.sub_succ, Nat.sub_0_r. eapply vp_mono; [apply (sort_loop_ok s [a] l); [done|done|done]|].
  intros [status t] s' [H1 H2]. cbn [fst snd] in *. rewrite H1. cbn [Z.eqb NO_ERROR negb]. change (rev (fold_left sink l [a])) with (sort_list (a :: l)) in H2.
  destruct (Z.eqb_spec t 0) as [Et|Et]; cbn [negb].
  - apply vp_bind, vp_ret, vp_ret. by apply HQ.
  - destruct H2 as (h & tb & x & Hbc & Ht & Hm & Hst). apply vp_bind, vp_bind.
    apply (vp_destroy s' t tb 0 1 [] [] [Some x]); [by rewrite Hm, lookup_insert_eq|done|done|done|apply live_one|]. intros gap Hg Hr.
    eapply vp_change; [cbn [mem]; unfold free; rewrite lookup_insert_eq; cbn [deref]; rewrite bind_Ok; cbn [slots set_slots]; rewrite raw_freed by (by rewrite app_nil_r); done|].
    apply vp_ret. apply HQ. cbn [this]. rewrite Hm, insert_insert_eq, delete_insert_id by done. done.
Qed.
End Sort.

Lemma vp_resize s l (n : Z) (Q : Z -> vstate (A := A) -> Prop) : wf (mem s) -> owned s l -> 0 <= n -> fits n -> trivial_ctor = false ->
  (forall s', becomes s s' (take (Z.to_nat n) l ++ replicate (Z.to_nat n - length l) (Some new_item)) -> Q n s') -> vp (resize n) s Q.
Proof.
  intros Hw Ho Hn Hf Ht HQ. pose proof (owned_count _ _ Hw Ho) as [Hc Hb]. unfold resize. apply vp_bind, vp_size. rewrite Hc. apply vp_bind.
  destruct (Z.ltb_spec (Z.of_nat (length l)) n) as [E|E]; [|destruct (Z.ltb_spec n (Z.of_nat (length l))) as [E2|E2]].
  - apply (vp_insertAt_new s l []); [done|by rewrite app_nil_r|done|lia|rewrite app_nil_r; by replace (Z.of_nat (length l) + (n - Z.of_nat (length l))) with n by lia|].
    intros s' l' Hs' Hl' Hnew. rewrite (proj2 (Z.ltb_ge _ _)) by lia. apply vp_ret, HQ. rewrite (Hnew Ht), app_nil_r in Hs'. rewrite take_ge by lia.
    by replace (Z.to_nat n - length l)%nat with (Z.to_nat (n - Z.of_nat (length l))) by lia.
  - apply (vp_removeItemsAt s (take (Z.to_nat n) l) (drop (Z.to_nat n) l) []); [done|by rewrite app_nil_r, take_drop|rewrite length_take; lia|rewrite length_drop; lia|by right|].
    intros s' Hs'. rewrite (proj2 (Z.ltb_ge _ _)) by lia. apply vp_ret, HQ. by replace (Z.to_nat n - length l)%nat with 0%nat by lia.
  - apply vp_ret. cbn [Z.ltb NO_ERROR Z.compare]. apply vp_ret, HQ. rewrite take_ge by lia. replace (Z.to_nat n - length l)%nat with 0%nat by lia. cbn. rewrite app_nil_r. by apply becomes_refl.
Qed.
End Operations.
