(* ===== verification/VectorProps.v ===== *)
(** * Vectors: what they do (libs/utils/VectorImpl.cpp)

    The vectors of a program behave as lists; sorting sorts; a sorted vector is searched,
    extended and merged. *)
From S2P Require Import Prelude Vector VectorInv VectorOps.

(** ** The vectors of a program, by name *)
Section Program.
Context {A : Type} `{!Item A, !Malloc A}.
Record program := MkProgram { store : gmap Z (SharedBuffer A); vectors : gmap nat VectorImpl }.
Implicit Types (i k : nat) (x : A) (w : program) (m : gmap nat (list A)).

Inductive op : Type :=
| Create i
| Copy i k
| Assign i k
| Insert i (index : Z) x (n : Z)
| InsertItem i (index : Z) k (j n : Z)
| InsertArray i (index : Z) (l : list A)
| InsertVector i (index : Z) k
| Construct i (index n : Z)
| Resize i (n : Z)
| Remove i (index count : Z)
| Replace i (index : Z) x
| ReplaceItem i (index : Z) k (j : Z)
| Clear i
| SetCapacity i (c : Z)
| Sort i (cmp : A -> A -> Z)
| Destroy i.

Definition on w i (f : V (A := A) Z) : res (Z * program) :=
  v ← deref (vectors w !! i); '(r, s) ← f (MkV (store w) v); Ok (r, MkProgram (mem s) (<[i := this s]> (vectors w))).
Definition run_op w (o : op) : res (Z * program) :=
  match o with
  | Create i => Ok (0, MkProgram (store w) (<[i := MkVector 0 0]> (vectors w)))
  | Copy i k => v ← deref (vectors w !! k); '(_, s) ← copy_vector v (MkV (store w) (MkVector 0 0)); Ok (0, MkProgram (mem s) (<[i := this s]> (vectors w)))
  | Assign i k => v ← deref (vectors w !! k); on w i (_ ← assign (bool_decide (i = k)) v; mret 0)
  | Insert i index x n => on w i (insertAt (Some (Outside [Some x], 0)) index n)
  | InsertItem i index k j n => v ← deref (vectors w !! k); on w i (insertAt (Some (Inside (mStorage v), j)) index n)
  | InsertArray i index l => on w i (insertArrayAt (Outside (Some <$> l)) 0 index (Z.of_nat (length l)))
  | InsertVector i index k => v ← deref (vectors w !! k); on w i (insertVectorAt v index)
  | Construct i index n => on w i (insertAt None index n)
  | Resize i n => on w i (resize n)
  | Remove i index count => on w i (removeItemsAt index count)
  | Replace i index x => on w i (replaceAt (Some (Outside [Some x], 0)) index)
  | ReplaceItem i index k j => v ← deref (vectors w !! k); on w i (replaceAt (Some (Inside (mStorage v), j)) index)
  | Clear i => on w i (_ ← clear; mret 0)
  | SetCapacity i c => on w i (_ ← setCapacity c; mret 0)
  | Sort i cmp => on w i (sort cmp)
  | Destroy i =>
      v ← deref (vectors w !! i); '(_, s) ← finish_vector (MkV (store w) v); Ok (0, MkProgram (mem s) (delete i (vectors w)))
  end.
Fixpoint run w (l : list op) : res (list Z * program) :=
  match l with [] => Ok ([], w) | o :: l => '(r, w) ← run_op w o; '(rs, w) ← run w l; Ok (r :: rs, w) end.

(** *** The same on lists; nothing for what a program must not ask *)
#[export] Instance fits_decision n : Decision (fits n).
Proof. unfold fits. apply _. Defined.
Definition most : nat := Z.to_nat (2 ^ 31 - 2).
Definition splice (l : list A) (index : Z) (new : list A) : list A := take (Z.to_nat index) l ++ new ++ drop (Z.to_nat index) l.
Definition spec_insert m i (index : Z) (new : list A) : option (Z * gmap nat (list A)) :=
  l ← m !! i;
  guard (0 <= index /\ new ≠ [] /\ fits (Z.of_nat (length l + length new)));;
  Some (if Z.of_nat (length l) <? index then (BAD_INDEX, m) else (index, <[i := splice l index new]> m)).
Definition spec_replace m i (index : Z) x : option (Z * gmap nat (list A)) :=
  l ← m !! i;
  guard (0 <= index);;
  Some (if Z.of_nat (length l) <=? index then (BAD_INDEX, m) else (index, <[i := <[Z.to_nat index := x]> l]> m)).
Definition spec_op m (o : op) : option (Z * gmap nat (list A)) :=
  match o with
  | Create i => guard (m !! i = None /\ Z.of_nat (base.size m) < 2 ^ 31 - 2);; Some (0, <[i := []]> m)
  | Copy i k => l ← m !! k; guard (m !! i = None /\ Z.of_nat (base.size m) < 2 ^ 31 - 2);; Some (0, <[i := l]> m)
  | Assign i k => l ← m !! k; _ ← m !! i; Some (0, <[i := l]> m)
  | Insert i index x n => guard (0 < n < 2 ^ 62);; spec_insert m i index (replicate (Z.to_nat n) x)
  | InsertItem i index k j n =>
      guard (i ≠ k /\ 0 <= j /\ 0 < n < 2 ^ 62);; l ← m !! k; x ← l !! Z.to_nat j; spec_insert m i index (replicate (Z.to_nat n) x)
  | InsertArray i index l => spec_insert m i index l
  | InsertVector i index k => guard (i ≠ k);; l ← m !! k; spec_insert m i index l
  | Construct i index n => guard (trivial_ctor = false /\ 0 < n < 2 ^ 62);; spec_insert m i index (replicate (Z.to_nat n) new_item)
  | Resize i n =>
      l ← m !! i; guard (trivial_ctor = false /\ 0 <= n /\ fits n);;
      Some (n, <[i := take (Z.to_nat n) l ++ replicate (Z.to_nat n - length l) new_item]> m)
  | Remove i index count =>
      l ← m !! i; guard (0 <= index < 2 ^ 62 /\ 0 < count < 2 ^ 62);;
      Some (if Z.of_nat (length l) <? index + count then (BAD_VALUE, m) else (index, <[i := take (Z.to_nat index) l ++ drop (Z.to_nat (index + count)) l]> m))
  | Replace i index x => spec_replace m i index x
  | ReplaceItem i index k j => guard (i ≠ k /\ 0 <= j);; l ← m !! k; x ← l !! Z.to_nat j; spec_replace m i index x
  | Clear i => _ ← m !! i; Some (0, <[i := []]> m)
  | SetCapacity i c => l ← m !! i; guard (0 <= c /\ fits c);; Some (0, m)
  | Sort i cmp => l ← m !! i; Some (NO_ERROR, <[i := sort_list cmp l]> m)
  | Destroy i => _ ← m !! i; Some (0, delete i m)
  end.
Fixpoint spec m (l : list op) : option (list Z * gmap nat (list A)) :=
  match l with [] => Some ([], m) | o :: l => '(r, m) ← spec_op m o; '(rs, m) ← spec m l; Some (r :: rs, m) end.
End Program.

Section Refinement.
Context {A : Type} `{!Item A, !Malloc A, !ItemLaws A, !MallocLaws A, !Plenty A}.
Implicit Types (i k : nat) (x : A) (w : program (A := A)) (m : gmap nat (list A)) (p : Z) (vs : gmap nat VectorImpl) (v : VectorImpl).
Abbreviation some := (fmap (M := list) (@Some A)).

(** How many of the vectors hold a buffer. *)
Definition total p vs : Z := map_fold (fun _ v n => holds v p + n) 0 vs.
Lemma holds_range v p : 0 <= holds v p <= 1.
Proof. unfold holds. case_match; lia. Qed.
Lemma total_insert p vs i v : vs !! i = None -> total p (<[i := v]> vs) = holds v p + total p vs.
Proof. intros Hi. unfold total. rewrite map_fold_insert_L; [done| |done]. intros. lia. Qed.
Lemma total_delete p vs i v : vs !! i = Some v -> total p vs = holds v p + total p (delete i vs).
Proof. intros Hi. rewrite <- (total_insert p (delete i vs) i v), insert_delete_id by (done || by rewrite lookup_delete_eq). done. Qed.
Lemma total_change p vs i v v' : vs !! i = Some v -> total p (<[i := v']> vs) = total p vs - holds v p + holds v' p.
Proof. intros Hi. rewrite (total_delete p vs i v Hi), <- insert_delete_eq, total_insert by by rewrite lookup_delete_eq. lia. Qed.
Lemma total_range p vs : 0 <= total p vs <= Z.of_nat (base.size vs).
Proof.
  induction vs as [|i v vs Hi IH] using map_ind; [by unfold total; rewrite map_fold_empty|]. rewrite total_insert, map_size_insert_None by done. pose proof (holds_range v p). lia.
Qed.
Lemma total_other p vs i k v u : vs !! i = Some v -> vs !! k = Some u -> i ≠ k -> holds u p <= total p vs - holds v p.
Proof.
  intros Hi Hk Hne. rewrite (total_delete p vs i v Hi), (total_delete p (delete i vs) k u) by by rewrite lookup_delete_ne.
  pose proof (total_range p (delete k (delete i vs))). lia.
Qed.

(** The program's vectors are the lists. *)
Definition rep w m : Prop :=
  wf (store w) /\ (forall p, p ≠ 0 -> shares (store w) p = total p (vectors w)) /\ Z.of_nat (base.size (vectors w)) <= 2 ^ 31 - 2 /\
  forall i, match vectors w !! i, m !! i with Some v, Some l => owned (MkV (store w) v) (some l) | None, None => True | _, _ => False end.
Lemma rep_lookup w m i l : rep w m -> m !! i = Some l -> exists v, vectors w !! i = Some v /\ owned (MkV (store w) v) (some l).
Proof. intros (_ & _ & _ & H) Hl. specialize (H i). rewrite Hl in H. destruct (vectors w !! i) as [v|]; [eauto|done]. Qed.
Lemma rep_none w m i : rep w m -> m !! i = None -> vectors w !! i = None.
Proof. intros (_ & _ & _ & H) Hl. specialize (H i). rewrite Hl in H. by destruct (vectors w !! i). Qed.
Lemma rep_size w m : rep w m -> base.size (vectors w) = base.size m.
Proof.
  intros (_ & _ & _ & H). rewrite <- !size_dom. f_equal. apply set_eq. intros i. rewrite !elem_of_dom. specialize (H i).
  destruct (vectors w !! i), (m !! i); try done; split; eauto; by intros [? ?].
Qed.
(** What others hold is as it was. *)
Lemma others_kept w m h v v' k u l : rep w m -> frame (store w) v h v' -> (forall p, p ≠ 0 -> total p (vectors w) - holds v p >= holds u p) ->
  (forall p, p ≠ 0 -> shares h p < 2 ^ 31) -> vectors w !! k = Some u -> owned (MkV (store w) u) (some l) -> owned (MkV h u) (some l).
Proof.
  intros (Hw & Hs & _ & _) [_ Hf] Ho Hb Hk Hu. eapply owned_data; [exact Hu|]. intros E. destruct (Hf _ E) as [_ Hd]. split; [|by apply Hb].
  apply Hd. rewrite Hs by done. specialize (Ho _ E). unfold holds in Ho at 2. rewrite Z.eqb_refl in Ho. lia.
Qed.
Lemma rep_update w m i v l s l' : rep w m -> vectors w !! i = Some v -> m !! i = Some l -> becomes (MkV (store w) v) s (some l') ->
  rep (MkProgram (mem s) (<[i := this s]> (vectors w))) (<[i := l']> m).
Proof.
  intros Hr Hi Hl (Hch & Hw' & Ho'). pose proof Hr as (Hw & Hs & Hn & H). pose proof Hch as [_ Hf]. cbn [mem this] in Hf.
  assert (forall p, p ≠ 0 -> shares (mem s) p = total p (<[i := this s]> (vectors w))) as Hs'.
  { intros p Hp. destruct (Hf p Hp) as [-> _]. rewrite (total_change p _ i v) by done. rewrite Hs by done. lia. }
  assert (base.size (<[i := this s]> (vectors w)) = base.size (vectors w)) as Hsz by (by rewrite map_size_insert_Some).
  split_and!; cbn [store vectors]; [done|done|lia|]. intros k. destruct (decide (k = i)) as [->|Hne].
  - rewrite !lookup_insert_eq. by destruct s.
  - rewrite !lookup_insert_ne by done. specialize (H k). destruct (vectors w !! k) as [u|] eqn:Ek, (m !! k) as [lk|] eqn:Em; try done.
    eapply (others_kept w m _ v (this s) k); [done|exact Hch| | |done|done].
    + intros p _. pose proof (total_other p _ _ _ _ _ Hi Ek ltac:(done)). lia.
    + intros p Hp. rewrite Hs' by done. pose proof (total_range p (<[i:=this s]> (vectors w))). lia.
Qed.
Lemma on_ok w m i l l' (f : V (A := A) Z) r : rep w m -> m !! i = Some l ->
  (forall v, vectors w !! i = Some v -> owned (MkV (store w) v) (some l) -> wf (store w) -> vp f (MkV (store w) v) (fun r' s' => r' = r /\ becomes (MkV (store w) v) s' (some l'))) ->
  exists w', on w i f = Ok (r, w') /\ rep w' (<[i := l']> m).
Proof.
  intros Hr Hl H. destruct (rep_lookup _ _ _ _ Hr Hl) as (v & Hv & Ho). specialize (H v Hv Ho ltac:(by destruct Hr)). unfold on. rewrite Hv. cbn [deref]. rewrite bind_Ok.
  unfold vp in H. destruct (f _) as [[r' s]|]; [|done]. destruct H as [-> H]. rewrite bind_Ok. eexists. split; [done|]. by eapply rep_update.
Qed.

Lemma on_same w m i l (f : V (A := A) Z) r : rep w m -> m !! i = Some l ->
  (forall v, mCount v = Z.of_nat (length l) -> f (MkV (store w) v) = Ok (r, MkV (store w) v)) -> exists w', on w i f = Ok (r, w') /\ rep w' m.
Proof.
  intros Hr Hl H. destruct (on_ok w m i l l f r Hr Hl) as (w' & E & Hr'); [|exists w'; by rewrite insert_id in Hr'].
  intros v _ Ho Hw. eapply vp_ok; [apply H; destruct Ho as [Hc _]; by rewrite length_fmap in Hc|]. split; [done|]. by apply becomes_refl.
Qed.
Lemma split_at (l : list A) (index : Z) : 0 <= index <= Z.of_nat (length l) ->
  some l = some (take (Z.to_nat index) l) ++ some (drop (Z.to_nat index) l) /\ index = Z.of_nat (length (some (take (Z.to_nat index) l))).
Proof. intros H. rewrite <- fmap_app, take_drop, length_fmap, length_take. split; [done|lia]. Qed.
Lemma insert_ok w m i index (new : list A) (f : V (A := A) Z) r m' : rep w m -> spec_insert m i index new = Some (r, m') ->
  (forall v, mCount v < index -> f (MkV (store w) v) = Ok (BAD_INDEX, MkV (store w) v)) ->
  (forall v l1 l2, vectors w !! i = Some v -> wf (store w) -> owned (MkV (store w) v) (l1 ++ l2) -> index = Z.of_nat (length l1) -> new ≠ [] ->
     fits (Z.of_nat (length (l1 ++ l2)) + Z.of_nat (length new)) ->
     vp f (MkV (store w) v) (fun r' s' => r' = index /\ becomes (MkV (store w) v) s' (l1 ++ some new ++ l2))) ->
  exists w', on w i f = Ok (r, w') /\ rep w' m'.
Proof.
  intros Hr Hsp Hbad Hok. unfold spec_insert in Hsp. destruct (m !! i) as [l|] eqn:Hl; [|done]. cbn in Hsp. case_guard as Hg; [|done]. destruct Hg as (H0 & Hne & Hf). cbn in Hsp. destruct (Z.ltb_spec (Z.of_nat (length l)) index) as [E|E]; injection Hsp as <- <-.
  - eapply on_same; [done|done|]. intros v Hc. apply Hbad. lia.
  - eapply on_ok; [done|done|]. intros v Hv Ho Hw. destruct (split_at l index) as [El Ei]; [lia|]. rewrite El in Ho.
    eapply vp_mono; [apply (Hok v _ _ Hv Hw Ho Ei Hne)|].
    + rewrite <- El, length_fmap. by rewrite Nat2Z.inj_add in Hf.
    + intros r' s' [-> Hb]. split; [done|]. unfold splice. by rewrite !fmap_app.
Qed.
Lemma replace_ok w m i index x (f : V (A := A) Z) r m' : rep w m -> spec_replace m i index x = Some (r, m') ->
  (forall v, mCount v <= index -> f (MkV (store w) v) = Ok (BAD_INDEX, MkV (store w) v)) ->
  (forall v l1 y l2, vectors w !! i = Some v -> wf (store w) -> owned (MkV (store w) v) (l1 ++ y :: l2) -> index = Z.of_nat (length l1) ->
     vp f (MkV (store w) v) (fun r' s' => r' = index /\ becomes (MkV (store w) v) s' (l1 ++ Some x :: l2))) ->
  exists w', on w i f = Ok (r, w') /\ rep w' m'.
Proof.
  intros Hr Hsp Hbad Hok. unfold spec_replace in Hsp. destruct (m !! i) as [l|] eqn:Hl; [|done]. cbn in Hsp. case_guard as H0; [|done]. cbn in Hsp. destruct (Z.leb_spec (Z.of_nat (length l)) index) as [E|E]; injection Hsp as <- <-.
  - eapply on_same; [done|done|]. intros v Hc. apply Hbad. lia.
  - eapply on_ok; [done|done|]. intros v Hv Ho Hw. destruct (lookup_lt_is_Some_2 l (Z.to_nat index)) as [y Hy]; [lia|].
    rewrite <- (take_drop_middle l _ y Hy), fmap_app in Ho. cbn in Ho.
    eapply vp_mono; [eapply (Hok v _ _ _ Hv Hw Ho); rewrite length_fmap, length_take; lia|].
    intros r' s' [-> Hb]. split; [done|]. rewrite insert_take_drop, fmap_app by lia. done.
Qed.
Lemma stable_value w v x : stable (MkV (store w) v) (Outside [Some x]) 0 [Some x].
Proof. split; [|done]. apply (reads_outside _ [Some x] 0 [] []). done. Qed.
(** Items of another vector. *)
Lemma stable_other w m i k v u (l1 l l2 : list A) : rep w m -> vectors w !! i = Some v -> vectors w !! k = Some u -> i ≠ k -> owned (MkV (store w) u) (some (l1 ++ l ++ l2)) -> l ≠ [] ->
  stable (MkV (store w) v) (Inside (mStorage u)) (length l1) (some l).
Proof.
  intros (Hw & Hs & _ & _) Hi Hk Hne Ho Hl. rewrite !fmap_app in Ho. split.
  - rewrite <- (length_fmap Some l1). by apply (reads_owned (MkV (store w) u) (some l1) (some l) (some l2)).
  - assert (mStorage u ≠ 0) as E. { intros E. destruct Ho as (_ & _ & H). cbn in H. rewrite E in H. cbn in H. apply app_eq_nil in H as [_ [H _]%app_eq_nil]. by destruct l. }
    split; [done|]. cbn [mem this]. rewrite Hs by done. pose proof (total_other (mStorage u) _ _ _ _ _ Hi Hk Hne) as H. unfold holds in H at 1. rewrite Z.eqb_refl in H. lia.
Qed.
Lemma insertAt_bad h v item index n : mCount v < index -> insertAt item index n (MkV h v) = Ok (BAD_INDEX, MkV h v :> vstate (A := A)).
Proof. intros H. unfold insertAt. erewrite V_bind_ok by reflexivity. cbn [this]. by rewrite (proj2 (Z.ltb_lt _ _) H). Qed.
Lemma insertArrayAt_bad h v src j index n : mCount v < index -> insertArrayAt src j index n (MkV h v) = Ok (BAD_INDEX, MkV h v :> vstate (A := A)).
Proof. intros H. unfold insertArrayAt. erewrite V_bind_ok by reflexivity. cbn [this]. by rewrite (proj2 (Z.ltb_lt _ _) H). Qed.
Lemma replaceAt_bad h v item index : mCount v <= index -> replaceAt item index (MkV h v) = Ok (BAD_INDEX, MkV h v :> vstate (A := A)).
Proof. intros H. unfold replaceAt. erewrite V_bind_ok by reflexivity. cbn [this]. by rewrite (proj2 (Z.leb_le _ _) H). Qed.

(** A new vector, and one that goes. *)
Lemma rep_add w m i v s l : rep w m -> m !! i = None -> Z.of_nat (base.size m) < 2 ^ 31 - 2 -> mStorage v = 0 -> becomes (MkV (store w) v) s (some l) ->
  rep (MkProgram (mem s) (<[i := this s]> (vectors w))) (<[i := l]> m).
Proof.
  intros Hr Hi Hn Hv (Hch & Hw' & Ho'). pose proof Hr as (Hw & Hs & _ & H). pose proof Hch as [_ Hf]. cbn [mem this] in Hf. pose proof (rep_size _ _ Hr) as Hsz. pose proof (rep_none _ _ _ Hr Hi) as Hvi.
  assert (forall p, p ≠ 0 -> holds v p = 0) as Hv0 by (intros p Hp; destruct v; cbn in Hv; subst; by apply holds_null).
  assert (forall p, p ≠ 0 -> shares (mem s) p = total p (<[i := this s]> (vectors w))) as Hs'.
  { intros p Hp. destruct (Hf p Hp) as [-> _]. rewrite total_insert, Hs, Hv0 by done. lia. }
  assert (Z.of_nat (base.size (<[i := this s]> (vectors w))) <= 2 ^ 31 - 2) as Hsz' by (rewrite map_size_insert_None by done; lia).
  split_and!; cbn [store vectors]; [done|done|done|]. intros k. destruct (decide (k = i)) as [->|Hne].
  - rewrite !lookup_insert_eq. by destruct s.
  - rewrite !lookup_insert_ne by done. specialize (H k). destruct (vectors w !! k) as [u|] eqn:Ek, (m !! k) as [lk|] eqn:Em; try done.
    eapply (others_kept w m _ v (this s) k); [done|exact Hch| | |done|done].
    + intros p Hp. rewrite Hv0 by done. rewrite (total_delete p _ k u Ek). pose proof (total_range p (delete k (vectors w))). lia.
    + intros p Hp. rewrite Hs' by done. pose proof (total_range p (<[i:=this s]> (vectors w))). lia.
Qed.
Lemma rep_delete w m i : rep w m -> vectors w !! i = Some (MkVector 0 0) -> rep (MkProgram (store w) (delete i (vectors w))) (delete i m).
Proof.
  intros (Hw & Hs & Hn & H) Hi. split_and!; cbn [store vectors]; [done| | |].
  - intros p Hp. rewrite Hs, (total_delete p _ i (MkVector 0 0)), holds_null by done. lia.
  - rewrite map_size_delete_Some by eauto. lia.
  - intros k. destruct (decide (k = i)) as [->|Hne]; [by rewrite !lookup_delete_eq|]. rewrite !lookup_delete_ne by done. apply H.
Qed.
Lemma vectors_op_ok w m o r m' : rep w m -> spec_op m o = Some (r, m') ->
  match o with Create _ | Copy _ _ | Assign _ _ | Destroy _ => True | _ => False end -> exists w', run_op w o = Ok (r, w') /\ rep w' m'.
Proof.
  intros Hr Hsp Ho. destruct o as [i|i k|i k| | | | | | | | | | | | |i]; try done; cbn [spec_op] in Hsp; pose proof Hr as (Hw & Hs & Hn & _).
  - case_guard as Hg; [|done]. injection Hsp as <- <-. destruct Hg as [Hi Hsz]. eexists. split; [done|].
    apply (rep_add w m i (MkVector 0 0) (MkV (store w) (MkVector 0 0)) []); [done..|]. apply becomes_refl; [done|]. split_and!; [done|apply live_nil|done].
  - destruct (m !! k) as [l|] eqn:Hl; [|done]. cbn in Hsp. case_guard as Hg; [|done]. injection Hsp as <- <-. destruct Hg as [Hi Hsz].
    destruct (rep_lookup _ _ _ _ Hr Hl) as (u & Hu & Hou). cbn [run_op]. rewrite Hu. cbn [deref]. rewrite bind_Ok.
    assert (vp (copy_vector u) (MkV (store w) (MkVector 0 0)) (fun _ s' => becomes (MkV (store w) (MkVector 0 0)) s' (some l))) as H.
    { apply (vp_copy_vector _ u (some l)); [done|done|done| |done]. intros E. cbn [mem]. rewrite Hs by done. pose proof (total_range (mStorage u) (vectors w)). lia. }
    unfold vp in H. destruct (copy_vector u _) as [[[] s]|]; [|done]. rewrite bind_Ok. eexists. split; [done|]. by apply (rep_add w m i (MkVector 0 0)).
  - destruct (m !! k) as [l|] eqn:Hl; [|done]. destruct (m !! i) as [l0|] eqn:Hi; [|done]. cbn in Hsp. injection Hsp as <- <-.
    destruct (rep_lookup _ _ _ _ Hr Hl) as (u & Hu & Hou). cbn [run_op]. rewrite Hu. cbn [deref]. rewrite bind_Ok. eapply on_ok; [done|done|]. intros v Hv Hov _. apply vp_bind.
    destruct (decide (i = k)) as [->|Hne].
    + rewrite bool_decide_true by done. rewrite Hl in Hi. injection Hi as <-. apply vp_ret, vp_ret. split; [done|]. by apply becomes_refl.
    + rewrite bool_decide_false by done. apply (vp_assign _ u (some l0) (some l)); [done|done| |]; [|intros s' Hs'; apply vp_ret; by split].
      split; [done|]. intros E. cbn [mem this]. rewrite !Hs by done. pose proof (total_other (mStorage u) _ _ _ _ _ Hv Hu Hne) as H. unfold holds in H at 1. rewrite Z.eqb_refl in H.
      pose proof (total_range (mStorage u) (vectors w)). lia.
  - destruct (m !! i) as [l|] eqn:Hl; [|done]. cbn in Hsp. injection Hsp as <- <-. destruct (rep_lookup _ _ _ _ Hr Hl) as (v & Hv & Hov). cbn [run_op]. rewrite Hv. cbn [deref]. rewrite bind_Ok.
    assert (vp finish_vector (MkV (store w) v) (fun _ s' => becomes (MkV (store w) v) s' (some []) /\ this s' = MkVector 0 0)) as H by (apply (vp_finish _ (some l)); done).
    unfold vp in H. destruct (finish_vector _) as [[[] s]|]; [|done]. destruct H as [Hb Ht]. rewrite bind_Ok. eexists. split; [done|].
    pose proof (rep_update _ _ _ _ _ _ _ Hr Hv Hl Hb) as Hr'. rewrite Ht in Hr'. apply (rep_delete _ _ i) in Hr'; [|cbn; by rewrite lookup_insert_eq]. cbn in Hr'. by rewrite !delete_insert_eq in Hr'.
Qed.
Lemma insert_op_ok w m o r m' : rep w m -> spec_op m o = Some (r, m') ->
  match o with Insert _ _ _ _ | InsertItem _ _ _ _ _ | InsertArray _ _ _ | InsertVector _ _ _ | Construct _ _ _ => True | _ => False end -> exists w', run_op w o = Ok (r, w') /\ rep w' m'.
Proof.
  intros Hr Hsp Ho. destruct o as [| | |i index x n|i index k j n|i index l|i index k|i index n| | | | | | | |]; try done; cbn [spec_op run_op] in *.
  - case_guard as Hg; [|done]. cbn in Hsp. eapply insert_ok; [done|exact Hsp|intros v Hc; by apply insertAt_bad|]. intros v l1 l2 Hv Hw Hov Hi Hne Hf. rewrite length_replicate, Z2Nat.id in Hf by lia.
    apply (vp_insertAt _ l1 l2 _ _ _ _ (Some x)); [done|done|done|lia|done|apply live_one|apply stable_value|]. intros s' Hs'. by rewrite fmap_replicate.
  - case_guard as Hg; [|done]. cbn in Hsp. destruct (m !! k) as [lk|] eqn:Hl; [|done]. cbn in Hsp. destruct (lk !! Z.to_nat j) as [x|] eqn:Hx; [|done]. cbn in Hsp. destruct Hg as (Hne & Hj & Hn).
    destruct (rep_lookup _ _ _ _ Hr Hl) as (u & Hu & Hou). rewrite Hu. cbn [deref]. rewrite bind_Ok.
    eapply insert_ok; [done|exact Hsp|intros v Hc; by apply insertAt_bad|]. intros v l1 l2 Hv Hw Hov Hi _ Hf. rewrite length_replicate, Z2Nat.id in Hf by lia.
    pose proof (lookup_lt_Some _ _ _ Hx). rewrite <- (take_drop_middle lk _ x Hx) in Hou. change (x :: drop (S (Z.to_nat j)) lk) with ([x] ++ drop (S (Z.to_nat j)) lk) in Hou.
    apply (vp_insertAt _ l1 l2 _ _ _ _ (Some x)); [done|done|done|lia|done|apply live_one| |intros s' Hs'; by rewrite fmap_replicate].
    pose proof (stable_other w m i k v u _ [x] _ Hr Hv Hu Hne Hou ltac:(done)) as H'. rewrite length_take in H'. by replace (Z.to_nat j `min` length lk)%nat with (Z.to_nat j) in H' by lia.
  - eapply insert_ok; [done|exact Hsp|intros v Hc; by apply insertArrayAt_bad|]. intros v l1 l2 Hv Hw Hov Hi Hne Hf.
    apply (vp_insertArrayAt _ l1 l2 _ _ _ _ (some l)); [done|done|done|by rewrite length_fmap|by destruct l| |apply live_all| |by intros s' Hs'].
    + revert Hf. rewrite !length_app, length_fmap. by replace (Z.of_nat (length l1 + (length l + length l2))) with (Z.of_nat (length l1 + length l2) + Z.of_nat (length l)) by lia.
    + split; [|done]. pose proof (reads_outside (mem (MkV (store w) v)) (some l) 0 [] [] eq_refl) as H. cbn in H. by rewrite app_nil_r in H.
  - case_guard as Hne; [|done]. cbn in Hsp. destruct (m !! k) as [lk|] eqn:Hl; [|done]. cbn in Hsp. destruct (rep_lookup _ _ _ _ Hr Hl) as (u & Hu & Hou). rewrite Hu. cbn [deref]. rewrite bind_Ok.
    pose proof Hou as (Hcu & _). cbn in Hcu. rewrite length_fmap in Hcu.
    eapply insert_ok; [done|exact Hsp|intros v Hc; by apply insertArrayAt_bad|]. intros v l1 l2 Hv Hw Hov Hi Hn0 Hf. unfold insertVectorAt.
    apply (vp_insertArrayAt _ l1 l2 _ _ _ _ (some lk)); [done|done|done|by rewrite length_fmap|by destruct lk| |apply live_all| |by intros s' Hs'].
    + revert Hf. rewrite !length_app, length_fmap. by replace (Z.of_nat (length l1 + (length lk + length l2))) with (Z.of_nat (length l1 + length l2) + Z.of_nat (length lk)) by lia.
    + apply (stable_other w m i k v u [] lk []); try done. by rewrite app_nil_r.
  - case_guard as Hg; [|done]. cbn in Hsp. destruct Hg as [Ht Hn]. eapply insert_ok; [done|exact Hsp|intros v Hc; by apply insertAt_bad|]. intros v l1 l2 Hv Hw Hov Hi Hne Hf. rewrite length_replicate, Z2Nat.id in Hf by lia.
    apply (vp_insertAt_new _ l1 l2); [done|done|done|lia|done|]. intros s' l Hs' _ Hl. rewrite (Hl Ht) in Hs'. by rewrite fmap_replicate.
Qed.
Lemma edit_op_ok w m o r m' : rep w m -> spec_op m o = Some (r, m') ->
  match o with Resize _ _ | Remove _ _ _ | Replace _ _ _ | ReplaceItem _ _ _ _ | Clear _ | SetCapacity _ _ | Sort _ _ => True | _ => False end -> exists w', run_op w o = Ok (r, w') /\ rep w' m'.
Proof.
  intros Hr Hsp Ho. destruct o as [| | | | | | | |i n|i index count|i index x|i index k j|i|i c|i cmp|]; try done; cbn [spec_op run_op] in *.
  - destruct (m !! i) as [l|] eqn:Hl; [|done]. cbn in Hsp. case_guard as Hg; [|done]. injection Hsp as <- <-. destruct Hg as (Ht & Hn & Hf). eapply on_ok; [done|done|]. intros v Hv Hov Hw.
    apply (vp_resize _ (some l)); [done..|]. intros s' Hs'. split; [done|]. by rewrite fmap_app, fmap_take, fmap_replicate, length_fmap in *.
  - destruct (m !! i) as [l|] eqn:Hl; [|done]. cbn in Hsp. case_guard as Hg; [|done]. cbn in Hsp. destruct (Z.ltb_spec (Z.of_nat (length l)) (index + count)) as [E|E]; injection Hsp as <- <-.
    + eapply on_same; [done|done|]. intros v Hc. unfold removeItemsAt. erewrite V_bind_ok by reflexivity. cbn [this]. rewrite u64_small, (proj2 (Z.ltb_lt _ _)) by lia. done.
    + eapply on_ok; [done|done|]. intros v Hv Hov Hw.
      assert (some l = some (take (Z.to_nat index) l) ++ some (take (Z.to_nat count) (drop (Z.to_nat index) l)) ++ some (drop (Z.to_nat (index + count)) l)) as El.
      { rewrite <- !fmap_app. f_equal. rewrite Z2Nat.inj_add, <- drop_drop, !take_drop by lia. done. }
      rewrite El in Hov. apply (vp_removeItemsAt (MkV (store w) v) _ _ _ _ _ _ Hw Hov).
      * rewrite length_fmap, length_take. lia.
      * rewrite length_fmap, length_take, length_drop. lia.
      * left. intros E'. apply (f_equal length) in E'. rewrite length_fmap, length_take, length_drop in E'. cbn in E'. lia.
      * intros s' Hs'. split; [done|]. by rewrite fmap_app.
  - eapply replace_ok; [done|exact Hsp|intros v Hc; by apply replaceAt_bad|]. intros v l1 y l2 Hv Hw Hov Hi.
    apply (vp_replaceAt _ l1 y l2 _ _ _ (Some x)); [done|done|done|apply live_one|apply stable_value|]. by intros s' Hs'.
  - case_guard as Hg; [|done]. cbn in Hsp. destruct (m !! k) as [lk|] eqn:Hl; [|done]. cbn in Hsp. destruct (lk !! Z.to_nat j) as [x|] eqn:Hx; [|done]. cbn in Hsp. destruct Hg as (Hne & Hj).
    destruct (rep_lookup _ _ _ _ Hr Hl) as (u & Hu & Hou). rewrite Hu. cbn [deref]. rewrite bind_Ok.
    eapply replace_ok; [done|exact Hsp|intros v Hc; by apply replaceAt_bad|]. intros v l1 y l2 Hv Hw Hov Hi.
    pose proof (lookup_lt_Some _ _ _ Hx). rewrite <- (take_drop_middle lk _ x Hx) in Hou. change (x :: drop (S (Z.to_nat j)) lk) with ([x] ++ drop (S (Z.to_nat j)) lk) in Hou.
    apply (vp_replaceAt _ l1 y l2 _ _ _ (Some x)); [done|done|done|apply live_one| |by intros s' Hs'].
    pose proof (stable_other w m i k v u _ [x] _ Hr Hv Hu Hne Hou ltac:(done)) as H'. rewrite length_take in H'. by replace (Z.to_nat j `min` length lk)%nat with (Z.to_nat j) in H' by lia.
  - destruct (m !! i) as [l|] eqn:Hl; [|done]. cbn in Hsp. injection Hsp as <- <-. eapply on_ok; [done|done|]. intros v Hv Hov Hw. apply vp_bind. apply (vp_clear _ (some l)); [done|done|]. intros s' Hs'. apply vp_ret. by split.
  - destruct (m !! i) as [l|] eqn:Hl; [|done]. cbn in Hsp. case_guard as Hg; [|done]. injection Hsp as <- <-. destruct Hg as [Hc Hf]. pose proof item_size as Hsz.
    rewrite <- (insert_id m i l Hl). eapply on_ok; [done|done|]. intros v Hv Hov Hw.
    apply vp_bind. apply (vp_setCapacity _ (some l)); [done|done|done|unfold fits in Hf; nia|]. intros s' Hs'. apply vp_ret. by split.
  - destruct (m !! i) as [l|] eqn:Hl; [|done]. cbn in Hsp. injection Hsp as <- <-. eapply on_ok; [done|done|]. intros v Hv Hov Hw. apply (vp_sort cmp _ l); [done|done|]. by intros s' Hs'.
Qed.
Lemma run_op_ok w m o r m' : rep w m -> spec_op m o = Some (r, m') -> exists w', run_op w o = Ok (r, w') /\ rep w' m'.
Proof.
  intros Hr Hsp. destruct o; first [by eapply vectors_op_ok | by eapply insert_op_ok | by eapply edit_op_ok].
Qed.
Lemma run_ok ops w m rs m' : rep w m -> spec m ops = Some (rs, m') -> exists w', run w ops = Ok (rs, w') /\ rep w' m'.
Proof.
  revert w m rs. induction ops as [|o ops IH]; intros w m rs Hr Hsp; cbn in Hsp; [injection Hsp as <- <-; eauto|].
  destruct (spec_op m o) as [[r m1]|] eqn:E; [|done]. cbn in Hsp. destruct (spec m1 ops) as [[rs' m2]|] eqn:E2; [|done]. cbn in Hsp. injection Hsp as <- <-.
  destruct (run_op_ok _ _ _ _ _ Hr E) as (w1 & E1 & Hr1). destruct (IH _ _ _ Hr1 E2) as (w2 & E3 & Hr2). exists w2. cbn. rewrite E1, bind_Ok, E3. done.
Qed.
Lemma rep_empty : rep (MkProgram ∅ ∅) ∅.
Proof.
  split; [split; [done|]; intros p b H; cbn in H; by rewrite lookup_empty in H|]. split; [|split].
  - intros p _. unfold shares, total. cbn. by rewrite lookup_empty, map_fold_empty.
  - by vm_compute.
  - intros i. cbn. by rewrite !lookup_empty.
Qed.
(** What is seen of a vector: its size and its items. *)
Definition shows w m : Prop :=
  dom (vectors w) = dom m /\
  forall i l, m !! i = Some l -> exists v, vectors w !! i = Some v /\ mCount v = Z.of_nat (length l) /\
    forall k x, l !! k = Some x -> get_item (store w) (Inside (mStorage v)) k = Ok x.
Lemma rep_shows w m : rep w m -> shows w m.
Proof.
  intros Hr. split.
  - pose proof Hr as (_ & _ & _ & H). apply set_eq. intros i. rewrite !elem_of_dom. specialize (H i). destruct (vectors w !! i), (m !! i); try done; split; eauto; by intros [? ?].
  - intros i l Hl. destruct (rep_lookup _ _ _ _ Hr Hl) as (v & Hv & Hov). exists v. split; [done|]. pose proof Hov as (Hc & _). rewrite length_fmap in Hc. split; [done|]. intros k x Hx.
    rewrite <- (take_drop_middle l _ x Hx), fmap_app in Hov. change (some (x :: drop (S k) l)) with ([Some x] ++ some (drop (S k) l)) in Hov.
    pose proof (reads_owned (MkV (store w) v) _ _ _ ltac:(by destruct Hr) Hov 0%nat (Some x) eq_refl) as H. unfold get_item. cbn [mem this] in H. rewrite length_fmap, length_take, Nat.add_0_r in H. apply lookup_lt_Some in Hx.
    rewrite Nat.min_l in H by lia. by rewrite H.
Qed.
Lemma rep_no_leak w : rep w ∅ -> store w = ∅.
Proof.
  intros Hr. pose proof Hr as (Hw & Hs & _ & H). assert (vectors w = ∅) as Hv. { apply map_empty. intros i. specialize (H i). rewrite lookup_empty in H. by destruct (vectors w !! i). }
  apply map_empty. intros p. destruct (store w !! p) as [b|] eqn:E; [|done]. destruct Hw as [H0 Hw]. assert (p ≠ 0) as Hp by congruence.
  specialize (Hs p Hp). rewrite (shares_some _ _ _ E), Hv in Hs. unfold total in Hs. rewrite map_fold_empty in Hs. specialize (Hw _ _ E). lia.
Qed.

(** C24: while memory lasts, any sequence of operations on any number of vectors gives what
    it gives on lists that are copied, though the vectors share their storage until they
    are changed: every operation ends without a fault and returns what it should, every
    vector has its items, and when all the vectors are gone no storage is left.  What a
    program must not ask is left out of [spec]: to insert no items, the vector's own items
    or more than fit, to remove none, and negative arguments. *)
Theorem vectors_are_lists ops rs m : spec ∅ ops = Some (rs, m) ->
  exists w, run (MkProgram ∅ ∅) ops = Ok (rs, w) /\ shows w m /\ (m = ∅ -> store w = ∅).
Proof.
  intros Hsp. destruct (run_ok ops _ _ _ _ rep_empty Hsp) as (w & E & Hr). exists w. split_and!; [done|by apply rep_shows|]. intros ->. by apply rep_no_leak.
Qed.
End Refinement.

(** ** Sorting *)
Section Sorting.
Context {A : Type} `{!Item A, !Malloc A, !ItemLaws A, !MallocLaws A, !Plenty A}.
Variable cmp : A -> A -> Z.
Definition le (x y : A) : Prop := cmp x y <= 0.
Hypothesis le_trans : forall x y z, le x y -> le y z -> le x z.
Hypothesis le_flip : forall x y, 0 < cmp x y -> le y x.

Lemma sink_perm acc x : sink cmp acc x ≡ₚ x :: acc.
Proof. induction acc as [|y acc IH]; [done|]. cbn. case_match; [rewrite IH; apply Permutation_swap|done]. Qed.
Lemma fold_perm l acc : fold_left (sink cmp) l acc ≡ₚ l ++ acc.
Proof. revert acc. induction l as [|x l IH]; intros acc; cbn; [done|]. rewrite IH, sink_perm. by rewrite Permutation_middle. Qed.
(** The reversed accumulator descends. *)
Definition descending (acc : list A) : Prop := StronglySorted (fun x y => le y x) acc.
Lemma sink_descending acc x : descending acc -> descending (sink cmp acc x).
Proof.
  induction 1 as [|y acc Hd IH Hy]; cbn; [repeat constructor|]. destruct (Z.ltb_spec 0 (cmp y x)) as [E|E].
  - constructor; [done|]. rewrite sink_perm. constructor; [by apply le_flip|done].
  - constructor; [by constructor|]. constructor; [exact E|]. eapply Forall_impl; [exact Hy|]. intros z Hz. by apply (le_trans z y x).
Qed.
Lemma fold_descending l acc : descending acc -> descending (fold_left (sink cmp) l acc).
Proof. revert acc. induction l as [|x l IH]; intros acc H; cbn; [done|]. by apply IH, sink_descending. Qed.
Lemma rev_sorted acc : descending acc -> StronglySorted le (rev acc).
Proof.
  induction 1 as [|y acc _ IH Hy]; cbn; [constructor|].
  revert IH. generalize (Forall_rev Hy). generalize (rev acc). intros l. induction l as [|z l IHl]; intros Hl Hs; cbn; [repeat constructor|].
  apply Forall_cons in Hl as [Hz Hl]. apply StronglySorted_inv in Hs as [Hs Hzl]. constructor; [by apply IHl|]. apply Forall_app. split; [done|by constructor].
Qed.
(** Those equal to [a] keep their order. *)
Definition equals (a x : A) : bool := (cmp x a <=? 0) && (cmp a x <=? 0).
Lemma equal_le a x y : equals a x = true -> equals a y = true -> le x y.
Proof. unfold equals. rewrite !andb_true_iff, !Z.leb_le. intros [H1 _] [_ H2]. by apply (le_trans x a y). Qed.
Lemma sink_stable a acc x : List.filter (equals a) (sink cmp acc x) = (if equals a x then [x] else []) ++ List.filter (equals a) acc.
Proof.
  induction acc as [|y acc IH]; cbn; [by case_match|]. destruct (Z.ltb_spec 0 (cmp y x)) as [E|E]; cbn; [|by destruct (equals a x)].
  rewrite IH. destruct (equals a y) eqn:Ey, (equals a x) eqn:Ex; try done. pose proof (equal_le a y x Ey Ex) as H. unfold le in H. lia.
Qed.
Lemma fold_stable a l acc : List.filter (equals a) (fold_left (sink cmp) l acc) = rev (List.filter (equals a) l) ++ List.filter (equals a) acc.
Proof.
  revert acc. induction l as [|x l IH]; intros acc; cbn; [done|]. rewrite IH, sink_stable. destruct (equals a x); cbn; [by rewrite <- app_assoc|done].
Qed.

(** C25: [sort] ends with the items in order, the same items, those that compare as equal in
    the order they were in, and does not touch vectors that shared the storage. *)
Theorem sort_sorts s l : wf (mem s) -> owned s (Some <$> l) ->
  exists s' l', sort cmp s = Ok (NO_ERROR, s') /\ becomes s s' (Some <$> l') /\
    StronglySorted le l' /\ l' ≡ₚ l /\ forall a, List.filter (equals a) l' = List.filter (equals a) l.
Proof.
  intros Hw Ho. assert (vp (sort cmp) s (fun r s' => r = NO_ERROR /\ becomes s s' (Some <$> sort_list cmp l))) as H by (apply (vp_sort cmp s l); done).
  unfold vp in H. destruct (sort cmp s) as [[r s']|]; [|done]. destruct H as [-> H]. exists s', (sort_list cmp l). unfold sort_list. split_and!; [done|done|..].
  - apply rev_sorted, fold_descending. constructor.
  - by rewrite <- Permutation_rev, fold_perm, app_nil_r.
  - intros a. rewrite filter_rev, fold_stable. cbn. by rewrite app_nil_r, rev_involutive.
Qed.
End Sorting.

(** ** Sorted vectors *)
Section SortedVectors.
Context {A : Type} `{!Item A, !Malloc A, !ItemLaws A, !MallocLaws A, !Plenty A}.
Variable lt : A -> A -> bool.
Hypothesis lt_irrefl : forall x, lt x x = false.
Hypothesis lt_trans : forall x y z, lt x y = true -> lt y z = true -> lt x z = true.
(** Items neither of which is below the other are alike. *)
Hypothesis alike_trans : forall x y z, lt x y = false -> lt y x = false -> lt y z = true -> lt x z = true.
Hypothesis alike_trans' : forall x y z, lt x y = true -> lt y z = false -> lt z y = false -> lt x z = true.
Abbreviation some := (fmap (M := list) (@Some A)).
Implicit Types (x y z : A) (l : list A) (s : vstate (A := A)).

Definition ascending l : Prop := StronglySorted (fun x y => lt x y = true) l.
Definition alike x y : bool := negb (lt x y) && negb (lt y x).
Lemma compare_zero x y : compare_type lt x y = 0 <-> alike x y = true.
Proof. unfold compare_type, strictly_order_type, alike. pose proof (lt_trans x y x). pose proof (lt_irrefl x). destruct (lt x y), (lt y x); cbn; split; intros; try done; rewrite H in *; done. Qed.
Lemma compare_neg x y : compare_type lt x y < 0 <-> lt x y = true.
Proof. unfold compare_type, strictly_order_type. pose proof (lt_trans x y x). pose proof (lt_irrefl x). destruct (lt x y), (lt y x); cbn; split; intros; try done; try lia. rewrite H in *; done. Qed.

(** What a set of items that are not alike does; an item of the set may be replaced by one that is alike. *)
Definition below x l : list A := List.filter (fun y => lt y x) l.
Definition above x l : list A := List.filter (fun y => lt x y) l.
Definition same x l : list A := List.filter (alike x) l.
Definition set_add l x : list A := below x l ++ x :: above x l.
Definition set_remove l x : list A := below x l ++ above x l.
Definition found l x : Z := match same x l with [] => NAME_NOT_FOUND | _ => Z.of_nat (length (below x l)) end.

(** An ascending list around an item. *)
Lemma ascending_split l1 z l2 : ascending (l1 ++ z :: l2) -> Forall (fun y => lt y z = true) l1 /\ Forall (fun y => lt z y = true) l2.
Proof.
  unfold ascending. induction l1 as [|y l1 IH]; cbn; intros H; apply StronglySorted_inv in H as [H Hy]; [done|].
  apply Forall_app in Hy as [_ Hy]. apply Forall_cons in Hy as [Hy _]. destruct (IH H). split; [by constructor|done].
Qed.
Lemma lt_asym x y : lt x y = true -> lt y x = false.
Proof. intros H. destruct (lt y x) eqn:E; [|done]. pose proof (lt_trans x y x H E) as H'. by rewrite lt_irrefl in H'. Qed.
Lemma filter_all (f : A -> bool) l : Forall (fun y => f y = true) l -> List.filter f l = l.
Proof. induction 1 as [|y l Hy _ IH]; cbn; [done|]. by rewrite Hy, IH. Qed.
Lemma filter_none (f : A -> bool) l : Forall (fun y => f y = false) l -> List.filter f l = [].
Proof. induction 1 as [|y l Hy _ IH]; cbn; [done|]. by rewrite Hy. Qed.
(** The three parts of an ascending list, if its items are below [x] up to some place. *)
Lemma parts x l1 l2 : Forall (fun y => lt y x = true) l1 -> Forall (fun y => lt x y = true) l2 ->
  below x (l1 ++ l2) = l1 /\ above x (l1 ++ l2) = l2 /\ same x (l1 ++ l2) = [].
Proof.
  intros H1 H2. unfold below, above, same. rewrite !List.filter_app.
  rewrite (filter_all (fun y => lt y x) l1) by done. rewrite (filter_all (fun y => lt x y) l2) by done.
  rewrite (filter_none (fun y => lt y x) l2), (filter_none (fun y => lt x y) l1), (filter_none _ l1), (filter_none _ l2), app_nil_r;
    [done|..]; (eapply Forall_impl; [eassumption|]); cbn; unfold alike; intros y Hy; rewrite ?Hy, ?andb_false_r; try done; by apply lt_asym.
Qed.
Lemma parts_found x l1 y l2 : ascending (l1 ++ y :: l2) -> alike y x = true ->
  below x (l1 ++ y :: l2) = l1 /\ above x (l1 ++ y :: l2) = l2 /\ same x (l1 ++ y :: l2) = [y].
Proof.
  intros Hs [Hyx Hxy]%andb_true_iff. apply negb_true_iff in Hyx, Hxy. destruct (ascending_split _ _ _ Hs) as [H1 H2].
  destruct (parts x l1 l2) as (E1 & E2 & E3).
  - eapply Forall_impl; [exact H1|]. intros u Hu. cbn in *. by eapply alike_trans'.
  - eapply Forall_impl; [exact H2|]. intros u Hu. cbn in *. by eapply alike_trans.
  - revert E1 E2 E3. unfold below, above, same. rewrite !List.filter_app. cbn. assert (alike x y = true) as -> by (unfold alike; by rewrite Hyx, Hxy). rewrite Hyx, Hxy. intros -> -> E3. split_and!; [done|done|].
    apply app_eq_nil in E3 as [-> ->]. done.
Qed.

(** *** The search: below [l] all items are below [x], above [h] all are above. *)
Lemma search_ok s (items : list A) src (j : Z) x fuel (l h : Z) : read_item (mem s) src (Z.to_nat j) = Ok (Some x) -> reads (mem s) (Inside (mStorage (this s))) 0 (some items) -> ascending items ->
  0 <= l -> h < Z.of_nat (length items) -> l <= h + 1 -> (h + 1 - l <= Z.of_nat fuel) ->
  Forall (fun y => lt y x = true) (take (Z.to_nat l) items) -> Forall (fun y => lt x y = true) (drop (Z.to_nat (h + 1)) items) ->
  vp (search lt fuel (src, j) (mStorage (this s)) l h) s (fun r s' => s' = s /\ r = (found items x, Z.of_nat (length (below x items)))).
Proof.
  intros Hx Hd Hs. revert l h. induction fuel as [|fuel IH]; intros l h Hl Hh Hlh Hf H1 H2; cbn [search].
  { rewrite (proj2 (Z.leb_gt _ _)) by lia. apply vp_ret. split; [done|]. replace (Z.to_nat (h + 1)) with (Z.to_nat l) in H2 by lia.
    destruct (parts x _ _ H1 H2) as (E1 & E2 & E3). rewrite take_drop in *. unfold found. rewrite E1, E3, length_take. f_equal. lia. }
  destruct (Z.leb_spec l h) as [E|E].
  2: { apply vp_ret. split; [done|]. replace (Z.to_nat (h + 1)) with (Z.to_nat l) in H2 by lia.
    destruct (parts x _ _ H1 H2) as (E1 & E2 & E3). rewrite take_drop in *. unfold found. rewrite E1, E3, length_take. f_equal. lia. }
  set (mid := l + (h - l) / 2). assert (l <= mid <= h) as Hm by (unfold mid; zdiv).
  destruct (lookup_lt_is_Some_2 items (Z.to_nat mid)) as [y Hy]; [lia|].
  assert (read_item (mem s) (Inside (mStorage (this s))) (Z.to_nat mid) = Ok (Some y)) as Hry by (apply (Hd (Z.to_nat mid)); by rewrite list_lookup_fmap, Hy).
  cbv zeta. apply vp_bind. unfold vp at 1, do_compare, look, get_item. cbn [fst snd]. rewrite Hry, Hx. cbn [deref mbind res_bind].
  pose proof (take_drop_middle _ _ _ Hy) as Hsplit. pose proof Hs as Hs2. rewrite <- Hsplit in Hs2. destruct (ascending_split _ _ _ Hs2) as [Hb Ha].
  destruct (Z.eqb_spec (compare_type lt y x) 0) as [E0|E0]; [|destruct (Z.ltb_spec (compare_type lt y x) 0) as [En|En]].
  - apply vp_ret. split; [done|]. apply compare_zero in E0. destruct (parts_found x _ _ _ Hs2 E0) as (E1 & E2 & E3). rewrite Hsplit in *. unfold found. rewrite E1, E3, length_take. f_equal; lia.
  - apply compare_neg in En. apply IH; try lia; [|done]. replace (Z.to_nat (mid + 1)) with (S (Z.to_nat mid)) by lia. rewrite (take_S_r _ _ y) by done. apply Forall_app. split; [|by constructor].
    eapply Forall_impl; [exact Hb|]. intros u Hu. by apply (lt_trans u y x).
  - apply IH; try lia; [done|]. replace (mid - 1 + 1) with mid by lia. rewrite (drop_S _ y) by done.
    assert (lt x y = true) as Hxy.
    { destruct (lt x y) eqn:E1; [done|]. destruct (lt y x) eqn:E2; [apply compare_neg in E2; lia|]. exfalso. apply E0, compare_zero. unfold alike. by rewrite E1, E2. }
    constructor; [done|]. eapply Forall_impl; [exact Ha|]. intros u Hu. by apply (lt_trans x y u).
Qed.

Lemma vp_indexOrderOf s l src (j : Z) x (Q : Z * Z -> vstate (A := A) -> Prop) : wf (mem s) -> owned s (some l) -> ascending l -> read_item (mem s) src (Z.to_nat j) = Ok (Some x) ->
  Q (found l x, Z.of_nat (length (below x l))) s -> vp (_indexOrderOf lt (src, j)) s Q.
Proof.
  intros Hw Ho Hs Hx HQ. pose proof Ho as (Hc & _). rewrite length_fmap in Hc. unfold _indexOrderOf. apply vp_bind, vp_size. rewrite Hc.
  destruct (Z.eqb_spec (Z.of_nat (length l)) 0) as [E|E]; [destruct l; [by apply vp_ret|done]|]. apply vp_bind, vp_storage. rewrite Nat2Z.id.
  eapply vp_mono; [apply (search_ok s l src j x); [done| |done|lia..| |]|].
  - apply (reads_owned s [] (some l) []); [done|by rewrite app_nil_r].
  - constructor.
  - rewrite drop_ge by lia. constructor.
  - by intros r s' [-> ->].
Qed.
Lemma ascending_cases l x : ascending l ->
  (exists l1 l2, l = l1 ++ l2 /\ Forall (fun y => lt y x = true) l1 /\ Forall (fun y => lt x y = true) l2) \/ (exists l1 y l2, l = l1 ++ y :: l2 /\ alike y x = true).
Proof.
  induction 1 as [|y l Hs IH Hy]; [left; by exists [], []|]. destruct (lt y x) eqn:E.
  - destruct IH as [(l1 & l2 & -> & H1 & H2)|(l1 & z & l2 & -> & Hz)]; [left; exists (y :: l1), l2; split_and!; [done|by constructor|done]|right; by exists (y :: l1), z, l2].
  - destruct (lt x y) eqn:E2; [|right; exists [], y, l; unfold alike; by rewrite E, E2]. left. exists [], (y :: l). split_and!; [done|done|]. constructor; [done|].
    eapply Forall_impl; [exact Hy|]. intros z Hz. by apply (lt_trans x y z).
Qed.
Lemma ascending_app l1 l2 : ascending l1 -> ascending l2 -> (forall y z, y ∈ l1 -> z ∈ l2 -> lt y z = true) -> ascending (l1 ++ l2).
Proof.
  unfold ascending. induction 1 as [|y l1 H1 IH Hy]; intros H2 H; cbn; [done|]. constructor.
  - apply IH; [done|]. intros u z Hu Hz. apply H; [by apply list_elem_of_further|done].
  - apply Forall_app. split; [done|]. apply Forall_forall. intros z Hz. apply H; [apply list_elem_of_here|done].
Qed.
Lemma ascending_filter (f : A -> bool) l : ascending l -> ascending (List.filter f l).
Proof.
  unfold ascending. induction 1 as [|y l _ IH Hy]; cbn; [constructor|]. destruct (f y); [|done]. constructor; [done|]. apply Forall_forall. intros z Hz%list_elem_of_In%List.filter_In.
  destruct Hz as [Hz _]. apply list_elem_of_In in Hz. by apply (proj1 (Forall_forall _ _) Hy).
Qed.
Lemma below_in x l y : y ∈ below x l -> lt y x = true.
Proof. unfold below. intros [_ H]%list_elem_of_In%List.filter_In. done. Qed.
Lemma above_in x l y : y ∈ above x l -> lt x y = true.
Proof. unfold above. intros [_ H]%list_elem_of_In%List.filter_In. done. Qed.
Lemma set_add_ascending l x : ascending l -> ascending (set_add l x).
Proof.
  intros H. apply ascending_app; [by apply ascending_filter| |].
  - constructor; [by apply ascending_filter|]. apply Forall_forall. intros z Hz. by apply (above_in x l).
  - intros y z Hy%below_in [->|Hz%above_in]%elem_of_cons; [done|]. by apply (lt_trans y x z).
Qed.
Lemma set_remove_ascending l x : ascending l -> ascending (set_remove l x).
Proof.
  intros H. apply ascending_app; [by apply ascending_filter..|]. intros y z Hy%below_in Hz%above_in. by apply (lt_trans y x z).
Qed.

Lemma vp_sorted_add s l x (Q : Z -> vstate (A := A) -> Prop) : wf (mem s) -> owned s (some l) -> ascending l -> fits (Z.of_nat (length l) + 1) ->
  (forall s', becomes s s' (some (set_add l x)) -> Q (Z.of_nat (length (below x l))) s') -> vp (sorted_add lt (Outside [Some x], 0)) s Q.
Proof.
  intros Hw Ho Hs Hf HQ. unfold sorted_add. apply vp_bind. apply (vp_indexOrderOf s l _ _ x); [done..|].
  assert (stable s (Outside [Some x]) (Z.to_nat 0) [Some x]) as Hx by (split; [apply (reads_outside _ [Some x] 0 [] []); done|done]).
  destruct (ascending_cases l x Hs) as [(l1 & l2 & -> & H1 & H2)|(l1 & y & l2 & -> & Hy)].
  - destruct (parts x l1 l2 H1 H2) as (E1 & E2 & E3). unfold found, set_add in *. rewrite E1, E2, E3 in *. cbn [Z.ltb NAME_NOT_FOUND Z.compare]. rewrite fmap_app in Ho.
    apply (vp_insertAt s (some l1) (some l2) _ _ _ _ (Some x)); [done|done|by rewrite length_fmap|done| |apply live_one|done|].
    + by rewrite <- fmap_app, length_fmap.
    + intros s' Hs'. apply HQ. by rewrite fmap_app.
  - destruct (parts_found x l1 y l2 Hs Hy) as (E1 & E2 & E3). unfold found, set_add in *. rewrite E1, E2, E3 in *. rewrite (proj2 (Z.ltb_ge _ _)) by lia. rewrite fmap_app in Ho.
    apply (vp_replaceAt s (some l1) (Some y) (some l2) _ _ _ (Some x)); [done|done|by rewrite length_fmap|apply live_one|done|]. intros s' Hs'. apply HQ. by rewrite fmap_app.
Qed.
Lemma vp_remove s l x (Q : Z -> vstate (A := A) -> Prop) : wf (mem s) -> owned s (some l) -> ascending l ->
  (forall s', becomes s s' (some (set_remove l x)) -> Q (found l x) s') -> vp (remove lt (Outside [Some x], 0)) s Q.
Proof.
  intros Hw Ho Hs HQ. unfold remove, indexOf. apply vp_bind, vp_bind. apply (vp_indexOrderOf s l _ _ x); [done..|]. apply vp_ret.
  destruct (ascending_cases l x Hs) as [(l1 & l2 & -> & H1 & H2)|(l1 & y & l2 & -> & Hy)].
  - destruct (parts x l1 l2 H1 H2) as (E1 & E2 & E3). unfold found, set_remove in *. rewrite E1, E2, E3 in *. cbn [Z.leb NAME_NOT_FOUND Z.compare]. apply vp_ret, HQ. by apply becomes_refl.
  - destruct (parts_found x l1 y l2 Hs Hy) as (E1 & E2 & E3). unfold found, set_remove in *. rewrite E1, E2, E3 in *. rewrite (proj2 (Z.leb_le _ _)) by lia. rewrite fmap_app in Ho. apply vp_bind.
    apply (vp_removeItemsAt s (some l1) [Some y] (some l2)); [done|done|by rewrite length_fmap|done|by left|]. intros s' Hs'. apply vp_ret, HQ. by rewrite fmap_app.
Qed.

(** A program with one sorted vector. *)
Inductive set_op : Type := SetAdd x | SetRemove x | SetFind x.
Definition run_set (o : set_op) : V (A := A) Z :=
  match o with
  | SetAdd x => sorted_add lt (Outside [Some x], 0)
  | SetRemove x => remove lt (Outside [Some x], 0)
  | SetFind x => indexOf lt (Outside [Some x], 0)
  end.
Fixpoint run_sets (ops : list set_op) : V (A := A) (list Z) :=
  match ops with [] => mret [] | o :: ops => r ← run_set o; rs ← run_sets ops; mret (r :: rs) end.
Definition spec_set l (o : set_op) : option (Z * list A) :=
  match o with
  | SetAdd x => guard (fits (Z.of_nat (length l) + 1));; Some (Z.of_nat (length (below x l)), set_add l x)
  | SetRemove x => Some (found l x, set_remove l x)
  | SetFind x => Some (found l x, l)
  end.
Fixpoint spec_sets l (ops : list set_op) : option (list Z * list A) :=
  match ops with [] => Some ([], l) | o :: ops => '(r, l) ← spec_set l o; '(rs, l) ← spec_sets l ops; Some (r :: rs, l) end.
Lemma run_set_ok s l o r l' : wf (mem s) -> owned s (some l) -> ascending l -> spec_set l o = Some (r, l') ->
  vp (run_set o) s (fun r' s' => r' = r /\ becomes s s' (some l') /\ ascending l').
Proof.
  intros Hw Ho Hs Hsp. destruct o as [x|x|x]; cbn [spec_set run_set] in *.
  - case_guard as Hf; [|done]. injection Hsp as <- <-. apply (vp_sorted_add s l); [done..|]. intros s' Hs'. split_and!; [done|done|by apply set_add_ascending].
  - injection Hsp as <- <-. apply (vp_remove s l); [done..|]. intros s' Hs'. split_and!; [done|done|by apply set_remove_ascending].
  - injection Hsp as <- <-. unfold indexOf. apply vp_bind, (vp_indexOrderOf s l _ _ x); [done..|]. apply vp_ret. split_and!; [done|by apply becomes_refl|done].
Qed.
Lemma run_sets_ok ops s l rs l' : wf (mem s) -> owned s (some l) -> ascending l -> spec_sets l ops = Some (rs, l') ->
  vp (run_sets ops) s (fun rs' s' => rs' = rs /\ becomes s s' (some l') /\ ascending l').
Proof.
  revert s l rs. induction ops as [|o ops IH]; intros s l rs Hw Ho Hs Hsp; cbn [spec_sets run_sets] in *.
  { injection Hsp as <- <-. apply vp_ret. split_and!; [done|by apply becomes_refl|done]. }
  destruct (spec_set l o) as [[r l1]|] eqn:E; [|done]. cbn in Hsp. destruct (spec_sets l1 ops) as [[rs' l2]|] eqn:E2; [|done]. cbn in Hsp. injection Hsp as <- <-.
  apply vp_bind. eapply vp_mono; [by apply (run_set_ok s l o r l1)|]. intros r' s1 (-> & (Hch & Hw1 & Ho1) & Hs1). apply vp_bind. eapply vp_mono; [by apply (IH s1 l1 rs')|].
  intros rs2 s2 (-> & (Hch2 & Hw2 & Ho2) & Hs2). apply vp_ret. split_and!; [done|split_and!; [by apply (changes_trans s s1)|done|done]|done].
Qed.

(** C26: a [SortedVector] is a set of items that are not alike, in order: adding puts an item
    between those below and those above it, or in the place of the one like it, and returns
    the index; removing and finding return the index of the one like it or
    NAME_NOT_FOUND; the binary search always ends. *)
Theorem sorted_vectors_are_sets ops rs l : spec_sets [] ops = Some (rs, l) ->
  exists s, run_sets ops (MkV ∅ (MkVector 0 0)) = Ok (rs, s) /\ wf (mem s) /\ owned s (some l) /\ ascending l.
Proof.
  intros Hsp. assert (vp (run_sets ops) (MkV ∅ (MkVector 0 0)) (fun rs' s' => rs' = rs /\ becomes (MkV ∅ (MkVector 0 0)) s' (some l) /\ ascending l)) as H.
  { apply (run_sets_ok ops _ []); [|split_and!; [done|apply live_nil|done]|constructor|done]. split; [done|]. intros p b E. cbn in E. by rewrite lookup_empty in E. }
  unfold vp in H. destruct (run_sets ops _) as [[rs' s]|]; [|done]. destruct H as (-> & (_ & Hw & Ho) & Hs). by exists s.
Qed.
End SortedVectors.

(** ** Without memory *)
Section Shared.
Context {A : Type} `{!Item A, !Malloc A, !ItemLaws A}.

(** C27: when there is no memory for a copy of a shared storage, [replaceAt] reports success and
    has written to the storage of all: every vector that shares it has the new item. *)
Theorem shared_storage_written (s : vstate (A := A)) l1 x l2 y : wf (mem s) -> owned s (l1 ++ x :: l2) -> 1 < shares (mem s) (mStorage (this s)) ->
  (forall n, malloc_at (mem s) n = None) -> live [y] ->
  exists h, replaceAt (Some (Outside [y], 0)) (Z.of_nat (length l1)) s = Ok (Z.of_nat (length l1), MkV h (this s)) /\
    forall v, mStorage v = mStorage (this s) -> mCount v = mCount (this s) -> owned (MkV h v) (l1 ++ y :: l2).
Proof.
  intros Hw Ho Hr Hn Hy. pose proof (owned_count _ _ Hw Ho) as [Hc _]. pose proof Ho as (_ & [Hv1 [Hvx Hv2]%live_cons]%live_app & _).
  assert (vp (replaceAt (Some (Outside [y], 0)) (Z.of_nat (length l1))) s (fun r s' => r = Z.of_nat (length l1) /\ this s' = this s /\
    forall v, mStorage v = mStorage (this s) -> mCount v = mCount (this s) -> owned (MkV (mem s') v) (l1 ++ y :: l2))) as H.
  2: { unfold vp in H. destruct (replaceAt _ _ s) as [[r [h v]]|]; [|done]. cbn in H. destruct H as (-> & -> & H). by exists h. }
  destruct (storage_cases _ _ Hw Ho) as [(_ & E & _)|(H0 & b & extra & Hb & Hrb & Hs & Hx & Hz)]; [by rewrite (shares_none _ _ E) in Hr|]. rewrite (shares_some _ _ _ Hb) in Hr.
  pose proof (cap_bound _ _ Hw Ho) as Hcap. rewrite length_app in Hc, Hcap. cbn [length] in Hc, Hcap. unfold replaceAt. apply vp_bind, vp_size. rewrite Hc, (proj2 (Z.leb_gt _ _)) by lia.
  apply vp_bind. unfold editItemLocation. apply vp_bind, (vp_capacity _ (l1 ++ x :: l2)); [done|done|]. rewrite (proj2 (Z.ltb_lt _ _)) by lia. apply vp_bind.
  unfold editArrayImpl. apply vp_bind, vp_storage. rewrite (proj2 (Z.eqb_neq _ _)) by lia. apply vp_bind. unfold vp at 1, look, attemptEdit, onlyOwner. rewrite Hb. cbn [deref mbind res_bind].
  rewrite (proj2 (Z.eqb_neq (mRefs b) 1)) by lia. cbn [Z.eqb]. apply vp_bind, (vp_capacity _ (l1 ++ x :: l2)); [done|done|]. apply vp_bind. unfold vp at 1, call, alloc. rewrite Hn. cbn [mbind res_bind Z.eqb].
  apply vp_storage. cbn [this mem]. rewrite (proj2 (Z.eqb_neq _ _)) by lia. apply vp_ret. cbn [same_place negb]. apply vp_bind.
  rewrite <- app_assoc in Hs. cbn [app] in Hs.
  apply (vp_destroy _ _ b _ _ l1 (l2 ++ extra) [x]); [done|done|done|done|done|]. intros gap Hg Hrg. apply vp_bind. cbn [mem this].
  apply (vp_copy _ _ (set_slots b (l1 ++ gap ++ l2 ++ extra)) _ _ _ _ l1 gap (l2 ++ extra) [y]); [by cbn; rewrite lookup_insert_eq|done|done|done|done|done|done| |by left|].
  { apply (reads_outside _ [y] 0 [] []). done. }
  cbn [mem this]. rewrite insert_insert_eq. apply vp_ret. split_and!; [done|done|]. intros v Hv Hcv. split_and!.
  - cbn. rewrite Hcv, length_app. done.
  - rewrite live_app, live_cons. done.
  - cbn [mem this]. rewrite Hv, (proj2 (Z.eqb_neq _ _)) by lia. split; [done|]. eexists _, extra. rewrite lookup_insert_eq. cbn. destruct Hz as [Hz1 Hz2].
    split_and!; [done|cbn; lia|by rewrite <- app_assoc|done|]. split; cbn; [|done]. rewrite Hz1, Hs. by rewrite !length_app.
Qed.
End Shared.

(** ** Concrete vectors *)
#[export] Instance endless_laws A : MallocLaws A.
Proof.
  split; cbn.
  - intros h n p [= <-]. split; [apply next_positive|]. destruct (h !! next_address h) as [b|] eqn:E; [|done]. apply below_next in E. lia.
  - intros h p n q [= <-]. by left.
Qed.
#[export] Instance endless_plenty A : Plenty A.
Proof. intros h n. by exists (next_address h). Qed.
#[export] Instance number_laws : ItemLaws number.
Proof. by split. Qed.
#[export] Instance object_laws : ItemLaws object.
Proof. by split. Qed.

(** A vector is copied, sorted and cut; the copy stays. *)
Definition story : list (op (A := object)) :=
  [Create 0; InsertArray 0 0 [Object 3; Object 1; Object 2]; Copy 1 0; Sort 0 by_value; Insert 1 3 (Object 7) 2; InsertVector 0 1 1; Remove 0 0 2; Assign 1 0; Replace 1 0 (Object 9); Clear 0; Destroy 0; Remove 1 1 9].
Lemma vectors_are_lists_witness :
  exists w, run (MkProgram ∅ ∅) story = Ok ([0; 0; 0; 0; 3; 1; 0; 0; 0; 0; 0; -22], w) /\ shows w {[1%nat := [Object 9; Object 2; Object 7; Object 7; Object 2; Object 3]]}.
Proof.
  assert (spec ∅ story = Some ([0; 0; 0; 0; 3; 1; 0; 0; 0; 0; 0; -22], {[1%nat := [Object 9; Object 2; Object 7; Object 7; Object 2; Object 3]]})) as H by (vm_compute; reflexivity).
  destruct (vectors_are_lists story _ _ H) as (w & E & Hs & _). exists w. split; [exact E|exact Hs].
Defined.
Definition three : vstate (A := object) := MkV {[1 := MkBuffer 1 64 [Some (Object 2); Some (Object 1); Some (Object 2); None]]} (MkVector 1 3).
Lemma three_owned : wf (mem three) /\ owned three (Some <$> [Object 2; Object 1; Object 2]).
Proof.
  split.
  - split; [done|]. intros p b H. cbn in H. apply lookup_singleton_Some in H as [_ <-]. cbn. lia.
  - split_and!; [done|by apply live_all|]. cbn. split; [done|]. eexists _, [None]. split_and!; [done|cbn; lia|done|apply (raw_nones 1)|split; cbn; [done|lia]].
Qed.
Lemma sort_sorts_witness : wf (mem three) /\ exists s' l', sort by_value three = Ok (NO_ERROR, s') /\ becomes three s' (Some <$> l') /\ StronglySorted (le by_value) l'.
Proof.
  split; [apply three_owned|].
  destruct (sort_sorts by_value ltac:(unfold le, by_value; intros; lia) ltac:(unfold le, by_value; intros; lia) three [Object 2; Object 1; Object 2] (proj1 three_owned) (proj2 three_owned)) as (s' & l' & H1 & H2 & H3 & _).
  by exists s', l'.
Defined.
Definition set_story : list (set_op (A := object)) :=
  [SetAdd (Object 5); SetAdd (Object 3); SetAdd (Object 8); SetAdd (Object 5); SetFind (Object 8); SetRemove (Object 3); SetFind (Object 4)].
Lemma sorted_vectors_are_sets_witness :
  exists s, run_sets lt_value set_story (MkV ∅ (MkVector 0 0)) = Ok ([0; 0; 2; 1; 2; 0; -2], s) /\ owned s (Some <$> [Object 5; Object 8]).
Proof.
  assert (spec_sets lt_value [] set_story = Some ([0; 0; 2; 1; 2; 0; -2], [Object 5; Object 8])) as H by (vm_compute; reflexivity).
  assert (forall x, lt_value x x = false) as H1 by (unfold lt_value; intros; lia).
  assert (forall x y z, lt_value x y = true -> lt_value y z = true -> lt_value x z = true) as H2 by (unfold lt_value; intros; lia).
  assert (forall x y z, lt_value x y = false -> lt_value y x = false -> lt_value y z = true -> lt_value x z = true) as H3 by (unfold lt_value; intros; lia).
  assert (forall x y z, lt_value x y = true -> lt_value y z = false -> lt_value z y = false -> lt_value x z = true) as H4 by (unfold lt_value; intros; lia).
  destruct (sorted_vectors_are_sets lt_value H1 H2 H3 H4 set_story _ _ H) as (s & E & _ & Ho & _). exists s. split; [exact E|exact Ho].
Defined.
(** Two vectors share their storage, and there is no more memory. *)
Definition no_memory : Malloc object := {| malloc_at _ _ := None; realloc_at _ _ _ := None |}.
Definition shared : vstate (A := object) := MkV {[1 := MkBuffer 2 32 [Some (Object 2); Some (Object 1)]]} (MkVector 1 2).
Lemma shared_owned : wf (mem shared) /\ owned shared ([] ++ Some (Object 2) :: [Some (Object 1)]).
Proof.
  split.
  - split; [done|]. intros p b H. cbn in H. apply lookup_singleton_Some in H as [_ <-]. cbn. lia.
  - split_and!; [done|by apply (live_all [Object 2; Object 1])|]. cbn. split; [done|]. eexists _, []. split_and!; [done|cbn; lia|done|apply raw_nil|split; cbn; [done|lia]].
Qed.
Lemma shared_storage_written_witness :
  exists h, @replaceAt object _ no_memory (Some (Outside [Some (Object 9)], 0)) 0 shared = Ok (0, MkV h (this shared)) /\ owned (MkV h (MkVector 1 2)) [Some (Object 9); Some (Object 1)].
Proof.
  assert (1 < shares (mem shared) (mStorage (this shared))) as H1 by (vm_compute; reflexivity).
  destruct (@shared_storage_written object _ no_memory _ shared [] (Some (Object 2)) [Some (Object 1)] (Some (Object 9)) (proj1 shared_owned) (proj2 shared_owned) H1
    (fun n => eq_refl) (live_one (Object 9))) as (h & E & H). exists h. split; [exact E|exact (H (MkVector 1 2) eq_refl eq_refl)].
Defined.

Definition full : res (vstate (A := object)) := pushes [1; 2; 3; 4] nothing.
(** Items of a full vector are destroyed before they are copied to its end. *)
Example push_of_itself : (s ← full; after (add (Some (Inside (mStorage (this s)), 0))) s) = Fault OOPS.
Proof. by vm_compute. Qed.
Example append_to_itself : (s ← full; after (appendVector (this s)) s) = Fault OOPS.
Proof. by vm_compute. Qed.
(** To add nothing to a full vector is out of memory; to remove nothing from the middle destroys items. *)
Example append_nothing : (s ← full; '(r, _) ← after (appendArray (Outside []) 0 0) s; Ok r) = Ok NO_MEMORY.
Proof. by vm_compute. Qed.
Example remove_nothing : (s ← full; after (removeItemsAt 1 0) s) = Fault OOPS.
Proof. by vm_compute. Qed.
(** Merging into an empty vector, and into one that ends with the first item of the other. *)
Example merge_into_empty : (s ← pushes [1; 2] nothing; after (merge_sorted lt_value (this s)) (MkV (mem s) (MkVector 0 0))) = Fault OOPS.
Proof. by vm_compute. Qed.
Example merge_twice : (s ← pushes [2; 3] nothing; s2 ← pushes [1; 2] (MkV (mem s) (MkVector 0 0)); after (merge_sorted lt_value (this s)) s2) =
  Ok (2, [Some (Object 1); Some (Object 2); Some (Object 2); Some (Object 3)]).
Proof. by vm_compute. Qed.
