(* ===== verification/Commands.v ===== *)
(** * The commands that a thread writes

    What libbinder queues and the driver decodes: a command and its bytes, and that
    [binder_thread_write] does what the commands say. *)
From S2P Require Import Prelude UserMem RbTree Alloc Protocol Kernel Refs Transact Send Write BioParse.

Inductive looper_command : Set := Register | Enter | Exit.
(** [BcRef up strong]: a reference is taken or given up. *)
Inductive bc : Type :=
| BcRef (up strong : bool) (target : Z)
| BcDone (strong : bool) (ptr cookie : Z)
| BcFree (data : Z)
| BcTransaction (reply : bool) (txn : binder_transaction_data)
| BcLooper (c : looper_command)
| BcDeath (request : bool) (target cookie : Z)
| BcDeadDone (cookie : Z).

Definition bc_code (c : bc) : Z :=
  match c with
  | BcRef true true _ => BC_ACQUIRE
  | BcRef true false _ => BC_INCREFS
  | BcRef false true _ => BC_RELEASE
  | BcRef false false _ => BC_DECREFS
  | BcDone true _ _ => BC_ACQUIRE_DONE
  | BcDone false _ _ => BC_INCREFS_DONE
  | BcFree _ => BC_FREE_BUFFER
  | BcTransaction reply _ => if reply then BC_REPLY else BC_TRANSACTION
  | BcLooper Register => BC_REGISTER_LOOPER
  | BcLooper Enter => BC_ENTER_LOOPER
  | BcLooper Exit => BC_EXIT_LOOPER
  | BcDeath true _ _ => BC_REQUEST_DEATH_NOTIFICATION
  | BcDeath false _ _ => BC_CLEAR_DEATH_NOTIFICATION
  | BcDeadDone _ => BC_DEAD_BINDER_DONE
  end.
Definition bc_args (c : bc) : list Z :=
  match c with
  | BcRef _ _ target => le_bytes 4 target
  | BcDone _ ptr cookie => le_bytes 8 ptr ++ le_bytes 8 cookie
  | BcFree data => le_bytes 8 data
  | BcTransaction _ txn => txn_bytes txn
  | BcLooper _ => []
  | BcDeath _ target cookie => le_bytes 4 target ++ le_bytes 8 cookie
  | BcDeadDone cookie => le_bytes 8 cookie
  end.
Definition bc_bytes (c : bc) : list Z := le_bytes 4 (bc_code c) ++ bc_args c.
Definition bcs_bytes (l : list bc) : list Z := l ≫= bc_bytes.

(** The arguments fit their widths. *)
Definition bc_ok (c : bc) : Prop :=
  match c with
  | BcRef _ _ target => word 4 target
  | BcDone _ ptr cookie => word 8 ptr /\ word 8 cookie
  | BcFree data => word 8 data
  | BcTransaction _ txn => Forall2 word txn_widths (txn_fields txn)
  | BcLooper _ => True
  | BcDeath _ target cookie => word 4 target /\ word 8 cookie
  | BcDeadDone cookie => word 8 cookie
  end.

(** Comparisons of constants. *)
Ltac decide_codes :=
  repeat match goal with |- context [(?a =? ?b)] => let v := eval vm_compute in (a =? b) in change (a =? b) with v end; cbn [orb]; cbn iota.

Lemma length_txn_bytes txn : length (txn_bytes txn) = sizeof_binder_transaction_data.
Proof. unfold txn_bytes. rewrite length_bytes_of; done. Qed.
Lemma bc_code_word c : word 4 (bc_code c).
Proof. destruct c as [[] []|[]| |[]|[]|[]|]; by vm_compute. Qed.
Lemma bcs_bytes_cons c l : bcs_bytes (c :: l) = bc_bytes c ++ bcs_bytes l.
Proof. done. Qed.
Lemma bcs_bytes_app l l' : bcs_bytes (l ++ l') = bcs_bytes l ++ bcs_bytes l'.
Proof. apply bind_app. Qed.

(** ** The commands that a thread wrote, read back

    [binder_thread_write] works on bytes of the caller's memory; here it is compared
    with the same work on the list of commands that the bytes encode. *)

Implicit Types (p th ptr buffer : Z) (s : kstate) (c : bc) (cs : list bc) (l : list Z).

Section Parse.
Context {M : Type} `{uops : UserOps M}.
Context `{env : KernelEnv} `{rb : RbOps} `{jk : Junk}.

(** What a command does. *)
Definition exec_bc (u : M) (cur : task) p th c : K unit :=
  match c with
  | BcRef _ _ target => write_refs p (bc_code c) target
  | BcDone _ ptr cookie => write_refs_done p (bc_code c) ptr cookie
  | BcFree data => write_free_buffer p th data
  | BcTransaction reply txn => binder_transaction u cur p th txn reply
  | BcLooper Register => write_register_looper p th
  | BcLooper Enter => write_enter_looper th
  | BcLooper Exit => write_exit_looper th
  | BcDeath true target cookie => write_request_death p th target cookie
  | BcDeath false target cookie => write_clear_death p th target cookie
  | BcDeadDone cookie => write_dead_binder_done p th cookie
  end.
(** One after another, until one leaves an error for the thread to collect. *)
Fixpoint run_bcs (u : M) (cur : task) p th cs (consumed : Z) : K (Z * Z) :=
  thread ← get_thread th;
  match cs with
  | [] => mret (0, consumed)
  | c :: cs =>
      if negb (th_return_error thread =? BR_OK) then mret (0, consumed) else
      _ ← binder_stat_bc p th (bc_code c);
      _ ← exec_bc u cur p th c;
      run_bcs u cur p th cs (consumed + Z.of_nat (length (bc_bytes c)))
  end.

(** The bytes [l] can be read at [ptr]. *)
Definition holds_bytes (u : M) ptr l : Prop :=
  forall i n : nat, (i + n <= length l)%nat -> copy_from_user u (ptr + Z.of_nat i) n = Some (take n (drop i l)).

Lemma holds_bytes_app u ptr l l' : holds_bytes u ptr (l ++ l') -> holds_bytes u ptr l /\ holds_bytes u (ptr + Z.of_nat (length l)) l'.
Proof.
  intros H. split; intros i n Hn.
  - rewrite H by (rewrite length_app; lia). f_equal. rewrite drop_app_le by lia. apply take_app_le. rewrite length_drop. lia.
  - rewrite <- Z.add_assoc, <- Nat2Z.inj_add, H by (rewrite length_app; lia). f_equal. rewrite <- drop_drop, drop_app_length. done.
Qed.
Lemma holds_bytes_copy u ptr l : holds_bytes u ptr l -> copy_from_user u ptr (length l) = Some l.
Proof. intros H. specialize (H O (length l) ltac:(lia)). rewrite Z.add_0_r in H. by rewrite drop_0, take_ge in H by lia. Qed.
Lemma holds_bytes_word u ptr (n : nat) x : holds_bytes u ptr (le_bytes n x) -> 0 <= x < 256 ^ Z.of_nat n -> get_user u ptr n = Some x.
Proof.
  intros H Hx. unfold get_user. apply holds_bytes_copy in H. rewrite length_le_bytes in H. rewrite H. cbn. by rewrite le_val_bytes.
Qed.

Lemma fetch_word u ptr (n : nat) x : holds_bytes u ptr (le_bytes n x) -> word n x -> fetch u ptr n = goes x.
Proof. intros H Hx. unfold fetch. by rewrite (holds_bytes_word u ptr n x) by done. Qed.

Lemma and_then_goes {A B X} (a : A) (f : A -> stage X B) s r : f a s = r -> and_then (goes a) f s = r.
Proof. done. Qed.
Lemma and_then_does {A X} (m : K A) (a : Z) s : and_then (does m) (fun _ => goes a) s = (_ ← m; mret (inr (A := X) a)) s.
Proof. unfold and_then, does, mbind, K_bind. by destruct (m s) as [[x s']|]. Qed.

(** One command. *)
Lemma write_command_runs u cur p th c ptr s : holds_bytes u ptr (bc_args c) -> bc_ok c -> 0 <= ptr -> ptr + Z.of_nat (length (bc_args c)) < 2 ^ 64 ->
  write_command u cur p th (bc_code c) ptr s = (_ ← exec_bc u cur p th c; mret (inr (ptr + Z.of_nat (length (bc_args c))))) s.
Proof.
  intros H Hc Hp Hb. assert (forall n : Z, 0 <= n <= Z.of_nat (length (bc_args c)) -> step ptr n = ptr + n) as Hstep.
  { intros n Hn. unfold step. apply u64_small. lia. }
  destruct c as [up strong tgt|strong q ck|q|reply txn|lc|req tgt ck|ck];
    repeat match goal with b : bool |- _ => destruct b | b : looper_command |- _ => destruct b end;
    unfold write_command; cbn [bc_code exec_bc]; decide_codes; cbn [bc_args bc_ok] in *;
    rewrite ?length_app, ?length_le_bytes in *; change (Z.of_nat (8 + 8)) with 16 in *; change (Z.of_nat (4 + 8)) with 12 in *;
    change (Z.of_nat 8) with 8 in *; change (Z.of_nat 4) with 4 in *.
  all: try (apply holds_bytes_app in H as [H1 H2]; rewrite length_le_bytes in H2; change (Z.of_nat 8) with 8 in *; change (Z.of_nat 4) with 4 in *; destruct Hc as [Hc1 Hc2];
    rewrite ?Hstep by lia; rewrite (fetch_word _ _ _ _ H1 Hc1); apply and_then_goes; cbn beta;
    rewrite (fetch_word _ _ _ _ H2 Hc2); apply and_then_goes; apply and_then_does).
  all: try (rewrite (fetch_word _ _ _ _ H Hc), ?Hstep by lia; apply and_then_goes; apply and_then_does).
  all: try (rewrite Z.add_0_r; apply and_then_does).
  all: apply holds_bytes_copy in H; rewrite length_txn_bytes in *; rewrite H, txn_back, ?Hstep by done; apply and_then_does.
Qed.

Lemma K_bind_ext {A B} (m : K A) (f g : A -> K B) s : (forall a s', f a s' = g a s') -> (m ≫= f) s = (m ≫= g) s.
Proof. intros H. unfold mbind, K_bind. destruct (m s) as [[a s']|]; [apply H|done]. Qed.
Lemma holds_bytes_eq u ptr ptr' l : holds_bytes u ptr l -> ptr = ptr' -> holds_bytes u ptr' l.
Proof. by intros H <-. Qed.
Lemma bcs_bytes_length cs : (4 * length cs <= length (bcs_bytes cs))%nat.
Proof. induction cs as [|c cs IH]; [done|]. rewrite bcs_bytes_cons. unfold bc_bytes at 1. rewrite !length_app, length_le_bytes. cbn [length]. lia. Qed.

Lemma write_loop_runs u cur p th buffer cs ptr consumed (fuel : nat) s : holds_bytes u ptr (bcs_bytes cs) -> Forall bc_ok cs ->
  0 <= buffer -> 0 <= consumed -> ptr = buffer + consumed -> ptr + Z.of_nat (length (bcs_bytes cs)) < 2 ^ 64 -> (length cs < fuel)%nat ->
  write_loop fuel u cur p th buffer ptr (ptr + Z.of_nat (length (bcs_bytes cs))) consumed s = run_bcs u cur p th cs consumed s.
Proof.
  intros H Hcs Hb0 Hk -> Hend Hf. revert consumed fuel s H Hk Hend Hf. induction Hcs as [|c cs Hc Hcs IH]; intros consumed fuel s H Hk Hend Hf;
    (destruct fuel as [|fuel]; [cbn in Hf; lia|]); cbn [write_loop run_bcs]; apply K_bind_ext; intros thread s1.
  { cbn. by rewrite Z.add_0_r, Z.ltb_irrefl. }
  rewrite bcs_bytes_cons in H. apply holds_bytes_app in H as [H1 H2]. unfold bc_bytes at 1 in H1. apply holds_bytes_app in H1 as [H0 H1].
  rewrite bcs_bytes_cons, length_app in Hend |- *. unfold bc_bytes in *. rewrite length_app, !length_le_bytes in *.
  rewrite (proj2 (Z.ltb_lt _ _)), andb_true_l by lia. destruct (negb (th_return_error thread =? BR_OK)); [done|].
  rewrite (holds_bytes_word _ _ _ _ H0) by apply bc_code_word. apply K_bind_ext. intros _ s2.
  unfold mbind at 1, K_bind at 1. unfold step at 1. rewrite u64_small by lia.
  rewrite write_command_runs by (done || lia). unfold mbind at 1 2, K_bind at 1 2. destruct (exec_bc _ _ _ _ _ _) as [[? s3]|]; [|done].
  cbn. rewrite u64_small by lia. rewrite <- (IH _ fuel s3); [|..|cbn in Hf; lia]; try lia.
  - f_equal; lia.
  - eapply holds_bytes_eq; [exact H2|lia].
Qed.

(** The driver executes exactly the commands that the bytes of the write buffer
    encode, one after another and each once, until one of them leaves an error for the
    thread; what it counts as consumed ends with the last command executed. *)
Lemma binder_thread_write_runs (u : M) (cur : task) p th buffer cs s :
  holds_bytes u buffer (bcs_bytes cs) -> Forall bc_ok cs -> 0 <= buffer -> buffer + Z.of_nat (length (bcs_bytes cs)) < 2 ^ 64 ->
  binder_thread_write u cur p th buffer (Z.of_nat (length (bcs_bytes cs))) 0 s = run_bcs u cur p th cs 0 s.
Proof.
  intros H Hcs Hb Hend. unfold binder_thread_write. rewrite Z.add_0_r, !u64_small by lia.
  apply write_loop_runs; try done; try lia. pose proof (bcs_bytes_length cs).
  assert (Z.of_nat (length cs) <= (buffer + Z.of_nat (length (bcs_bytes cs)) - buffer + 3) / 4); [|lia].
  apply Z.div_le_lower_bound; lia.
Qed.
End Parse.
