(* ===== verification/IpcState.v ===== *)
(** * Threads of a process: state (libs/include/binder/IPCThreadState.h, BpBinder.h)

    A thread that talks to the driver: its parcels of commands in and out, its
    pending releases, the identity of its caller, and what it shares with the
    process: the proxies, the heap and the trace of events of [ParcelState].  What the
    driver answers is a script; a thread that comes to its end waits for ever. *)
From S2P Require Import Prelude UserMem Protocol ParcelState Parcel ParcelWrite ParcelRead.

(** ** Constants *)
Definition INVALID_OPERATION : Z := -38.
Definition NAME_NOT_FOUND : Z := -2.
Definition PERMISSION_DENIED : Z := -1.
Definition DEAD_OBJECT : Z := -32.
Definition FAILED_TRANSACTION : Z := UNKNOWN_ERROR + 2.
Definition TIMED_OUT : Z := -110.
Definition UNKNOWN_TRANSACTION : Z := -74.
Definition EINTR : Z := 4.
Definition ECONNREFUSED : Z := 111.

(** ** Proxies ([BpBinder]) *)

(** [struct Obituary]: whom to tell. *)
Record Obituary := MkObit { ob_recipient : Z; ob_cookie : Z; ob_flags : Z }.
#[export] Instance Obituary_eq_dec : EqDecision Obituary.
Proof. solve_decision. Defined.

(** A proxy; [bp_refs] is the address of its reference counts. *)
Record proxy := MkProxy {
  mHandle : Z;
  mAlive : bool;
  mObitsSent : bool;
  mObituaries : option (list Obituary);
  bp_refs : Z
}.
Definition set_mAlive (b : bool) (p : proxy) : proxy := MkProxy (mHandle p) b (mObitsSent p) (mObituaries p) (bp_refs p).
Definition set_mObitsSent (b : bool) (p : proxy) : proxy := MkProxy (mHandle p) (mAlive p) b (mObituaries p) (bp_refs p).
Definition set_mObituaries (o : option (list Obituary)) (p : proxy) : proxy := MkProxy (mHandle p) (mAlive p) (mObitsSent p) o (bp_refs p).

(** ** The driver's side *)

(** What one [BINDER_WRITE_READ] gives: the result, 0 or [-errno]; the new
    [write_consumed]; the returns that it stored; the buffers that it mapped. *)
Record answer := MkAnswer {
  an_err : Z;
  an_consumed : Z;
  an_read : list Z;
  an_mapped : list (Z * list Z)
}.

(** ** A thread

    [told]: the bytes that the driver has taken, in order. *)
Record thread := MkThread {
  mIn : parcel;
  mOut : parcel;
  mPendingStrongDerefs : list Z;
  mPendingWeakDerefs : list Z;
  mLastError : Z;
  mCallingPid : Z;
  mCallingUid : Z;
  mDriverFD : Z;
  mExecutingThreadsCount : Z;
  mThreadPoolStarted : bool;
  proxies : gmap Z proxy;
  script : list answer;
  told : list Z;
  tw : world
}.
Section Updates.
Variable t : thread.
Definition set_mIn (v : parcel) : thread := MkThread v (mOut t) (mPendingStrongDerefs t) (mPendingWeakDerefs t) (mLastError t) (mCallingPid t) (mCallingUid t) (mDriverFD t) (mExecutingThreadsCount t) (mThreadPoolStarted t) (proxies t) (script t) (told t) (tw t).
Definition set_mOut (v : parcel) : thread := MkThread (mIn t) v (mPendingStrongDerefs t) (mPendingWeakDerefs t) (mLastError t) (mCallingPid t) (mCallingUid t) (mDriverFD t) (mExecutingThreadsCount t) (mThreadPoolStarted t) (proxies t) (script t) (told t) (tw t).
Definition set_mPendingStrongDerefs (v : list Z) : thread := MkThread (mIn t) (mOut t) v (mPendingWeakDerefs t) (mLastError t) (mCallingPid t) (mCallingUid t) (mDriverFD t) (mExecutingThreadsCount t) (mThreadPoolStarted t) (proxies t) (script t) (told t) (tw t).
Definition set_mPendingWeakDerefs (v : list Z) : thread := MkThread (mIn t) (mOut t) (mPendingStrongDerefs t) v (mLastError t) (mCallingPid t) (mCallingUid t) (mDriverFD t) (mExecutingThreadsCount t) (mThreadPoolStarted t) (proxies t) (script t) (told t) (tw t).
Definition set_mLastError (v : Z) : thread := MkThread (mIn t) (mOut t) (mPendingStrongDerefs t) (mPendingWeakDerefs t) v (mCallingPid t) (mCallingUid t) (mDriverFD t) (mExecutingThreadsCount t) (mThreadPoolStarted t) (proxies t) (script t) (told t) (tw t).
Definition set_mCallingPid (v : Z) : thread := MkThread (mIn t) (mOut t) (mPendingStrongDerefs t) (mPendingWeakDerefs t) (mLastError t) v (mCallingUid t) (mDriverFD t) (mExecutingThreadsCount t) (mThreadPoolStarted t) (proxies t) (script t) (told t) (tw t).
Definition set_mCallingUid (v : Z) : thread := MkThread (mIn t) (mOut t) (mPendingStrongDerefs t) (mPendingWeakDerefs t) (mLastError t) (mCallingPid t) v (mDriverFD t) (mExecutingThreadsCount t) (mThreadPoolStarted t) (proxies t) (script t) (told t) (tw t).
Definition set_mDriverFD (v : Z) : thread := MkThread (mIn t) (mOut t) (mPendingStrongDerefs t) (mPendingWeakDerefs t) (mLastError t) (mCallingPid t) (mCallingUid t) v (mExecutingThreadsCount t) (mThreadPoolStarted t) (proxies t) (script t) (told t) (tw t).
Definition set_mExecutingThreadsCount (v : Z) : thread := MkThread (mIn t) (mOut t) (mPendingStrongDerefs t) (mPendingWeakDerefs t) (mLastError t) (mCallingPid t) (mCallingUid t) (mDriverFD t) v (mThreadPoolStarted t) (proxies t) (script t) (told t) (tw t).
Definition set_mThreadPoolStarted (v : bool) : thread := MkThread (mIn t) (mOut t) (mPendingStrongDerefs t) (mPendingWeakDerefs t) (mLastError t) (mCallingPid t) (mCallingUid t) (mDriverFD t) (mExecutingThreadsCount t) v (proxies t) (script t) (told t) (tw t).
Definition set_proxies (v : gmap Z proxy) : thread := MkThread (mIn t) (mOut t) (mPendingStrongDerefs t) (mPendingWeakDerefs t) (mLastError t) (mCallingPid t) (mCallingUid t) (mDriverFD t) (mExecutingThreadsCount t) (mThreadPoolStarted t) v (script t) (told t) (tw t).
Definition set_script (v : list answer) : thread := MkThread (mIn t) (mOut t) (mPendingStrongDerefs t) (mPendingWeakDerefs t) (mLastError t) (mCallingPid t) (mCallingUid t) (mDriverFD t) (mExecutingThreadsCount t) (mThreadPoolStarted t) (proxies t) v (told t) (tw t).
Definition set_told (v : list Z) : thread := MkThread (mIn t) (mOut t) (mPendingStrongDerefs t) (mPendingWeakDerefs t) (mLastError t) (mCallingPid t) (mCallingUid t) (mDriverFD t) (mExecutingThreadsCount t) (mThreadPoolStarted t) (proxies t) (script t) v (tw t).
Definition set_tw (v : world) : thread := MkThread (mIn t) (mOut t) (mPendingStrongDerefs t) (mPendingWeakDerefs t) (mLastError t) (mCallingPid t) (mCallingUid t) (mDriverFD t) (mExecutingThreadsCount t) (mThreadPoolStarted t) (proxies t) (script t) (told t) v.
End Updates.

(** ** The monad: a fault, or a result unless the thread waits for ever *)
Definition T (A : Type) : Type := thread -> res (option A * thread).
#[export] Instance T_ret : MRet T := fun A a t => Ok (Some a, t).
#[export] Instance T_bind : MBind T := fun A B f m t =>
  match m t with
  | Ok (Some a, t') => f a t'
  | Ok (None, t') => Ok (None, t')
  | Fault e => Fault e
  end.
Definition get {A} (f : thread -> A) : T A := fun t => Ok (Some (f t), t).
Definition put (f : thread -> thread) : T unit := fun t => Ok (Some tt, f t).
Definition wait_for_ever {A} : T A := fun t => Ok (None, t).
Definition stop {A} (e : fault) : T A := fun t => Fault e.
Definition when_ (c : bool) (m : T unit) : T unit := if c then m else mret tt.

(** Methods of the thread's own parcels. *)
Definition on_mIn {A} (m : P A) : T A := fun t =>
  match m (MkP (mIn t) (tw t)) with
  | Ok (a, s) => Ok (Some a, set_tw (set_mIn t (this s)) (world_of s))
  | Fault e => Fault e
  end.
Definition on_mOut {A} (m : P A) : T A := fun t =>
  match m (MkP (mOut t) (tw t)) with
  | Ok (a, s) => Ok (Some a, set_tw (set_mOut t (this s)) (world_of s))
  | Fault e => Fault e
  end.
Definition happens (e : event) : T unit := put (fun t => set_tw t (set_trace (tw t) (trace (tw t) ++ [e]))).

Section Process.
Context {E : ParcelEnv}.

(** [BC_FREE_BUFFER] for a buffer that is given up. *)
Definition queue_free (data : Z) : T unit :=
  _ ← on_mOut (writeInt32 BC_FREE_BUFFER); _ ← on_mOut (writePointer data); mret tt.
Fixpoint queue_frees (l : list event) : T unit :=
  match l with
  | [] => mret tt
  | FreeBuffer d :: l => _ ← queue_free d; queue_frees l
  | _ :: l => queue_frees l
  end.

(** Methods of another parcel.  [IPCThreadState::freeBuffer], an event for the parcel,
    queues the command. *)
Definition on_parcel {A} (p : parcel) (m : P A) : T (A * parcel) := fun t =>
  match m (MkP p (tw t)) with
  | Ok (a, s) => (_ ← queue_frees (drop (length (trace (tw t))) (trace (world_of s))); mret (a, this s)) (set_tw t (world_of s))
  | Fault e => Fault e
  end.

End Process.

(** ** Code that the process has from elsewhere: its objects

    [object_onTransact]: the [onTransact] of a local object, with the request, an empty
    reply and the flags; it may use the thread as it likes.  [attempt_strong]: whether
    an object still has strong references.  [binder_died]: a [DeathRecipient] is told
    that a proxy died; [promote]: whether there still is one. *)
Class Objects := {
  object_onTransact : Z -> Z -> parcel -> parcel -> Z -> T (Z * parcel * parcel);
  context_object : Z;
  attempt_strong : thread -> Z -> bool;
  promote : thread -> Z -> bool;
  binder_died : Z -> Z -> T unit;
  stack_at : thread -> Z
}.
