(* ===== verification/IpcThread.v ===== *)
(** * Threads of a process: operations (libs/binder/IPCThreadState.cpp, BpBinder.cpp, Binder.cpp)

    The commands that a thread queues, its exchange with the driver, the returns that
    it executes, calls and replies, and the proxies with their obituaries.  Scheduling
    classes, locks and logging are left out. *)
From S2P Require Import Prelude UserMem Protocol ParcelState Parcel ParcelWrite ParcelRead IpcState.

Definition PING_TRANSACTION : Z := B_PACK_CHARS 95 80 78 71.
Definition DUMP_TRANSACTION : Z := B_PACK_CHARS 95 68 77 80.
Definition INTERFACE_TRANSACTION : Z := B_PACK_CHARS 95 78 84 70.
Definition SYSPROPS_TRANSACTION : Z := B_PACK_CHARS 95 83 80 82.

Section Thread.
Context {E : ParcelEnv}.

(** ** Commands *)
Definition out32 (val : Z) : T unit := _ ← on_mOut (writeInt32 val); mret tt.
Definition out64 (val : Z) : T unit := _ ← on_mOut (writePointer val); mret tt.

Definition incStrongHandle (handle : Z) : T unit := _ ← out32 BC_ACQUIRE; out32 handle.
Definition decStrongHandle (handle : Z) : T unit := _ ← out32 BC_RELEASE; out32 handle.
Definition incWeakHandle (handle : Z) : T unit := _ ← out32 BC_INCREFS; out32 handle.
Definition decWeakHandle (handle : Z) : T unit := _ ← out32 BC_DECREFS; out32 handle.
(** [HAS_BC_ATTEMPT_ACQUIRE] is not defined. *)
Definition attemptIncStrongHandle (handle : Z) : T Z := mret INVALID_OPERATION.
Definition requestDeathNotification (handle proxy : Z) : T Z :=
  _ ← out32 BC_REQUEST_DEATH_NOTIFICATION; _ ← out32 handle; _ ← out64 proxy; mret NO_ERROR.
Definition clearDeathNotification (handle proxy : Z) : T Z :=
  _ ← out32 BC_CLEAR_DEATH_NOTIFICATION; _ ← out32 handle; _ ← out64 proxy; mret NO_ERROR.

(** ** The exchange with the driver *)

(** [ioctl(BINDER_WRITE_READ)] with the bytes of the write buffer and the buffer to
    read into: the result and [read_consumed].  While it is interrupted it is called
    again, with the counts that the driver left. *)
Definition mappings (l : list (Z * list Z)) : gmap Z chunk := list_to_map ((fun '(p, c) => (p, MkChunk false c)) <$> l).
Definition map_buffers (l : list (Z * list Z)) (w : world) : world := set_heap w (mappings l ∪ heap w).
Fixpoint write_read (out : list Z) (consumed : Z) (read_buffer : Z) (l : list answer) : T (Z * Z * Z) :=
  match l with
  | [] => wait_for_ever
  | a :: l =>
      _ ← put (fun t => set_script t l);
      _ ← put (fun t => set_told t (told t ++ take (Z.to_nat (an_consumed a - consumed)) (drop (Z.to_nat consumed) out)));
      _ ← put (fun t => set_tw t (map_buffers (an_mapped a) (tw t)));
      _ ← on_mIn (mem_store read_buffer 0 (an_read a));
      if an_err a =? - EINTR then write_read out (an_consumed a) read_buffer l
      else mret (an_err a, an_consumed a, Z.of_nat (length (an_read a)))
  end.

Definition talkWithDriver (doReceive : bool) : T Z :=
  fd ← get mDriverFD;
  if fd <=? 0 then mret (- EBADF) else
  pos ← on_mIn dataPosition; size ← on_mIn dataSize;
  let needRead := size <=? pos in
  outAvail ← (if negb doReceive || needRead then on_mOut dataSize else mret 0);
  cap ← on_mIn dataCapacity;
  let read_size := if doReceive && needRead then cap else 0 in
  if (outAvail =? 0) && (read_size =? 0) then mret NO_ERROR else
  out ← on_mOut (d ← field_of mData; mem_load d 0 (Z.to_nat outAvail));
  d ← (if doReceive && needRead then get (fun t => mData (mIn t)) else mret 0);
  l ← get script;
  '(err, write_consumed, read_consumed) ← write_read out 0 d l;
  fd ← get mDriverFD;
  let err := if fd <=? 0 then - EBADF else err in
  if NO_ERROR <=? err then
    _ ← when_ (0 <? write_consumed) (
          size ← on_mOut dataSize;
          if write_consumed <? size then on_mOut (remove 0 write_consumed) else _ ← on_mOut (setDataSize 0); mret tt);
    _ ← when_ (0 <? read_consumed) (
          _ ← on_mIn (setDataSize read_consumed);
          on_mIn (setDataPosition 0));
    mret NO_ERROR
  else mret err.

Definition flushCommands : T unit :=
  fd ← get mDriverFD;
  if fd <=? 0 then mret tt else _ ← talkWithDriver false; mret tt.

(** [writeTransactionData]; the status buffer is a variable of the caller at the
    given address. *)
Definition transaction_of (flags handle code : Z) (size offsets buffer objects : Z) : binder_transaction_data :=
  MkTxn (u32 handle) 0 (u32 code) (u32 flags) 0 0 size offsets buffer objects.
Definition writeTransactionData (cmd binderFlags handle code : Z) (data : parcel) (statusBuffer : option Z) : T Z :=
  '(err, _) ← on_parcel data errorCheck;
  let queue tr := (
    _ ← out32 cmd;
    _ ← on_mOut (write (txn_bytes tr));
    mret NO_ERROR) in
  if err =? NO_ERROR then
    '(size, _) ← on_parcel data ipcDataSize;
    '(buffer, _) ← on_parcel data ipcData;
    '(count, _) ← on_parcel data ipcObjectsCount;
    '(objects, _) ← on_parcel data ipcObjects;
    queue (transaction_of binderFlags handle code size (u64 (count * 8)) buffer objects)
  else
    match statusBuffer with
    | Some at_ =>
        _ ← on_mOut (mem_store at_ 0 (le_bytes 4 err));
        queue (transaction_of (Z.lor binderFlags TF_STATUS_CODE) handle code 4 0 at_ 0)
    | None => _ ← put (fun t => set_mLastError t err); mret err
    end.

(** ** Proxies *)
Definition the_proxy (p : Z) : T proxy := fun t =>
  match proxies t !! p with Some x => Ok (Some x, t) | None => Fault OOPS end.
Definition put_proxy (p : Z) (f : proxy -> proxy) : T unit := put (fun t => set_proxies t (alter f p (proxies t))).

Context {Ob : Objects}.

(** [BpBinder(handle)]; [onFirstRef], [onLastStrongRef], the destructor. *)
Definition new_proxy (p refs handle : Z) : T unit :=
  _ ← put (fun t => set_proxies t (<[p := MkProxy handle true false None refs]> (proxies t)));
  incWeakHandle handle.
Definition onFirstRef (p : Z) : T unit := x ← the_proxy p; incStrongHandle (mHandle x).
Definition onLastStrongRef (p : Z) : T unit := x ← the_proxy p; decStrongHandle (mHandle x).
Definition onIncStrongAttempted (p : Z) : T bool :=
  x ← the_proxy p; err ← attemptIncStrongHandle (mHandle x); mret (err =? NO_ERROR).
Definition delete_proxy (p : Z) : T unit :=
  x ← the_proxy p;
  _ ← (match mObituaries x with
       | Some _ => _ ← clearDeathNotification (mHandle x) p; put_proxy p (set_mObituaries None)
       | None => mret tt
       end);
  _ ← put (fun t => set_proxies t (delete p (proxies t)));
  decWeakHandle (mHandle x).

Definition linkToDeath (p recipient cookie flags : Z) : T Z :=
  x ← the_proxy p;
  if mObitsSent x then mret DEAD_OBJECT else
  _ ← (match mObituaries x with
       | None =>
           _ ← put_proxy p (set_mObituaries (Some []));
           _ ← happens (Acquire (Weak (bp_refs x)));
           _ ← requestDeathNotification (mHandle x) p;
           flushCommands
       | Some _ => mret tt
       end);
  _ ← put_proxy p (fun x => set_mObituaries (Some (default [] (mObituaries x) ++ [MkObit recipient cookie flags])) x);
  mret NO_ERROR.

(** The first obituary of the loop that matches, and the others. *)
Definition matches (recipient cookie flags : Z) (o : Obituary) : bool :=
  ((ob_recipient o =? recipient) || ((recipient =? 0) && (ob_cookie o =? cookie))) && (ob_flags o =? flags).
Fixpoint take_obituary (recipient cookie flags : Z) (l : list Obituary) : option (Obituary * list Obituary) :=
  match l with
  | [] => None
  | o :: l =>
      if matches recipient cookie flags o then Some (o, l)
      else '(o', l') ← take_obituary recipient cookie flags l; Some (o', o :: l')
  end.
Definition unlinkToDeath (p recipient cookie flags : Z) : T (Z * option Z) :=
  x ← the_proxy p;
  if mObitsSent x then mret (DEAD_OBJECT, None) else
  match take_obituary recipient cookie flags (default [] (mObituaries x)) with
  | None => mret (NAME_NOT_FOUND, None)
  | Some (o, l) =>
      _ ← put_proxy p (set_mObituaries (Some l));
      _ ← (match l with
           | [] =>
               _ ← clearDeathNotification (mHandle x) p;
               _ ← flushCommands;
               put_proxy p (set_mObituaries None)
           | _ => mret tt
           end);
      mret (NO_ERROR, Some (ob_recipient o))
  end.

Definition reportOneDeath (p : Z) (o : Obituary) : T unit :=
  alive ← get (fun t => promote t (ob_recipient o));
  if (alive : bool) then binder_died (ob_recipient o) p else mret tt.
Fixpoint report_deaths (p : Z) (l : list Obituary) : T unit :=
  match l with [] => mret tt | o :: l => _ ← reportOneDeath p o; report_deaths p l end.
Definition sendObituary (p : Z) : T unit :=
  x ← the_proxy p;
  _ ← put_proxy p (set_mAlive false);
  if mObitsSent x then mret tt else
  _ ← (match mObituaries x with
       | Some _ =>
           _ ← clearDeathNotification (mHandle x) p;
           _ ← flushCommands;
           put_proxy p (set_mObituaries None)
       | None => mret tt
       end);
  _ ← put_proxy p (set_mObitsSent true);
  report_deaths p (default [] (mObituaries x)).

(** ** Objects of the process *)

(** [BBinder::transact] *)
Definition binder_transact (obj code : Z) (data reply : parcel) (flags : Z) : T (Z * parcel * parcel) :=
  '(_, data) ← on_parcel data (setDataPosition 0);
  '(err, data, reply) ← (if code =? PING_TRANSACTION then
        '(_, reply) ← on_parcel reply (writeInt32 NO_ERROR); mret (NO_ERROR, data, reply)
      else object_onTransact obj code data reply flags);
  '(_, reply) ← on_parcel reply (setDataPosition 0);
  mret (err, data, reply).

(** [ProcessState::spawnPooledThread], if there is a pool. *)
Definition spawnPooledThread : T unit :=
  started ← get mThreadPoolStarted; if (started : bool) then happens Spawn else mret tt.

(** ** Returns of the driver *)
Definition in32 : T Z := on_mIn readInt32.
Definition in64 : T Z := on_mIn readPointer.
(** [mIn.read(&tr, sizeof(tr))] *)
Definition in_transaction : T (Z * binder_transaction_data) :=
  '(err, l) ← on_mIn (read (Z.of_nat sizeof_binder_transaction_data)); mret (err, txn_of_bytes l).
Definition receive (p : parcel) (tr : binder_transaction_data) : T parcel :=
  '(_, p) ← on_parcel p (ipcSetDataReference (td_buffer tr) (td_data_size tr) (td_offsets tr) (td_offsets_size tr / 8)); mret p.

(** A response: how far it got. *)
Inductive response : Type :=
| Again (reply : option parcel) (acquireResult : option Z)
| Finish (err : Z) (reply : option parcel) (acquireResult : option Z).

(** One round of the loop of [waitForResponse]. *)
Definition response_step (executeCommand : Z -> T Z) (reply : option parcel) (acq : option Z) : T response :=
  err ← talkWithDriver true;
  if err <? NO_ERROR then mret (Finish err reply acq) else
  err ← on_mIn errorCheck;
  if err <? NO_ERROR then mret (Finish err reply acq) else
  avail ← on_mIn dataAvail;
  if avail =? 0 then mret (Again reply acq) else
  cmd ← in32;
  let cmd := u32 cmd in
  if cmd =? BR_TRANSACTION_COMPLETE then
    mret (match reply, acq with None, None => Finish err None None | _, _ => Again reply acq end)
  else if cmd =? BR_DEAD_REPLY then mret (Finish DEAD_OBJECT reply acq)
  else if cmd =? BR_FAILED_REPLY then mret (Finish FAILED_TRANSACTION reply acq)
  else if cmd =? BR_ACQUIRE_RESULT then
    result ← in32;
    mret (match acq with
          | None => Again reply acq
          | Some _ => Finish err reply (Some (if negb (result =? 0) then NO_ERROR else INVALID_OPERATION))
          end)
  else if cmd =? BR_REPLY then
    '(err, tr) ← in_transaction;
    if negb (err =? NO_ERROR) then mret (Finish err reply acq) else
    match reply with
    | Some r =>
        if Z.land (td_flags tr) TF_STATUS_CODE =? 0 then r ← receive r tr; mret (Finish err (Some r) acq)
        else
          l ← on_mIn (mem_load (td_buffer tr) 0 4);
          _ ← queue_free (td_buffer tr);
          mret (Finish (s32 (le_val l)) reply acq)
    | None => _ ← queue_free (td_buffer tr); mret (Again reply acq)
    end
  else
    err ← executeCommand (s32 cmd);
    mret (if negb (err =? NO_ERROR) then Finish err reply acq else Again reply acq).

(** After [finish]. *)
Definition response_end (err : Z) (reply : option parcel) (acq : option Z) : T (Z * option parcel * option Z) :=
  if err =? NO_ERROR then mret (err, reply, acq) else
  _ ← put (fun t => set_mLastError t err);
  mret (err, (fun r => set_mError r err) <$> reply, (fun _ => err) <$> acq).

(** [waitForResponse], [sendReply] and [executeCommand] call each other: the first is
    an argument of the others. *)
Definition waiter : Type := option parcel -> option Z -> T (Z * option parcel * option Z).

Definition sendReply (waitForResponse : waiter) (reply : parcel) (flags : Z) : T Z :=
  at_ ← get stack_at;
  _ ← put (fun t => set_tw t (set_heap (tw t) (<[at_ := MkChunk true (uninit 1 at_ 4)]> (heap (tw t)))));
  err ← writeTransactionData BC_REPLY flags (-1) 0 reply (Some at_);
  r ← (if err <? NO_ERROR then mret err else '(err, _, _) ← waitForResponse None None; mret err);
  _ ← put (fun t => set_tw t (set_heap (tw t) (delete at_ (heap (tw t)))));
  mret r.

(** [BR_TRANSACTION] *)
Definition target_transact (tr : binder_transaction_data) (buffer reply : parcel) : T (Z * parcel * parcel) :=
  if negb (td_target tr =? 0) then
    ok ← get (fun t => attempt_strong t (td_target tr));
    if (ok : bool) then
      _ ← happens (Acquire (Strong (td_cookie tr)));
      r ← binder_transact (td_cookie tr) (td_code tr) buffer reply (td_flags tr);
      _ ← happens (Release (Strong (td_cookie tr)));
      mret r
    else mret (UNKNOWN_TRANSACTION, buffer, reply)
  else binder_transact context_object (td_code tr) buffer reply (td_flags tr).

Definition set_caller (pid uid : Z) (t : thread) : thread := set_mCallingUid (set_mCallingPid t pid) uid.
Definition execute_transaction (waitForResponse : waiter) : T Z :=
  '(result, tr) ← in_transaction;
  if negb (result =? NO_ERROR) then mret result else
  buffer ← receive initial_parcel tr;
  origPid ← get mCallingPid;
  origUid ← get mCallingUid;
  origStrictModePolicy ← get (fun t => mStrictModePolicy (tw t));
  origTransactionBinderFlags ← get (fun t => lastTransactionFlags (tw t));
  _ ← put (set_caller (td_sender_pid tr) (td_sender_euid tr));
  _ ← put (fun t => set_tw t (set_lastTransactionFlags (tw t) (td_flags tr)));
  '(error, buffer, reply) ← target_transact tr buffer initial_parcel;
  reply ← (if Z.land (td_flags tr) TF_ONE_WAY =? 0 then
             let reply := if error <? NO_ERROR then set_mError reply error else reply in
             _ ← sendReply waitForResponse reply 0; mret reply
           else mret reply);
  _ ← put (set_caller origPid origUid);
  _ ← put (fun t => set_tw t (set_lastTransactionFlags (set_mStrictModePolicy (tw t) origStrictModePolicy) origTransactionBinderFlags));
  _ ← on_parcel reply freeDataNoInit;
  _ ← on_parcel buffer freeDataNoInit;
  mret result.

Definition executeCommand (waitForResponse : waiter) (cmd : Z) : T Z :=
  let cmd := u32 cmd in
  result ← (
    if cmd =? BR_ERROR then in32
    else if cmd =? BR_OK then mret NO_ERROR
    else if cmd =? BR_ACQUIRE then
      refs ← in64; obj ← in64;
      _ ← happens (Acquire (Strong obj));
      _ ← out32 BC_ACQUIRE_DONE; _ ← out64 refs; _ ← out64 obj; mret NO_ERROR
    else if cmd =? BR_RELEASE then
      refs ← in64; obj ← in64;
      _ ← put (fun t => set_mPendingStrongDerefs t (mPendingStrongDerefs t ++ [obj])); mret NO_ERROR
    else if cmd =? BR_INCREFS then
      refs ← in64; obj ← in64;
      _ ← happens (Acquire (Weak refs));
      _ ← out32 BC_INCREFS_DONE; _ ← out64 refs; _ ← out64 obj; mret NO_ERROR
    else if cmd =? BR_DECREFS then
      refs ← in64; obj ← in64;
      _ ← put (fun t => set_mPendingWeakDerefs t (mPendingWeakDerefs t ++ [refs])); mret NO_ERROR
    else if cmd =? BR_ATTEMPT_ACQUIRE then
      refs ← in64; obj ← in64;
      success ← get (fun t => attempt_strong t refs);
      _ ← when_ success (happens (Acquire (Strong obj)));
      _ ← out32 BC_ACQUIRE_RESULT; _ ← out32 (if (success : bool) then 1 else 0); mret NO_ERROR
    else if cmd =? BR_TRANSACTION then execute_transaction waitForResponse
    else if cmd =? BR_DEAD_BINDER then
      p ← in64;
      _ ← sendObituary p;
      _ ← out32 BC_DEAD_BINDER_DONE; _ ← out64 p; mret NO_ERROR
    else if cmd =? BR_CLEAR_DEATH_NOTIFICATION_DONE then
      p ← in64;
      x ← the_proxy p;
      _ ← happens (Release (Weak (bp_refs x))); mret NO_ERROR
    else if cmd =? BR_FINISHED then mret TIMED_OUT
    else if cmd =? BR_NOOP then mret NO_ERROR
    else if cmd =? BR_SPAWN_LOOPER then _ ← spawnPooledThread; mret NO_ERROR
    else mret UNKNOWN_ERROR);
  _ ← when_ (negb (result =? NO_ERROR)) (put (fun t => set_mLastError t result));
  mret result.

Fixpoint waitForResponse (fuel : nat) (reply : option parcel) (acq : option Z) : T (Z * option parcel * option Z) :=
  match fuel with
  | O => stop HANG
  | S fuel =>
      r ← response_step (executeCommand (waitForResponse fuel)) reply acq;
      match r with
      | Again reply acq => waitForResponse fuel reply acq
      | Finish err reply acq => response_end err reply acq
      end
  end.

(** ** Calls *)
Definition transact (fuel : nat) (handle code : Z) (data : parcel) (reply : option parcel) (flags : Z) : T (Z * option parcel) :=
  '(err, _) ← on_parcel data errorCheck;
  let flags := Z.lor flags TF_ACCEPT_FDS in
  err ← (if err =? NO_ERROR then writeTransactionData BC_TRANSACTION flags handle code data None else mret err);
  if negb (err =? NO_ERROR) then
    _ ← put (fun t => set_mLastError t err);
    mret (err, (fun r => set_mError r err) <$> reply)
  else if Z.land flags TF_ONE_WAY =? 0 then
    match reply with
    | Some r => '(err, r, _) ← waitForResponse fuel (Some r) None; mret (err, r)
    | None =>
        '(err, r, _) ← waitForResponse fuel (Some initial_parcel) None;
        _ ← on_parcel (default initial_parcel r) freeDataNoInit;
        mret (err, None)
    end
  else '(err, _, _) ← waitForResponse fuel None None; mret (err, reply).

(** [BpBinder::transact] and the calls of a proxy. *)
Definition proxy_transact (fuel : nat) (p code : Z) (data : parcel) (reply : option parcel) (flags : Z) : T (Z * option parcel) :=
  x ← the_proxy p;
  if mAlive x then
    '(status, reply) ← transact fuel (mHandle x) code data reply flags;
    _ ← when_ (status =? DEAD_OBJECT) (put_proxy p (set_mAlive false));
    mret (status, reply)
  else mret (DEAD_OBJECT, reply).

Definition pingBinder (fuel : nat) (p : Z) : T Z :=
  '(err, reply) ← proxy_transact fuel p PING_TRANSACTION initial_parcel (Some initial_parcel) 0;
  let reply := default initial_parcel reply in
  '(r, reply) ← (if negb (err =? NO_ERROR) then mret (err, reply) else
      on_parcel reply (size ← dataSize; if size <? 4 then mret NOT_ENOUGH_DATA else readInt32));
  _ ← on_parcel reply freeDataNoInit;
  mret r.

(** ** The loops of a thread *)
Definition processPendingDerefs : T unit :=
  pos ← on_mIn dataPosition; size ← on_mIn dataSize;
  if size <=? pos then
    weak ← get mPendingWeakDerefs;
    _ ← put (fun t => set_tw t (set_trace (tw t) (trace (tw t) ++ ((fun r => Release (Weak r)) <$> weak))));
    _ ← put (fun t => set_mPendingWeakDerefs t []);
    strong ← get mPendingStrongDerefs;
    _ ← put (fun t => set_tw t (set_trace (tw t) (trace (tw t) ++ ((fun o => Release (Strong o)) <$> strong))));
    put (fun t => set_mPendingStrongDerefs t [])
  else mret tt.

Definition getAndExecuteCommand (fuel : nat) : T Z :=
  result ← talkWithDriver true;
  if NO_ERROR <=? result then
    avail ← on_mIn dataAvail;
    if avail <? 4 then mret result else
    cmd ← in32;
    _ ← put (fun t => set_mExecutingThreadsCount t (mExecutingThreadsCount t + 1));
    result ← executeCommand (waitForResponse fuel) cmd;
    _ ← put (fun t => set_mExecutingThreadsCount t (mExecutingThreadsCount t - 1));
    mret result
  else mret result.

(** The loop of [joinThreadPool], of [n] rounds at most. *)
Fixpoint pool_loop (fuel n : nat) (isMain : bool) : T unit :=
  match n with
  | O => stop HANG
  | S n =>
      _ ← processPendingDerefs;
      result ← getAndExecuteCommand fuel;
      if (result <? NO_ERROR) && negb (result =? TIMED_OUT) && negb (result =? - ECONNREFUSED) && negb (result =? - EBADF) then stop BUG
      else if (result =? TIMED_OUT) && negb isMain then mret tt
      else if negb (result =? - ECONNREFUSED) && negb (result =? - EBADF) then pool_loop fuel n isMain
      else mret tt
  end.
Definition joinThreadPool (fuel n : nat) (isMain : bool) : T unit :=
  _ ← out32 (if isMain then BC_ENTER_LOOPER else BC_REGISTER_LOOPER);
  _ ← pool_loop fuel n isMain;
  _ ← out32 BC_EXIT_LOOPER;
  _ ← talkWithDriver false; mret tt.

Definition setupPolling : T (Z * Z) :=
  fd ← get mDriverFD;
  if fd <=? 0 then mret (- EBADF, -1) else _ ← out32 BC_ENTER_LOOPER; mret (0, fd).
Fixpoint handle_loop (fuel n : nat) : T Z :=
  match n with
  | O => stop HANG
  | S n =>
      result ← getAndExecuteCommand fuel;
      pos ← on_mIn dataPosition; size ← on_mIn dataSize;
      if pos <? size then handle_loop fuel n else mret result
  end.
Definition handlePolledCommands (fuel n : nat) : T Z :=
  result ← handle_loop fuel n; _ ← processPendingDerefs; _ ← flushCommands; mret result.

(** ** The identity of the caller *)
Definition clearLastError : T Z := err ← get mLastError; _ ← put (fun t => set_mLastError t NO_ERROR); mret err.
Definition clearCaller (pid uid : Z) : T unit := put (set_caller pid uid).
Definition clearCallingIdentity (pid uid : Z) : T Z :=
  u ← get mCallingUid; p ← get mCallingPid;
  _ ← clearCaller pid uid; mret (s64 (Z.lor (Z.shiftl u 32) p)).
Definition restoreCallingIdentity (token : Z) : T unit :=
  put (set_caller (s32 token) (u32 (s32 (Z.shiftr token 32)))).

Definition getCallingPid : T Z := get mCallingPid.
Definition getCallingUid : T Z := get mCallingUid.
Definition getStrictModePolicy : T Z := get (fun t => mStrictModePolicy (tw t)).
Definition setStrictModePolicy (policy : Z) : T unit := put (fun t => set_tw t (set_mStrictModePolicy (tw t) policy)).
Definition getLastTransactionBinderFlags : T Z := get (fun t => lastTransactionFlags (tw t)).
Definition setLastTransactionBinderFlags (flags : Z) : T unit := put (fun t => set_tw t (set_lastTransactionFlags (tw t) flags)).
Definition stopProcess : T unit :=
  _ ← flushCommands;
  fd ← get mDriverFD;
  _ ← put (fun t => set_mDriverFD t (-1));
  happens (Close fd).

(** ** The requests that every object answers *)

(** [BBinder::onTransact], with the object's [getInterfaceDescriptor] and [dump]. *)
Fixpoint read_args (n : nat) (data : parcel) : T (list (list Z) * parcel) :=
  match n with
  | O => mret ([], data)
  | S n =>
      '(avail, data) ← on_parcel data dataAvail;
      if avail =? 0 then mret ([], data) else
      '(a, data) ← on_parcel data readString16;
      '(l, data) ← read_args n data;
      mret (a :: l, data)
  end.
Definition base_onTransact (descriptor : list Z) (dump : Z -> list (list Z) -> T Z) (code : Z) (data reply : parcel) : T (Z * parcel * parcel) :=
  if code =? INTERFACE_TRANSACTION then
    '(_, reply) ← on_parcel reply (writeString16 (Some descriptor)); mret (NO_ERROR, data, reply)
  else if code =? DUMP_TRANSACTION then
    '(fd, data) ← on_parcel data readFileDescriptor;
    '(argc, data) ← on_parcel data readInt32;
    '(args, data) ← read_args (Z.to_nat argc) data;
    err ← dump fd args; mret (err, data, reply)
  else if code =? SYSPROPS_TRANSACTION then mret (NO_ERROR, data, reply)
  else mret (UNKNOWN_TRANSACTION, data, reply).

(** [BpBinder::dump] *)
Fixpoint write_args (l : list (list Z)) (send : parcel) : T parcel :=
  match l with
  | [] => mret send
  | a :: l => '(_, send) ← on_parcel send (writeString16 (Some a)); write_args l send
  end.
Definition dump (fuel : nat) (p fd : Z) (args : list (list Z)) : T Z :=
  '(_, send) ← on_parcel initial_parcel (writeFileDescriptor fd false);
  '(_, send) ← on_parcel send (writeInt32 (Z.of_nat (length args)));
  send ← write_args args send;
  '(err, reply) ← proxy_transact fuel p DUMP_TRANSACTION send (Some initial_parcel) 0;
  _ ← on_parcel (default initial_parcel reply) freeDataNoInit;
  _ ← on_parcel send freeDataNoInit;
  mret err.
End Thread.
