(* ===== verification/IpcTalk.v ===== *)
(** * Reasoning about threads

    [twp m Q t]: run in state [t], [m] neither faults nor waits for ever, and ends in
    [Q].  [ready l out t]: the returns [l] are still to be read and the commands [out]
    to be written; [unchanged]: nothing else of the thread is different. *)
From S2P Require Import Prelude UserMem Protocol ParcelState Parcel ParcelWrite ParcelRead ParcelInv ParcelAppend ParcelObjects ParcelValues ParcelShows IpcState IpcThread.

Implicit Types (t : thread) (l out e : list Z).

Definition twp {A} (m : T A) (Q : A -> thread -> Prop) t : Prop :=
  match m t with Ok (Some a, t') => Q a t' | _ => False end.

Section Rules.
Lemma twp_bind {A B} (m : T A) (f : A -> T B) Q t : twp m (fun a t => twp (f a) Q t) t -> twp (m ≫= f) Q t.
Proof. unfold twp, mbind, T_bind. by destruct (m t) as [[[a|] t']|]. Qed.
Lemma twp_bind_inv {A B} (m : T A) (f : A -> T B) Q t : twp (m ≫= f) Q t -> twp m (fun a t => twp (f a) Q t) t.
Proof. unfold twp, mbind, T_bind. by destruct (m t) as [[[a|] t']|]. Qed.
Lemma twp_at {A} (m : T A) (Q : A -> thread -> Prop) a t t' : m t = Ok (Some a, t') -> twp m Q t -> Q a t'.
Proof. unfold twp. by intros ->. Qed.
Lemma twp_mono {A} (m : T A) (Q Q' : A -> thread -> Prop) t :
  twp m Q t -> (forall a t', Q a t' -> Q' a t') -> twp m Q' t.
Proof. unfold twp. destruct (m t) as [[[a|] t']|]; auto. Qed.
Lemma twp_ret {A} (a : A) (Q : A -> thread -> Prop) t : Q a t -> twp (mret a) Q t.
Proof. done. Qed.
Lemma twp_get {A} (f : thread -> A) (Q : A -> thread -> Prop) t : Q (f t) t -> twp (get f) Q t.
Proof. done. Qed.
Lemma twp_put f (Q : unit -> thread -> Prop) t : Q tt (f t) -> twp (put f) Q t.
Proof. done. Qed.
Lemma twp_if {A} (c : bool) (m1 m2 : T A) Q t :
  (c = true -> twp m1 Q t) -> (c = false -> twp m2 Q t) -> twp (if c then m1 else m2) Q t.
Proof. destruct c; auto. Qed.
Lemma twp_when (c : bool) m (Q : unit -> thread -> Prop) t :
  (c = true -> twp m Q t) -> (c = false -> Q tt t) -> twp (when_ c m) Q t.
Proof. destruct c; cbn; auto. Qed.
Lemma twp_mIn {A} (m : P A) (Q : A -> thread -> Prop) t :
  pwp m (fun a s => Q a (set_tw (set_mIn t (this s)) (world_of s))) (MkP (mIn t) (tw t)) -> twp (on_mIn m) Q t.
Proof. unfold twp, pwp, on_mIn. by destruct (m _) as [[a s]|]. Qed.
Lemma twp_mOut {A} (m : P A) (Q : A -> thread -> Prop) t :
  pwp m (fun a s => Q a (set_tw (set_mOut t (this s)) (world_of s))) (MkP (mOut t) (tw t)) -> twp (on_mOut m) Q t.
Proof. unfold twp, pwp, on_mOut. by destruct (m _) as [[a s]|]. Qed.
Lemma twp_parcel {E : ParcelEnv} {A} p (m : P A) (Q : A * parcel -> thread -> Prop) t :
  pwp m (fun a s => twp (queue_frees (drop (length (trace (tw t))) (trace (world_of s)))) (fun _ => Q (a, this s)) (set_tw t (world_of s)))
    (MkP p (tw t)) -> twp (on_parcel p m) Q t.
Proof.
  unfold pwp, twp at 2, on_parcel. destruct (m _) as [[a s]|]; [|done]. intros H.
  by apply (twp_bind (queue_frees _) (fun _ => mret (a, this s))).
Qed.
Lemma twp_run {A} (m : T A) Q t : twp m Q t <-> exists a t', m t = Ok (Some a, t') /\ Q a t'.
Proof.
  unfold twp. destruct (m t) as [[[a|] t']|]; split; eauto; try done.
  - by intros (? & ? & [= <- <-] & H).
  - by intros (? & ? & ? & _).
  - by intros (? & ? & ? & _).
Qed.
Lemma set_tw_same t : set_tw t (tw t) = t.
Proof. by destruct t. Qed.
Lemma set_mIn_same t : set_mIn t (mIn t) = t.
Proof. by destruct t. Qed.
Lemma twp_mIn_field {A} (f : parcel -> A) (Q : A -> thread -> Prop) t : Q (f (mIn t)) t -> twp (on_mIn (field_of f)) Q t.
Proof. intros H. apply twp_mIn, pwp_field. by destruct t. Qed.
Lemma twp_mOut_field {A} (f : parcel -> A) (Q : A -> thread -> Prop) t : Q (f (mOut t)) t -> twp (on_mOut (field_of f)) Q t.
Proof. intros H. apply twp_mOut, pwp_field. by destruct t. Qed.
End Rules.

Ltac tstep :=
  lazymatch goal with
  | |- twp (_ ≫= _) _ _ => apply twp_bind
  | |- twp (mret _) _ _ => apply twp_ret
  | |- twp (get _) _ _ => apply twp_get
  | |- twp (put _) _ _ => apply twp_put
  | |- twp (happens _) _ _ => apply twp_put
  | |- twp (on_mIn (field_of _)) _ _ => apply twp_mIn_field
  | |- twp (on_mOut (field_of _)) _ _ => apply twp_mOut_field
  | |- twp (on_mIn (dataPosition)) _ _ => apply twp_mIn_field
  | |- twp (on_mIn (dataCapacity)) _ _ => apply twp_mIn_field
  | |- twp (on_mIn (dataSize)) _ _ => apply twp_mIn_field
  | |- twp (on_mIn (errorCheck)) _ _ => apply twp_mIn_field
  | |- twp (on_mOut (dataSize)) _ _ => apply twp_mOut_field
  end.
Ltac tsteps := repeat (tstep; cbn beta iota).
Ltac tif :=
  lazymatch goal with
  | |- twp (if ?c then _ else _) _ _ => apply twp_if; intros ?C
  | |- twp (when_ ?c _) _ _ => apply twp_when; intros ?C
  end.

(** ** Two parcels in one heap *)
Section Frame.
(** The buffers of [q] are none of those of [p]. *)
Definition apart (q p : parcel) : Prop :=
  forall a, a = mData q \/ a = mObjects q -> a ≠ 0 -> a ≠ mData p /\ a ≠ mObjects p.
(** The chunk [a] is not a buffer of [p]. *)
Definition outside (p : parcel) (a : Z) : Prop := a ≠ mData p /\ a ≠ mObjects p.

Lemma apart_sym q p : apart q p -> apart p q.
Proof. intros H a Ha Hn. split; intros Eq; rewrite Eq in Hn; [destruct (H _ (or_introl eq_refl) Hn)|destruct (H _ (or_intror eq_refl) Hn)]; naive_solver congruence. Qed.
Lemma frame_buffer (R : Z -> Prop) g p w p' w' a cap l : within g (MkP p w) (MkP p' w') -> (a ≠ 0 -> outside p a) ->
  buffer R (heap w) a cap l -> buffer R (heap w') a cap l /\ (a ≠ 0 -> outside p' a).
Proof.
  intros W Ha [(-> & -> & ->)|(Hp & r & Hr & Hc)]; [by split; [left|]|].
  destruct (Ha ltac:(lia)) as [H1 H2]. destruct (within_frame _ _ _ _ _ W H1 H2 Hr) as (Hr' & H1' & H2').
  split; [|by split]. right. split; [done|]. by exists r.
Qed.
Lemma frame_holds g dt os q p w p' w' : within g (MkP p w) (MkP p' w') -> apart q p -> heap w' !! 0 = None ->
  holds dt os (MkP q w) -> holds dt os (MkP q w') /\ apart q p'.
Proof.
  intros W Ha H0 [Iow Isz Iby Ida Ica Ipo Icn Iob Ifi Iap Ihi Inu]. cbn in *.
  destruct (frame_buffer _ _ _ _ _ _ (mData q) _ _ W ltac:(intros; apply Ha; auto) Ida) as [Ida' Hd].
  destruct (frame_buffer _ _ _ _ _ _ (mObjects q) _ _ W ltac:(intros; apply Ha; auto) Iob) as [Iob' Ho].
  split; [by split|]. intros a [->| ->]; auto.
Qed.
End Frame.

(** ** The state of a thread *)

(** What the parcels and the world's heap, counts and trace leave. *)
Definition rest t : thread :=
  set_tw (set_mOut (set_mIn t initial_parcel) initial_parcel) (MkWorld ∅ 0 0 (mStrictModePolicy (tw t)) (lastTransactionFlags (tw t)) []).
Definition thread_net (x : resource) t : Z := net x (trace (tw t)).

Record ready l out t : Prop := {
  rd_in : exists d, holds (d ++ l) [] (MkP (mIn t) (tw t)) /\ mDataPos (mIn t) = Z.of_nat (length d);
  rd_out : at_end out [] (MkP (mOut t) (tw t));
  rd_allow : mAllowFds (mOut t) = true;
  rd_apart : apart (mIn t) (mOut t);
  rd_no_error : mError (mIn t) = NO_ERROR;
  rd_capacity : 256 <= mDataCapacity (mIn t)
}.
(** The heap without the buffers of the thread's parcels. *)
Definition without (p : parcel) (h : gmap Z chunk) : gmap Z chunk := delete (mObjects p) (delete (mData p) h).
Lemma without_comm (p q : parcel) h : without p (without q h) = without q (without p h).
Proof. unfold without. apply map_eq. intros i. apply option_eq. intros c. rewrite !lookup_delete_Some. tauto. Qed.
Lemma within_without g s s' : within g s s' -> without (this s') (heap (world_of s')) = without (this s) (heap (world_of s)).
Proof. intros [A _]. by injection A. Qed.
Definition others t : gmap Z chunk := without (mIn t) (without (mOut t) (heap (tw t))).

(** Alike but for the parcels and the memory. *)
Definition alike t t' : Prop := rest t = rest t'.
#[export] Instance alike_equivalence : Equivalence alike.
Proof. split; unfold alike; congruence. Qed.
Ltac alike_tac :=
  intros [] [] Ha; unfold alike, rest in *; cbn in *; injection Ha; clear Ha; intros;
  unfold set_caller, set_tw, set_mOut, set_mIn, set_told, set_script, set_proxies, set_mPendingStrongDerefs, set_mPendingWeakDerefs, set_mLastError,
    set_mExecutingThreadsCount, set_mCallingPid, set_mCallingUid; cbn; congruence.
#[export] Instance set_pending_strong_proper : Proper (alike ==> eq ==> alike) set_mPendingStrongDerefs.
Proof. intros t t' H ? v ->. revert t t' H. alike_tac. Qed.
#[export] Instance set_pending_weak_proper : Proper (alike ==> eq ==> alike) set_mPendingWeakDerefs.
Proof. intros t t' H ? v ->. revert t t' H. alike_tac. Qed.
#[export] Instance set_last_error_proper : Proper (alike ==> eq ==> alike) set_mLastError.
Proof. intros t t' H ? v ->. revert t t' H. alike_tac. Qed.
#[export] Instance set_executing_proper : Proper (alike ==> eq ==> alike) set_mExecutingThreadsCount.
Proof. intros t t' H ? v ->. revert t t' H. alike_tac. Qed.
#[export] Instance set_script_proper : Proper (alike ==> eq ==> alike) set_script.
Proof. intros t t' H ? v ->. revert t t' H. alike_tac. Qed.
#[export] Instance set_told_proper : Proper (alike ==> eq ==> alike) set_told.
Proof. intros t t' H ? v ->. revert t t' H. alike_tac. Qed.
#[export] Instance set_proxies_proper : Proper (alike ==> eq ==> alike) set_proxies.
Proof. intros t t' H ? v ->. revert t t' H. alike_tac. Qed.
#[export] Instance set_caller_proper p u : Proper (alike ==> alike) (set_caller p u).
Proof. alike_tac. Qed.
Ltac alike_field := intros [] [] Ha; unfold alike, rest in Ha; cbn in *; injection Ha; done.
#[export] Instance pending_strong_proper : Proper (alike ==> eq) mPendingStrongDerefs.
Proof. alike_field. Qed.
#[export] Instance pending_weak_proper : Proper (alike ==> eq) mPendingWeakDerefs.
Proof. alike_field. Qed.
#[export] Instance driver_proper : Proper (alike ==> eq) mDriverFD.
Proof. alike_field. Qed.
#[export] Instance script_proper : Proper (alike ==> eq) script.
Proof. alike_field. Qed.
#[export] Instance told_proper : Proper (alike ==> eq) told.
Proof. alike_field. Qed.
#[export] Instance executing_proper : Proper (alike ==> eq) mExecutingThreadsCount.
Proof. alike_field. Qed.
#[export] Instance proxies_proper : Proper (alike ==> eq) proxies.
Proof. alike_field. Qed.
Lemma alike_tw t w : mStrictModePolicy w = mStrictModePolicy (tw t) -> lastTransactionFlags w = lastTransactionFlags (tw t) -> alike (set_tw t w) t.
Proof. intros H1 H2. unfold alike, rest. cbn. by rewrite H1, H2. Qed.

(** The thread is now like [u], and of each resource it has gained so much. *)
Record becomes u (gain : resource -> Z) t t' : Prop := {
  un_rest : alike t' u;
  un_others : others t' = others t;
  un_net x : thread_net x t' = thread_net x t + gain x
}.
Definition unchanged (gain : resource -> Z) t t' : Prop := becomes t gain t t'.
Lemma unchanged_refl t : unchanged no_gain t t.
Proof. split; [done..|]. unfold no_gain. lia. Qed.
Lemma becomes_trans u1 u2 u g1 g2 g t1 t2 t3 : becomes u1 g1 t1 t2 -> becomes u2 g2 t2 t3 -> alike u2 u -> (forall x, g x = g1 x + g2 x) ->
  becomes u g t1 t3.
Proof. intros [R1 O1 N1] [R2 O2 N2] Hu Hg. split; [by rewrite R2|by rewrite O2|]. intros x. rewrite N2, N1, Hg. lia. Qed.
Lemma unchanged_trans g1 g2 g t1 t2 t3 : unchanged g1 t1 t2 -> unchanged g2 t2 t3 -> (forall x, g x = g1 x + g2 x) -> unchanged g t1 t3.
Proof. intros H1 H2 Hg. eapply becomes_trans; [exact H1|exact H2|apply H1|exact Hg]. Qed.

Section Ready.
Context {E : ParcelEnv} {L : ParcelEnvLaws E}.

Lemma rest_same g s s' t : within g s s' -> world_of s = tw t -> alike (set_tw t (world_of s')) t.
Proof. intros [A _] Hw. injection A as _ _ _ H1 H2. apply alike_tw; congruence. Qed.

(** A change of [mOut]. *)
Lemma ready_mOut l out out' t s' : ready l out t -> appended out' [] no_gain (MkP (mOut t) (tw t)) s' ->
  let t' := set_tw (set_mOut t (this s')) (world_of s') in ready l out' t' /\ unchanged no_gain t t'.
Proof.
  intros [(d & Hi & Hp) Ho Ha Hap He Hcp] [A W F] t'. destruct s' as [p' w'].
  destruct (frame_holds no_gain (d ++ l) [] (mIn t) (mOut t) (tw t) p' w' W Hap (hd_null _ _ _ (proj1 A)) Hi) as [Hi' Hap'].
  split.
  - split; try done; [by exists d|]. cbn in F. by rewrite <- Ha, <- F.
  - split; [apply (rest_same _ _ _ (set_mOut t p') W); done| |intros x; apply (wi_net _ _ _ W)].
    destruct W as [A' _]. injection A' as A' _ _ _ _. unfold others, without. cbn. by rewrite A'.
Qed.

(** [m] queues the bytes [e] and returns [a]. *)
Definition says {A} e (m : T A) (a : A) : Prop := forall l out t, ready l out t -> ~ short_of_memory -> ~ too_big (Z.of_nat (length out + length e)) ->
  twp m (fun r t' => r = a /\ ready l (out ++ e) t' /\ unchanged no_gain t t') t.

Lemma says_ret {A} (a : A) : says [] (mret a) a.
Proof. intros l out t H _ _. apply twp_ret. rewrite app_nil_r. split_and!; [done..|apply unchanged_refl]. Qed.
Lemma says_bind {A B} e1 e2 (m : T A) (f : A -> T B) a b : says e1 m a -> says e2 (f a) b -> says (e1 ++ e2) (m ≫= f) b.
Proof.
  intros H1 H2 l out t H Hm Hb. rewrite length_app in Hb. apply twp_bind. eapply twp_mono; [apply (H1 l out t H Hm)|].
  { intros Hb1. apply Hb. eapply too_big_mono; [exact Hb1|]. lia. }
  cbn beta. intros _ t1 (-> & R1 & U1). eapply twp_mono; [apply (H2 l _ t1 R1 Hm)|].
  { rewrite length_app. by rewrite <- Nat.add_assoc. }
  cbn beta. intros r t2 (-> & R2 & U2). rewrite app_assoc. split_and!; [done..|]. by eapply unchanged_trans.
Qed.

(** A writer of [mOut]. *)
Lemma says_write e (m : P Z) : (forall dt s, at_end dt [] s -> pwp m (outcome dt [] e [] no_gain s) s) -> says e (on_mOut m) NO_ERROR.
Proof.
  intros Hm l out t H Hno Hb. apply twp_mOut. eapply pwp_mono; [apply (Hm out), (rd_out _ _ _ H)|]. cbn beta.
  intros err s' [[-> A]|(k & A & He)].
  - split; [done|]. by apply (ready_mOut l out).
  - exfalso. destruct He as [[_ Hs]|[[_ Ha]|Hbig]]; [done| |done]. cbn in Ha. by rewrite (rd_allow _ _ _ H) in Ha.
Qed.
Lemma says_drop {A} e (m : T A) a : says e m a -> says e (_ ← m; mret tt) tt.
Proof. intros H. rewrite <- (app_nil_r e). eapply says_bind; [exact H|apply says_ret]. Qed.
Lemma says_int32 v : says (le_bytes 4 v) (on_mOut (writeInt32 v)) NO_ERROR.
Proof. apply says_write. intros. by apply pwp_weaken, pwp_writeInt32. Qed.
Lemma says_out32 v : says (le_bytes 4 v) (out32 v) tt.
Proof. eapply says_drop, says_int32. Qed.
Lemma says_out64 v : says (le_bytes 8 v) (out64 v) tt.
Proof. eapply says_drop, says_write. intros. apply pwp_weaken, pwp_writeAligned; [done|lia|lia]. Qed.
End Ready.

(** ** Threads: the exchange with the driver

    [served n c script a rest]: after interruptions the driver takes all of the [n]
    bytes and answers [a].  Then everything that was queued has been told, in order and
    once, and what the driver stored is there to be read. *)

Implicit Types (s : pstate) (dt new : list Z) (n c : Z) (a i : answer) (script later : list answer).

Inductive served n : Z -> list answer -> answer -> list answer -> Prop :=
| served_now c a later : an_err a = 0 -> an_consumed a = n -> c <= n -> served n c (a :: later) a later
| served_later c i script a later : an_err i = - EINTR -> c <= an_consumed i -> an_read i = [] -> an_mapped i = [] ->
    served n (an_consumed i) script a later -> served n c (i :: script) a later.

(** ** The size of a parcel that has its buffer *)
Section Size.
Context {E : ParcelEnv}.

Definition resized_to n (p : parcel) : parcel :=
  set_mDataSize (if n <? mDataPos p then set_mDataPos p n else p) n.

Lemma pwp_setDataSize dt n w (Q : Z -> pstate -> Prop) s : holds dt [] (MkP (this s) w) -> mData (this s) ≠ 0 -> 0 <= n <= mDataCapacity (this s) ->
  Q NO_ERROR (MkP (resized_to n (this s)) (world_of s)) -> pwp (setDataSize n) Q s.
Proof.
  intros H Hd Hn HQ. pose proof (hd_cap _ _ _ H) as Hcap. pose proof (hd_count _ _ _ H) as Hc. pose proof (hd_owner _ _ _ H) as Ho. cbn in Hc, Hcap, Ho.
  unfold setDataSize. rewrite (proj2 (Z.ltb_ge INT32_MAX n)) by lia. apply pwp_and_then. unfold continueWrite.
  rewrite (proj2 (Z.ltb_ge INT32_MAX n)) by lia. unfold kept_objects. psteps. rewrite Hc.
  assert (forall (Q' : Z -> pstate -> Prop) s1, Q' 0 s1 ->
    pwp (if n <? mDataSize (this s) then if n =? 0 then mret 0 else k ← objects_before (mObjects (this s)) n (Z.to_nat 0); mret (Z.of_nat k) else mret 0) Q' s1) as Hk.
  { intros Q' s1 HQ'. destruct (n <? mDataSize (this s)), (n =? 0); done. }
  apply Hk. psteps. rewrite Ho, (proj2 (Z.eqb_neq _ 0) Hd). cbn [negb]. unfold cut_objects. psteps.
  rewrite Hc. apply pwp_if_then; [done|intros _]. unfold resize_data. psteps.
  rewrite (proj2 (Z.ltb_ge _ n)) by lia. psteps. split; [|done]. intros _. psteps.
  destruct s as [p w']. unfold resized_to in HQ. cbn in *. destruct (n <? mDataSize p) eqn:C; cbn; [|done].
  destruct p; cbn in *. by destruct (n <? mDataPos).
Qed.

Lemma holds_resized dt new s rest k h : holds dt [] s -> heap (world_of s) !! mData (this s) = Some (MkChunk true (new ++ rest)) ->
  mData (this s) ≠ 0 -> Z.of_nat (length (new ++ rest)) = mDataCapacity (this s) -> Forall is_byte new -> Forall is_byte rest ->
  0 <= k <= Z.of_nat (length new) -> 0 <= h ->
  let s' := MkP (set_mNextObjectHint (set_mDataPos (set_mDataSize (this s) (Z.of_nat (length new))) k) h) (world_of s) in
  holds new [] s' /\ within no_gain s s'.
Proof.
  intros H Hh Hd Hc Hn Hr Hk Hp. destruct s as [p w], H as [Iow Isz Iby Ida Ica Ipo Icn Iob Ifi Iap Ihi Inu]. cbn in *.
  split; [|by apply within_same]. split; cbn; try done.
  - right. split; [|by exists rest]. destruct Ida as [(? & _)|(? & _)]; lia.
  - split; [by constructor|done].
Qed.
Lemma resized_back n (p : parcel) : set_mNextObjectHint (set_mDataPos (resized_to n p) 0) 0 = set_mNextObjectHint (set_mDataPos (set_mDataSize p n) 0) 0.
Proof. unfold resized_to. by destruct (n <? mDataPos p). Qed.
Lemma resized_zero (p : parcel) : 0 <= mDataPos p -> resized_to 0 p = set_mNextObjectHint (set_mDataPos (set_mDataSize p 0) 0) (mNextObjectHint p).
Proof. intros H. unfold resized_to. destruct p; cbn in *. destruct (Z.ltb_spec 0 mDataPos); [done|]. by replace mDataPos with 0 by lia. Qed.
End Size.

(** ** The calls of the driver *)
Section Talk.
Context {E : ParcelEnv}.

Definition stored (buf : Z) l (w : world) : world :=
  match l, heap w !! buf with
  | _ :: _, Some d => set_heap w (<[buf := MkChunk (writable d) (splice 0 l (cells d))]> (heap w))
  | _, _ => w
  end.
Lemma stored_heap buf l (w : world) : stored buf l w = set_heap w (heap (stored buf l w)).
Proof. unfold stored. destruct l; [by destruct w|]. destruct (heap w !! buf); by destruct w. Qed.
(** What the driver's answer makes of the thread. *)
Definition answered buf out a later t : thread :=
  set_tw (set_told (set_script t later) (told t ++ out)) (stored buf (an_read a) (map_buffers (an_mapped a) (tw t))).

Lemma mapped_keys (l : list (Z * list Z)) : ((fun '(p, c) => (p, MkChunk false c)) <$> l).*1 = l.*1.
Proof. induction l as [|[p c] l IH]; cbn; [done|]. f_equal. exact IH. Qed.
Lemma heap_mapped buf (l : list (Z * list Z)) (w : world) : buf ∉ l.*1 -> heap (map_buffers l w) !! buf = heap w !! buf.
Proof. intros H. apply lookup_union_r, not_elem_of_list_to_map_1. by rewrite mapped_keys. Qed.
Lemma map_buffers_nil (w : world) : map_buffers [] w = w.
Proof. unfold map_buffers. cbn. rewrite (left_id_L ∅ (∪)). by destruct w. Qed.
Lemma twp_on_mIn_store buf l t (Q : unit -> thread -> Prop) :
  (l = [] \/ exists cs, heap (tw t) !! buf = Some (MkChunk true cs) /\ (length l <= length cs)%nat) ->
  Q tt (set_tw t (stored buf l (tw t))) -> twp (on_mIn (mem_store buf 0 l)) Q t.
Proof.
  intros H HQ. apply twp_mIn. destruct l as [|b l].
  - apply pwp_store_nil. cbn in *. by rewrite set_mIn_same.
  - destruct H as [?|(cs & Hh & Hl)]; [done|]. eapply pwp_store; [exact Hh|done|lia|]. cbn [this world_of]. rewrite set_mIn_same.
    unfold stored in HQ. rewrite Hh in HQ. exact HQ.
Qed.

Lemma twp_write_read out c buf script a later t (Q : Z * Z * Z -> thread -> Prop) :
  served (Z.of_nat (length out)) c script a later -> 0 <= c ->
  (an_read a = [] \/ exists cs, heap (tw t) !! buf = Some (MkChunk true cs) /\ (length (an_read a) <= length cs)%nat) ->
  buf ∉ (an_mapped a).*1 ->
  Q (0, Z.of_nat (length out), Z.of_nat (length (an_read a))) (answered buf (drop (Z.to_nat c) out) a later t) ->
  twp (write_read out c buf script) Q t.
Proof.
  intros Hs. revert t Q. remember (Z.of_nat (length out)) as n eqn:Hn.
  induction Hs as [c a later He Hc Hle|c i script a later He Hle Hr Hm Hs IH]; intros t Q H0 Hb Hf HQ; subst n; cbn [write_read].
  - tsteps. apply twp_on_mIn_store.
    { destruct Hb as [Hb|(cs & Hh & Hl)]; [by left|right]. exists cs. cbn [tw set_tw set_told set_script]. by rewrite heap_mapped. }
    rewrite He, Hc. cbn [told set_told set_script set_tw script] in *. 
    rewrite take_ge by (rewrite length_drop; lia). change (0 =? - EINTR) with false. cbn iota. apply twp_ret. exact HQ.
  - tsteps. rewrite Hr, Hm, map_buffers_nil. apply twp_on_mIn_store; [by left|]. rewrite He, Z.eqb_refl. apply IH; [lia|exact Hb|done|].
    destruct t; unfold answered in *; cbn in *. rewrite <- app_assoc.
    rewrite <- (take_drop (Z.to_nat (an_consumed i - c)) (drop (Z.to_nat c) out)), drop_drop in HQ.
    by replace (Z.to_nat c + Z.to_nat (an_consumed i - c))%nat with (Z.to_nat (an_consumed i)) in HQ by lia.
Qed.
End Talk.

(** ** What is left in the heap *)
Section Mapped.
Implicit Types (m : list (Z * list Z)) (w : world).

(** The driver's buffers lie in the area that it maps into the process, which is
    there from the start. *)
Definition mappable m t : Prop := forall q, q ∈ m.*1 -> exists cs, others t !! q = Some (MkChunk false cs).

Lemma others_lookup t q (c : chunk) : others t !! q = Some c <-> heap (tw t) !! q = Some c /\ outside (mIn t) q /\ outside (mOut t) q.
Proof. unfold others, without, outside. rewrite !lookup_delete_Some. naive_solver. Qed.
Lemma mappings_nil h : mappings [] ∪ h = h.
Proof. apply (left_id_L ∅ (∪)). Qed.
Lemma mappings_none m q : q ∉ m.*1 -> mappings m !! q = None.
Proof. intros H. apply not_elem_of_list_to_map_1. by rewrite mapped_keys. Qed.
Lemma mapped_outside m t q : mappable m t -> q ∈ m.*1 -> outside (mIn t) q /\ outside (mOut t) q.
Proof. intros H Hq. destruct (H q Hq) as [c Hc]. by apply others_lookup in Hc as [_ Hc]. Qed.
Lemma mapped_apart m t q : mappable m t -> q = mData (mIn t) \/ q = mObjects (mIn t) \/ q = mData (mOut t) \/ q = mObjects (mOut t) -> q ∉ m.*1.
Proof. intros H Hq Hin. destruct (mapped_outside m t q H Hin) as [[] []]. naive_solver. Qed.
Lemma mapped_null m t dt os : mappable m t -> holds dt os (MkP (mIn t) (tw t)) -> 0 ∉ m.*1.
Proof. intros H Hh Hin. destruct (H 0 Hin) as [c Hc]. apply others_lookup in Hc as [Hc _]. pose proof (hd_null _ _ _ Hh) as H0. cbn in H0. congruence. Qed.

Lemma without_union (p : parcel) (h1 h2 : gmap Z chunk) : h1 !! mData p = None -> h1 !! mObjects p = None -> without p (h1 ∪ h2) = h1 ∪ without p h2.
Proof. intros H1 H2. unfold without. by rewrite !delete_union, (delete_id h1 (mData p)), (delete_id h1 (mObjects p)) by done. Qed.

Lemma buffer_mapped (R : Z -> Prop) m w q cap l : q ∉ m.*1 -> buffer R (heap w) q cap l -> buffer R (heap (map_buffers m w)) q cap l.
Proof. intros H. apply buffer_same. by apply heap_mapped. Qed.
Lemma holds_mapped dt os (p : parcel) m w : mData p ∉ m.*1 -> mObjects p ∉ m.*1 -> 0 ∉ m.*1 ->
  holds dt os (MkP p w) -> holds dt os (MkP p (map_buffers m w)).
Proof.
  intros H1 H2 H3 [Iow Isz Iby Ida Ica Ipo Icn Iob Ifi Iap Ihi Inu]. cbn in *. split; cbn [this world_of]; try done.
  - by apply buffer_mapped.
  - by apply buffer_mapped.
  - by rewrite heap_mapped.
Qed.
End Mapped.

(** ** What is read *)
Section Refill.
Implicit Types (p : parcel) (w : world).

Lemma holds_refill dt new p w : holds dt [] (MkP p w) -> new ≠ [] -> Z.of_nat (length new) <= mDataCapacity p -> Forall is_byte new ->
  let s' := MkP (set_mNextObjectHint (set_mDataPos (set_mDataSize p (Z.of_nat (length new))) 0) 0) (stored (mData p) new w) in
  holds new [] s' /\ within no_gain (MkP p w) s' /\ mData p ≠ 0 /\ exists cs, heap w !! mData p = Some (MkChunk true cs) /\ (length new <= length cs)%nat.
Proof.
  intros H Hn Hc Hb s'. assert (mData p ≠ 0) as Hd.
  { intros Hd. destruct (buffer_null _ _ _ _ _ (hd_data _ _ _ H) Hd) as [Hz _]. cbn in Hz. destruct new; cbn in *; [done|lia]. }
  destruct (buffer_chunk _ _ _ _ _ (hd_data _ _ _ H) Hd) as (r & Hr & Hl & Hf). cbn [this world_of] in *.
  assert (Forall is_byte (dt ++ r)) as Hf' by (apply Forall_app_2; [apply H|done]).
  split_and!; [| |done|exists (dt ++ r); split; [done|lia]].
  all: subst s'; unfold stored; rewrite Hr; destruct new as [|b new]; [done|]; set (nw := b :: new) in *; cbn [writable cells].
  - destruct H as [Iow Isz Iby Ida Ica Ipo Icn Iob Ifi Iap Ihi Inu]. cbn in *. split; cbn; try done.
    + right. split; [destruct Ida as [(? & _)|(? & _)]; lia|]. exists (drop (length nw) (dt ++ r)). rewrite lookup_insert_eq.
      split_and!; [done| |by apply Forall_drop]. rewrite length_app, length_drop. cbn in *. lia.
    + eapply buffer_same; [|exact Iob]. apply lookup_insert_ne. intros Eq. by specialize (Iap Eq).
    + split; [by constructor|done].
    + by rewrite lookup_insert_ne.
  - apply within_same; [|done]. unfold account_of. cbn. f_equal. apply others_store.
Qed.
End Refill.

(** ** The exchange *)
Section Exchange.
Context {E : ParcelEnv}.

Record talked l out a later t t' : Prop := {
  tk_ready : ready (l ++ an_read a) [] t';
  tk_capacity : mDataCapacity (mIn t') = mDataCapacity (mIn t);
  tk_rest : alike t' (set_told (set_script t later) (told t ++ out));
  tk_others : others t' = mappings (an_mapped a) ∪ others t;
  tk_net x : thread_net x t' = thread_net x t
}.

(** There are returns to read first. *)
Lemma twp_talk_full l out t (Q : Z -> thread -> Prop) : ready l out t -> 0 < mDriverFD t -> l ≠ [] -> Q NO_ERROR t -> twp (talkWithDriver true) Q t.
Proof.
  intros R Hfd Hl HQ. destruct (rd_in _ _ _ R) as (d & Hi & Hp). pose proof (hd_size _ _ _ Hi) as Hsz. cbn in Hsz.
  rewrite length_app in Hsz. destruct l as [|b l]; [done|]. cbn in Hsz.
  unfold talkWithDriver. tsteps. rewrite (proj2 (Z.leb_gt (mDriverFD t) 0)) by lia. tsteps.
  rewrite Hsz, Hp, (proj2 (Z.ltb_lt _ _)), (proj2 (Z.leb_gt _ _)) by lia. cbn [negb orb andb]. tsteps. exact HQ.
Qed.

(** [mIn] afterwards. *)
Lemma refilled d l new p (w : world) : holds (d ++ l) [] (MkP p w) -> mDataPos p = Z.of_nat (length d) -> (new ≠ [] -> l = []) ->
  Z.of_nat (length new) <= mDataCapacity p -> Forall is_byte new ->
  let p' := (match new with [] => p | _ => set_mNextObjectHint (set_mDataPos (set_mDataSize p (Z.of_nat (length new))) 0) 0 end) in
  (exists d', holds (d' ++ l ++ new) [] (MkP p' (stored (mData p) new w)) /\ mDataPos p' = Z.of_nat (length d')) /\
  within no_gain (MkP p w) (MkP p' (stored (mData p) new w)).
Proof.
  intros H Hp Hl Hc Hb p'. destruct new as [|b new]; [split; [|by apply within_same]; exists d; by rewrite app_nil_r|].
  rewrite (Hl ltac:(done)), app_nil_r in *. destruct (holds_refill d (b :: new) p w H ltac:(done) Hc Hb) as (H1 & W & _).
  split; [by exists []|done].
Qed.
(** [mOut] afterwards. *)
Lemma emptied out p (w : world) : at_end out [] (MkP p w) -> let p' := if 0 <? Z.of_nat (length out) then resized_to 0 p else p in
  at_end [] [] (MkP p' w) /\ mData p' = mData p /\ mObjects p' = mObjects p /\ mAllowFds p' = mAllowFds p.
Proof.
  intros [H Hp] p'. unfold p'. destruct (Z.ltb_spec 0 (Z.of_nat (length out))) as [Hl|Hl]; [|by destruct out].
  assert (mData p ≠ 0) as Hd.
  { intros Hd. destruct (buffer_null _ _ _ _ _ (hd_data _ _ _ H) Hd) as [_ ->]. cbn in Hl. lia. }
  destruct (buffer_chunk _ _ _ _ _ (hd_data _ _ _ H) Hd) as (r & Hr & Hc & Hf). cbn [this world_of] in *.
  rewrite resized_zero by (rewrite Hp; lia). split; [|done]. split; [|done].
  destruct (holds_resized out [] (MkP p w) (out ++ r) 0 (mNextObjectHint p) H) as [H1 _]; try done.
  - apply Forall_app_2; [apply H|done].
  - apply (hd_hint _ _ _ H).
Qed.

Definition in_after new p : parcel :=
  match new with [] => p | _ => set_mNextObjectHint (set_mDataPos (set_mDataSize p (Z.of_nat (length new))) 0) 0 end.
Definition out_after out p : parcel := if 0 <? Z.of_nat (length out) then resized_to 0 p else p.

Lemma talked_end l out t a later buf : ready l out t -> (an_read a ≠ [] -> l = [] /\ buf = mData (mIn t)) ->
  mappable (an_mapped a) t -> Forall is_byte (an_read a) -> Z.of_nat (length (an_read a)) <= mDataCapacity (mIn t) ->
  talked l out a later t (set_mOut (set_mIn (answered buf out a later t) (in_after (an_read a) (mIn t))) (out_after out (mOut t))).
Proof.
  intros R Hl Hm Hb Hc. destruct (rd_in _ _ _ R) as (d & Hi & Hp). destruct (rd_out _ _ _ R) as [Ho Hop].
  pose proof (mapped_null _ _ _ _ Hm Hi) as Hm0. set (w0 := map_buffers (an_mapped a) (tw t)).
  assert (stored buf (an_read a) w0 = stored (mData (mIn t)) (an_read a) w0) as Hst.
  { destruct (an_read a); [done|]. by destruct Hl as [_ ->]. }
  assert (forall q, q = mData (mIn t) \/ q = mObjects (mIn t) \/ q = mData (mOut t) \/ q = mObjects (mOut t) -> q ∉ (an_mapped a).*1) as Hq.
  { intros q. apply (mapped_apart _ t), Hm. }
  apply (holds_mapped _ _ _ (an_mapped a)) in Hi as Hi0; [|by auto..].
  apply (holds_mapped _ _ _ (an_mapped a)) in Ho as Ho0; [|by auto..].
  destruct (refilled d l (an_read a) (mIn t) w0 Hi0 Hp ltac:(intros; by apply Hl) Hc Hb) as [Hin W].
  fold (in_after (an_read a) (mIn t)) in Hin, W. rewrite <- Hst in Hin, W. set (w1 := stored buf (an_read a) w0) in *.
  set (pi := in_after (an_read a) (mIn t)) in *.
  destruct (frame_holds no_gain out [] (mOut t) (mIn t) w0 pi w1 W (apart_sym _ _ (rd_apart _ _ _ R))) as [Ho1 Hap]; [|done|].
  { destruct Hin as (d' & Hin & _). apply (hd_null _ _ _ Hin). }
  destruct (emptied out (mOut t) w1 (conj Ho1 Hop)) as (Hend & Hd & Hob & Hal). fold (out_after out (mOut t)) in Hend, Hd, Hob, Hal.
  set (po := out_after out (mOut t)) in *. split.
  - split; cbn [mIn mOut tw set_mIn set_mOut answered set_tw set_told set_script].
    + destruct Hin as (d' & Hin & Hp'). by exists d'.
    + exact Hend.
    + rewrite Hal. apply R.
    + apply apart_sym. intros x. rewrite Hd, Hob. apply Hap.
    + rewrite <- (rd_no_error _ _ _ R). unfold pi, in_after. by destruct (an_read a).
    + pose proof (rd_capacity _ _ _ R). unfold pi, in_after. by destruct (an_read a).
  - unfold pi, in_after. by destruct (an_read a).
  - unfold alike, rest. cbn. by rewrite stored_heap.
  - unfold others. cbn [mIn mOut tw set_mIn set_mOut answered set_tw set_told set_script]. fold w0. fold w1.
    assert (without po = without (mOut t)) as -> by (unfold without; by rewrite Hd, Hob).
    pose proof (within_without _ _ _ W) as Hw. cbn [this world_of] in Hw.
    rewrite without_comm, Hw, without_comm. unfold w0. cbn [heap map_buffers set_heap].
    rewrite without_union by (apply mappings_none; auto). rewrite without_union by (apply mappings_none; auto). done.
  - unfold thread_net. cbn. by rewrite stored_heap.
Qed.

(** Both sizes after the call. *)
Lemma twp_out_after out t (w : world) (Q : unit -> thread -> Prop) : at_end out [] (MkP (mOut t) w) ->
  Q tt (set_mOut t (out_after out (mOut t))) ->
  twp (when_ (0 <? Z.of_nat (length out)) (
    size ← on_mOut dataSize;
    if Z.of_nat (length out) <? size then on_mOut (remove 0 (Z.of_nat (length out))) else _ ← on_mOut (setDataSize 0); mret tt)) Q t.
Proof.
  intros [Ho Hop] HQ. pose proof (hd_size _ _ _ Ho) as Hosz. cbn in Hosz, Hop. unfold out_after in HQ. tif; rewrite C in HQ.
  - apply Z.ltb_lt in C. tsteps. rewrite Hosz, Hop, Z.ltb_irrefl, Z.ltb_irrefl. tsteps. apply twp_mOut.
    eapply pwp_setDataSize; [exact Ho| |split; [done|apply (Z.le_trans _ (Z.of_nat (length out))); [lia|apply (buffer_le _ _ _ _ _ (hd_data _ _ _ Ho))]]|].
    + intros Hd. destruct (buffer_null _ _ _ _ _ (hd_data _ _ _ Ho) Hd) as [_ ->]. done.
    + tsteps. by destruct t.
  - by destruct t.
Qed.
Lemma twp_in_after dt new t (w : world) (Q : unit -> thread -> Prop) : holds dt [] (MkP (mIn t) w) ->
  Z.of_nat (length new) <= mDataCapacity (mIn t) -> Q tt (set_mIn t (in_after new (mIn t))) ->
  twp (when_ (0 <? Z.of_nat (length new)) (_ ← on_mIn (setDataSize (Z.of_nat (length new))); on_mIn (setDataPosition 0))) Q t.
Proof.
  intros H Hc HQ. tif; [|destruct new; [by destruct t|done]].
  apply Z.ltb_lt in C. tsteps. apply twp_mIn. eapply pwp_setDataSize; [exact H| |cbn [this]; lia|].
  - intros Hd. destruct (buffer_null _ _ _ _ _ (hd_data _ _ _ H) Hd) as [Hz _]. cbn in Hz. lia.
  - cbn beta. apply twp_mIn. unfold setDataPosition, INT32_MAX. change (2 ^ 31 - 1 <? 0) with false. cbn iota. psteps.
    cbn [this world_of mIn tw set_mIn set_tw]. rewrite resized_back. unfold in_after in HQ. destruct new; [cbn in C; lia|]. by destruct t.
Qed.

Lemma andb_false_either b1 b2 : b1 = false \/ b2 = false -> b1 && b2 = false.
Proof. intros [-> | ->]; [done|apply andb_false_r]. Qed.


Lemma twp_talk receive l out t a later (Q : Z -> thread -> Prop) : ready l out t -> 0 < mDriverFD t -> (receive = true -> l = []) ->
  out ≠ [] \/ receive = true -> served (Z.of_nat (length out)) 0 (script t) a later ->
  mappable (an_mapped a) t -> Forall is_byte (an_read a) -> Z.of_nat (length (an_read a)) <= (if receive then mDataCapacity (mIn t) else 0) ->
  (forall t', talked l out a later t t' -> Q NO_ERROR t') -> twp (talkWithDriver receive) Q t.
Proof.
  intros R Hfd Hl Hne Hs Hm Hb Hc HQ. destruct (rd_in _ _ _ R) as (d & Hi & Hp). destruct (rd_out _ _ _ R) as [Ho Hop].
  pose proof (hd_size _ _ _ Hi) as Hsz. pose proof (hd_size _ _ _ Ho) as Hosz. cbn in Hsz, Hosz, Hop. rewrite length_app in Hsz.
  unfold talkWithDriver. tsteps. rewrite (proj2 (Z.leb_gt (mDriverFD t) 0)) by lia. tsteps.
  assert (((if mDataPos (mIn t) <? mDataSize (mIn t) then mDataSize (mIn t) else mDataPos (mIn t)) <=? mDataPos (mIn t)) = bool_decide (l = [])) as ->.
  { rewrite Hsz, Hp. destruct (Z.ltb_spec (Z.of_nat (length d)) (Z.of_nat (length d + length l))) as [Hlt|Hlt].
    - rewrite (proj2 (Z.leb_gt _ _)) by lia. destruct l; [cbn in Hlt; lia|done].
    - rewrite (proj2 (Z.leb_le _ _)) by lia. destruct l; [done|cbn in Hlt; lia]. }
  assert ((if negb receive || bool_decide (l = []) then on_mOut dataSize else mret 0) = on_mOut dataSize) as ->.
  { destruct receive; [|done]. by rewrite bool_decide_true by auto. }
  assert (receive && bool_decide (l = []) = receive) as Hrec.
  { destruct receive; [|done]. by rewrite bool_decide_true by auto. }
  rewrite Hrec. tsteps. rewrite Hosz, Hop, Z.ltb_irrefl.
  rewrite andb_false_either by (pose proof (rd_capacity _ _ _ R); destruct Hne as [Hne| ->]; [left; apply Z.eqb_neq; destruct out; cbn; [done|lia]|right; apply Z.eqb_neq; lia]).
  tsteps. apply twp_mOut. psteps. eapply (pwp_load_data [] out [] []); [rewrite app_nil_r; by apply holds_shows|done|lia|].
  cbn [this world_of]. replace (set_tw (set_mOut t (mOut t)) (tw t)) with t by by destruct t. tsteps.
  apply (twp_mono (if receive then get (fun t => mData (mIn t)) else mret 0) (fun buf t' => t' = t /\ buf = if receive then mData (mIn t) else 0)).
  { by destruct receive; tsteps. }
  cbn beta. intros buf t' [-> Hbuf]. tsteps. eapply twp_write_read; [exact Hs|done|..].
  { destruct receive; subst buf; [|left; by destruct (an_read a)]. destruct (an_read a) as [|b new] eqn:En; [by left|right].
    destruct (holds_refill (d ++ l) (b :: new) (mIn t) (tw t) Hi ltac:(done) Hc Hb) as (_ & _ & _ & H). exact H. }
  { subst buf. destruct receive; [apply (mapped_apart _ t); auto|by eapply mapped_null]. }
  tsteps. cbn [mDriverFD answered set_tw set_told set_script]. rewrite (proj2 (Z.leb_gt (mDriverFD t) 0)) by lia.
  change (NO_ERROR <=? 0) with true. cbn iota. tsteps. eapply twp_out_after; [by split|]. tsteps.
  assert (Z.of_nat (length (an_read a)) <= mDataCapacity (mIn t)) as Hc'.
  { destruct receive; [done|]. pose proof (buffer_le _ _ _ _ _ (hd_data _ _ _ Hi)) as Hle. cbn in Hle. lia. }
  eapply twp_in_after; [exact Hi|exact Hc'|]. tsteps. apply HQ.
  apply (talked_end l out t a later buf R); try done. intros Hn. subst buf. destruct receive; [by auto|].
  by destruct (an_read a).
Qed.
End Exchange.
