(* ===== verification/IpcCommands.v ===== *)
(** * Threads: the commands that are queued

    Each operation queues the bytes of one command; a flush hands all of them to the
    driver, which decodes and executes exactly these commands. *)
From S2P Require Import Prelude UserMem RbTree Alloc Protocol Kernel Refs Transact Send Write ParcelState Parcel ParcelWrite ParcelRead ParcelInv ParcelAppend ParcelObjects ParcelValues ParcelShows Commands IpcState IpcThread IpcTalk.

Implicit Types (t : IpcState.thread) (l out : list Z) (c : bc) (cs : list bc) (a : answer).

Section Commands.
Context {E : ParcelEnv} {L : ParcelEnvLaws E}.

(** The operation that queues a command. *)
Definition queue c : T unit :=
  match c with
  | BcRef true true h => incStrongHandle h
  | BcRef true false h => incWeakHandle h
  | BcRef false true h => decStrongHandle h
  | BcRef false false h => decWeakHandle h
  | BcDeath true h p => _ ← requestDeathNotification h p; mret tt
  | BcDeath false h p => _ ← clearDeathNotification h p; mret tt
  | BcFree d => queue_free d
  | _ => mret tt
  end.
Definition has_queue c : bool := match c with BcRef _ _ _ | BcDeath _ _ _ | BcFree _ => true | _ => false end.

Lemma says_queue c : has_queue c = true -> says (bc_bytes c) (queue c) tt.
Proof.
  destruct c as [[] [] h| |d| | |[] h p|]; try done; intros _; unfold bc_bytes; cbn [bc_args queue].
  1-4: by eapply says_bind; apply says_out32.
  1: eapply says_bind; [apply says_int32|apply says_out64].
  all: apply (says_drop _ _ NO_ERROR); eapply says_bind; [apply says_out32|]; eapply says_bind; [apply says_out32|];
    rewrite <- (app_nil_r (le_bytes 8 p)); eapply says_bind; [apply says_out64|apply says_ret].
Qed.

Fixpoint queue_all cs : T unit := match cs with [] => mret tt | c :: cs => _ ← queue c; queue_all cs end.
Lemma says_queue_all cs : Forall (fun c => has_queue c = true) cs -> says (bcs_bytes cs) (queue_all cs) tt.
Proof. induction 1 as [|c cs Hc Hcs IH]; [apply says_ret|]. eapply says_bind; [by apply says_queue|exact IH]. Qed.

(** [flushCommands] *)
Lemma twp_flush l out t a later (Q : unit -> IpcState.thread -> Prop) : ready l out t -> 0 < mDriverFD t -> out ≠ [] ->
  served (Z.of_nat (length out)) 0 (script t) a later -> mappable (an_mapped a) t -> an_read a = [] ->
  (forall t', talked l out a later t t' -> Q tt t') -> twp flushCommands Q t.
Proof.
  intros R Hfd Hout Hs Hm Hr HQ. unfold flushCommands. tsteps. rewrite (proj2 (Z.leb_gt _ _)) by lia. tsteps.
  eapply twp_talk; [exact R|done|done|by left|exact Hs|done|by rewrite Hr|by rewrite Hr|]. intros t' Ht. tsteps. by apply HQ.
Qed.

(** A flush with nothing to say asks nothing of the driver. *)
Definition flushed out (script later : list answer) : Prop :=
  out = [] /\ later = script \/ out ≠ [] /\ exists a, served (Z.of_nat (length out)) 0 script a later /\ an_read a = [] /\ an_mapped a = [].
Lemma talk_nothing l t (Q : Z -> IpcState.thread -> Prop) : ready l [] t -> 0 < mDriverFD t -> Q NO_ERROR t -> twp (talkWithDriver false) Q t.
Proof.
  intros R Hfd HQ. destruct (rd_out _ _ _ R) as [Ho Hop]. pose proof (hd_size _ _ _ Ho) as Hsz. cbn in Hop, Hsz.
  unfold talkWithDriver. tsteps. rewrite (proj2 (Z.leb_gt (mDriverFD t) 0)) by lia. tsteps. cbn [negb orb andb]. tsteps. rewrite Hsz, Hop. by tsteps.
Qed.
Lemma twp_flushed l out t later (Q : unit -> IpcState.thread -> Prop) : ready l out t -> 0 < mDriverFD t -> flushed out (script t) later ->
  (forall t', ready l [] t' -> becomes (set_told (set_script t later) (told t ++ out)) no_gain t t' -> Q tt t') -> twp flushCommands Q t.
Proof.
  intros R Hfd [[-> ->]|(Hout & a & Hs & Hr & Hm)] HQ.
  - unfold flushCommands. tsteps. rewrite (proj2 (Z.leb_gt _ _)) by lia. tsteps. eapply talk_nothing; [exact R|done|]. tsteps.
    apply HQ; [done|]. rewrite app_nil_r. split; [by destruct t|done|]. unfold no_gain. lia.
  - eapply (twp_flush l out t a later); try done; [rewrite Hm; intros q Hin; by apply not_elem_of_nil in Hin|].
    intros t' [K1 _ K3 K4 K5]. rewrite Hr, app_nil_r in K1. apply HQ; [done|]. split; [done| |intros x; rewrite K5; unfold no_gain; lia].
    by rewrite K4, Hm, mappings_nil.
Qed.

(** C35: reference and death commands that a thread queues and flushes reach the driver
    whole and in order: however often the call is interrupted, the thread tells the
    driver exactly one stretch of bytes, nothing else of the thread changes, and a
    driver that finds these bytes in the write buffer executes exactly these commands. *)
Theorem commands_delivered cs l t later : ready l [] t -> ~ short_of_memory -> ~ too_big (Z.of_nat (length (bcs_bytes cs))) -> 0 < mDriverFD t ->
  Forall (fun c => has_queue c = true) cs -> Forall bc_ok cs -> flushed (bcs_bytes cs) (script t) later ->
  twp (_ ← queue_all cs; flushCommands) (fun _ t' => ready l [] t' /\ exists bytes,
    becomes (set_told (set_script t later) (told t ++ bytes)) no_gain t t' /\
    forall (M : Type) (uops : UserOps M) (env : KernelEnv) (rb : RbOps) (jk : Junk) (u : M) cur p th buffer s,
      holds_bytes u buffer bytes -> 0 <= buffer -> buffer + Z.of_nat (length bytes) < 2 ^ 64 ->
      binder_thread_write u cur p th buffer (Z.of_nat (length bytes)) 0 s = run_bcs u cur p th cs 0 s) t.
Proof.
  intros R Hmem Hbig Hfd Hq Hok Hs. apply twp_bind. eapply twp_mono; [by apply (says_queue_all cs Hq l [] t R)|]. cbn beta.
  intros _ t1 (_ & R1 & U1). cbn [app] in R1. pose proof (un_rest _ _ _ _ U1) as Er.
  apply (twp_flushed l (bcs_bytes cs) t1 later); [done|by rewrite Er|by rewrite Er|].
  intros t' R' B. split; [done|]. exists (bcs_bytes cs). split; [|intros; by apply binder_thread_write_runs].
  eapply becomes_trans; [exact U1|exact B|by rewrite Er|done].
Qed.
End Commands.
