(* ===== verification/IpcReturns.v ===== *)
(** * Threads: the returns that are executed

    Reading returns from [mIn], and the ones about references: each is answered at
    once, and references are given up only after everything else was read. *)
From S2P Require Import Prelude UserMem Protocol Read BioParse ParcelState Parcel ParcelWrite ParcelRead ParcelInv ParcelAppend ParcelObjects ParcelValues ParcelShows ParcelRoundtrip Commands IpcState IpcThread IpcTalk IpcCommands.

Implicit Types (t : thread) (l out e : list Z) (n : nat) (cs : list bc) (x : resource).

(** ** Reading *)
Section Reading.
Context {E : ParcelEnv}.

Lemma u32_s32 z : word 4 z -> u32 (s32 z) = z.
Proof.
  unfold word. change (256 ^ Z.of_nat 4) with (2 ^ 32). intros Hz. unfold s32, u32. rewrite (Z.mod_small z) by lia.
  destruct (z <? 2 ^ 31); [by apply Z.mod_small|]. rewrite <- (Z.mod_add (z - 2 ^ 32) 1 (2 ^ 32)) by lia.
  rewrite Z.mod_small; lia.
Qed.

(** A position that moves over what was next. *)
Lemma ready_skip e l out t h : ready (e ++ l) out t -> 0 <= h ->
  let t' := set_tw (set_mIn t (set_mNextObjectHint (set_mDataPos (mIn t) (mDataPos (mIn t) + Z.of_nat (length e))) h)) (tw t) in
  ready l out t' /\ unchanged no_gain t t'.
Proof.
  intros [(d & Hi & Hp) Ho Ha Hap He Hcp] Hh. split; [split; cbn [mIn mOut tw set_mIn set_tw]; try done|].
  - exists (d ++ e). rewrite <- app_assoc. split; [|cbn; rewrite Hp, length_app; lia].
    destruct Hi as [Iow Isz Iby Ida Ica Ipo Icn Iob Ifi Iap Ihi Inu]. cbn in *. split; cbn; try done.
    rewrite !length_app. lia.
  - split; [by unfold rest; destruct t|done|]. intros x. unfold no_gain, thread_net. cbn [tw set_tw]. lia.
Qed.
Lemma twp_reads {A} (m : P A) e l out t a (Q : A -> thread -> Prop) : ready (e ++ l) out t ->
  (forall dt s, shows dt [] s -> next_is e dt s -> reads_to m s (after e s) a) ->
  (forall t', ready l out t' -> unchanged no_gain t t' -> Q a t') -> twp (on_mIn m) Q t.
Proof.
  intros R Hm HQ. apply twp_mIn. destruct (rd_in _ _ _ R) as (d & Hi & Hp). eapply pwp_mono.
  - apply (Hm (d ++ e ++ l)); [by apply holds_shows|]. exists d, l. done.
  - cbn beta. intros r s' [-> (h & -> & Hh)]. destruct (ready_skip _ _ _ _ h R Hh) as [R' U]. by apply HQ.
Qed.

Lemma twp_in32 z l out t (Q : Z -> thread -> Prop) : ready (le_bytes 4 z ++ l) out t -> word 4 z ->
  (forall t', ready l out t' -> unchanged no_gain t t' -> Q (s32 z) t') -> twp in32 Q t.
Proof.
  intros R Hz HQ. eapply twp_reads; [exact R| |exact HQ]. intros dt s Hs Hn.
  rewrite <- (le_val_bytes 4 z Hz) at 2. eapply (reads_map s32); [exact Hs|]. eapply reads_value; [exact Hs|exact Hn|done].
Qed.
Lemma twp_in64 z l out t (Q : Z -> thread -> Prop) : ready (le_bytes 8 z ++ l) out t -> word 8 z ->
  (forall t', ready l out t' -> unchanged no_gain t t' -> Q z t') -> twp in64 Q t.
Proof.
  intros R Hz HQ. eapply twp_reads; [exact R| |exact HQ]. intros dt s Hs Hn.
  rewrite <- (le_val_bytes 8 z Hz) at 2. eapply reads_value; [exact Hs|exact Hn|done].
Qed.

(** Whether there is more to read. *)
Lemma twp_more {A} l out t (f : Z -> Z -> T A) (Q : A -> thread -> Prop) : ready l out t ->
  (forall pos size, (pos <? size) = negb (bool_decide (l = [])) -> (size <=? pos) = bool_decide (l = []) -> twp (f pos size) Q t) ->
  twp (pos ← on_mIn dataPosition; size ← on_mIn dataSize; f pos size) Q t.
Proof.
  intros R HQ. destruct (rd_in _ _ _ R) as (d & Hi & Hp). pose proof (hd_size _ _ _ Hi) as Hsz. cbn in Hsz. rewrite length_app in Hsz.
  tsteps. rewrite Hsz, Hp. destruct l as [|b l].
  - cbn [length]. rewrite Nat.add_0_r, Z.ltb_irrefl, bool_decide_true in * by done. apply HQ; [apply Z.ltb_irrefl|apply Z.leb_refl].
  - cbn [length]. rewrite (proj2 (Z.ltb_lt _ _)), bool_decide_false in * by (done || lia). apply HQ; [apply Z.ltb_lt; lia|apply Z.leb_gt; lia].
Qed.

Lemma twp_dataAvail l out t (Q : Z -> thread -> Prop) : ready l out t -> Q (Z.of_nat (length l)) t -> twp (on_mIn dataAvail) Q t.
Proof.
  intros R HQ. destruct (rd_in _ _ _ R) as (d & Hi & Hp). pose proof (hd_size _ _ _ Hi) as Hsz. cbn in Hsz. rewrite length_app in Hsz.
  pose proof (buffer_le _ _ _ _ _ (hd_data _ _ _ Hi)) as Hle. pose proof (hd_cap _ _ _ Hi) as Hc. cbn in Hle, Hc. rewrite length_app in Hle. unfold INT32_MAX in Hc.
  apply twp_mIn. unfold dataAvail, dataSize, dataPosition. psteps. cbn [this world_of]. rewrite Hsz, Hp.
  assert (u64 ((if Z.of_nat (length d) <? Z.of_nat (length d + length l) then Z.of_nat (length d + length l) else Z.of_nat (length d)) - Z.of_nat (length d)) = Z.of_nat (length l)) as ->.
  { destruct (Z.ltb_spec (Z.of_nat (length d)) (Z.of_nat (length d + length l))); rewrite u64_small; lia. }
  by destruct t.
Qed.
End Reading.

(** ** What a step of the thread does

    [runs l out l' out' F gain m a]: with the returns [l] to read and the commands
    [out] to be written, [m] returns [a], leaves [l'] and [out'], makes of the thread
    what [F] does, and gains so much of each resource. *)
Section Runs.
Context {E : ParcelEnv} {L : ParcelEnvLaws E}.

Definition runs {A} l out l' out' (F : thread -> thread) (gain : resource -> Z) (m : T A) (a : A) : Prop :=
  forall t, ready l out t -> twp m (fun b t' => b = a /\ ready l' out' t' /\ becomes (F t) gain t t') t.
Definition same_thread (t : thread) : thread := t.

Lemma runs_ret {A} l out (a : A) : runs l out l out same_thread no_gain (mret a) a.
Proof. intros t R. apply twp_ret. split_and!; [done..|apply unchanged_refl]. Qed.
Lemma runs_bind {A B} {F G} {g1 g2} l1 out1 l2 out2 l3 out3 (m : T A) (f : A -> T B) a b : Proper (alike ==> alike) G ->
  runs l1 out1 l2 out2 F g1 m a -> runs l2 out2 l3 out3 G g2 (f a) b ->
  runs l1 out1 l3 out3 (fun t => G (F t)) (fun x => g1 x + g2 x) (m ≫= f) b.
Proof.
  intros HG H1 H2 t R. apply twp_bind. eapply twp_mono; [apply (H1 t R)|]. cbn beta. intros ? t1 (-> & R1 & B1).
  eapply twp_mono; [apply (H2 t1 R1)|]. cbn beta. intros ? t2 (-> & R2 & B2). split_and!; [done..|].
  eapply becomes_trans; [exact B1|exact B2| |done]. apply HG, B1.
Qed.
Lemma runs_ext {A} l out l' out' F F' g g' (m : T A) a : runs l out l' out' F g m a -> (forall t, F t = F' t) -> (forall x, g x = g' x) ->
  runs l out l' out' F' g' m a.
Proof.
  intros H HF Hg t R. eapply twp_mono; [apply (H t R)|]. cbn beta. intros b t' (-> & R' & [B1 B2 B3]). split_and!; [done..|].
  split; [by rewrite B1, HF|done|]. intros x. by rewrite B3, Hg.
Qed.
(** Nothing changes but what is read and written. *)
Lemma runs_then {A B} l1 out1 l2 out2 l3 out3 F g (m : T A) (f : A -> T B) a b : Proper (alike ==> alike) F ->
  runs l1 out1 l2 out2 same_thread no_gain m a -> runs l2 out2 l3 out3 F g (f a) b -> runs l1 out1 l3 out3 F g (m ≫= f) b.
Proof. intros HF H1 H2. eapply runs_ext; [eapply runs_bind; [exact HF|exact H1|exact H2]|done|done]. Qed.

Lemma runs_says {A} l out e (m : T A) a : says e m a -> ~ short_of_memory -> ~ too_big (Z.of_nat (length (out ++ e))) ->
  runs l out l (out ++ e) same_thread no_gain m a.
Proof. intros H Hm Hb t R. rewrite length_app in Hb. by apply (H l out t R Hm). Qed.
Lemma runs_in32 z l out : word 4 z -> runs (le_bytes 4 z ++ l) out l out same_thread no_gain in32 (s32 z).
Proof. intros Hz t R. by eapply twp_in32. Qed.
Lemma runs_in64 z l out : word 8 z -> runs (le_bytes 8 z ++ l) out l out same_thread no_gain in64 z.
Proof. intros Hz t R. by eapply twp_in64. Qed.

Lemma holds_heap dt os p (w w' : world) : heap w' = heap w -> holds dt os (MkP p w) -> holds dt os (MkP p w').
Proof. intros Hw [Iow Isz Iby Ida Ica Ipo Icn Iob Ifi Iap Ihi Inu]. cbn in *. split; cbn; rewrite ?Hw; done. Qed.
Lemma ready_same l out t t' : ready l out t -> mIn t' = mIn t -> mOut t' = mOut t -> heap (tw t') = heap (tw t) -> ready l out t'.
Proof.
  intros [(d & Hi & Hp) [Ho Hq] Ha Hap He Hc] Ei Eo Eh. rewrite <- Ei, <- Eo in *. split; try done.
  - exists d. split; [by eapply holds_heap|done].
  - split; [by eapply holds_heap|done].
Qed.
Lemma runs_put l out f : (forall t, mIn (f t) = mIn t /\ mOut (f t) = mOut t /\ tw (f t) = tw t) -> runs l out l out f no_gain (put f) tt.
Proof.
  intros Hf t R. apply twp_put. destruct (Hf t) as (H1 & H2 & H3). split_and!; [done|apply (ready_same _ _ t); try done; by rewrite H3|].
  split; [done|unfold others; by rewrite H1, H2, H3|]. intros x. unfold thread_net, no_gain. rewrite H3. lia.
Qed.
Lemma runs_happens l out ev : runs l out l out same_thread (fun x => weight x ev) (happens ev) tt.
Proof.
  intros t R. apply twp_put. split_and!; [done|by apply (ready_same _ _ t)|]. split; [by apply alike_tw|done|].
  intros x. apply net_snoc.
Qed.
#[export] Instance same_thread_proper : Proper (alike ==> alike) same_thread.
Proof. by intros t t' H. Qed.
End Runs.

(** ** Returns about references *)
Section References.
Context {E : ParcelEnv} {L : ParcelEnvLaws E} {Ob : Objects}.
Implicit Types (r : return_) (rs : list return_).

(** What a return asks for: the answer, and what is to be given up later. *)
Definition answer_of r : list bc :=
  match r with
  | RNode RIncRefs refs obj => [BcDone false refs obj]
  | RNode RAcquire refs obj => [BcDone true refs obj]
  | _ => []
  end.
Definition strong_due r : list Z := match r with RNode RRelease _ obj => [obj] | _ => [] end.
Definition weak_due r : list Z := match r with RNode RDecRefs refs _ => [refs] | _ => [] end.
Definition taken r x : Z :=
  match r with
  | RNode RIncRefs refs _ => is_res x (Ref (Weak refs))
  | RNode RAcquire _ obj => is_res x (Ref (Strong obj))
  | _ => 0
  end.
Definition add_due r t : thread :=
  set_mPendingWeakDerefs (set_mPendingStrongDerefs t (mPendingStrongDerefs t ++ strong_due r)) (mPendingWeakDerefs t ++ weak_due r).

Definition ref_return r : Prop := match r with RNoop => True | RNode _ refs obj => word 8 refs /\ word 8 obj | _ => False end.

#[export] Instance add_due_proper r : Proper (alike ==> alike) (add_due r).
Proof. intros t t' H. unfold add_due. by rewrite H. Qed.
Lemma add_due_none r t : strong_due r = [] -> weak_due r = [] -> add_due r t = t.
Proof. unfold add_due. intros -> ->. rewrite !app_nil_r. by destruct t. Qed.


Lemma says_done strong refs obj : says (bc_bytes (BcDone strong refs obj))
  (_ ← out32 (bc_code (BcDone strong refs obj)); _ ← out64 refs; _ ← out64 obj; mret NO_ERROR) NO_ERROR.
Proof.
  unfold bc_bytes. cbn [bc_args]. rewrite <- (app_nil_r (le_bytes 8 obj)). repeat (eapply says_bind; [apply says_out32 || apply says_out64|]).
  apply says_ret.
Qed.
(** The end of [executeCommand] after success. *)
Lemma runs_no_error l1 out1 l2 out2 F g (m : T Z) : runs l1 out1 l2 out2 F g m NO_ERROR ->
  runs l1 out1 l2 out2 F g (result ← m; _ ← when_ (negb (result =? NO_ERROR)) (put (fun t => set_mLastError t result)); mret result) NO_ERROR.
Proof. intros H. eapply runs_ext; [eapply runs_bind; [apply same_thread_proper|exact H|apply runs_ret]|done|]. intros x. unfold no_gain. lia. Qed.

(** One return. *)
Lemma runs_ref waiter r l out : ref_return r -> ~ short_of_memory -> ~ too_big (Z.of_nat (length (out ++ bcs_bytes (answer_of r)))) ->
  runs (arguments r ++ l) out l (out ++ bcs_bytes (answer_of r)) (add_due r) (taken r) (executeCommand waiter (s32 (code r))) NO_ERROR.
Proof.
  intros Hr Hm Hb. unfold executeCommand. rewrite u32_s32 by apply code_word.
  destruct r as [| |c refs obj| | | | |]; try done.
  { cbn [code arguments answer_of] in *. decide_codes. rewrite app_nil_r. apply runs_no_error.
    eapply runs_ext; [apply runs_ret| |done]. intros t. symmetry. by apply add_due_none. }
  destruct Hr as [H1 H2]. cbn [arguments]. rewrite <- app_assoc.
  assert (forall F g (f : Z -> Z -> T Z), Proper (alike ==> alike) F -> runs l out l (out ++ bcs_bytes (answer_of (RNode c refs obj))) F g (f refs obj) NO_ERROR ->
    runs (le_bytes 8 refs ++ le_bytes 8 obj ++ l) out l (out ++ bcs_bytes (answer_of (RNode c refs obj))) F g (refs ← in64; obj ← in64; f refs obj) NO_ERROR) as Hargs.
  { intros F g f HF H. eapply runs_then; [done|by apply runs_in64|]. eapply runs_then; [done|by apply runs_in64|exact H]. }
  destruct c; cbn [code node_code answer_of] in *; decide_codes; apply runs_no_error; apply Hargs; try apply _.
  1-2: eapply runs_ext; [eapply runs_bind; [apply same_thread_proper|apply runs_happens|]; eapply runs_says; [apply says_done|done|]| |];
    [done|intros t; symmetry; by apply add_due_none|intros x; cbn; unfold no_gain; lia].
  all: rewrite app_nil_r; eapply runs_ext; [eapply runs_bind; [apply same_thread_proper|by apply runs_put|apply runs_ret]| |done].
  all: intros t; unfold add_due, same_thread; cbn; rewrite app_nil_r; by destruct t.
Qed.

(** ** The loop *)

Lemma runs_execute fuel r l out : ref_return r -> ~ short_of_memory -> ~ too_big (Z.of_nat (length (out ++ bcs_bytes (answer_of r)))) ->
  runs (le_bytes 4 (code r) ++ arguments r ++ l) out l (out ++ bcs_bytes (answer_of r)) (add_due r) (taken r)
    (cmd ← in32;
     _ ← put (fun t => set_mExecutingThreadsCount t (mExecutingThreadsCount t + 1));
     result ← executeCommand (waitForResponse fuel) cmd;
     _ ← put (fun t => set_mExecutingThreadsCount t (mExecutingThreadsCount t - 1));
     mret result) NO_ERROR.
Proof.
  intros Hr Hm Hb. eapply runs_then; [apply _|by apply runs_in32, code_word|].
  eapply runs_ext; [eapply (runs_bind (F := fun t => set_mExecutingThreadsCount t (mExecutingThreadsCount t + 1))
     (G := fun t => set_mExecutingThreadsCount (add_due r t) (mExecutingThreadsCount (add_due r t) - 1)))|..].
  - intros t t' H. by rewrite H.
  - by apply runs_put.
  - eapply (runs_bind (F := add_due r) (G := fun t => set_mExecutingThreadsCount t (mExecutingThreadsCount t - 1))); [|by apply runs_ref|].
    + intros t t' H. by rewrite H.
    + eapply runs_ext; [eapply runs_bind; [apply same_thread_proper|by apply runs_put|apply runs_ret]|done|done].
  - intros t. unfold add_due, set_mExecutingThreadsCount, set_mPendingStrongDerefs, set_mPendingWeakDerefs. destruct t; cbn. f_equal. lia.
  - intros x. unfold no_gain. lia.
Qed.

Lemma twp_execute_next fuel r l out t0 (Q : Z -> thread -> Prop) : ref_return r -> ~ short_of_memory -> ~ too_big (Z.of_nat (length (out ++ bcs_bytes (answer_of r)))) ->
  twp (talkWithDriver true) (fun res t => res = NO_ERROR /\ ready (le_bytes 4 (code r) ++ arguments r ++ l) out t /\
    forall t', ready l (out ++ bcs_bytes (answer_of r)) t' -> becomes (add_due r t) (taken r) t t' -> Q NO_ERROR t') t0 ->
  twp (getAndExecuteCommand fuel) Q t0.
Proof.
  intros Hr Hm Hb H. apply twp_bind. eapply twp_mono; [exact H|]. cbn beta. intros ? t (-> & R & HQ).
  change (NO_ERROR <=? NO_ERROR) with true. cbn iota. apply twp_bind. eapply twp_dataAvail; [exact R|].
  rewrite (proj2 (Z.ltb_ge _ _)) by (rewrite !length_app, length_le_bytes; lia).
  eapply twp_mono; [by apply runs_execute|]. cbn beta. intros ? t' (-> & R' & B). by apply HQ.
Qed.

(** All of the returns. *)
Definition answers rs : list bc := rs ≫= answer_of.
Definition add_dues rs t : thread := foldl (fun t r => add_due r t) t rs.
Definition taken_all rs x : Z := Zsum (fun r => taken r x) rs.
#[export] Instance add_dues_proper rs : Proper (alike ==> alike) (add_dues rs).
Proof. unfold add_dues. induction rs as [|r rs IH]; intros t t' H; [done|]. cbn. apply IH. by rewrite H. Qed.

Lemma answers_cons r rs : answers (r :: rs) = answer_of r ++ answers rs.
Proof. done. Qed.

Lemma twp_handle_loop fuel n r rs out t0 (Q : Z -> thread -> Prop) : Forall ref_return (r :: rs) -> ~ short_of_memory ->
  ~ too_big (Z.of_nat (length (out ++ bcs_bytes (answers (r :: rs))))) -> (length rs < n)%nat ->
  twp (talkWithDriver true) (fun res t => res = NO_ERROR /\ ready (BioParse.encode (r :: rs)) out t /\ 0 < mDriverFD t /\
    forall t', ready [] (out ++ bcs_bytes (answers (r :: rs))) t' -> becomes (add_dues (r :: rs) t) (taken_all (r :: rs)) t t' -> Q NO_ERROR t') t0 ->
  twp (handle_loop fuel n) Q t0.
Proof.
  intros Hrs Hm Hb Hn. revert n r out t0 Q Hrs Hb Hn. induction rs as [|r' rs IH]; intros n r out t0 Q Hrs Hb Hn H;
    (destruct n as [|n]; [lia|]); cbn [handle_loop]; pose proof Hrs as Hrs'; apply Forall_cons in Hrs as [Hr Hrs]; apply twp_bind.
  - unfold answers in *. cbn [mbind list_bind] in *. rewrite app_nil_r in *.
    eapply (twp_execute_next fuel r []); [done|done|exact Hb|]. eapply twp_mono; [exact H|]. cbn beta. intros ? t (-> & R & _ & HQ).
    rewrite encode_cons in R. split_and!; [done|exact R|]. intros t' R' B. apply (twp_more [] _ t' _ _ R').
    intros pos size -> _. cbn. apply twp_ret, HQ; [done|]. destruct B as [B1 B2 B3]. split; [done..|].
    intros x. rewrite B3. unfold taken_all. cbn. lia.
  - rewrite answers_cons, bcs_bytes_app, app_assoc in Hb.
    eapply (twp_execute_next fuel r (BioParse.encode (r' :: rs)) out); [done|done|intros Hbig; apply Hb; eapply too_big_mono; [exact Hbig|rewrite !length_app; lia]|].
    eapply twp_mono; [exact H|]. cbn beta. intros ? t (-> & R & Hfd & HQ).
    rewrite encode_cons in R. split_and!; [done|exact R|]. intros t' R' B. apply (twp_more _ _ t' _ _ R').
    intros pos size -> _. cbn [negb bool_decide]. rewrite bool_decide_false by by rewrite encode_cons. cbn [negb].
    apply (IH n r' _ t' Q Hrs Hb ltac:(cbn in Hn; lia)). pose proof (un_rest _ _ _ _ B) as Ba.
    assert (0 < mDriverFD t') as Hfd' by by rewrite Ba.
    eapply twp_talk_full; [exact R'|done|by rewrite encode_cons|]. split_and!; [done..|].
    intros t2 R2 B2. apply HQ; [by rewrite answers_cons, bcs_bytes_app, app_assoc|].
    eapply becomes_trans; [exact B|exact B2| |done]. change (add_dues (r :: r' :: rs) t) with (add_dues (r' :: rs) (add_due r t)). by rewrite Ba.
Qed.

(** ** Giving up *)

(** How much of a resource is to be given up. *)
Definition owed x t : Z :=
  Zsum (fun refs => is_res x (Ref (Weak refs))) (mPendingWeakDerefs t) + Zsum (fun obj => is_res x (Ref (Strong obj))) (mPendingStrongDerefs t).
Definition due r x : Z := Zsum (fun refs => is_res x (Ref (Weak refs))) (weak_due r) + Zsum (fun obj => is_res x (Ref (Strong obj))) (strong_due r).
Definition due_all rs x : Z := Zsum (fun r => due r x) rs.
Definition paid t : thread := set_mPendingStrongDerefs (set_mPendingWeakDerefs t []) [].
#[export] Instance paid_proper : Proper (alike ==> alike) paid.
Proof. intros t t' H. unfold paid. by rewrite H. Qed.
#[export] Instance owed_proper x : Proper (alike ==> eq) (owed x).
Proof. intros t t' H. unfold owed. by rewrite H. Qed.

Lemma owed_add_dues x rs t : owed x (add_dues rs t) = owed x t + due_all rs x.
Proof.
  revert t. induction rs as [|r rs IH]; intros t; cbn [add_dues foldl due_all Zsum]; [lia|].
  change (foldl _ _ _) with (add_dues rs (add_due r t)). rewrite IH. unfold owed at 1, due_all, due. cbn. rewrite !Zsum_app. unfold owed. lia.
Qed.
Lemma paid_add_dues rs t : paid (add_dues rs t) = paid t.
Proof. revert t. induction rs as [|r rs IH]; intros t; [done|]. etransitivity; [apply IH|]. unfold paid, add_due. by destruct t. Qed.
Lemma net_app x (l1 l2 : list event) : net x (l1 ++ l2) = net x l1 + net x l2.
Proof. apply Zsum_app. Qed.
Lemma net_releases {A} x (f : A -> reference) (l : list A) : net x ((fun a => Release (f a)) <$> l) = - Zsum (fun a => is_res x (Ref (f a))) l.
Proof. unfold net. induction l as [|a l IH]; [done|]. cbn [fmap list_fmap Zsum]. rewrite IH. cbn. lia. Qed.

Lemma twp_pending out t (Q : unit -> thread -> Prop) : ready [] out t ->
  (forall t', ready [] out t' -> becomes (paid t) (fun x => - owed x t) t t' -> Q tt t') -> twp processPendingDerefs Q t.
Proof.
  intros R HQ. apply (twp_more [] out t _ _ R). intros pos size _ ->. rewrite bool_decide_true by done. tsteps. apply HQ.
  - by apply (ready_same _ _ t).
  - split; [by destruct t|done|]. intros x. unfold thread_net. cbn -[net].
    rewrite !net_app, !net_releases. unfold owed. lia.
Qed.

Lemma encode_bytes rs : Forall ref_return rs -> Forall is_byte (BioParse.encode rs).
Proof.
  induction 1 as [|r rs Hr Hrs IH]; [constructor|]. rewrite encode_cons, !Forall_app. split_and!; [apply le_bytes_byte| |exact IH].
  destruct r; try done. apply Forall_app. split; apply le_bytes_byte.
Qed.

(** C34: reference returns are answered and paid for.  A thread that polls for commands
    and receives any sequence of reference returns executes all of them, answers each
    [BR_INCREFS] and [BR_ACQUIRE] with its [..._DONE] command in the same order, and at
    the end nothing is left to give up: of each reference the thread has taken, on
    balance, what the returns asked to take less what they and those before asked to
    give up; [n] rounds are enough, and nothing but the answers reaches the driver. *)
Theorem references_handled fuel (n : nat) rs out t a later later' : ready [] out t -> ~ short_of_memory ->
  ~ too_big (Z.of_nat (length (out ++ bcs_bytes (answers rs)))) -> 0 < mDriverFD t -> (length rs <= n)%nat -> rs ≠ [] -> Forall ref_return rs ->
  served (Z.of_nat (length out)) 0 (script t) a later -> an_read a = BioParse.encode rs -> an_mapped a = [] ->
  Z.of_nat (length (BioParse.encode rs)) <= mDataCapacity (mIn t) -> flushed (bcs_bytes (answers rs)) later later' ->
  twp (handlePolledCommands fuel n) (fun err t' => err = NO_ERROR /\ ready [] [] t' /\
    becomes (paid (set_told (set_script t later') (told t ++ out ++ bcs_bytes (answers rs))))
      (fun x => taken_all rs x - due_all rs x - owed x t) t t') t.
Proof.
  intros R Hm Hb Hfd Hn Hne Hrs Hs Hread Hmap Hcap Hf. destruct rs as [|r rs]; [done|]. apply twp_bind.
  assert (Forall is_byte (BioParse.encode (r :: rs))) as Hbytes by by apply encode_bytes.
  eapply (twp_handle_loop fuel n r rs []); [done|done| |cbn in Hn; lia|].
  { intros Hbig. apply Hb. eapply too_big_mono; [exact Hbig|]. rewrite !length_app. cbn [length]. lia. }
  apply (twp_talk true [] out t a later); try done; [by right|rewrite Hmap; intros q Hin; by apply not_elem_of_nil in Hin|by rewrite Hread|by rewrite Hread|].
  intros t1 [K1 _ K3 K4 K5]. rewrite Hread in K1. split_and!; [done|exact K1|by rewrite K3|]. intros t2 R2 B2. tsteps.
  cbn [app] in R2. eapply twp_pending; [exact R2|]. intros t3 R3 B3. assert (alike t3 (paid (set_told (set_script t later) (told t ++ out)))) as E3.
  { by rewrite (un_rest _ _ _ _ B3), (un_rest _ _ _ _ B2), paid_add_dues, K3. }
  tsteps. apply (twp_flushed [] (bcs_bytes (answers (r :: rs))) t3 later'); [done|by rewrite E3|by rewrite E3|].
  intros t4 R4 B4. tsteps. split_and!; [done..|]. split.
  - rewrite (un_rest _ _ _ _ B4), E3. cbn [told paid set_mPendingStrongDerefs set_mPendingWeakDerefs set_told]. by rewrite <- app_assoc.
  - by rewrite (un_others _ _ _ _ B4), (un_others _ _ _ _ B3), (un_others _ _ _ _ B2), K4, Hmap, mappings_nil.
  - intros x. rewrite (un_net _ _ _ _ B4), (un_net _ _ _ _ B3), (un_net _ _ _ _ B2), K5, (un_rest _ _ _ _ B2), owed_add_dues, K3.
    unfold no_gain. change (owed x (set_told (set_script t later) (told t ++ out))) with (owed x t). lia.
Qed.
End References.
