(* ===== verification/IpcCall.v ===== *)
(** * Threads: calls

    The command of a transaction, and the wait for its reply: whatever reference
    returns arrive before it are executed and answered on the way. *)
From S2P Require Import Prelude UserMem Protocol Read BioParse ParcelState Parcel ParcelWrite ParcelRead ParcelInv ParcelAppend ParcelObjects ParcelValues ParcelShows ParcelRoundtrip ParcelProps Commands IpcState IpcThread IpcTalk IpcCommands IpcReturns.

Implicit Types (t : thread) (l out e said : list Z) (n : nat) (cs : list bc) (x : resource) (p : parcel) (r : return_) (rs : list return_) (script later : list answer).

(** ** Other parcels *)
Section Parcels.
Context {E : ParcelEnv} {L : ParcelEnvLaws E}.

Lemma twp_parcel_pure {A} p (m : P A) (Q : A * parcel -> thread -> Prop) t :
  pwp m (fun a s => world_of s = tw t /\ Q (a, this s) t) (MkP p (tw t)) -> twp (on_parcel p m) Q t.
Proof.
  intros H. apply twp_parcel. eapply pwp_mono; [exact H|]. cbn beta. intros a s [-> HQ].
  rewrite drop_all. cbn [queue_frees]. apply twp_ret. by rewrite set_tw_same.
Qed.
Lemma says_field {A} p (f : parcel -> A) : says [] (on_parcel p (field_of f)) (f p, p).
Proof.
  intros l out t R _ _. rewrite app_nil_r. apply twp_parcel_pure. psteps. split_and!; [done..|]. by apply unchanged_refl.
Qed.

(** [writeTransactionData] *)
Definition txn_of p (flags handle code : Z) : binder_transaction_data :=
  transaction_of flags handle code (if mDataPos p <? mDataSize p then mDataSize p else mDataPos p) (u64 (mObjectsSize p * 8)) (mData p) (mObjects p).
Lemma txn_bytes_padded txn : pad4 (txn_bytes txn) = txn_bytes txn.
Proof. unfold pad4. rewrite length_txn_bytes. change (padded_len sizeof_binder_transaction_data) with 64%nat. by rewrite app_nil_r. Qed.
Lemma says_txn txn : says (txn_bytes txn) (on_mOut (write (txn_bytes txn))) NO_ERROR.
Proof.
  pose proof (length_txn_bytes txn) as Hl. pose proof (bytes_of_byte txn_widths (txn_fields txn)) as Hb. pose proof (txn_bytes_padded txn) as Hp.
  change (bytes_of _ _) with (txn_bytes txn) in Hb. set (l := txn_bytes txn) in *. clearbody l. apply says_write. intros dt s H.
  rewrite <- Hp at 2. apply pwp_write; [done| |by rewrite Hl|done]. intros Hn. by rewrite Hn in Hl.
Qed.
Lemma says_transaction (reply : bool) flags handle code p st : mError p = NO_ERROR ->
  says (bc_bytes (BcTransaction reply (txn_of p flags handle code))) (writeTransactionData (if reply then BC_REPLY else BC_TRANSACTION) flags handle code p st) NO_ERROR.
Proof.
  intros He. unfold writeTransactionData. rewrite <- (app_nil_l (bc_bytes _)). eapply says_bind; [apply says_field|]. rewrite He.
  change (NO_ERROR =? NO_ERROR) with true. cbn iota.
  do 4 (rewrite <- (app_nil_l (bc_bytes _)); eapply says_bind; [apply says_field|]; cbn beta iota).
  unfold bc_bytes. eapply says_bind; [apply says_out32|].
  rewrite <- (app_nil_r (bc_args _)). eapply says_bind; [apply says_txn|apply says_ret].
Qed.
End Parcels.

(** ** Waiting *)
Section Wait.
Context {E : ParcelEnv} {L : ParcelEnvLaws E} {Ob : Objects}.

(** Returns that may come before the end; [rep] is the parcel for the reply, if one is
    expected. *)
Definition waits (rep : option parcel) r : Prop := ref_return r \/ r = RTransactionComplete /\ is_Some rep.

(** [m] from a state in which the returns are still to be fetched. *)
Lemma wait_talk fuel (rep : option parcel) l out t0 (Q : Z * option parcel * option Z -> thread -> Prop) : l ≠ [] ->
  twp (talkWithDriver true) (fun res t => res = NO_ERROR /\ ready l out t /\ 0 < mDriverFD t /\ twp (waitForResponse (S fuel) rep None) Q t) t0 ->
  twp (waitForResponse (S fuel) rep None) Q t0.
Proof.
  intros Hl H. cbn [waitForResponse]. unfold response_step. apply twp_bind, twp_bind. eapply twp_mono; [exact H|]. cbn beta.
  intros ? t (-> & R & Hfd & Hw). cbn [waitForResponse] in Hw. unfold response_step in Hw. apply twp_bind_inv, twp_bind_inv in Hw.
  destruct (proj1 (twp_run _ _ _) (twp_talk_full l out t (fun err t' => err = NO_ERROR /\ t' = t) R Hfd Hl (conj eq_refl eq_refl))) as (? & ? & Ht & -> & ->).
  exact (twp_at _ _ _ _ _ Ht Hw).
Qed.

(** A round of the loop, when there is something to read. *)
Lemma wait_step fuel (rep : option parcel) r l out t (Q : Z * option parcel * option Z -> thread -> Prop) : ready (le_bytes 4 (code r) ++ l) out t -> 0 < mDriverFD t ->
  (forall t', ready l out t' -> unchanged no_gain t t' ->
     twp (let cmd := code r in
       if cmd =? BR_TRANSACTION_COMPLETE then mret (match rep with None => Finish NO_ERROR None None | Some _ => Again rep None end)
       else if cmd =? BR_DEAD_REPLY then mret (Finish DEAD_OBJECT rep None)
       else if cmd =? BR_FAILED_REPLY then mret (Finish FAILED_TRANSACTION rep None)
       else if cmd =? BR_ACQUIRE_RESULT then result ← in32; mret (Again rep None)
       else if cmd =? BR_REPLY then
         '(err, tr) ← in_transaction;
         if negb (err =? NO_ERROR) then mret (Finish err rep None) else
         match rep with
         | Some p =>
             if Z.land (td_flags tr) TF_STATUS_CODE =? 0 then p ← receive p tr; mret (Finish err (Some p) None)
             else
               l ← on_mIn (mem_load (td_buffer tr) 0 4);
               _ ← queue_free (td_buffer tr);
               mret (Finish (s32 (le_val l)) rep None)
         | None => _ ← queue_free (td_buffer tr); mret (Again rep None)
         end
       else
         err ← executeCommand (waitForResponse fuel) (s32 cmd);
         mret (if negb (err =? NO_ERROR) then Finish err rep None else Again rep None))
       (fun res t2 => match res with
         | Again reply acq => twp (waitForResponse fuel reply acq) Q t2
         | Finish err reply acq => twp (response_end err reply acq) Q t2
         end) t') ->
  twp (waitForResponse (S fuel) rep None) Q t.
Proof.
  intros R Hfd HQ. cbn [waitForResponse]. apply twp_bind. unfold response_step. apply twp_bind.
  eapply twp_talk_full; [exact R|done|by destruct l|]. change (NO_ERROR <? NO_ERROR) with false. cbn iota. tsteps. rewrite (rd_no_error _ _ _ R).
  change (NO_ERROR <? NO_ERROR) with false. cbn iota. tsteps. eapply twp_dataAvail; [exact R|].
  rewrite (proj2 (Z.eqb_neq _ 0)) by (rewrite length_app, length_le_bytes; lia). tsteps.
  eapply twp_in32; [exact R|apply code_word|]. intros t' R' U. rewrite u32_s32 by apply code_word.
  eapply twp_mono; [exact (HQ t' R' U)|]. cbn beta. intros res t2 H. by destruct res.
Qed.

Lemma wait_one fuel (rep : option parcel) r l out t (Q : Z * option parcel * option Z -> thread -> Prop) : waits rep r -> ~ short_of_memory ->
  ~ too_big (Z.of_nat (length (out ++ bcs_bytes (answer_of r)))) -> ready (le_bytes 4 (code r) ++ arguments r ++ l) out t -> 0 < mDriverFD t ->
  (forall t', ready l (out ++ bcs_bytes (answer_of r)) t' -> becomes (add_due r t) (taken r) t t' -> twp (waitForResponse fuel rep None) Q t') ->
  twp (waitForResponse (S fuel) rep None) Q t.
Proof.
  intros Hr Hm Hb R Hfd HQ. eapply wait_step; [exact R|done|]. intros t1 R1 U1. cbv zeta. destruct Hr as [Hr|[-> [p Hp]]].
  - pose proof (runs_ref (waitForResponse fuel) r l out Hr Hm Hb) as Hrun.
    destruct r as [| |[] refs obj| | | | |]; try done; cbn [code node_code] in *; decide_codes; apply twp_bind.
    all: eapply twp_mono; [exact (Hrun t1 R1)|]; cbn beta; intros err t2 (-> & R2 & B2); apply twp_ret; apply HQ; [exact R2|].
    all: eapply becomes_trans; [exact U1|exact B2|by rewrite (un_rest _ _ _ _ U1)|done].
  - subst rep. cbn [code]. decide_codes. apply twp_ret. cbn [arguments answer_of app] in *. apply HQ; [by rewrite app_nil_r|].
    rewrite add_due_none by done. exact U1.
Qed.

(** All that is there to read. *)
Lemma wait_all fuel (rep : option parcel) rs l out t (Q : Z * option parcel * option Z -> thread -> Prop) : Forall (waits rep) rs -> ~ short_of_memory ->
  ~ too_big (Z.of_nat (length (out ++ bcs_bytes (answers rs)))) -> ready (BioParse.encode rs ++ l) out t -> 0 < mDriverFD t ->
  (forall t', ready l (out ++ bcs_bytes (answers rs)) t' -> becomes (add_dues rs t) (taken_all rs) t t' -> twp (waitForResponse fuel rep None) Q t') ->
  twp (waitForResponse (length rs + fuel) rep None) Q t.
Proof.
  intros Hrs Hm. revert out t. induction Hrs as [|r rs Hr Hrs IH]; intros out t Hb R Hfd HQ; cbn [length plus].
  { apply HQ; [by rewrite app_nil_r|apply unchanged_refl]. }
  rewrite answers_cons, bcs_bytes_app in *. rewrite encode_cons in R.
  eapply (wait_one _ rep r (BioParse.encode rs ++ l) out t); [done|done| |by rewrite <- !app_assoc in R|done|].
  { intros Hbig. apply Hb. eapply too_big_mono; [exact Hbig|]. rewrite !length_app. lia. }
  intros t1 R1 B1. pose proof (un_rest _ _ _ _ B1) as E1. apply (IH (out ++ bcs_bytes (answer_of r)) t1); [by rewrite <- app_assoc|exact R1|by rewrite E1|].
  intros t2 R2 B2. apply HQ; [by rewrite app_assoc|]. eapply becomes_trans; [exact B1|exact B2| |done].
  change (add_dues (r :: rs) t) with (add_dues rs (add_due r t)). by rewrite E1.
Qed.

(** ** Rounds

    [heard out script rs said out' later]: in several calls, the driver is told [said],
    beginning with [out], and returns [rs]; [out'] are the answers to the last of them. *)
Inductive heard : list Z -> list answer -> list return_ -> list Z -> list Z -> list answer -> Prop :=
| heard_nothing out script : heard out script [] [] out script
| heard_round out script a script1 rs rs' said out' later : served (Z.of_nat (length out)) 0 script a script1 ->
    an_read a = BioParse.encode rs -> Z.of_nat (length (BioParse.encode rs)) <= 256 -> an_mapped a = [] -> rs ≠ [] ->
    heard (bcs_bytes (answers rs)) script1 rs' said out' later -> heard out script (rs ++ rs') (out ++ said) out' later.

Lemma add_dues_told rs t later l : add_dues rs (set_told (set_script t later) l) = set_told (set_script (add_dues rs t) later) l.
Proof. revert t. induction rs as [|r rs IH]; intros t; [done|]. exact (IH (add_due r t)). Qed.
Lemma add_dues_app rs rs' t : add_dues (rs ++ rs') t = add_dues rs' (add_dues rs t).
Proof. apply foldl_app. Qed.
Lemma add_dues_same rs t : told (add_dues rs t) = told t /\ script (add_dues rs t) = script t /\ mDriverFD (add_dues rs t) = mDriverFD t.
Proof. revert t. induction rs as [|r rs IH]; intros t; [done|]. exact (IH (add_due r t)). Qed.
Lemma waits_bytes (rep : option parcel) rs : Forall (waits rep) rs -> Forall is_byte (BioParse.encode rs).
Proof.
  intros H. induction rs as [|r rs IH]; [constructor|]. apply Forall_cons in H as [Hr Hrs]. rewrite encode_cons, !Forall_app.
  split_and!; [apply le_bytes_byte| |by apply IH]. destruct Hr as [Hr|[-> _]]; [|constructor].
  destruct r; try done. apply Forall_app. split; apply le_bytes_byte.
Qed.
Lemma encode_not_nil rs : rs ≠ [] -> BioParse.encode rs ≠ [].
Proof. by destruct rs. Qed.

Lemma wait_heard fuel (rep : option parcel) rs out script said out' later t (Q : Z * option parcel * option Z -> thread -> Prop) : heard out script rs said out' later ->
  Forall (waits rep) rs -> ~ short_of_memory -> ~ too_big (Z.of_nat (length (bcs_bytes (answers rs)))) -> ready [] out t -> IpcState.script t = script -> 0 < mDriverFD t ->
  (forall t', ready [] out' t' -> becomes (set_told (set_script (add_dues rs t) later) (told t ++ said)) (taken_all rs) t t' ->
     twp (waitForResponse fuel rep None) Q t') ->
  twp (waitForResponse (length rs + fuel) rep None) Q t.
Proof.
  intros H. revert t. induction H as [out script|out script a script1 rs rs' said out' later Hs Hread Hcap Hmap Hne H IH]; intros t Hrs Hm Hb R Hsc Hfd HQ.
  { apply HQ; [done|]. rewrite app_nil_r, <- Hsc. split; [by destruct t|done|]. unfold taken_all. cbn. lia. }
  apply Forall_app in Hrs as [Hrs Hrs']. rewrite length_app. destruct rs as [|r rs]; [done|]. unfold answers in Hb. rewrite bind_app, bcs_bytes_app, length_app in Hb.
  pose proof (rd_capacity _ _ _ R) as Hc.
  cbn [length plus]. apply (wait_talk _ rep (BioParse.encode (r :: rs)) []); [by apply encode_not_nil|].
  apply (twp_talk true [] out t a script1); try done; [by right|by rewrite Hsc|rewrite Hmap; intros q Hin; by apply not_elem_of_nil in Hin|
    rewrite Hread; by eapply waits_bytes|rewrite Hread; lia|].
  intros t1 [K1 _ K3 K4 K5]. rewrite Hread in K1. split_and!; [done|exact K1|by rewrite K3|].
  change (S (length rs + length rs' + fuel)) with (length (r :: rs) + length rs' + fuel)%nat. rewrite <- Nat.add_assoc.
  apply (wait_all _ rep (r :: rs) [] [] t1); [done|done| |by rewrite app_nil_r|by rewrite K3|].
  { intros Hbig. apply Hb. eapply too_big_mono; [exact Hbig|]. cbn [app]. unfold answers. lia. }
  intros t2 R2 B2. cbn [app] in R2. assert (alike t2 (set_told (set_script (add_dues (r :: rs) t) script1) (told t ++ out))) as E2.
  { by rewrite (un_rest _ _ _ _ B2), K3, add_dues_told. }
  destruct (add_dues_same (r :: rs) t) as (D1 & D2 & D3).
  apply (IH t2); [done|done| |exact R2|by rewrite E2|rewrite E2; cbn -[add_dues]; by rewrite D3|].
  { intros Hbig. apply Hb. eapply too_big_mono; [exact Hbig|]. unfold answers. lia. }
  intros t3 R3 B3. apply HQ; [exact R3|]. split.
  - rewrite (un_rest _ _ _ _ B3), E2, add_dues_told, add_dues_app. cbn [told set_told]. by rewrite app_assoc.
  - by rewrite (un_others _ _ _ _ B3), (un_others _ _ _ _ B2), K4, Hmap, mappings_nil.
  - intros x. rewrite (un_net _ _ _ _ B3), (un_net _ _ _ _ B2), K5. unfold taken_all. rewrite Zsum_app. lia.
Qed.

(** ** The reply *)

(** The driver's buffer for a transaction: its data and the offsets of its objects. *)
Record in_buffer (tr : binder_transaction_data) (dt os : list Z) (h : gmap Z chunk) : Prop := {
  ib_data : h !! td_buffer tr = Some (MkChunk false dt);
  ib_offsets : h !! td_offsets tr = Some (MkChunk false os);
  ib_size : td_data_size tr = Z.of_nat (length dt);
  ib_count : td_offsets_size tr = 8 * Z.of_nat (length os);
  ib_bytes : Forall is_byte dt;
  ib_small : Z.of_nat (length dt) <= INT32_MAX;
  ib_fit : objects_fit os (Z.of_nat (length dt))
}.

Lemma in_buffer_union tr dt os (h h' : gmap Z chunk) : in_buffer tr dt os h -> in_buffer tr dt os (h ∪ h').
Proof. intros []. split; try done; by apply lookup_union_Some_l. Qed.

Lemma twp_in_transaction tr l out t (Q : Z * binder_transaction_data -> thread -> Prop) : ready (txn_bytes tr ++ l) out t ->
  Forall2 word txn_widths (txn_fields tr) -> (forall t', ready l out t' -> unchanged no_gain t t' -> Q (NO_ERROR, tr) t') -> twp in_transaction Q t.
Proof.
  intros R Hw HQ. apply twp_bind. eapply (twp_reads _ (txn_bytes tr) l out t (NO_ERROR, txn_bytes tr)); [exact R| |].
  - intros dt s Hs Hn. rewrite <- (txn_bytes_padded tr) in Hn |- * at 1. rewrite <- (length_txn_bytes tr). by apply (reads_read dt []); [| |rewrite length_txn_bytes].
  - intros t' R' U. cbn beta iota. apply twp_ret. rewrite txn_back by done. by apply HQ.
Qed.

Lemma twp_receive tr dt os l out t (Q : parcel -> thread -> Prop) : ready l out t -> in_buffer tr dt os (others t) ->
  (forall p, shows dt os (MkP p (tw t)) -> mDataPos p = 0 -> mError p = NO_ERROR -> Q p t) -> twp (receive initial_parcel tr) Q t.
Proof.
  intros R [Hd Ho Hsz Hc Hb Hl Hf] HQ. apply others_lookup in Hd as [Hd _]. apply others_lookup in Ho as [Ho _].
  assert (heap (tw t) !! 0 = None) as H0. { destruct (rd_out _ _ _ R) as [H _]. apply (hd_null _ _ _ H). }
  unfold receive. rewrite Hsz, Hc. rewrite (Z.mul_comm 8), Z.div_mul by done. apply twp_bind, twp_parcel_pure.
  eapply pwp_mono; [apply (pwp_received dt os (tw t)); try done; intros Hz; congruence|]. cbn beta.
  intros _ [p w] (Hs & Hp & Hw & He). cbn [world_of this] in *. subst w. split; [done|]. apply twp_ret. by apply HQ.
Qed.

Lemma wait_reply fuel tr dt os l out t (Q : Z * option parcel * option Z -> thread -> Prop) : ready (BioParse.encode [RReply tr] ++ l) out t ->
  0 < mDriverFD t -> Forall2 word txn_widths (txn_fields tr) -> Z.land (td_flags tr) TF_STATUS_CODE = 0 -> in_buffer tr dt os (others t) ->
  (forall p t', ready l out t' -> unchanged no_gain t t' -> shows dt os (MkP p (tw t')) -> mDataPos p = 0 -> mError p = NO_ERROR -> Q (NO_ERROR, Some p, None) t') ->
  twp (waitForResponse (S fuel) (Some initial_parcel) None) Q t.
Proof.
  intros R Hfd Hw Hfl Hib HQ. rewrite encode_cons in R. cbn [arguments] in R. rewrite <- !app_assoc in R. cbn [BioParse.encode mbind list_bind app] in R.
  eapply (wait_step _ _ (RReply tr)); [exact R|done|]. intros t1 R1 U1. cbv zeta. cbn [code]. decide_codes.
  apply twp_bind. eapply twp_in_transaction; [exact R1|done|]. intros t2 R2 U2. cbn beta iota.
  change (NO_ERROR =? NO_ERROR) with true. cbn [negb]. cbn iota. rewrite Hfl. change (0 =? 0) with true. cbn iota. apply twp_bind.
  eapply (twp_receive tr dt os); [exact R2|by rewrite (un_others _ _ _ _ U2), (un_others _ _ _ _ U1)|]. intros p Hs Hp He. tsteps.
  unfold response_end. change (NO_ERROR =? NO_ERROR) with true. cbn iota. apply twp_ret. apply HQ; try done.
  eapply unchanged_trans; [exact U1|exact U2|done].
Qed.

(** ** The call *)
Lemma heard_said out script rs said out' later : heard out script rs said out' later -> said ++ out' = out ++ bcs_bytes (answers rs).
Proof.
  induction 1 as [|out script a script1 rs rs' said out' later _ _ _ _ _ _ IH]; [by rewrite app_nil_r|].
  unfold answers. rewrite bind_app, bcs_bytes_app, <- app_assoc. f_equal. exact IH.
Qed.

(** What the script has for the call: rounds with [rs1], and a last one that ends with the reply. *)
Record replied out script rs1 rs2 tr a later : Prop := {
  rp_rounds : exists said out' script1, heard out script rs1 said out' script1 /\ served (Z.of_nat (length out')) 0 script1 a later;
  rp_read : an_read a = BioParse.encode (rs2 ++ [RReply tr]);
  rp_fits : Z.of_nat (length (an_read a)) <= 256;
  rp_waits : Forall (waits (Some initial_parcel)) (rs1 ++ rs2);
  rp_words : Forall2 word txn_widths (txn_fields tr)
}.

Lemma encode_app rs rs' : BioParse.encode (rs ++ rs') = BioParse.encode rs ++ BioParse.encode rs'.
Proof. apply bind_app. Qed.

Lemma reply_bytes (rep : option parcel) rs tr : Forall (waits rep) rs -> Forall is_byte (BioParse.encode (rs ++ [RReply tr])).
Proof.
  intros H. rewrite encode_app. apply Forall_app. split; [by eapply waits_bytes|]. rewrite encode_cons, !Forall_app.
  split_and!; [apply le_bytes_byte|apply bytes_of_byte|constructor].
Qed.

Lemma wait_replied fuel rs1 rs2 tr a dt os out later t (Q : Z * option parcel * option Z -> thread -> Prop) : replied out (script t) rs1 rs2 tr a later ->
  ready [] out t -> ~ short_of_memory -> ~ too_big (Z.of_nat (length (bcs_bytes (answers (rs1 ++ rs2))))) -> 0 < mDriverFD t -> mappable (an_mapped a) t ->
  in_buffer tr dt os (mappings (an_mapped a)) -> Z.land (td_flags tr) TF_STATUS_CODE = 0 -> (length (rs1 ++ rs2) < fuel)%nat ->
  (forall p t', shows dt os (MkP p (tw t')) -> mDataPos p = 0 -> ready [] (bcs_bytes (answers rs2)) t' ->
    alike t' (set_told (set_script (add_dues (rs1 ++ rs2) t) later) (told t ++ out ++ bcs_bytes (answers rs1))) ->
    others t' = mappings (an_mapped a) ∪ others t -> (forall x, thread_net x t' = thread_net x t + taken_all (rs1 ++ rs2) x) -> Q (NO_ERROR, Some p, None) t') ->
  twp (waitForResponse fuel (Some initial_parcel) None) Q t.
Proof.
  intros [(said & out' & script1 & Hh & Hs) Hread Hfits Hw Hwords] R Hm Hb Hfd Hmap Hib Hfl Hfuel HQ. apply Forall_app in Hw as [Hw1 Hw2].
  rewrite length_app in Hfuel. unfold answers in Hb. rewrite bind_app, bcs_bytes_app, length_app in Hb.
  replace fuel with (length rs1 + (length rs2 + S (fuel - length rs1 - length rs2 - 1)))%nat by lia.
  eapply wait_heard; [exact Hh|done|done| |exact R|done|done|].
  { intros Hbig. apply Hb. eapply too_big_mono; [exact Hbig|]. unfold answers. lia. }
  intros t1 R1 B1. destruct (add_dues_same rs1 t) as (_ & _ & D3). pose proof (un_rest _ _ _ _ B1) as E1. pose proof (rd_capacity _ _ _ R1) as Hcap.
  assert (mappable (an_mapped a) t1) as Hmap1. { intros q Hq. rewrite (un_others _ _ _ _ B1). by apply Hmap. }
  rewrite <- Nat.add_succ_comm. apply (wait_talk _ _ (an_read a) []); [rewrite Hread; apply encode_not_nil; by destruct rs2|].
  assert (0 < mDriverFD t1) as Hfd1 by (rewrite E1; cbn -[add_dues]; by rewrite D3).
  apply (twp_talk true [] out' t1 a later); try done; [by right|by rewrite E1| |lia|].
  { rewrite Hread. by eapply reply_bytes. }
  intros t2 [K1 _ K3 K4 K5]. cbn [app] in K1. split_and!; [done|exact K1|by rewrite K3|]. rewrite plus_n_Sm.
  rewrite Hread, encode_app in K1.
  apply (wait_all _ _ rs2 (BioParse.encode [RReply tr]) [] t2); [done|done| |exact K1|by rewrite K3|].
  { intros Hbig. apply Hb. eapply too_big_mono; [exact Hbig|]. cbn [app]. unfold answers. lia. }
  intros t3 R3 B3. cbn [app] in R3. rewrite <- (app_nil_r (BioParse.encode [RReply tr])) in R3. destruct (add_dues_same rs2 t2) as (_ & _ & D3').
  eapply (wait_reply _ tr dt os []); [exact R3|rewrite (un_rest _ _ _ _ B3), D3', K3; exact Hfd1|done|done| |].
  { rewrite (un_others _ _ _ _ B3), K4. by apply in_buffer_union. }
  intros p t4 R4 U4 Hsh Hp He. apply HQ; try done.
  - rewrite (un_rest _ _ _ _ U4), (un_rest _ _ _ _ B3), K3, E1, !add_dues_told, add_dues_app. cbn [told set_told].
    by rewrite <- app_assoc, (heard_said _ _ _ _ _ _ Hh).
  - by rewrite (un_others _ _ _ _ U4), (un_others _ _ _ _ B3), K4, (un_others _ _ _ _ B1).
  - intros x. rewrite (un_net _ _ _ _ U4), (un_net _ _ _ _ B3), K5, (un_net _ _ _ _ B1). unfold no_gain, taken_all. rewrite Zsum_app. lia.
Qed.

Definition call_command p (flags handle code : Z) : bc := BcTransaction false (txn_of p (Z.lor flags TF_ACCEPT_FDS) handle code).

Lemma twp_transact_start fuel handle code p (reply : option parcel) flags out t (Q : Z * option parcel -> thread -> Prop) : ready [] out t -> ~ short_of_memory ->
  ~ too_big (Z.of_nat (length (out ++ bc_bytes (call_command p flags handle code)))) -> mError p = NO_ERROR -> Z.land (Z.lor flags TF_ACCEPT_FDS) TF_ONE_WAY = 0 ->
  (forall t', ready [] (out ++ bc_bytes (call_command p flags handle code)) t' -> unchanged no_gain t t' ->
    twp (match reply with
      | Some r => '(err, r, _) ← waitForResponse fuel (Some r) None; mret (err, r)
      | None => '(err, r, _) ← waitForResponse fuel (Some initial_parcel) None; _ ← on_parcel (default initial_parcel r) freeDataNoInit; mret (err, None)
      end) Q t') ->
  twp (transact fuel handle code p reply flags) Q t.
Proof.
  intros R Hm Hb He Hfl HQ. unfold transact. apply twp_bind. eapply twp_mono; [apply (says_field p mError [] out t R Hm)|].
  { intros Hbig. apply Hb. eapply too_big_mono; [exact Hbig|]. rewrite length_app. cbn [length]. lia. }
  cbn beta. intros [? ?] t1 ([= -> ->] & R1 & U1). rewrite app_nil_r in R1. cbn beta iota. rewrite He. change (NO_ERROR =? NO_ERROR) with true. cbn iota.
  rewrite Hfl. apply twp_bind. eapply twp_mono; [eapply (says_transaction false (Z.lor flags TF_ACCEPT_FDS) handle code p None He [] out t1 R1 Hm)|].
  { intros Hbig. apply Hb. by rewrite length_app. }
  cbn beta. intros ? t2 (-> & R2 & U2). change (negb (NO_ERROR =? NO_ERROR)) with false. change (0 =? 0) with true. cbn iota. apply HQ; [exact R2|].
  eapply unchanged_trans; [exact U1|exact U2|done].
Qed.

(** C33: a call is answered.  [transact] tells the driver what was queued before, exactly
    one [BC_TRANSACTION] with the caller's data and offsets, and the answers to the
    reference returns that come before the reply, in order; it executes each of these
    returns once, in however many reads and after however many interruptions they
    arrive; it returns [NO_ERROR] with a reply parcel that shows the data and the objects
    of the driver's buffer; and one unit of fuel for each return is enough. *)
Theorem call_answered fuel handle code p flags rs1 rs2 tr a dt os out later t : ready [] out t -> ~ short_of_memory ->
  ~ too_big (Z.of_nat (length (out ++ bc_bytes (call_command p flags handle code)))) -> ~ too_big (Z.of_nat (length (bcs_bytes (answers (rs1 ++ rs2))))) ->
  0 < mDriverFD t -> mError p = NO_ERROR -> Z.land (Z.lor flags TF_ACCEPT_FDS) TF_ONE_WAY = 0 ->
  replied (out ++ bc_bytes (call_command p flags handle code)) (script t) rs1 rs2 tr a later -> mappable (an_mapped a) t ->
  in_buffer tr dt os (mappings (an_mapped a)) -> Z.land (td_flags tr) TF_STATUS_CODE = 0 -> (length (rs1 ++ rs2) < fuel)%nat ->
  twp (transact fuel handle code p (Some initial_parcel) flags) (fun '(err, reply) t' => err = NO_ERROR /\
    (exists q : parcel, reply = Some q /\ shows dt os (MkP q (tw t')) /\ mDataPos q = 0) /\
    ready [] (bcs_bytes (answers rs2)) t' /\
    alike t' (set_told (set_script (add_dues (rs1 ++ rs2) t) later) (told t ++ out ++ bc_bytes (call_command p flags handle code) ++ bcs_bytes (answers rs1))) /\
    others t' = mappings (an_mapped a) ∪ others t /\
    forall x, thread_net x t' = thread_net x t + taken_all (rs1 ++ rs2) x) t.
Proof.
  intros R Hm Hb1 Hb2 Hfd He Hfl Hrep Hmap Hib Hst Hfuel. apply (twp_transact_start fuel handle code p _ flags out); try done.
  intros t1 R1 U1. pose proof (un_rest _ _ _ _ U1) as E1. apply twp_bind. eapply (wait_replied _ rs1 rs2 tr a dt os); try done.
  - by rewrite E1.
  - by rewrite E1.
  - intros q Hq. rewrite (un_others _ _ _ _ U1). by apply Hmap.
  - intros q t' Hs Hp R' E' O' N'. cbn beta iota. apply twp_ret. split_and!; [done|by exists q|done| |by rewrite O', (un_others _ _ _ _ U1)|].
    + by rewrite E', E1, <- app_assoc.
    + intros x. rewrite N', (un_net _ _ _ _ U1). unfold no_gain. lia.
Qed.
End Wait.
