(* ===== verification/IpcExamples.v ===== *)
(** * Threads: concrete runs

    A thread with nothing to do, a driver that answers it, and the hypotheses of the
    properties of threads at concrete inputs. *)
From S2P Require Import Prelude UserMem RbTree Alloc Protocol Kernel Refs Transact Send Write BioParse ParcelState Parcel ParcelWrite ParcelRead ParcelInv ParcelAppend ParcelObjects ParcelValues ParcelShows ParcelRoundtrip ParcelProps ParcelErrors Commands IpcState IpcThread IpcTalk IpcCommands IpcReturns IpcCall.

(** ** A process *)

(** Its objects do nothing; all of them are alive. *)
#[export] Instance no_objects : Objects := {
  object_onTransact obj code data reply flags := mret (NO_ERROR, data, reply);
  context_object := 0;
  attempt_strong t refs := true;
  promote t r := true;
  binder_died r p := mret tt;
  stack_at t := 2 ^ 40
}.

Definition buffered (a : Z) : parcel := set_mDataCapacity (set_mData initial_parcel a) 256.
(** The parcels have their buffers, and the driver's area is mapped. *)
Definition idle_heap : gmap Z chunk :=
  {[4096 := MkChunk true (replicate 256 0); 8192 := MkChunk true (replicate 256 0); 12288 := MkChunk false []; 12544 := MkChunk false []]}.
Definition idle (s : list answer) : IpcState.thread :=
  MkThread (buffered 4096) (buffered 8192) [] [] 0 100 1000 3 0 true ∅ s [] (MkWorld idle_heap 512 2 0 0 []).

Lemma buffered_holds a : a = 4096 \/ a = 8192 -> holds [] [] (MkP (buffered a) (MkWorld idle_heap 512 2 0 0 [])).
Proof.
  intros [-> | ->]; split; try done; cbn; try lia.
  1,4: right; split; [done|]; exists (replicate 256 0); split_and!; [by vm_compute|done|by apply Forall_replicate].
  1,3: by left.
  all: split; constructor.
Qed.
Lemma idle_ready s : ready [] [] (idle s).
Proof.
  split; try done.
  - exists []. split; [apply (buffered_holds 4096); by left|done].
  - split; [apply (buffered_holds 8192); by right|done].
  - intros a [-> | ->] Hn; cbn in *; lia.
Qed.
Lemma memory_left : ~ short_of_memory.
Proof. intros [(x & n & H)|(x & p & n & H)]; discriminate H. Qed.

(** ** Commands *)
Definition some_commands : list bc := [BcRef true true 5; BcDeath true 5 20480; BcRef false false 5].
(** The first call is interrupted after one command. *)
Definition interrupted : list answer := [MkAnswer (-4) 8 [] []; MkAnswer 0 32 [] []].
Lemma some_commands_taken : flushed (bcs_bytes some_commands) interrupted [].
Proof.
  right. split; [done|]. exists (MkAnswer 0 32 [] []). split_and!; [|done|done].
  by apply served_later, served_now.
Qed.
Lemma some_commands_fit : ~ too_big (Z.of_nat (length (bcs_bytes some_commands))).
Proof. by vm_compute. Qed.
Lemma some_commands_ok : Forall (fun c => has_queue c = true) some_commands /\ Forall bc_ok some_commands.
Proof. split; repeat constructor; by vm_compute. Qed.
Lemma commands_delivered_witness : twp (_ ← queue_all some_commands; flushCommands) (fun _ t' => ready [] [] t' /\ exists bytes,
    becomes (set_told (set_script (idle interrupted) []) (told (idle interrupted) ++ bytes)) no_gain (idle interrupted) t' /\
    forall (M : Type) (uops : UserOps M) (env : KernelEnv) (rb : RbOps) (jk : Junk) (u : M) cur p th buffer s,
      holds_bytes u buffer bytes -> 0 <= buffer -> buffer + Z.of_nat (length bytes) < 2 ^ 64 ->
      binder_thread_write u cur p th buffer (Z.of_nat (length bytes)) 0 s = run_bcs u cur p th some_commands 0 s) (idle interrupted).
Proof.
  exact (commands_delivered some_commands [] (idle interrupted) [] (idle_ready _) memory_left some_commands_fit eq_refl
    (proj1 some_commands_ok) (proj2 some_commands_ok) some_commands_taken).
Defined.
Example some_commands_told : match (_ ← queue_all some_commands; flushCommands) (idle interrupted) with
  | Ok (Some _, t) => (told t, length (script t)) | _ => ([], 9%nat) end = (bcs_bytes some_commands, 0%nat).
Proof. vm_compute. reflexivity. Qed.

(** ** Returns *)
Definition some_returns : list return_ := [RNoop; RNode RIncRefs 64 128; RNode RAcquire 64 128; RNode RRelease 64 128; RNode RDecRefs 32 96].
Definition returning : list answer := [MkAnswer 0 0 (BioParse.encode some_returns) []; MkAnswer 0 40 [] []].
Lemma some_returns_ok : Forall ref_return some_returns.
Proof. repeat constructor; by vm_compute. Qed.
Lemma some_returns_read : served (Z.of_nat (@length Z [])) 0 returning (MkAnswer 0 0 (BioParse.encode some_returns) []) [MkAnswer 0 40 [] []].
Proof. by apply served_now. Qed.
Lemma some_returns_fit : ~ too_big (Z.of_nat (length ([] ++ bcs_bytes (answers some_returns)))) /\
  Z.of_nat (length (BioParse.encode some_returns)) <= mDataCapacity (mIn (idle returning)).
Proof. split; by vm_compute. Qed.
Lemma some_answers_taken : flushed (bcs_bytes (answers some_returns)) [MkAnswer 0 40 [] []] [].
Proof. right. split; [done|]. exists (MkAnswer 0 40 [] []). split_and!; [by apply served_now|done|done]. Qed.
Lemma references_handled_witness : twp (handlePolledCommands 0 6) (fun err t' => err = NO_ERROR /\ ready [] [] t' /\
    becomes (paid (set_told (set_script (idle returning) []) (told (idle returning) ++ [] ++ bcs_bytes (answers some_returns))))
      (fun x => taken_all some_returns x - due_all some_returns x - owed x (idle returning)) (idle returning) t') (idle returning).
Proof.
  apply (references_handled 0 6 some_returns [] (idle returning) (MkAnswer 0 0 (BioParse.encode some_returns) []) [MkAnswer 0 40 [] []] []).
  - apply idle_ready.
  - exact memory_left.
  - exact (proj1 some_returns_fit).
  - reflexivity.
  - cbn. lia.
  - discriminate.
  - exact some_returns_ok.
  - exact some_returns_read.
  - reflexivity.
  - reflexivity.
  - exact (proj2 some_returns_fit).
  - exact some_answers_taken.
Defined.
Example some_returns_run : match handlePolledCommands 0 6 (idle returning) with
  | Ok (Some err, t) => (err, bool_decide (told t = bcs_bytes (answers some_returns)), trace (tw t), mPendingStrongDerefs t) | _ => (1, false, [], []) end =
  (NO_ERROR, true, [Acquire (Weak 64); Acquire (Strong 128); Release (Weak 32); Release (Strong 128)], []).
Proof. vm_compute. reflexivity. Qed.

(** ** A call *)
Definition a_reply : binder_transaction_data := MkTxn 0 0 0 0 0 0 4 0 12288 12544.
Definition before_reply : list return_ := [RNoop; RNode RIncRefs 64 128; RTransactionComplete].
Definition last_answer : answer := MkAnswer 0 20 (BioParse.encode ([RNoop] ++ [RReply a_reply])) [(12288, [7; 0; 0; 0]); (12544, [])].
Definition answering : list answer := [MkAnswer (- EINTR) 68 [] []; MkAnswer 0 68 (BioParse.encode before_reply) []; last_answer].
Lemma an_answer : replied ([] ++ bc_bytes (call_command initial_parcel 0 5 7)) (script (idle answering)) before_reply [RNoop] a_reply last_answer [].
Proof.
  split.
  - exists (([] ++ bc_bytes (call_command initial_parcel 0 5 7)) ++ []), (bcs_bytes (answers before_reply)), [last_answer]. split.
    + rewrite <- (app_nil_r before_reply). eapply (heard_round _ _ (MkAnswer 0 68 (BioParse.encode before_reply) []) [last_answer]); try done.
      * by apply served_later, served_now.
      * apply heard_nothing.
    + by apply served_now.
  - reflexivity.
  - by vm_compute.
  - cbn. repeat (apply Forall_cons; split); [by left|left; by vm_compute|by right|by left|by apply Forall_nil].
  - repeat constructor; by vm_compute.
Qed.
Lemma a_reply_buffer : in_buffer a_reply [7; 0; 0; 0] [] (mappings (an_mapped last_answer)).
Proof. split; try done; repeat constructor; done. Qed.
Lemma last_mappable : mappable (an_mapped last_answer) (idle answering).
Proof. intros q Hq. cbn in Hq. rewrite !elem_of_cons in Hq. destruct Hq as [->|[->|Hq]]; [by exists []|by exists []|by apply not_elem_of_nil in Hq]. Qed.
Lemma call_fits : ~ too_big (Z.of_nat (length ([] ++ bc_bytes (call_command initial_parcel 0 5 7)))) /\
  ~ too_big (Z.of_nat (length (bcs_bytes (answers (before_reply ++ [RNoop]))))).
Proof. split; by vm_compute. Qed.
Lemma call_answered_witness : twp (transact 5 5 7 initial_parcel (Some initial_parcel) 0) (fun '(err, reply) t' => err = NO_ERROR /\
    (exists q : parcel, reply = Some q /\ shows [7; 0; 0; 0] [] (MkP q (tw t')) /\ mDataPos q = 0) /\
    ready [] (bcs_bytes (answers [RNoop])) t' /\
    alike t' (set_told (set_script (add_dues (before_reply ++ [RNoop]) (idle answering)) [])
      (told (idle answering) ++ [] ++ bc_bytes (call_command initial_parcel 0 5 7) ++ bcs_bytes (answers before_reply))) /\
    others t' = mappings (an_mapped last_answer) ∪ others (idle answering) /\
    forall x, thread_net x t' = thread_net x (idle answering) + taken_all (before_reply ++ [RNoop]) x) (idle answering).
Proof.
  apply (call_answered 5 5 7 initial_parcel 0 before_reply [RNoop] a_reply last_answer [7; 0; 0; 0] [] [] []).
  - apply idle_ready.
  - exact memory_left.
  - exact (proj1 call_fits).
  - exact (proj2 call_fits).
  - reflexivity.
  - reflexivity.
  - reflexivity.
  - exact an_answer.
  - exact last_mappable.
  - exact a_reply_buffer.
  - reflexivity.
  - cbn. lia.
Defined.
